(* ===== verification/_CoqProject ===== *)
-Q . S2P
Prelude.v
ByteOps.v
StrOps.v
Pack.v
Tai.v
SafeMult.v
Utf8.v
Digits.v
FmtNum.v
ScanNum.v
Num.v
TextHex.v
Base64.v
TextEsc.v
Heap.v
Critbit.v
Cbmap.v
Cb.v
Chain.v
Dlist.v
Memory.v
Stralloc.v
Buffer.v
Strlist.v
HashSet.v
Hmap.v
HmapDict.v
HmapTypes.v
Charbuf.v
Json.v
JsonParse.v
JsonPrint.v
Dns.v
DnsNames.v
DnsReverse.v
DnsPacket.v
DnsSort.v
Fnmatch.v
Path.v
