(* ===== verification/Prelude.v ===== *)
(** * The libraries of dirlist

    The programs of this repository (directory listers, downloaders, makefile
    generators, ...) are thin: files, processes and sockets around the
    libraries under [src/lib/].  This development models those libraries, the
    ones that hold the logic, from the bytes up.

    ** Conventions

    A byte, a C character and an integer of any width are a [Z] with its range
    written out; [u8], [u32], [u64], [s32], ... wrap a result around to its
    width, [chk32] and [chk64] give [None] for signed overflow.  [None] always
    is undefined behaviour (an access outside an object, a null pointer
    followed, a failing [assert], signed overflow) or a loop that has used up
    its fuel; that a function gives [Some] is therefore a theorem about memory
    safety and termination.  A pointer that is only read through is the list of
    the characters from it to the end of its object; a terminated string [s] in
    it is [cstr s ++ z].  A routine that writes takes the object and gives it
    back ([load] and [store] check the bounds).  Where the destination may be
    [NULL], as in [lib/fmt/], a flag says so and the result is the bytes stored
    and the length returned ([out]).  The data model is LP64 and little-endian,
    characters are read as unsigned ones; the branches for Windows are not
    modelled.

    ** The files

    - Prelude.v: character literals, integers at their width, objects,
      terminated strings, [ctype.h].
    - ByteOps.v ([lib/byte/]) and StrOps.v ([lib/str/], [lib/case/]): blocks and
      strings; everything below calls them.
    - Pack.v ([lib/uint16/], [lib/uint32/], [lib/uint64/], DER and protobuf
      integers), Tai.v ([lib/tai/], [lib/taia/]), SafeMult.v
      ([lib/safemult/], [lib/rangecheck.h]).
    - Digits.v (numerals, the reference), FmtNum.v ([lib/fmt/]), ScanNum.v
      ([lib/scan/]) and Num.v, their theorems.
    - Utf8.v ([lib/utf8/], [lib/ucs/], UTF-8 in [lib/fmt/] and [lib/scan/]),
      TextHex.v, Base64.v and TextEsc.v ([lib/textcode/]).
    - Heap.v: memory as answers to requests and a count of live blocks.
      Critbit.v: the trees of Cbmap.v ([lib/cbmap/]) and Cb.v ([lib/cb/]).
    - Chain.v (links of cells in a given order) and Dlist.v ([lib/dlist/]):
      linked lists in a shared store of cells.
    - Memory.v: blocks with an identity, for Stralloc.v ([lib/stralloc/]), the
      growing strings, and Buffer.v ([lib/buffer/]), buffered input and output
      over an abstract device; Strlist.v ([lib/strlist/]), lists of strings in
      one growing string.
    - Hmap.v ([lib/hmap/]): hash maps in a shared store of tuples, with the
      invariant of their rings; HmapDict.v, that they are dictionaries, and what
      they do outside that contract; HmapTypes.v, their tagged union.
    - Charbuf.v ([lib/charbuf/]): characters with look-ahead over a device.
      Json.v ([lib/json/], the printers of [jsontest.c] and [jsonpp.c]): values,
      parser and printer; JsonParse.v, a grammar and that the parser reads it;
      JsonPrint.v, the text the printer writes and that it is in the grammar.
    - Dns.v ([lib/dns/]): names, packets, answers and the generator that
      shuffles addresses; DnsNames.v, what is proved of names, DnsReverse.v of
      the names of addresses, DnsPacket.v of packets and their text answers,
      DnsSort.v of the generator and the answers with addresses.
    - HashSet.v ([lib/set/]), Fnmatch.v and Path.v ([lib/path/]).

    A definition has the name of the C function it translates; the loops of a
    function are definitions of their own ([..._loop]), its [goto]s and shared
    exits local definitions.  The structs are records ([stralloc], [buffer],
    [set_t], [dlist], [cbmap], ...) with the fields of the source.

    ** How the parts meet

    A component states what it promises in terms of abstract data, and its
    clients use that.  A [stralloc] with [rep m sa xs] holds the bytes [xs];
    an operation [yields] the new bytes or, when memory ran out, leaves the
    old ones, and [evolves] the memory only at the block of the string; Path.v
    and the [lib/set/] routines that print are proved against [rep] and
    [edits].  The classes [Writer]/[WriterLaws] and [Reader]/[ReaderLaws] of
    Buffer.v state the documented behaviour of [read] and [write] (how much they
    take or give, that an interrupted call has done nothing and comes back only
    so often) and count the calls that failed ([write_faults], [read_faults]), so
    that the theorems say when a routine fails and that it does not otherwise;
    [Packing] of
    Pack.v what the fixed-width formats promise Tai.v; [HexCode] of TextHex.v
    what a pair of encoder and decoder is proved from; [FileSystem] of Path.v
    what the system is asked.  The parser of Json.v is proved against the
    contract of a character buffer (a [view] of the input that is left), the
    printer against the one of an output buffer, the members of an object are
    the dictionaries that HmapDict.v proves of hash maps, and the round trip
    joins all of them.  The DNS packets unpack their fields with Pack.v, check
    names with StrOps.v and put their answers into strings of Stralloc.v.

    ** The theorems

    - Refinement: maps, sets, lists, strings and buffers against gmap, gset,
      sequences and byte streams, for whole sequences of operations
      ([cbmap_insert_correct], [cb_insert_correct], [set_refines_gset],
      [dlist_refines_sequence], [stralloc_refines_bytes],
      [strlist_refines_sequence], [hmap_refines_dictionary],
      [buffer_input_correct], [buffer_output_correct],
      [charbuf_refines_stream]), and no leaks ([cbmap_no_leak],
      [hmap_destroy_frees]).  Running out of memory is in the theorems of
      Cbmap.v, Stralloc.v and the DNS files, failing and interrupted system calls
      in those of Buffer.v, Charbuf.v and JsonPrint.v; where a theorem supposes
      that memory is not refused, that keys are short or that a path is written
      in a certain way, its comment says so.
    - Untrusted input: the routines of [lib/dns/] end on any packet and any text,
      read nothing outside it, and answer exactly what an independent relation
      allows ([dns_getname_correct], [dns_packets_correct],
      [dns_addresses_correct], [dns_domain_fromdot_safe],
      [dns_domain_compare_correct]).
    - Types: the tag of a value says which member of a union is used
      ([hmap_type_safety]).
    - Round trips: every pair of encoder and decoder on every value it is made
      for; names with dots ([dns_dot_roundtrip]); documents that are printed and
      parsed ([json_roundtrip]).
    - Equivalence with references: numbers against unbounded arithmetic
      ([scan_unsigned_exact], [scan_signed_exact]), shell patterns against a relation
      ([path_fnmatch_correct]), the JSON parser against a grammar
      ([json_parse_grammar]), the printer against a function of the value
      ([json_print_text]), searches against first occurrences.
    - Behaviour at the edges: overflow, aliasing ([taia_arith_correct] for
      overlapping arguments, [stralloc_cat_self]), input that does not end.
    - Where the code does not do what it is meant to, the theorem states what it
      does (names in [..._overrun], [..._spins], [..._stale], [..._hazards]).

    ** Fuel

    Loops on a counter or a string recurse on it.  The others take fuel, which
    the definition that starts them computes from its arguments ([S (length
    path)] for loops that consume their path, [S (2 * n)] for the collapsing of
    paths, the number of buckets for the sets), so that running out is
    observable as [None]; the theorems give [Some].  What depends on the outside
    world, the calls of [read] and [write] of one loop and the links of a path,
    is bounded by an argument ([calls], [fuel]) and a hypothesis that it is
    enough.  The JSON parser, whose calls follow the document, takes fuel for
    calls and rounds together: three times its length and three is enough.

    ** Not modelled

    The programs and everything that is system calls (sockets, processes,
    directories, descriptors), generated code ([src/cparser]), object files
    (accessors to packed structs), network state machines over third-party TLS,
    of [lib/dns/] the resolver itself, its configuration ([dns_rcip],
    [dns_rcrw]) and the qualification of names ([dns_ipq]), printing floating
    point ([fmt_double]; [scan_double] is in Json.v), the clock and calendars,
    random numbers but for those of [lib/dns/], compression filters of buffers,
    the documents of [lib/xml/].  Of [lib/json/] releasing a document and the
    conversions to other types are left out. *)
From Stdlib Require Import ZArith Strings.Byte.
From Stdlib Require Export Lia ZifyBool ZifyNat.
From stdpp Require Export base numbers list gmap strings option.
#[export] Set Default Goal Selector "!".
#[export] Set Warnings "-level-tolerance,-clear-no-such-hyp".

#[global] Arguments Z.shiftl : simpl never.
#[global] Arguments Z.shiftr : simpl never.
#[global] Arguments Z.land : simpl never.
#[global] Arguments Z.lor : simpl never.
#[global] Arguments Z.lxor : simpl never.
#[global] Arguments Z.pow : simpl never.
#[global] Arguments Z.modulo : simpl never.
#[global] Arguments Z.div : simpl never.
#[global] Arguments Nat.ltb : simpl never.
#[global] Arguments Nat.leb : simpl never.

(** * Character literals *)

(** ["A"%C] is the code of the character as a [Z] literal, and
    [lit "amp;"] the list of the codes of a string without its
    terminator. *)
Declare Scope c_scope.
Delimit Scope c_scope with C.
Definition char_of_byte (b : Byte.byte) : Z := Z.of_N (Byte.to_N b).
Definition byte_of_char (z : Z) : option Byte.byte := None.
String Notation Z char_of_byte byte_of_char : c_scope.
Notation "'lit' s" :=
  (ltac:(let v := eval vm_compute in
           (List.map char_of_byte (String.list_byte_of_string s%string)) in
         exact v)) (at level 10, s at level 0, only parsing).

#[global] Open Scope Z_scope.

(** * Machine integers: LP64, two's complement, signed [char] *)

Definition u8 (x : Z) : Z := x mod 256.
Definition u16 (x : Z) : Z := x mod 65536.
Definition u32 (x : Z) : Z := x mod 4294967296.
Definition u64 (x : Z) : Z := x mod 18446744073709551616.

Definition s8 (x : Z) : Z := (x + 128) mod 256 - 128.
Definition s16 (x : Z) : Z := (x + 32768) mod 65536 - 32768.
Definition s32 (x : Z) : Z := (x + 2147483648) mod 4294967296 - 2147483648.
Definition s64 (x : Z) : Z :=
  (x + 9223372036854775808) mod 18446744073709551616 - 9223372036854775808.

Definition is_u8 (x : Z) : Prop := 0 <= x < 256.
Definition is_u16 (x : Z) : Prop := 0 <= x < 65536.
Definition is_u32 (x : Z) : Prop := 0 <= x < 4294967296.
Definition is_u64 (x : Z) : Prop := 0 <= x < 18446744073709551616.
Definition is_s32 (x : Z) : Prop := -2147483648 <= x < 2147483648.
Definition is_s64 (x : Z) : Prop :=
  -9223372036854775808 <= x < 9223372036854775808.

(** Signed arithmetic is checked: a result outside the type is undefined
    behaviour. *)
Definition chk32 (x : Z) : option Z :=
  if (-2147483648 <=? x) && (x <? 2147483648) then Some x else None.
Definition chk64 (x : Z) : option Z :=
  if (-9223372036854775808 <=? x) && (x <? 9223372036854775808)
  then Some x else None.

(** What a formatting routine leaves: the bytes stored from [dest] on, and its
    return value.  The argument [dest : bool] of these routines says whether
    the pointer is not [NULL]. *)
Definition out : Type := (list Z * nat)%type.

(** A C truth value. *)
Definition c_bool (b : bool) : Z := if b then 1 else 0.

(** * Objects and pointers *)

(** A C object is the list of its bytes, each in [0, 256).  A pointer that
    is only read through is the list of the bytes from its target to the end
    of the object: [*p] is the head and [++p] the tail.  A pointer that is
    written through is an object and an offset.  [None] is undefined
    behaviour: an access outside the object. *)
Definition bytes (l : list Z) : Prop := Forall is_u8 l.

Definition load (m : list Z) (i : nat) : option Z := m !! i.

Definition store (m : list Z) (i : nat) (v : Z) : option (list Z) :=
  if decide (i < length m)%nat then Some (<[i:=v]> m) else None.

(** The source of a copy: a place in the same object (which may overlap the
    destination) or another object. *)
Inductive cptr :=
  | Here (off : nat)
  | There (l : list Z).

Definition rd (m : list Z) (p : cptr) (i : nat) : option Z :=
  match p with
  | Here off => load m (off + i)
  | There l => load l i
  end.

(** A terminated string, and bytes that hold no terminator. *)
Definition nonul (l : list Z) : Prop := Forall (fun c => 1 <= c < 256) l.
Definition cstr (l : list Z) : list Z := l ++ [0].

(** * The classes of <ctype.h> in the C locale, for [unsigned char] values *)

Definition isdigit (c : Z) : bool := (48 <=? c) && (c <=? 57).
Definition isupper (c : Z) : bool := (65 <=? c) && (c <=? 90).
Definition islower (c : Z) : bool := (97 <=? c) && (c <=? 122).
Definition isalpha (c : Z) : bool := isupper c || islower c.
Definition isspace (c : Z) : bool := (c =? 32) || ((9 <=? c) && (c <=? 13)).
Definition isprint (c : Z) : bool := (32 <=? c) && (c <=? 126).
Definition toupper (c : Z) : Z := if islower c then c - 32 else c.

(** * Tactics *)

Ltac wrap_unfold :=
  unfold is_u8, is_u16, is_u32, is_u64, is_s32, is_s64,
    u8, u16, u32, u64, s8, s16, s32, s64 in *.

(** Linear arithmetic with division, remainder and the wrap-arounds. *)
Ltac zmod := wrap_unfold; Z.div_mod_to_equations; lia.

(** Case analysis on the comparisons of the goal. *)
Ltac zcase1 :=
  match goal with
  | |- context [Z.eqb ?a ?b] => destruct (Z.eqb_spec a b)
  | |- context [Z.leb ?a ?b] => destruct (Z.leb_spec a b)
  | |- context [Z.ltb ?a ?b] => destruct (Z.ltb_spec a b)
  | |- context [Nat.eqb ?a ?b] => destruct (Nat.eqb_spec a b)
  | |- context [Nat.leb ?a ?b] => destruct (Nat.leb_spec a b)
  | |- context [Nat.ltb ?a ?b] => destruct (Nat.ltb_spec a b)
  end.
Ltac zcases := repeat (zcase1; simpl; try lia).

(** Rewrites a closed comparison whose value the context decides. *)
Ltac ztrue b := replace b with true by (symmetry; lia).
Ltac zfalse b := replace b with false by (symmetry; lia).

Create HintDb dl.
Create Rewrite HintDb dlr.

(** * Checking a property of every byte by computation *)

Definition all_bytes : list Z := seqZ 0 256.

Lemma byte_forall (P : Z -> bool) :
  forallb P all_bytes = true -> forall c, is_u8 c -> P c = true.
Proof.
  intros H c Hc. rewrite forallb_forall in H. apply H.
  apply list_elem_of_In, elem_of_seqZ. unfold is_u8 in Hc. lia.
Qed.

(** Two bytes at once. *)
Lemma byte_forall2 (P : Z -> Z -> bool) :
  forallb (fun a => forallb (P a) all_bytes) all_bytes = true ->
  forall a b, is_u8 a -> is_u8 b -> P a b = true.
Proof.
  intros H a b Ha Hb. apply byte_forall; [|done].
  exact (byte_forall _ H a Ha).
Qed.

(** [by_bytes c] proves a decidable equation about the byte [c] by trying all
    256 values. *)
Ltac by_bytes c :=
  lazymatch goal with
  | H : is_u8 c |- ?G =>
      pattern c;
      match goal with
      | |- ?P c =>
          refine (_ (byte_forall (fun x => bool_decide (P x)) _ c H));
          [ let Hb := fresh in intros Hb; exact (bool_decide_eq_true_1 _ Hb)
          | vm_compute; reflexivity ]
      end
  end.

(** * Bits *)

Lemma land_mask (a k : Z) : 0 <= k -> Z.land a (Z.ones k) = a mod 2 ^ k.
Proof. intros. by apply Z.land_ones. Qed.

Lemma land_low (a k m : Z) :
  0 <= k -> m = Z.ones k -> Z.land a m = a mod 2 ^ k.
Proof. intros ? ->. by apply Z.land_ones. Qed.

Lemma lor_add (a b k : Z) :
  0 <= k -> 0 <= b < 2 ^ k -> Z.lor (a * 2 ^ k) b = a * 2 ^ k + b.
Proof.
  intros Hk Hb. rewrite <- Z.add_lor_land.
  replace (Z.land (a * 2 ^ k) b) with 0; [lia|].
  symmetry. apply Z.bits_inj'. intros n Hn.
  rewrite Z.land_spec, Z.bits_0.
  destruct (Z.lt_ge_cases n k).
  - by rewrite Z.mul_pow2_bits_low.
  - rewrite <- (Z.mod_small b (2 ^ k)) by lia.
    rewrite Z.mod_pow2_bits_high by lia. by rewrite andb_false_r.
Qed.

(** [Z.lor] of two words whose set bits do not overlap. *)
Lemma lor_shift_add (a b k : Z) :
  0 <= k -> 0 <= b < 2 ^ k -> Z.lor (Z.shiftl a k) b = Z.shiftl a k + b.
Proof. intros. rewrite Z.shiftl_mul_pow2 by done. by apply lor_add. Qed.

Lemma s8_id (x : Z) : -128 <= x < 128 -> s8 x = x.
Proof. intros. zmod. Qed.
Lemma u8_id (x : Z) : is_u8 x -> u8 x = x.
Proof. intros. zmod. Qed.
Lemma u32_id (x : Z) : is_u32 x -> u32 x = x.
Proof. intros. zmod. Qed.
Lemma u64_id (x : Z) : is_u64 x -> u64 x = x.
Proof. intros. zmod. Qed.
Lemma u8_range (x : Z) : is_u8 (u8 x).
Proof. zmod. Qed.
Lemma u32_range (x : Z) : is_u32 (u32 x).
Proof. zmod. Qed.
Lemma u64_range (x : Z) : is_u64 (u64 x).
Proof. zmod. Qed.
#[export] Hint Resolve u8_range u32_range u64_range : dl.

(** * Objects *)

Lemma store_Some (m : list Z) (i : nat) (v : Z) :
  (i < length m)%nat -> store m i v = Some (<[i:=v]> m).
Proof. intros. unfold store. by rewrite decide_True. Qed.

Lemma store_None (m : list Z) (i : nat) (v : Z) :
  (length m <= i)%nat -> store m i v = None.
Proof. intros. unfold store. rewrite decide_False by lia. done. Qed.

Lemma store_inv (m m' : list Z) (i : nat) (v : Z) :
  store m i v = Some m' -> (i < length m)%nat /\ m' = <[i:=v]> m.
Proof. unfold store. case_decide; naive_solver. Qed.

Lemma store_length (m m' : list Z) (i : nat) (v : Z) :
  store m i v = Some m' -> length m' = length m.
Proof. intros [_ ->]%store_inv. apply length_insert. Qed.

(** Two lists with the same length and the same elements are equal. *)
Lemma list_eq_nth (l1 l2 : list Z) :
  length l1 = length l2 ->
  (forall i, (i < length l1)%nat -> l1 !! i = l2 !! i) -> l1 = l2.
Proof.
  intros Hl H. apply list_eq. intros i.
  destruct (decide (i < length l1)%nat); [by apply H|].
  rewrite !lookup_ge_None_2 by lia. done.
Qed.

Lemma nonul_bytes (l : list Z) : nonul l -> bytes l.
Proof. apply Forall_impl. unfold is_u8. lia. Qed.

Lemma bytes_lookup (l : list Z) (i : nat) (c : Z) :
  bytes l -> l !! i = Some c -> is_u8 c.
Proof. intros H ?. by eapply Forall_lookup_1 in H. Qed.

#[export] Hint Resolve nonul_bytes bytes_lookup : dl.

(** Loading the bytes of a known prefix. *)
Lemma load_cons_0 (a : Z) (l : list Z) : load (a :: l) 0 = Some a.
Proof. done. Qed.
Lemma load_cons_S (a : Z) (l : list Z) (i : nat) :
  load (a :: l) (S i) = load l i.
Proof. done. Qed.

Ltac load_all :=
  rewrite ?load_cons_S, ?load_cons_0; cbn [mbind option_bind];
  rewrite ?load_cons_S, ?load_cons_0; cbn [mbind option_bind].

(** * Replacing a part of an object *)

(** [m] with the bytes from [o] on replaced by [l]. *)
Definition splice (m : list Z) (o : nat) (l : list Z) : list Z :=
  take o m ++ l ++ drop (o + length l) m.

Lemma splice_length (m l : list Z) (o : nat) :
  (o + length l <= length m)%nat -> length (splice m o l) = length m.
Proof.
  intros. unfold splice. rewrite !length_app, length_take, length_drop. lia.
Qed.

Lemma splice_lookup (m l : list Z) (o i : nat) :
  (o + length l <= length m)%nat ->
  splice m o l !! i =
    if decide (o <= i < o + length l)%nat then l !! (i - o)%nat else m !! i.
Proof.
  intros H. unfold splice.
  assert (length (take o m) = o) as Ho by (rewrite length_take; lia).
  destruct (decide (i < o)%nat).
  - rewrite lookup_app_l by lia. rewrite lookup_take_lt by lia.
    by rewrite decide_False by lia.
  - rewrite lookup_app_r by lia. rewrite Ho. case_decide.
    + by rewrite lookup_app_l by lia.
    + rewrite lookup_app_r by lia. rewrite lookup_drop. f_equal. lia.
Qed.

Lemma splice_nil (m : list Z) (o : nat) : splice m o [] = m.
Proof. unfold splice. simpl. rewrite Nat.add_0_r. apply take_drop. Qed.

Lemma splice_cons (m l : list Z) (o : nat) (c : Z) :
  (o < length m)%nat -> splice m o (c :: l) = splice (<[o:=c]> m) (S o) l.
Proof.
  intros H. unfold splice. simpl.
  rewrite (take_S_r _ _ c) by (by apply list_lookup_insert_eq).
  rewrite take_insert_ge by lia.
  rewrite drop_insert_lt by lia. rewrite <- app_assoc.
  by rewrite <- Nat.add_succ_comm.
Qed.

(** A block of [len] bytes at [o]. *)
Definition block (m : list Z) (o len : nat) : list Z := take len (drop o m).

Lemma block_length (m : list Z) (o len : nat) :
  (o + len <= length m)%nat -> length (block m o len) = len.
Proof. intros. unfold block. rewrite length_take, length_drop. lia. Qed.

Lemma block_lookup (m : list Z) (o len i : nat) :
  (i < len)%nat -> block m o len !! i = m !! (o + i)%nat.
Proof. intros. unfold block. by rewrite lookup_take_lt, lookup_drop. Qed.

Lemma block_S (m : list Z) (o len : nat) (c : Z) :
  m !! o = Some c -> block m o (S len) = c :: block m (S o) len.
Proof.
  intros H. unfold block. by rewrite (drop_S _ c) by done.
Qed.

(** * The longest prefix that satisfies a test *)

Fixpoint span (P : Z -> bool) (l : list Z) : nat :=
  match l with
  | [] => O
  | x :: l' => if P x then S (span P l') else O
  end.

Lemma span_le (P : Z -> bool) (l : list Z) : (span P l <= length l)%nat.
Proof. induction l; simpl; [done|]. case_match; lia. Qed.

Lemma span_before (P : Z -> bool) (l : list Z) (i : nat) :
  (i < span P l)%nat -> exists x, l !! i = Some x /\ P x = true.
Proof.
  revert i. induction l as [|x l IH]; simpl; [lia|]. intros i.
  destruct (P x) eqn:E; [|lia]. destruct i; simpl; [eauto|].
  intros. apply IH. lia.
Qed.

Lemma span_stop (P : Z -> bool) (l : list Z) :
  (span P l < length l)%nat ->
  exists x, l !! span P l = Some x /\ P x = false.
Proof.
  induction l as [|x l IH]; simpl; [lia|].
  destruct (P x) eqn:E; simpl; [|eauto].
  intros. apply IH. lia.
Qed.

Lemma span_all (P : Z -> bool) (l1 l2 : list Z) :
  Forall (fun x => P x = true) l1 ->
  span P (l1 ++ l2) = (length l1 + span P l2)%nat.
Proof. induction 1 as [|x l Hx _ IH]; simpl; [done|]. by rewrite Hx, IH. Qed.

Lemma span_ext (P Q : Z -> bool) (l : list Z) :
  Forall (fun x => P x = Q x) l -> span P l = span Q l.
Proof. induction 1 as [|x l Hx _ IH]; simpl; [done|]. by rewrite Hx, IH. Qed.

(** Characterisation: [span] is the only [k] with these properties. *)
Lemma span_unique (P : Z -> bool) (l : list Z) (k : nat) :
  (k <= length l)%nat ->
  (forall i x, (i < k)%nat -> l !! i = Some x -> P x = true) ->
  (forall x, l !! k = Some x -> P x = false) -> span P l = k.
Proof.
  revert k. induction l as [|x l IH]; intros k Hk Hb Hs; simpl in *; [lia|].
  destruct k as [|k]; simpl in *.
  - by rewrite (Hs x).
  - rewrite (Hb 0%nat x) by (done || lia). f_equal. apply IH; [lia| |done].
    intros i y Hi Hl. apply (Hb (S i)); [lia|done].
Qed.
