(* ===== verification/ByteOps.v ===== *)
(** The byte-block routines of [lib/byte/]: copying, filling, searching,
    comparing and translating the first [len] bytes of an object.

    A routine that writes takes the object [m] and the offset it writes at and
    gives the new object; a routine that only reads takes its arguments as
    pointers (the bytes from the pointer to the end of the object).  [None] is
    an access outside the object.  Every loop of these routines consumes its
    [len] counter, on which the definitions recurse. *)
From S2P Require Import Prelude.

(** * Writing *)

(** [for(i = 0; i < len; ++i) s[i] = t[i];] from index [i] on. *)
Fixpoint byte_copy_from (m : list Z) (out : nat) (src : cptr) (i n : nat)
  : option (list Z) :=
  match n with
  | O => Some m
  | S n' =>
      c ← rd m src i;
      m' ← store m (out + i) c;
      byte_copy_from m' out src (S i) n'
  end.

Definition byte_copy (m : list Z) (out len : nat) (src : cptr)
  : option (list Z) :=
  byte_copy_from m out src 0 len.

(** The copy from the last byte down: [--u; --s; *s = *u;] while [t < u]. *)
Fixpoint byte_copyr (m : list Z) (out len : nat) (src : cptr)
  : option (list Z) :=
  match len with
  | O => Some m
  | S len' =>
      c ← rd m src len';
      m' ← store m (out + len') c;
      byte_copyr m' out len' src
  end.

(** [byte_ccopy] also stops behind the first [c] it copies, and gives the
    number of bytes copied. *)
Fixpoint byte_ccopy_from (m : list Z) (dst : nat) (src : cptr) (c : Z)
    (i count : nat) : option (list Z * nat) :=
  match count with
  | O => Some (m, i)
  | S count' =>
      b ← rd m src i;
      m' ← store m (dst + i) b;
      if b =? c then Some (m', S i)
      else byte_ccopy_from m' dst src c (S i) count'
  end.

Definition byte_ccopy (m : list Z) (dst count : nat) (src : cptr) (c : Z)
  : option (list Z * nat) :=
  byte_ccopy_from m dst src c 0 count.

(** [byte_fill] stores the low byte of the [int c] from [out] on. *)
Fixpoint byte_fill (m : list Z) (out len : nat) (c : Z) : option (list Z) :=
  match len with
  | O => Some m
  | S len' => m' ← store m out (u8 c); byte_fill m' (S out) len' c
  end.

Fixpoint byte_zero (m : list Z) (out len : nat) : option (list Z) :=
  match len with
  | O => Some m
  | S len' => m' ← store m out 0; byte_zero m' (S out) len'
  end.

Fixpoint byte_lower (m : list Z) (s len : nat) : option (list Z) :=
  match len with
  | O => Some m
  | S len' =>
      c ← load m s;
      m' ← (if (65 <=? c) && (c <=? 90) then store m s (u8 (c + 32))
            else Some m);
      byte_lower m' (S s) len'
  end.

Fixpoint byte_upper (m : list Z) (s len : nat) : option (list Z) :=
  match len with
  | O => Some m
  | S len' =>
      c ← load m s;
      m' ← (if (97 <=? c) && (c <=? 122) then store m s (u8 (c - 32))
            else Some m);
      byte_upper m' (S s) len'
  end.

Fixpoint byte_replace (m : list Z) (x n : nat) (before after : Z)
  : option (list Z) :=
  match n with
  | O => Some m
  | S n' =>
      c ← load m x;
      m' ← (if c =? before then store m x after else Some m);
      byte_replace m' (S x) n' before after
  end.

(** [byte_camelize] compacts in place: the loop index [i] reads, [o] writes.
    [++i] under the test for a dash reads [x[i]] without comparing [i] with
    [len] again.  The fuel counts the iterations, at most [len]. *)
Fixpoint byte_camelize_loop (m : list Z) (x len i o fuel : nat)
  : option (list Z * nat) :=
  match fuel with
  | O => Some (m, o)
  | S fuel' =>
      if (i <? len)%nat then
        c ← load m (x + i);
        if c =? "-"%C then
          c' ← load m (x + S i);
          m' ← store m (x + o) (toupper c');
          byte_camelize_loop m' x len (S (S i)) (S o) fuel'
        else
          m' ← store m (x + o) c;
          byte_camelize_loop m' x len (S i) (S o) fuel'
      else Some (m, o)
  end.

Definition byte_camelize (m : list Z) (x len : nat) : option (list Z * nat) :=
  byte_camelize_loop m x len 0 0 len.

(** * Searching *)

(** The index of the first [needle], or [len]. *)
Fixpoint byte_chr (s : list Z) (len : nat) (needle : Z) {struct len}
  : option nat :=
  match len with
  | O => Some O
  | S len' =>
      match s with
      | [] => None
      | x :: s' =>
          if x =? needle then Some O else S <$> byte_chr s' len' needle
      end
  end.

(** The index of the last [needle], or [len]: [--t] from the end. *)
Fixpoint byte_rchr_loop (s : list Z) (len : nat) (needle : Z) (t : nat)
  : option nat :=
  match t with
  | O => Some len
  | S t' =>
      x ← load s t';
      if x =? needle then Some t' else byte_rchr_loop s len needle t'
  end.

Definition byte_rchr (s : list Z) (len : nat) (needle : Z) : option nat :=
  byte_rchr_loop s len needle len.

(** The index of the first byte that is (not) one of the [nl] bytes of
    [needle], or [len]. *)
Fixpoint byte_chrs (s : list Z) (len : nat) (needle : list Z) (nl : nat)
    {struct len}
  : option nat :=
  match len with
  | O => Some O
  | S len' =>
      match s with
      | [] => None
      | x :: s' =>
          k ← byte_chr needle nl x;
          if (k <? nl)%nat then Some O else S <$> byte_chrs s' len' needle nl
      end
  end.

Fixpoint byte_chrns (s : list Z) (len : nat) (charset : list Z) (setlen : nat)
    {struct len}
  : option nat :=
  match len with
  | O => Some O
  | S len' =>
      match s with
      | [] => None
      | x :: s' =>
          k ← byte_chr charset setlen x;
          if (k =? setlen)%nat then Some O
          else S <$> byte_chrns s' len' charset setlen
      end
  end.

(** [byte_rchrs] records a match in [found] and then gives its loop index. *)
Fixpoint byte_rchrs_inner (c : Z) (needles : list Z) (nn j : nat)
    (found : bool) : option bool :=
  match nn with
  | O => Some found
  | S nn' =>
      d ← load needles j;
      byte_rchrs_inner c needles nn' (S j) (if c =? d then true else found)
  end.

Fixpoint byte_rchrs_loop (x : list Z) (needles : list Z) (nn i k : nat)
    (found : bool) : option nat :=
  match k with
  | O => Some i
  | S k' =>
      c ← load x i;
      found' ← byte_rchrs_inner c needles nn 0 found;
      byte_rchrs_loop x needles nn (S i) k' found'
  end.

Definition byte_rchrs (b : list Z) (len : nat) (needles : list Z) (nn : nat)
  : option nat :=
  byte_rchrs_loop b needles nn 0 len false.

(** The number of occurrences, counted in an [unsigned int] by a loop that is
    unrolled four times. *)
Definition bump (x ch count : Z) : Z :=
  if x =? ch then u32 (count + 1) else count.

Fixpoint byte_count_loop (t : list Z) (n : nat) (ch count : Z) {struct n}
  : option Z :=
  match n with
  | O => Some count
  | S n1 =>
  match t with
  | [] => None
  | x1 :: t1 =>
  let c1 := bump x1 ch count in
  match n1 with
  | O => Some c1
  | S n2 =>
  match t1 with
  | [] => None
  | x2 :: t2 =>
  let c2 := bump x2 ch c1 in
  match n2 with
  | O => Some c2
  | S n3 =>
  match t2 with
  | [] => None
  | x3 :: t3 =>
  let c3 := bump x3 ch c2 in
  match n3 with
  | O => Some c3
  | S n4 =>
  match t3 with
  | [] => None
  | x4 :: t4 => byte_count_loop t4 n4 ch (bump x4 ch c3)
  end end end end end end end end.

Definition byte_count (s : list Z) (n : nat) (c : Z) : option Z :=
  byte_count_loop s n (u8 c) 0.

(** * Comparing *)

(** The difference of the first bytes that differ, as [unsigned char]s. *)
Fixpoint byte_diff (a : list Z) (len : nat) (b : list Z) {struct len}
  : option Z :=
  match len with
  | O => Some 0
  | S len' =>
      match a, b with
      | x :: a', y :: b' =>
          let r := x - y in
          if negb (r =? 0) then Some r else byte_diff a' len' b'
      | _, _ => None
      end
  end.

Definition byte_equal (s : list Z) (n : nat) (t : list Z) : option bool :=
  r ← byte_diff s n t; Some (r =? 0).

(** The letter folding of the case-insensitive comparisons. *)
Definition fold_case (x : Z) : Z :=
  if (65 <=? x) && (x <=? 90) then x + 32 else x.

Fixpoint byte_case_diff (s : list Z) (len : nat) (t : list Z) {struct len}
  : option Z :=
  match len with
  | O => Some 0
  | S len' =>
      match s, t with
      | x :: s', y :: t' =>
          let x := fold_case x in
          let y := fold_case y in
          if negb (x =? y) then Some (x - y) else byte_case_diff s' len' t'
      | _, _ => None
      end
  end.

Definition byte_case_equal (s : list Z) (len : nat) (t : list Z)
  : option bool :=
  r ← byte_case_diff s len t; Some (r =? 0).

(** Does the block [s] of [len] bytes start with the string [t]? *)
Fixpoint byte_case_start (s : list Z) (len : nat) (t : list Z)
  : option bool :=
  match t with
  | [] => None
  | y :: t' =>
      let y := fold_case y in
      if y =? 0 then Some true else
      match len with
      | O => Some false
      | S len' =>
          match s with
          | [] => None
          | x :: s' =>
              let x := fold_case x in
              if negb (x =? y) then Some false else byte_case_start s' len' t'
          end
      end
  end.

Definition byte_startb (b : list Z) (blen : nat) (x : list Z) (xlen : nat)
  : option bool :=
  if (xlen <=? blen)%nat then byte_equal b xlen x else Some false.

Definition byte_endb (b : list Z) (blen : nat) (x : list Z) (xlen : nat)
  : option bool :=
  if (xlen <=? blen)%nat then byte_equal (drop (blen - xlen) b) xlen x
  else Some false.

(** The first place of [what] in the [hlen] bytes of [haystack], or [hlen].
    [k] counts the candidates left, the first of them [last + 1]. *)
Fixpoint byte_findb_loop (s : list Z) (hlen : nat) (what : list Z)
    (wlen i k : nat) : option nat :=
  match k with
  | O => Some hlen
  | S k' =>
      e ← byte_equal s wlen what;
      if (e : bool) then Some i
      else byte_findb_loop (tail s) hlen what wlen (S i) k'
  end.

Definition byte_findb (haystack : list Z) (hlen : nat) (what : list Z)
    (wlen : nat) : option nat :=
  if (hlen <? wlen)%nat then Some hlen
  else byte_findb_loop haystack hlen what wlen 0 (S (hlen - wlen)).

(** [byte_triml] gives the new start and the new length; [byte_trimr] the new
    length. *)
Fixpoint byte_triml_loop (x : list Z) (charset : list Z) (setlen i k : nat)
  : option nat :=
  match k with
  | O => Some i
  | S k' =>
      c ← load x i;
      j ← byte_chr charset setlen c;
      if (j =? setlen)%nat then Some i
      else byte_triml_loop x charset setlen (S i) k'
  end.

Definition byte_triml (x : list Z) (len : nat) (charset : list Z)
    (setlen : nat) : option (list Z * nat) :=
  i ← byte_triml_loop x charset setlen 0 len;
  Some (drop i x, (len - i)%nat).

Fixpoint byte_trimr (x : list Z) (n : nat) (trimchars : list Z) (tlen : nat)
  : option nat :=
  match n with
  | O => Some O
  | S n' =>
      c ← load x n';
      j ← byte_chr trimchars tlen c;
      if (j =? tlen)%nat then Some n else byte_trimr x n' trimchars tlen
  end.

(** * Lemmas: copying *)

(** The copy reads only bytes that the copy itself has not yet changed. *)
Definition fwd_safe (src : cptr) (out len : nat) : Prop :=
  match src with
  | Here off => (out <= off \/ off + len <= out)%nat
  | There _ => True
  end.

Definition bwd_safe (src : cptr) (out len : nat) : Prop :=
  match src with
  | Here off => (off <= out \/ out + len <= off)%nat
  | There _ => True
  end.

(** The [len] bytes the source points at. *)
Definition src_block (m : list Z) (src : cptr) (len : nat) : list Z :=
  match src with
  | Here off => block m off len
  | There l => take len l
  end.

Definition src_room (m : list Z) (src : cptr) (len : nat) : Prop :=
  match src with
  | Here off => (off + len <= length m)%nat
  | There l => (len <= length l)%nat
  end.

Lemma src_block_length (m : list Z) (src : cptr) (len : nat) :
  src_room m src len -> length (src_block m src len) = len.
Proof.
  destruct src; simpl; intros.
  - by apply block_length.
  - rewrite length_take. lia.
Qed.

Lemma src_block_lookup (m : list Z) (src : cptr) (len i : nat) :
  (i < len)%nat -> src_block m src len !! i = rd m src i.
Proof.
  destruct src; simpl; intros.
  - by apply block_lookup.
  - by rewrite lookup_take_lt.
Qed.

Lemma rd_Some (m : list Z) (src : cptr) (len i : nat) :
  src_room m src len -> (i < len)%nat -> exists c, rd m src i = Some c.
Proof.
  destruct src; simpl; unfold load; intros;
    apply lookup_lt_is_Some_2; lia.
Qed.

Lemma byte_copy_from_lookup (n i : nat) (m : list Z) (out : nat) (src : cptr) :
  (out + i + n <= length m)%nat -> src_room m src (i + n) ->
  fwd_safe src out (i + n) ->
  exists m', byte_copy_from m out src i n = Some m' /\
    length m' = length m /\
    forall j, m' !! j =
      if decide (out + i <= j < out + i + n)%nat then rd m src (j - out)
      else m !! j.
Proof.
  revert i m. induction n as [|n IH]; intros i m Hout Hroom Hsafe; simpl.
  { exists m. repeat split. intros j. by rewrite decide_False by lia. }
  destruct (rd_Some m src (i + S n) i) as [c Hc]; [done|lia|].
  rewrite Hc. simpl. rewrite store_Some by lia. simpl.
  destruct (IH (S i) (<[(out + i)%nat:=c]> m)) as (m' & -> & Hl & Hlk).
  - rewrite length_insert. lia.
  - destruct src; simpl in *; rewrite ?length_insert; lia.
  - destruct src; simpl in *; lia.
  - exists m'. rewrite length_insert in Hl. repeat split; [done|].
    intros j. rewrite Hlk. destruct (decide (j = out + i)%nat) as [->|].
    + rewrite decide_False by lia. rewrite decide_True by lia.
      rewrite list_lookup_insert_eq by lia. rewrite <- Hc. f_equal. lia.
    + destruct (decide (out + i <= j < out + i + S n)%nat).
      * rewrite decide_True by lia. destruct src; simpl in *; [|done].
        unfold load. by rewrite list_lookup_insert_ne by lia.
      * rewrite decide_False by lia. by rewrite list_lookup_insert_ne by lia.
Qed.

Lemma byte_copy_spec (m : list Z) (out len : nat) (src : cptr) :
  (out + len <= length m)%nat -> src_room m src len -> fwd_safe src out len ->
  byte_copy m out len src = Some (splice m out (src_block m src len)).
Proof.
  intros Hout Hroom Hsafe. unfold byte_copy.
  destruct (byte_copy_from_lookup len 0 m out src) as (m' & -> & Hl & Hlk);
    [lia|done..|].
  pose proof (src_block_length m src len Hroom) as Hb.
  f_equal. apply list_eq. intros j. rewrite Hlk, splice_lookup by lia.
  rewrite Hb, Nat.add_0_r. case_decide; [|done].
  by rewrite src_block_lookup by lia.
Qed.

Lemma byte_copyr_lookup (n : nat) (m : list Z) (out : nat) (src : cptr) :
  (out + n <= length m)%nat -> src_room m src n -> bwd_safe src out n ->
  exists m', byte_copyr m out n src = Some m' /\ length m' = length m /\
    forall j, m' !! j =
      if decide (out <= j < out + n)%nat then rd m src (j - out) else m !! j.
Proof.
  revert m. induction n as [|n IH]; intros m Hout Hroom Hsafe; simpl.
  { exists m. repeat split. intros j. by rewrite decide_False by lia. }
  destruct (rd_Some m src (S n) n) as [c Hc]; [done|lia|].
  rewrite Hc. simpl. rewrite store_Some by lia. simpl.
  destruct (IH (<[(out + n)%nat:=c]> m)) as (m' & -> & Hl & Hlk).
  - rewrite length_insert. lia.
  - destruct src; simpl in *; rewrite ?length_insert; lia.
  - destruct src; simpl in *; lia.
  - exists m'. rewrite length_insert in Hl. repeat split; [done|].
    intros j. rewrite Hlk. destruct (decide (j = out + n)%nat) as [->|].
    + rewrite decide_False by lia. rewrite decide_True by lia.
      rewrite list_lookup_insert_eq by lia. rewrite <- Hc. f_equal. lia.
    + destruct (decide (out <= j < out + S n)%nat).
      * rewrite decide_True by lia. destruct src; simpl in *; [|done].
        unfold load. by rewrite list_lookup_insert_ne by lia.
      * rewrite decide_False by lia. by rewrite list_lookup_insert_ne by lia.
Qed.

Lemma byte_copyr_spec (m : list Z) (out len : nat) (src : cptr) :
  (out + len <= length m)%nat -> src_room m src len -> bwd_safe src out len ->
  byte_copyr m out len src = Some (splice m out (src_block m src len)).
Proof.
  intros Hout Hroom Hsafe.
  destruct (byte_copyr_lookup len m out src) as (m' & -> & Hl & Hlk);
    [done..|].
  pose proof (src_block_length m src len Hroom) as Hb.
  f_equal. apply list_eq. intros j. rewrite Hlk, splice_lookup by lia.
  rewrite Hb. case_decide; [|done]. by rewrite src_block_lookup by lia.
Qed.

#[export] Hint Resolve byte_copy_spec byte_copyr_spec : dl.

(** * Lemmas: in-place translation *)

(** A loop that replaces each of [len] bytes by [f] of it. *)
Lemma inplace_spec (f : Z -> Z) (loop : list Z -> nat -> nat -> option (list Z)) :
  (forall m s, loop m s O = Some m) ->
  (forall m s n c, m !! s = Some c ->
     loop m s (S n) = loop (<[s:=f c]> m) (S s) n) ->
  forall n m s, (s + n <= length m)%nat ->
    loop m s n = Some (splice m s (f <$> block m s n)).
Proof.
  intros H0 HS n. induction n as [|n IH]; intros m s Hn.
  { rewrite H0. unfold block. simpl. by rewrite splice_nil. }
  destruct (lookup_lt_is_Some_2 m s) as [c Hc]; [lia|].
  rewrite (HS _ _ _ c Hc), IH by (rewrite length_insert; lia).
  rewrite (block_S _ _ _ c Hc). simpl. rewrite splice_cons by lia.
  do 3 f_equal. unfold block. by rewrite drop_insert_lt by lia.
Qed.

Lemma insert_same (m : list Z) (s : nat) (c : Z) :
  m !! s = Some c -> <[s:=c]> m = m.
Proof. apply list_insert_id. Qed.

(** The step of a loop whose body reads [c] and stores under a test. *)
Lemma cond_store (m : list Z) (s : nat) (c v : Z) (b : bool) {A}
    (k : list Z -> option A) :
  m !! s = Some c ->
  ((if b then store m s v else Some m) ≫= k) =
  k (<[s:=if b then v else c]> m).
Proof.
  intros H. pose proof (lookup_lt_Some _ _ _ H). destruct b.
  - by rewrite store_Some by done.
  - simpl. by rewrite insert_same.
Qed.

Definition upper_of (x : Z) : Z :=
  if (97 <=? x) && (x <=? 122) then x - 32 else x.

Lemma byte_lower_spec (n : nat) (m : list Z) (s : nat) :
  bytes m -> (s + n <= length m)%nat ->
  byte_lower m s n = Some (splice m s (fold_case <$> block m s n)).
Proof.
  intros Hm Hn. rewrite (inplace_spec
    (fun c => if (65 <=? c) && (c <=? 90) then u8 (c + 32) else c) byte_lower);
    [|done| |done].
  - do 2 f_equal. apply list_fmap_ext. intros i c Hc. unfold fold_case.
    destruct ((65 <=? c) && (c <=? 90)) eqn:E; [|done]. apply u8_id.
    unfold is_u8. lia.
  - intros m' s' n' c Hc. simpl. unfold load. rewrite Hc. simpl.
    by rewrite (cond_store _ _ c).
Qed.

Lemma byte_upper_spec (n : nat) (m : list Z) (s : nat) :
  bytes m -> (s + n <= length m)%nat ->
  byte_upper m s n = Some (splice m s (upper_of <$> block m s n)).
Proof.
  intros Hm Hn. rewrite (inplace_spec
    (fun c => if (97 <=? c) && (c <=? 122) then u8 (c - 32) else c) byte_upper);
    [|done| |done].
  - do 2 f_equal. apply list_fmap_ext. intros i c Hc. unfold upper_of.
    destruct ((97 <=? c) && (c <=? 122)) eqn:E; [|done]. apply u8_id.
    unfold is_u8. lia.
  - intros m' s' n' c Hc. simpl. unfold load. rewrite Hc. simpl.
    by rewrite (cond_store _ _ c).
Qed.

Lemma byte_replace_spec (n : nat) (m : list Z) (x : nat) (before after : Z) :
  (x + n <= length m)%nat ->
  byte_replace m x n before after =
  Some (splice m x
          ((fun c => if c =? before then after else c) <$> block m x n)).
Proof.
  intros Hn. apply (inplace_spec _
    (fun m x n => byte_replace m x n before after)); [done| |done].
  intros m' s' n' c Hc. simpl. unfold load. rewrite Hc. simpl.
  by rewrite (cond_store _ _ c).
Qed.

Lemma fmap_const (l : list Z) (c : Z) :
  (fun _ => c) <$> l = replicate (length l) c.
Proof. by apply const_fmap. Qed.

Lemma byte_fill_spec (n : nat) (m : list Z) (out : nat) (c : Z) :
  (out + n <= length m)%nat ->
  byte_fill m out n c = Some (splice m out (replicate n (u8 c))).
Proof.
  intros Hn. rewrite (inplace_spec (fun _ => u8 c)
    (fun m s n => byte_fill m s n c)); [|done| |done].
  - by rewrite fmap_const, block_length by done.
  - intros m' s' n' d Hd. simpl. rewrite store_Some; [done|].
    by eapply lookup_lt_Some.
Qed.

Lemma byte_zero_spec (n : nat) (m : list Z) (out : nat) :
  (out + n <= length m)%nat ->
  byte_zero m out n = Some (splice m out (replicate n 0)).
Proof.
  intros Hn. rewrite (inplace_spec (fun _ => 0) byte_zero); [|done| |done].
  - by rewrite fmap_const, block_length by done.
  - intros m' s' n' d Hd. simpl. rewrite store_Some; [done|].
    by eapply lookup_lt_Some.
Qed.

(** * Lemmas: searching *)

Definition ne (c x : Z) : bool := negb (x =? c).

Lemma byte_chr_spec (s : list Z) (len : nat) (c : Z) :
  (len <= length s)%nat ->
  byte_chr s len c = Some (span (ne c) (take len s)).
Proof.
  revert len. induction s as [|x s IH]; intros [|len] Hl; simpl in *;
    [done|lia|done|].
  unfold ne at 1. destruct (x =? c); simpl; [done|].
  by rewrite IH by lia.
Qed.

(** Membership in the first [n] bytes of a set. *)
Definition in_set (set : list Z) (x : Z) : bool := existsb (Z.eqb x) set.

Lemma span_ne_lt (set : list Z) (x : Z) :
  (span (ne x) set <? length set)%nat = in_set set x.
Proof.
  induction set as [|y set IH]; simpl; [done|].
  unfold ne at 1. rewrite (Z.eqb_sym x y). by destruct (y =? x).
Qed.

Lemma span_ne_eq (set : list Z) (x : Z) :
  (span (ne x) set =? length set)%nat = negb (in_set set x).
Proof.
  rewrite <- span_ne_lt. pose proof (span_le (ne x) set).
  destruct (Nat.eqb_spec (span (ne x) set) (length set)),
    (Nat.ltb_spec (span (ne x) set) (length set)); simpl; lia.
Qed.

Lemma byte_chrs_spec (s : list Z) (len : nat) (set : list Z) :
  (len <= length s)%nat ->
  byte_chrs s len set (length set) =
  Some (span (fun x => negb (in_set set x)) (take len s)).
Proof.
  revert len. induction s as [|x s IH]; intros [|len] Hl; simpl in *;
    [done|lia|done|].
  rewrite byte_chr_spec, firstn_all by done. simpl. rewrite span_ne_lt.
  destruct (in_set set x); simpl; [done|]. by rewrite IH by lia.
Qed.

Lemma byte_chrns_spec (s : list Z) (len : nat) (set : list Z) :
  (len <= length s)%nat ->
  byte_chrns s len set (length set) = Some (span (in_set set) (take len s)).
Proof.
  revert len. induction s as [|x s IH]; intros [|len] Hl; simpl in *;
    [done|lia|done|].
  rewrite byte_chr_spec, firstn_all by done. simpl. rewrite span_ne_eq.
  destruct (in_set set x); simpl; [|done]. by rewrite IH by lia.
Qed.

Lemma byte_rchr_loop_spec (s : list Z) (len t : nat) (c : Z) :
  (t <= length s)%nat ->
  exists k, byte_rchr_loop s len c t = Some k /\
    ((k = len /\ forall i, (i < t)%nat -> s !! i <> Some c) \/
     ((k < t)%nat /\ s !! k = Some c /\
      forall i, (k < i < t)%nat -> s !! i <> Some c)).
Proof.
  induction t as [|t IH]; intros Ht; simpl.
  { exists len. split; [done|]. left. split; [done|]. lia. }
  destruct (lookup_lt_is_Some_2 s t) as [x Hx]; [lia|].
  unfold load. rewrite Hx. simpl. destruct (Z.eqb_spec x c) as [->|Hne].
  { exists t. split; [done|]. right. repeat split; [lia|done|]. lia. }
  destruct IH as (k & -> & H); [lia|]. exists k. split; [done|].
  assert (s !! t <> Some c) by congruence.
  destruct H as [[-> H]|(Hk & Hc & H)]; [left|right].
  - split; [done|]. intros i Hi. destruct (decide (i = t)) as [->|]; [done|].
    apply H. lia.
  - repeat split; [lia|done|]. intros i Hi.
    destruct (decide (i = t)) as [->|]; [done|]. apply H. lia.
Qed.

Lemma byte_rchrs_inner_Some (c : Z) (needles : list Z) (nn j : nat) (f : bool) :
  (j + nn <= length needles)%nat ->
  exists f', byte_rchrs_inner c needles nn j f = Some f'.
Proof.
  revert j f. induction nn as [|nn IH]; intros j f H; simpl; [eauto|].
  destruct (lookup_lt_is_Some_2 needles j) as [d Hd]; [lia|].
  unfold load. rewrite Hd. simpl. apply IH. lia.
Qed.

Lemma byte_rchrs_loop_spec (x needles : list Z) (k i : nat) (f : bool) :
  (i + k <= length x)%nat ->
  byte_rchrs_loop x needles (length needles) i k f = Some (i + k)%nat.
Proof.
  revert i f. induction k as [|k IH]; intros i f H; simpl.
  { f_equal. lia. }
  destruct (lookup_lt_is_Some_2 x i) as [c Hc]; [lia|].
  unfold load. rewrite Hc. simpl.
  destruct (byte_rchrs_inner_Some c needles (length needles) 0 f)
    as [f' ->]; [lia|]. simpl. rewrite IH by lia. f_equal. lia.
Qed.

(** The reference count. *)
Definition occurrences (c : Z) (l : list Z) : Z :=
  Z.of_nat (length (base.filter (fun x => x = c) l)).

Lemma occurrences_cons (c x : Z) (l : list Z) :
  occurrences c (x :: l) = (if x =? c then 1 else 0) + occurrences c l.
Proof.
  unfold occurrences. rewrite filter_cons.
  destruct (Z.eqb_spec x c); case_decide; simpl; lia.
Qed.

Lemma bump_occ (x ch count : Z) (l : list Z) :
  u32 (bump x ch count + occurrences ch l) =
  u32 (count + occurrences ch (x :: l)).
Proof.
  rewrite occurrences_cons. unfold bump. destruct (x =? ch); [|f_equal; lia].
  unfold u32. rewrite Zplus_mod_idemp_l. f_equal. lia.
Qed.

Lemma bump_range (x ch count : Z) : is_u32 count -> is_u32 (bump x ch count).
Proof. intros. unfold bump. case_match; [apply u32_range|done]. Qed.

Lemma byte_count_loop_spec (ch : Z) (n : nat) : forall (t : list Z) (count : Z),
  (n <= length t)%nat -> is_u32 count ->
  byte_count_loop t n ch count = Some (u32 (count + occurrences ch (take n t))).
Proof.
  induction n as [n IH] using lt_wf_ind. intros t count Hn Hc.
  assert (forall c, is_u32 c -> Some c = Some (u32 (c + occurrences ch [])))
    as Hend.
  { intros c ?. unfold occurrences. simpl. rewrite Z.add_0_r.
    by rewrite u32_id. }
  destruct n as [|n]; [simpl; by apply Hend|].
  destruct t as [|x1 t]; [simpl in Hn; lia|]. simpl.
  pose proof (bump_range x1 ch count Hc) as H1.
  rewrite <- bump_occ.
  destruct n as [|n]; [simpl; by apply Hend|].
  destruct t as [|x2 t]; [simpl in Hn; lia|]. simpl. rewrite <- bump_occ.
  pose proof (bump_range x2 ch _ H1) as H2.
  destruct n as [|n]; [simpl; by apply Hend|].
  destruct t as [|x3 t]; [simpl in Hn; lia|]. simpl. rewrite <- bump_occ.
  pose proof (bump_range x3 ch _ H2) as H3.
  destruct n as [|n]; [simpl; by apply Hend|].
  destruct t as [|x4 t]; [simpl in Hn; lia|]. simpl. rewrite <- bump_occ.
  apply IH; [lia|simpl in Hn; lia|]. by apply bump_range.
Qed.

(** * Lemmas: comparing *)

(** The two blocks agree before [k] and differ there. *)
Definition first_diff (a b : list Z) (k : nat) (x y : Z) : Prop :=
  take k a = take k b /\ a !! k = Some x /\ b !! k = Some y /\ x <> y.

Lemma byte_diff_differ (a b : list Z) (len k : nat) (x y : Z) :
  (k < len)%nat -> first_diff a b k x y -> byte_diff a len b = Some (x - y).
Proof.
  unfold first_diff.
  revert a b len. induction k as [|k IH]; intros a b len Hk (Ht & Ha & Hb & Hne);
    destruct len as [|len]; try lia;
    destruct a as [|a0 a]; destruct b as [|b0 b]; simpl in *; try done.
  - simplify_eq. destruct (Z.eqb_spec (x - y) 0); [lia|done].
  - injection Ht as -> Ht. rewrite Z.sub_diag. simpl.
    apply IH; [lia|]. repeat split; done.
Qed.

Lemma byte_diff_same (a b : list Z) (len : nat) :
  (len <= length a)%nat -> take len a = take len b ->
  byte_diff a len b = Some 0.
Proof.
  revert a b. induction len as [|len IH]; intros a b Ha Ht; simpl; [done|].
  destruct a as [|x a]; destruct b as [|y b]; simpl in *; try lia; try done.
  injection Ht as -> Ht. rewrite Z.sub_diag. simpl. apply IH; [lia|done].
Qed.

Lemma diff_cases (a b : list Z) (len : nat) :
  (len <= length a)%nat -> (len <= length b)%nat ->
  take len a = take len b \/
  exists k x y, (k < len)%nat /\ first_diff a b k x y.
Proof.
  revert a b. induction len as [|len IH]; intros a b Ha Hb; [by left|].
  destruct a as [|x a]; destruct b as [|y b]; simpl in *; try lia.
  destruct (decide (x = y)) as [->|].
  - destruct (IH a b) as [->|(k & u & v & Hk & H)]; [lia|lia|by left|].
    right. exists (S k), u, v. split; [lia|]. unfold first_diff in *.
    simpl. destruct H as (-> & ? & ? & ?). done.
  - right. exists 0%nat, x, y. repeat split; [lia|done].
Qed.

Lemma first_diff_take (a b : list Z) (k len : nat) (x y : Z) :
  (k < len)%nat -> first_diff a b k x y -> take len a <> take len b.
Proof.
  intros Hk (_ & Ha & Hb & Hne) He. apply Hne.
  assert (take len a !! k = take len b !! k) as H by by rewrite He.
  rewrite !lookup_take_lt in H by done. congruence.
Qed.

Lemma byte_equal_spec (a b : list Z) (len : nat) :
  (len <= length a)%nat -> (len <= length b)%nat ->
  byte_equal a len b = Some (bool_decide (take len a = take len b)).
Proof.
  intros Ha Hb. unfold byte_equal.
  destruct (diff_cases a b len Ha Hb) as [He|(k & x & y & Hk & H)].
  - rewrite byte_diff_same by done. simpl.
    by rewrite bool_decide_eq_true_2 by done.
  - rewrite (byte_diff_differ _ _ _ _ _ _ Hk H). simpl.
    rewrite bool_decide_eq_false_2 by (by eapply first_diff_take).
    destruct H as (_ & _ & _ & Hne). destruct (Z.eqb_spec (x - y) 0); [lia|done].
Qed.

(** Folding first and comparing then is the same as [byte_case_diff]. *)
Lemma byte_case_diff_fold (a b : list Z) (len : nat) :
  byte_case_diff a len b = byte_diff (fold_case <$> a) len (fold_case <$> b).
Proof.
  revert a b. induction len as [|len IH]; intros [|x a] [|y b]; simpl; try done.
  rewrite IH.
  by replace (fold_case x - fold_case y =? 0) with (fold_case x =? fold_case y)
    by lia.
Qed.

Lemma byte_case_equal_spec (a b : list Z) (len : nat) :
  (len <= length a)%nat -> (len <= length b)%nat ->
  byte_case_equal a len b =
  Some (bool_decide
          (fold_case <$> take len a = fold_case <$> take len b)).
Proof.
  intros Ha Hb. unfold byte_case_equal. rewrite byte_case_diff_fold.
  change (byte_equal (fold_case <$> a) len (fold_case <$> b) =
    Some (bool_decide (fold_case <$> take len a = fold_case <$> take len b))).
  rewrite byte_equal_spec by (by rewrite length_fmap).
  by rewrite !fmap_take.
Qed.

Definition prefix_at (h w : list Z) (i : nat) : Prop :=
  block h i (length w) = w.

Lemma byte_findb_loop_spec (w : list Z) (hlen k : nat) : forall (s : list Z) i,
  (0 < k -> k + length w <= S (length s))%nat ->
  exists r, byte_findb_loop s hlen w (length w) i k = Some r /\
    ((r = hlen /\ forall j, (j < k)%nat -> ~ prefix_at s w j) \/
     exists j, r = (i + j)%nat /\ (j < k)%nat /\ prefix_at s w j /\
       forall j', (j' < j)%nat -> ~ prefix_at s w j').
Proof.
  induction k as [|k IH]; intros s i Hk; simpl.
  { exists hlen. split; [done|]. left. split; [done|]. lia. }
  rewrite byte_equal_spec by lia. simpl. rewrite (firstn_all w).
  case_bool_decide as He.
  { exists i. split; [done|]. right. exists 0%nat. repeat split; try lia.
    unfold prefix_at, block. by rewrite drop_0. }
  destruct (IH (tail s) (S i)) as (r & Hr & H).
  { destruct s; simpl in *; lia. }
  rewrite Hr. exists r. split; [done|].
  assert (~ prefix_at s w 0) as H0.
  { unfold prefix_at, block. by rewrite drop_0. }
  assert (forall j, prefix_at s w (S j) <-> prefix_at (tail s) w j) as HS.
  { intros j. unfold prefix_at, block. destruct s; simpl; [|done].
    by rewrite drop_nil. }
  destruct H as [[-> H]|(j & -> & Hj & Hp & H)]; [left|right].
  - split; [done|]. intros [|j] ?; [done|]. rewrite HS. apply H. lia.
  - exists (S j). split; [lia|]. split; [lia|]. split; [by rewrite HS|].
    intros [|j'] ?; [done|]. rewrite HS. apply H. lia.
Qed.

(** * Properties *)

(** [byte_copy] and [byte_copyr] are [memmove] as long as the overlapping
    halves are read before they are written: copying up for a destination
    below the source, copying down for a destination above it, either one for
    a source in another object; nothing outside the [len] bytes changes. *)
Theorem byte_move_correct (m : list Z) (out len : nat) (src : cptr) :
  (out + len <= length m)%nat -> src_room m src len ->
  (fwd_safe src out len ->
     byte_copy m out len src = Some (splice m out (src_block m src len))) /\
  (bwd_safe src out len ->
     byte_copyr m out len src = Some (splice m out (src_block m src len))).
Proof. intros. split; intros; auto with dl. Qed.

Lemma byte_move_correct_witness :
  byte_copy [1; 2; 3; 4; 5] 0 3 (Here 2) = Some [3; 4; 5; 4; 5] /\
  byte_copyr [1; 2; 3; 4; 5] 2 3 (Here 0) = Some [1; 2; 1; 2; 3].
Proof.
  split.
  - apply (byte_move_correct [1; 2; 3; 4; 5] 0 3 (Here 2)); simpl; lia.
  - apply (byte_move_correct [1; 2; 3; 4; 5] 2 3 (Here 0)); simpl; lia.
Defined.

(** [byte_diff] compares [len] bytes as unsigned characters: its result is
    the difference of the first pair that differs, changes sign when the
    arguments are exchanged, is zero exactly for equal blocks, and is already
    defined when the objects end at the first difference. *)
Theorem byte_diff_correct (a b : list Z) (len : nat) :
  (forall k x y, (k < len)%nat -> first_diff a b k x y ->
     byte_diff a len b = Some (x - y)) /\
  ((len <= length a)%nat -> (len <= length b)%nat ->
   exists r, byte_diff a len b = Some r /\ byte_diff b len a = Some (- r) /\
     (r = 0 <-> take len a = take len b)).
Proof.
  split; [intros; by eapply byte_diff_differ|]. intros Ha Hb.
  destruct (diff_cases a b len Ha Hb) as [He|(k & x & y & Hk & H)].
  - exists 0. rewrite byte_diff_same by done.
    rewrite byte_diff_same by done. done.
  - exists (x - y). rewrite (byte_diff_differ a b len k x y) by done.
    pose proof (first_diff_take _ _ _ _ _ _ Hk H) as Hn.
    destruct H as (Ht & Hx & Hy & Hne).
    rewrite (byte_diff_differ b a len k y x) by (repeat split; done).
    split; [done|]. split; [f_equal; lia|]. split; [lia|done].
Qed.

Lemma byte_diff_correct_witness :
  byte_diff [1; 200] 5 [1; 3] = Some 197 /\
  exists r, byte_diff [7; 8] 2 [7; 8] = Some r.
Proof.
  split.
  - apply (proj1 (byte_diff_correct [1; 200] [1; 3] 5) 1%nat 200 3); [lia|].
    repeat split; simpl; lia.
  - destruct (proj2 (byte_diff_correct [7; 8] [7; 8] 2)) as (r & H & _);
      [simpl; lia..|]. by exists r.
Defined.

(** [byte_findb] gives the first index at which the [wlen] bytes occur in
    the [hlen] bytes, and [hlen] when they occur nowhere. *)
Theorem byte_findb_first (h w : list Z) (hlen : nat) :
  (hlen <= length h)%nat ->
  exists r, byte_findb h hlen w (length w) = Some r /\
    ((r = hlen /\
      forall j, (j + length w <= hlen)%nat -> ~ prefix_at h w j) \/
     ((r + length w <= hlen)%nat /\ prefix_at h w r /\
      forall j, (j < r)%nat -> ~ prefix_at h w j)).
Proof.
  intros Hh. unfold byte_findb. destruct (Nat.ltb_spec hlen (length w)).
  { exists hlen. split; [done|]. left. split; [done|]. lia. }
  destruct (byte_findb_loop_spec w hlen (S (hlen - length w)) h 0)
    as (r & -> & H'); [lia|].
  exists r. split; [done|].
  destruct H' as [[-> H']|(j & -> & Hj & Hp & H')]; [left|right].
  - split; [done|]. intros j Hj. apply H'. lia.
  - simpl. repeat split; [lia|done..].
Qed.

Lemma byte_findb_first_witness :
  exists r, byte_findb (lit "abracadabra") 11 (lit "cad") 3 = Some r.
Proof.
  destruct (byte_findb_first (lit "abracadabra") (lit "cad") 11)
    as (r & H & _); [simpl; lia|]. by exists r.
Defined.

(** The four-fold unrolled loop of [byte_count] counts the occurrences of
    the byte among the first [n], modulo the width of [unsigned int]. *)
Theorem byte_count_correct (s : list Z) (n : nat) (c : Z) :
  (n <= length s)%nat ->
  byte_count s n c = Some (u32 (occurrences (u8 c) (take n s))).
Proof.
  intros Hn. unfold byte_count.
  by rewrite byte_count_loop_spec by (done || unfold is_u32; lia).
Qed.

Lemma byte_count_correct_witness :
  byte_count (lit "a,b,,c,d") 8 ","%C = Some 4.
Proof. rewrite byte_count_correct; [reflexivity|simpl; lia]. Defined.

(** [byte_camelize] reads one byte behind the block when its last byte is
    a dash: on an object that ends with the block the access is outside the
    object. *)
Theorem byte_camelize_overrun (l : list Z) :
  Forall (fun c => c <> 45) l ->
  byte_camelize (l ++ [45]) 0 (S (length l)) = None.
Proof.
  intros Hl. unfold byte_camelize.
  enough (forall k i m, (i + k = length l)%nat ->
    (forall j, (i <= j)%nat -> m !! j = (l ++ [45]) !! j) ->
    length m = S (length l) ->
    byte_camelize_loop m 0 (S (length l)) i i (S k) = None) as H.
  { apply (H (length l) 0%nat); [lia|done|].
    rewrite length_app. simpl. lia. }
  induction k as [|k IH]; intros i m Hi Hm Hlen; cbn [byte_camelize_loop];
    ztrue (i <? S (length l))%nat; cbn [Nat.add]; unfold load;
    rewrite (Hm i) by lia.
  - rewrite lookup_app_r by lia.
    replace (i - length l)%nat with 0%nat by lia. simpl.
    by rewrite (lookup_ge_None_2 m) by lia.
  - destruct (lookup_lt_is_Some_2 l i) as [c Hc]; [lia|].
    rewrite lookup_app_l, Hc by lia. cbn [mbind option_bind].
    rewrite Forall_lookup in Hl. pose proof (Hl _ _ Hc).
    destruct (Z.eqb_spec c 45); [done|].
    rewrite store_Some by lia. cbn [mbind option_bind].
    apply IH; [lia| |by rewrite length_insert].
    intros j Hj. rewrite list_lookup_insert_ne by lia. apply Hm. lia.
Qed.

Lemma byte_camelize_overrun_witness :
  byte_camelize (lit "data-") 0 5 = None.
Proof.
  apply (byte_camelize_overrun (lit "data")). repeat constructor; lia.
Defined.
