(* ===== verification/StrOps.v ===== *)
(** Terminated strings: [lib/str/], [lib/case/] and the routines of
    [lib/byte/] that take a terminated argument.  A string argument is the
    pointer to its first byte: the bytes up to the end of the object.  A
    routine that runs off the object is undefined, [None]; the loops consume
    the string they read, on which the definitions recurse. *)
From S2P Require Import Prelude ByteOps.

(** * Length and copies *)

Fixpoint str_len (s : list Z) : option nat :=
  match s with
  | [] => None
  | c :: s' => if c =? 0 then Some O else S <$> str_len s'
  end.

(** The copies write to the object [m] at the offset [s]; their source is
    another object.  They give the object and the length without the
    terminator. *)
Fixpoint str_copy (m : list Z) (s : nat) (t : list Z)
  : option (list Z * nat) :=
  match t with
  | [] => None
  | c :: t' =>
      m1 ← store m s c;
      if c =? 0 then Some (m1, O)
      else '(m2, n) ← str_copy m1 (S s) t'; Some (m2, S n)
  end.

Fixpoint str_copyn (m : list Z) (s : nat) (t : list Z) (max : nat)
  : option (list Z * nat) :=
  match max with
  | O => m1 ← store m s 0; Some (m1, O)
  | S max' =>
      match t with
      | [] => None
      | c :: t' =>
          m1 ← store m s c;
          if c =? 0 then Some (m1, O)
          else '(m2, n) ← str_copyn m1 (S s) t' max'; Some (m2, S n)
      end
  end.

Fixpoint str_copyb (m : list Z) (s : nat) (t : list Z) (max : nat)
  : option (list Z * nat) :=
  match max with
  | O => Some (m, O)
  | S max' =>
      match t with
      | [] => None
      | c :: t' =>
          m1 ← store m s c;
          if c =? 0 then Some (m1, O)
          else '(m2, n) ← str_copyb m1 (S s) t' max'; Some (m2, S n)
      end
  end.

(** The loop of [str_cat] holds its body four times. *)
Definition str_cat (m : list Z) (s : nat) (t : list Z)
  : option (list Z * nat) :=
  len ← str_len (drop s m);
  '(m', n) ← str_copy m (s + len) t;
  Some (m', (len + n)%nat).

(** [while( *s && len < max)] over the old string, then
    [while(len < max)] over the new one. *)
Fixpoint str_catn_skip (s : list Z) (max : nat) : option nat :=
  match s with
  | [] => None
  | c :: s' =>
      if c =? 0 then Some O else
      match max with
      | O => Some O
      | S max' => S <$> str_catn_skip s' max'
      end
  end.

Definition str_catn (m : list Z) (s : nat) (t : list Z) (max : nat)
  : option (list Z * nat) :=
  len ← str_catn_skip (drop s m) max;
  '(m', n) ← str_copyn m (s + len) t (max - len);
  Some (m', (len + n)%nat).

(** [malloc] of [n] bytes succeeds or gives [NULL]; a fresh object has
    arbitrary bytes, here [junk].  The result is the new object. *)
Definition str_dup (junk : nat -> option (list Z)) (s : list Z)
  : option (option (list Z)) :=
  len ← str_len s;
  match junk (len + 1)%nat with
  | None => Some None
  | Some r => r' ← byte_copy r 0 (len + 1) (There s); Some (Some r')
  end.

Definition str_ndup (junk : nat -> option (list Z)) (s : list Z) (n : nat)
  : option (option (list Z)) :=
  match junk (n + 1)%nat with
  | None => Some None
  | Some r =>
      r1 ← byte_copy r 0 n (There s);
      r2 ← store r1 n 0; Some (Some r2)
  end.

(** * Searching for characters *)

Fixpoint str_chr (s : list Z) (needle : Z) : option nat :=
  match s with
  | [] => None
  | c :: s' =>
      if (c =? 0) || (c =? needle) then Some O else S <$> str_chr s' needle
  end.

Fixpoint any_of (c : Z) (needles : list Z) (nn : nat) : option bool :=
  match nn with
  | O => Some false
  | S nn' =>
      match needles with
      | [] => None
      | d :: needles' => if c =? d then Some true else any_of c needles' nn'
      end
  end.

Fixpoint str_chrs (s : list Z) (needles : list Z) (nn : nat) : option nat :=
  match s with
  | [] => None
  | c :: s' =>
      if c =? 0 then Some O else
      hit ← any_of c needles nn;
      if (hit : bool) then Some O else S <$> str_chrs s' needles nn
  end.

(** [i] is the current index and [found] the last match. *)
Fixpoint str_rchr_loop (s : list Z) (needle : Z) (i : nat)
    (found : option nat) : option nat :=
  match s with
  | [] => None
  | c :: s' =>
      if c =? 0 then Some (default i found)
      else str_rchr_loop s' needle (S i)
             (if c =? needle then Some i else found)
  end.

Definition str_rchr (s : list Z) (needle : Z) : option nat :=
  str_rchr_loop s needle 0 None.

Fixpoint str_rchrs_loop (s : list Z) (needles : list Z) (nn i : nat)
    (found : option nat) : option nat :=
  match s with
  | [] => None
  | c :: s' =>
      if c =? 0 then Some (default i found) else
      hit ← any_of c needles nn;
      str_rchrs_loop s' needles nn (S i)
        (if (hit : bool) then Some i else found)
  end.

Definition str_rchrs (s : list Z) (needles : list Z) (nn : nat) : option nat :=
  str_rchrs_loop s needles nn 0 None.

(** The last component of a path: [PATH_LASTSEP] on systems with slashes;
    gives the offset. *)
Definition str_basename (s : list Z) : option nat :=
  n ← str_rchr s "/"%C;
  if (n =? 0)%nat then Some O else
  c ← load s n;
  Some (if c =? 0 then O else S n).

(** * Comparing *)

Fixpoint str_diff (s t : list Z) : option Z :=
  match s, t with
  | x :: s', y :: t' =>
      let j := x - y in
      if negb (j =? 0) then Some j
      else if y =? 0 then Some j else str_diff s' t'
  | _, _ => None
  end.

Fixpoint str_diffn (s t : list Z) (limit : nat) {struct limit} : option Z :=
  match limit with
  | O => Some 0
  | S limit' =>
      match s, t with
      | x :: s', y :: t' =>
          let j := x - y in
          if negb (j =? 0) then Some j
          else if y =? 0 then Some j
          else match limit' with
               | O => Some j
               | S _ => str_diffn s' t' limit'
               end
      | _, _ => None
      end
  end.

Definition str_equal (s t : list Z) : option bool :=
  r ← str_diff s t; Some (r =? 0).

(** The case-insensitive comparisons of [lib/str/] read plain [char]s, which
    are signed. *)
Definition fold_char (c : Z) : Z := fold_case (s8 c).

Fixpoint str_case_diff (s t : list Z) : option Z :=
  match s, t with
  | c :: s', d :: t' =>
      let x := fold_char c in
      let y := fold_char d in
      if negb (x =? y) then Some (x - y)
      else if x =? 0 then Some (x - y)
      else str_case_diff s' t'
  | _, _ => None
  end.

Fixpoint str_case_diffn (s t : list Z) (n : nat) {struct n} : option Z :=
  match n with
  | O => Some 0
  | S n' =>
      match s, t with
      | c :: s', d :: t' =>
          let x := fold_char c in
          let y := fold_char d in
          if (n' =? 0)%nat then Some (x - y)
          else if negb (x =? y) then Some (x - y)
          else if x =? 0 then Some (x - y)
          else str_case_diffn s' t' n'
      | _, _ => None
      end
  end.

Definition str_case_equal (s t : list Z) : option bool :=
  r ← str_case_diff s t; Some (r =? 0).

Fixpoint str_case_start (s t : list Z) : option bool :=
  match s, t with
  | c :: s', d :: t' =>
      let x := fold_char c in
      let y := fold_char d in
      if x =? 0 then Some false
      else if y =? 0 then Some true
      else if negb (x =? y) then Some false
      else str_case_start s' t'
  | _, _ => None
  end.

Fixpoint str_startb (a x : list Z) (len : nat) : option bool :=
  match len with
  | O => Some true
  | S len' =>
      match a, x with
      | c :: a', d :: x' =>
          if negb (c =? d) then Some false else str_startb a' x' len'
      | _, _ => None
      end
  end.

Definition str_start (a b : list Z) : option bool :=
  n ← str_len b; str_startb a b n.

Definition str_endb (a x : list Z) (n : nat) : option bool :=
  alen ← str_len a;
  if (n <=? alen)%nat then byte_equal (drop (alen - n) a) n x
  else Some false.

Definition str_end (a b : list Z) : option bool :=
  n ← str_len b; str_endb a b n.

(** * Searching for strings *)

(** [for(j = 0; x[j] == b[j];) if(++j == n) return i;] *)
Fixpoint str_match (x b : list Z) (j n : nat) : option bool :=
  match x, b with
  | c :: x', d :: b' =>
      if negb (c =? d) then Some false
      else if (S j =? n)%nat then Some true
      else str_match x' b' (S j) n
  | _, _ => None
  end.

Fixpoint str_findb_loop (b x : list Z) (n i k : nat) : option (option nat) :=
  match k with
  | O => Some None
  | S k' =>
      hit ← str_match x b 0 n;
      if (hit : bool) then Some (Some i)
      else str_findb_loop (tail b) x n (S i) k'
  end.

Definition str_findb (s1 x : list Z) (n : nat) : option nat :=
  len ← str_len s1;
  if (n <=? len)%nat then
    r ← str_findb_loop s1 x n 0 (len - n + 1);
    Some (default len r)
  else Some len.

Definition str_find (s what : list Z) : option nat :=
  n ← str_len what; str_findb s what n.

(** From the last candidate down to offset 0; [k] is the candidate plus
    one. *)
Fixpoint str_rfindb_loop (s1 x : list Z) (n k : nat) : option (option nat) :=
  match k with
  | O => Some None
  | S k' =>
      hit ← str_match x (drop k' s1) 0 n;
      if (hit : bool) then Some (Some k') else str_rfindb_loop s1 x n k'
  end.

Definition str_rfindb (s1 x : list Z) (n : nat) : option nat :=
  len ← str_len s1;
  if (n =? 0)%nat then Some len else
  c ← load x 0;
  if c =? 0 then Some len else
  r ← str_rfindb_loop s1 x n (S len - n);
  Some (default len r).

Definition str_rfind (s what : list Z) : option nat :=
  n ← str_len what; str_rfindb s what n.

(** The first character of [find] is compared as it is, the rest without
    case; gives the offset, [None] for [NULL]. *)
Fixpoint str_istr_loop (s : list Z) (c : Z) (find : list Z) (len i : nat)
  : option (option nat) :=
  match s with
  | [] => None
  | sc :: s' =>
      if sc =? 0 then Some None
      else if negb (sc =? c) then str_istr_loop s' c find len (S i)
      else
        r ← str_case_diffn s' find len;
        if negb (r =? 0) then str_istr_loop s' c find len (S i)
        else Some (Some i)
  end.

Definition str_istr (s find : list Z) : option (option nat) :=
  match find with
  | [] => None
  | c :: find' =>
      if c =? 0 then Some (Some O) else
      len ← str_len find'; str_istr_loop s c find' len 0
  end.

(** * Testing and translating *)

Fixpoint str_all (s : list Z) (pred : Z -> bool) : option bool :=
  match s with
  | [] => None
  | c :: s' =>
      if c =? 0 then Some true
      else if negb (pred (s8 c)) then Some false else str_all s' pred
  end.

Definition str_is (s : list Z) (pred : Z -> bool) : option bool :=
  c ← load s 0;
  if c =? 0 then Some false else str_all s pred.

(** In place from the offset [s]; [fuel] bounds the string by its object. *)
Fixpoint str_lower_loop (m : list Z) (s fuel : nat) : option (list Z) :=
  match fuel with
  | O => None
  | S fuel' =>
      c ← load m s;
      let x := s8 c in
      if x =? 0 then Some m else
      m' ← (if (65 <=? x) && (x <=? 90) then store m s (u8 (x + 97 - 65))
            else Some m);
      str_lower_loop m' (S s) fuel'
  end.

Definition str_lower (m : list Z) (s : nat) : option (list Z) :=
  str_lower_loop m s (S (length m - s)).

Fixpoint str_camelize_loop (m : list Z) (p x fuel : nat)
  : option (list Z * nat) :=
  match fuel with
  | O => None
  | S fuel' =>
      c ← load m p;
      if c =? 0 then m' ← store m x 0; Some (m', x)
      else if c =? "-"%C then
        d ← load m (S p);
        m' ← store m x (toupper d);
        str_camelize_loop m' (S (S p)) (S x) fuel'
      else
        m' ← store m x c;
        str_camelize_loop m' (S p) (S x) fuel'
  end.

Definition str_camelize (m : list Z) (s : nat) : option (list Z * nat) :=
  '(m', x) ← str_camelize_loop m s s (S (length m - s));
  Some (m', (x - s)%nat).

(** The new start of the string. *)
Fixpoint str_triml (s charset : list Z) (setlen : nat) : option (list Z) :=
  match s with
  | [] => None
  | c :: s' =>
      if c =? 0 then Some s else
      j ← byte_chr charset setlen c;
      if negb (j =? setlen)%nat then Some s else str_triml s' charset setlen
  end.

(** [strchr(delims, c)] of the standard library for a character [c] that is
    not the terminator. *)
Definition strchr_hit (delims : list Z) (c : Z) : option bool :=
  k ← str_chr delims c; d ← load delims k; Some (d =? c).

(** The tokenizer keeps its position in [*ptrptr]: the offset [st] in the
    object [m].  [start] is the argument [s], [None] for [NULL].  Gives the
    object, the new state and the token, [None] for [NULL]. *)
Fixpoint tok_skip (m delims : list Z) (want : bool) (s fuel : nat)
  : option nat :=
  match fuel with
  | O => None
  | S fuel' =>
      c ← load m s;
      if c =? 0 then Some s else
      hit ← strchr_hit delims c;
      if Bool.eqb hit want then tok_skip m delims want (S s) fuel' else Some s
  end.

Definition str_tok (m : list Z) (start : option nat) (delims : list Z)
    (st : nat) : option (list Z * nat * option nat) :=
  s ← (match start with
       | Some s => Some s
       | None => tok_skip m delims true st (S (length m))
       end);
  c ← load m s;
  if c =? 0 then Some (m, st, None) else
  e ← tok_skip m delims false s (S (length m));
  d ← load m e;
  if negb (d =? 0) then m' ← store m e 0; Some (m', S e, Some s)
  else Some (m, e, Some s).

(** [str_versdiff] compares runs of digits as numbers ([int64], whose overflow
    is undefined). *)
Fixpoint vers_common (s1 s2 : list Z) (i : nat) : option (option nat) :=
  match s1, s2 with
  | x :: s1', y :: s2' =>
      if negb (x =? y) then Some (Some i)
      else if x =? 0 then Some None else vers_common s1' s2' (S i)
  | _, _ => None
  end.

(** Back over the digits before [i]. *)
Fixpoint digits_back (s : list Z) (j : nat) : option nat :=
  match j with
  | O => Some O
  | S j' => c ← load s j'; if isdigit c then digits_back s j' else Some j
  end.

Definition push_digit (a c : Z) : option Z :=
  t ← chk64 (a * 10); t ← chk64 (t + c); chk64 (t - 48).

Fixpoint digits_run (s : list Z) (a : Z) : option Z :=
  match s with
  | [] => None
  | c :: s' => if isdigit c then a' ← push_digit a c; digits_run s' a'
               else Some a
  end.

Fixpoint digits_fold (s : list Z) (n : nat) (a : Z) : option Z :=
  match n with
  | O => Some a
  | S n' =>
      match s with
      | [] => None
      | c :: s' => a' ← push_digit a c; digits_fold s' n' a'
      end
  end.

Definition str_versdiff (s1 s2 : list Z) : option Z :=
  r ← vers_common s1 s2 0;
  match r with
  | None => Some 0
  | Some i =>
      x ← load s1 i; y ← load s2 i;
      if negb (isdigit x) || negb (isdigit y) then Some (s8 x - s8 y) else
      j ← digits_back s1 i;
      a ← digits_fold (drop j s1) (i - j) 0;
      va ← digits_run (drop i s1) a;
      vb ← digits_run (drop i s2) a;
      Some (if va <? vb then -1 else 1)
  end.

(** * Terminated arguments of the byte routines *)

Definition byte_finds (h : list Z) (hlen : nat) (what : list Z) : option nat :=
  n ← str_len what; byte_findb h hlen what n.

Definition byte_starts (x : list Z) (n : nat) (s : list Z) : option bool :=
  k ← str_len s; byte_startb x n s k.

Definition byte_ends (x : list Z) (n : nat) (s : list Z) : option bool :=
  k ← str_len s; byte_endb x n s k.

(** * [lib/case/]: folding by wrap-around of [unsigned char] *)

Definition case_fold (c : Z) : Z :=
  let x := u8 (c - 65) in
  if x <=? 25 then u8 (x + 97) else u8 (x + 65).

Definition case_lowerc (c : Z) : Z :=
  if (65 <=? c) && (c <=? 90) then c + 32 else c.

Fixpoint case_diffb (s : list Z) (len : nat) (t : list Z) {struct len}
  : option Z :=
  match len with
  | O => Some 0
  | S len' =>
      match s, t with
      | c :: s', d :: t' =>
          let x := case_fold c in
          let y := case_fold d in
          if negb (x =? y) then Some (x - y) else case_diffb s' len' t'
      | _, _ => None
      end
  end.

Fixpoint case_diffs (s t : list Z) : option Z :=
  match s, t with
  | c :: s', d :: t' =>
      let x := case_fold c in
      let y := case_fold d in
      if negb (x =? y) then Some (x - y)
      else if x =? 0 then Some (x - y)
      else case_diffs s' t'
  | _, _ => None
  end.

Fixpoint case_starts (s t : list Z) : option bool :=
  match t with
  | [] => None
  | d :: t' =>
      if d =? 0 then Some true else
      match s with
      | [] => None
      | c :: s' =>
          let x := case_fold c in
          let y := case_fold d in
          if negb (x =? y) then Some false
          else if x =? 0 then Some false
          else case_starts s' t'
      end
  end.

Fixpoint case_lowerb (m : list Z) (s len : nat) : option (list Z) :=
  match len with
  | O => Some m
  | S len' =>
      c ← load m s;
      let x := u8 (c - 65) in
      m' ← (if x <=? 25 then store m s (u8 (x + 97)) else Some m);
      case_lowerb m' (S s) len'
  end.

Fixpoint case_lowers_loop (m : list Z) (s fuel : nat) : option (list Z) :=
  match fuel with
  | O => None
  | S fuel' =>
      c ← load m s;
      if c =? 0 then Some m else
      let x := u8 (c - 65) in
      m' ← (if x <=? 25 then store m s (u8 (x + 97)) else Some m);
      case_lowers_loop m' (S s) fuel'
  end.

Definition case_lowers (m : list Z) (s : nat) : option (list Z) :=
  case_lowers_loop m s (S (length m - s)).

Fixpoint case_findb_loop (s : list Z) (hlen : nat) (what : list Z)
    (wlen i k : nat) : option nat :=
  match k with
  | O => Some hlen
  | S k' =>
      d ← case_diffb s wlen what;
      if d =? 0 then Some i
      else case_findb_loop (tail s) hlen what wlen (S i) k'
  end.

Definition case_findb (h : list Z) (hlen : nat) (what : list Z) (wlen : nat)
  : option nat :=
  if (hlen <? wlen)%nat then Some hlen
  else case_findb_loop h hlen what wlen 0 (S (hlen - wlen)).

Definition case_finds (h : list Z) (hlen : nat) (what : list Z) : option nat :=
  n ← str_len what; case_findb h hlen what n.

Definition case_find (s what : list Z) : option nat :=
  n ← str_len s; case_finds s n what.

(** * Lemmas *)

(** The bytes of a terminated string inside a larger object. *)
Definition zstr (l junk : list Z) : list Z := l ++ 0 :: junk.

Lemma nonul_cons (c : Z) (l : list Z) :
  nonul (c :: l) <-> 1 <= c < 256 /\ nonul l.
Proof. apply Forall_cons_iff. Qed.

Lemma nonul_app (l1 l2 : list Z) : nonul (l1 ++ l2) <-> nonul l1 /\ nonul l2.
Proof. apply Forall_app. Qed.

Lemma str_len_spec (l junk : list Z) :
  nonul l -> str_len (zstr l junk) = Some (length l).
Proof.
  unfold zstr. induction 1 as [|c l Hc _ IH]; [done|]. simpl.
  zfalse (c =? 0). by rewrite IH.
Qed.

(** Conversely, a length means a terminator and nothing else before it. *)
Lemma str_len_inv (s : list Z) (n : nat) :
  str_len s = Some n ->
  s !! n = Some 0 /\ forall i c, (i < n)%nat -> s !! i = Some c -> c <> 0.
Proof.
  revert n. induction s as [|x s IH]; intros n; simpl; [done|].
  destruct (Z.eqb_spec x 0) as [->|Hx]; [intros [= <-]; split; [done|lia]|].
  destruct (str_len s) as [k|]; intros [= <-].
  destruct (IH k eq_refl) as [H0 Hi]. split; [done|].
  intros [|i] c Hlt; simpl; [by intros [= <-]|]. apply Hi. lia.
Qed.

Lemma str_copy_spec (l junk : list Z) : forall (m : list Z) (s : nat),
  nonul l -> (s + length l < length m)%nat ->
  str_copy m s (zstr l junk) = Some (splice m s (l ++ [0]), length l).
Proof.
  unfold zstr. induction l as [|c l IH]; intros m s Hl Hr; simpl in *.
  - rewrite store_Some by lia. simpl.
    by rewrite splice_cons, splice_nil by lia.
  - apply nonul_cons in Hl as [Hc Hl]. rewrite store_Some by lia. simpl.
    zfalse (c =? 0). rewrite IH by (done || rewrite length_insert; lia).
    simpl. by rewrite splice_cons by lia.
Qed.

Lemma str_copy_full (l junk : list Z) : forall (m : list Z) (s : nat),
  nonul l -> (length m <= s + length l)%nat ->
  str_copy m s (zstr l junk) = None.
Proof.
  unfold zstr. induction l as [|c l IH]; intros m s Hl Hr; simpl in *.
  - by rewrite store_None by lia.
  - apply nonul_cons in Hl as [Hc Hl].
    destruct (decide (s < length m)%nat).
    + rewrite store_Some by lia. simpl. zfalse (c =? 0).
      by rewrite IH by (done || rewrite length_insert; lia).
    + by rewrite store_None by lia.
Qed.

(** Both comparisons are the same loop over folded bytes. *)
Lemma str_diff_case_diffs (s t : list Z) :
  bytes s -> bytes t ->
  case_diffs s t = str_diff (case_fold <$> s) (case_fold <$> t).
Proof.
  intros Hs. revert t. induction Hs as [|c s Hc _ IH]; intros t Ht; [done|].
  destruct Ht as [|d t Hd Ht]; [done|]. simpl. rewrite IH by done.
  set (x := case_fold c). set (y := case_fold d).
  destruct (Z.eqb_spec x y) as [E|E]; simpl.
  - rewrite E, Z.sub_diag. simpl. done.
  - by zfalse (x - y =? 0).
Qed.

Lemma case_fold_lower (c : Z) :
  is_u8 c -> case_fold c = if isupper c then c + 32 else c.
Proof. intros H. by_bytes c. Qed.

Lemma fold_char_eq (c d : Z) :
  is_u8 c -> is_u8 d ->
  (fold_char c =? fold_char d) = (case_fold c =? case_fold d).
Proof.
  intros Hc Hd. apply eqb_prop.
  apply (byte_forall2 (fun c d => Bool.eqb (fold_char c =? fold_char d)
    (case_fold c =? case_fold d))); [vm_compute; reflexivity|done|done].
Qed.

Lemma fold_char_zero (c : Z) :
  is_u8 c -> (fold_char c =? 0) = (c =? 0).
Proof. intros H. by_bytes c. Qed.

Lemma case_fold_zero (c : Z) :
  is_u8 c -> (case_fold c =? 0) = (c =? 0).
Proof. intros H. by_bytes c. Qed.

Lemma case_fold_bytes (c : Z) : is_u8 c -> is_u8 (case_fold c).
Proof. intros. unfold case_fold. case_match; apply u8_range. Qed.

(** Two terminated strings differ at a first place, which may be the end of
    one of them, or are equal. *)
Lemma zstr_cases (a b j k : list Z) :
  nonul a -> nonul b ->
  (a = b /\ str_diff (zstr a j) (zstr b k) = Some 0) \/
  exists n x y, first_diff (a ++ [0]) (b ++ [0]) n x y /\
    str_diff (zstr a j) (zstr b k) = Some (x - y).
Proof.
  unfold zstr, first_diff. intros Ha. revert b.
  induction Ha as [|c a Hc _ IH]; intros b Hb.
  - destruct Hb as [|d b Hd _]; [by left|].
    right. exists 0%nat, 0, d. simpl. zfalse (0 - d =? 0). simpl.
    repeat split; lia.
  - destruct Hb as [|d b Hd Hb].
    + right. exists 0%nat, c, 0. simpl. zfalse (c - 0 =? 0). simpl.
      repeat split; lia.
    + simpl. destruct (Z.eqb_spec (c - d) 0) as [E|E]; simpl.
      * assert (c = d) as <- by lia. zfalse (c =? 0).
        destruct (IH b Hb) as [[-> H]|(n & x & y & (H1 & H2 & H3 & H4) & H5)];
          [by left|].
        right. exists (S n), x, y. simpl. rewrite H1. done.
      * right. exists 0%nat, c, d. simpl. repeat split; lia.
Qed.

Lemma first_diff_inj (a b : list Z) (n n' : nat) (x y x' y' : Z) :
  first_diff a b n x y -> first_diff a b n' x' y' ->
  n = n' /\ x = x' /\ y = y'.
Proof.
  intros (H1 & H2 & H3 & H4) (G1 & G2 & G3 & G4).
  assert (forall i j u v, take j a = take j b -> a !! i = Some u ->
    b !! i = Some v -> u <> v -> ~ (i < j)%nat) as Hlt.
  { intros i j u v Ht Hu Hv Hne Hij. apply Hne.
    assert (take j a !! i = take j b !! i) as E by by rewrite Ht.
    rewrite !lookup_take_lt in E by done. congruence. }
  pose proof (Hlt _ _ _ _ H1 G2 G3 G4). pose proof (Hlt _ _ _ _ G1 H2 H3 H4).
  assert (n = n') as <- by lia. naive_solver.
Qed.

(** [str_match] compares [n >= 1] bytes. *)
Lemma str_match_spec (x b : list Z) (n j : nat) :
  (j < n)%nat -> (n - j <= length x)%nat -> (n - j <= length b)%nat ->
  str_match x b j n = Some (bool_decide (take (n - j) x = take (n - j) b)).
Proof.
  revert b j. induction x as [|c x IH]; intros [|d b] j Hj Hx Hb;
    cbn [length] in *; try lia.
  replace (n - j)%nat with (S (n - S j)) by lia.
  cbn [str_match take].
  destruct (Z.eqb_spec c d) as [->|Hne]; cbn [negb].
  - destruct (Nat.eqb_spec (S j) n) as [<-|].
    + rewrite Nat.sub_diag. by rewrite bool_decide_eq_true_2.
    + rewrite IH by lia. f_equal. apply bool_decide_ext. split; [by intros ->|by intros [= ->]].
  - rewrite bool_decide_eq_false_2 by naive_solver. done.
Qed.

Lemma drop_tail (l : list Z) (i : nat) : tail (drop i l) = drop (S i) l.
Proof. revert i. induction l; intros [|i]; simpl; by rewrite ?drop_0, ?drop_nil. Qed.

Lemma str_findb_loop_spec (b w : list Z) (k : nat) : forall i,
  w <> [] -> (i + k + length w <= S (length b))%nat ->
  exists r, str_findb_loop (drop i b) w (length w) i k = Some r /\
    match r with
    | None => forall j, (i <= j < i + k)%nat -> ~ prefix_at b w j
    | Some f => (i <= f < i + k)%nat /\ prefix_at b w f /\
        forall j, (i <= j < f)%nat -> ~ prefix_at b w j
    end.
Proof.
  induction k as [|k IH]; intros i Hw Hk; simpl.
  { exists None. split; [done|lia]. }
  assert (0 < length w)%nat as Hl by (destruct w; simpl; [done|lia]).
  rewrite str_match_spec by (rewrite ?length_drop; lia).
  simpl. rewrite Nat.sub_0_r, firstn_all.
  case_bool_decide as E.
  - exists (Some i). unfold prefix_at, block. split; [done|].
    split; [lia|]. split; [done|lia].
  - rewrite drop_tail. destruct (IH (S i) Hw) as (r & -> & Hr); [lia|].
    exists r. split; [done|].
    assert (~ prefix_at b w i) as Hi by (unfold prefix_at, block; done).
    destruct r as [f|].
    + destruct Hr as (H1 & H2 & H3). split; [lia|]. split; [done|].
      intros j Hj. destruct (decide (j = i)) as [->|]; [done|]. apply H3. lia.
    + intros j Hj. destruct (decide (j = i)) as [->|]; [done|]. apply Hr. lia.
Qed.

(** * Properties *)

(** [str_diff] compares terminated strings of any length and always
    answers: zero exactly for equal strings, else the difference of the first
    bytes that differ, where the terminator counts as a byte; swapping the
    arguments negates the result.  What follows the terminators is never
    read. *)
Theorem str_diff_correct (a b j k : list Z) :
  nonul a -> nonul b ->
  exists r, str_diff (zstr a j) (zstr b k) = Some r /\
    str_diff (zstr b k) (zstr a j) = Some (- r) /\
    (r = 0 <-> a = b) /\
    (forall n x y, first_diff (a ++ [0]) (b ++ [0]) n x y -> r = x - y).
Proof.
  intros Ha Hb. destruct (zstr_cases a b j k Ha Hb) as [[-> H]|(n & x & y & H & E)].
  - exists 0. destruct (zstr_cases b b k j Hb Hb) as [[_ H']|(n & x & y & (_ & H1 & H2 & H3) & _)];
      [|congruence].
    split; [done|]. split; [done|]. split; [done|].
    intros n x y (_ & H1 & H2 & H3). congruence.
  - exists (x - y). pose proof H as (Ht & Hx & Hy & Hne).
    split; [done|]. split; [|split].
    + destruct (zstr_cases b a k j Hb Ha) as [[-> _]|(n' & x' & y' & (Gt & Gx & Gy & Gn) & E')];
        [congruence|].
      destruct (first_diff_inj (a ++ [0]) (b ++ [0]) n n' x y y' x' H)
        as (-> & -> & ->); [done|]. rewrite E'. f_equal. lia.
    + split; [lia|]. intros ->. congruence.
    + intros n' x' y' H'. by destruct (first_diff_inj _ _ _ _ _ _ _ _ H H') as (-> & -> & ->).
Qed.

Lemma str_diff_correct_witness :
  exists r, str_diff (zstr (lit "abc") [7]) (zstr (lit "abcd") []) = Some r /\
    str_diff (zstr (lit "abcd") []) (zstr (lit "abc") [7]) = Some (- r) /\
    r = -100.
Proof.
  destruct (str_diff_correct (lit "abc") (lit "abcd") [7] []) as (r & H1 & H2 & _ & H3);
    [repeat constructor; lia..|].
  exists r. split; [done|]. split; [done|].
  rewrite (H3 3%nat 0 100); [done|]. repeat split; done.
Defined.

Lemma splice_app (p l q r : list Z) :
  length q = length l -> splice (p ++ q ++ r) (length p) l = p ++ l ++ r.
Proof.
  intros Hl. unfold splice. rewrite take_app_length.
  rewrite app_assoc with (l := p) (m := q), drop_app_ge by
    (rewrite length_app; lia).
  rewrite length_app, Hl, Nat.sub_diag. done.
Qed.

(** [str_cat] on an object that holds the string [a] at offset [s] and [t]
    in another object: with room for the result and its terminator it leaves
    [a] followed by [t] and the terminator, changes nothing else and returns
    the new length; without room it writes outside the object. *)
Theorem str_cat_correct (p a q t j : list Z) :
  nonul a -> nonul t ->
  str_cat (p ++ zstr a q) (length p) (zstr t j) =
    if decide (length t <= length q)%nat
    then Some (p ++ a ++ t ++ 0 :: drop (length t) q, (length a + length t)%nat)
    else None.
Proof.
  intros Ha Ht. unfold str_cat. rewrite drop_app_length.
  rewrite str_len_spec by done. simpl.
  assert (length (p ++ zstr a q) = length p + length a + S (length q))%nat as Hm
    by (unfold zstr; rewrite !length_app; simpl; lia).
  case_decide.
  - rewrite str_copy_spec by (done || lia). simpl. do 2 f_equal.
    unfold zstr. rewrite app_assoc, <- length_app.
    rewrite <- (take_drop (length t) q) at 1.
    replace ((p ++ a) ++ 0 :: take (length t) q ++ drop (length t) q)
      with ((p ++ a) ++ (0 :: take (length t) q) ++ drop (length t) q) by done.
    rewrite splice_app.
    + by rewrite <- !app_assoc.
    + rewrite length_app. simpl. rewrite length_take. lia.
  - by rewrite str_copy_full by (done || lia).
Qed.

Lemma str_cat_correct_witness :
  str_cat ([9] ++ zstr (lit "ab") [1; 2; 3]) 1 (zstr (lit "cd") []) =
    Some ([9] ++ lit "ab" ++ lit "cd" ++ [0; 3], 4%nat).
Proof.
  etransitivity; [apply (str_cat_correct [9] (lit "ab") [1; 2; 3] (lit "cd") [])|];
    [repeat constructor; lia..|reflexivity].
Defined.

(** [str_findb] with a needle of [n >= 1] bytes always answers: the offset
    of the first occurrence, or the length of the string when there is
    none. *)
Theorem str_findb_correct (s j w v : list Z) :
  nonul s -> w <> [] ->
  exists r, str_findb (zstr s j) (w ++ v) (length w) = Some r /\
    (r <= length s)%nat /\
    (prefix_at s w r \/
     r = length s /\ forall i, ~ prefix_at s w i) /\
    forall i, (i < r)%nat -> ~ prefix_at s w i.
Proof.
  intros Hs Hw. unfold str_findb. rewrite str_len_spec by done. simpl.
  assert (0 < length w)%nat as Hl by (destruct w; simpl; [done|lia]).
  assert (forall i, prefix_at s w i -> i + length w <= length s)%nat as Hp.
  { intros i E. unfold prefix_at, block in E. apply (f_equal length) in E.
    rewrite length_take, length_drop in E. lia. }
  destruct (Nat.leb_spec (length w) (length s)) as [Hle|Hlt].
  2: { exists (length s). split; [done|]. split; [done|].
       split; [right; split; [done|]|]; intros i; [|intros _]; intros E%Hp; lia. }
  assert (forall i, (i + length w <= length s)%nat ->
    prefix_at (zstr s j) w i <-> prefix_at s w i) as Hz.
  { intros i Hi. unfold prefix_at, block, zstr.
    rewrite drop_app_le, take_app_le by (rewrite ?length_drop; lia). done. }
  assert (forall (b : list Z) i k, str_findb_loop b (w ++ v) (length w) i k =
    str_findb_loop b w (length w) i k) as Hv.
  { assert (forall x b j n, (j < n)%nat -> (n - j <= length x)%nat ->
      str_match (x ++ v) b j n = str_match x b j n) as Hm.
    { induction x as [|c x IH]; intros [|d b] j0 n Hj Hx; cbn [length] in Hx;
        try lia; [done|]. cbn [str_match app]. destruct (c =? d); [|done].
      cbn [negb]. destruct (Nat.eqb_spec (S j0) n); [done|]. apply IH; lia. }
    intros b i k. revert b i. induction k as [|k IH]; intros b i; simpl; [done|].
    rewrite Hm by lia. destruct (str_match w b 0 (length w)) as [[]|]; simpl; auto. }
  rewrite Hv.
  destruct (str_findb_loop_spec (zstr s j) w (length s - length w + 1) 0 Hw)
    as (r & Hr & Hspec).
  { unfold zstr. rewrite length_app. simpl. lia. }
  rewrite drop_0 in Hr. rewrite Hr. simpl.
  destruct r as [f|]; simpl.
  - destruct Hspec as (H1 & H2 & H3). exists f. split; [done|]. split; [lia|].
    split; [left; apply Hz; [lia|done]|].
    intros i Hi E. apply (H3 i); [lia|]. apply Hz; [lia|done].
  - exists (length s). split; [done|]. split; [done|].
    assert (forall i, ~ prefix_at s w i) as Hno.
    { intros i E. pose proof (Hp i E). apply (Hspec i); [lia|].
      apply Hz; [lia|done]. }
    split; [by right|]. auto.
Qed.

Lemma str_findb_correct_witness :
  exists r, str_findb (zstr (lit "aabab") [5]) (lit "ab" ++ [0]) 2 = Some r /\
    r = 1%nat.
Proof.
  destruct (str_findb_correct (lit "aabab") [5] (lit "ab") [0]) as (r & E & _);
    [repeat constructor; lia|done|].
  exists r. split; [exact E|]. vm_compute in E. by injection E.
Defined.

(** Searching for the empty string is not handled: [str_find(s, "")] finds
    no mismatch at the end of [s], never reaches its count of zero, and reads
    past the terminators of both strings, whatever [s] is. *)
Theorem str_find_empty_undefined (s : list Z) :
  nonul s -> str_find (zstr s []) (zstr [] []) = None.
Proof.
  intros Hs. unfold str_find, str_findb. simpl.
  rewrite str_len_spec by done. simpl. rewrite Nat.sub_0_r, Nat.add_1_r.
  assert (forall i, str_findb_loop (zstr s []) [0] 0 i (S (length s)) = None) as H.
  { unfold zstr. induction Hs as [|c s Hc _ IH]; intros i; [done|].
    cbn [length]. remember (S (length s)) as k.
    cbn [str_findb_loop app str_match]. zfalse (0 =? c). simpl. apply IH. }
  by rewrite H.
Qed.

Lemma str_find_empty_undefined_witness :
  str_find (zstr (lit "abc") []) (zstr [] []) = None.
Proof. apply (str_find_empty_undefined (lit "abc")). repeat constructor; lia. Defined.

(** The two families of case-insensitive comparison agree on equality:
    [case_diffs] of lib/case and [str_case_diff] of lib/str are zero for
    the same terminated strings, those that are equal after lowering their
    upper-case letters (they order bytes above 127 differently, the second
    reads signed characters). *)
Theorem case_equal_agree (a b j k : list Z) :
  nonul a -> nonul b ->
  exists r q, case_diffs (zstr a j) (zstr b k) = Some r /\
    str_case_diff (zstr a j) (zstr b k) = Some q /\
    (r = 0 <-> q = 0) /\
    (r = 0 <-> (case_fold <$> a) = (case_fold <$> b)).
Proof.
  unfold zstr. intros Ha. revert b. induction Ha as [|c a Hc _ IH]; intros b Hb.
  - destruct Hb as [|d b Hd _]; [by exists 0, 0|].
    assert (is_u8 d) as Hd' by (unfold is_u8; lia).
    pose proof (case_fold_zero d Hd') as Z1.
    pose proof (fold_char_zero d Hd') as Z2.
    exists (0 - case_fold d), (0 - fold_char d).
    cbn [case_diffs str_case_diff app].
    change (case_fold 0) with 0. change (fold_char 0) with 0.
    zfalse (0 =? case_fold d). zfalse (0 =? fold_char d). cbn [negb].
    split; [done|]. split; [done|]. split; [lia|]. split; [lia|done].
  - assert (is_u8 c) as Hc' by (unfold is_u8; lia).
    pose proof (case_fold_zero c Hc') as Z1.
    pose proof (fold_char_zero c Hc') as Z2.
    destruct Hb as [|d b Hd Hb]; cbn [case_diffs str_case_diff app].
    + change (case_fold 0) with 0. change (fold_char 0) with 0.
      zfalse (case_fold c =? 0). zfalse (fold_char c =? 0). simpl.
      eexists _, _. split; [done|]. split; [done|]. split; [lia|]. split; [lia|done].
    + assert (is_u8 d) as Hd' by (unfold is_u8; lia).
      pose proof (fold_char_eq c d Hc' Hd') as E.
      destruct (Z.eqb_spec (case_fold c) (case_fold d)) as [F|F].
      * rewrite E. cbn [negb]. zfalse (case_fold c =? 0). zfalse (fold_char c =? 0).
        destruct (IH b Hb) as (r & q & -> & -> & H1 & H2).
        exists r, q. split; [done|]. split; [done|]. split; [done|].
        rewrite H2. rewrite !fmap_cons, F.
        split; [by intros ->|by intros [=]].
      * rewrite E. cbn [negb]. eexists _, _. split; [done|]. split; [done|].
        split; [lia|]. split; [lia|]. intros [=]. done.
Qed.

Lemma case_equal_agree_witness :
  exists r q, case_diffs (zstr (lit "MiX") []) (zstr (lit "mIx") [1]) = Some r /\
    str_case_diff (zstr (lit "MiX") []) (zstr (lit "mIx") [1]) = Some q /\
    r = 0 /\ q = 0.
Proof.
  destruct (case_equal_agree (lit "MiX") (lit "mIx") [] [1])
    as (r & q & H1 & H2 & H3 & H4); [repeat constructor; lia..|].
  exists r, q. assert (r = 0) as E by (by apply H4).
  split; [done|]. split; [done|]. split; [done|]. by apply H3.
Defined.

(** ** The tokenizer *)

Lemma str_chr_spec (l junk : list Z) (c : Z) :
  nonul l -> str_chr (zstr l junk) c = Some (span (fun x => negb (x =? c)) l).
Proof.
  unfold zstr. induction 1 as [|x l Hx _ IH]; [done|]. simpl.
  zfalse (x =? 0). simpl. destruct (x =? c); simpl; [done|]. by rewrite IH.
Qed.

Lemma strchr_hit_spec (dl junk : list Z) (c : Z) :
  nonul dl -> 1 <= c < 256 ->
  strchr_hit (zstr dl junk) c = Some (bool_decide (c ∈ dl)).
Proof.
  intros Hd Hc. unfold strchr_hit. rewrite str_chr_spec by done. simpl.
  unfold zstr, load. set (P := fun x : Z => negb (x =? c)).
  destruct (decide (span P dl < length dl)%nat) as [Hlt|Hge].
  - destruct (span_stop P dl Hlt) as (x & Hx & E). subst P. simpl in E.
    rewrite lookup_app_l by done. rewrite Hx. simpl.
    assert (x = c) as -> by lia. rewrite Z.eqb_refl, bool_decide_eq_true_2; [done|].
    by apply list_elem_of_lookup_2 in Hx.
  - pose proof (span_le P dl). rewrite lookup_app_r by lia.
    replace (span P dl - length dl)%nat with O by lia.
    change ((0 :: junk) !! 0%nat) with (Some 0). cbn [mbind option_bind].
    zfalse (0 =? c). rewrite bool_decide_eq_false_2; [done|].
    intros [i Hi]%list_elem_of_lookup_1. pose proof Hi as Hi'.
    apply lookup_lt_Some in Hi.
    destruct (span_before P dl i) as (x & Hx & E); [lia|]. subst P. simpl in E.
    assert (x = c) by congruence. lia.
Qed.

(** Skipping stops at the first byte of the other kind or the terminator. *)
Lemma tok_skip_spec (dl jd : list Z) (want : bool) (t q : list Z) (c : Z) :
  nonul dl -> nonul t -> Forall (fun x => bool_decide (x ∈ dl) = want) t ->
  0 <= c < 256 -> (c = 0 \/ bool_decide (c ∈ dl) = negb want) ->
  forall (p : list Z) (fuel : nat), (length t < fuel)%nat ->
  tok_skip (p ++ t ++ c :: q) (zstr dl jd) want (length p) fuel =
    Some (length p + length t)%nat.
Proof.
  intros Hd Ht Hw Hc Hstop. induction t as [|x t IH]; intros p fuel Hf.
  - destruct fuel; [simpl in Hf; lia|]. simpl.
    unfold load. rewrite list_lookup_middle by done. simpl.
    destruct (Z.eqb_spec c 0) as [|Hne]; [f_equal; lia|].
    destruct Hstop as [|Hs]; [done|].
    rewrite strchr_hit_spec by (done || lia). simpl. rewrite Hs.
    destruct want; simpl; f_equal; lia.
  - apply nonul_cons in Ht as [Hx Ht]. inversion Hw; subst.
    destruct fuel; simpl in Hf; [lia|]. simpl.
    unfold load. rewrite list_lookup_middle by done. simpl. zfalse (x =? 0).
    rewrite strchr_hit_spec by (done || lia). simpl. rewrite eqb_reflx.
    rewrite cons_middle, app_assoc.
    replace (S (length p)) with (length (p ++ [x])) by
      (rewrite length_app; simpl; lia).
    rewrite IH by (done || lia). f_equal. rewrite length_app. simpl. lia.
Qed.

(** A continuing call of [str_tok] whose saved position is followed by
    delimiters [ds], a token [t] and then a delimiter or the terminator [c]:
    it returns the token's place, overwrites only the delimiter after it with
    the terminator, and saves the place behind it (the terminator's own place
    at the end); when only delimiters are left it returns [NULL] and changes
    nothing. *)
Theorem str_tok_correct (dl jd p ds t q : list Z) (c : Z) :
  nonul dl -> nonul (ds ++ t) -> 0 <= c < 256 -> (c = 0 \/ c ∈ dl) ->
  Forall (fun x => x ∈ dl) ds -> Forall (fun x => x ∉ dl) t ->
  (t = [] -> c = 0) ->
  str_tok (p ++ ds ++ t ++ c :: q) None (zstr dl jd) (length p) =
    let b := (length p + length ds)%nat in
    let e := (b + length t)%nat in
    if decide (t = []) then Some (p ++ ds ++ 0 :: q, length p, None)
    else if c =? 0 then Some (p ++ ds ++ t ++ 0 :: q, e, Some b)
    else Some (p ++ ds ++ t ++ 0 :: q, S e, Some b).
Proof.
  intros Hd Hn Hc Hcd Hds Ht Hte. apply nonul_app in Hn as [Hn1 Hn2].
  cbv zeta. unfold str_tok.
  set (m := p ++ ds ++ t ++ c :: q).
  assert (length m = length p + length ds + length t + S (length q))%nat as Hm
    by (unfold m; rewrite !length_app; simpl; lia).
  assert (Forall (fun x => bool_decide (x ∈ dl) = true) ds) as Hds'.
  { eapply Forall_impl; [|exact Hds]. intros. by apply bool_decide_eq_true_2. }
  assert (Forall (fun x => bool_decide (x ∈ dl) = false) t) as Ht'.
  { eapply Forall_impl; [|exact Ht]. intros. by apply bool_decide_eq_false_2. }
  destruct t as [|x t].
  - assert (c = 0) as -> by auto. clear Hte Hc Hcd. unfold m.
    rewrite (tok_skip_spec dl jd true ds q 0) by
      (done || lia || (by left) || (rewrite <- Hm; unfold m; lia)
       || (rewrite !length_app; simpl; lia)).
    simpl. unfold load. rewrite app_assoc, list_lookup_middle by
      (rewrite length_app; lia). simpl. by rewrite <- app_assoc.
  - apply nonul_cons in Hn2 as Hx. destruct Hx as [Hx _].
    assert (tok_skip m (zstr dl jd) true (length p) (S (length m)) =
      Some (length p + length ds)%nat) as ->.
    { unfold m. apply (tok_skip_spec dl jd true ds _ x); try done; [lia| |].
      - right. by inversion Ht'.
      - rewrite !length_app. simpl. lia. }
    assert (m = (p ++ ds) ++ (x :: t) ++ c :: q) as E by
      (unfold m; by rewrite app_assoc).
    assert (load m (length p + length ds) = Some x) as Hl1.
    { unfold load. rewrite E. simpl. apply list_lookup_middle.
      by rewrite length_app. }
    assert (tok_skip m (zstr dl jd) false (length p + length ds) (S (length m))
      = Some (length p + length ds + length (x :: t))%nat) as Hsk.
    { rewrite E, <- length_app. apply tok_skip_spec; try done.
      - destruct Hcd; [by left|right]. by apply bool_decide_eq_true_2.
      - rewrite !length_app. simpl. lia. }
    assert (m = ((p ++ ds) ++ x :: t) ++ c :: q) as E2 by
      (rewrite E; by rewrite <- !app_assoc).
    assert (length ((p ++ ds) ++ x :: t) =
      length p + length ds + length (x :: t))%nat as Hle by
      (rewrite !length_app; done).
    assert (load m (length p + length ds + length (x :: t)) = Some c) as Hl2.
    { unfold load. rewrite E2. by apply list_lookup_middle. }
    cbn [mbind option_bind]. rewrite Hl1. cbn [mbind option_bind].
    zfalse (x =? 0). rewrite Hsk. cbn [mbind option_bind]. rewrite Hl2.
    cbn [mbind option_bind]. rewrite decide_False by done.
    destruct (Z.eqb_spec c 0) as [->|Hc0]; cbn [negb].
    + by rewrite E, <- app_assoc.
    + rewrite store_Some by (simpl in Hm |- *; lia). cbn [mbind option_bind].
      rewrite E2, insert_app_r_alt by lia.
      rewrite Hle, Nat.sub_diag. simpl. by rewrite <- !app_assoc.
Qed.

Lemma str_tok_correct_witness :
  str_tok (lit "x," ++ lit "; " ++ lit "ab" ++ 59 :: lit "c") None
    (zstr (lit "; ") []) 2 =
  Some (lit "x," ++ lit "; " ++ lit "ab" ++ 0 :: lit "c", 7%nat, Some 4%nat).
Proof.
  etransitivity;
    [apply (str_tok_correct (lit "; ") [] (lit "x,") (lit "; ") (lit "ab") (lit "c") 59)|];
    try done; try lia; try (right; set_solver);
    repeat constructor; try lia; set_solver.
Defined.
