(* ===== verification/Pack.v ===== *)
(** Integers as bytes: [lib/uint16/], [lib/uint32/] and [lib/uint64/] (fixed
    width, both byte orders), the ASN.1 DER lengths and tags of [lib/fmt/] and
    [lib/scan/], and the protobuf varints of [lib/scan/].  The class [Packing]
    is what the fixed-width pairs promise to their clients (the time stamps of
    Tai.v, the protobuf fields here). *)
From S2P Require Import Prelude.

(** * Fixed width *)

Definition uint16_pack (m : list Z) (out : nat) (x : Z) : option (list Z) :=
  m ← store m out (u8 x);
  store m (out + 1) (u8 (Z.shiftr x 8)).

Definition uint16_pack_big (m : list Z) (out : nat) (x : Z)
  : option (list Z) :=
  m ← store m out (u8 (Z.shiftr x 8));
  store m (out + 1) (u8 x).

Definition uint16_read (s : list Z) : option Z :=
  b1 ← load s 1; b0 ← load s 0;
  Some (u16 (Z.lor (Z.shiftl b1 8) b0)).

Definition uint16_read_big (s : list Z) : option Z :=
  b0 ← load s 0; b1 ← load s 1;
  Some (u16 (Z.shiftl b0 8 + b1)).

Definition uint16_unpack (s : list Z) : option Z :=
  b1 ← load s 1; b0 ← load s 0;
  Some (u16 (Z.shiftl b1 8 + b0)).

Definition uint16_unpack_big (s : list Z) : option Z :=
  b0 ← load s 0; b1 ← load s 1;
  Some (u16 (Z.shiftl b0 8 + b1)).

Definition uint32_pack (m : list Z) (out : nat) (x : Z) : option (list Z) :=
  m ← store m out (u8 x);
  let x := Z.shiftr x 8 in
  m ← store m (out + 1) (u8 x);
  let x := Z.shiftr x 8 in
  m ← store m (out + 2) (u8 x);
  let x := Z.shiftr x 8 in
  store m (out + 3) (u8 x).

Definition uint32_pack_big (m : list Z) (out : nat) (x : Z)
  : option (list Z) :=
  m ← store m (out + 3) (u8 x);
  let x := Z.shiftr x 8 in
  m ← store m (out + 2) (u8 x);
  let x := Z.shiftr x 8 in
  m ← store m (out + 1) (u8 x);
  let x := Z.shiftr x 8 in
  store m out (u8 x).

Definition uint32_read (s : list Z) : option Z :=
  b3 ← load s 3; b2 ← load s 2; b1 ← load s 1; b0 ← load s 0;
  Some (Z.lor (Z.lor (Z.lor (Z.shiftl b3 24) (Z.shiftl b2 16))
                (Z.shiftl b1 8)) b0).

Definition uint32_read_big (s : list Z) : option Z :=
  b0 ← load s 0; b1 ← load s 1; b2 ← load s 2; b3 ← load s 3;
  Some (Z.lor (Z.lor (Z.lor (Z.shiftl b0 24) (Z.shiftl b1 16))
                (Z.shiftl b2 8)) b3).

Definition uint32_unpack (s : list Z) : option Z :=
  b3 ← load s 3; b2 ← load s 2; b1 ← load s 1; b0 ← load s 0;
  Some (Z.lor (Z.lor (Z.lor (Z.shiftl b3 24) (Z.shiftl b2 16))
                (Z.shiftl b1 8)) b0).

Definition uint32_unpack_big (s : list Z) : option Z :=
  b0 ← load s 0; b1 ← load s 1; b2 ← load s 2; b3 ← load s 3;
  Some (Z.lor (Z.lor (Z.lor (Z.shiftl b0 24) (Z.shiftl b1 16))
                (Z.shiftl b2 8)) b3).

Definition uint64_pack (m : list Z) (out : nat) (x : Z) : option (list Z) :=
  m ← uint32_pack m out (Z.land x 4294967295);
  uint32_pack m (out + 4) (u32 (Z.shiftr x 32)).

Definition uint64_pack_big (m : list Z) (out : nat) (x : Z)
  : option (list Z) :=
  m ← uint32_pack_big m out (u32 (Z.shiftr x 32));
  uint32_pack_big m (out + 4) (Z.land x 4294967295).

Definition uint64_read (s : list Z) : option Z :=
  lo ← uint32_read s; hi ← uint32_read (drop 4 s);
  Some (Z.lor lo (u64 (Z.shiftl hi 32))).

Definition uint64_read_big (s : list Z) : option Z :=
  hi ← uint32_read_big s; lo ← uint32_read_big (drop 4 s);
  Some (Z.lor (u64 (Z.shiftl hi 32)) lo).

Definition uint64_unpack (s : list Z) : option Z := uint64_read s.
Definition uint64_unpack_big (s : list Z) : option Z := uint64_read_big s.

(** * ASN.1 DER *)

(** The number of bytes of a long length: the first [i >= 1] with
    [l >> (i*8)] zero, at most 8. *)
Fixpoint der_needed (l : Z) (i k : nat) : nat :=
  match k with
  | O => i
  | S k' =>
      if Z.shiftr l (Z.of_nat i * 8) =? 0 then i else der_needed l (S i) k'
  end.

(** [while(j)]: the bytes of [l] from the highest down. *)
Fixpoint der_bytes (l : Z) (j : nat) : list Z :=
  match j with
  | O => []
  | S j' => u8 (Z.land (Z.shiftr l (Z.of_nat j' * 8)) 255) :: der_bytes l j'
  end.

Definition fmt_asn1derlength (dest : bool) (l : Z) : out :=
  if l <? 128 then (if dest then [u8 (Z.land l 127)] else [], 1%nat)
  else
    let i := der_needed l 1 7 in
    (if dest then u8 (128 + Z.of_nat i) :: der_bytes l i else [], S i).

(** [for(t = l, n = 1; t > 0x7f; t >>= 7) ++n]; ten bytes hold 70 bits. *)
Fixpoint tag_count (t : Z) (n fuel : nat) : nat :=
  match fuel with
  | O => n
  | S fuel' =>
      if 127 <? t then tag_count (Z.shiftr t 7) (S n) fuel' else n
  end.

(** The stores go from [dest[n - 1]] down to [dest[0]]; [i] counts them. *)
Fixpoint tag_bytes (l : Z) (i k : nat) (acc : list Z) : list Z :=
  match k with
  | O => acc
  | S k' =>
      tag_bytes (Z.shiftr l 7) (S i) k'
        (u8 (Z.lor (Z.shiftl (c_bool (negb (i =? 0)%nat)) 7)
                   (s8 (Z.land l 127))) :: acc)
  end.

Definition fmt_asn1dertag (dest : bool) (l : Z) : out :=
  let n := tag_count l 1 9 in
  (if dest then tag_bytes l 0 n [] else [], n).

(** [for(i = 2; i <= c; ++i) l = l * 256 + src[i]] *)
Fixpoint derlength_loop (src : list Z) (l : Z) (i k : nat) : option Z :=
  match k with
  | O => Some l
  | S k' =>
      b ← load src i;
      derlength_loop src (u64 (l * 256 + b)) (S i) k'
  end.

(** [addr] is the address of [src].  The result is the number of bytes and
    the value stored, [None] when nothing is stored. *)
Definition scan_asn1derlengthvalue (addr : Z) (src : list Z) (len : Z)
  : option (nat * option Z) :=
  c ← load src 0;
  let c := u32 (s8 c) in
  if (len =? 0) || (u64 (- addr) <=? len) then Some (O, None) else
  if Z.land c 128 =? 0 then Some (1%nat, Some c) else
  let c := Z.land c 127 in
  if c =? 0 then Some (O, None) else
  l ← load src 1;
  if l =? 0 then Some (O, None) else
  if 8 <? c then Some (O, None) else
  if len <? c + 1 then Some (O, None) else
  l ← derlength_loop src l 2 (Z.to_nat c - 1);
  if l <? 127 then Some (O, None) else
  Some (S (Z.to_nat c), Some l).

(** [junk] is what the uninitialised local [l] holds when the inner scan
    fails. *)
Definition scan_asn1derlength (junk addr : Z) (src : list Z) (len : Z)
  : option (nat * option Z) :=
  '(i, r) ← scan_asn1derlengthvalue addr src len;
  let l := default junk r in
  if u64 (len - Z.of_nat i) <? l then Some (O, None) else Some (i, Some l).

Fixpoint dertag_loop (src : list Z) (n : nat) (l : Z) (k : nat)
  : option (nat * option Z) :=
  match k with
  | O => Some (O, None)
  | S k' =>
      if negb (Z.shiftr l 57 =? 0) then Some (O, None) else
      b ← load src n;
      let l := Z.lor (u64 (Z.shiftl l 7)) (Z.land (s8 b) 127) in
      if Z.land (s8 b) 128 =? 0 then Some (S n, Some l)
      else dertag_loop src (S n) l k'
  end.

Definition scan_asn1dertag (src : list Z) (len : nat)
  : option (nat * option Z) :=
  if (len =? 0)%nat then Some (O, None) else
  c ← load src 0;
  if c =? 128 then Some (O, None) else dertag_loop src 0 0 len.

(** * Protobuf *)

(** [(in[i] & 0x7f) << (i * 7)] is computed in [int]: a shift of 32 bits or
    more, or a result above [INT_MAX], is undefined. *)
Definition varint_shift (b : Z) (i : nat) : option Z :=
  if (7 * Z.of_nat i <? 32) then
    chk32 (Z.shiftl (Z.land (s8 b) 127) (Z.of_nat i * 7))
  else None.

Fixpoint varint_loop (s : list Z) (i : nat) (l : Z) (k : nat)
  : option (nat * option Z) :=
  match k with
  | O => Some (O, None)
  | S k' =>
      b ← load s i;
      t ← varint_shift b i;
      let l := u64 (l + t) in
      if Z.land (s8 b) 128 =? 0 then Some (S i, Some l)
      else varint_loop s (S i) l k'
  end.

Definition scan_varint (s : list Z) (len : nat) : option (nat * option Z) :=
  if (len =? 0)%nat then Some (O, None) else varint_loop s 0 0 len.

(** The field number and the type. *)
Definition scan_pb_tag (s : list Z) (len : nat)
  : option (nat * option (Z * Z)) :=
  '(n, r) ← scan_varint s len;
  Some (n, (l ← r; Some (Z.shiftr l 3, Z.land l 7))).

Definition scan_pb_type0_sint (s : list Z) (len : nat)
  : option (nat * option Z) :=
  '(n, r) ← scan_varint s len;
  Some (n, (m ← r;
            Some (s64 (Z.lxor (u64 (- Z.land m 1)) (Z.shiftr m 1))))).

Definition scan_pb_type1_fixed64 (s : list Z) (len : nat)
  : option (nat * option Z) :=
  if (len <? 8)%nat then Some (O, None)
  else d ← uint64_unpack s; Some (8%nat, Some d).

Definition scan_pb_type5_fixed32 (s : list Z) (len : nat)
  : option (nat * option Z) :=
  if (len <? 4)%nat then Some (O, None)
  else d ← uint32_unpack s; Some (4%nat, Some d).

(** * The interface *)

(** A packing of the integers below [range] in [width] bytes: it stores
    [image x] and nothing else, is undefined when the object is too short,
    and reading gives the integer back, whatever follows. *)
Class Packing (width : nat) (range : Z) (image : Z -> list Z)
    (pack : list Z -> nat -> Z -> option (list Z))
    (read : list Z -> option Z) : Prop := {
  image_length : forall x, length (image x) = width;
  image_bytes : forall x, bytes (image x);
  pack_stores : forall m o x, 0 <= x < range -> (o + width <= length m)%nat ->
    pack m o x = Some (splice m o (image x));
  pack_full : forall m o x, (length m < o + width)%nat -> pack m o x = None;
  read_image : forall x r, 0 <= x < range -> read (image x ++ r) = Some x;
  read_short : forall s, (length s < width)%nat -> read s = None;
}.

(** The digits of [x] to the base 256, the lowest first. *)
Fixpoint le_bytes (w : nat) (x : Z) : list Z :=
  match w with
  | O => []
  | S w' => u8 x :: le_bytes w' (Z.shiftr x 8)
  end.

Definition be_bytes (w : nat) (x : Z) : list Z := rev (le_bytes w x).

(** The halves of a 64-bit integer. *)
Definition half_lo (x : Z) : Z := Z.land x 4294967295.
Definition half_hi (x : Z) : Z := u32 (Z.shiftr x 32).

(** * Lemmas *)

Lemma le_bytes_length (w : nat) (x : Z) : length (le_bytes w x) = w.
Proof. revert x. induction w; simpl; auto. Qed.

Lemma le_bytes_bytes (w : nat) (x : Z) : bytes (le_bytes w x).
Proof.
  revert x. induction w; intros x; simpl; constructor; [apply u8_range|apply IHw].
Qed.

Lemma le_bytes_app (w v : nat) (x : Z) :
  le_bytes (w + v) x = le_bytes w x ++ le_bytes v (Z.shiftr x (8 * Z.of_nat w)).
Proof.
  revert x. induction w as [|w IH]; intros x; simpl.
  - by rewrite Z.shiftr_0_r.
  - rewrite IH, Z.shiftr_shiftr by lia. do 3 f_equal. f_equal. lia.
Qed.

Lemma le_bytes_mod (w : nat) (x : Z) :
  le_bytes w (x mod 256 ^ Z.of_nat w) = le_bytes w x.
Proof.
  revert x. induction w as [|w IH]; intros x; [done|].
  cbn [le_bytes]. rewrite !Z.shiftr_div_pow2 by lia. change (2 ^ 8) with 256.
  replace (Z.of_nat (S w)) with (1 + Z.of_nat w) by lia.
  rewrite Z.pow_add_r, Z.pow_1_r by lia.
  assert (0 < 256 ^ Z.of_nat w) by lia. f_equal.
  - unfold u8. rewrite Z.rem_mul_r by lia. zmod.
  - rewrite <- (IH (x / 256)). f_equal. rewrite Z.rem_mul_r by lia.
    rewrite (Z.mul_comm 256), Z.add_comm, Z.div_add_l by lia.
    rewrite (Z.div_small (x mod 256)); zmod.
Qed.

Lemma be_bytes_length (w : nat) (x : Z) : length (be_bytes w x) = w.
Proof. unfold be_bytes. by rewrite length_rev, le_bytes_length. Qed.

Lemma be_bytes_bytes (w : nat) (x : Z) : bytes (be_bytes w x).
Proof. apply Forall_rev, le_bytes_bytes. Qed.

Lemma be_bytes_app (w v : nat) (x : Z) :
  be_bytes (w + v) x = be_bytes v (Z.shiftr x (8 * Z.of_nat w)) ++ be_bytes w x.
Proof. unfold be_bytes. by rewrite le_bytes_app, rev_app_distr. Qed.

Lemma splice_split (m l1 l2 : list Z) (o : nat) :
  (o + length l1 + length l2 <= length m)%nat ->
  splice (splice m o l1) (o + length l1) l2 = splice m o (l1 ++ l2).
Proof.
  intros H. apply list_eq_nth.
  { rewrite !splice_length; rewrite ?splice_length, ?length_app; lia. }
  intros i _.
  rewrite !splice_lookup by (rewrite ?splice_length, ?length_app; lia).
  rewrite length_app. repeat case_decide; try lia; try done.
  - rewrite lookup_app_r by lia. f_equal. lia.
  - by rewrite lookup_app_l by lia.
Qed.

(** The four stores of the 32-bit packings in either order. *)
Lemma splice4 (m : list Z) (o : nat) (a b c d : Z) :
  (o + 4 <= length m)%nat ->
  <[(o + 3)%nat := d]> (<[(o + 2)%nat := c]>
    (<[(o + 1)%nat := b]> (<[o := a]> m))) = splice m o [a; b; c; d].
Proof.
  intros. rewrite !splice_cons by (rewrite ?length_insert; lia).
  rewrite splice_nil. by rewrite !Nat.add_succ_r, Nat.add_0_r.
Qed.

Lemma splice4_rev (m : list Z) (o : nat) (a b c d : Z) :
  (o + 4 <= length m)%nat ->
  <[o := a]> (<[(o + 1)%nat := b]> (<[(o + 2)%nat := c]>
    (<[(o + 3)%nat := d]> m))) = splice m o [a; b; c; d].
Proof.
  intros. rewrite <- splice4 by done.
  rewrite (list_insert_insert_ne _ o (o + 1)) by lia.
  rewrite (list_insert_insert_ne _ o (o + 2)) by lia.
  rewrite (list_insert_insert_ne _ o (o + 3)) by lia.
  rewrite (list_insert_insert_ne _ (o + 1) (o + 2)) by lia.
  rewrite (list_insert_insert_ne _ (o + 1) (o + 3)) by lia.
  by rewrite (list_insert_insert_ne _ (o + 2) (o + 3)) by lia.
Qed.

Lemma lor4 (b3 b2 b1 b0 : Z) :
  is_u8 b0 -> is_u8 b1 -> is_u8 b2 -> is_u8 b3 ->
  Z.lor (Z.lor (Z.lor (Z.shiftl b3 24) (Z.shiftl b2 16)) (Z.shiftl b1 8)) b0
  = ((b3 * 256 + b2) * 256 + b1) * 256 + b0.
Proof.
  unfold is_u8. intros H0 H1 H2 H3. rewrite !Z.shiftl_mul_pow2 by lia.
  rewrite (lor_add b3 _ 24) by lia.
  replace (b3 * 2 ^ 24 + b2 * 2 ^ 16) with ((b3 * 256 + b2) * 2 ^ 16) by lia.
  rewrite lor_add by lia.
  replace ((b3 * 256 + b2) * 2 ^ 16 + b1 * 2 ^ 8)
    with (((b3 * 256 + b2) * 256 + b1) * 2 ^ 8) by lia.
  rewrite lor_add by lia. lia.
Qed.

Lemma lor2 (b1 b0 : Z) :
  is_u8 b0 -> is_u8 b1 -> Z.lor (Z.shiftl b1 8) b0 = b1 * 256 + b0.
Proof.
  unfold is_u8. intros. rewrite Z.shiftl_mul_pow2 by lia.
  by rewrite lor_add by lia.
Qed.

Lemma word_bytes4 (x : Z) :
  is_u32 x ->
  ((u8 (Z.shiftr (Z.shiftr (Z.shiftr x 8) 8) 8) * 256 +
    u8 (Z.shiftr (Z.shiftr x 8) 8)) * 256 + u8 (Z.shiftr x 8)) * 256 + u8 x = x.
Proof.
  intros H. rewrite !Z.shiftr_shiftr by lia. rewrite !Z.shiftr_div_pow2 by lia.
  change (2 ^ 8) with 256. change (2 ^ (8 + 8)) with 65536.
  change (2 ^ (8 + (8 + 8))) with 16777216. zmod.
Qed.

Lemma word_bytes2 (x : Z) : is_u16 x -> u8 (Z.shiftr x 8) * 256 + u8 x = x.
Proof. intros H. rewrite Z.shiftr_div_pow2 by lia. zmod. Qed.

(** A chain of stores fails when one of them is outside the object. *)
Lemma store_bind_None {A} (m : list Z) (i : nat) (v : Z) (k : list Z -> option A) :
  (forall m', length m' = length m -> k m' = None) ->
  (m' ← store m i v; k m') = None.
Proof.
  intros H. destruct (store m i v) as [m'|] eqn:E; [|done]. simpl.
  apply H. by apply store_length in E.
Qed.

Ltac read_short4 :=
  intros s Hs; destruct s as [|? [|? [|? [|? ?]]]]; simpl in Hs; try lia;
  done.

#[export] Instance uint32_le :
  Packing 4 4294967296 (le_bytes 4) uint32_pack uint32_read.
Proof.
  split.
  - apply le_bytes_length.
  - apply le_bytes_bytes.
  - unfold uint32_pack. intros m o x Hx Ho.
    repeat (rewrite store_Some by (rewrite ?length_insert; lia);
            cbn [mbind option_bind]).
    f_equal. by apply splice4.
  - unfold uint32_pack. intros m o x Ho.
    apply store_bind_None. intros m1 H1. apply store_bind_None. intros m2 H2.
    apply store_bind_None. intros m3 H3. apply store_None. lia.
  - intros x r Hx. unfold uint32_read. cbn [le_bytes app].
    change 3%nat with (S 2). load_all. f_equal.
    rewrite lor4 by apply u8_range. by apply word_bytes4.
  - read_short4.
Qed.

#[export] Instance uint32_be :
  Packing 4 4294967296 (be_bytes 4) uint32_pack_big uint32_read_big.
Proof.
  split.
  - apply be_bytes_length.
  - apply be_bytes_bytes.
  - unfold uint32_pack_big. intros m o x Hx Ho.
    repeat (rewrite store_Some by (rewrite ?length_insert; lia);
            cbn [mbind option_bind]).
    f_equal. by apply splice4_rev.
  - unfold uint32_pack_big. intros m o x Ho.
    rewrite store_None by lia. done.
  - intros x r Hx. unfold uint32_read_big, be_bytes.
    cbn [le_bytes rev app]. load_all. f_equal.
    rewrite lor4 by apply u8_range. by apply word_bytes4.
  - read_short4.
Qed.

Ltac read_short2 :=
  intros s Hs; destruct s as [|? [|? ?]]; simpl in Hs; try lia; done.

#[export] Instance uint16_le :
  Packing 2 65536 (le_bytes 2) uint16_pack uint16_read.
Proof.
  split.
  - apply le_bytes_length.
  - apply le_bytes_bytes.
  - unfold uint16_pack. intros m o x Hx Ho.
    repeat (rewrite store_Some by (rewrite ?length_insert; lia);
            cbn [mbind option_bind]).
    f_equal. cbn [le_bytes].
    rewrite !splice_cons, splice_nil by (rewrite ?length_insert; lia).
    by rewrite Nat.add_1_r.
  - unfold uint16_pack. intros m o x Ho.
    apply store_bind_None. intros m1 H1. apply store_None. lia.
  - intros x r Hx. unfold uint16_read. cbn [le_bytes app]. load_all. f_equal.
    rewrite lor2 by apply u8_range. rewrite word_bytes2 by done. zmod.
  - read_short2.
Qed.

#[export] Instance uint16_be :
  Packing 2 65536 (be_bytes 2) uint16_pack_big uint16_read_big.
Proof.
  split.
  - apply be_bytes_length.
  - apply be_bytes_bytes.
  - unfold uint16_pack_big. intros m o x Hx Ho.
    repeat (rewrite store_Some by (rewrite ?length_insert; lia);
            cbn [mbind option_bind]).
    f_equal. unfold be_bytes. cbn [le_bytes rev app].
    rewrite !splice_cons, splice_nil by (rewrite ?length_insert; lia).
    by rewrite Nat.add_1_r.
  - unfold uint16_pack_big. intros m o x Ho.
    apply store_bind_None. intros m1 H1. apply store_None. lia.
  - intros x r Hx. unfold uint16_read_big, be_bytes.
    cbn [le_bytes rev app]. load_all. f_equal.
    rewrite Z.shiftl_mul_pow2 by lia. change (2 ^ 8) with 256.
    rewrite word_bytes2 by done. zmod.
  - read_short2.
Qed.

(** The 64-bit packings are two 32-bit ones; their proof is against the
    interface. *)
Section halves.
Context {image : Z -> list Z} {pack : list Z -> nat -> Z -> option (list Z)}
  {read : list Z -> option Z} {P : Packing 4 4294967296 image pack read}.

Lemma half_lo_range (x : Z) : 0 <= half_lo x < 4294967296.
Proof. unfold half_lo. rewrite (land_low _ 32) by done. zmod. Qed.

Lemma half_hi_range (x : Z) : 0 <= half_hi x < 4294967296.
Proof. apply u32_range. Qed.

Lemma halves_le (x : Z) :
  is_u64 x -> Z.lor (half_lo x) (u64 (Z.shiftl (half_hi x) 32)) = x.
Proof.
  intros H. unfold half_lo, half_hi.
  rewrite (land_low _ 32), Z.shiftr_div_pow2, Z.shiftl_mul_pow2 by done.
  replace (u64 (u32 (x / 2 ^ 32) * 2 ^ 32)) with (u32 (x / 2 ^ 32) * 2 ^ 32)
    by (change (2 ^ 32) with 4294967296; zmod).
  rewrite Z.lor_comm, lor_add by (change (2 ^ 32) with 4294967296; zmod).
  change (2 ^ 32) with 4294967296. zmod.
Qed.

Lemma pack_two (m : list Z) (o : nat) (a b : Z) :
  0 <= a < 4294967296 -> 0 <= b < 4294967296 -> (o + 8 <= length m)%nat ->
  (m' ← pack m o a; pack m' (o + 4) b) = Some (splice m o (image a ++ image b)).
Proof.
  intros Ha Hb Ho. pose proof (image_length a) as La.
  pose proof (image_length b) as Lb.
  rewrite pack_stores by (done || lia). cbn [mbind option_bind].
  rewrite pack_stores by (done || rewrite splice_length; lia). f_equal.
  rewrite <- La. apply splice_split. lia.
Qed.

Lemma pack_two_full (m : list Z) (o : nat) (a b : Z) :
  0 <= a < 4294967296 -> (length m < o + 8)%nat ->
  (m' ← pack m o a; pack m' (o + 4) b) = None.
Proof.
  intros Ha Ho. pose proof (image_length a) as La.
  destruct (decide (o + 4 <= length m)%nat).
  - rewrite pack_stores by (done || lia). cbn [mbind option_bind].
    apply pack_full. rewrite splice_length by lia. lia.
  - by rewrite pack_full by lia.
Qed.

Lemma read_two (a b : Z) (r : list Z) :
  0 <= a < 4294967296 -> 0 <= b < 4294967296 ->
  read (image a ++ image b ++ r) = Some a /\
  read (drop 4 (image a ++ image b ++ r)) = Some b.
Proof.
  intros Ha Hb. split; [by apply read_image|].
  rewrite <- (image_length a). rewrite drop_app_length. by apply read_image.
Qed.
End halves.

#[export] Instance uint64_le : Packing 8 18446744073709551616
  (fun x => le_bytes 4 (half_lo x) ++ le_bytes 4 (half_hi x))
  uint64_pack uint64_read.
Proof.
  split.
  - done.
  - intros. apply Forall_app; split; apply le_bytes_bytes.
  - intros. apply pack_two; [apply half_lo_range|apply half_hi_range|done].
  - intros. by apply pack_two_full; [apply half_lo_range|].
  - intros x r Hx. rewrite <- app_assoc. unfold uint64_read.
    destruct (read_two (P := uint32_le) (half_lo x) (half_hi x) r) as [-> ->];
      [apply half_lo_range|apply half_hi_range|].
    simpl. f_equal. by apply halves_le.
  - intros s Hs. unfold uint64_read. destruct (uint32_read s); [|done]. simpl.
    by rewrite read_short by (rewrite length_drop; lia).
Qed.

#[export] Instance uint64_be : Packing 8 18446744073709551616
  (fun x => be_bytes 4 (half_hi x) ++ be_bytes 4 (half_lo x))
  uint64_pack_big uint64_read_big.
Proof.
  split.
  - done.
  - intros. apply Forall_app; split; apply be_bytes_bytes.
  - intros. apply pack_two; [apply half_hi_range|apply half_lo_range|done].
  - intros. by apply pack_two_full; [apply half_hi_range|].
  - intros x r Hx. rewrite <- app_assoc. unfold uint64_read_big.
    destruct (read_two (P := uint32_be) (half_hi x) (half_lo x) r) as [-> ->];
      [apply half_hi_range|apply half_lo_range|].
    simpl. f_equal. rewrite Z.lor_comm. by apply halves_le.
  - intros s Hs. unfold uint64_read_big.
    destruct (uint32_read_big s); [|done]. simpl.
    by rewrite read_short by (rewrite length_drop; lia).
Qed.

(** * ASN.1 lemmas *)

Lemma shiftr_zero (l : Z) (k : nat) :
  0 <= l -> (Z.shiftr l (Z.of_nat k * 8) =? 0) = (l <? 256 ^ Z.of_nat k).
Proof.
  intros Hl. rewrite Z.shiftr_div_pow2 by lia.
  rewrite Z.mul_comm, Z.pow_mul_r by lia. change (2 ^ 8) with 256.
  assert (0 < 256 ^ Z.of_nat k) by lia.
  destruct (Z.ltb_spec l (256 ^ Z.of_nat k)).
  - rewrite Z.div_small by lia. done.
  - apply Z.eqb_neq. pose proof (Z.div_str_pos l (256 ^ Z.of_nat k)). lia.
Qed.

(** The bytes of a DER length, read back, are the value. *)
Lemma derlength_loop_bytes (v : Z) (r : list Z) (k : nat) : forall pre : list Z,
  is_u64 v ->
  derlength_loop (pre ++ der_bytes v k ++ r)
    (Z.shiftr v (Z.of_nat k * 8)) (length pre) k = Some v.
Proof.
  induction k as [|k IH]; intros pre Hv; cbn [derlength_loop der_bytes].
  - by rewrite Z.shiftr_0_r.
  - unfold load at 1. cbn [app]. rewrite list_lookup_middle by done.
    cbn [mbind option_bind].
    set (b := u8 _). specialize (IH (pre ++ [b]) Hv).
    rewrite <- app_assoc, length_app, Nat.add_1_r in IH. cbn [app] in IH.
    rewrite <- IH. f_equal. unfold b. rewrite (land_low _ 8) by done.
    replace (Z.of_nat (S k) * 8) with (Z.of_nat k * 8 + 8) by lia.
    rewrite <- Z.shiftr_shiftr by lia.
    rewrite (Z.shiftr_div_pow2 _ 8) by lia.
    assert (is_u64 (Z.shiftr v (Z.of_nat k * 8))) as Hs.
    { unfold is_u64 in *. rewrite Z.shiftr_div_pow2 by lia.
      assert (0 < 2 ^ (Z.of_nat k * 8)) by lia.
      split; [apply Z.div_pos; lia|].
      apply Z.div_lt_upper_bound; nia. }
    set (y := Z.shiftr v (Z.of_nat k * 8)) in *. change (2 ^ 8) with 256. zmod.
Qed.

Lemma der_needed_spec (l : Z) (k i : nat) :
  0 <= l < 256 ^ Z.of_nat (i + k) ->
  (i <= der_needed l i k <= i + k)%nat /\
  l < 256 ^ Z.of_nat (der_needed l i k) /\
  ((i < der_needed l i k)%nat ->
   256 ^ Z.of_nat (der_needed l i k - 1) <= l).
Proof.
  revert i. induction k as [|k IH]; intros i Hl; simpl.
  - rewrite Nat.add_0_r in *. split; [lia|]. split; [lia|lia].
  - rewrite shiftr_zero by lia. destruct (Z.ltb_spec l (256 ^ Z.of_nat i)).
    + split; [lia|]. split; [done|lia].
    + destruct (IH (S i)) as (H1 & H2 & H3);
        [by rewrite Nat.add_succ_comm|].
      split; [lia|]. split; [done|]. intros _.
      destruct (decide (S i < der_needed l (S i) k)%nat); [by apply H3|].
      by replace (der_needed l (S i) k - 1)%nat with i by lia.
Qed.

Lemma der_bytes_length (l : Z) (j : nat) : length (der_bytes l j) = j.
Proof. induction j; simpl; auto. Qed.

(** The lengths the reader sees. *)
Lemma scan_short_length (addr c : Z) (r : list Z) (len : Z) :
  0 <= c < 128 -> 0 < len < u64 (- addr) ->
  scan_asn1derlengthvalue addr (c :: r) len = Some (1%nat, Some c).
Proof.
  intros Hc Hl. unfold scan_asn1derlengthvalue. rewrite load_cons_0.
  cbn [mbind option_bind].
  replace ((len =? 0) || (u64 (- addr) <=? len)) with false by lia.
  assert (is_u8 c) as Hc8 by (unfold is_u8; lia).
  replace (u32 (s8 c)) with c by zmod.
  replace (Z.land c 128 =? 0) with true; [done|].
  assert ((128 <=? c) || (Z.land c 128 =? 0) = true) as H.
  { by_bytes c. }
  lia.
Qed.

Lemma der_first (v : Z) (i : nat) :
  256 ^ Z.of_nat i <= v < 256 ^ Z.of_nat (S i) ->
  u8 (Z.land (Z.shiftr v (Z.of_nat i * 8)) 255) = Z.shiftr v (Z.of_nat i * 8) /\
  1 <= Z.shiftr v (Z.of_nat i * 8) < 256.
Proof.
  rewrite (land_low _ 8), Z.shiftr_div_pow2 by (done || lia).
  rewrite (Z.mul_comm (Z.of_nat i)), Z.pow_mul_r by lia.
  change (2 ^ 8) with 256. rewrite Nat2Z.inj_succ, Z.pow_succ_r by lia.
  intros H. assert (0 < 256 ^ Z.of_nat i) by lia.
  assert (1 <= v / 256 ^ Z.of_nat i < 256).
  { split; [apply Z.div_le_lower_bound; lia|apply Z.div_lt_upper_bound; lia]. }
  split; [zmod|done].
Qed.

Lemma scan_long_length (addr v : Z) (i : nat) (r : list Z) (len : Z) :
  (1 <= i <= 8)%nat -> 127 <= v -> 256 ^ Z.of_nat (i - 1) <= v < 256 ^ Z.of_nat i ->
  Z.of_nat i < len < u64 (- addr) ->
  scan_asn1derlengthvalue addr (u8 (128 + Z.of_nat i) :: der_bytes v i ++ r) len
    = Some (S i, Some v).
Proof.
  intros Hi Hv Hb Hl. unfold scan_asn1derlengthvalue. rewrite load_cons_0.
  cbn [mbind option_bind].
  replace ((len =? 0) || (u64 (- addr) <=? len)) with false by lia.
  set (c := u8 (128 + Z.of_nat i)).
  assert (c = 128 + Z.of_nat i) as Hc by (unfold c; clear -Hi; zmod).
  assert (Z.land (u32 (s8 c)) 128 = 128 /\ Z.land (u32 (s8 c)) 127 = Z.of_nat i)
    as [-> ->].
  { rewrite Hc. do 9 (destruct i as [|i]; [by vm_compute|]). lia. }
  change (128 =? 0) with false. cbn [negb].
  replace (Z.of_nat i =? 0) with false by lia.
  destruct i as [|i]; [lia|]. cbn [der_bytes app].
  replace (S i - 1)%nat with i in Hb by lia.
  destruct (der_first v i Hb) as [E1 E2]. rewrite E1.
  rewrite load_cons_S, load_cons_0. cbn [mbind option_bind].
  zfalse (Z.shiftr v (Z.of_nat i * 8) =? 0).
  replace (8 <? Z.of_nat (S i)) with false by lia.
  replace (len <? Z.of_nat (S i) + 1) with false by lia.
  replace (Z.to_nat (Z.of_nat (S i)) - 1)%nat with i by lia.
  assert (is_u64 v) as Hv64.
  { assert (256 ^ Z.of_nat (S i) <= 256 ^ 8) by (apply Z.pow_le_mono_r; lia).
    unfold is_u64. lia. }
  pose proof (derlength_loop_bytes v r i [c; Z.shiftr v (Z.of_nat i * 8)] Hv64)
    as E. cbn [app length] in E. rewrite E.
  cbn [mbind option_bind]. zfalse (v <? 127). by rewrite Nat2Z.id.
Qed.

(** Reading is injective: the bytes read are those of the value. *)
Lemma derlength_loop_inv (src : list Z) (k : nat) : forall (acc v : Z) (i : nat),
  bytes src -> 0 <= acc -> (acc + 1) * 256 ^ Z.of_nat k <= 2 ^ 64 ->
  derlength_loop src acc i k = Some v ->
  v / 256 ^ Z.of_nat k = acc /\ block src i k = der_bytes v k.
Proof.
  induction k as [|k IH]; intros acc v i Hb Ha Hr; cbn [derlength_loop].
  - intros [= <-]. by rewrite Z.div_1_r.
  - rewrite Nat2Z.inj_succ, Z.pow_succ_r in Hr |- * by lia.
    unfold load. destruct (src !! i) as [b|] eqn:E; [|done].
    cbn [mbind option_bind]. assert (is_u8 b) as Hb8 by (by eapply bytes_lookup).
    assert (0 < 256 ^ Z.of_nat k) as Hp by lia. unfold is_u8 in Hb8.
    rewrite u64_id by (unfold is_u64; nia). intros H.
    destruct (IH (acc * 256 + b) v (S i)) as [H1 H2]; try done; try nia.
    split.
    + rewrite (Z.mul_comm 256), <- Z.div_div, H1 by lia.
      rewrite Z.add_comm, Z.div_add by lia. rewrite Z.div_small; lia.
    + rewrite (block_S _ _ _ b) by done. cbn [der_bytes]. rewrite H2. f_equal.
      rewrite (land_low _ 8), Z.shiftr_div_pow2 by (done || lia).
      rewrite (Z.mul_comm (Z.of_nat k)), Z.pow_mul_r by lia.
      change (2 ^ 8) with 256. rewrite H1. zmod.
Qed.

Lemma der_needed_unique (l : Z) (i : nat) :
  (1 <= i <= 8)%nat -> 256 ^ Z.of_nat (i - 1) <= l < 256 ^ Z.of_nat i ->
  der_needed l 1 7 = i.
Proof.
  intros Hi Hl. assert (256 ^ Z.of_nat i <= 256 ^ 8) by
    (apply Z.pow_le_mono_r; lia).
  assert (0 < 256 ^ Z.of_nat (i - 1)) by lia.
  destruct (der_needed_spec l 7 1) as (H1 & H2 & H3);
    [change (Z.of_nat (1 + 7)) with 8; lia|].
  set (d := der_needed l 1 7) in *.
  destruct (Nat.lt_trichotomy d i) as [Hlt|[|Hlt]]; [|done|].
  - assert (256 ^ Z.of_nat d <= 256 ^ Z.of_nat (i - 1)) by
      (apply Z.pow_le_mono_r; lia). lia.
  - assert (256 ^ Z.of_nat i <= 256 ^ Z.of_nat (d - 1)) by
      (apply Z.pow_le_mono_r; lia).
    assert (256 ^ Z.of_nat (d - 1) <= l) by (apply H3; lia). lia.
Qed.

(** The first byte, read as a signed [char] into an [unsigned int]. *)
Lemma len_byte_bits (c : Z) :
  is_u8 c ->
  (Z.land (u32 (s8 c)) 128 =? 0) = (c <? 128) /\
  Z.land (u32 (s8 c)) 127 = c mod 128.
Proof.
  intros Hc. assert (Bool.eqb (Z.land (u32 (s8 c)) 128 =? 0) (c <? 128) &&
    (Z.land (u32 (s8 c)) 127 =? c mod 128) = true) as F by by_bytes c.
  apply andb_prop in F as [F1 F2]. split; [by apply eqb_prop|lia].
Qed.

(** What a long length whose loop gave [l] looks like. *)
Lemma der_long_take (l0 l : Z) (src : list Z) (k : nat) :
  bytes (129 + Z.of_nat k :: l0 :: src) -> l0 <> 0 -> (k < 8)%nat ->
  derlength_loop (129 + Z.of_nat k :: l0 :: src) l0 2 k = Some l ->
  256 ^ Z.of_nat k <= l < 256 ^ Z.of_nat (S k) /\
  take (S (S k)) (129 + Z.of_nat k :: l0 :: src) =
    u8 (128 + Z.of_nat (S k)) :: der_bytes l (S k).
Proof.
  intros Hb Hn Hk E.
  assert (is_u8 l0) as Hl0 by (inversion Hb as [|? ? ? Hs]; by inversion Hs).
  unfold is_u8 in Hl0.
  assert (256 ^ Z.of_nat k <= 256 ^ 7) as Hp by (apply Z.pow_le_mono_r; lia).
  assert (0 < 256 ^ Z.of_nat k) by lia.
  destruct (derlength_loop_inv _ k l0 l 2 Hb (proj1 Hl0)) as [G1 G2];
    [change (2 ^ 64) with (256 * 256 ^ 7); nia|exact E|].
  assert (256 ^ Z.of_nat k <= l < 256 ^ Z.of_nat (S k)) as Hr.
  { rewrite Nat2Z.inj_succ, Z.pow_succ_r by lia.
    pose proof (Z.div_mod l (256 ^ Z.of_nat k)).
    pose proof (Z.mod_pos_bound l (256 ^ Z.of_nat k)). nia. }
  split; [done|]. simpl take. f_equal; [clear -Hk; zmod|]. cbn [der_bytes].
  destruct (der_first l k Hr) as [-> _].
  f_equal; [|by apply G2]. rewrite Z.shiftr_div_pow2 by lia.
  rewrite (Z.mul_comm (Z.of_nat k)), Z.pow_mul_r by lia. by symmetry.
Qed.

(** The byte of a DER tag that holds the bits from [7 * j] on. *)
Definition tag_byte (l : Z) (j : nat) : Z :=
  c_bool (negb (j =? 0)%nat) * 128 + Z.shiftr l (7 * Z.of_nat j) mod 128.

Lemma tag_byte_bits (l : Z) (j : nat) :
  is_u8 (tag_byte l j) /\
  Z.land (s8 (tag_byte l j)) 127 = Z.shiftr l (7 * Z.of_nat j) mod 128 /\
  (Z.land (s8 (tag_byte l j)) 128 =? 0) = (j =? 0)%nat.
Proof.
  unfold tag_byte. set (d := Z.shiftr l (7 * Z.of_nat j) mod 128).
  assert (is_u8 d /\ d < 128) as [Hd Hd2] by (unfold d; zmod).
  assert ((128 <=? d) || ((Z.land (s8 d) 127 =? d) && (Z.land (s8 d) 128 =? 0) &&
    (Z.land (s8 (128 + d)) 127 =? d) && (Z.land (s8 (128 + d)) 128 =? 128)) = true)
    as F by by_bytes d.
  unfold is_u8 in *. destruct (Nat.eqb_spec j 0); cbn [negb c_bool].
  - change (0 * 128 + d) with d. repeat split; lia.
  - change (1 * 128 + d) with (128 + d). repeat split; lia.
Qed.

Lemma tag_bytes_spec (l : Z) (k : nat) : forall (i : nat) (acc : list Z),
  tag_bytes (Z.shiftr l (7 * Z.of_nat i)) i k acc =
    map (tag_byte l) (rev (seq i k)) ++ acc.
Proof.
  induction k as [|k IH]; intros i acc; [done|]. cbn [tag_bytes seq rev].
  rewrite Z.shiftr_shiftr by lia.
  replace (7 * Z.of_nat i + 7) with (7 * Z.of_nat (S i)) by lia.
  rewrite IH, map_app, <- app_assoc. f_equal. cbn [map app]. f_equal.
  unfold tag_byte. rewrite (land_low _ 7) by done. change (2 ^ 7) with 128.
  set (d := _ mod 128). assert (0 <= d < 128) by (unfold d; zmod).
  rewrite s8_id by lia. rewrite lor_shift_add by (change (2 ^ 7) with 128; lia).
  rewrite Z.shiftl_mul_pow2 by lia. change (2 ^ 7) with 128. clearbody d.
  destruct (Nat.eqb_spec i 0); cbn [negb c_bool]; zmod.
Qed.

Lemma dertag_step (l : Z) (n : nat) :
  is_u64 l ->
  Z.shiftr (Z.shiftr l (7 * Z.of_nat (S n))) 57 = 0 /\
  Z.lor (u64 (Z.shiftl (Z.shiftr l (7 * Z.of_nat (S n))) 7))
    (Z.shiftr l (7 * Z.of_nat n) mod 128) = Z.shiftr l (7 * Z.of_nat n).
Proof.
  intros Hl. replace (7 * Z.of_nat (S n)) with (7 * Z.of_nat n + 7) by lia.
  rewrite <- (Z.shiftr_shiftr l (7 * Z.of_nat n)) by lia.
  assert (is_u64 (Z.shiftr l (7 * Z.of_nat n))) as Hy.
  { unfold is_u64 in *. rewrite Z.shiftr_div_pow2 by lia.
    assert (0 < 2 ^ (7 * Z.of_nat n)) by lia.
    split; [apply Z.div_pos; lia|]. apply Z.div_lt_upper_bound; nia. }
  set (y := Z.shiftr l (7 * Z.of_nat n)) in *. clearbody y. unfold is_u64 in Hy.
  rewrite Z.shiftl_mul_pow2, !Z.shiftr_div_pow2 by lia.
  change (2 ^ 7) with 128. change (2 ^ 57) with 144115188075855872.
  rewrite u64_id by zmod. split; [zmod|].
  replace (y / 128 * 128) with (y / 128 * 2 ^ 7) by done.
  rewrite lor_add by (change (2 ^ 7) with 128; zmod).
  change (2 ^ 7) with 128. zmod.
Qed.

Lemma dertag_loop_hit (l : Z) (n j : nat) (src : list Z) (k : nat) :
  is_u64 l -> src !! n = Some (tag_byte l j) ->
  dertag_loop src n (Z.shiftr l (7 * Z.of_nat (S j))) (S k) =
    if (j =? 0)%nat then Some (S n, Some l)
    else dertag_loop src (S n) (Z.shiftr l (7 * Z.of_nat j)) k.
Proof.
  intros Hl Hs. cbn [dertag_loop].
  destruct (tag_byte_bits l j) as (_ & Hd & Hz).
  destruct (dertag_step l j Hl) as [E1 E2].
  rewrite E1. change (0 =? 0) with true. cbn [negb].
  unfold load. rewrite Hs. cbn [mbind option_bind]. rewrite Hz, Hd, E2.
  destruct (Nat.eqb_spec j 0) as [->|]; [|done].
  change (7 * Z.of_nat 0) with 0. by rewrite Z.shiftr_0_r.
Qed.

Lemma dertag_loop_spec (l : Z) (r : list Z) (k : nat) :
  forall (pre : list Z) (e : nat), is_u64 l ->
  dertag_loop (pre ++ map (tag_byte l) (rev (seq 0 (S k))) ++ r) (length pre)
    (Z.shiftr l (7 * Z.of_nat (S k))) (S (k + e)) =
  Some ((length pre + S k)%nat, Some l).
Proof.
  induction k as [|k IH]; intros pre e Hl;
    rewrite seq_S, rev_app_distr; cbn [rev app map]; rewrite Nat.add_0_l.
  - rewrite (dertag_loop_hit _ _ 0) by (done || by apply list_lookup_middle).
    by rewrite Nat.add_1_r.
  - rewrite (dertag_loop_hit _ _ (S k)) by (done || by apply list_lookup_middle).
    specialize (IH (pre ++ [tag_byte l (S k)]) e Hl).
    rewrite <- app_assoc, length_app, Nat.add_1_r in IH. cbn [app] in IH.
    rewrite <- Nat.add_succ_comm. exact IH.
Qed.

Lemma shiftr7_div (l : Z) (x : nat) : Z.shiftr l (7 * Z.of_nat x) = l / 128 ^ Z.of_nat x.
Proof. rewrite Z.shiftr_div_pow2, Z.pow_mul_r by lia. done. Qed.

Lemma tag_count_spec (l : Z) (k : nat) : forall (n : nat),
  (1 <= n)%nat -> 0 <= l < 128 ^ Z.of_nat (n + k) ->
  let c := tag_count (Z.shiftr l (7 * Z.of_nat (n - 1))) n k in
  (n <= c <= n + k)%nat /\ l < 128 ^ Z.of_nat c /\
  ((n < c)%nat -> 128 ^ Z.of_nat (c - 1) <= l).
Proof.
  induction k as [|k IH]; intros n Hn Hl; cbn [tag_count].
  - rewrite Nat.add_0_r in *. repeat split; lia.
  - rewrite Z.shiftr_shiftr by lia.
    replace (7 * Z.of_nat (n - 1) + 7) with (7 * Z.of_nat (S n - 1)) by lia.
    assert (128 ^ Z.of_nat n = 128 ^ Z.of_nat (n - 1) * 128) as Hp.
    { replace (Z.of_nat n) with (Z.of_nat (n - 1) + 1) at 1 by lia.
      by rewrite Z.pow_add_r by lia. }
    assert (0 < 128 ^ Z.of_nat (n - 1)) by lia.
    rewrite (shiftr7_div l (n - 1)).
    pose proof (Z.div_mod l (128 ^ Z.of_nat (n - 1))).
    pose proof (Z.mod_pos_bound l (128 ^ Z.of_nat (n - 1))).
    destruct (Z.ltb_spec 127 (l / 128 ^ Z.of_nat (n - 1))).
    + destruct (IH (S n)) as (H4 & H5 & H6); [lia|by rewrite Nat.add_succ_comm|].
      split; [lia|]. split; [done|]. intros _. cbv zeta in *.
      set (c := tag_count _ (S n) k) in *.
      destruct (decide (S n < c)%nat); [by apply H6|].
      replace (c - 1)%nat with n by lia. nia.
    + split; [lia|]. split; [nia|lia].
Qed.

(** * Varint lemmas *)

(** The protobuf encoding of [v] in [k] bytes. *)
Fixpoint varint_bytes (v : Z) (k : nat) : list Z :=
  match k with
  | O => []
  | S O => [v mod 128]
  | S k' => (128 + v mod 128) :: varint_bytes (v / 128) k'
  end.

Lemma varint_bits (b : Z) :
  is_u8 b ->
  Z.land (s8 b) 127 = b mod 128 /\ (Z.land (s8 b) 128 =? 0) = (b <? 128).
Proof.
  intros Hb. assert ((Z.land (s8 b) 127 =? b mod 128) &&
    Bool.eqb (Z.land (s8 b) 128 =? 0) (b <? 128) = true) as F by by_bytes b.
  apply andb_prop in F as [F1 F2]. split; [lia|by apply eqb_prop].
Qed.

Lemma varint_shift_small (b : Z) (i : nat) :
  is_u8 b -> (i <= 3)%nat ->
  varint_shift b i = Some (b mod 128 * 128 ^ Z.of_nat i).
Proof.
  intros Hb Hi. unfold varint_shift. destruct (varint_bits b Hb) as [-> _].
  replace (7 * Z.of_nat i <? 32) with true by lia.
  rewrite Z.shiftl_mul_pow2 by lia.
  rewrite (Z.mul_comm (Z.of_nat i)), Z.pow_mul_r by lia. change (2 ^ 7) with 128.
  assert (128 ^ Z.of_nat i <= 128 ^ 3) by (apply Z.pow_le_mono_r; lia).
  pose proof (Z.mod_pos_bound b 128). unfold chk32.
  replace (_ && _) with true; [done|]. nia.
Qed.

Lemma varint_loop_hit (s : list Z) (i : nat) (acc b : Z) (k : nat) :
  is_u8 b -> s !! i = Some b -> (i <= 3)%nat ->
  0 <= acc < 128 ^ Z.of_nat i ->
  varint_loop s i acc (S k) =
    if b <? 128 then Some (S i, Some (acc + b mod 128 * 128 ^ Z.of_nat i))
    else varint_loop s (S i) (acc + b mod 128 * 128 ^ Z.of_nat i) k.
Proof.
  intros Hb Hs Hi Ha. cbn [varint_loop]. unfold load. rewrite Hs.
  cbn [mbind option_bind]. rewrite varint_shift_small by done.
  cbn [mbind option_bind]. destruct (varint_bits b Hb) as [_ ->].
  assert (128 ^ Z.of_nat i <= 128 ^ 3) by (apply Z.pow_le_mono_r; lia).
  pose proof (Z.mod_pos_bound b 128).
  rewrite u64_id by (unfold is_u64; nia). done.
Qed.

Lemma varint_loop_spec (r : list Z) (e k : nat) : forall (pre : list Z) (v acc : Z),
  (length pre + S k <= 4)%nat -> 0 <= v < 128 ^ Z.of_nat (S k) ->
  0 <= acc < 128 ^ Z.of_nat (length pre) ->
  varint_loop (pre ++ varint_bytes v (S k) ++ r) (length pre) acc (S (k + e)) =
    Some ((length pre + S k)%nat, Some (acc + v * 128 ^ Z.of_nat (length pre))).
Proof.
  induction k as [|k IH]; intros pre v acc Hp Hv Ha.
  - change (128 ^ Z.of_nat 1) with 128 in Hv. cbn [varint_bytes app].
    rewrite (varint_loop_hit _ _ _ (v mod 128)); try done; try lia.
    2: zmod. 2: by apply list_lookup_middle.
    pose proof (Z.mod_pos_bound v 128). ztrue (v mod 128 <? 128).
    rewrite Nat.add_1_r. rewrite !(Z.mod_small v 128) by lia. done.
  - rewrite Nat2Z.inj_succ, Z.pow_succ_r in Hv by lia.
    change (varint_bytes v (S (S k)))
      with ((128 + v mod 128) :: varint_bytes (v / 128) (S k)).
    rewrite <- app_comm_cons.
    pose proof (Z.mod_pos_bound v 128).
    rewrite (varint_loop_hit _ _ _ (128 + v mod 128)); try done; try lia.
    2: zmod. 2: by apply list_lookup_middle.
    zfalse (128 + v mod 128 <? 128).
    replace ((128 + v mod 128) mod 128) with (v mod 128) by zmod.
    assert (0 < 128 ^ Z.of_nat (length pre)) as Hpos by lia.
    specialize (IH (pre ++ [128 + v mod 128]) (v / 128)
      (acc + v mod 128 * 128 ^ Z.of_nat (length pre))).
    rewrite <- app_assoc, length_app, Nat.add_1_r in IH. cbn [app] in IH.
    rewrite (Nat2Z.inj_succ (length pre)), (Z.pow_succ_r 128 (Z.of_nat (length pre))) in IH by lia.
    change (S k + e)%nat with (S (k + e)). rewrite IH; [|lia| |nia].
    + f_equal. f_equal; [lia|]. f_equal.
      pose proof (Z.div_mod v 128). nia.
    + split; [apply Z.div_pos; lia|apply Z.div_lt_upper_bound; lia].
Qed.

(** * Properties *)

(** Every 64-bit length survives [fmt_asn1derlength] followed by
    [scan_asn1derlengthvalue], whatever bytes follow it, as long as the buffer
    does not wrap around the address space; the number of bytes written, read
    and announced for a [NULL] destination is the same, between 1 and 9. *)
Theorem asn1_length_roundtrip (addr v : Z) (r : list Z) (len : Z) :
  is_u64 v ->
  Z.of_nat (snd (fmt_asn1derlength true v)) <= len < u64 (- addr) ->
  let '(l, n) := fmt_asn1derlength true v in
  length l = n /\ fmt_asn1derlength false v = ([], n) /\ (1 <= n <= 9)%nat /\
  scan_asn1derlengthvalue addr (l ++ r) len = Some (n, Some v).
Proof.
  intros Hv Hl. unfold fmt_asn1derlength in *. unfold is_u64 in Hv.
  destruct (Z.ltb_spec v 128); cbn [fst snd] in Hl; cbn [app length].
  - split; [done|]. split; [done|]. split; [lia|].
    replace (u8 (Z.land v 127)) with v
      by (rewrite (land_low _ 7) by done; change (2 ^ 7) with 128; zmod).
    by apply scan_short_length; lia.
  - destruct (der_needed_spec v 7 1) as (H1 & H2 & H3).
    { change (256 ^ Z.of_nat (1 + 7)) with 18446744073709551616. lia. }
    set (i := der_needed v 1 7) in *.
    rewrite der_bytes_length. split; [done|]. split; [done|]. split; [lia|].
    apply scan_long_length; try lia. split; [|done].
    destruct (decide (1 < i)%nat); [by apply H3|].
    replace (i - 1)%nat with O by lia. change (256 ^ Z.of_nat 0) with 1. lia.
Qed.

Lemma asn1_length_roundtrip_witness :
  fmt_asn1derlength true 291 = ([130; 1; 35], 3%nat) /\
  scan_asn1derlengthvalue 4096 ([130; 1; 35] ++ [9; 9]) 5 = Some (3%nat, Some 291).
Proof.
  split; [reflexivity|].
  apply (asn1_length_roundtrip 4096 291 [9; 9] 5); vm_compute; split; congruence.
Defined.

(** The DER length reader accepts only what [fmt_asn1derlength] writes,
    with one exception: its test [l < 0x7f] lets the two-byte form of the
    value 127 through, which the comment next to it (and DER) excludes. *)
Theorem asn1_length_canonical (addr : Z) (src : list Z) (len : Z) (n : nat) (v : Z) :
  bytes src -> scan_asn1derlengthvalue addr src len = Some (n, Some v) ->
  take n src = fst (fmt_asn1derlength true v) \/
  (v = 127 /\ take n src = [129; 127]).
Proof.
  unfold scan_asn1derlengthvalue. intros Hb.
  destruct src as [|c src]; [done|]. rewrite load_cons_0. cbn [mbind option_bind].
  inversion Hb as [|? ? Hc Hs]; subst. case_match; [done|].
  destruct (len_byte_bits c Hc) as [-> ->]. unfold is_u8 in Hc.
  destruct (Z.ltb_spec c 128).
  { replace (u32 (s8 c)) with c by zmod.
    intros [= <- <-]. left. unfold fmt_asn1derlength. ztrue (c <? 128). simpl.
    rewrite take_0. f_equal. rewrite (land_low _ 7) by done.
    change (2 ^ 7) with 128. zmod. }
  replace (c mod 128) with (c - 128) by zmod.
  destruct (Z.eqb_spec (c - 128) 0); [done|].
  destruct src as [|l0 src]; [done|]. rewrite load_cons_S, load_cons_0.
  cbn [mbind option_bind]. destruct (Z.eqb_spec l0 0); [done|].
  destruct (Z.ltb_spec 8 (c - 128)); [done|].
  destruct (Z.ltb_spec len (c - 128 + 1)); [done|].
  destruct (Z.to_nat (c - 128)) as [|k] eqn:Ek; [lia|].
  replace (S k - 1)%nat with k by lia.
  assert (c = 129 + Z.of_nat k) as -> by lia.
  destruct (derlength_loop _ l0 2 k) as [l|] eqn:E; [|done].
  cbn [mbind option_bind]. destruct (Z.ltb_spec l 127); [done|]. intros [= <- <-].
  apply der_long_take in E as [Hr ->]; [|done|done|lia].
  destruct (decide (l = 127)) as [->|].
  - right. split; [done|]. destruct k as [|k]; [done|].
    assert (256 ^ 1 <= 256 ^ Z.of_nat (S k)) by (apply Z.pow_le_mono_r; lia). lia.
  - left. unfold fmt_asn1derlength. zfalse (l <? 128). cbn [fst].
    rewrite (der_needed_unique l (S k)); [reflexivity|lia|].
    replace (S k - 1)%nat with k by lia. exact Hr.
Qed.

Lemma asn1_length_canonical_witness :
  take 2 [129; 127; 5] = fst (fmt_asn1derlength true 127) \/
  (127 = 127 /\ take 2 [129; 127; 5] = [129; 127]).
Proof.
  apply (asn1_length_canonical 4096 [129; 127; 5] 3 2 127);
    [repeat constructor; lia|reflexivity].
Defined.

(** Every 64-bit tag survives [fmt_asn1dertag] followed by
    [scan_asn1dertag], whatever bytes follow it: at most ten bytes, none of
    them stopping the reader early (not the leading 0x80 it rejects, nor its
    overflow test). *)
Theorem asn1_tag_roundtrip (v : Z) (r : list Z) (len : nat) :
  is_u64 v -> (snd (fmt_asn1dertag true v) <= len)%nat ->
  let '(l, n) := fmt_asn1dertag true v in
  length l = n /\ fmt_asn1dertag false v = ([], n) /\ (1 <= n <= 10)%nat /\
  scan_asn1dertag (l ++ r) len = Some (n, Some v).
Proof.
  intros Hv Hl. unfold fmt_asn1dertag in *. cbn [fst snd] in Hl.
  destruct (tag_count_spec v 9 1) as (H1 & H2 & H3); [lia| |].
  { change (128 ^ Z.of_nat (1 + 9)) with 1180591620717411303424.
    unfold is_u64 in Hv. lia. }
  change (7 * Z.of_nat (1 - 1)) with 0 in *. rewrite Z.shiftr_0_r in *.
  set (n := tag_count v 1 9) in *.
  pose proof (tag_bytes_spec v n 0 []) as E.
  change (7 * Z.of_nat 0) with 0 in E. rewrite Z.shiftr_0_r, app_nil_r in E.
  rewrite E. rewrite length_map, length_rev, length_seq.
  split; [done|]. split; [done|]. split; [lia|].
  unfold scan_asn1dertag. replace (len =? 0)%nat with false by lia.
  destruct n as [|k]; [lia|].
  assert (Z.shiftr v (7 * Z.of_nat (S k)) = 0) as H0.
  { rewrite shiftr7_div. apply Z.div_small. unfold is_u64 in Hv. lia. }
  pose proof (dertag_loop_spec v r k [] (len - S k) Hv) as L.
  replace (S (k + (len - S k)))%nat with len in L by lia.
  rewrite H0 in L. cbn [app length Nat.add] in L.
  rewrite seq_S, rev_app_distr in *. cbn [rev app map Nat.add] in *.
  rewrite load_cons_0. cbn [mbind option_bind].
  assert (tag_byte v k <> 128) as Hne.
  { unfold tag_byte. rewrite shiftr7_div. destruct k as [|k]; cbn [Nat.eqb negb c_bool].
    - pose proof (Z.mod_pos_bound (v / 128 ^ Z.of_nat 0) 128). lia.
    - assert (128 ^ Z.of_nat (S k) <= v) as Hge by
        (replace (S k) with (S (S k) - 1)%nat by lia; apply H3; lia).
      assert (1 <= v / 128 ^ Z.of_nat (S k) < 128).
      { rewrite (Nat2Z.inj_succ (S k)), Z.pow_succ_r in H2 by lia.
        split; [apply Z.div_le_lower_bound|apply Z.div_lt_upper_bound]; lia. }
      rewrite Z.mod_small by lia. lia. }
  zfalse (tag_byte v k =? 128). exact L.
Qed.

Lemma asn1_tag_roundtrip_witness :
  fmt_asn1dertag true 194 = ([129; 66], 2%nat) /\
  scan_asn1dertag ([129; 66] ++ [7]) 3 = Some (2%nat, Some 194).
Proof.
  split; [reflexivity|].
  apply (asn1_tag_roundtrip 194 [7] 3); [split; reflexivity || discriminate|vm_compute; lia].
Defined.

(** [scan_varint] reads exactly the values of at most four bytes, below
    2^28 (whatever follows them); as its shift is done in [int], five bytes
    whose value is 2^31 or more, and any encoding of six bytes or more, are
    undefined behaviour although the result has 64 bits. *)
Theorem scan_varint_range (v : Z) (k : nat) (s r : list Z) (len : nat) :
  ((1 <= k <= 4)%nat -> 0 <= v < 128 ^ Z.of_nat k -> (k <= len)%nat ->
   scan_varint (varint_bytes v k ++ r) len = Some (k, Some v)) /\
  (length s = 4%nat -> Forall (fun c => 128 <= c < 256) s -> (5 <= len)%nat ->
   forall b, is_u8 b -> 8 <= b mod 128 -> scan_varint (s ++ b :: r) len = None) /\
  (length s = 4%nat -> Forall (fun c => 128 <= c < 256) s -> (6 <= len)%nat ->
   forall b c, 128 <= b < 256 -> scan_varint (s ++ b :: c :: r) len = None).
Proof.
  assert (forall l e, length s = 4%nat -> Forall (fun c => 128 <= c < 256) s ->
    exists acc, varint_loop (s ++ l) 0 0 (4 + e) = varint_loop (s ++ l) 4 acc e) as H4.
  { intros l e Hs Hf. destruct s as [|a [|b [|c [|d [|? ?]]]]]; try done.
    repeat match goal with H : Forall _ (_ :: _) |- _ => inversion H; clear H; subst end.
    cbn [app Nat.add].
    assert (forall x, 128 <= x < 256 -> is_u8 x /\ 0 <= x mod 128 < 128 /\ (x <? 128) = false)
      as Hx by (intros; repeat split; zmod).
    destruct (Hx a) as (Ha & Ha' & Ea); [done|]. destruct (Hx b) as (Hb & Hb' & Eb); [done|].
    destruct (Hx c) as (Hc & Hc' & Ec); [done|]. destruct (Hx d) as (Hd & Hd' & Ed); [done|].
    rewrite (varint_loop_hit _ 0 _ a) by (done || lia). rewrite Ea.
    rewrite (varint_loop_hit _ 1 _ b) by (done || lia). rewrite Eb.
    rewrite (varint_loop_hit _ 2 _ c) by (done || lia). rewrite Ec.
    rewrite (varint_loop_hit _ 3 _ d) by (done || lia). rewrite Ed. eauto. }
  split; [|split].
  - intros Hk Hv Hl. unfold scan_varint. replace (len =? 0)%nat with false by lia.
    destruct k as [|k]; [lia|].
    pose proof (varint_loop_spec r (len - S k) k [] v 0) as L.
    cbn [app length Nat.add] in L.
    replace (S (k + (len - S k)))%nat with len in L by lia.
    rewrite L by (done || lia). change (128 ^ Z.of_nat 0) with 1.
    by rewrite Z.mul_1_r.
  - intros Hs Hf Hl b Hb Hb8. unfold scan_varint.
    replace (len =? 0)%nat with false by lia.
    destruct (H4 (b :: r) (len - 4)%nat Hs Hf) as [acc E].
    replace (4 + (len - 4))%nat with len in E by lia. rewrite E.
    destruct (len - 4)%nat as [|e] eqn:El; [lia|]. cbn [varint_loop]. unfold load.
    rewrite <- Hs, list_lookup_middle by done. cbn [mbind option_bind].
    unfold varint_shift. destruct (varint_bits b Hb) as [-> _].
    rewrite Hs, Z.shiftl_mul_pow2 by lia. cbn [Z.ltb]. change (7 * Z.of_nat 4 <? 32) with true.
    change (2 ^ (Z.of_nat 4 * 7)) with 268435456. unfold chk32.
    by replace (_ && _) with false by lia.
  - intros Hs Hf Hl b c Hb. unfold scan_varint.
    replace (len =? 0)%nat with false by lia.
    destruct (H4 (b :: c :: r) (len - 4)%nat Hs Hf) as [acc E].
    replace (4 + (len - 4))%nat with len in E by lia. rewrite E.
    destruct (len - 4)%nat as [|[|e]] eqn:El; [lia|lia|]. cbn [varint_loop]. unfold load.
    assert ((s ++ b :: c :: r) !! 4%nat = Some b) as -> by
      (by apply list_lookup_middle).
    cbn [mbind option_bind]. destruct (varint_shift b 4); [|done]. cbn [mbind option_bind].
    assert (is_u8 b) as Hb8 by (unfold is_u8; lia).
    destruct (varint_bits b Hb8) as [_ ->]. zfalse (b <? 128).
    rewrite cons_middle, app_assoc, list_lookup_middle by
      (rewrite length_app; simpl; lia).
    by cbn [mbind option_bind].
Qed.

Lemma scan_varint_range_witness :
  scan_varint (varint_bytes 150 2 ++ [7]) 3 = Some (2%nat, Some 150) /\
  scan_varint ([128; 128; 128; 128] ++ 8 :: []) 5 = None.
Proof.
  split.
  - destruct (scan_varint_range 150 2 [] [7] 3) as (H & _ & _).
    apply H; [lia|split; [discriminate|reflexivity]|lia].
  - destruct (scan_varint_range 0 0 [128; 128; 128; 128] [] 5) as (_ & H & _).
    apply H; [done|repeat constructor; lia|lia|split; [discriminate|reflexivity]|].
    discriminate.
Defined.

(** What the interface gives every packing. *)
Lemma packing_roundtrip {w : nat} {range : Z} {image : Z -> list Z}
    {pack : list Z -> nat -> Z -> option (list Z)} {read : list Z -> option Z}
    {P : Packing w range image pack read} (m : list Z) (o : nat) (x : Z) :
  0 <= x < range -> (o + w <= length m)%nat ->
  exists m', pack m o x = Some m' /\ length m' = length m /\
    read (drop o m') = Some x /\
    forall i, (i < o \/ o + w <= i)%nat -> m' !! i = m !! i.
Proof.
  intros Hx Ho. pose proof (image_length x) as Hl.
  exists (splice m o (image x)). split; [by apply pack_stores|].
  split; [apply splice_length; lia|]. split.
  - unfold splice. rewrite drop_app_ge by (rewrite length_take; lia).
    rewrite length_take, Nat.min_l, Nat.sub_diag, drop_0 by lia.
    by apply read_image.
  - intros i Hi. rewrite splice_lookup by lia. by rewrite decide_False by lia.
Qed.

(** Packing a 64-bit integer anywhere in an object, in either byte order,
    and reading it back gives the integer and leaves every byte outside its
    eight unchanged; the object is too short exactly when the packing is
    undefined; and the two orders are mirror images of each other. *)
Theorem uint64_pack_roundtrip (m : list Z) (o : nat) (x : Z) :
  is_u64 x ->
  (length m < o + 8 ->
   uint64_pack m o x = None /\ uint64_pack_big m o x = None)%nat /\
  ((o + 8 <= length m)%nat ->
   exists a b, uint64_pack m o x = Some a /\ uint64_pack_big m o x = Some b /\
     uint64_unpack (drop o a) = Some x /\ uint64_unpack_big (drop o b) = Some x /\
     block b o 8 = rev (block a o 8) /\
     (forall i, (i < o \/ o + 8 <= i)%nat -> a !! i = m !! i /\ b !! i = m !! i)).
Proof.
  intros Hx. split; intros Ho; [split; by apply pack_full|].
  destruct (packing_roundtrip (pack := uint64_pack) m o x Hx Ho)
    as (a & Ea & La & Ra & Ia).
  destruct (packing_roundtrip (pack := uint64_pack_big) m o x Hx Ho)
    as (b & Eb & Lb & Rb & Ib).
  exists a, b. split; [done|]. split; [done|]. split; [done|]. split; [done|].
  split; [|by auto].
  rewrite pack_stores in Ea by done. rewrite pack_stores in Eb by done.
  injection Ea as <-. injection Eb as <-.
  assert (forall l, length l = 8%nat -> block (splice m o l) o 8 = l) as Hbl.
  { intros l Hl. apply list_eq_nth; [rewrite block_length; rewrite ?splice_length; lia|].
    intros i Hi. rewrite block_length in Hi by (rewrite splice_length; lia).
    rewrite block_lookup, splice_lookup by lia.
    rewrite decide_True by lia. f_equal. lia. }
  by rewrite !Hbl by done.
Qed.

Lemma uint64_pack_roundtrip_witness :
  exists a b, uint64_pack (replicate 9 0) 1 258 = Some a /\
    uint64_pack_big (replicate 9 0) 1 258 = Some b /\
    block b 1 8 = rev (block a 1 8).
Proof.
  destruct (uint64_pack_roundtrip (replicate 9 0) 1 258) as [_ H];
    [split; reflexivity || discriminate|].
  destruct H as (a & b & H1 & H2 & _ & _ & H3 & _); [vm_compute; lia|].
  exists a, b. split; [exact H1|]. split; [exact H2|exact H3].
Defined.
