(* ===== verification/Tai.v ===== *)
(** Time stamps: [lib/tai/] (64-bit seconds) and [lib/taia/] (seconds,
    nanoseconds and attoseconds).  The structs live in a store, so that the
    operations are modelled with the aliasing their headers allow ("the inputs
    and output may overlap"); the external formats use the byte order of
    Pack.v. *)
From S2P Require Import Prelude ByteOps Pack.

Record tai := Tai { tai_x : Z }.
Record taia := Taia { sec : tai; nano : Z; atto : Z }.

#[export] Instance tai_eq_dec : EqDecision tai.
Proof. solve_decision. Defined.
#[export] Instance taia_eq_dec : EqDecision taia.
Proof. solve_decision. Defined.

(** * [struct tai] *)

Abbreviation tai_store := (gmap nat tai).

Definition tai_add (h : tai_store) (t u v : nat) : option tai_store :=
  _ ← h !! t; a ← h !! u; b ← h !! v;
  Some (<[t := Tai (u64 (tai_x a + tai_x b))]> h).

Definition tai_sub (h : tai_store) (t u v : nat) : option tai_store :=
  _ ← h !! t; a ← h !! u; b ← h !! v;
  Some (<[t := Tai (u64 (tai_x a - tai_x b))]> h).

Definition tai_uint (u : Z) : tai := Tai u.

(** [tai_unix] of tai.h: TAI64 labels count from 2^62, and 1970 began 10 seconds after the epoch
    of the count. *)
Definition tai_unix (u : Z) : tai := Tai (u64 (4611686018427387914 + u64 u)).

Definition tai_less (t u : tai) : bool := tai_x t <? tai_x u.

(** [s[k-1] = x; x >>= 8; ... s[0] = x] *)
Fixpoint be_store (m : list Z) (s : nat) (x : Z) (k : nat) : option (list Z) :=
  match k with
  | O => Some m
  | S k' => m' ← store m (s + k') (u8 x); be_store m' s (Z.shiftr x 8) k'
  end.

(** [x <<= 8; x += s[i]] for [i] from 0 up, in an unsigned type [wrap]. *)
Fixpoint be_load (wrap : Z -> Z) (s : list Z) (x : Z) (k : nat) : option Z :=
  match k with
  | O => Some x
  | S k' =>
      c ← load s 0; be_load wrap (tail s) (wrap (wrap (Z.shiftl x 8) + c)) k'
  end.

Definition tai_pack (m : list Z) (s : nat) (x : Z) : option (list Z) :=
  be_store m s x 8.

Definition tai_unpack (s : list Z) : option Z := be_load u64 s 0 8.

(** * [struct taia] *)

Abbreviation taia_store := (gmap nat taia).

Definition set_sec (h : taia_store) (t : nat) (x : Z) : option taia_store :=
  a ← h !! t; Some (<[t := Taia (Tai x) (nano a) (atto a)]> h).
Definition set_nano (h : taia_store) (t : nat) (x : Z) : option taia_store :=
  a ← h !! t; Some (<[t := Taia (sec a) x (atto a)]> h).
Definition set_atto (h : taia_store) (t : nat) (x : Z) : option taia_store :=
  a ← h !! t; Some (<[t := Taia (sec a) (nano a) x]> h).

Definition taia_add (h : taia_store) (t u v : nat) : option taia_store :=
  a ← h !! u; b ← h !! v;
  h ← set_sec h t (u64 (tai_x (sec a) + tai_x (sec b)));
  a ← h !! u; b ← h !! v;
  h ← set_nano h t (u32 (nano a + nano b));
  a ← h !! u; b ← h !! v;
  h ← set_atto h t (u32 (atto a + atto b));
  c ← h !! t;
  h ← (if 999999999 <? atto c then
         h ← set_atto h t (u32 (atto c - 1000000000));
         c ← h !! t; set_nano h t (u32 (nano c + 1))
       else Some h);
  c ← h !! t;
  if 999999999 <? nano c then
    h ← set_nano h t (u32 (nano c - 1000000000));
    c ← h !! t; set_sec h t (u64 (tai_x (sec c) + 1))
  else Some h.

Definition taia_sub (h : taia_store) (t u v : nat) : option taia_store :=
  a ← h !! u;
  let unano := nano a in
  let uatto := atto a in
  b ← h !! v;
  h ← set_sec h t (u64 (tai_x (sec a) - tai_x (sec b)));
  b ← h !! v;
  h ← set_nano h t (u32 (unano - nano b));
  b ← h !! v;
  h ← set_atto h t (u32 (uatto - atto b));
  c ← h !! t;
  h ← (if uatto <? atto c then
         h ← set_atto h t (u32 (atto c + 1000000000));
         c ← h !! t; set_nano h t (u32 (nano c - 1))
       else Some h);
  c ← h !! t;
  if unano <? nano c then
    h ← set_nano h t (u32 (nano c + 1000000000));
    c ← h !! t; set_sec h t (u64 (tai_x (sec c) - 1))
  else Some h.

Definition taia_addsec (h : taia_store) (t u : nat) (secs : Z)
  : option taia_store :=
  a ← h !! u;
  h ← set_sec h t (u64 (tai_x (sec a) + u64 secs));
  a ← h !! u;
  h ← set_nano h t (nano a);
  a ← h !! u;
  set_atto h t (atto a).

Definition taia_half (h : taia_store) (t u : nat) : option taia_store :=
  a ← h !! u;
  h ← set_atto h t (Z.shiftr (atto a) 1);
  a ← h !! u;
  h ← (if negb (Z.land (nano a) 1 =? 0) then
         c ← h !! t; set_atto h t (u32 (atto c + 500000000))
       else Some h);
  a ← h !! u;
  h ← set_nano h t (Z.shiftr (nano a) 1);
  a ← h !! u;
  h ← (if negb (Z.land (tai_x (sec a)) 1 =? 0) then
         c ← h !! t; set_nano h t (u32 (nano c + 500000000))
       else Some h);
  a ← h !! u;
  set_sec h t (Z.shiftr (tai_x (sec a)) 1).

Definition taia_less (t u : taia) : bool :=
  if tai_x (sec t) <? tai_x (sec u) then true
  else if tai_x (sec u) <? tai_x (sec t) then false
  else if nano t <? nano u then true
  else if nano u <? nano t then false
  else atto t <? atto u.

Definition taia_tai (ta : taia) : tai := sec ta.

Definition taia_uint (s : Z) : taia := Taia (Tai s) 0 0.

Definition taia_pack (m : list Z) (s : nat) (t : taia) : option (list Z) :=
  m ← tai_pack m s (tai_x (sec t));
  m ← be_store m (s + 8 + 4) (atto t) 4;
  be_store m (s + 8) (nano t) 4.

Definition taia_unpack (s : list Z) : option taia :=
  x ← tai_unpack s;
  let s := drop 8 s in
  a ← be_load u32 (drop 4 s) 0 4;
  n ← be_load u32 s 0 4;
  Some (Taia (Tai x) n a).

(** * Abstract time *)

(** A time stamp in attoseconds, and the form the header states for its
    parts. *)
Definition giga : Z := 1000000000.

Definition instant (t : taia) : Z :=
  (tai_x (sec t) * giga + nano t) * giga + atto t.

Definition normal (t : taia) : Prop :=
  is_u64 (tai_x (sec t)) /\ 0 <= nano t < giga /\ 0 <= atto t < giga.

(** Time stamps wrap around after 2^64 seconds. *)
Definition era : Z := 18446744073709551616 * giga * giga.

Definition of_instant (i : Z) : taia :=
  let i := i mod era in
  Taia (Tai (i / giga / giga)) (i / giga mod giga) (i mod giga).

(** * Lemmas *)

Lemma instant_range (t : taia) : normal t -> 0 <= instant t < era.
Proof. unfold normal, instant, is_u64, era, giga. lia. Qed.

Lemma of_instant_instant (t : taia) : normal t -> of_instant (instant t) = t.
Proof.
  intros Hn. unfold of_instant. rewrite Z.mod_small by (by apply instant_range).
  destruct t as [[x] n a]. unfold normal, instant, giga in *. simpl in *.
  f_equal; [f_equal|..]; zmod.
Qed.

(** A normal time stamp is determined by its instant modulo the era. *)
Lemma of_instant_unique (r : taia) (i k : Z) :
  normal r -> instant r = i + k * era -> r = of_instant i.
Proof.
  intros Hn He. rewrite <- (of_instant_instant r Hn). unfold of_instant.
  by rewrite He, Z_mod_plus_full.
Qed.

Lemma instant_of (i : Z) : instant (of_instant i) = i mod era.
Proof.
  unfold of_instant, instant. cbn [sec nano atto tai_x]. set (j := i mod era).
  clearbody j. unfold giga. zmod.
Qed.

Lemma normal_of (i : Z) : normal (of_instant i).
Proof.
  assert (0 <= i mod era < era) as H by (apply Z.mod_pos_bound; done).
  unfold normal, of_instant. cbn [sec nano atto tai_x].
  set (j := i mod era) in *. clearbody j. unfold era, giga in *. zmod.
Qed.

Lemma set_sec_eq (h : taia_store) (t : nat) (a : taia) (x : Z) :
  h !! t = Some a ->
  set_sec h t x = Some (<[t := Taia (Tai x) (nano a) (atto a)]> h).
Proof. intros E. unfold set_sec. by rewrite E. Qed.
Lemma set_nano_eq (h : taia_store) (t : nat) (a : taia) (x : Z) :
  h !! t = Some a -> set_nano h t x = Some (<[t := Taia (sec a) x (atto a)]> h).
Proof. intros E. unfold set_nano. by rewrite E. Qed.
Lemma set_atto_eq (h : taia_store) (t : nat) (a : taia) (x : Z) :
  h !! t = Some a -> set_atto h t x = Some (<[t := Taia (sec a) (nano a) x]> h).
Proof. intros E. unfold set_atto. by rewrite E. Qed.

(** Runs a chain of field reads and writes, whatever the aliasing. *)
Ltac taia_run :=
  repeat (first
    [ progress cbn [mbind option_bind sec nano atto tai_x]
    | rewrite lookup_insert_eq
    | rewrite lookup_insert_ne by congruence
    | match goal with E : ?h !! ?u = Some _ |- context [?h !! ?u] => rewrite E end
    | erewrite set_sec_eq by (by rewrite ?lookup_insert_eq)
    | erewrite set_nano_eq by (by rewrite ?lookup_insert_eq)
    | erewrite set_atto_eq by (by rewrite ?lookup_insert_eq)
    | rewrite insert_insert_eq ]).

(** Splits on what the destination aliases, then runs. *)
Ltac taia_alias t u :=
  destruct (decide (t = u)) as [?|?]; [subst u|]; simplify_eq.

Definition add_fields (a b : taia) : taia :=
  let x := u64 (tai_x (sec a) + tai_x (sec b)) in
  let n := u32 (nano a + nano b) in
  let at_ := u32 (atto a + atto b) in
  let c := 999999999 <? at_ in
  let n := if c then u32 (n + 1) else n in
  let at_ := if c then u32 (at_ - 1000000000) else at_ in
  if 999999999 <? n then Taia (Tai (u64 (x + 1))) (u32 (n - 1000000000)) at_
  else Taia (Tai x) n at_.

Lemma taia_add_fields (h : taia_store) (t u v : nat) (a b c : taia) :
  h !! t = Some c -> h !! u = Some a -> h !! v = Some b ->
  taia_add h t u v = Some (<[t := add_fields a b]> h).
Proof.
  intros Ht Hu Hv. unfold taia_add, add_fields.
  taia_alias t u; taia_alias t v; taia_run.
  all: case_match; taia_run; case_match; taia_run; done.
Qed.

Definition sub_fields (a b : taia) : taia :=
  let x := u64 (tai_x (sec a) - tai_x (sec b)) in
  let n := u32 (nano a - nano b) in
  let at_ := u32 (atto a - atto b) in
  let c := atto a <? at_ in
  let n := if c then u32 (n - 1) else n in
  let at_ := if c then u32 (at_ + 1000000000) else at_ in
  if nano a <? n then Taia (Tai (u64 (x - 1))) (u32 (n + 1000000000)) at_
  else Taia (Tai x) n at_.

Lemma taia_sub_fields (h : taia_store) (t u v : nat) (a b c : taia) :
  h !! t = Some c -> h !! u = Some a -> h !! v = Some b ->
  taia_sub h t u v = Some (<[t := sub_fields a b]> h).
Proof.
  intros Ht Hu Hv. unfold taia_sub, sub_fields.
  taia_alias t u; taia_alias t v; taia_run.
  all: case_match; taia_run; case_match; taia_run; done.
Qed.

Definition half_fields (a : taia) : taia :=
  let at_ := Z.shiftr (atto a) 1 in
  let at_ := if negb (Z.land (nano a) 1 =? 0) then u32 (at_ + 500000000)
             else at_ in
  let n := Z.shiftr (nano a) 1 in
  let n := if negb (Z.land (tai_x (sec a)) 1 =? 0) then u32 (n + 500000000)
           else n in
  Taia (Tai (Z.shiftr (tai_x (sec a)) 1)) n at_.

Lemma taia_half_fields (h : taia_store) (t u : nat) (a c : taia) :
  h !! t = Some c -> h !! u = Some a ->
  taia_half h t u = Some (<[t := half_fields a]> h).
Proof.
  intros Ht Hu. unfold taia_half, half_fields.
  taia_alias t u; taia_run.
  all: case_match; taia_run; case_match; taia_run; done.
Qed.

Lemma taia_addsec_fields (h : taia_store) (t u : nat) (a c : taia) (s : Z) :
  h !! t = Some c -> h !! u = Some a ->
  taia_addsec h t u s =
    Some (<[t := Taia (Tai (u64 (tai_x (sec a) + u64 s))) (nano a) (atto a)]> h).
Proof.
  intros Ht Hu. unfold taia_addsec. taia_alias t u; taia_run; done.
Qed.

(** The field computations are arithmetic on instants. *)
Lemma add_fields_instant (a b : taia) :
  normal a -> normal b -> add_fields a b = of_instant (instant a + instant b).
Proof.
  destruct a as [[xa] na aa], b as [[xb] nb ab].
  unfold normal, add_fields. cbn [sec nano atto tai_x]. unfold giga, is_u64.
  intros (Hxa & Hna & Haa) (Hxb & Hnb & Hab).
  rewrite (u32_id (na + nb)), (u32_id (aa + ab)) by (unfold is_u32; lia).
  set (c := if 999999999 <? aa + ab then 1 else 0).
  replace (if 999999999 <? aa + ab then u32 (na + nb + 1) else na + nb)
    with (na + nb + c)
    by (unfold c; case_match; [rewrite u32_id by (unfold is_u32; lia)|]; lia).
  replace (if 999999999 <? aa + ab then u32 (aa + ab - 1000000000) else aa + ab)
    with (aa + ab - c * giga)
    by (unfold c, giga; case_match; [rewrite u32_id by (unfold is_u32; lia)|]; lia).
  assert (0 <= aa + ab - c * giga < giga /\ 0 <= c <= 1) as [Hc1 Hc2]
    by (unfold c, giga; case_match; lia).
  clearbody c. unfold giga in Hc1.
  destruct (Z.ltb_spec 999999999 (na + nb + c)).
  - rewrite (u32_id (na + nb + c - 1000000000)) by (unfold is_u32; lia).
    replace (u64 (u64 (xa + xb) + 1)) with (u64 (xa + xb + 1)) by zmod.
    apply (of_instant_unique _ _ (- ((xa + xb + 1) / 18446744073709551616))).
    + unfold normal, giga. cbn [sec nano atto tai_x].
      split; [apply u64_range|]. lia.
    + unfold instant, era, giga, u64. cbn [sec nano atto tai_x].
      pose proof (Z.div_mod (xa + xb + 1) 18446744073709551616). lia.
  - apply (of_instant_unique _ _ (- ((xa + xb) / 18446744073709551616))).
    + unfold normal, giga. cbn [sec nano atto tai_x].
      split; [apply u64_range|]. lia.
    + unfold instant, era, giga, u64. cbn [sec nano atto tai_x].
      pose proof (Z.div_mod (xa + xb) 18446744073709551616). lia.
Qed.

Lemma sub_fields_instant (a b : taia) :
  normal a -> normal b -> sub_fields a b = of_instant (instant a - instant b).
Proof.
  destruct a as [[xa] na aa], b as [[xb] nb ab].
  unfold normal, sub_fields. cbn [sec nano atto tai_x]. unfold giga, is_u64.
  intros (Hxa & Hna & Haa) (Hxb & Hnb & Hab).
  set (c := if aa <? ab then 1 else 0).
  replace (aa <? u32 (aa - ab)) with (aa <? ab) by zmod.
  replace (if aa <? ab then u32 (u32 (na - nb) - 1) else u32 (na - nb))
    with (u32 (na - nb - c)) by (unfold c; case_match; zmod).
  replace (if aa <? ab then u32 (u32 (aa - ab) + 1000000000) else u32 (aa - ab))
    with (aa - ab + c * giga) by (unfold c, giga; case_match; zmod).
  assert (0 <= aa - ab + c * giga < giga /\ 0 <= c <= 1) as [Hc1 Hc2]
    by (unfold c, giga; case_match; lia).
  clearbody c. unfold giga in Hc1.
  replace (na <? u32 (na - nb - c)) with (na - nb - c <? 0) by zmod.
  destruct (Z.ltb_spec (na - nb - c) 0).
  - replace (u32 (u32 (na - nb - c) + 1000000000)) with (na - nb - c + giga)
      by (unfold giga; zmod).
    replace (u64 (u64 (xa - xb) - 1)) with (u64 (xa - xb - 1)) by zmod.
    apply (of_instant_unique _ _ (- ((xa - xb - 1) / 18446744073709551616))).
    + unfold normal, giga. cbn [sec nano atto tai_x].
      split; [apply u64_range|]. lia.
    + unfold instant, era, giga, u64. cbn [sec nano atto tai_x].
      pose proof (Z.div_mod (xa - xb - 1) 18446744073709551616). lia.
  - rewrite u32_id by (unfold is_u32; lia).
    apply (of_instant_unique _ _ (- ((xa - xb) / 18446744073709551616))).
    + unfold normal, giga. cbn [sec nano atto tai_x].
      split; [apply u64_range|]. lia.
    + unfold instant, era, giga, u64. cbn [sec nano atto tai_x].
      pose proof (Z.div_mod (xa - xb) 18446744073709551616). lia.
Qed.

Lemma odd_test (x : Z) : (if negb (Z.land x 1 =? 0) then 1 else 0) = x mod 2.
Proof. rewrite (land_low _ 1) by done. change (2 ^ 1) with 2. case_match; zmod. Qed.

Lemma half_fields_instant (a : taia) :
  normal a -> half_fields a = of_instant (instant a / 2).
Proof.
  destruct a as [[x] n at_].
  unfold normal, half_fields. cbn [sec nano atto tai_x]. unfold giga, is_u64.
  intros (Hx & Hn & Ha). rewrite !Z.shiftr_div_pow2 by lia. change (2 ^ 1) with 2.
  replace (if negb (Z.land n 1 =? 0) then u32 (at_ / 2 + 500000000) else at_ / 2)
    with (at_ / 2 + n mod 2 * 500000000)
    by (rewrite <- odd_test; case_match; zmod).
  replace (if negb (Z.land x 1 =? 0) then u32 (n / 2 + 500000000) else n / 2)
    with (n / 2 + x mod 2 * 500000000)
    by (rewrite <- odd_test; case_match; zmod).
  apply (of_instant_unique _ _ 0).
  - unfold normal, giga. cbn [sec nano atto tai_x]. zmod.
  - unfold instant, giga. cbn [sec nano atto tai_x]. zmod.
Qed.

Lemma taia_less_instant (a b : taia) :
  normal a -> normal b -> taia_less a b = (instant a <? instant b).
Proof.
  destruct a as [[xa] na aa], b as [[xb] nb ab].
  unfold normal, taia_less, instant. cbn [sec nano atto tai_x].
  unfold giga, is_u64. intros (Hxa & Hna & Haa) (Hxb & Hnb & Hab).
  zcases.
Qed.

(** ** External formats *)

Lemma be_bytes_S (k : nat) (x : Z) :
  be_bytes (S k) x = be_bytes k (Z.shiftr x 8) ++ [u8 x].
Proof. done. Qed.

Lemma be_store_spec (k : nat) : forall (m : list Z) (s : nat) (x : Z),
  (s + k <= length m)%nat -> be_store m s x k = Some (splice m s (be_bytes k x)).
Proof.
  induction k as [|k IH]; intros m s x H; simpl be_store.
  - by rewrite splice_nil.
  - rewrite store_Some by lia. cbn [mbind option_bind].
    rewrite IH by (rewrite length_insert; lia). f_equal. rewrite be_bytes_S.
    assert (length (be_bytes k (Z.shiftr x 8) ++ [u8 x]) = S k) as Hl
      by (rewrite length_app, be_bytes_length; simpl; lia).
    pose proof (be_bytes_length k (Z.shiftr x 8)) as Hk.
    apply list_eq_nth.
    { rewrite !splice_length; rewrite ?length_insert; lia. }
    intros i _. rewrite !splice_lookup by (rewrite ?length_insert; lia).
    rewrite Hl, Hk. destruct (decide (i = s + k)%nat) as [->|].
    + rewrite decide_False, decide_True by lia.
      rewrite list_lookup_insert_eq by lia.
      by rewrite lookup_app_r, Hk, Nat.add_comm, Nat.add_sub, Nat.sub_diag by lia.
    + rewrite list_lookup_insert_ne by lia.
      repeat case_decide; try lia; [|done]. by rewrite lookup_app_l by lia.
Qed.

Lemma be_store_full (k : nat) : forall (m : list Z) (s : nat) (x : Z),
  (0 < k)%nat -> (length m < s + k)%nat -> be_store m s x k = None.
Proof.
  intros m s x Hk H. destruct k as [|k]; [lia|]. simpl be_store.
  by rewrite store_None by lia.
Qed.

(** Reading in an unsigned type that holds the value so far. *)
Lemma be_load_spec (wrap : Z -> Z) (B : Z) (x : Z) (r : list Z) (k : nat) :
  forall acc : Z, (forall y, 0 <= y < B -> wrap y = y) -> 0 <= acc ->
  (acc + 1) * 256 ^ Z.of_nat k <= B ->
  be_load wrap (be_bytes k x ++ r) acc k =
    Some (acc * 256 ^ Z.of_nat k + x mod 256 ^ Z.of_nat k).
Proof.
  intros acc Hw. revert x r acc.
  induction k as [|k IH] using nat_ind; intros x r acc Ha HB.
  - simpl. f_equal. change (256 ^ Z.of_nat 0) with 1. rewrite Z.mod_1_r. lia.
  - rewrite Nat2Z.inj_succ, Z.pow_succ_r in * by lia.
    assert (0 < 256 ^ Z.of_nat k) as Hp by lia.
    change (be_bytes (S k) x) with (be_bytes (k + 1) x) || idtac.
    replace (S k) with (k + 1)%nat by lia.
    rewrite be_bytes_app. cbn [be_bytes le_bytes rev app].
    set (d := u8 (Z.shiftr x (8 * Z.of_nat k))).
    replace (k + 1)%nat with (S k) by lia. cbn [be_load].
    rewrite load_cons_0. cbn [mbind option_bind tail].
    assert (0 <= d < 256) as Hd by (apply u8_range).
    rewrite Z.shiftl_mul_pow2 by lia. change (2 ^ 8) with 256.
    rewrite (Hw (acc * 256)) by nia. rewrite Hw by nia.
    rewrite IH by nia. f_equal.
    rewrite (Z.mul_comm 256 (256 ^ Z.of_nat k)), (Z.rem_mul_r x (256 ^ Z.of_nat k)) by lia.
    unfold d, u8. rewrite Z.shiftr_div_pow2, Z.pow_mul_r by lia.
    change (2 ^ 8) with 256. nia.
Qed.

#[export] Instance tai_packing :
  Packing 8 18446744073709551616 (be_bytes 8) tai_pack tai_unpack.
Proof.
  split.
  - apply be_bytes_length.
  - apply be_bytes_bytes.
  - intros. by apply be_store_spec.
  - intros. apply be_store_full; lia.
  - intros x r Hx. unfold tai_unpack.
    rewrite (be_load_spec u64 18446744073709551616) by
      (lia || (intros; by apply u64_id)).
    change (256 ^ Z.of_nat 8) with 18446744073709551616.
    rewrite Z.mod_small by lia. done.
  - intros s Hs. do 8 (destruct s as [|? s]; [done|]). simpl in Hs. lia.
Qed.

(** The bytes of a packed time stamp. *)
Definition taia_image (t : taia) : list Z :=
  be_bytes 8 (tai_x (sec t)) ++ be_bytes 4 (nano t) ++ be_bytes 4 (atto t).

Lemma taia_image_length (t : taia) : length (taia_image t) = 16%nat.
Proof. done. Qed.

Lemma taia_pack_spec (m : list Z) (s : nat) (t : taia) :
  is_u64 (tai_x (sec t)) -> (s + 16 <= length m)%nat ->
  taia_pack m s t = Some (splice m s (taia_image t)).
Proof.
  intros Hx Hs. unfold taia_pack.
  rewrite pack_stores by (done || lia). cbn [mbind option_bind].
  set (l1 := be_bytes 8 (tai_x (sec t))).
  set (l2 := be_bytes 4 (nano t)). set (l3 := be_bytes 4 (atto t)).
  assert (length l1 = 8%nat /\ length l2 = 4%nat /\ length l3 = 4%nat)
    as (H1 & H2 & H3) by done.
  rewrite be_store_spec by (rewrite splice_length; lia). cbn [mbind option_bind].
  fold l3.
  rewrite be_store_spec by (repeat rewrite splice_length; lia).
  fold l2. f_equal. unfold taia_image. fold l1 l2 l3.
  assert (length (l1 ++ l2 ++ l3) = 16%nat) as H by (rewrite !length_app; lia).
  apply list_eq_nth.
  { repeat rewrite splice_length; lia. }
  intros i _.
  rewrite !splice_lookup by (repeat rewrite splice_length; lia).
  rewrite H, H1, H2, H3. repeat case_decide; try lia; try done.
  - rewrite lookup_app_r, lookup_app_l by lia. f_equal. lia.
  - rewrite !lookup_app_r by lia. f_equal. lia.
  - by rewrite lookup_app_l by lia.
Qed.

Lemma taia_unpack_image (t : taia) (r : list Z) :
  normal t -> taia_unpack (taia_image t ++ r) = Some t.
Proof.
  destruct t as [[x] n a]. unfold normal, taia_image. cbn [sec nano atto tai_x].
  intros (Hx & Hn & Ha). unfold giga in *. unfold taia_unpack.
  rewrite <- !app_assoc. rewrite read_image by done. cbn [mbind option_bind].
  rewrite (drop_app_length (be_bytes 8 x)).
  rewrite (drop_app_length (be_bytes 4 n)).
  rewrite !(be_load_spec u32 4294967296) by (lia || (intros; by apply u32_id)).
  cbn [mbind option_bind]. change (256 ^ Z.of_nat 4) with 4294967296.
  do 2 f_equal; rewrite Z.mod_small; lia.
Qed.

Lemma be_bytes_top (k : nat) (x : Z) :
  0 <= x < 256 ^ Z.of_nat (S k) ->
  be_bytes (S k) x = x / 256 ^ Z.of_nat k :: be_bytes k (x mod 256 ^ Z.of_nat k) /\
  0 <= x / 256 ^ Z.of_nat k < 256.
Proof.
  rewrite Nat2Z.inj_succ, Z.pow_succ_r by lia. intros H.
  assert (0 < 256 ^ Z.of_nat k) by lia.
  assert (0 <= x / 256 ^ Z.of_nat k < 256) as Hd.
  { split; [apply Z.div_pos; lia|apply Z.div_lt_upper_bound; lia]. }
  split; [|done]. replace (S k) with (k + 1)%nat by lia. rewrite be_bytes_app.
  unfold be_bytes at 1. cbn [le_bytes rev app]. f_equal.
  - rewrite Z.shiftr_div_pow2, Z.pow_mul_r by lia. by apply u8_id.
  - unfold be_bytes. by rewrite le_bytes_mod.
Qed.

(** Big-endian bytes compare as the integers do. *)
Lemma be_diff (r q : list Z) (n k : nat) : forall x y : Z,
  0 <= x < 256 ^ Z.of_nat k -> 0 <= y < 256 ^ Z.of_nat k ->
  if x =? y
  then byte_diff (be_bytes k x ++ r) (k + n) (be_bytes k y ++ q) = byte_diff r n q
  else exists d, byte_diff (be_bytes k x ++ r) (k + n) (be_bytes k y ++ q) = Some d /\
         d <> 0 /\ (d < 0 <-> x < y).
Proof.
  induction k as [|k IH]; intros x y Hx Hy.
  - change (256 ^ Z.of_nat 0) with 1 in *. by replace (x =? y) with true by lia.
  - destruct (be_bytes_top k x Hx) as [Ex Bx].
    destruct (be_bytes_top k y Hy) as [Ey By]. rewrite Ex, Ey.
    cbn [app Nat.add byte_diff].
    assert (0 < 256 ^ Z.of_nat k) as Hp by lia.
    pose proof (Z.div_mod x (256 ^ Z.of_nat k)) as Dx.
    pose proof (Z.div_mod y (256 ^ Z.of_nat k)) as Dy.
    pose proof (Z.mod_pos_bound x _ Hp) as Mx.
    pose proof (Z.mod_pos_bound y _ Hp) as My.
    specialize (IH _ _ Mx My).
    set (xd := x / 256 ^ Z.of_nat k) in *. set (yd := y / 256 ^ Z.of_nat k) in *.
    destruct (Z.eqb_spec (xd - yd) 0) as [E|E]; cbn [negb].
    + replace (x =? y) with (x mod 256 ^ Z.of_nat k =? y mod 256 ^ Z.of_nat k) by nia.
      destruct (_ =? _); [done|]. destruct IH as (d & -> & Hd0 & Hd).
      exists d. split; [done|]. split; [done|]. nia.
    + replace (x =? y) with false by nia.
      exists (xd - yd). split; [done|]. split; [done|]. nia.
Qed.

(** * Properties *)

(** C24: the three-part sums and differences implement arithmetic modulo 2^64
    seconds at attosecond precision: for normal arguments [taia_add] and
    [taia_sub] store the normal time stamp of the sum and of the difference,
    with every carry and borrow, and change nothing else, even when the
    destination is one of the arguments or both. *)
Theorem taia_arith_correct (h : gmap nat taia) (t u v : nat) (a b c : taia) :
  h !! t = Some c -> h !! u = Some a -> h !! v = Some b ->
  normal a -> normal b ->
  taia_add h t u v = Some (<[t := of_instant (instant a + instant b)]> h) /\
  taia_sub h t u v = Some (<[t := of_instant (instant a - instant b)]> h).
Proof.
  intros Ht Hu Hv Ha Hb.
  rewrite (taia_add_fields h t u v a b c), (taia_sub_fields h t u v a b c) by done.
  by rewrite add_fields_instant, sub_fields_instant.
Qed.

Lemma taia_arith_correct_witness :
  let a := Taia (Tai 5) 999999999 999999999 in
  taia_add {[ 0%nat := a ]} 0 0 0 =
    Some (<[0%nat := of_instant (instant a + instant a)]> {[ 0%nat := a ]}) /\
  of_instant (instant a + instant a) = Taia (Tai 11) 999999999 999999998.
Proof.
  intros a. split; [|reflexivity].
  destruct (taia_arith_correct {[ 0%nat := a ]} 0 0 0 a a a) as [H _];
    [reflexivity..|repeat split; vm_compute; congruence| |exact H].
  repeat split; vm_compute; congruence.
Defined.

(** [taia_half] halves a normal time stamp, rounding down to a whole
    attosecond, in place or not. *)
Theorem taia_half_correct (h : gmap nat taia) (t u : nat) (a c : taia) :
  h !! t = Some c -> h !! u = Some a -> normal a ->
  taia_half h t u = Some (<[t := of_instant (instant a / 2)]> h).
Proof.
  intros Ht Hu Ha. rewrite (taia_half_fields h t u a c) by done.
  by rewrite half_fields_instant.
Qed.

Lemma taia_half_correct_witness :
  let a := Taia (Tai 5) 3 1 in
  taia_half {[ 0%nat := a ]} 0 0 =
    Some (<[0%nat := of_instant (instant a / 2)]> {[ 0%nat := a ]}) /\
  of_instant (instant a / 2) = Taia (Tai 2) 500000001 500000000.
Proof.
  intros a. split; [|reflexivity].
  apply (taia_half_correct {[ 0%nat := a ]} 0 0 a a); [reflexivity..|].
  repeat split; vm_compute; congruence.
Defined.

(** The external TAI64NA format: a packed time stamp occupies sixteen
    bytes, unpacks to itself whatever follows, and labels sort: comparing the
    packed bytes with [byte_diff] orders time stamps as [taia_less] does. *)
Theorem taia_pack_sorts (m : list Z) (s : nat) (a b : taia) :
  normal a -> normal b -> (s + 16 <= length m)%nat ->
  exists ma mb d, taia_pack m s a = Some ma /\ taia_pack m s b = Some mb /\
    length ma = length m /\ taia_unpack (drop s ma) = Some a /\
    byte_diff (drop s ma) 16 (drop s mb) = Some d /\
    (d < 0 <-> taia_less a b = true) /\ (d = 0 <-> a = b).
Proof.
  intros Ha Hb Hs. pose proof Ha as (Hxa & Hna & Haa).
  pose proof Hb as (Hxb & Hnb & Hab). unfold giga in *.
  assert (forall t, is_u64 (tai_x (sec t)) -> exists m', taia_pack m s t = Some m' /\
    length m' = length m /\ exists r, drop s m' = taia_image t ++ r) as Hp.
  { intros t Ht. exists (splice m s (taia_image t)).
    split; [by apply taia_pack_spec|].
    split; [by rewrite splice_length|]. unfold splice.
    exists (drop (s + length (taia_image t)) m).
    by rewrite drop_app_ge, length_take, Nat.min_l, Nat.sub_diag, drop_0
      by (rewrite ?length_take; lia). }
  destruct (Hp a Hxa) as (ma & Ea & La & ra & Da).
  destruct (Hp b Hxb) as (mb & Eb & _ & rb & Db).
  assert (exists d, byte_diff (drop s ma) 16 (drop s mb) = Some d /\
    (d < 0 <-> taia_less a b = true) /\ (d = 0 <-> a = b)) as (d & Ed & Hd).
  2: { exists ma, mb, d. rewrite Da at 1. by rewrite taia_unpack_image. }
  rewrite Da, Db. unfold taia_image. rewrite <- !app_assoc. unfold is_u64 in *.
  unfold taia_less. destruct a as [[xa] na aa], b as [[xb] nb ab].
  cbn [sec nano atto tai_x] in *.
  pose proof (be_diff (be_bytes 4 na ++ be_bytes 4 aa ++ ra)
    (be_bytes 4 nb ++ be_bytes 4 ab ++ rb) 8 8 xa xb Hxa Hxb) as D1.
  pose proof (be_diff (be_bytes 4 aa ++ ra) (be_bytes 4 ab ++ rb) 4 4 na nb) as D2.
  pose proof (be_diff ra rb 0 4 aa ab) as D3.
  change (256 ^ Z.of_nat 4) with 4294967296 in *.
  specialize (D2 ltac:(lia) ltac:(lia)). specialize (D3 ltac:(lia) ltac:(lia)).
  change (8 + 8)%nat with 16%nat in D1. change (4 + 4)%nat with 8%nat in D2.
  change (4 + 0)%nat with 4%nat in D3.
  destruct (Z.eqb_spec xa xb) as [->|].
  2: { destruct D1 as (d & -> & H0 & H). exists d. split; [done|].
       split; [zcases; split; intros; try done; lia|].
       split; [done|intros [=]; done]. }
  rewrite D1, Z.ltb_irrefl. destruct (Z.eqb_spec na nb) as [->|].
  2: { destruct D2 as (d & -> & H0 & H). exists d. split; [done|].
       split; [zcases; split; intros; try done; lia|].
       split; [done|intros [=]; done]. }
  rewrite D2, Z.ltb_irrefl. destruct (Z.eqb_spec aa ab) as [->|].
  2: { destruct D3 as (d & -> & H0 & H). exists d. split; [done|].
       split; [rewrite Z.ltb_lt; lia|]. split; [done|intros [=]; done]. }
  rewrite D3. exists 0. split; [done|]. split; [rewrite Z.ltb_lt; lia|done].
Qed.

Lemma taia_pack_sorts_witness :
  exists ma mb d,
    taia_pack (replicate 16 0) 0 (Taia (Tai 5) 3 1) = Some ma /\
    taia_pack (replicate 16 0) 0 (Taia (Tai 5) 2 7) = Some mb /\
    byte_diff (drop 0 ma) 16 (drop 0 mb) = Some d /\
    (d < 0 <-> false = true).
Proof.
  destruct (taia_pack_sorts (replicate 16 0) 0 (Taia (Tai 5) 3 1) (Taia (Tai 5) 2 7))
    as (ma & mb & d & H1 & H2 & _ & _ & H3 & H4 & _);
    [repeat split; vm_compute; congruence..|simpl; lia|].
  exists ma, mb, d. auto.
Defined.
