(* ===== verification/SafeMult.v ===== *)
(** Overflow-checked products and address-range checks: [lib/safemult/] (the
    portable bodies, used when the compiler has no overflow builtins) and
    [lib/rangecheck.h].  Addresses are unsigned 64-bit integers; [None] from a
    product is the return value 0, nothing stored. *)
From S2P Require Import Prelude.

(** * Products *)

Definition umult16 (a b : Z) : option Z :=
  let x := u64 (a * b) in
  if 65535 <? x then None else Some (Z.land x 65535).

Definition umult32 (a b : Z) : option Z :=
  let x := u64 (a * b) in
  if 4294967295 <? x then None else Some (Z.land x 4294967295).

(** The product of two 16-bit (32-bit) integers fits in 32 (64) bits. *)
Definition imult16 (a b : Z) : option Z :=
  let x := a * b in
  if negb (s16 x =? x) then None else Some (s16 x).

Definition imult32 (a b : Z) : option Z :=
  let x := a * b in
  if negb (s32 x =? x) then None else Some (s32 x).

Definition umult64 (a b : Z) : option Z :=
  let ahi := u32 (Z.shiftr a 32) in
  let alo := u32 (Z.land a 4294967295) in
  let bhi := u32 (Z.shiftr b 32) in
  let blo := u32 (Z.land b 4294967295) in
  if negb (ahi =? 0) && negb (bhi =? 0) then None else
  let a := u64 (u64 (ahi * blo) + u64 (alo * bhi)) in
  if 4294967295 <? a then None else
  let x := u64 (alo * blo) in
  let y := u64 (x + u64 (Z.shiftl a 32)) in
  if y <? x then None else Some y.

(** The outer [None] is the undefined negation of the smallest integer. *)
Definition imult64 (a b : Z) : option (option Z) :=
  let neg := a <? 0 in
  a ← (if neg then chk64 (- a) else Some a);
  let neg' := if b <? 0 then negb neg else neg in
  b ← (if b <? 0 then chk64 (- b) else Some b);
  Some (d ← umult64 (u64 a) (u64 b);
        if u64 (9223372036854775807 + c_bool neg') <? d then None
        else Some (s64 (if neg' then u64 (- d) else d))).

(** * Ranges *)

Definition range_ptrinbuf (buf len ptr : Z) : bool :=
  negb (buf =? 0) && (buf <? u64 (buf + len)) && (u64 (ptr - buf) <? len).

Definition range_ptrinbuf2 (Min Max ptr : Z) : bool :=
  negb (Min =? 0) && (Min <=? ptr) && (ptr <? Max).

Definition range_validbuf (buf len : Z) : bool :=
  negb (buf =? 0) && (buf <=? u64 (buf + len)).

Definition range_validbuf2 (Min Max : Z) : bool :=
  negb (Min =? 0) && (Min <=? Max).

Definition range_bufinbuf (buf1 len1 buf2 len2 : Z) : bool :=
  range_validbuf buf1 len1 && range_validbuf buf2 len2 &&
  ((buf1 <=? buf2) && (u64 (buf2 + len2) <=? u64 (buf1 + len1))).

Definition range_arrayinbuf (buf1 len arraystart elements membersize : Z)
  : bool :=
  match umult64 elements membersize with
  | None => false
  | Some alen => range_bufinbuf buf1 len arraystart alen
  end.

(** The strings are read from the object [m] that starts at the address
    [buf]; [k] is the number of characters left before [y]. *)
Fixpoint str_run (m : list Z) (o width k : nat) : option bool :=
  match k with
  | O => Some false
  | S k' =>
      l ← mapM (load m) (seq o width);
      if forallb (Z.eqb 0) l then Some true else str_run m (o + width) width k'
  end.

Definition range_strinbuf (m : list Z) (buf len stringstart : Z)
  : option bool :=
  if negb (range_ptrinbuf buf len stringstart) then Some false
  else str_run m (Z.to_nat (stringstart - buf)) 1 (Z.to_nat len).

Definition range_str2inbuf (m : list Z) (buf len stringstart : Z)
  : option bool :=
  if negb (range_ptrinbuf buf len stringstart) then Some false
  else str_run m (Z.to_nat (stringstart - buf)) 2 (Z.to_nat (len / 2)).

Definition range_str4inbuf (m : list Z) (buf len stringstart : Z)
  : option bool :=
  if negb (range_ptrinbuf buf len stringstart) then Some false
  else str_run m (Z.to_nat (stringstart - buf)) 4 (Z.to_nat (len / 4)).

(** * Lemmas *)

Lemma mul32_u64 (a b : Z) :
  0 <= a < 4294967296 -> 0 <= b < 4294967296 -> is_u64 (a * b).
Proof. unfold is_u64. nia. Qed.

(** The recombination when one high half is zero. *)
Lemma umult64_join (p q : Z) :
  is_u64 p -> is_u64 q ->
  (if 4294967295 <? q then None else
   if u64 (p + u64 (q * 4294967296)) <? p then None
   else Some (u64 (p + u64 (q * 4294967296)))) =
  if q * 4294967296 + p <? 18446744073709551616
  then Some (q * 4294967296 + p) else None.
Proof.
  unfold is_u64. intros Hp Hq. destruct (Z.ltb_spec 4294967295 q).
  - by zfalse (q * 4294967296 + p <? 18446744073709551616).
  - rewrite (u64_id (q * 4294967296)) by (unfold is_u64; lia).
    destruct (Z.ltb_spec (q * 4294967296 + p) 18446744073709551616).
    + rewrite u64_id by (unfold is_u64; lia).
      zfalse (p + q * 4294967296 <? p). f_equal. lia.
    + by replace (u64 (p + q * 4294967296) <? p) with true by zmod.
Qed.

Lemma umult64_spec (a b : Z) :
  is_u64 a -> is_u64 b ->
  umult64 a b = if a * b <? 18446744073709551616 then Some (a * b) else None.
Proof.
  unfold is_u64. intros Ha Hb. unfold umult64.
  rewrite !(land_low _ 32), !Z.shiftr_div_pow2, !Z.shiftl_mul_pow2 by done.
  change (2 ^ 32) with 4294967296.
  assert (exists ah al, a = ah * 4294967296 + al /\ 0 <= ah < 4294967296 /\
    0 <= al < 4294967296 /\ a / 4294967296 = ah /\ a mod 4294967296 = al)
    as (ah & al & Ea & Hah & Hal & -> & ->).
  { exists (a / 4294967296), (a mod 4294967296). repeat split; zmod. }
  assert (exists bh bl, b = bh * 4294967296 + bl /\ 0 <= bh < 4294967296 /\
    0 <= bl < 4294967296 /\ b / 4294967296 = bh /\ b mod 4294967296 = bl)
    as (bh & bl & Eb & Hbh & Hbl & -> & ->).
  { exists (b / 4294967296), (b mod 4294967296). repeat split; zmod. }
  rewrite !u32_id by done. subst a b. clear Ha Hb.
  pose proof (mul32_u64 al bl Hal Hbl). pose proof (mul32_u64 al bh Hal Hbh).
  pose proof (mul32_u64 ah bl Hah Hbl).
  destruct (Z.eqb_spec ah 0) as [->|Hah0], (Z.eqb_spec bh 0) as [->|Hbh0];
    cbn [negb andb]; cbv zeta.
  - rewrite Z.mul_0_l, Z.mul_0_r, (u64_id (al * bl)) by done.
    change (u64 (u64 0 + u64 0)) with 0.
    rewrite (umult64_join (al * bl) 0) by done. by rewrite !Z.add_0_l.
  - rewrite Z.mul_0_l. change (u64 0) with 0. rewrite Z.add_0_l.
    rewrite !(u64_id (al * bh)), (u64_id (al * bl)) by (rewrite ?u64_id; done).
    rewrite umult64_join by done.
    by replace ((0 * 4294967296 + al) * (bh * 4294967296 + bl))
      with (al * bh * 4294967296 + al * bl) by ring.
  - rewrite Z.mul_0_r. change (u64 0) with 0. rewrite Z.add_0_r.
    rewrite !(u64_id (ah * bl)), (u64_id (al * bl)) by (rewrite ?u64_id; done).
    rewrite umult64_join by done.
    by replace ((ah * 4294967296 + al) * (0 * 4294967296 + bl))
      with (ah * bl * 4294967296 + al * bl) by ring.
  - replace (_ <? 18446744073709551616) with false; [done|].
    symmetry. apply Z.ltb_ge. nia.
Qed.

Lemma range_bufinbuf_spec (buf1 len1 buf2 len2 : Z) :
  is_u64 buf1 -> is_u64 len1 -> is_u64 buf2 -> is_u64 len2 ->
  range_bufinbuf buf1 len1 buf2 len2 = true <->
  buf1 <> 0 /\ buf1 + len1 < 18446744073709551616 /\
  buf1 <= buf2 /\ buf2 + len2 <= buf1 + len1.
Proof. unfold range_bufinbuf, range_validbuf. intros. zmod. Qed.

Lemma str_run_None (m : list Z) (k : nat) : forall o,
  (o <= length m < o + k)%nat -> Forall (fun c => c <> 0) (drop o m) ->
  str_run m o 1 k = None.
Proof.
  induction k as [|k IH]; intros o Ho Hz; [lia|].
  cbn [str_run]. destruct (m !! o) as [c|] eqn:E.
  2: { assert (mapM (load m) (seq o 1) = None) as -> by
         (simpl; unfold load; by rewrite E). done. }
  assert (mapM (load m) (seq o 1) = Some [c]) as -> by
    (simpl; unfold load; by rewrite E).
  rewrite (drop_S _ c) in Hz by done. inversion Hz; subst.
  cbn [mbind option_bind forallb].
  replace (0 =? c) with false by lia. cbn [andb].
  replace (o + 1)%nat with (S o) by lia. apply IH; [|done].
  apply lookup_lt_Some in E. lia.
Qed.

(** * Properties *)

(** C38: the portable 64-bit products are exact: [umult64] stores the product
    and succeeds exactly when it fits in 64 unsigned bits, [imult64] when it
    fits in 64 signed bits, except that the most negative integer as an
    argument is negated first, which is undefined. *)
Theorem mult64_exact (a b : Z) :
  (is_u64 a -> is_u64 b ->
   umult64 a b = if decide (is_u64 (a * b)) then Some (a * b) else None) /\
  (is_s64 a -> is_s64 b ->
   imult64 a b =
     if decide (a = -9223372036854775808 \/ b = -9223372036854775808) then None
     else Some (if decide (is_s64 (a * b)) then Some (a * b) else None)).
Proof.
  split.
  - intros Ha Hb. rewrite umult64_spec by done. unfold is_u64 in *.
    zcase1; case_decide; try done; nia.
  - unfold is_s64. intros Ha Hb. unfold imult64.
    assert (forall x, -9223372036854775808 <= x < 9223372036854775808 ->
      (if x <? 0 then chk64 (- x) else Some x) =
      if decide (x = -9223372036854775808) then None else Some (Z.abs x)) as Hneg.
    { intros x Hx. unfold chk64. case_decide; zcases; f_equal; lia. }
    rewrite !Hneg by done.
    destruct (decide (a = -9223372036854775808)) as [->|Ha'];
      [by rewrite (decide_True (P := _ \/ _)) by tauto|]. cbn [mbind option_bind].
    destruct (decide (b = -9223372036854775808)) as [->|Hb'];
      [by rewrite (decide_True (P := _ \/ _)) by tauto|]. cbn [mbind option_bind].
    rewrite (decide_False (P := _ \/ _)) by tauto. f_equal.
    rewrite (u64_id (Z.abs a)), (u64_id (Z.abs b)), umult64_spec by (unfold is_u64; lia).
    rewrite <- Z.abs_mul.
    replace (if b <? 0 then negb (a <? 0) else a <? 0)
      with (xorb (a <? 0) (b <? 0)) by (zcases; done).
    assert (xorb (a <? 0) (b <? 0) = true -> a * b <= 0) as S1
      by (zcases; intros; try done; nia).
    assert (xorb (a <? 0) (b <? 0) = false -> 0 <= a * b) as S2
      by (zcases; intros; try done; nia).
    generalize dependent (a * b). intros p S1 S2.
    destruct (xorb (a <? 0) (b <? 0)); cbn [c_bool];
      [specialize (S1 eq_refl); clear S2|specialize (S2 eq_refl); clear S1];
      destruct (Z.ltb_spec (Z.abs p) 18446744073709551616);
      cbn [mbind option_bind]; try (rewrite decide_False by lia; done);
      case_decide; zcase1; try done; try zmod; f_equal; zmod.
Qed.

Lemma mult64_exact_witness :
  umult64 4294967296 4294967295 = Some 18446744069414584320 /\
  imult64 (-3037000500) 3037000500 = Some None.
Proof.
  split.
  - destruct (mult64_exact 4294967296 4294967295) as [H _].
    apply H; split; reflexivity || discriminate.
  - destruct (mult64_exact (-3037000500) 3037000500) as [_ H].
    apply H; split; reflexivity || discriminate.
Defined.

(** [range_arrayinbuf] answers yes exactly when the buffer is not [NULL]
    and does not wrap around the address space, and the whole array, computed
    without overflow, lies between its ends. *)
Theorem range_arrayinbuf_exact (buf len arr elements size : Z) :
  is_u64 buf -> is_u64 len -> is_u64 arr -> is_u64 elements -> is_u64 size ->
  range_arrayinbuf buf len arr elements size = true <->
  buf <> 0 /\ buf + len < 18446744073709551616 /\
  buf <= arr /\ arr + elements * size <= buf + len.
Proof.
  intros Hb Hl Ha He Hs. unfold range_arrayinbuf.
  rewrite umult64_spec by done.
  assert (0 <= elements * size) by (unfold is_u64 in *; nia).
  destruct (Z.ltb_spec (elements * size) 18446744073709551616).
  - rewrite range_bufinbuf_spec by (unfold is_u64 in *; lia). done.
  - unfold is_u64 in *. split; [done|lia].
Qed.

Lemma range_arrayinbuf_exact_witness :
  range_arrayinbuf 4096 64 4100 3 16 = true <->
  4096 <> 0 /\ 4096 + 64 < 18446744073709551616 /\
  4096 <= 4100 /\ 4100 + 3 * 16 <= 4096 + 64.
Proof.
  apply (range_arrayinbuf_exact 4096 64 4100 3 16);
    split; reflexivity || discriminate.
Defined.

(** [range_strinbuf] bounds its search by [len] bytes from the string, not
    by the end of the buffer: for a string that starts behind the first byte of
    the buffer and is not terminated in it, the check itself reads past the
    buffer. *)
Theorem range_strinbuf_overread (m : list Z) (buf ptr : Z) :
  0 < buf -> buf + Z.of_nat (length m) < 18446744073709551616 ->
  buf < ptr < buf + Z.of_nat (length m) ->
  Forall (fun c => c <> 0) (drop (Z.to_nat (ptr - buf)) m) ->
  range_strinbuf m buf (Z.of_nat (length m)) ptr = None.
Proof.
  intros H1 H2 H3 Hz. unfold range_strinbuf, range_ptrinbuf.
  rewrite !u64_id by (unfold is_u64; lia).
  replace (negb (buf =? 0)) with true by lia.
  ztrue (buf <? buf + Z.of_nat (length m)).
  ztrue (ptr - buf <? Z.of_nat (length m)). cbn [andb negb].
  apply str_run_None; [lia|done].
Qed.

Lemma range_strinbuf_overread_witness :
  range_strinbuf (lit "abc") 4096 3 4097 = None.
Proof.
  apply (range_strinbuf_overread (lit "abc") 4096 4097);
    [reflexivity|reflexivity|split; reflexivity|].
  repeat constructor; discriminate.
Defined.
