(* ===== verification/Utf8.v ===== *)
(** Text encodings: the UTF-8 routines of [lib/fmt/] and [lib/scan/], the
    wide-character ones of [lib/utf8/] and the Latin-1 ones of [lib/ucs/].
    [wchar_t] is a signed 32-bit integer. *)
From S2P Require Import Prelude StrOps.

(** * [fmt_utf8], [scan_utf8] *)

(** [k] continuation bytes, the bits of [n] from [6 * k] down. *)
Fixpoint cont_bytes (n : Z) (k : nat) : list Z :=
  match k with
  | O => []
  | S k' =>
      u8 (Z.lor 128 (Z.land (Z.shiftr n (6 * Z.of_nat k')) 63))
        :: cont_bytes n k'
  end.

(** [for(i = 0x3f, j = 1; i < 0x7fffffff; i = (i << 5) | 0x1f, ++j)]: the
    number of continuation bytes. *)
Fixpoint utf8_size (n i : Z) (j fuel : nat) : option nat :=
  match fuel with
  | O => None
  | S fuel' =>
      if i <? 2147483647 then
        if n <=? i then Some (j - 1)%nat
        else utf8_size n (Z.lor (u64 (Z.shiftl i 5)) 31) (S j) fuel'
      else None
  end.

Definition fmt_utf8 (dest : bool) (n : Z) : out :=
  if n <=? 127 then (if dest then [n] else [], 1%nat) else
  match utf8_size n 63 1 7 with
  | Some j =>
      (if dest then
         u8 (Z.lor (Z.shiftr (-64) (Z.of_nat j - 1))
                   (s8 (Z.shiftr n (6 * Z.of_nat j)))) :: cont_bytes n j
       else [], S j)
  | None => ([], O)
  end.

(** [for(k = 0; i & 0x80; i <<= 1, ++k)]; the first byte has a clear bit. *)
Fixpoint lead_ones (i : Z) (k fuel : nat) : Z * nat :=
  match fuel with
  | O => (i, k)
  | S fuel' =>
      if Z.land i 128 =? 0 then (i, k)
      else lead_ones (u32 (Z.shiftl i 1)) (S k) fuel'
  end.

(** [while(k > 1)]; gives [None] where the code returns 0. *)
Fixpoint utf8_cont (s : list Z) (i : Z) (k : nat) : option (option Z) :=
  match k with
  | O => Some (Some i)
  | S k' =>
      c ← load s 0;
      if negb (Z.land (s8 c) 192 =? 128) then Some None
      else utf8_cont (tail s)
             (Z.lor (u32 (Z.shiftl i 6)) (Z.land (s8 c) 63)) k'
  end.

(** The number of bytes and the value stored. *)
Definition scan_utf8 (s : list Z) (len : nat) : option (nat * option Z) :=
  if (len =? 0)%nat then Some (O, None) else
  i ← load s 0;
  if (254 <=? i) || (Z.land i 192 =? 128) then Some (O, None) else
  let '(i, k) := lead_ones i 0 8 in
  if (k =? 0)%nat then Some (1%nat, Some i) else
  if (len <? k)%nat then Some (O, None) else
  let i := Z.shiftr (Z.land i 255) (Z.of_nat k) in
  let m := Z.shiftl 1 (Z.of_nat k * 5 - 4 + c_bool (k =? 2)%nat) in
  r ← utf8_cont (tail s) i (k - 1);
  match r with
  | None => Some (O, None)
  | Some i => if i <? m then Some (O, None) else Some (k, Some i)
  end.

(** The value is stored even when the length returned is 0. *)
Definition scan_utf8_sem (s : list Z) (len : nat)
  : option (nat * option Z) :=
  '(r, v) ← scan_utf8 s len;
  match v with
  | None => Some (r, v)
  | Some n =>
      if (0 <? r)%nat &&
         (((55296 <=? n) && (n <=? 57343)) ||
          (Z.land n 65534 =? 65534) ||
          ((64976 <=? n) && (n <=? 65007)))
      then Some (O, v) else Some (r, v)
  end.

(** * Wide characters *)

Definition mask (w m : Z) : bool := Z.land w m =? 0.

Definition wcu8len (w : Z) : Z :=
  if mask w (Z.lnot 127) then 1
  else if mask w (Z.lnot 2047) then 2
  else if mask w (Z.lnot 65535) then 3
  else if mask w (Z.lnot 2097151) then 4
  else -1.

(** The [k]-th group of six bits, with a tag. *)
Definition bits (w k m tag : Z) : Z := u8 (Z.lor (Z.land (Z.shiftr w k) m) tag).

(** The character and a terminator behind it, at [p]. *)
Definition wctou8 (m : list Z) (p : nat) (w : Z) : option (list Z * Z) :=
  if mask w (Z.lnot 127) then
    m ← store m p (u8 (Z.land w 127));
    m ← store m (p + 1) 0; Some (m, 1)
  else if mask w (Z.lnot 2047) then
    m ← store m p (bits w 6 31 192);
    m ← store m (p + 1) (bits w 0 63 128);
    m ← store m (p + 2) 0; Some (m, 2)
  else if mask w (Z.lnot 65535) then
    m ← store m p (bits w 12 15 224);
    m ← store m (p + 1) (bits w 6 63 128);
    m ← store m (p + 2) (bits w 0 63 128);
    m ← store m (p + 3) 0; Some (m, 3)
  else if mask w (Z.lnot 2097151) then
    m ← store m p (bits w 18 7 240);
    m ← store m (p + 1) (bits w 12 63 128);
    m ← store m (p + 2) (bits w 6 63 128);
    m ← store m (p + 3) (bits w 0 63 128);
    m ← store m (p + 4) 0; Some (m, 4)
  else Some (m, -1).

(** [None] as the pointer is [NULL]. *)
Definition u8len (u : option (list Z)) (count : nat) : option Z :=
  if (count =? 0)%nat then Some 0 else
  match u with
  | None => Some 0
  | Some u =>
      c ← load u 0;
      let c := s8 c in
      if c =? 0 then Some 0
      else if mask c (Z.lnot 127) then Some 1
      else if Z.land c 224 =? 192 then Some 2
      else if Z.land c 240 =? 224 then Some 3
      else if Z.land c 248 =? 240 then Some 4
      else Some (-1)
  end.

(** [(u[i] & 0xc0) != 0x80] *)
Definition not_cont (c : Z) : bool := negb (Z.land (s8 c) 192 =? 128).

(** The return value and the character stored through [w], which is not
    [NULL]. *)
Definition u8towc (u : list Z) : option (Z * option Z) :=
  len ← u8len (Some u) 1;
  if len <? 1 then Some (len, None) else
  c0 ← load u 0;
  if len =? 1 then Some (len, Some (Z.land (s8 c0) 127)) else
  if len =? 2 then
    c1 ← load u 1;
    if not_cont c1 then Some (-1, None) else
    Some (2, Some (Z.lor (Z.shiftl (Z.land (s8 c0) 31) 6) (Z.land (s8 c1) 63)))
  else if len =? 3 then
    c1 ← load u 1;
    if not_cont c1 then Some (-1, None) else
    c2 ← load u 2;
    if not_cont c2 then Some (-1, None) else
    Some (3, Some (Z.lor (Z.lor (Z.shiftl (Z.land (s8 c0) 15) 12)
                                (Z.shiftl (Z.land (s8 c1) 63) 6))
                         (Z.land (s8 c2) 63)))
  else if len =? 4 then
    c1 ← load u 1;
    if not_cont c1 then Some (-1, None) else
    c2 ← load u 2;
    if not_cont c2 then Some (-1, None) else
    c3 ← load u 3;
    if not_cont c3 then Some (-1, None) else
    Some (4, Some (Z.lor (Z.lor (Z.lor (Z.shiftl (Z.land (s8 c0) 7) 18)
                                       (Z.shiftl (Z.land (s8 c1) 63) 12))
                                (Z.shiftl (Z.land (s8 c2) 63) 6))
                         (Z.land (s8 c3) 63)))
  else Some (-1, None).

(** The counts are [int]s; the strings are shorter than 2^31 / 6. *)
Fixpoint wcsu8slen (pw : list Z) : option Z :=
  match pw with
  | [] => None
  | w :: pw' =>
      if w =? 0 then Some 0 else
      n ← wcsu8slen pw';
      chk32 (n + (if mask w (Z.lnot 127) then 1
                  else if mask w (Z.lnot 2047) then 2
                  else if mask w (Z.lnot 65535) then 3
                  else if mask w (Z.lnot 2097151) then 4
                  else 6))
  end.

(** The advance and the width of the character at the pointer; [fuel] is the
    number of bytes left. *)
Fixpoint u8swcslen_loop (u : list Z) (len : Z) (fuel : nat) : option Z :=
  match fuel with
  | O => None
  | S fuel' =>
      c ← load u 0;
      let c := s8 c in
      if c =? 0 then Some len
      else if Z.land c 128 =? 0 then
        l ← chk32 (len + 1); u8swcslen_loop (drop 1 u) l fuel'
      else if Z.land c 224 =? 192 then
        l ← chk32 (len + 1); u8swcslen_loop (drop 2 u) l fuel'
      else if Z.land c 240 =? 224 then
        l ← chk32 (len + 1); u8swcslen_loop (drop 3 u) l fuel'
      else if Z.land c 248 =? 240 then
        l ← chk32 (len + 1); u8swcslen_loop (drop 4 u) l fuel'
      else l ← chk32 (len + 6); u8swcslen_loop (drop 1 u) l fuel'
  end.

Definition u8swcslen (u : list Z) : option Z :=
  u8swcslen_loop u 0 (S (length u)).

(** [pw] is the array of wide characters written, [None] for [NULL]; the
    result is the array and the count, or the code's [(size_t)-1]. *)
Fixpoint u8stowcs_loop (pw : list Z) (u : list Z) (clen count fuel : nat)
  : option (list Z * option nat) :=
  match fuel with
  | O => None
  | S fuel' =>
      c ← load u 0;
      if (c =? 0) || negb (clen <? count)%nat then
        if (c =? 0) && (clen <? count)%nat
        then pw ← store pw clen 0; Some (pw, Some (S clen))
        else Some (pw, Some clen)
      else
        '(ulen, w) ← u8towc u;
        pw ← (match w with Some w => store pw clen w | None => Some pw end);
        if ulen <? 0 then Some (pw, None)
        else u8stowcs_loop pw (drop (Z.to_nat ulen) u) (S clen) count fuel'
  end.

Definition u8stowcs (pw : option (list Z)) (u : list Z) (count : nat)
  : option (list Z * option nat) :=
  match pw with
  | None => n ← u8swcslen u; Some ([], Some (Z.to_nat n))
  | Some pw => u8stowcs_loop pw u 0 count (S (length u))
  end.

(** The loop of [wcstou8s] with the output position [pu]; only characters
    that can be encoded count in [clen]. *)
Fixpoint wcstou8s_loop (m : list Z) (pu : nat) (pw : list Z) (clen count : Z)
  : option (list Z * Z) :=
  match pw with
  | [] => None
  | w :: pw' =>
      if w =? 0 then Some (m, clen) else
      let ulen := wcu8len w in
      if 0 <=? ulen then
        if clen + ulen <=? count then
          '(m, n) ← wctou8 m pu w;
          wcstou8s_loop m (pu + Z.to_nat ulen) pw' (clen + n) count
        else Some (m, clen)
      else if clen + 6 <=? count then
        m ← store m pu 38; m ← store m (pu + 1) 35;
        m ← store m (pu + 2) 120; m ← store m (pu + 3) 48;
        m ← store m (pu + 4) 48; m ← store m (pu + 5) 59;
        wcstou8s_loop m (pu + 6) pw' clen count
      else Some (m, clen)
  end.

Definition wcstou8s (dest : option (list Z)) (pw : list Z) (count : Z)
  : option (list Z * Z) :=
  len ← wcsu8slen pw;
  match dest with
  | None => Some ([], len)
  | Some m => wcstou8s_loop m 0 pw 0 count
  end.

(** * Latin-1 *)

(** The table holds 128 zeros. *)
Definition ucs_latin1_table : list Z := replicate 128 0.

Definition ucs_from_latin1_char (ch : Z) : Z :=
  let c := u8 ch in
  if 128 <=? c then nth (Z.to_nat (Z.land c 127)) ucs_latin1_table 0 else c.

Fixpoint table_find (t : list Z) (ch : Z) (i : Z) : Z :=
  match t with
  | [] => 0
  | x :: t' => if x =? ch then u8 (128 + i) else table_find t' ch (i + 1)
  end.

Definition ucs_to_latin1_char (ch : Z) : Z :=
  if (ch <? 128) || (Z.land (u32 ch) 4294967040 =? 0) then u8 ch
  else table_find ucs_latin1_table ch 0.

Definition fmt_latin1_utf8 (dest : bool) (ch : Z) : out :=
  fmt_utf8 dest (ucs_from_latin1_char ch).

(** The number of bytes read and the character stored. *)
Definition scan_latin1_utf8 (x : list Z) (n : nat)
  : option (nat * option Z) :=
  '(ret, wc) ← scan_utf8 x n;
  if (ret =? 0)%nat then Some (ret, None)
  else Some (ret, option_map (fun v => ucs_to_latin1_char (s32 v)) wc).

(** In place: [r] reads and [w] writes.  A loop may also not end: [Spin] is
    running out of fuel. *)
Inductive spin (A : Type) :=
  | Done (a : A)
  | Undef
  | Spin.
Arguments Done {A} a.
Arguments Undef {A}.
Arguments Spin {A}.

Fixpoint latin1_loop (m : list Z) (len r w fuel : nat)
  : spin (list Z * nat) :=
  match fuel with
  | O => Spin
  | S fuel' =>
      match load m r with
      | None => Undef
      | Some c =>
          if c =? 0 then
            match store m w 0 with
            | Some m => Done (m, w)
            | None => Undef
            end
          else
            match scan_latin1_utf8 (drop r m) (len - r) with
            | None => Undef
            | Some (i, v) =>
                match (match v with
                       | Some v => store m w v
                       | None => Some m
                       end) with
                | None => Undef
                | Some m => latin1_loop m len (r + i) (S w) fuel'
                end
            end
      end
  end.

Definition str_utf8_latin1 (m : list Z) (fuel : nat) : spin (list Z * nat) :=
  match str_len m with
  | None => Undef
  | Some len => latin1_loop m len 0 0 fuel
  end.

(** * Lemmas *)

(** The first byte for [j] continuation bytes and high bits [h]. *)
Definition lead_byte (j : nat) (h : Z) : Z :=
  u8 (Z.lor (Z.shiftr (-64) (Z.of_nat j - 1)) (s8 h)).

Definition lead_ok (j : nat) (h : Z) : bool :=
  let b := lead_byte j h in
  let '(i, k) := lead_ones b 0 8 in
  negb ((254 <=? b) || (Z.land b 192 =? 128)) && (k =? S j)%nat &&
  (Z.shiftr (Z.land i 255) (Z.of_nat k) =? h) && (0 <=? b) && (b <? 256).

Lemma lead_byte_spec (j : nat) (h : Z) :
  (1 <= j <= 5)%nat -> 0 <= h < 2 ^ (6 - Z.of_nat j) -> lead_ok j h = true.
Proof.
  intros Hj Hh.
  assert (forallb (fun j => forallb (fun h => (2 ^ (6 - Z.of_nat j) <=? h) ||
    lead_ok j h) all_bytes) (seq 1 5) = true) as F by (vm_compute; reflexivity).
  rewrite forallb_forall in F. specialize (F j). rewrite in_seq in F.
  specialize (F ltac:(lia)).
  assert (2 ^ (6 - Z.of_nat j) <= 2 ^ 6) by (apply Z.pow_le_mono_r; lia).
  assert (is_u8 h) as Hb by (unfold is_u8; lia).
  pose proof (byte_forall _ F h Hb) as G. cbv beta in G.
  replace (2 ^ (6 - Z.of_nat j) <=? h) with false in G by lia. exact G.
Qed.

Definition cont_byte (d : Z) : Z := u8 (Z.lor 128 (Z.land d 63)).

Lemma cont_byte_spec (x : Z) :
  is_u8 (cont_byte x) /\ Z.land (s8 (cont_byte x)) 192 = 128 /\
  Z.land (s8 (cont_byte x)) 63 = x mod 64.
Proof.
  unfold cont_byte. rewrite (land_low x 6) by done. change (2 ^ 6) with 64.
  set (d := x mod 64). assert (is_u8 d /\ d < 64) as [H1 H2] by (unfold d; zmod).
  clearbody d.
  assert ((64 <=? d) || ((Z.land (s8 (u8 (Z.lor 128 d))) 192 =? 128) &&
    (Z.land (s8 (u8 (Z.lor 128 d))) 63 =? d)) = true) as F by by_bytes d.
  split; [apply u8_range|]. lia.
Qed.

Lemma cont_byte_inv (c : Z) :
  is_u8 c -> Z.land (s8 c) 192 = 128 ->
  forall y, cont_byte (y * 64 + Z.land (s8 c) 63) = c.
Proof.
  intros Hc Ht y. unfold cont_byte. rewrite (land_low _ 6) by done.
  change (2 ^ 6) with 64.
  assert (0 <= Z.land (s8 c) 63 < 64) as Hr.
  { rewrite (land_low _ 6) by done. change (2 ^ 6) with 64. zmod. }
  rewrite Z.add_comm, Z_mod_plus_full, Z.mod_small by lia.
  assert (negb (Z.land (s8 c) 192 =? 128) ||
    (u8 (Z.lor 128 (Z.land (s8 c) 63)) =? c) = true) as F by by_bytes c.
  lia.
Qed.

Lemma cont_join (i d : Z) :
  0 <= i < 67108864 -> 0 <= d < 64 ->
  Z.lor (u32 (Z.shiftl i 6)) d = i * 64 + d.
Proof.
  intros Hi Hd. rewrite Z.shiftl_mul_pow2 by lia.
  rewrite u32_id by (unfold is_u32; lia). by rewrite (lor_add i d 6) by lia.
Qed.

Lemma shiftr6 (n : Z) (k : nat) : Z.shiftr n (6 * Z.of_nat k) = n / 64 ^ Z.of_nat k.
Proof. by rewrite Z.shiftr_div_pow2, Z.pow_mul_r by lia. Qed.

Lemma div64_S (n : Z) (k : nat) :
  n / 64 ^ Z.of_nat k = n / 64 ^ Z.of_nat (S k) * 64 + n / 64 ^ Z.of_nat k mod 64.
Proof.
  rewrite Nat2Z.inj_succ, Z.pow_succ_r, (Z.mul_comm 64), <- Z.div_div by lia.
  pose proof (Z.div_mod (n / 64 ^ Z.of_nat k) 64). lia.
Qed.

Lemma utf8_cont_spec (n : Z) (r : list Z) (k : nat) :
  0 <= n < 2147483648 ->
  utf8_cont (cont_bytes n k ++ r) (n / 64 ^ Z.of_nat k) k = Some (Some n).
Proof.
  intros Hn. induction k as [|k IH]; cbn [utf8_cont cont_bytes app].
  - change (64 ^ Z.of_nat 0) with 1. by rewrite Z.div_1_r.
  - change (load _ 0) with (Some (cont_byte (Z.shiftr n (6 * Z.of_nat k)))).
    cbn [mbind option_bind tail].
    destruct (cont_byte_spec (Z.shiftr n (6 * Z.of_nat k))) as (_ & -> & ->).
    change (128 =? 128) with true. cbn [negb]. rewrite shiftr6, cont_join.
    + by rewrite <- div64_S.
    + assert (64 <= 64 ^ Z.of_nat (S k)).
      { change 64 with (64 ^ 1) at 1. apply Z.pow_le_mono_r; lia. }
      split; [apply Z.div_pos; lia|apply Z.div_lt_upper_bound; nia].
    + apply Z.mod_pos_bound. lia.
Qed.

Lemma utf8_cont_inv (k : nat) : forall (s : list Z) (i v : Z),
  bytes s -> 0 <= i -> (i + 1) * 64 ^ Z.of_nat k <= 4294967296 ->
  utf8_cont s i k = Some (Some v) ->
  take k s = cont_bytes v k /\ v / 64 ^ Z.of_nat k = i.
Proof.
  induction k as [|k IH]; intros s i v Hs Hi Hb; cbn [utf8_cont].
  - intros [= <-]. by rewrite Z.div_1_r, take_0.
  - destruct Hs as [|c s Hc Hs]; [done|].
    change (load (c :: s) 0) with (Some c). cbn [mbind option_bind tail].
    rewrite Nat2Z.inj_succ, Z.pow_succ_r in Hb by lia.
    destruct (Z.eqb_spec (Z.land (s8 c) 192) 128) as [Ht|]; [|done].
    cbn [negb]. assert (0 < 64 ^ Z.of_nat k) by lia.
    assert (0 <= Z.land (s8 c) 63 < 64) as Hr.
    { rewrite (land_low _ 6) by done. change (2 ^ 6) with 64. zmod. }
    rewrite cont_join by nia. intros H1.
    apply IH in H1 as [E1 E2]; [|done|nia|nia].
    split.
    + cbn [take cont_bytes]. rewrite E1. f_equal.
      rewrite shiftr6, E2. symmetry. by apply cont_byte_inv.
    + rewrite Nat2Z.inj_succ, Z.pow_succ_r, (Z.mul_comm 64), <- Z.div_div, E2 by lia.
      rewrite Z.div_add_l, (Z.div_small (Z.land (s8 c) 63)); lia.
Qed.

(** The size [fmt_utf8] chooses. *)
Definition size_of (n : Z) : option nat :=
  if n <=? 2047 then Some 1%nat else if n <=? 65535 then Some 2%nat
  else if n <=? 2097151 then Some 3%nat
  else if n <=? 67108863 then Some 4%nat else None.

Lemma utf8_size_spec (n : Z) : 127 < n -> utf8_size n 63 1 7 = size_of n.
Proof.
  intros Hn. unfold size_of. cbn [utf8_size].
  change (Z.lor (u64 (Z.shiftl 63 5)) 31) with 2047.
  change (Z.lor (u64 (Z.shiftl 2047 5)) 31) with 65535.
  change (Z.lor (u64 (Z.shiftl 65535 5)) 31) with 2097151.
  change (Z.lor (u64 (Z.shiftl 2097151 5)) 31) with 67108863.
  change (Z.lor (u64 (Z.shiftl 67108863 5)) 31) with 2147483647.
  change (63 <? 2147483647) with true. change (2047 <? 2147483647) with true.
  change (65535 <? 2147483647) with true.
  change (2097151 <? 2147483647) with true.
  change (67108863 <? 2147483647) with true.
  change (2147483647 <? 2147483647) with false. cbv iota.
  zfalse (n <=? 63). cbn [Nat.sub]. done.
Qed.

(** The least value of an encoding with [j] continuation bytes. *)
Definition utf8_min (j : nat) : Z :=
  Z.shiftl 1 (Z.of_nat (S j) * 5 - 4 + c_bool (S j =? 2)%nat).

Lemma size_of_spec (n : Z) (j : nat) :
  127 < n -> size_of n = Some j ->
  (1 <= j <= 4)%nat /\ 0 <= n / 64 ^ Z.of_nat j < 2 ^ (6 - Z.of_nat j) /\
  utf8_min j <= n < 67108864.
Proof.
  intros Hn. unfold size_of.
  destruct (Z.leb_spec n 2047); [intros [= <-]|].
  { change (utf8_min 1) with 128. change (64 ^ Z.of_nat 1) with 64.
    change (2 ^ (6 - Z.of_nat 1)) with 32. zmod. }
  destruct (Z.leb_spec n 65535); [intros [= <-]|].
  { change (utf8_min 2) with 2048. change (64 ^ Z.of_nat 2) with 4096.
    change (2 ^ (6 - Z.of_nat 2)) with 16. zmod. }
  destruct (Z.leb_spec n 2097151); [intros [= <-]|].
  { change (utf8_min 3) with 65536. change (64 ^ Z.of_nat 3) with 262144.
    change (2 ^ (6 - Z.of_nat 3)) with 8. zmod. }
  destruct (Z.leb_spec n 67108863); [intros [= <-]|done].
  change (utf8_min 4) with 2097152. change (64 ^ Z.of_nat 4) with 16777216.
  change (2 ^ (6 - Z.of_nat 4)) with 4. zmod.
Qed.

Lemma size_of_unique (n : Z) (j : nat) :
  (1 <= j <= 4)%nat -> utf8_min j <= n -> n < utf8_min (S j) -> size_of n = Some j.
Proof.
  intros Hj. assert (j = 1 \/ j = 2 \/ j = 3 \/ j = 4)%nat as [->|[->|[->| ->]]] by lia;
    [change (utf8_min 1) with 128; change (utf8_min 2) with 2048
    |change (utf8_min 2) with 2048; change (utf8_min 3) with 65536
    |change (utf8_min 3) with 65536; change (utf8_min 4) with 2097152
    |change (utf8_min 4) with 2097152; change (utf8_min 5) with 67108864];
    intros; unfold size_of.
  - by ztrue (n <=? 2047).
  - zfalse (n <=? 2047). by ztrue (n <=? 65535).
  - zfalse (n <=? 2047). zfalse (n <=? 65535). by ztrue (n <=? 2097151).
  - zfalse (n <=? 2047). zfalse (n <=? 65535). zfalse (n <=? 2097151).
    by ztrue (n <=? 67108863).
Qed.

Lemma fmt_utf8_long (n : Z) (j : nat) (dest : bool) :
  127 < n -> size_of n = Some j ->
  fmt_utf8 dest n =
    (if dest then lead_byte j (n / 64 ^ Z.of_nat j) :: cont_bytes n j else [], S j).
Proof.
  intros Hn Hs. unfold fmt_utf8. zfalse (n <=? 127).
  rewrite utf8_size_spec, Hs by done. unfold lead_byte. by rewrite shiftr6.
Qed.

(** The reader on a well-formed first byte. *)
Lemma scan_utf8_lead (j : nat) (h : Z) (t : list Z) (len : nat) :
  (1 <= j <= 5)%nat -> 0 <= h < 2 ^ (6 - Z.of_nat j) -> (S j <= len)%nat ->
  scan_utf8 (lead_byte j h :: t) len =
    r ← utf8_cont t h j;
    match r with
    | None => Some (O, None)
    | Some i => if i <? utf8_min j then Some (O, None) else Some (S j, Some i)
    end.
Proof.
  intros Hj Hh Hl. unfold scan_utf8. replace (len =? 0)%nat with false by lia.
  change (load (lead_byte j h :: t) 0) with (Some (lead_byte j h)).
  cbn [mbind option_bind tail].
  pose proof (lead_byte_spec j h Hj Hh) as F. unfold lead_ok in F.
  destruct (lead_ones (lead_byte j h) 0 8) as [i k].
  destruct ((254 <=? lead_byte j h) || (Z.land (lead_byte j h) 192 =? 128)); [done|].
  cbn [negb andb] in F. assert (k = S j) as -> by lia.
  replace (S j =? 0)%nat with false by lia.
  replace (len <? S j)%nat with false by lia.
  replace (Z.shiftr (Z.land i 255) (Z.of_nat (S j))) with h by lia.
  by rewrite Nat.sub_succ, Nat.sub_0_r.
Qed.

Lemma scan_utf8_ascii (n : Z) (t : list Z) (len : nat) :
  0 <= n < 128 -> (1 <= len)%nat -> scan_utf8 (n :: t) len = Some (1%nat, Some n).
Proof.
  intros Hn Hl. unfold scan_utf8. replace (len =? 0)%nat with false by lia.
  change (load (n :: t) 0) with (Some n). cbn [mbind option_bind].
  assert (is_u8 n) as Hb by (unfold is_u8; lia).
  assert ((128 <=? n) || (negb (Z.land n 192 =? 128) && (Z.land n 128 =? 0)) = true)
    as F by by_bytes n.
  replace ((254 <=? n) || (Z.land n 192 =? 128)) with false by lia.
  cbn [lead_ones]. by replace (Z.land n 128 =? 0) with true by lia.
Qed.

Lemma fmt_scan_utf8 (n : Z) (r : list Z) (len : nat) :
  0 <= n < 67108864 ->
  let '(l, k) := fmt_utf8 true n in
  length l = k /\ fmt_utf8 false n = ([], k) /\ (1 <= k <= 5)%nat /\
  ((k <= len)%nat -> scan_utf8 (l ++ r) len = Some (k, Some n)).
Proof.
  intros Hn. destruct (Z.leb_spec n 127).
  - unfold fmt_utf8. ztrue (n <=? 127). cbn [app length].
    split; [done|]. split; [done|]. split; [lia|].
    intros. by apply scan_utf8_ascii; lia.
  - destruct (size_of n) as [j|] eqn:E.
    2: { unfold size_of in E. repeat case_match; try done; lia. }
    destruct (size_of_spec n j) as (Hj & Hh & Hm); [lia|done|].
    rewrite !(fmt_utf8_long n j) by (done || lia).
    assert (length (cont_bytes n j) = j) as Hl.
    { clear. induction j; simpl; auto. }
    cbn [length app]. rewrite Hl. split; [done|]. split; [done|]. split; [lia|].
    intros Hlen. rewrite scan_utf8_lead by (done || lia).
    rewrite utf8_cont_spec by lia. cbn [mbind option_bind].
    by zfalse (n <? utf8_min j).
Qed.

(** Any first byte the reader accepts is a [lead_byte]. *)
Lemma lead_ones_inv (c : Z) :
  is_u8 c -> 128 <= c -> (254 <=? c) || (Z.land c 192 =? 128) = false ->
  let '(i, k) := lead_ones c 0 8 in
  let h := Z.shiftr (Z.land i 255) (Z.of_nat k) in
  (2 <= k <= 6)%nat /\ 0 <= h < 2 ^ (7 - Z.of_nat k) /\ c = lead_byte (k - 1) h.
Proof.
  intros Hc H1 H2.
  assert ((c <? 128) || ((254 <=? c) || (Z.land c 192 =? 128)) ||
    (let '(i, k) := lead_ones c 0 8 in
     let h := Z.shiftr (Z.land i 255) (Z.of_nat k) in
     (2 <=? k)%nat && (k <=? 6)%nat && (0 <=? h) && (h <? 2 ^ (7 - Z.of_nat k)) &&
     (c =? lead_byte (k - 1) h)) = true) as F by by_bytes c.
  rewrite H2 in F. replace (c <? 128) with false in F by lia. destruct (lead_ones c 0 8) as [i k].
  cbv zeta in F |- *. cbn [orb] in F.
  set (h := Z.shiftr (Z.land i 255) (Z.of_nat k)) in *.
  set (b := lead_byte (k - 1) h) in *. set (p := 2 ^ (7 - Z.of_nat k)) in *.
  clearbody h b p. lia.
Qed.

(** What was read is what would be written. *)
Lemma cont_canonical (j : nat) (h v : Z) (s : list Z) :
  bytes s -> (1 <= j <= 5)%nat -> 0 <= h < 2 ^ (6 - Z.of_nat j) ->
  utf8_cont s h j = Some (Some v) -> utf8_min j <= v < 67108864 ->
  fst (fmt_utf8 true v) = lead_byte j h :: take j s.
Proof.
  intros Hs Hj Hh E Hmin.
  assert (64 ^ Z.of_nat j * 2 ^ (6 - Z.of_nat j) = utf8_min (S j) /\
    0 < 64 ^ Z.of_nat j /\ 128 <= utf8_min j /\
    64 ^ Z.of_nat j * 2 ^ (6 - Z.of_nat j) <= 2147483648) as (Hp & Hpos & Hm & Hmx).
  { assert (j = 1 \/ j = 2 \/ j = 3 \/ j = 4 \/ j = 5)%nat
      as [->|[->|[->|[->| ->]]]] by lia; vm_compute; repeat split; congruence. }
  apply utf8_cont_inv in E as [Et Ev]; [|done|lia|nia].
  assert (v < utf8_min (S j)) as Hmax.
  { rewrite <- Hp. pose proof (Z.div_mod v (64 ^ Z.of_nat j)).
    pose proof (Z.mod_pos_bound v (64 ^ Z.of_nat j)). nia. }
  assert (j <> 5)%nat as Hj5.
  { intros ->. change (utf8_min 5) with 67108864 in Hmin. lia. }
  rewrite (fmt_utf8_long v j) by (lia || apply size_of_unique; lia).
  cbn [fst]. by rewrite Et, Ev.
Qed.

(** ** Wide characters *)

Lemma mask_spec (w k : Z) :
  0 <= w -> 0 <= k -> mask w (Z.lnot (Z.ones k)) = (w <? 2 ^ k).
Proof.
  intros Hw Hk. unfold mask. rewrite <- Z.ldiff_land, Z.ldiff_ones_r by done.
  rewrite Z.shiftl_mul_pow2, Z.shiftr_div_pow2 by done.
  assert (0 < 2 ^ k) by lia. destruct (Z.ltb_spec w (2 ^ k)).
  - by rewrite Z.div_small by lia.
  - pose proof (Z.div_str_pos w (2 ^ k)). apply Z.eqb_neq. nia.
Qed.

(** The groups of six bits. *)
Definition grp (w : Z) (j : nat) : Z := w / 64 ^ Z.of_nat j mod 64.

Lemma bits_cont (w : Z) (j : nat) :
  bits w (6 * Z.of_nat j) 63 128 = cont_byte (Z.shiftr w (6 * Z.of_nat j)).
Proof. unfold bits, cont_byte. by rewrite Z.lor_comm. Qed.

Definition lead_bits (j : nat) (h m tag : Z) : bool :=
  u8 (Z.lor (Z.land h m) tag) =? lead_byte j h.

Lemma bits_lead (w : Z) (j : nat) (m tag : Z) :
  (j, m, tag) ∈ [(1%nat, 31, 192); (2%nat, 15, 224); (3%nat, 7, 240)] ->
  0 <= w / 64 ^ Z.of_nat j < 2 ^ (6 - Z.of_nat j) ->
  bits w (6 * Z.of_nat j) m tag = lead_byte j (w / 64 ^ Z.of_nat j).
Proof.
  intros Hj Hh. unfold bits. rewrite shiftr6.
  set (h := w / 64 ^ Z.of_nat j) in *. clearbody h.
  assert (2 ^ (6 - Z.of_nat j) <= 2 ^ 6) by (apply Z.pow_le_mono_r; lia).
  assert (is_u8 h) as Hb by (unfold is_u8; lia).
  assert ((2 ^ (6 - Z.of_nat j) <=? h) || lead_bits j h m tag = true) as F.
  { repeat (apply elem_of_cons in Hj as [[= -> -> ->]|Hj]; [by by_bytes h|]).
    by apply elem_of_nil in Hj. }
  replace (2 ^ (6 - Z.of_nat j) <=? h) with false in F by lia.
  unfold lead_bits in F. cbn [orb] in F. lia.
Qed.

(** The groups of six bits by their offsets. *)
Lemma bits_cont_0 (w : Z) : bits w 0 63 128 = cont_byte (Z.shiftr w (6 * Z.of_nat 0)).
Proof. exact (bits_cont w 0). Qed.
Lemma bits_cont_6 (w : Z) : bits w 6 63 128 = cont_byte (Z.shiftr w (6 * Z.of_nat 1)).
Proof. exact (bits_cont w 1). Qed.
Lemma bits_cont_12 (w : Z) : bits w 12 63 128 = cont_byte (Z.shiftr w (6 * Z.of_nat 2)).
Proof. exact (bits_cont w 2). Qed.

Ltac stores :=
  repeat (rewrite store_Some by (rewrite ?length_insert; lia);
          cbn [mbind option_bind]);
  rewrite !splice_cons, splice_nil by (rewrite ?length_insert; lia);
  rewrite ?Nat.add_succ_r, ?Nat.add_0_r.

(** The wide-character encoder stores what [fmt_utf8] does, terminated. *)
Lemma wctou8_fmt (m : list Z) (p : nat) (w : Z) :
  0 <= w < 2097152 ->
  (p + snd (fmt_utf8 true w) < length m)%nat ->
  wctou8 m p w = Some (splice m p (fst (fmt_utf8 true w) ++ [0]),
                       Z.of_nat (snd (fmt_utf8 true w))).
Proof.
  intros Hw Hp. unfold wctou8.
  change 127 with (Z.ones 7). change 2047 with (Z.ones 11).
  change 65535 with (Z.ones 16). change 2097151 with (Z.ones 21).
  rewrite !mask_spec by lia. change (2 ^ 7) with 128. change (2 ^ 11) with 2048.
  change (2 ^ 16) with 65536. change (2 ^ 21) with 2097152.
  destruct (Z.ltb_spec w 128).
  { revert Hp. unfold fmt_utf8. ztrue (w <=? 127). cbn [fst snd app]. intros Hp.
    rewrite Z.land_ones by lia. change (2 ^ 7) with 128.
    rewrite (Z.mod_small w) by lia. rewrite u8_id by (unfold is_u8; lia).
    by stores. }
  destruct (size_of w) as [j|] eqn:E.
  2: { unfold size_of in E. repeat case_match; try done; lia. }
  destruct (size_of_spec w j) as (Hj & Hh & Hm); [lia|done|].
  rewrite (fmt_utf8_long w j) in * by (lia || done). cbn [fst snd app] in *.
  unfold size_of in E. rewrite bits_cont_0, bits_cont_6, bits_cont_12.
  destruct (Z.ltb_spec w 2048); [|destruct (Z.ltb_spec w 65536)].
  - assert (j = 1%nat) as -> by (repeat case_match; simplify_eq; lia).
    pose proof (bits_lead w 1 31 192 ltac:(repeat constructor) Hh) as L.
    change (6 * Z.of_nat 1) with 6 in L. rewrite L. cbn [cont_bytes app].
    by stores.
  - assert (j = 2%nat) as -> by (repeat case_match; simplify_eq; lia).
    pose proof (bits_lead w 2 15 224 ltac:(repeat constructor) Hh) as L.
    change (6 * Z.of_nat 2) with 12 in L. rewrite L. cbn [cont_bytes app].
    by stores.
  - ztrue (w <? 2097152).
    assert (j = 3%nat) as -> by (repeat case_match; simplify_eq; lia).
    pose proof (bits_lead w 3 7 240 ltac:(repeat constructor) Hh) as L.
    change (6 * Z.of_nat 3) with 18 in L. rewrite L. cbn [cont_bytes app].
    by stores.
Qed.

(** What [u8len] and [u8towc] see in a first byte. *)
Definition lead_seen (j : nat) (h : Z) : bool :=
  let c := s8 (lead_byte j h) in
  negb (c =? 0) && negb (mask c (Z.lnot 127)) &&
  match j with
  | 1%nat => (Z.land c 224 =? 192) && (Z.land c 31 =? h)
  | 2%nat => negb (Z.land c 224 =? 192) && (Z.land c 240 =? 224) && (Z.land c 15 =? h)
  | 3%nat => negb (Z.land c 224 =? 192) && negb (Z.land c 240 =? 224) &&
             (Z.land c 248 =? 240) && (Z.land c 7 =? h)
  | _ => true
  end.

Lemma lead_seen_ok (j : nat) (h : Z) :
  (1 <= j <= 3)%nat -> 0 <= h < 2 ^ (6 - Z.of_nat j) -> lead_seen j h = true.
Proof.
  intros Hj Hh.
  assert (2 ^ (6 - Z.of_nat j) <= 2 ^ 6) by (apply Z.pow_le_mono_r; lia).
  assert (is_u8 h) as Hb by (unfold is_u8; lia).
  assert ((2 ^ (6 - Z.of_nat j) <=? h) || lead_seen j h = true) as F.
  { clear - Hj Hb. assert (j = 1 \/ j = 2 \/ j = 3)%nat as [->|[->| ->]] by lia;
      by_bytes h. }
  by replace (2 ^ (6 - Z.of_nat j) <=? h) with false in F by lia.
Qed.

Lemma not_cont_cont (x : Z) :
  not_cont (cont_byte x) = false /\ Z.land (s8 (cont_byte x)) 63 = x mod 64.
Proof.
  unfold not_cont. by destruct (cont_byte_spec x) as (_ & -> & ->).
Qed.

Lemma lor_groups (a b k : Z) :
  0 <= k -> 0 <= b < 2 ^ k -> Z.lor (Z.shiftl a k) b = a * 2 ^ k + b.
Proof. intros. rewrite Z.shiftl_mul_pow2 by done. by apply lor_add. Qed.

Lemma u8len_lead (j : nat) (h : Z) (t : list Z) :
  (1 <= j <= 3)%nat -> 0 <= h < 2 ^ (6 - Z.of_nat j) ->
  u8len (Some (lead_byte j h :: t)) 1 = Some (Z.of_nat (S j)).
Proof.
  intros Hj Hh. pose proof (lead_seen_ok j h Hj Hh) as F. unfold lead_seen in F.
  unfold u8len. change (load (lead_byte j h :: t) 0) with (Some (lead_byte j h)).
  cbn [Nat.eqb mbind option_bind].
  set (c := s8 (lead_byte j h)) in *. clearbody c.
  destruct (c =? 0); [done|]. destruct (mask c _); [done|]. cbn [negb andb] in F.
  assert (j = 1 \/ j = 2 \/ j = 3)%nat as [->|[->| ->]] by lia.
  - by replace (Z.land c 224 =? 192) with true by lia.
  - replace (Z.land c 224 =? 192) with false by lia.
    by replace (Z.land c 240 =? 224) with true by lia.
  - replace (Z.land c 224 =? 192) with false by lia.
    replace (Z.land c 240 =? 224) with false by lia.
    by replace (Z.land c 248 =? 240) with true by lia.
Qed.

Lemma cont_grp (w : Z) (i : nat) :
  not_cont (cont_byte (Z.shiftr w (6 * Z.of_nat i))) = false /\
  Z.land (s8 (cont_byte (Z.shiftr w (6 * Z.of_nat i)))) 63 = grp w i /\
  0 <= grp w i < 64.
Proof.
  unfold grp. rewrite <- shiftr6.
  destruct (not_cont_cont (Z.shiftr w (6 * Z.of_nat i))) as [N G].
  split; [done|]. split; [done|]. apply Z.mod_pos_bound. lia.
Qed.

Lemma lor_3 (a b c : Z) :
  0 <= b < 64 -> 0 <= c < 64 ->
  Z.lor (Z.lor (Z.shiftl a 12) (Z.shiftl b 6)) c = (a * 64 + b) * 64 + c.
Proof.
  intros Hb Hc. rewrite (Z.shiftl_mul_pow2 b) by lia.
  rewrite lor_groups by lia.
  replace (a * 2 ^ 12 + b * 2 ^ 6) with ((a * 64 + b) * 2 ^ 6) by lia.
  by rewrite lor_add by lia.
Qed.

Lemma lor_4 (a b c d : Z) :
  0 <= b < 64 -> 0 <= c < 64 -> 0 <= d < 64 ->
  Z.lor (Z.lor (Z.lor (Z.shiftl a 18) (Z.shiftl b 12)) (Z.shiftl c 6)) d
  = ((a * 64 + b) * 64 + c) * 64 + d.
Proof.
  intros Hb Hc Hd. rewrite (Z.shiftl_mul_pow2 b) by lia.
  rewrite (Z.shiftl_mul_pow2 c) by lia.
  rewrite lor_groups by lia.
  replace (a * 2 ^ 18 + b * 2 ^ 12) with ((a * 64 + b) * 2 ^ 12) by lia.
  rewrite lor_add by lia.
  replace ((a * 64 + b) * 2 ^ 12 + c * 2 ^ 6) with (((a * 64 + b) * 64 + c) * 2 ^ 6)
    by lia.
  by rewrite lor_add by lia.
Qed.

(** The decoder reads what [fmt_utf8] writes. *)
Lemma u8towc_fmt (w : Z) (r : list Z) :
  0 < w < 2097152 ->
  u8towc (fst (fmt_utf8 true w) ++ r) =
    Some (Z.of_nat (snd (fmt_utf8 true w)), Some w).
Proof.
  intros Hw. destruct (Z.leb_spec w 127).
  { unfold fmt_utf8. ztrue (w <=? 127). cbn [fst snd app]. unfold u8towc, u8len.
    change (load (w :: r) 0) with (Some w). cbn [Nat.eqb mbind option_bind].
    rewrite s8_id by lia. zfalse (w =? 0). change 127 with (Z.ones 7).
    rewrite mask_spec, Z.land_ones by lia. change (2 ^ 7) with 128.
    ztrue (w <? 128). cbn [Z.ltb Z.eqb mbind option_bind]. by rewrite Z.mod_small by lia. }
  destruct (size_of w) as [j|] eqn:E.
  2: { unfold size_of in E. repeat case_match; try done; lia. }
  destruct (size_of_spec w j) as (Hj & Hh & Hm); [lia|done|].
  rewrite (fmt_utf8_long w j) by (lia || done). cbn [fst snd].
  assert (j <= 3)%nat as Hj3.
  { unfold size_of in E. repeat case_match; simplify_eq; lia. }
  pose proof (lead_seen_ok j _ ltac:(lia) Hh) as F. unfold lead_seen in F.
  clear E Hm. cbn [app]. unfold u8towc. rewrite u8len_lead by (done || lia).
  clear Hh.
  pose proof (div64_S w 0) as D0. pose proof (div64_S w 1) as D1.
  pose proof (div64_S w 2) as D2.
  change (64 ^ Z.of_nat 0) with 1 in D0. rewrite Z.div_1_r in D0.
  destruct (cont_grp w 0) as (N0 & G0 & R0).
  destruct (cont_grp w 1) as (N1 & G1 & R1).
  destruct (cont_grp w 2) as (N2 & G2 & R2).
  assert (grp w 0 = w mod 64) as E0 by
    (unfold grp; change (64 ^ Z.of_nat 0) with 1; by rewrite Z.div_1_r).
  rewrite <- E0 in D0. fold (grp w 1) in D1. fold (grp w 2) in D2.
  assert (j = 1 \/ j = 2 \/ j = 3)%nat as [->|[->| ->]] by lia;
    cbn [cont_bytes app]; fold (cont_byte (Z.shiftr w (6 * Z.of_nat 0)));
    fold (cont_byte (Z.shiftr w (6 * Z.of_nat 1)));
    fold (cont_byte (Z.shiftr w (6 * Z.of_nat 2)));
    cbn [mbind option_bind]; cbv beta zeta iota in F; load_all;
    [change (Z.of_nat 2) with 2|change (Z.of_nat 3) with 3
    |change (Z.of_nat 4) with 4]; cbn [Z.ltb Z.eqb Z.compare Pos.compare Pos.compare_cont
      Pos.eqb]; rewrite ?N2; load_all; rewrite ?N1; load_all; rewrite ?N0, ?G0, ?G1, ?G2.
  - replace (Z.land (s8 (lead_byte 1 (w / 64 ^ Z.of_nat 1))) 31)
      with (w / 64 ^ Z.of_nat 1) by lia.
    rewrite lor_groups by (clear F; lia). do 3 f_equal. lia.
  - replace (Z.land (s8 (lead_byte 2 (w / 64 ^ Z.of_nat 2))) 15)
      with (w / 64 ^ Z.of_nat 2) by lia.
    do 3 f_equal. rewrite lor_3 by (clear F; lia). clear F. lia.
  - replace (Z.land (s8 (lead_byte 3 (w / 64 ^ Z.of_nat 3))) 7)
      with (w / 64 ^ Z.of_nat 3) by lia.
    do 3 f_equal. rewrite lor_4 by (clear F; lia). clear F. lia.
Qed.

(** * Properties *)

(** C14: every code up to 2^26-1 survives [fmt_utf8] followed by [scan_utf8],
    whatever follows, in one to five bytes, the same number a [NULL]
    destination gets; every code from 2^26 on is refused with length 0,
    although fmt.h promises six-byte codes up to 2^31-1. *)
Theorem utf8_roundtrip (n : Z) (r : list Z) (len : nat) :
  is_u32 n ->
  if n <? 67108864 then
    let '(l, k) := fmt_utf8 true n in
    length l = k /\ fmt_utf8 false n = ([], k) /\ (1 <= k <= 5)%nat /\
    ((k <= len)%nat -> scan_utf8 (l ++ r) len = Some (k, Some n))
  else forall dest, fmt_utf8 dest n = ([], O).
Proof.
  unfold is_u32. intros Hn. destruct (Z.ltb_spec n 67108864).
  - apply fmt_scan_utf8. lia.
  - intros dest. unfold fmt_utf8. zfalse (n <=? 127).
    rewrite utf8_size_spec by lia. unfold size_of.
    by zfalse (n <=? 2047); zfalse (n <=? 65535); zfalse (n <=? 2097151);
      zfalse (n <=? 67108863).
Qed.

Lemma utf8_roundtrip_witness :
  scan_utf8 ([226; 130; 172] ++ [33]) 4 = Some (3%nat, Some 8364) /\
  fmt_utf8 true 67108864 = ([], O).
Proof.
  split.
  - pose proof (utf8_roundtrip 8364 [33] 4) as H.
    destruct H as (_ & _ & _ & H); [split; reflexivity || discriminate|].
    apply H. vm_compute. lia.
  - pose proof (utf8_roundtrip 67108864 [] 4) as H.
    apply H. split; reflexivity || discriminate.
Defined.

(** [scan_utf8] accepts one encoding of a code only: whenever it reports
    [k > 0] bytes for a code below 2^26, these bytes are the ones [fmt_utf8]
    writes (overlong forms are rejected), and they lie in the buffer. *)
Theorem utf8_canonical (s : list Z) (len k : nat) (v : Z) :
  bytes s -> scan_utf8 s len = Some (k, Some v) -> (0 < k)%nat -> v < 67108864 ->
  (k <= len)%nat /\ take k s = fst (fmt_utf8 true v).
Proof.
  intros Hs H Hk Hv. unfold scan_utf8 in H.
  destruct (Nat.eqb_spec len 0); [done|].
  destruct Hs as [|c s Hc Hs]; [done|].
  change (load (c :: s) 0) with (Some c) in H. cbn [mbind option_bind tail] in H.
  destruct ((254 <=? c) || (Z.land c 192 =? 128)) eqn:Hb; [done|].
  destruct (decide (c < 128)) as [Hlt|Hge].
  - pose proof (scan_utf8_ascii c s len) as A. unfold is_u8 in Hc.
    specialize (A ltac:(lia) ltac:(lia)). unfold scan_utf8 in A.
    replace (len =? 0)%nat with false in A by lia.
    change (load (c :: s) 0) with (Some c) in A. cbn [mbind option_bind tail] in A.
    rewrite Hb, H in A. injection A as -> ->. split; [lia|].
    unfold fmt_utf8. ztrue (c <=? 127). simpl. by rewrite take_0.
  - pose proof (lead_ones_inv c Hc ltac:(lia) Hb) as L.
    destruct (lead_ones c 0 8) as [i k']. cbv zeta in L, H.
    destruct L as (Hk' & Hh & Ec).
    set (h := Z.shiftr (Z.land i 255) (Z.of_nat k')) in *.
    destruct (Nat.eqb_spec k' 0); [lia|].
    destruct (Nat.ltb_spec len k'); [done|].
    destruct (utf8_cont s h (k' - 1)) as [[v'|]|] eqn:E; [|done|done].
    cbn [mbind option_bind] in H. match type of H with context [v' <? ?m] =>
      destruct (Z.ltb_spec v' m) as [|Hmin]; [done|] end.
    injection H as <- <-. split; [done|].
    destruct k' as [|j]; [lia|]. rewrite Nat.sub_succ, Nat.sub_0_r in *.
    fold (utf8_min j) in Hmin.
    rewrite (cont_canonical j h v' s); try done; [|lia|].
    + by rewrite Ec.
    + by replace (6 - Z.of_nat j) with (7 - Z.of_nat (S j)) by lia.
Qed.

Lemma utf8_canonical_witness :
  take 2 [195; 169; 33] = fst (fmt_utf8 true 233) /\
  scan_utf8 [192; 175] 2 = Some (O, None).
Proof.
  split; [|reflexivity].
  destruct (utf8_canonical [195; 169; 33] 3 2 233) as [_ H];
    [repeat constructor; lia|reflexivity|lia|reflexivity|exact H].
Defined.

(** The strict reader: [scan_utf8_sem] gives back every encoded code below
    2^26 except the surrogates, the codes ending in FFFE or FFFF and the block
    FDD0..FDEF, for which it reports length 0 (and still stores the value). *)
Theorem utf8_sem_exact (n : Z) (r : list Z) (len : nat) :
  0 <= n < 67108864 -> (snd (fmt_utf8 true n) <= len)%nat ->
  scan_utf8_sem (fst (fmt_utf8 true n) ++ r) len =
    if decide (55296 <= n <= 57343 \/ 65534 <= n mod 65536 \/ 64976 <= n <= 65007)
    then Some (O, Some n) else Some (snd (fmt_utf8 true n), Some n).
Proof.
  intros Hn Hl. pose proof (fmt_scan_utf8 n r len Hn) as H.
  destruct (fmt_utf8 true n) as [l k]. cbn [fst snd] in *.
  destruct H as (_ & _ & Hk & H). unfold scan_utf8_sem. rewrite H by done.
  cbn [mbind option_bind]. replace (0 <? k)%nat with true by lia. cbn [andb].
  assert ((Z.land n 65534 =? 65534) = (65534 <=? n mod 65536)) as ->.
  { replace (Z.land n 65534) with (n mod 65536 / 2 * 2).
    2: { change 65534 with (Z.lnot 1 mod 65536). rewrite <- !(Z.land_ones _ 16) by lia.
         rewrite (Z.land_comm (Z.lnot 1)), Z.land_assoc.
         rewrite <- Z.ldiff_land. change 1 with (Z.ones 1).
         rewrite Z.ldiff_ones_r by lia.
         rewrite Z.shiftl_mul_pow2, Z.shiftr_div_pow2 by lia. done. }
    zmod. }
  case_decide; case_match; try done; lia.
Qed.

Lemma utf8_sem_exact_witness :
  scan_utf8_sem (fst (fmt_utf8 true 55296) ++ []) 3 = Some (O, Some 55296).
Proof.
  etransitivity; [apply (utf8_sem_exact 55296 [] 3)|reflexivity];
    [split; reflexivity || discriminate|vm_compute; lia].
Defined.

(** The two UTF-8 families of the libraries agree: for a character below
    2^21 the wide-character encoder [wctou8] stores the bytes [fmt_utf8]
    stores and then a terminator, and [u8towc] reads the character back
    (except 0, which ends a string), whatever follows. *)
Theorem wctou8_agrees (m : list Z) (p : nat) (w : Z) (r : list Z) :
  0 <= w < 2097152 ->
  let '(l, k) := fmt_utf8 true w in
  ((p + k < length m)%nat ->
   wctou8 m p w = Some (splice m p (l ++ [0]), Z.of_nat k)) /\
  wcu8len w = Z.of_nat k /\
  (w <> 0 -> u8towc (l ++ r) = Some (Z.of_nat k, Some w)).
Proof.
  intros Hw. destruct (fmt_utf8 true w) as [l k] eqn:E.
  pose proof (wctou8_fmt m p w Hw) as H1. pose proof (u8towc_fmt w r) as H2.
  rewrite E in H1, H2. split; [done|]. split; [|intros; apply H2; lia].
  unfold wcu8len. change 127 with (Z.ones 7). change 2047 with (Z.ones 11).
  change 65535 with (Z.ones 16). change 2097151 with (Z.ones 21).
  rewrite !mask_spec by lia. change (2 ^ 7) with 128. change (2 ^ 11) with 2048.
  change (2 ^ 16) with 65536. change (2 ^ 21) with 2097152.
  unfold fmt_utf8 in E. destruct (Z.leb_spec w 127).
  { injection E as <- <-. by ztrue (w <? 128). }
  zfalse (w <? 128). rewrite utf8_size_spec in E by lia. unfold size_of in E.
  destruct (Z.leb_spec w 2047); [injection E as <- <-; by ztrue (w <? 2048)|].
  zfalse (w <? 2048).
  destruct (Z.leb_spec w 65535); [injection E as <- <-; by ztrue (w <? 65536)|].
  zfalse (w <? 65536). ztrue (w <? 2097152).
  destruct (Z.leb_spec w 2097151); [by injection E as <- <-|lia].
Qed.

Lemma wctou8_agrees_witness :
  wctou8 (replicate 4 9) 0 8364 = Some ([226; 130; 172; 0], 3) /\
  u8towc ([226; 130; 172] ++ [7]) = Some (3, Some 8364).
Proof.
  pose proof (wctou8_agrees (replicate 4 9) 0 8364 [7]) as H.
  destruct H as (H1 & _ & H2); [split; reflexivity || discriminate|].
  split; [apply H1; vm_compute; lia|apply H2; discriminate].
Defined.

(** [wcstou8s] lets a character through when the bytes so far fill [count]
    exactly, but [wctou8] also stores a terminator: converting a string of
    [count] ASCII characters writes one byte past a buffer of [count] bytes. *)
Theorem wcstou8s_overrun (m pw : list Z) :
  pw <> [] -> length m = length pw -> Z.of_nat (length pw) < 2147483648 ->
  Forall (fun w => 1 <= w < 128) pw ->
  wcstou8s (Some m) (pw ++ [0]) (Z.of_nat (length pw)) = None.
Proof.
  intros Hne Hm Hs Hf. unfold wcstou8s.
  assert (forall w, 1 <= w < 128 -> mask w (Z.lnot 127) = true) as Hmask.
  { intros w Hw. change 127 with (Z.ones 7). rewrite mask_spec by lia.
    change (2 ^ 7) with 128. lia. }
  assert (wcsu8slen (pw ++ [0]) = Some (Z.of_nat (length pw))) as ->.
  { clear Hne Hm. induction Hf as [|w pw Hw _ IH]; [done|].
    cbn [app wcsu8slen length] in *. zfalse (w =? 0). rewrite IH by lia.
    cbn [mbind option_bind]. rewrite Hmask by done. unfold chk32.
    replace (_ && _) with true by lia. f_equal. lia. }
  cbn [mbind option_bind].
  assert (forall k m p, (p + length k = length m)%nat -> k <> [] ->
    Forall (fun w => 1 <= w < 128) k ->
    wcstou8s_loop m p (k ++ [0]) (Z.of_nat p) (Z.of_nat (length m)) = None) as L.
  { clear. intros k. induction k as [|w k IH]; intros m p Hp Hne Hf; [done|].
    inversion Hf as [|? ? Hw Hf']; subst. cbn [app wcstou8s_loop length] in *.
    assert (mask w (Z.lnot 127) = true) as Hmk.
    { change 127 with (Z.ones 7). rewrite mask_spec by lia.
      change (2 ^ 7) with 128. lia. }
    zfalse (w =? 0). unfold wcu8len, wctou8. rewrite Hmk. change (0 <=? 1) with true.
    cbv iota. ztrue (Z.of_nat p + 1 <=? Z.of_nat (length m)).
    rewrite store_Some by lia. cbn [mbind option_bind].
    destruct (decide (k = [])) as [->|Hk].
    - rewrite store_None; [done|]. rewrite length_insert. simpl in Hp. lia.
    - assert (0 < length k)%nat by (destruct k; simpl; [done|lia]).
      rewrite store_Some by (rewrite length_insert; lia). cbn [mbind option_bind].
      replace (Z.of_nat p + 1) with (Z.of_nat (p + 1)) by lia.
      change (Z.to_nat 1) with 1%nat.
      set (m' := <[(p + 1)%nat:=0]> _).
      replace (length m) with (length m') by (unfold m'; by rewrite !length_insert).
      apply IH; [|done|done]. unfold m'. rewrite !length_insert. lia. }
  specialize (L pw m 0%nat). rewrite Hm in L. apply L; [done|done|done].
Qed.

Lemma wcstou8s_overrun_witness :
  wcstou8s (Some [1; 2]) (lit "ab" ++ [0]) 2 = None.
Proof.
  apply (wcstou8s_overrun [1; 2] (lit "ab"));
    [discriminate|reflexivity|reflexivity|repeat constructor; lia].
Defined.

(** Latin-1 conversion round-trips ASCII only: a character below 128 is
    encoded as itself and read back; every character from 128 up is encoded as
    one zero byte (the conversion table holds only zeros), although the
    decoder maps its proper two-byte encoding back to it. *)
Theorem latin1_ascii_only (c : Z) (r : list Z) (len : nat) :
  is_u8 c -> (2 <= len)%nat ->
  if c <? 128 then
    fmt_latin1_utf8 true c = ([c], 1%nat) /\
    scan_latin1_utf8 (c :: r) len = Some (1%nat, Some c)
  else
    fmt_latin1_utf8 true c = ([0], 1%nat) /\
    scan_latin1_utf8 (fst (fmt_utf8 true c) ++ r) len = Some (2%nat, Some c).
Proof.
  intros Hc Hl. unfold fmt_latin1_utf8, ucs_from_latin1_char, scan_latin1_utf8.
  rewrite u8_id by done. unfold is_u8 in Hc.
  assert (ucs_to_latin1_char (s32 c) = c) as Hto.
  { unfold ucs_to_latin1_char. rewrite (u8_id (s32 c)) by zmod.
    replace (Z.land (u32 (s32 c)) 4294967040 =? 0) with true.
    - rewrite orb_true_r. zmod.
    - assert (is_u8 c) as Hb by done.
      symmetry. by_bytes c. }
  destruct (Z.ltb_spec c 128).
  - zfalse (128 <=? c). split; [unfold fmt_utf8; by ztrue (c <=? 127)|].
    rewrite scan_utf8_ascii by lia. cbn. by rewrite Hto.
  - ztrue (128 <=? c). split.
    + rewrite (land_low _ 7) by done. change (2 ^ 7) with 128.
      unfold ucs_latin1_table. rewrite nth_lookup, lookup_replicate_2 by zmod. done.
    + pose proof (fmt_scan_utf8 c r len ltac:(lia)) as Hrt.
      assert (size_of c = Some 1%nat) as E by (unfold size_of; by ztrue (c <=? 2047)).
      rewrite (fmt_utf8_long c 1) in * by (lia || done).
      destruct Hrt as (_ & _ & _ & Hrt). cbn [fst]. rewrite Hrt by done. cbn. by rewrite Hto.
Qed.

Lemma latin1_ascii_only_witness :
  fmt_latin1_utf8 true 233 = ([0], 1%nat) /\
  scan_latin1_utf8 ([195; 169] ++ []) 2 = Some (2%nat, Some 233).
Proof.
  apply (latin1_ascii_only 233 [] 2); [split; reflexivity || discriminate|lia].
Defined.

(** Converting a string in place does not terminate when it meets bytes
    that are not UTF-8: the reader advances by 0, so the loop stays on the
    same byte whatever fuel it is given. *)
Theorem str_utf8_latin1_spins (a : list Z) (c : Z) (r j : list Z) (fuel : nat) :
  Forall (fun w => 1 <= w < 128) a -> nonul (c :: r) ->
  (254 <= c \/ 128 <= c < 192) ->
  str_utf8_latin1 (zstr (a ++ c :: r) j) fuel = Spin.
Proof.
  intros Ha Hr Hc. unfold str_utf8_latin1.
  assert (nonul (a ++ c :: r)) as Hn.
  { apply nonul_app. split; [|done]. eapply Forall_impl; [|exact Ha]. simpl. lia. }
  rewrite str_len_spec by done. set (s := zstr (a ++ c :: r) j).
  assert (1 <= c < 256) as Hc8 by (apply nonul_cons in Hr as [? _]; done).
  assert (is_u8 c) as Hcb by (unfold is_u8; lia).
  assert (forall fuel w, latin1_loop s (length (a ++ c :: r)) (length a) w fuel = Spin)
    as Hspin.
  { assert (s !! length a = Some c) as Hs.
    { unfold s, zstr. rewrite <- app_assoc. by apply list_lookup_middle. }
    assert (scan_latin1_utf8 (drop (length a) s) (length (a ++ c :: r) - length a)
      = Some (O, None)) as Hsc.
    { unfold scan_latin1_utf8, scan_utf8. rewrite (drop_S _ c) by done.
      replace (length (a ++ c :: r) - length a =? 0)%nat with false
        by (rewrite length_app; simpl; lia).
      rewrite load_cons_0. cbn [mbind option_bind].
      assert ((254 <=? c) || (Z.land c 192 =? 128) || ((c <? 128) || (192 <=? c)) = true)
        as F by by_bytes c.
      by replace ((254 <=? c) || (Z.land c 192 =? 128)) with true by lia. }
    induction fuel0 as [|fuel0 IH]; intros w; [done|]. cbn [latin1_loop].
    unfold load. rewrite Hs. zfalse (c =? 0). rewrite Hsc, Nat.add_0_r. apply IH. }
  assert (forall b d, a = b ++ d -> forall fuel,
    latin1_loop s (length (a ++ c :: r)) (length b) (length b) fuel = Spin) as Hrun.
  { intros b d. revert b. induction d as [|x d IH]; intros b E fuel0.
    - rewrite app_nil_r in E. subst b. apply Hspin.
    - destruct fuel0 as [|fuel0]; [done|]. cbn [latin1_loop].
      assert (1 <= x < 128) as Hx.
      { rewrite E in Ha. apply Forall_app in Ha as [_ Ha]. by inversion Ha. }
      assert (s !! length b = Some x) as Hs.
      { unfold s, zstr. rewrite E, <- !app_assoc. by apply list_lookup_middle. }
      unfold load. rewrite Hs. zfalse (x =? 0).
      unfold scan_latin1_utf8. rewrite (drop_S _ x) by done.
      rewrite scan_utf8_ascii by (rewrite ?E, ?length_app; simpl; lia).
      cbn [mbind option_bind Nat.eqb option_map].
      assert (ucs_to_latin1_char (s32 x) = x) as ->.
      { replace (s32 x) with x by zmod. unfold ucs_to_latin1_char.
        ztrue (x <? 128). cbn [orb]. apply u8_id. unfold is_u8. lia. }
      rewrite store_Some by (by apply lookup_lt_Some in Hs).
      rewrite (list_insert_id s) by done.
      replace (length b + 1)%nat with (length (b ++ [x])) by (rewrite length_app; done).
      replace (S (length b)) with (length (b ++ [x])) by (rewrite length_app; simpl; lia).
      apply IH. by rewrite E, <- app_assoc. }
  by apply (Hrun [] a).
Qed.

Lemma str_utf8_latin1_spins_witness :
  str_utf8_latin1 (zstr (lit "ab" ++ 133 :: lit "c") []) 1000 = Spin.
Proof.
  apply (str_utf8_latin1_spins (lit "ab") 133 (lit "c") [] 1000);
    [repeat constructor; lia..|right; lia].
Defined.
