(* ===== verification/Digits.v ===== *)
(** Positional numerals, the reference for the routines that print and parse
    integers: [numeral B i] is the list of the digits of [i] in base [B],
    [value] its inverse, [ref_scan] the parser that accepts digits as long as
    the value stays below a limit, computed with unbounded integers. *)
From S2P Require Import Prelude.

Fixpoint digits_acc (B : Z) (fuel : nat) (i : Z) (acc : list Z) : list Z :=
  match fuel with
  | O => acc
  | S fuel' =>
      if i <? B then i :: acc
      else digits_acc B fuel' (i / B) (i mod B :: acc)
  end.

(** 64 digits are enough for every 64-bit integer in every base. *)
Definition numeral (B i : Z) : list Z := digits_acc B 64 i [].

Arguments numeral : simpl never.

Definition value (B : Z) (l : Z) (ds : list Z) : Z :=
  fold_left (fun a d => a * B + d) ds l.

(** Reads at most [n] characters of [src], from the value [l] and the count
    [k]; gives the count of characters taken and the value. *)
Fixpoint ref_scan (B lim : Z) (dig : Z -> Z) (src : list Z) (n l : Z) (k : nat)
  : option (nat * Z) :=
  if n =? 0 then Some (k, l) else
  match src with
  | [] => None
  | x :: src' =>
      let c := dig x in
      if (c <? B) && (l * B + c <? lim)
      then ref_scan B lim dig src' (n - 1) (l * B + c) (S k)
      else Some (k, l)
  end.

(** The number of digits, as the printing routines count it: while the rest is
    above [top] take the next rest. *)
Fixpoint count_digits (top : Z) (next : Z -> Z) (fuel : nat) (len : nat)
    (tmp : Z) : nat :=
  match fuel with
  | O => len
  | S fuel' =>
      if top <? tmp then count_digits top next fuel' (S len) (next tmp)
      else len
  end.

(** * Lemmas *)

Lemma digits_acc_S (B : Z) (f : nat) (i : Z) (acc : list Z) :
  digits_acc B (S f) i acc =
  if i <? B then i :: acc else digits_acc B f (i / B) (i mod B :: acc).
Proof. done. Qed.

Lemma digits_acc_app (B : Z) (fuel : nat) (i : Z) (acc : list Z) :
  digits_acc B fuel i acc = digits_acc B fuel i [] ++ acc.
Proof.
  revert i acc. induction fuel as [|f IH]; intros i acc; simpl; [done|].
  case_match; [done|]. rewrite IH, (IH _ [_]), <- app_assoc. done.
Qed.

Lemma value_app (B l : Z) (a b : list Z) :
  value B l (a ++ b) = value B (value B l a) b.
Proof. apply fold_left_app. Qed.

Section digits.
  Context (B : Z) (HB : 2 <= B).

Lemma pow_S (f : nat) : 2 ^ Z.of_nat (S f) = 2 * 2 ^ Z.of_nat f.
Proof. rewrite Nat2Z.inj_succ, Z.pow_succ_r by lia. done. Qed.

Lemma div_fuel (f : nat) (i : Z) :
  0 <= i < 2 ^ Z.of_nat (S f) -> 0 <= i / B < 2 ^ Z.of_nat f.
Proof.
  rewrite pow_S. intros Hi. split; [apply Z.div_pos; lia|].
  apply Z.div_lt_upper_bound; [lia|]. nia.
Qed.

Lemma digits_range (f : nat) (i : Z) :
  0 <= i -> Forall (fun d => 0 <= d < B) (digits_acc B f i []).
Proof.
  revert i. induction f as [|f IH]; intros i Hi; simpl; [done|].
  destruct (Z.ltb_spec i B); [by repeat constructor|].
  rewrite digits_acc_app. apply Forall_app. split.
  - apply IH. apply Z.div_pos; lia.
  - repeat constructor; apply Z.mod_pos_bound; lia.
Qed.

Lemma digits_value (f : nat) (i : Z) :
  (0 < f)%nat -> 0 <= i < 2 ^ Z.of_nat f -> value B 0 (digits_acc B f i []) = i.
Proof.
  revert i. induction f as [|f IH]; intros i Hf Hi; simpl; [lia|].
  destruct (Z.ltb_spec i B); [done|].
  rewrite digits_acc_app, value_app.
  destruct f as [|f].
  { rewrite pow_S in Hi. simpl in Hi. lia. }
  rewrite IH by (lia || by apply div_fuel). simpl. unfold value. simpl.
  pose proof (Z.div_mod i B). lia.
Qed.

(** No leading zero, except for zero itself. *)
Lemma digits_head (f : nat) (i : Z) :
  (0 < f)%nat -> 0 <= i ->
  exists d ds, digits_acc B f i [] = d :: ds /\
    (0 < i -> i < 2 ^ Z.of_nat f -> 0 < d).
Proof.
  revert i. induction f as [|f IH]; intros i Hf Hi; simpl; [lia|].
  destruct (Z.ltb_spec i B).
  - exists i, []. split; [done|lia].
  - rewrite digits_acc_app. destruct f as [|f].
    + simpl. exists (i mod B), []. split; [done|]. intros _ Hlt.
      rewrite pow_S in Hlt. simpl in Hlt. lia.
    + destruct (IH (i / B)) as (d & ds & -> & Hd);
        [lia|apply Z.div_pos; lia|].
      exists d, (ds ++ [i mod B]). split; [done|]. intros _ Hlt. apply Hd.
      * apply Z.div_str_pos. lia.
      * by apply div_fuel.
Qed.

(** The counting loop finds the length. *)
Lemma count_digits_length (next : Z -> Z) (f len : nat) (i : Z) :
  (forall x, 0 <= x -> next x = x / B) -> (0 < f)%nat ->
  0 <= i < 2 ^ Z.of_nat f ->
  count_digits (B - 1) next f (S len) i =
  (length (digits_acc B f i []) + len)%nat.
Proof.
  intros Hn. revert len i. induction f as [|f IH]; intros len i Hf Hi; simpl.
  { lia. }
  destruct (Z.ltb_spec (B - 1) i), (Z.ltb_spec i B); try lia; [|simpl; lia].
  rewrite Hn by lia. rewrite digits_acc_app, length_app. simpl.
  destruct f as [|f].
  { rewrite pow_S in Hi. simpl in Hi. lia. }
  rewrite IH by (lia || by apply div_fuel). lia.
Qed.

Lemma value_lower (l : Z) (ds : list Z) :
  0 <= l -> Forall (fun d => 0 <= d) ds -> l <= value B l ds.
Proof.
  intros Hl Hd. revert l Hl. induction Hd as [|d ds Hd _ IH]; intros l Hl.
  { unfold value. simpl. lia. }
  change (l <= value B (l * B + d) ds).
  specialize (IH (l * B + d)). nia.
Qed.

Lemma value_nonneg (l : Z) (ds : list Z) :
  0 <= l -> Forall (fun d => 0 <= d) ds -> 0 <= value B l ds.
Proof. intros. pose proof (value_lower l ds). lia. Qed.

(** The parser takes all of a numeral whose value is below the limit. *)
Lemma ref_scan_digits (lim : Z) (dig : Z -> Z) (cs rest : list Z) (n l : Z)
    (k : nat) :
  0 <= l ->
  Forall (fun c => 0 <= dig c < B) cs ->
  value B l (dig <$> cs) < lim ->
  Z.of_nat (length cs) <= n ->
  ref_scan B lim dig (cs ++ rest) n l k =
  ref_scan B lim dig rest (n - Z.of_nat (length cs)) (value B l (dig <$> cs))
    (k + length cs).
Proof.
  intros Hl Hc. revert n l k Hl.
  induction Hc as [|c cs Hc Hcs IH]; intros n l k Hl Hv Hn.
  { simpl. by rewrite Z.sub_0_r, Nat.add_0_r. }
  rewrite fmap_cons in Hv |- *.
  change (value B l (dig c :: (dig <$> cs)))
    with (value B (l * B + dig c) (dig <$> cs)) in Hv |- *.
  assert (Forall (fun d => 0 <= d) (dig <$> cs)) as Hp.
  { apply Forall_fmap. eapply Forall_impl; [|exact Hcs].
    unfold compose. simpl. intros. lia. }
  assert (0 <= l * B + dig c) as H0 by nia.
  pose proof (value_lower _ _ H0 Hp). cbn [length] in Hn.
  cbn [app ref_scan length].
  zfalse (n =? 0). ztrue (dig c <? B). ztrue (l * B + dig c <? lim).
  cbn [andb]. rewrite IH by lia. f_equal; lia.
Qed.

(** It stops before a character that is not a digit. *)
Lemma ref_scan_stop (lim : Z) (dig : Z -> Z) (x : Z) (rest : list Z) (n l : Z)
    (k : nat) :
  B <= dig x -> ref_scan B lim dig (x :: rest) n l k = Some (k, l).
Proof.
  intros. simpl. destruct (n =? 0); [done|]. by zfalse (dig x <? B).
Qed.

(** The value never reaches the limit, and never more than [n] characters
    are taken. *)
Lemma ref_scan_bound (lim : Z) (dig : Z -> Z) (src : list Z) (n l : Z)
    (k k' : nat) (l' : Z) :
  (forall c, 0 <= dig c) -> 0 <= l < lim ->
  ref_scan B lim dig src n l k = Some (k', l') ->
  0 <= l' < lim /\ (k <= k')%nat /\ (0 <= n -> Z.of_nat (k' - k) <= n) /\
  (k' - k <= length src)%nat.
Proof.
  intros Hd. revert n l k. induction src as [|x src IH]; intros n l k Hl H;
    simpl in H; destruct (Z.eqb_spec n 0); simplify_eq/=; [lia..|].
  destruct ((dig x <? B) && (l * B + dig x <? lim)) eqn:E; [|simplify_eq; lia].
  specialize (Hd x). apply IH in H; [lia|]. nia.
Qed.
End digits.

Lemma numeral_range (B i : Z) :
  2 <= B -> 0 <= i -> Forall (fun d => 0 <= d < B) (numeral B i).
Proof. intros. by apply digits_range. Qed.

Lemma numeral_value (B i : Z) :
  2 <= B -> is_u64 i -> value B 0 (numeral B i) = i.
Proof.
  intros HB Hi. apply digits_value; [done|lia|].
  unfold is_u64 in Hi. change (2 ^ Z.of_nat 64) with 18446744073709551616. lia.
Qed.

Lemma numeral_count (B i : Z) (next : Z -> Z) :
  2 <= B -> is_u64 i -> (forall x, 0 <= x -> next x = x / B) ->
  count_digits (B - 1) next 64 1 i = length (numeral B i).
Proof.
  intros HB Hi Hn. unfold numeral. rewrite (count_digits_length B);
    [lia|done..|lia|].
  unfold is_u64 in Hi. change (2 ^ Z.of_nat 64) with 18446744073709551616. lia.
Qed.

Lemma numeral_nonempty (B i : Z) :
  2 <= B -> 0 <= i -> (0 < length (numeral B i))%nat.
Proof.
  intros HB Hi. destruct (digits_head B HB 64 i) as (d & ds & H & _); [lia..|].
  unfold numeral. rewrite H. simpl. lia.
Qed.

(** Parsing a printed numeral gives the number and the length. *)
Lemma ref_scan_numeral (B lim i : Z) (dig chr : Z -> Z) (x : Z)
    (rest : list Z) (n : Z) :
  2 <= B -> is_u64 i -> i < lim ->
  (forall d, 0 <= d < B -> dig (chr d) = d) -> B <= dig x ->
  Z.of_nat (length (numeral B i)) <= n ->
  ref_scan B lim dig ((chr <$> numeral B i) ++ x :: rest) n 0 0 =
  Some (length (numeral B i), i).
Proof.
  intros HB Hi Hlim Hdig Hx Hn.
  pose proof (numeral_range B i HB) as Hr.
  assert (dig <$> (chr <$> numeral B i) = numeral B i) as Hm.
  { rewrite <- list_fmap_compose. rewrite <- (list_fmap_id (numeral B i)) at 2.
    apply Forall_fmap_ext. eapply Forall_impl; [|apply Hr; unfold is_u64 in Hi; lia].
    simpl. intros. by apply Hdig. }
  rewrite ref_scan_digits; [|done|lia| | |].
  - rewrite Hm, numeral_value, length_fmap by done.
    by rewrite ref_scan_stop.
  - apply Forall_fmap. eapply Forall_impl; [|apply Hr; unfold is_u64 in Hi; lia].
    unfold compose. simpl. intros d Hd. by rewrite Hdig.
  - by rewrite Hm, numeral_value.
  - by rewrite length_fmap.
Qed.

Lemma digits_acc_length (B : Z) (f : nat) (i : Z) (acc : list Z) :
  (length (digits_acc B f i acc) <= f + length acc)%nat.
Proof.
  revert i acc. induction f as [|f IH]; intros i acc; cbn [digits_acc]; [lia|].
  case_match; cbn [length]; [lia|].
  etrans; [apply IH|]. cbn [length]. lia.
Qed.

Lemma numeral_length (B i : Z) : (length (numeral B i) <= 64)%nat.
Proof. unfold numeral. rewrite digits_acc_length. cbn [length]. lia. Qed.

(** One more digit than the quotient. *)
Lemma numeral_div (B i : Z) :
  2 <= B -> B <= i -> is_u64 i ->
  numeral B i = numeral B (i / B) ++ [i mod B].
Proof.
  intros HB Hi Hu.
  assert (forall f x, 0 <= x < 2 ^ Z.of_nat f -> (0 < f)%nat ->
    digits_acc B (S f) x [] = digits_acc B f x []) as Hf.
  { induction f as [|f IH]; intros x Hx Hf; [lia|].
    rewrite (digits_acc_S B (S f) x), (digits_acc_S B f x []).
    destruct (Z.ltb_spec x B); [done|].
    destruct f as [|f].
    { change (2 ^ Z.of_nat 1) with 2 in Hx. lia. }
    pose proof (div_fuel B HB (S f) x Hx) as Hd.
    rewrite digits_acc_app, (digits_acc_app _ (S f)).
    by rewrite IH by (done || lia). }
  unfold numeral. rewrite (digits_acc_S B 63 i). zfalse (i <? B).
  rewrite digits_acc_app, (Hf 63%nat); [reflexivity| |lia].
  apply (div_fuel B HB 63).
  unfold is_u64 in Hu. change (2 ^ Z.of_nat 64) with 18446744073709551616. lia.
Qed.
