(* ===== verification/FmtNum.v ===== *)
(** Printing integers: [lib/fmt/].  A routine is given [dest], true when the
    destination pointer is not [NULL], and gives the bytes it stores from
    [dest] on and the length it returns ([out]).  Loops that fill a number
    from the last digit down ([*--dest = ...]) put each digit before the
    digits already stored.  [None] is undefined behaviour: a store through
    [NULL] or an overflow of signed arithmetic. *)
From S2P Require Import Prelude Digits.

(** [*--dest = (tmp % 10) + '0'] for the [len] digits counted before. *)
Fixpoint put_dec (len : nat) (tmp : Z) (acc : list Z) : list Z :=
  match len with
  | O => acc
  | S len' => put_dec len' (tmp / 10) (u8 (tmp mod 10 + 48) :: acc)
  end.

Definition fmt_ulong (dest : bool) (i : Z) : out :=
  let len := count_digits 9 (fun t => t / 10) 64 1 i in
  (if dest then put_dec len i [] else [], len).

Definition fmt_ulonglong (dest : bool) (i : Z) : out :=
  let len := count_digits 9 (fun t => t / 10) 64 1 i in
  (if dest then put_dec len i [] else [], len).

(** [(unsigned long)-i]: the negation is an operation on [long]. *)
Definition fmt_long (dest : bool) (i : Z) : option out :=
  if i <? 0 then
    n ← chk64 (- i);
    let '(b, len) := fmt_ulong dest (u64 n) in
    Some ((if dest then "-"%C :: b else []), (len + 1)%nat)
  else Some (fmt_ulong dest (u64 i)).

Definition fmt_longlong (dest : bool) (i : Z) : option out :=
  if i <? 0 then
    n ← chk64 (- i);
    let '(b, len) := fmt_ulonglong dest (u64 n) in
    Some ((if dest then "-"%C :: b else []), (len + 1)%nat)
  else Some (fmt_ulonglong dest (u64 i)).

(** Zeros while [len < pad], then the number; the value returned is [len]
    after the padding. *)
Definition fmt_ulong0 (dest : bool) (i : Z) (pad : nat) : out :=
  let len := count_digits 9 (fun t => t / 10) 64 1 i in
  if dest then
    (replicate (pad - len) "0"%C ++ fst (fmt_ulong true i),
     (len + (pad - len))%nat)
  else ([], if (len <? pad)%nat then pad else len).

Definition fmt_tohex (c : Z) : Z :=
  let c := s8 c in
  if 10 <=? c then u8 (c - 10 + 97) else u8 (c + 48).

(** [*--dest = tohex(tmp & 15); if(!(tmp >>= 4)) break;].  The fuel is the
    number of digits, at most 16. *)
Fixpoint put_hex (fuel : nat) (tmp : Z) (acc : list Z) : list Z :=
  match fuel with
  | O => acc
  | S fuel' =>
      let acc := fmt_tohex (Z.land tmp 15) :: acc in
      let tmp := Z.shiftr tmp 4 in
      if tmp =? 0 then acc else put_hex fuel' tmp acc
  end.

Definition fmt_xlong (dest : bool) (i : Z) : out :=
  let len := count_digits 15 (fun t => Z.shiftr t 4) 64 1 i in
  (if dest then put_hex 64 i [] else [], len).

Definition fmt_xlonglong (dest : bool) (i : Z) : out :=
  let len := count_digits 15 (fun t => Z.shiftr t 4) 64 1 i in
  (if dest then put_hex 64 i [] else [], len).

(** [fmt_xlong0] stores its padding and the number without testing [dest]. *)
Definition fmt_xlong0 (dest : bool) (num : Z) (n : nat) : option out :=
  if dest then
    let len := snd (fmt_xlong false num) in
    let i := if (len <? n)%nat then (n - len)%nat else O in
    let '(b, k) := fmt_xlong true num in
    Some (replicate i "0"%C ++ b, (i + k)%nat)
  else None.

Fixpoint put_oct (fuel : nat) (tmp : Z) (acc : list Z) : list Z :=
  match fuel with
  | O => acc
  | S fuel' =>
      let acc := u8 (Z.land tmp 7 + 48) :: acc in
      let tmp := Z.shiftr tmp 3 in
      if tmp =? 0 then acc else put_oct fuel' tmp acc
  end.

Definition fmt_8long (dest : bool) (i : Z) : out :=
  let len := count_digits 7 (fun t => Z.shiftr t 3) 64 1 i in
  (if dest then put_oct 64 i [] else [], len).

Definition fmt_octal (dest : bool) (i : Z) : out :=
  let len := count_digits 7 (fun t => Z.shiftr t 3) 64 1 i in
  (if dest then put_oct 64 i [] else [], len).

Definition fmt_minus (dest : bool) (i : Z) : out :=
  if i <? 0 then (if dest then ["-"%C] else [], 1%nat) else ([], 0%nat).

Definition fmt_plusminus (dest : bool) (i : Z) : out :=
  if negb (i =? 0) then
    (if dest then [if 0 <=? i then "+"%C else "-"%C] else [], 1%nat)
  else ([], 0%nat).

(** [fmt_2digits] always stores; [/] and [%] of C truncate. *)
Definition fmt_2digits (i : Z) : out :=
  ([u8 (Z.quot i 10 + 48); u8 (Z.rem i 10 + 48)], 2%nat).

(** Kilo, mega, giga and tera with one decimal digit. *)
Definition human_tail (dest : bool) (l unit : Z) : out :=
  if dest then
    let '(b, i) := fmt_ulong true (l / 10) in
    (b ++ ["."%C; u8 (l mod 10 + 48); unit], (i + 3)%nat)
  else ([], (snd (fmt_ulong false l) + 2)%nat).

Definition fmt_human (dest : bool) (l : Z) : out :=
  if l <? 1000 then fmt_ulong dest l
  else if 1000000000000 <? l then
    let l := l / 1000 in
    human_tail dest (u64 (l + 50000000) / 100000000) "T"%C
  else if 1000000000 <? l then
    human_tail dest (u64 (l + 50000000) / 100000000) "G"%C
  else if 1000000 <? l then
    human_tail dest (u64 (l + 50000) / 100000) "M"%C
  else human_tail dest (u64 (l + 50) / 100) "k"%C.

Definition fmt_humank (dest : bool) (l : Z) : out :=
  if l <? 1000 then fmt_ulong dest l
  else if 1024 * 1024 * 1024 * 1024 <? l then
    human_tail dest
      (u64 (l + 1024 * 1024 * 1024 * 1024 / 20) /
       (1024 * 1024 * 1024 * 1024 / 10)) "T"%C
  else if 1024 * 1024 * 1024 <? l then
    human_tail dest
      (u64 (l + 1024 * 1024 * 1024 / 20) / (1024 * 1024 * 1024 / 10)) "G"%C
  else if 1024 * 1024 <? l then
    human_tail dest (u64 (l + 1024 * 1024 / 20) / (1024 * 1024 / 10)) "M"%C
  else human_tail dest (u64 (l + 1024 / 20) / (1024 / 10)) "k"%C.

(** Strings: the bytes before the terminator. *)
Fixpoint fmt_str (dest : bool) (s : list Z) : option out :=
  match s with
  | [] => None
  | c :: s' =>
      if c =? 0 then Some (if dest then [0] else [], 0%nat)
      else
        '(b, n) ← fmt_str dest s';
        Some (if dest then c :: b else [], S n)
  end.

(** [fmt_strn] tests the byte before the limit. *)
Fixpoint fmt_strn (dest : bool) (s : list Z) (limit : nat) : option out :=
  match s with
  | [] => None
  | c :: s' =>
      if c =? 0 then Some ([], 0%nat) else
      match limit with
      | O => Some ([], 0%nat)
      | S limit' =>
          '(b, n) ← fmt_strn dest s' limit';
          Some (if dest then c :: b else [], S n)
      end
  end.

(** [fmt_strm_internal]: the strings one after the other; each [fmt_str]
    leaves a terminator that the next string overwrites. *)
Fixpoint fmt_strm_internal (dest : bool) (args : list (list Z)) (n : nat)
  : option out :=
  match args with
  | [] => Some ([], n)
  | s :: args' =>
      '(b, inc) ← fmt_str dest s;
      '(b', n') ← fmt_strm_internal dest args' (n + inc);
      Some (if dest then take inc b ++ (if decide (b' = []) then drop inc b
                                        else b') else [], n')
  end.

(** The stores of [for(; todo > 0; --todo) { if(dest > max) break; ... }] at
    the offset [off]: a store at the offset [maxlen] is still made. *)
Fixpoint pad_spaces (todo off maxlen : nat) : list Z :=
  match todo with
  | O => []
  | S todo' =>
      if (maxlen <? off)%nat then []
      else 32 :: pad_spaces todo' (S off) maxlen
  end.

Fixpoint pad_copy (todo off maxlen : nat) (src : list Z) : option (list Z) :=
  match todo with
  | O => Some []
  | S todo' =>
      if (maxlen <? off)%nat then Some [] else
      match src with
      | [] => None
      | c :: src' => l ← pad_copy todo' (S off) maxlen src'; Some (c :: l)
      end
  end.

(** The lengths are taken below the sign bit of [long], which the routines
    test first. *)
Definition fmt_pad (dest : bool) (src : list Z) (srclen padlen maxlen : nat)
  : option out :=
  if dest then
    let sp := pad_spaces (padlen - srclen) 0 maxlen in
    cp ← pad_copy (Nat.min srclen maxlen) (length sp) maxlen src;
    Some (sp ++ cp, (length sp + length cp)%nat)
  else Some ([], Nat.min (Nat.max srclen padlen) maxlen).

(** [fmt_fill] leaves the [srclen] bytes at [dest] alone; its stores start
    behind them. *)
Definition fmt_fill (dest : bool) (srclen padlen maxlen : nat) : out :=
  if (maxlen <? srclen)%nat then ([], maxlen)
  else if dest then
    let sp := pad_spaces (padlen - srclen) srclen maxlen in
    (sp, (srclen + length sp)%nat)
  else ([], Nat.min (Nat.max srclen padlen) maxlen).

(** Bytes as pairs of hexadecimal digits.  [*buf >> 4] is a shift of a
    [char], whose sign the mask removes. *)
Definition hexchars : list Z := lit "0123456789abcdef".

Definition hexpair (c : Z) : list Z :=
  [nth (Z.to_nat (Z.land (Z.shiftr (s8 c) 4) 15)) hexchars 0;
   nth (Z.to_nat (Z.land (s8 c) 15)) hexchars 0].

Fixpoint fmt_hexb_loop (d : list Z) (len : nat) : option (list Z) :=
  match len with
  | O => Some []
  | S len' =>
      match d with
      | [] => None
      | c :: d' => l ← fmt_hexb_loop d' len'; Some (hexpair c ++ l)
      end
  end.

Definition fmt_hexb (dest : bool) (d : list Z) (len : nat)
  : option (list Z * Z) :=
  l ← (if dest then fmt_hexb_loop d len else Some []);
  Some (l, u32 (Z.of_nat len * 2)).

Fixpoint fmt_hexbs_loop (d : list Z) (len : nat) (first : bool)
  : option (list Z) :=
  match len with
  | O => Some []
  | S len' =>
      match d with
      | [] => None
      | c :: d' =>
          l ← fmt_hexbs_loop d' len' false;
          Some ((if first then [] else [32]) ++ hexpair c ++ l)
      end
  end.

Definition fmt_hexbs (dest : bool) (d : list Z) (len : nat)
  : option (list Z * Z) :=
  l ← (if dest then fmt_hexbs_loop d len true else Some []);
  Some (l, u32 (Z.of_nat len * 3 - 1)).

Arguments fmt_ulong : simpl never.
Arguments fmt_ulonglong : simpl never.
Arguments fmt_xlong : simpl never.
Arguments fmt_8long : simpl never.

(** * Lemmas: the stored bytes are the digits of the numeral *)

Definition dec_char (d : Z) : Z := d + 48.
Definition hex_char (d : Z) : Z := if 10 <=? d then d + 87 else d + 48.

Lemma put_dec_spec (f : nat) (i : Z) (acc : list Z) :
  (0 < f)%nat -> 0 <= i < 2 ^ Z.of_nat f ->
  put_dec (length (digits_acc 10 f i [])) i acc =
  (dec_char <$> digits_acc 10 f i []) ++ acc.
Proof.
  revert i acc. induction f as [|f IH]; intros i acc Hf Hi; [lia|].
  assert (forall d, 0 <= d < 10 -> u8 (d + 48) = dec_char d) as Hd.
  { intros. unfold dec_char. apply u8_id. unfold is_u8. lia. }
  simpl. destruct (Z.ltb_spec i 10).
  { simpl. rewrite Z.mod_small by lia. by rewrite Hd by lia. }
  rewrite digits_acc_app, length_app, Nat.add_comm. simpl.
  destruct f as [|f]; [change (2 ^ Z.of_nat 1) with 2 in Hi; lia|].
  rewrite IH by (lia || by apply div_fuel).
  rewrite fmap_app, <- app_assoc. simpl. rewrite Hd by zmod. done.
Qed.

(** A loop that stores the low digit and stops when the rest is zero. *)
Lemma put_loop_spec (B : Z) (chr next : Z -> Z)
    (loop : nat -> Z -> list Z -> list Z) :
  2 <= B ->
  (forall f x acc, loop (S f) x acc =
     if next x =? 0 then chr (x mod B) :: acc
     else loop f (next x) (chr (x mod B) :: acc)) ->
  (forall x, 0 <= x -> next x = x / B) ->
  forall f i acc, (0 < f)%nat -> 0 <= i < 2 ^ Z.of_nat f ->
    loop f i acc = (chr <$> digits_acc B f i []) ++ acc.
Proof.
  intros HB Hloop Hnext f. induction f as [|f IH]; intros i acc Hf Hi; [lia|].
  rewrite Hloop, Hnext by lia. simpl.
  destruct (Z.ltb_spec i B).
  { rewrite Z.div_small, Z.mod_small by lia. done. }
  destruct (Z.eqb_spec (i / B) 0) as [E|E].
  { apply Z.div_small_iff in E; lia. }
  rewrite digits_acc_app, fmap_app, <- app_assoc. simpl.
  destruct f as [|f]; [change (2 ^ Z.of_nat 1) with 2 in Hi; lia|].
  apply IH; [lia|]. by apply div_fuel.
Qed.

Lemma fmt_tohex_char (c : Z) : 0 <= c < 16 -> fmt_tohex c = hex_char c.
Proof.
  intros. unfold fmt_tohex, hex_char. replace (s8 c) with c by zmod.
  destruct (Z.leb_spec 10 c); rewrite u8_id by (unfold is_u8; lia); lia.
Qed.

Lemma u64_pow (i : Z) : is_u64 i -> 0 <= i < 2 ^ Z.of_nat 64.
Proof. done. Qed.
#[export] Hint Resolve u64_pow : dl.

Lemma shiftr_div (k : Z) (x : Z) : 0 <= k -> Z.shiftr x k = x / 2 ^ k.
Proof. intros. by apply Z.shiftr_div_pow2. Qed.

Lemma put_hex_spec (i : Z) (acc : list Z) :
  is_u64 i -> put_hex 64 i acc = (hex_char <$> numeral 16 i) ++ acc.
Proof.
  intros Hi. apply (put_loop_spec 16 hex_char (fun t => Z.shiftr t 4) put_hex);
    [done| | |lia|by apply u64_pow].
  - intros f x a. simpl.
    rewrite (land_low x 4) by done. rewrite fmt_tohex_char by zmod. done.
  - intros x _. by apply (shiftr_div 4).
Qed.

Lemma put_oct_spec (i : Z) (acc : list Z) :
  is_u64 i -> put_oct 64 i acc = (dec_char <$> numeral 8 i) ++ acc.
Proof.
  intros Hi. apply (put_loop_spec 8 dec_char (fun t => Z.shiftr t 3) put_oct);
    [done| | |lia|by apply u64_pow].
  - intros f x a. simpl. rewrite (land_low x 3) by done.
    by rewrite u8_id by zmod.
  - intros x _. by apply (shiftr_div 3).
Qed.

(** The three printing routines in terms of the reference numeral. *)
Definition num_out (dest : bool) (chr : Z -> Z) (B i : Z) : out :=
  (if dest then chr <$> numeral B i else [], length (numeral B i)).

Lemma fmt_ulong_num (dest : bool) (i : Z) :
  is_u64 i -> fmt_ulong dest i = num_out dest dec_char 10 i.
Proof.
  intros Hi. unfold fmt_ulong, num_out.
  rewrite (numeral_count 10 i) by done. destruct dest; [|done]. f_equal.
  unfold numeral at 1. rewrite put_dec_spec by (lia || by apply u64_pow).
  by rewrite app_nil_r.
Qed.

Lemma fmt_ulonglong_num (dest : bool) (i : Z) :
  is_u64 i -> fmt_ulonglong dest i = num_out dest dec_char 10 i.
Proof. apply fmt_ulong_num. Qed.

Lemma fmt_xlong_num (dest : bool) (i : Z) :
  is_u64 i -> fmt_xlong dest i = num_out dest hex_char 16 i.
Proof.
  intros Hi. unfold fmt_xlong, num_out.
  rewrite (numeral_count 16 i) by (done || by intros; apply (shiftr_div 4)).
  destruct dest; [|done]. f_equal. by rewrite put_hex_spec, app_nil_r.
Qed.

Lemma fmt_8long_num (dest : bool) (i : Z) :
  is_u64 i -> fmt_8long dest i = num_out dest dec_char 8 i.
Proof.
  intros Hi. unfold fmt_8long, num_out.
  rewrite (numeral_count 8 i) by (done || by intros; apply (shiftr_div 3)).
  destruct dest; [|done]. f_equal. by rewrite put_oct_spec, app_nil_r.
Qed.

Lemma neg_u64 (i : Z) : -9223372036854775808 < i < 0 ->
  chk64 (- i) = Some (- i) /\ u64 (- i) = - i /\ is_u64 (- i).
Proof.
  intros. unfold chk64. split; [|split; zmod].
  ztrue (-9223372036854775808 <=? - i). by ztrue (- i <? 9223372036854775808).
Qed.

Lemma fmt_long_num (dest : bool) (i : Z) :
  -9223372036854775808 < i < 9223372036854775808 ->
  fmt_long dest i = Some
    (if i <? 0 then
       (if dest then "-"%C :: (dec_char <$> numeral 10 (- i)) else [],
        S (length (numeral 10 (- i))))
     else num_out dest dec_char 10 i).
Proof.
  intros Hi. unfold fmt_long. destruct (Z.ltb_spec i 0).
  - destruct (neg_u64 i) as (-> & Hu & Hr); [lia|].
    cbn [mbind option_bind]. rewrite Hu.
    rewrite fmt_ulong_num by done. unfold num_out.
    destruct dest; by rewrite Nat.add_1_r.
  - rewrite u64_id by (unfold is_u64; lia).
    by rewrite fmt_ulong_num by (unfold is_u64; lia).
Qed.
#[export] Hint Rewrite fmt_ulong_num fmt_ulonglong_num fmt_xlong_num
  fmt_8long_num using done : dlr.

(** * Lemmas: padding *)

Lemma fmt_ulong0_num (dest : bool) (i : Z) (pad : nat) :
  is_u64 i ->
  fmt_ulong0 dest i pad =
  (if dest then replicate (pad - length (numeral 10 i)) 48 ++
               (dec_char <$> numeral 10 i) else [],
   Nat.max pad (length (numeral 10 i))).
Proof.
  intros Hi. unfold fmt_ulong0. rewrite (numeral_count 10 i) by done.
  rewrite fmt_ulong_num by done. destruct dest; simpl; f_equal; [lia|].
  destruct (Nat.ltb_spec (length (numeral 10 i)) pad); lia.
Qed.

Lemma pad_spaces_length (todo off maxlen : nat) :
  length (pad_spaces todo off maxlen) = Nat.min todo (S maxlen - off).
Proof.
  revert off. induction todo as [|t IH]; intros off; [done|].
  cbn [pad_spaces]. destruct (Nat.ltb_spec maxlen off); cbn [length]; [lia|].
  rewrite IH. lia.
Qed.

Lemma pad_copy_spec (todo off maxlen : nat) (src : list Z) :
  (todo <= length src)%nat ->
  pad_copy todo off maxlen src =
  Some (take (Nat.min todo (S maxlen - off)) src).
Proof.
  revert off src. induction todo as [|t IH]; intros off src H; [done|].
  cbn [pad_copy]. destruct (Nat.ltb_spec maxlen off).
  { by replace (S maxlen - off)%nat with 0%nat by lia. }
  destruct src as [|c src]; cbn [length] in H; [lia|]. rewrite IH by lia.
  by replace (S maxlen - off)%nat with (S (S maxlen - S off)) by lia.
Qed.
