(* ===== verification/ScanNum.v ===== *)
(** Parsing integers and skipping characters: [lib/scan/].  A routine reads
    through the pointer [src] (the bytes up to the end of the object), is
    given the old content of [*dest], and gives the number of characters
    parsed and the new content of [*dest].  [None] is undefined behaviour: a
    read behind the object, or an overflow of signed arithmetic. *)
From S2P Require Import Prelude Digits.

(** * Decimal *)

(** [n = l << 3; if((n >> 3) != l) break; ...]: the shift-and-add step with
    its overflow tests, for the limit [n] of [scan_ulongn]. *)
Fixpoint scan_ulongn_loop (src : list Z) (n l : Z) (k : nat)
  : option (nat * Z) :=
  if n =? 0 then Some (k, l) else
  match src with
  | [] => None
  | x :: src' =>
      let c := u8 (x - 48) in
      if negb (c <? 10) then Some (k, l) else
      let m := u64 (Z.shiftl l 3) in
      if negb (Z.shiftr m 3 =? l) then Some (k, l) else
      if u64 (u64 (m + u64 (Z.shiftl l 1)) + c) <? m then Some (k, l) else
      scan_ulongn_loop src' (n - 1) (u64 (u64 (m + u64 (Z.shiftl l 1)) + c))
        (S k)
  end.

Definition scan_ulongn (src : list Z) (n dest : Z) : option (nat * Z) :=
  '(k, l) ← scan_ulongn_loop src n 0 0;
  Some (k, if (k =? 0)%nat then dest else l).

Definition scan_ulong (src : list Z) (dest : Z) : option (nat * Z) :=
  scan_ulongn src (u64 (-1)) dest.

Fixpoint scan_ulonglong_loop (src : list Z) (l : Z) (k : nat)
  : option (nat * Z) :=
  match src with
  | [] => None
  | x :: src' =>
      let c := u8 (x - 48) in
      if negb (c <? 10) then Some (k, l) else
      let n := u64 (Z.shiftl l 3) in
      if negb (Z.shiftr n 3 =? l) then Some (k, l) else
      if u64 (n + u64 (Z.shiftl l 1)) <? n then Some (k, l) else
      let n := u64 (n + u64 (Z.shiftl l 1)) in
      if u64 (n + c) <? n then Some (k, l) else
      scan_ulonglong_loop src' (u64 (n + c)) (S k)
  end.

Definition scan_ulonglong (src : list Z) (dest : Z) : option (nat * Z) :=
  '(k, l) ← scan_ulonglong_loop src 0 0;
  Some (k, if (k =? 0)%nat then dest else l).

(** [scan_uint] and [scan_ushort] compute in [unsigned long] and compare with
    the truncation; [w] is the truncation. *)
Fixpoint scan_trunc_loop (w : Z -> Z) (src : list Z) (l : Z) (k : nat)
  : option (nat * Z) :=
  match src with
  | [] => None
  | x :: src' =>
      if (48 <=? s8 x) && (s8 x <=? 57) then
        let tmp := u64 (u64 (u64 (l * 10) + s8 x) - 48) in
        if negb (w tmp =? tmp) then Some (k, l)
        else scan_trunc_loop w src' (w tmp) (S k)
      else Some (k, l)
  end.

Definition scan_uint (src : list Z) (dest : Z) : option (nat * Z) :=
  '(k, l) ← scan_trunc_loop u32 src 0 0;
  Some (k, if (0 <? k)%nat then l else dest).

Definition scan_ushort (src : list Z) (dest : Z) : option (nat * Z) :=
  '(k, l) ← scan_trunc_loop u16 src 0 0;
  Some (k, if (0 <? k)%nat then l else dest).

(** The sign: [neg] and the number of characters it takes. *)
Definition scan_sign (x : Z) : Z * nat :=
  if x =? "-"%C then (1, 1%nat) else if x =? "+"%C then (0, 1%nat) else (0, 0%nat).

(** The loop of [scan_longn]; [l] is a [long], [maxlong = 2^63 - 1]. *)
Fixpoint scan_longn_loop (src : list Z) (n neg l : Z) (k : nat) (ok : bool)
  : option (nat * Z * bool) :=
  if n =? 0 then Some (k, l, ok) else
  match src with
  | [] => None
  | x :: src' =>
      let c := u8 (x - 48) in
      if negb (c <? 10) then Some (k, l, ok) else
      let m := u64 (Z.shiftl (u64 l) 3) in
      if negb (Z.shiftr m 3 =? u64 l) then Some (k, l, ok) else
      if u64 (m + u64 (Z.shiftl (u64 l) 1)) <? m then Some (k, l, ok) else
      let m := u64 (m + u64 (Z.shiftl (u64 l) 1)) in
      if u64 (m + c) <? m then Some (k, l, ok) else
      let m := u64 (m + c) in
      if u64 (9223372036854775807 + neg) <? m then Some (k, l, ok) else
      scan_longn_loop src' (n - 1) neg (s64 m) (S k) true
  end.

(** [*dest = (neg ? -l : l)] negates a [long]. *)
Definition scan_longn (src : list Z) (n dest : Z) : option (nat * Z) :=
  if n =? 0 then Some (0%nat, dest) else
  match src with
  | [] => None
  | x :: _ =>
      let '(neg, o) := scan_sign x in
      '(k, l, ok) ← scan_longn_loop (drop o src) (n - 1) neg 0 o false;
      if negb (ok : bool) then Some (0%nat, dest)
      else v ← (if negb (neg =? 0) then chk64 (- l) else Some l); Some (k, v)
  end.

Definition scan_long (src : list Z) (dest : Z) : option (nat * Z) :=
  scan_longn src (u64 (-1)) dest.

Fixpoint scan_int_loop (src : list Z) (neg l : Z) (k : nat) (ok : bool)
  : option (nat * Z * bool) :=
  match src with
  | [] => None
  | x :: src' =>
      let c := u8 (x - 48) in
      if negb (c <? 10) then Some (k, l, ok) else
      let n := u32 (Z.shiftl (u32 l) 3) in
      if negb (Z.shiftr n 3 =? u32 l) then Some (k, l, ok) else
      if u32 (n + u32 (Z.shiftl (u32 l) 1)) <? n then Some (k, l, ok) else
      let n := u32 (n + u32 (Z.shiftl (u32 l) 1)) in
      if u32 (n + c) <? n then Some (k, l, ok) else
      let n := u32 (n + c) in
      if u32 (2147483647 + neg) <? n then Some (k, l, ok) else
      scan_int_loop src' neg (s32 n) (S k) true
  end.

Definition scan_int (src : list Z) (dest : Z) : option (nat * Z) :=
  match src with
  | [] => None
  | x :: _ =>
      let '(neg, o) := scan_sign x in
      '(k, l, ok) ← scan_int_loop (drop o src) neg 0 o false;
      if negb (ok : bool) then Some (0%nat, dest)
      else v ← (if negb (neg =? 0) then chk32 (- l) else Some l); Some (k, v)
  end.

(** A [short] is computed in [int]: a sum is never less than its summand, and
    the shift of a negative number is undefined. *)
Fixpoint scan_short_loop (src : list Z) (neg l : Z) (k : nat) (ok : bool)
  : option (nat * Z * bool) :=
  match src with
  | [] => None
  | x :: src' =>
      let c := u8 (x - 48) in
      if negb (c <? 10) then Some (k, l, ok) else
      if l <? 0 then None else
      let n := u16 (Z.shiftl l 3) in
      if negb (Z.shiftr n 3 =? u16 l) then Some (k, l, ok) else
      if n + Z.shiftl l 1 <? n then Some (k, l, ok) else
      let n := u16 (n + Z.shiftl l 1) in
      if n + c <? n then Some (k, l, ok) else
      let n := u16 (n + c) in
      if 32767 + neg <? n then Some (k, l, ok) else
      scan_short_loop src' neg (s16 n) (S k) true
  end.

Definition scan_short (src : list Z) (dest : Z) : option (nat * Z) :=
  match src with
  | [] => None
  | x :: _ =>
      let '(neg, o) := scan_sign x in
      '(k, l, ok) ← scan_short_loop (drop o src) neg 0 o false;
      Some (if negb (ok : bool) then (0%nat, dest)
            else (k, s16 (if negb (neg =? 0) then - l else l)))
  end.

(** One digit back when the value does not fit. *)
Definition scan_longlong (src : list Z) (dest : Z) : option (nat * Z) :=
  match src with
  | [] => None
  | c :: _ =>
      let neg := if c =? "-"%C then 1 else 0 in
      let o := if (c =? "-"%C) || (c =? "+"%C) then 1%nat else 0%nat in
      '(i, l) ← scan_ulonglong (drop o src) 0;
      if (i =? 0)%nat then Some (0%nat, dest) else
      let '(i, l) :=
        if u64 (9223372036854775807 + neg) <? l then ((i - 1)%nat, l / 10)
        else (i, l) in
      Some ((i + o)%nat,
            if (i + o =? 0)%nat then dest
            else s64 (if c =? "-"%C then u64 (- l) else l))
  end.

(** * Octal: three bits a digit, stop when the top three bits are used *)

Fixpoint scan_8longn_loop (src : list Z) (n l : Z) (k : nat)
  : option (nat * Z) :=
  if n =? 0 then Some (k, l) else
  match src with
  | [] => None
  | x :: src' =>
      let c := u8 (x - 48) in
      if negb (c <? 8) then Some (k, l) else
      if negb (Z.shiftr l 61 =? 0) then Some (k, l) else
      scan_8longn_loop src' (n - 1) (u64 (u64 (l * 8) + c)) (S k)
  end.

Definition scan_8longn (src : list Z) (n : Z) : option (nat * Z) :=
  scan_8longn_loop src n 0 0.

Definition scan_8long (src : list Z) : option (nat * Z) :=
  scan_8longn src (u64 (-1)).

Fixpoint scan_8int_loop (src : list Z) (l : Z) (k : nat) : option (nat * Z) :=
  match src with
  | [] => None
  | x :: src' =>
      let c := u8 (x - 48) in
      if negb (c <? 8) then Some (k, l) else
      if negb (Z.shiftr l 29 =? 0) then Some (k, l) else
      scan_8int_loop src' (u32 (u32 (l * 8) + c)) (S k)
  end.

Definition scan_8int (src : list Z) : option (nat * Z) := scan_8int_loop src 0 0.

Fixpoint scan_8short_loop (src : list Z) (l : Z) (k : nat) : option (nat * Z) :=
  match src with
  | [] => None
  | x :: src' =>
      let c := u8 (x - 48) in
      if negb (c <? 8) then Some (k, l) else
      if negb (Z.shiftr l 13 =? 0) then Some (k, l) else
      scan_8short_loop src' (u16 (l * 8 + c)) (S k)
  end.

Definition scan_8short (src : list Z) : option (nat * Z) :=
  scan_8short_loop src 0 0.

Fixpoint scan_octal_loop (src : list Z) (l : Z) (k : nat) : option (nat * Z) :=
  match src with
  | [] => None
  | x :: src' =>
      let c := u8 (x - 48) in
      if negb (c <? 8) then Some (k, l) else
      if negb (Z.shiftr l 61 =? 0) then Some (k, l) else
      scan_octal_loop src' (u64 (u64 (l * 8) + c)) (S k)
  end.

Definition scan_octal (src : list Z) : option (nat * Z) :=
  scan_octal_loop src 0 0.

(** * Hexadecimal *)

(** The value of a hexadecimal digit by wrap-around of [unsigned char]. *)
Definition scan_fromhex (c : Z) : Z :=
  let c := u8 (c - 48) in
  if c <=? 9 then c else
  let c := Z.land c (u8 (-33)) in
  let c := u8 (c - 17) in
  if c <? 6 then c + 10 else -1.

(** The version its comment calls more readable. *)
Definition fromhex_readable (c : Z) : Z :=
  if (48 <=? c) && (c <=? 57) then c - 48
  else if (65 <=? c) && (c <=? 70) then c - 65 + 10
  else if (97 <=? c) && (c <=? 102) then c - 97 + 10
  else -1.

(** [c = (unsigned char)scan_fromhex(...)]: no digit is 255. *)
Definition hexval (x : Z) : Z := u8 (scan_fromhex x).

Fixpoint scan_xlongn_loop (src : list Z) (n l : Z) (k : nat)
  : option (nat * Z) :=
  if (n =? 0) || negb (Z.shiftr l 60 =? 0) then Some (k, l) else
  match src with
  | [] => None
  | x :: src' =>
      if negb (hexval x <? 16) then Some (k, l) else
      scan_xlongn_loop src' (n - 1) (u64 (u64 (Z.shiftl l 4) + hexval x)) (S k)
  end.

Definition scan_xlongn (src : list Z) (n : Z) : option (nat * Z) :=
  scan_xlongn_loop src n 0 0.

Fixpoint scan_xint_loop (src : list Z) (l : Z) (k : nat) : option (nat * Z) :=
  if negb (Z.shiftr l 28 =? 0) then Some (k, l) else
  match src with
  | [] => None
  | x :: src' =>
      if negb (hexval x <? 16) then Some (k, l) else
      scan_xint_loop src' (u32 (u32 (Z.shiftl l 4) + hexval x)) (S k)
  end.

Definition scan_xint (src : list Z) : option (nat * Z) := scan_xint_loop src 0 0.

(** [if(++tmp == src + room) break;]: two digits for a character, four for a
    short. *)
Fixpoint scan_xchar_loop (src : list Z) (l : Z) (k : nat) : option (nat * Z) :=
  if negb (Z.shiftr l 4 =? 0) then Some (k, l) else
  match src with
  | [] => None
  | x :: src' =>
      if negb (hexval x <? 16) then Some (k, l) else
      let l := u8 (Z.shiftl l 4 + hexval x) in
      if (S k =? 2)%nat then Some (S k, l) else scan_xchar_loop src' l (S k)
  end.

Definition scan_xchar (src : list Z) : option (nat * Z) :=
  scan_xchar_loop src 0 0.

Fixpoint scan_xshort_loop (src : list Z) (l : Z) (k : nat) : option (nat * Z) :=
  if negb (Z.shiftr l 12 =? 0) then Some (k, l) else
  match src with
  | [] => None
  | x :: src' =>
      if negb (hexval x <? 16) then Some (k, l) else
      let l := u16 (Z.shiftl l 4 + hexval x) in
      if (S k =? 4)%nat then Some (S k, l) else scan_xshort_loop src' l (S k)
  end.

Definition scan_xshort (src : list Z) : option (nat * Z) :=
  scan_xshort_loop src 0 0.

(** [scan_xlong] and [scan_xlonglong] test no overflow: the top digits fall
    out of the word.  ([scan_xlonglong] computes in [int64], whose wrap the
    final conversion to [uint64] gives.) *)
Fixpoint scan_xlong_loop (src : list Z) (l : Z) (k : nat) : option (nat * Z) :=
  match src with
  | [] => None
  | x :: src' =>
      if negb (hexval x <? 16) then Some (k, l) else
      scan_xlong_loop src' (u64 (u64 (Z.shiftl l 4) + hexval x)) (S k)
  end.

Definition scan_xlong (src : list Z) : option (nat * Z) :=
  scan_xlong_loop src 0 0.

(** * Signs and units *)

Definition scan_plusminus (src : list Z) : option (nat * Z) :=
  match src with
  | [] => None
  | x :: _ =>
      Some (if x =? "-"%C then (1%nat, -1)
            else if x =? "+"%C then (1%nat, 1) else (0%nat, 1))
  end.

Definition scan_human (src : list Z) (dest : Z) : option (nat * Z) :=
  '(n, d) ← scan_ulonglong src dest;
  c ← load src n;
  Some (if c =? "G"%C then (S n, u64 (u64 (u64 (d * 1024) * 1024) * 1024))
        else if c =? "M"%C then (S n, u64 (u64 (d * 1024) * 1024))
        else if (c =? "K"%C) || (c =? "k"%C) then (S n, u64 (d * 1024))
        else (n, d)).

(** * Skipping *)

Fixpoint scan_line (s : list Z) (limit : nat) {struct limit} : option nat :=
  match limit with
  | O => Some O
  | S limit' =>
      match s with
      | [] => None
      | c :: s' =>
          if (c =? 10) || (c =? 13) then Some O
          else S <$> scan_line s' limit'
      end
  end.

Fixpoint scan_lineskip (s : list Z) (limit : nat) {struct limit}
  : option nat :=
  match limit with
  | O => Some O
  | S limit' =>
      match s with
      | [] => None
      | c :: s' =>
          if c =? 10 then Some 1%nat else S <$> scan_lineskip s' limit'
      end
  end.

Definition scan_eolskip (s : list Z) (limit : nat) : option nat :=
  crlf ← (if (1 <? limit)%nat then
            a ← load s 0;
            if a =? 13 then b ← load s 1; Some (b =? 10) else Some false
          else Some false);
  if (crlf : bool) then Some 2%nat
  else if (0 <? limit)%nat then
    a ← load s 0; Some (if a =? 10 then 1%nat else 0%nat)
  else Some 0%nat.

Fixpoint scan_whitenskip (s : list Z) (limit : nat) {struct limit}
  : option nat :=
  match limit with
  | O => Some O
  | S limit' =>
      match s with
      | [] => None
      | c :: s' =>
          if isspace c then S <$> scan_whitenskip s' limit' else Some O
      end
  end.

Fixpoint scan_nonwhitenskip (s : list Z) (limit : nat) {struct limit}
  : option nat :=
  match limit with
  | O => Some O
  | S limit' =>
      match s with
      | [] => None
      | c :: s' =>
          if isspace c then Some O else S <$> scan_nonwhitenskip s' limit'
      end
  end.

(** [for(i = charset; *i; ++i) if( *i == *t) break;] and what [*i] is then. *)
Fixpoint charset_at (charset : list Z) (c : Z) : option Z :=
  match charset with
  | [] => None
  | i :: charset' =>
      if i =? 0 then Some 0 else if i =? c then Some i
      else charset_at charset' c
  end.

Fixpoint scan_charsetnskip (s charset : list Z) (limit : nat) {struct limit}
  : option nat :=
  match limit with
  | O => Some O
  | S limit' =>
      match s with
      | [] => None
      | c :: s' =>
          i ← charset_at charset c;
          if negb (i =? c) then Some O
          else S <$> scan_charsetnskip s' charset limit'
      end
  end.

Fixpoint scan_noncharsetnskip (s charset : list Z) (limit : nat)
    {struct limit} : option nat :=
  match limit with
  | O => Some O
  | S limit' =>
      match s with
      | [] => None
      | c :: s' =>
          i ← charset_at charset c;
          if i =? c then Some O
          else S <$> scan_noncharsetnskip s' charset limit'
      end
  end.

(** [while(++i < limit && !isalpha(s[i]));] from [i]; gives the last [i]. *)
Fixpoint ansi_params (s : list Z) (limit i fuel : nat) : option nat :=
  match fuel with
  | O => Some i
  | S fuel' =>
      if (S i <? limit)%nat then
        c ← load s (S i);
        if negb (isalpha c) then ansi_params s limit (S i) fuel' else Some (S i)
      else Some (S i)
  end.

Definition scan_ansiskip (s : list Z) (limit : nat) : option nat :=
  a ← load s 0;
  if negb (a =? 27) then Some 0%nat else
  if negb (1 <? limit)%nat then Some 0%nat else
  b ← load s 1;
  if negb (b =? "["%C) then Some 0%nat else
  i ← ansi_params s limit 1 limit;
  let i := S i in
  if (i <? limit)%nat then
    c ← load s i; Some (if c =? "~"%C then S i else i)
  else Some i.

(** * Netstrings: [5:hello,] *)

(** The offset of the string in the buffer and its length, when the return
    value is not 0. *)
Definition scan_netstring (src : list Z) (len : Z) : option (Z * Z * Z) :=
  '(n, l) ← scan_ulongn src len 0;
  let n := Z.of_nat n in
  let fail := Some (0, 0, 0) in
  if n =? 0 then fail else
  if u64 (n + 2 + l) <? l then fail else
  if len <? u64 (n + 2 + l) then fail else
  a ← load src (Z.to_nat n);
  if negb (a =? ":"%C) then fail else
  b ← load src (Z.to_nat (n + l + 1));
  if negb (b =? ","%C) then fail else
  Some (n + 2 + l, n + 1, l).

(** * Lemmas: every scanner computes [ref_scan] *)

Definition dec_val (x : Z) : Z := u8 (x - 48).

Lemma dec_val_range (x : Z) : 0 <= dec_val x.
Proof. unfold dec_val. zmod. Qed.

(** The shift tests detect exactly the values that leave the word. *)
Lemma shl3_fits (l : Z) :
  is_u64 l ->
  Z.shiftr (u64 (Z.shiftl l 3)) 3 = l <-> l * 8 < 18446744073709551616.
Proof.
  intros Hl. rewrite Z.shiftl_mul_pow2, Z.shiftr_div_pow2 by lia.
  change (2 ^ 3) with 8. zmod.
Qed.

Lemma shl3_fits32 (l : Z) :
  is_u32 l -> Z.shiftr (u32 (Z.shiftl l 3)) 3 = l <-> l * 8 < 4294967296.
Proof.
  intros Hl. rewrite Z.shiftl_mul_pow2, Z.shiftr_div_pow2 by lia.
  change (2 ^ 3) with 8. zmod.
Qed.

Lemma shl_mul (l k : Z) : 0 <= k -> Z.shiftl l k = l * 2 ^ k.
Proof. intros. by apply Z.shiftl_mul_pow2. Qed.

(** One step of [scan_ulongn]: the guards together test [10 * l + c < 2^64]. *)
Lemma ulongn_step (l c : Z) :
  is_u64 l -> 0 <= c < 10 ->
  let m := u64 (Z.shiftl l 3) in
  if l * 10 + c <? 18446744073709551616 then
    Z.shiftr m 3 = l /\ m <= u64 (u64 (m + u64 (Z.shiftl l 1)) + c) /\
    u64 (u64 (m + u64 (Z.shiftl l 1)) + c) = l * 10 + c
  else Z.shiftr m 3 <> l \/ u64 (u64 (m + u64 (Z.shiftl l 1)) + c) < m.
Proof.
  intros Hl Hc m. subst m. pose proof (shl3_fits l Hl) as Hf.
  rewrite !shl_mul in * by lia. change (2 ^ 3) with 8 in *.
  change (2 ^ 1) with 2.
  destruct (Z.ltb_spec (l * 10 + c) 18446744073709551616);
    rewrite Hf; zmod.
Qed.

Lemma scan_ulongn_loop_ref (src : list Z) (n l : Z) (k : nat) :
  is_u64 l ->
  scan_ulongn_loop src n l k =
  ref_scan 10 18446744073709551616 dec_val src n l k.
Proof.
  revert n l k. induction src as [|x src IH]; intros n l k Hl; simpl; [done|].
  case_match; [done|]. fold (dec_val x).
  pose proof (dec_val_range x).
  destruct (Z.ltb_spec (dec_val x) 10); [|done]. cbn [negb andb].
  pose proof (ulongn_step l (dec_val x) Hl) as Hs. cbv zeta in Hs.
  destruct (l * 10 + dec_val x <? 18446744073709551616) eqn:E.
  - destruct Hs as (-> & Hm & He); [lia|]. rewrite Z.eqb_refl. cbn [negb].
    rewrite He in Hm |- *. zfalse (l * 10 + dec_val x <? u64 (Z.shiftl l 3)).
    apply IH. unfold is_u64 in *. lia.
  - destruct Hs as [Hs|Hs]; [lia| |].
    + by zfalse (Z.shiftr (u64 (Z.shiftl l 3)) 3 =? l).
    + destruct (negb _); [done|].
      by ztrue (u64 (u64 (u64 (Z.shiftl l 3) + u64 (Z.shiftl l 1)) + dec_val x)
                  <? u64 (Z.shiftl l 3)).
Qed.

(** The loops without a count: a count that no list exhausts. *)
Definition big (src : list Z) : Z := Z.of_nat (length src) + 1.

Lemma ref_scan_big (B lim : Z) (dig : Z -> Z) (src : list Z) (n l : Z)
    (k : nat) :
  Z.of_nat (length src) < n ->
  ref_scan B lim dig src n l k = ref_scan B lim dig src (big src) l k.
Proof.
  unfold big. revert n l k. induction src as [|x src IH]; intros n l k Hn;
    cbn [length] in Hn; simpl ref_scan; zfalse (n =? 0).
  - by zfalse (Z.of_nat 0 + 1 =? 0).
  - zfalse (Z.of_nat (length (x :: src)) + 1 =? 0).
    case_match; [|done]. rewrite IH by lia.
    rewrite (IH (Z.of_nat (length (x :: src)) + 1 - 1)); [done|].
    cbn [length]. lia.
Qed.

Lemma ref_scan_big_cons (B lim : Z) (dig : Z -> Z) (x : Z) (src : list Z)
    (l : Z) (k : nat) :
  ref_scan B lim dig (x :: src) (big (x :: src)) l k =
  if (dig x <? B) && (l * B + dig x <? lim)
  then ref_scan B lim dig src (big src) (l * B + dig x) (S k)
  else Some (k, l).
Proof.
  unfold big. simpl ref_scan. zfalse (Z.of_nat (length (x :: src)) + 1 =? 0).
  case_match; [|done]. apply ref_scan_big. cbn [length]. lia.
Qed.

Lemma ref_scan_big_nil (B lim : Z) (dig : Z -> Z) (l : Z) (k : nat) :
  ref_scan B lim dig [] (big []) l k = None.
Proof. done. Qed.

Lemma ulonglong_step (l c : Z) :
  is_u64 l -> 0 <= c < 10 ->
  let n := u64 (Z.shiftl l 3) in
  let n2 := u64 (n + u64 (Z.shiftl l 1)) in
  if l * 10 + c <? 18446744073709551616 then
    Z.shiftr n 3 = l /\ n <= n2 /\ n2 <= u64 (n2 + c) /\
    u64 (n2 + c) = l * 10 + c
  else Z.shiftr n 3 <> l \/ n2 < n \/ u64 (n2 + c) < n2.
Proof.
  intros Hl Hc n n2. subst n2 n. pose proof (shl3_fits l Hl) as Hf.
  rewrite !shl_mul in * by lia. change (2 ^ 3) with 8 in *.
  change (2 ^ 1) with 2.
  destruct (Z.ltb_spec (l * 10 + c) 18446744073709551616);
    rewrite Hf; zmod.
Qed.

Lemma scan_ulonglong_loop_ref (src : list Z) (l : Z) (k : nat) :
  is_u64 l ->
  scan_ulonglong_loop src l k =
  ref_scan 10 18446744073709551616 dec_val src (big src) l k.
Proof.
  revert l k. induction src as [|x src IH]; intros l k Hl; [done|].
  rewrite ref_scan_big_cons. cbn [scan_ulonglong_loop]. fold (dec_val x).
  pose proof (dec_val_range x).
  destruct (Z.ltb_spec (dec_val x) 10); [|done]. cbn [negb andb].
  pose proof (ulonglong_step l (dec_val x) Hl) as Hs. cbv zeta in Hs |- *.
  set (n := u64 (Z.shiftl l 3)) in *.
  set (n2 := u64 (n + u64 (Z.shiftl l 1))) in *.
  destruct (l * 10 + dec_val x <? 18446744073709551616) eqn:E.
  - destruct Hs as (-> & Hm & Hm2 & He); [lia|]. rewrite Z.eqb_refl. cbn [negb].
    zfalse (n2 <? n). zfalse (u64 (n2 + dec_val x) <? n2). rewrite He.
    apply IH. unfold is_u64 in *. lia.
  - destruct Hs as [Hs|[Hs|Hs]]; [lia| | |].
    + by zfalse (Z.shiftr n 3 =? l).
    + destruct (negb _); [done|]. by ztrue (n2 <? n).
    + destruct (negb _); [done|]. destruct (n2 <? n); [done|].
      by ztrue (u64 (n2 + dec_val x) <? n2).
Qed.

(** Octal: the top three bits are clear exactly when another digit fits. *)
Lemma top3_free (w s l c : Z) :
  0 <= s -> w = s + 3 -> 0 <= l < 2 ^ w -> 0 <= c < 8 ->
  (Z.shiftr l s =? 0) = (l * 8 + c <? 2 ^ w).
Proof.
  intros Hs -> Hl Hc. rewrite Z.shiftr_div_pow2 by lia.
  assert (2 ^ (s + 3) = 8 * 2 ^ s) as Hp.
  { rewrite Z.pow_add_r by lia. change (2 ^ 3) with 8. lia. }
  assert (0 < 2 ^ s) by lia.
  destruct (Z.ltb_spec (l * 8 + c) (2 ^ (s + 3))).
  - by rewrite Z.div_small by lia.
  - apply Z.eqb_neq. intros E. apply Z.div_small_iff in E; lia.
Qed.

Lemma scan_8longn_ref (src : list Z) (n l : Z) (k : nat) :
  is_u64 l ->
  scan_8longn_loop src n l k =
  ref_scan 8 18446744073709551616 dec_val src n l k.
Proof.
  revert n l k. induction src as [|x src IH]; intros n l k Hl;
    cbn [scan_8longn_loop ref_scan]; [done|].
  case_match; [done|]. fold (dec_val x). pose proof (dec_val_range x).
  destruct (Z.ltb_spec (dec_val x) 8); [|done]. cbn [negb andb].
  rewrite (top3_free 64 61 l (dec_val x)) by (done || lia).
  change (2 ^ 64) with 18446744073709551616.
  destruct (Z.ltb_spec (l * 8 + dec_val x) 18446744073709551616); [|done].
  cbn [negb]. rewrite (u64_id (l * 8)), u64_id by zmod.
  apply IH. unfold is_u64 in *. lia.
Qed.

Lemma scan_octal_ref (src : list Z) (l : Z) (k : nat) :
  is_u64 l ->
  scan_octal_loop src l k =
  ref_scan 8 18446744073709551616 dec_val src (big src) l k.
Proof.
  revert l k. induction src as [|x src IH]; intros l k Hl; [done|].
  rewrite ref_scan_big_cons. cbn [scan_octal_loop]. fold (dec_val x).
  pose proof (dec_val_range x).
  destruct (Z.ltb_spec (dec_val x) 8); [|done]. cbn [negb andb].
  rewrite (top3_free 64 61 l (dec_val x)) by (done || lia).
  change (2 ^ 64) with 18446744073709551616.
  destruct (Z.ltb_spec (l * 8 + dec_val x) 18446744073709551616); [|done].
  cbn [negb]. rewrite (u64_id (l * 8)), u64_id by zmod.
  apply IH. unfold is_u64 in *. lia.
Qed.

Lemma scan_8int_ref (src : list Z) (l : Z) (k : nat) :
  is_u32 l ->
  scan_8int_loop src l k = ref_scan 8 4294967296 dec_val src (big src) l k.
Proof.
  revert l k. induction src as [|x src IH]; intros l k Hl; [done|].
  rewrite ref_scan_big_cons. cbn [scan_8int_loop]. fold (dec_val x).
  pose proof (dec_val_range x).
  destruct (Z.ltb_spec (dec_val x) 8); [|done]. cbn [negb andb].
  rewrite (top3_free 32 29 l (dec_val x)) by (done || lia).
  change (2 ^ 32) with 4294967296.
  destruct (Z.ltb_spec (l * 8 + dec_val x) 4294967296); [|done].
  cbn [negb]. rewrite (u32_id (l * 8)), u32_id by zmod.
  apply IH. unfold is_u32 in *. lia.
Qed.

Lemma scan_8short_ref (src : list Z) (l : Z) (k : nat) :
  is_u16 l ->
  scan_8short_loop src l k = ref_scan 8 65536 dec_val src (big src) l k.
Proof.
  revert l k. induction src as [|x src IH]; intros l k Hl; [done|].
  rewrite ref_scan_big_cons. cbn [scan_8short_loop]. fold (dec_val x).
  pose proof (dec_val_range x).
  destruct (Z.ltb_spec (dec_val x) 8); [|done]. cbn [negb andb].
  rewrite (top3_free 16 13 l (dec_val x)) by (done || lia).
  change (2 ^ 16) with 65536.
  destruct (Z.ltb_spec (l * 8 + dec_val x) 65536); [|done].
  cbn [negb]. replace (u16 (l * 8 + dec_val x)) with (l * 8 + dec_val x) by zmod.
  apply IH. unfold is_u16 in *. lia.
Qed.

(** [scan_uint] and [scan_ushort]: comparing with the truncation. *)
Lemma digit_range (x : Z) :
  is_u8 x -> ((48 <=? s8 x) && (s8 x <=? 57)) = (dec_val x <? 10) /\
  (dec_val x < 10 -> s8 x = dec_val x + 48).
Proof.
  intros Hx. unfold dec_val. split; [|zmod].
  revert Hx. intros Hx. by_bytes x.
Qed.

Lemma scan_trunc_ref (w : Z -> Z) (lim : Z) (src : list Z) (l : Z) (k : nat) :
  (forall z, w z = z mod lim) -> 0 < lim <= 4294967296 ->
  bytes src -> 0 <= l < lim ->
  scan_trunc_loop w src l k = ref_scan 10 lim dec_val src (big src) l k.
Proof.
  intros Hw Hlim. revert l k. induction src as [|x src IH];
    intros l k Hb Hl; [done|]. inversion_clear Hb as [|? ? Hx Hb'].
  rewrite ref_scan_big_cons. cbn [scan_trunc_loop].
  destruct (digit_range x Hx) as [-> Hd]. pose proof (dec_val_range x).
  destruct (Z.ltb_spec (dec_val x) 10) as [Hlt|]; [|done]. cbn [andb].
  rewrite Hd by done.
  replace (u64 (u64 (u64 (l * 10) + (dec_val x + 48)) - 48))
    with (l * 10 + dec_val x) by zmod.
  rewrite Hw. destruct (Z.ltb_spec (l * 10 + dec_val x) lim).
  - rewrite Z.mod_small by lia. rewrite Z.eqb_refl. cbn [negb].
    apply IH; [done|lia].
  - pose proof (Z.mod_pos_bound (l * 10 + dec_val x) lim).
    by zfalse ((l * 10 + dec_val x) mod lim =? l * 10 + dec_val x).
Qed.

(** Signed: the loop carries the magnitude, converted to the signed type. *)
Lemma scan_longn_ref (src : list Z) (neg : Z) :
  neg = 0 \/ neg = 1 -> forall (n r : Z) (k : nat) (ok : bool),
  0 <= r < 9223372036854775808 + neg ->
  scan_longn_loop src n neg (s64 r) k ok =
  '(k', r') ← ref_scan 10 (9223372036854775808 + neg) dec_val src n r k;
  Some (k', s64 r', ok || (k <? k')%nat).
Proof.
  intros Hneg. induction src as [|x src IH]; intros n r k ok Hr;
    cbn [scan_longn_loop ref_scan].
  { case_match; [|done]. simpl. by rewrite Nat.ltb_irrefl, orb_false_r. }
  assert (forall ok : bool, Some (k, s64 r, ok) =
    Some (k, s64 r, ok || (k <? k)%nat)) as Hstop.
  { intros o. by rewrite Nat.ltb_irrefl, orb_false_r. }
  case_match; [by apply Hstop|].
  fold (dec_val x). pose proof (dec_val_range x).
  destruct (Z.ltb_spec (dec_val x) 10); [|by apply Hstop]. cbn [negb andb].
  assert (u64 (s64 r) = r) as -> by zmod.
  assert (is_u64 r) as Hru by zmod.
  pose proof (ulonglong_step r (dec_val x) Hru) as Hs. cbv zeta in Hs.
  set (m := u64 (Z.shiftl r 3)) in *.
  set (m2 := u64 (m + u64 (Z.shiftl r 1))) in *.
  replace (u64 (9223372036854775807 + neg)) with (9223372036854775807 + neg)
    by zmod.
  destruct (Z.ltb_spec (r * 10 + dec_val x) 18446744073709551616).
  - destruct Hs as (-> & Hm & Hm2 & He); [lia|]. rewrite Z.eqb_refl. cbn [negb].
    zfalse (m2 <? m). zfalse (u64 (m2 + dec_val x) <? m2). rewrite He.
    destruct (Z.ltb_spec (9223372036854775807 + neg) (r * 10 + dec_val x)),
      (Z.ltb_spec (r * 10 + dec_val x) (9223372036854775808 + neg));
      try lia; [by apply Hstop|].
    rewrite IH by lia.
    destruct (ref_scan _ _ _ _ _ _ _) as [[k' r']|] eqn:E; [|done]. simpl.
    apply ref_scan_bound in E as (_ & Hk & _);
      [|lia|apply dec_val_range|lia].
    ztrue (k <? k')%nat. by rewrite orb_true_r.
  - zfalse (r * 10 + dec_val x <? 9223372036854775808 + neg).
    destruct Hs as [Hs|[Hs|Hs]]; [lia| | |].
    + zfalse (Z.shiftr m 3 =? r). by apply Hstop.
    + destruct (negb _); [by apply Hstop|]. ztrue (m2 <? m). by apply Hstop.
    + destruct (negb _); [by apply Hstop|].
      destruct (m2 <? m); [by apply Hstop|].
      ztrue (u64 (m2 + dec_val x) <? m2). by apply Hstop.
Qed.

Lemma uint_step (l c : Z) :
  is_u32 l -> 0 <= c < 10 ->
  let n := u32 (Z.shiftl l 3) in
  let n2 := u32 (n + u32 (Z.shiftl l 1)) in
  if l * 10 + c <? 4294967296 then
    Z.shiftr n 3 = l /\ n <= n2 /\ n2 <= u32 (n2 + c) /\
    u32 (n2 + c) = l * 10 + c
  else Z.shiftr n 3 <> l \/ n2 < n \/ u32 (n2 + c) < n2.
Proof.
  intros Hl Hc n n2. subst n2 n. pose proof (shl3_fits32 l Hl) as Hf.
  rewrite !shl_mul in * by lia. change (2 ^ 3) with 8 in *.
  change (2 ^ 1) with 2.
  destruct (Z.ltb_spec (l * 10 + c) 4294967296); rewrite Hf; zmod.
Qed.

Lemma scan_int_ref (neg : Z) (src : list Z) :
  neg = 0 \/ neg = 1 -> forall (r : Z) (k : nat) (ok : bool),
  0 <= r < 2147483648 + neg ->
  scan_int_loop src neg (s32 r) k ok =
  '(k', r') ← ref_scan 10 (2147483648 + neg) dec_val src (big src) r k;
  Some (k', s32 r', ok || (k <? k')%nat).
Proof.
  intros Hneg. induction src as [|x src IH]; intros r k ok Hr; [done|].
  rewrite ref_scan_big_cons. cbn [scan_int_loop].
  assert (forall ok : bool, Some (k, s32 r, ok) =
    Some (k, s32 r, ok || (k <? k)%nat)) as Hstop.
  { intros o. by rewrite Nat.ltb_irrefl, orb_false_r. }
  fold (dec_val x). pose proof (dec_val_range x).
  destruct (Z.ltb_spec (dec_val x) 10); [|by apply Hstop]. cbn [negb andb].
  assert (u32 (s32 r) = r) as -> by zmod.
  assert (is_u32 r) as Hru by zmod.
  pose proof (uint_step r (dec_val x) Hru) as Hs. cbv zeta in Hs.
  set (m := u32 (Z.shiftl r 3)) in *.
  set (m2 := u32 (m + u32 (Z.shiftl r 1))) in *.
  replace (u32 (2147483647 + neg)) with (2147483647 + neg) by zmod.
  destruct (Z.ltb_spec (r * 10 + dec_val x) 4294967296).
  - destruct Hs as (-> & Hm & Hm2 & He); [lia|]. rewrite Z.eqb_refl. cbn [negb].
    zfalse (m2 <? m). zfalse (u32 (m2 + dec_val x) <? m2). rewrite He.
    destruct (Z.ltb_spec (2147483647 + neg) (r * 10 + dec_val x)),
      (Z.ltb_spec (r * 10 + dec_val x) (2147483648 + neg));
      try lia; [by apply Hstop|].
    rewrite IH by lia.
    destruct (ref_scan _ _ _ _ _ _ _) as [[k' r']|] eqn:E; [|done]. simpl.
    apply ref_scan_bound in E as (_ & Hk & _);
      [|lia|apply dec_val_range|lia].
    ztrue (k <? k')%nat. by rewrite orb_true_r.
  - zfalse (r * 10 + dec_val x <? 2147483648 + neg).
    destruct Hs as [Hs|[Hs|Hs]]; [lia| | |].
    + zfalse (Z.shiftr m 3 =? r). by apply Hstop.
    + destruct (negb _); [by apply Hstop|]. ztrue (m2 <? m). by apply Hstop.
    + destruct (negb _); [by apply Hstop|].
      destruct (m2 <? m); [by apply Hstop|].
      ztrue (u32 (m2 + dec_val x) <? m2). by apply Hstop.
Qed.

(** The sign, which may be missing, and the digits behind it, read by [scan]; no
    digits are no number. *)
Definition ref_signed (scan : Z -> list Z -> option (nat * Z)) (src : list Z) (dest : Z) : option (nat * Z) :=
  match src with
  | [] => None
  | x :: rest =>
      let neg := x =? "-"%C in
      let sign := neg || (x =? "+"%C) in
      '(k, r) ← scan (c_bool neg) (if sign then rest else src);
      Some (if (k =? 0)%nat then (0%nat, dest)
            else ((k + if sign then 1 else 0)%nat, if neg then - r else r))
  end.

(** A number that cannot be negated is undefined. *)
Definition negated (lim : Z) (res : option (nat * Z)) : option (nat * Z) :=
  '(k, v) ← res; if (0 <? k)%nat && (v =? - lim) then None else Some (k, v).

(** [scan_short] loses the overflow of a number from 65536 to 81919: it goes on
    with the number less 65536. *)
Definition short_step (neg m : Z) : option Z :=
  if m <? 32768 + neg then Some m
  else if (65536 <=? m) && (m <? 81920) then Some (m - 65536) else None.

(** After 32768, which only a minus allows, another digit is undefined. *)
Fixpoint ref_short (neg : Z) (src : list Z) (r : Z) (k : nat) : option (nat * Z) :=
  match src with
  | [] => None
  | x :: src' =>
      if negb (dec_val x <? 10) then Some (k, r) else
      if r =? 32768 then None else
      match short_step neg (r * 10 + dec_val x) with
      | Some r' => ref_short neg src' r' (S k)
      | None => Some (k, r)
      end
  end.

Lemma ref_short_bound (neg : Z) (src : list Z) : neg = 0 \/ neg = 1 -> forall r k k' r',
  0 <= r < 32768 + neg -> ref_short neg src r k = Some (k', r') -> (k <= k')%nat /\ 0 <= r' < 32768 + neg.
Proof.
  intros Hneg. induction src as [|x src IH]; intros r k k' r' Hr E; [done|]. cbn [ref_short] in E.
  pose proof (dec_val_range x). destruct (_ <? 10) in E; cbn [negb] in E; [|by injection E as <- <-].
  destruct (r =? 32768); [done|]. destruct (short_step _ _) as [m|] eqn:Em; [|by injection E as <- <-].
  apply IH in E; [lia|]. unfold short_step in Em. destruct (_ <? _) eqn:?; [injection Em; lia|].
  destruct (_ && _) eqn:?; [injection Em; lia|done].
Qed.

Lemma scan_short_loop_ref (neg : Z) (src : list Z) : neg = 0 \/ neg = 1 -> forall r k ok,
  0 <= r < 32768 + neg ->
  scan_short_loop src neg (s16 r) k ok = '(k', r') ← ref_short neg src r k; Some (k', s16 r', ok || (k <? k')%nat).
Proof.
  intros Hneg. induction src as [|x src IH]; intros r k ok Hr; [done|]. cbn [scan_short_loop ref_short]. fold (dec_val x).
  assert (forall ok : bool, Some (k, s16 r, ok) = Some (k, s16 r, ok || (k <? k)%nat)) as Hstop.
  { intros o. by rewrite Nat.ltb_irrefl, orb_false_r. }
  pose proof (dec_val_range x). destruct (Z.ltb_spec (dec_val x) 10); [|by apply Hstop]. cbn [negb].
  destruct (Z.eqb_spec r 32768) as [->|Hr']; [done|]. assert (s16 r = r) as Es by (unfold s16; zmod). rewrite Es.
  zfalse (r <? 0). rewrite !shl_mul by lia. change (2 ^ 3) with 8. change (2 ^ 1) with 2.
  replace (u16 r) with r by (unfold u16; zmod). rewrite Z.shiftr_div_pow2 by lia. change (2 ^ 3) with 8. unfold short_step.
  destruct (Z.ltb_spec r 8192) as [Hs|Hs].
  - replace (u16 (r * 8)) with (r * 8) by (unfold u16; zmod). replace ((r * 8) `div` 8) with r by (symmetry; apply Z.div_mul; lia).
    rewrite Z.eqb_refl. cbn [negb]. zfalse (r * 8 + r * 2 <? r * 8).
    zfalse (u16 (r * 8 + r * 2) + dec_val x <? u16 (r * 8 + r * 2)).
    replace (u16 (u16 (r * 8 + r * 2) + dec_val x)) with (u16 (r * 10 + dec_val x)) by (unfold u16; zmod).
    set (m := r * 10 + dec_val x).
    assert (forall m', 0 <= m' < 32768 + neg -> u16 m = m' ->
      (if 32767 + neg <? u16 m then Some (k, r, ok) else scan_short_loop src neg (s16 (u16 m)) (S k) true) =
      ('(k', r') ← ref_short neg src m' (S k); Some (k', s16 r', ok || (k <? k')%nat))) as Hgo.
    { intros m' Hm' ->. zfalse (32767 + neg <? m'). rewrite IH by done.
      destruct (ref_short _ _ _ _) as [[k' r']|] eqn:E; [|done]. cbn [mbind option_bind].
      apply ref_short_bound in E as [Hk _]; [|done|done]. ztrue (k <? k')%nat. by rewrite orb_true_r. }
    destruct (Z.ltb_spec m (32768 + neg)); [apply Hgo; [lia|]; unfold u16; zmod|].
    destruct (_ && _) eqn:Em; [apply Hgo; [lia|]; unfold u16; zmod|].
    assert (u16 m = m) as -> by (unfold u16; zmod). ztrue (32767 + neg <? m).
    cbn [mbind option_bind]. by rewrite <- Hstop, Es.
  - assert (u16 (r * 8) `div` 8 <> r) by (unfold u16; zmod). zfalse (u16 (r * 8) `div` 8 =? r). zfalse (r * 10 + dec_val x <? 32768 + neg).
    zfalse (r * 10 + dec_val x <? 81920). rewrite andb_false_r.
    cbn [negb mbind option_bind]. by rewrite <- Hstop, Es.
Qed.

(** * Lemmas: hexadecimal *)

Lemma scan_fromhex_readable (c : Z) :
  is_u8 c -> scan_fromhex c = fromhex_readable c.
Proof. intros Hc. by_bytes c. Qed.

Lemma hexval_range (x : Z) : 0 <= hexval x.
Proof. unfold hexval. zmod. Qed.

(** The top four bits are clear exactly when another digit fits. *)
Lemma top4_free (w s l c : Z) :
  0 <= s -> w = s + 4 -> 0 <= l < 2 ^ w -> 0 <= c < 16 ->
  (Z.shiftr l s =? 0) = (l * 16 + c <? 2 ^ w).
Proof.
  intros Hs -> Hl Hc. rewrite Z.shiftr_div_pow2 by lia.
  assert (2 ^ (s + 4) = 16 * 2 ^ s) as Hp.
  { rewrite Z.pow_add_r by lia. change (2 ^ 4) with 16. lia. }
  assert (0 < 2 ^ s) by lia.
  destruct (Z.ltb_spec (l * 16 + c) (2 ^ (s + 4))).
  - by rewrite Z.div_small by lia.
  - apply Z.eqb_neq. intros E. apply Z.div_small_iff in E; lia.
Qed.

(** These loops test the word before they read the character. *)
Lemma scan_xlongn_ref (src : list Z) (n l : Z) (k : nat) (r : nat * Z) :
  is_u64 l ->
  ref_scan 16 18446744073709551616 hexval src n l k = Some r ->
  scan_xlongn_loop src n l k = Some r.
Proof.
  revert n l k. induction src as [|x src IH]; intros n l k Hl;
    cbn [scan_xlongn_loop ref_scan]; destruct (n =? 0); cbn [orb]; try done.
  pose proof (hexval_range x).
  destruct (Z.ltb_spec (hexval x) 16); cbn [negb andb].
  - rewrite (top4_free 64 60 l (hexval x)) by (done || lia).
    change (2 ^ 64) with 18446744073709551616.
    destruct (Z.ltb_spec (l * 16 + hexval x) 18446744073709551616); [|done].
    cbn [negb]. rewrite shl_mul by lia. change (2 ^ 4) with 16.
    rewrite (u64_id (l * 16)), u64_id by zmod.
    apply IH. unfold is_u64 in *. lia.
  - destruct (negb _); done.
Qed.

Lemma scan_xint_ref (src : list Z) (l : Z) (k : nat) (r : nat * Z) :
  is_u32 l ->
  ref_scan 16 4294967296 hexval src (big src) l k = Some r ->
  scan_xint_loop src l k = Some r.
Proof.
  revert l k. induction src as [|x src IH]; intros l k Hl; [done|].
  rewrite ref_scan_big_cons. cbn [scan_xint_loop].
  pose proof (hexval_range x).
  destruct (Z.ltb_spec (hexval x) 16); cbn [negb andb].
  - rewrite (top4_free 32 28 l (hexval x)) by (done || lia).
    change (2 ^ 32) with 4294967296.
    destruct (Z.ltb_spec (l * 16 + hexval x) 4294967296); [|done].
    cbn [negb]. rewrite shl_mul by lia. change (2 ^ 4) with 16.
    rewrite (u32_id (l * 16)), u32_id by zmod.
    apply IH. unfold is_u32 in *. lia.
  - destruct (negb _); done.
Qed.

(** [scan_xlong] takes every digit and keeps the value modulo [2^64]. *)
Lemma scan_xlong_digits (cs : list Z) (x : Z) (rest : list Z) (l : Z) (k : nat) :
  Forall (fun c => hexval c < 16) cs -> 16 <= hexval x -> is_u64 l ->
  scan_xlong_loop (cs ++ x :: rest) l k =
  Some ((k + length cs)%nat, u64 (value 16 l (hexval <$> cs))).
Proof.
  intros Hc Hx. revert l k. induction Hc as [|c cs Hc _ IH]; intros l k Hl.
  - cbn [app scan_xlong_loop]. zfalse (hexval x <? 16). cbn [negb].
    rewrite Nat.add_0_r. unfold value. cbn [fmap list_fmap fold_left].
    by rewrite u64_id.
  - cbn [app scan_xlong_loop]. ztrue (hexval c <? 16). cbn [negb].
    rewrite IH by apply u64_range. cbn [length].
    f_equal. f_equal; [lia|]. rewrite shl_mul by lia. change (2 ^ 4) with 16.
    rewrite fmap_cons.
    change (value 16 l (hexval c :: (hexval <$> cs)))
      with (value 16 (l * 16 + hexval c) (hexval <$> cs)).
    assert (forall a b ds, u64 a = u64 b ->
      u64 (value 16 a ds) = u64 (value 16 b ds)) as Hcong.
    { intros a b ds. revert a b. induction ds as [|d ds IH']; intros a b Hab;
        [done|]. apply (IH' (a * 16 + d) (b * 16 + d)). zmod. }
    apply Hcong. zmod.
Qed.

(** * Lemmas: skipping is a [span] *)

Lemma scan_whitenskip_spec (s : list Z) (limit : nat) :
  (limit <= length s)%nat ->
  scan_whitenskip s limit = Some (span isspace (take limit s)).
Proof.
  revert limit. induction s as [|c s IH]; intros [|n] H; cbn [length] in H;
    [done|lia|done|].
  cbn [scan_whitenskip take span]. destruct (isspace c); [|done].
  by rewrite IH by lia.
Qed.

Lemma scan_nonwhitenskip_spec (s : list Z) (limit : nat) :
  (limit <= length s)%nat ->
  scan_nonwhitenskip s limit =
  Some (span (fun c => negb (isspace c)) (take limit s)).
Proof.
  revert limit. induction s as [|c s IH]; intros [|n] H; cbn [length] in H;
    [done|lia|done|].
  cbn [scan_nonwhitenskip take span]. destruct (isspace c); [done|].
  cbn [negb]. by rewrite IH by lia.
Qed.

