(* ===== verification/Num.v ===== *)
(** What printing and parsing of integers guarantee together: the scanners
    agree with unbounded arithmetic up to the width of their result, printing
    and parsing are inverse, the length announced for a [NULL] destination is
    the length stored, and the places where the code leaves these rules. *)
From S2P Require Import Prelude Digits FmtNum ScanNum.

(** * Netstrings as they are written *)

Definition netstring (p : list Z) : list Z :=
  (dec_char <$> numeral 10 (Z.of_nat (length p))) ++ ":"%C :: p ++ [","%C].

(** * Lemmas *)

Lemma dec_val_char (d : Z) : 0 <= d < 10 -> dec_val (dec_char d) = d.
Proof. intros. unfold dec_val, dec_char. zmod. Qed.

Lemma hexval_char (d : Z) : 0 <= d < 16 -> hexval (hex_char d) = d.
Proof.
  intros Hd. assert (is_u8 d) as Hb by (unfold is_u8; lia).
  assert (forall c, is_u8 c -> (16 <=? c) || (hexval (hex_char c) =? c) = true)
    as H by (intros c Hc; by_bytes c).
  specialize (H d Hb). lia.
Qed.

Lemma numeral_fits (B i : Z) :
  Z.of_nat (length (numeral B i)) <= u64 (-1).
Proof.
  pose proof (numeral_length B i).
  change (u64 (-1)) with 18446744073709551615. lia.
Qed.

Lemma nonzero_count {A} (B i : Z) (a b : A) :
  2 <= B -> 0 <= i ->
  (if (length (numeral B i) =? 0)%nat then a else b) = b.
Proof.
  intros. pose proof (numeral_nonempty B i).
  destruct (Nat.eqb_spec (length (numeral B i)) 0); [lia|done].
Qed.

Lemma longn_digits (i : Z) (neg : Z) (x : Z) (rest : list Z) (n : Z) (o : nat) :
  neg = 0 \/ neg = 1 -> 0 <= i < 9223372036854775808 + neg ->
  10 <= dec_val x -> 64 <= n ->
  scan_longn_loop ((dec_char <$> numeral 10 i) ++ x :: rest) n neg 0 o false =
  Some ((o + length (numeral 10 i))%nat, s64 i, true).
Proof.
  intros Hneg Hi Hx Hn. change 0 with (s64 0) at 1.
  rewrite scan_longn_ref by (done || lia).
  assert (is_u64 i) as Hu by (unfold is_u64; lia).
  pose proof (numeral_range 10 i ltac:(lia) ltac:(lia)) as Hr.
  pose proof (numeral_length 10 i) as Hlen.
  assert (dec_val <$> (dec_char <$> numeral 10 i) = numeral 10 i) as Hm.
  { rewrite <- list_fmap_compose. rewrite <- (list_fmap_id (numeral 10 i)) at 2.
    apply Forall_fmap_ext. eapply Forall_impl; [|apply Hr].
    unfold compose. simpl. intros. by apply dec_val_char. }
  rewrite ref_scan_digits; [|lia|lia| | |].
  - rewrite Hm, numeral_value, length_fmap by (done || lia).
    rewrite ref_scan_stop by done. cbn [mbind option_bind].
    pose proof (numeral_nonempty 10 i).
    by ztrue (o <? o + length (numeral 10 i))%nat.
  - apply Forall_fmap. eapply Forall_impl; [|apply Hr].
    unfold compose. simpl. intros d Hd. by rewrite dec_val_char.
  - rewrite Hm, numeral_value by (done || lia). lia.
  - rewrite length_fmap. lia.
Qed.

(** The first character of a numeral is not a sign. *)
Lemma numeral_first (i x : Z) (rest : list Z) :
  0 <= i ->
  exists c l, (dec_char <$> numeral 10 i) ++ x :: rest = c :: l /\
    scan_sign c = (0, 0%nat).
Proof.
  intros Hi. pose proof (numeral_range 10 i ltac:(lia) Hi) as Hr.
  pose proof (numeral_nonempty 10 i ltac:(lia) Hi).
  destruct (numeral 10 i) as [|d ds]; cbn [length] in *; [lia|].
  exists (dec_char d), ((dec_char <$> ds) ++ x :: rest). split; [done|].
  inversion_clear Hr as [|? ? Hd _]. unfold scan_sign, dec_char.
  zfalse (d + 48 =? 45). by zfalse (d + 48 =? 43).
Qed.

(** ** Signed numbers *)

Lemma ref_scan_from (B lim : Z) (dig : Z -> Z) (src : list Z) : forall (n l : Z) (k o : nat),
  ref_scan B lim dig src n l (o + k) = '(k, r) ← ref_scan B lim dig src n l k; Some ((o + k)%nat, r).
Proof.
  induction src as [|x src IH]; intros n l k o; cbn [ref_scan]; destruct (n =? 0); try done.
  destruct (_ && _); [|done]. rewrite <- Nat.add_succ_r. apply IH.
Qed.

Lemma ref_short_from (neg : Z) (src : list Z) : forall (r : Z) (k o : nat),
  ref_short neg src r (o + k) = '(k, r) ← ref_short neg src r k; Some ((o + k)%nat, r).
Proof.
  induction src as [|x src IH]; intros r k o; cbn [ref_short]; [done|]. destruct (negb _); [done|].
  destruct (r =? 32768); [done|]. destruct (short_step _ _); [|done]. rewrite <- Nat.add_succ_r. apply IH.
Qed.

(** The three cases of a sign. *)
Lemma scan_sign_cases (x : Z) :
  x = "-"%C /\ scan_sign x = (1, 1%nat) \/ x = "+"%C /\ scan_sign x = (0, 1%nat) \/
  (x =? "-"%C) = false /\ (x =? "+"%C) = false /\ scan_sign x = (0, 0%nat).
Proof.
  unfold scan_sign. destruct (Z.eqb_spec x "-"%C); [by left|]. destruct (Z.eqb_spec x "+"%C); [by right; left|by right; right].
Qed.

(** A scanner that reads the sign, then the digits with a loop that agrees with
    [ref], and negates with [neg]. *)
Definition signed_scan (loop : list Z -> Z -> nat -> option (nat * Z * bool)) (negate : bool -> Z -> option Z)
    (src : list Z) (dest : Z) : option (nat * Z) :=
  match src with
  | [] => None
  | x :: _ =>
      let '(neg, o) := scan_sign x in
      '(k, l, ok) ← loop (drop o src) neg o;
      if negb (ok : bool) then Some (0%nat, dest) else v ← negate (negb (neg =? 0)) l; Some (k, v)
  end.

Lemma signed_scan_ref loop negate (ref : Z -> list Z -> option (nat * Z)) (lim : Z) (conv : Z -> Z) (undef : bool) src dest :
  (forall s neg o, neg = 0 \/ neg = 1 -> loop s neg o = '(k, r) ← ref neg s; Some ((o + k)%nat, conv r, (0 <? k)%nat)) ->
  (forall s neg k r, neg = 0 \/ neg = 1 -> ref neg s = Some (k, r) -> 0 <= r < lim + neg) ->
  0 < lim -> (forall r, 0 <= r < lim -> negate false (conv r) = Some r) ->
  (forall r, 0 <= r <= lim -> negate true (conv r) = if undef && (r =? lim) then None else Some (- r)) ->
  signed_scan loop negate src dest =
    if undef then negated lim (ref_signed ref src dest) else ref_signed ref src dest.
Proof.
  intros Hloop Hb Hlim Hpos Hneg. unfold signed_scan, ref_signed, negated. destruct src as [|x src]; [by destruct undef|].
  destruct (scan_sign_cases x) as [(-> & ->)|[(-> & ->)|(Ex & Ey & ->)]];
    rewrite ?Ex, ?Ey; rewrite Hloop by auto; cbn [drop Z.eqb Pos.eqb orb negb c_bool]; rewrite ?drop_0.
  - destruct (ref 1 src) as [[k r]|] eqn:E; [|by destruct undef]. apply Hb in E; [|by right].
    cbn [mbind option_bind]. destruct k as [|k]; [by destruct undef|]. cbn [Nat.ltb Nat.leb negb Nat.eqb].
    rewrite Hneg by lia. destruct undef; cbn [andb]; [|cbn; by rewrite Nat.add_1_r].
    replace (Nat.ltb 0 (S k + 1)) with true by (symmetry; apply Nat.ltb_lt; lia). cbn [andb].
    replace (- r =? - lim) with (r =? lim) by lia. destruct (r =? lim); [done|]. cbn. by rewrite Nat.add_1_r.
  - destruct (ref 0 src) as [[k r]|] eqn:E; [|by destruct undef]. apply Hb in E; [|by left].
    cbn [mbind option_bind]. destruct k as [|k]; [by destruct undef|]. cbn [Nat.ltb Nat.leb negb Nat.eqb].
    rewrite Hpos by lia. zfalse (r =? - lim). rewrite andb_false_r. destruct undef; cbn; by rewrite Nat.add_1_r.
  - destruct (ref 0 (x :: src)) as [[k r]|] eqn:E; [|by destruct undef]. apply Hb in E; [|by left].
    cbn [mbind option_bind]. destruct k as [|k]; [by destruct undef|]. cbn [Nat.ltb Nat.leb negb Nat.eqb].
    rewrite Hpos by lia. zfalse (r =? - lim). rewrite andb_false_r. destruct undef; cbn; by rewrite Nat.add_0_r.
Qed.

Lemma ref_scan_range (lim neg n : Z) (s : list Z) k r : 0 < lim -> neg = 0 \/ neg = 1 ->
  ref_scan 10 (lim + neg) dec_val s n 0 0 = Some (k, r) -> 0 <= r < lim + neg.
Proof. intros Hl Hn E. apply ref_scan_bound in E as (? & _); [lia|lia|apply dec_val_range|lia]. Qed.

Lemma signed_from (x : option (nat * Z)) (f : Z -> Z) (o : nat) :
  ('(k', r') ← ('(k, r) ← x; Some ((o + k)%nat, r)); Some (k', f r', false || (o <? k')%nat)) =
  '(k, r) ← x; Some ((o + k)%nat, f r, (0 <? k)%nat).
Proof.
  destruct x as [[k r]|]; [|done]. cbn. do 2 f_equal.
  destruct k; [by rewrite Nat.add_0_r, Nat.ltb_irrefl|]. apply Nat.ltb_lt. lia.
Qed.

Lemma scan_longn_signed (src : list Z) (n dest : Z) :
  scan_longn src n dest =
    if n =? 0 then Some (0%nat, dest) else
    negated (2 ^ 63) (ref_signed (fun neg s => ref_scan 10 (2 ^ 63 + neg) dec_val s (n - 1) 0 0) src dest).
Proof.
  unfold scan_longn. destruct (n =? 0); [done|].
  refine (signed_scan_ref (fun s neg o => scan_longn_loop s (n - 1) neg 0 o false) (fun neg l => if neg then chk64 (- l) else Some l)
    _ (2 ^ 63) s64 true src dest _ _ eq_refl _ _).
  - intros s neg o Hn. change 0 with (s64 0) at 1. rewrite scan_longn_ref by (done || lia).
    rewrite <- (Nat.add_0_r o) at 1. rewrite ref_scan_from. apply signed_from.
  - intros s neg k r Hn. by apply ref_scan_range.
  - intros r Hr. f_equal. zmod.
  - intros r Hr. cbn [andb]. destruct (Z.eqb_spec r (2 ^ 63)) as [->|]; [done|].
    replace (s64 r) with r by zmod. unfold chk64. ztrue (-9223372036854775808 <=? - r). by ztrue (- r <? 9223372036854775808).
Qed.

Lemma scan_int_signed (src : list Z) (dest : Z) :
  scan_int src dest = negated (2 ^ 31) (ref_signed (fun neg s => ref_scan 10 (2 ^ 31 + neg) dec_val s (big s) 0 0) src dest).
Proof.
  refine (signed_scan_ref (fun s neg o => scan_int_loop s neg 0 o false) (fun neg l => if neg then chk32 (- l) else Some l)
    _ (2 ^ 31) s32 true src dest _ _ eq_refl _ _).
  - intros s neg o Hn. change 0 with (s32 0) at 1. rewrite scan_int_ref by (done || lia).
    rewrite <- (Nat.add_0_r o) at 1. rewrite ref_scan_from. apply signed_from.
  - intros s neg k r Hn. by apply ref_scan_range.
  - intros r Hr. f_equal. zmod.
  - intros r Hr. cbn [andb]. destruct (Z.eqb_spec r (2 ^ 31)) as [->|]; [done|].
    replace (s32 r) with r by zmod. unfold chk32. ztrue (-2147483648 <=? - r). by ztrue (- r <? 2147483648).
Qed.

Lemma scan_short_signed (src : list Z) (dest : Z) :
  scan_short src dest = ref_signed (fun neg s => ref_short neg s 0 0) src dest.
Proof.
  etransitivity; [|refine (signed_scan_ref (fun s neg o => scan_short_loop s neg 0 o false)
    (fun neg l => Some (s16 (if neg then - l else l))) _ (2 ^ 15) s16 false src dest _ _ eq_refl _ _)].
  - unfold scan_short, signed_scan. destruct src as [|x src]; [done|]. destruct (scan_sign x) as [neg o].
    destruct (scan_short_loop _ _ _ _ _) as [[[k l] [|]]|]; done.
  - intros s neg o Hn. change 0 with (s16 0) at 1. rewrite scan_short_loop_ref by (done || lia).
    rewrite <- (Nat.add_0_r o) at 1. rewrite ref_short_from. apply signed_from.
  - intros s neg k r Hn E. apply ref_short_bound in E as [_ E]; [exact E|done|lia].
  - intros r Hr. f_equal. zmod.
  - intros r Hr. cbn [andb]. f_equal. zmod.
Qed.

(** A wide scanner takes one digit more at most, which is given back. *)
Lemma ref_scan_back (lim lim' : Z) (s : list Z) : 10 <= lim <= lim' -> lim' <= lim * 10 -> forall r k,
  0 ∈ s -> 0 <= r < lim ->
  exists k' r', ref_scan 10 lim' dec_val s (big s) r k = Some (k', r') /\ (k <= k')%nat /\
    ref_scan 10 lim dec_val s (big s) r k = Some (if r' <? lim then (k', r') else ((k' - 1)%nat, r' / 10)) /\
    (r' <? lim = false -> (k < k')%nat /\ (r = 0 -> (S k < k')%nat)).
Proof.
  intros H1 H2. induction s as [|x s IH]; intros r k H0 Hr; [by apply not_elem_of_nil in H0|].
  rewrite !ref_scan_big_cons. pose proof (dec_val_range x) as Hx. destruct (Z.ltb_spec (dec_val x) 10) as [Hd|Hd]; cbn [andb].
  2: { exists k, r. ztrue (r <? lim). by split_and!. }
  assert (0 ∈ s) as H0s. { apply elem_of_cons in H0 as [<-|?]; [|done]. by vm_compute in Hd. }
  destruct (Z.ltb_spec (r * 10 + dec_val x) lim') as [Hl'|Hl'].
  - destruct (Z.ltb_spec (r * 10 + dec_val x) lim) as [Hl|Hl].
    + destruct (IH (r * 10 + dec_val x) (S k) H0s) as (k' & r' & -> & Hk & -> & Hlt); [lia|].
      exists k', r'. split; [done|]. split; [lia|]. split; [done|]. intros E. destruct (Hlt E). lia.
    + exists (S k), (r * 10 + dec_val x). assert (ref_scan 10 lim' dec_val s (big s) (r * 10 + dec_val x) (S k) =
        Some (S k, r * 10 + dec_val x)) as ->.
      { destruct s as [|y s]; [by apply not_elem_of_nil in H0s|]. rewrite ref_scan_big_cons. pose proof (dec_val_range y).
        zfalse ((r * 10 + dec_val x) * 10 + dec_val y <? lim'). by rewrite andb_false_r. }
      split; [done|]. split; [lia|]. zfalse (r * 10 + dec_val x <? lim). split; [|lia].
      replace (S k - 1)%nat with k by lia. do 2 f_equal. Z.div_mod_to_equations. lia.
  - zfalse (r * 10 + dec_val x <? lim). exists k, r. ztrue (r <? lim). by split_and!.
Qed.

Lemma scan_longlong_ref (src : list Z) (dest : Z) : 0 ∈ src ->
  scan_longlong src dest = ref_signed (fun neg s => ref_scan 10 (2 ^ 63 + neg) dec_val s (big s) 0 0) src dest.
Proof.
  intros H0. unfold scan_longlong, ref_signed. destruct src as [|x src]; [done|].
  set (neg := x =? "-"%C). set (sign := neg || (x =? "+"%C)).
  replace (drop (if sign then 1 else 0) (x :: src)) with (if sign then src else x :: src) by by destruct sign.
  change (if neg then 1 else 0) with (c_bool neg). set (s := if sign then src else x :: src).
  assert (0 ∈ s) as Hs.
  { unfold s, sign, neg in *. destruct (_ || _) eqn:E; [|done]. apply elem_of_cons in H0 as [<-|?]; done. }
  assert (0 <= c_bool neg <= 1) by (by destruct neg).
  destruct (ref_scan_back (2 ^ 63 + c_bool neg) (2 ^ 64) s) with (r := 0) (k := 0%nat) as (k & r & E & _ & E' & Hk); [lia|lia|done|lia|].
  rewrite E'. unfold scan_ulonglong. rewrite scan_ulonglong_loop_ref by done. change 18446744073709551616 with (2 ^ 64). rewrite E.
  apply ref_scan_bound in E as (Hr & _); [|lia|apply dec_val_range|lia]. cbn [mbind option_bind].
  destruct k as [|k].
  { destruct (r <? _); [done|]. destruct (Hk eq_refl). lia. }
  cbn [Nat.eqb]. replace (u64 (9223372036854775807 + c_bool neg) <? r) with (negb (r <? 2 ^ 63 + c_bool neg)).
  2: { replace (u64 (9223372036854775807 + c_bool neg)) with (9223372036854775807 + c_bool neg) by (destruct neg; done). lia. }
  assert (forall i v, 0 <= v < 2 ^ 63 + c_bool neg ->
    Some ((S i + (if sign then 1 else 0))%nat,
      if (S i + (if sign then 1 else 0) =? 0)%nat then dest else s64 (if neg then u64 (- v) else v)) =
    Some ((S i + (if sign then 1 else 0))%nat, if neg then - v else v)) as Hv.
  { intros i v Hv. cbn [Nat.add Nat.eqb]. do 2 f_equal. destruct neg; cbn [c_bool] in *; zmod. }
  destruct (r <? 2 ^ 63 + c_bool neg) eqn:El; cbn [negb]; [apply Hv; lia|].
  destruct (Hk eq_refl) as [_ Hk2]. specialize (Hk2 eq_refl). destruct k as [|k]; [lia|].
  cbn [Nat.sub Nat.eqb]. apply Hv. Z.div_mod_to_equations. lia.
Qed.

(** The size of a number with one decimal digit. *)
Lemma human_tail_length (l unit : Z) :
  10 <= l -> is_u64 l ->
  snd (human_tail false l unit) = snd (human_tail true l unit) /\
  length (fst (human_tail true l unit)) = snd (human_tail true l unit).
Proof.
  intros Hl Hu. unfold human_tail.
  rewrite !fmt_ulong_num by (done || (unfold is_u64 in *; zmod)).
  unfold num_out. cbn [fst snd]. rewrite (numeral_div 10 l) by (done || lia).
  rewrite !length_app, length_fmap. cbn [length]. lia.
Qed.

(** The tests of [scan_netstring] on the lengths. *)
Definition netstring_reject (n l len : Z) : bool :=
  (n =? 0) || ((u64 (n + 2 + l) <? l) || (len <? u64 (n + 2 + l))).

Lemma scan_netstring_body (src : list Z) (len : Z) :
  scan_netstring src len =
  '(n, l) ← scan_ulongn src len 0;
  if netstring_reject (Z.of_nat n) l len then Some (0, 0, 0) else
  a ← load src (Z.to_nat (Z.of_nat n));
  if negb (a =? ":"%C) then Some (0, 0, 0) else
  b ← load src (Z.to_nat (Z.of_nat n + l + 1));
  if negb (b =? ","%C) then Some (0, 0, 0)
  else Some (Z.of_nat n + 2 + l, Z.of_nat n + 1, l).
Proof.
  unfold scan_netstring, netstring_reject.
  destruct (scan_ulongn src len 0) as [[n l]|]; [|done]. cbn [mbind option_bind].
  destruct (Z.of_nat n =? 0), (u64 (Z.of_nat n + 2 + l) <? l),
    (len <? u64 (Z.of_nat n + 2 + l)); done.
Qed.

Lemma netstring_checks (n l len : Z) :
  0 < n -> 0 <= l -> n + 2 + l <= len < 18446744073709551616 ->
  netstring_reject n l len = false.
Proof.
  intros. unfold netstring_reject. rewrite u64_id by (unfold is_u64; lia).
  zfalse (n =? 0). zfalse (n + 2 + l <? l). by zfalse (len <? n + 2 + l).
Qed.

Lemma netstring_cases (n l len : Z) :
  0 <= n <= len -> 0 <= l < 18446744073709551616 ->
  len < 9223372036854775808 ->
  netstring_reject n l len = true \/
  netstring_reject n l len = false /\ 0 < n /\ n + 2 + l <= len.
Proof.
  intros Hn Hl Hlen. destruct (netstring_reject n l len) eqn:E; [by left|].
  right. split; [done|]. unfold netstring_reject in E.
  apply orb_false_iff in E as [E1 E]. apply orb_false_iff in E as [E2 E3].
  unfold u64 in *. destruct (Z.lt_ge_cases (n + 2 + l) 18446744073709551616).
  - rewrite Z.mod_small in * by lia. lia.
  - exfalso. clear E3. Z.div_mod_to_equations. lia.
Qed.

(** Reading at most as many characters as there are is always defined. *)
Lemma ref_scan_total (B lim : Z) (dig : Z -> Z) (src : list Z) (n l : Z)
    (k : nat) :
  0 <= n <= Z.of_nat (length src) ->
  is_Some (ref_scan B lim dig src n l k).
Proof.
  revert n l k. induction src as [|x src IH]; intros n l k Hn;
    cbn [ref_scan length] in *; destruct (Z.eqb_spec n 0); try done; [lia|].
  destruct (_ && _); [apply IH; lia|done].
Qed.

Lemma scan_ulongn_total (src : list Z) :
  Z.of_nat (length src) < 9223372036854775808 ->
  exists k l, scan_ulongn src (Z.of_nat (length src)) 0 = Some (k, l) /\
    0 <= Z.of_nat k <= Z.of_nat (length src) /\
    0 <= l < 18446744073709551616.
Proof.
  intros Hlen. unfold scan_ulongn. rewrite scan_ulongn_loop_ref by done.
  destruct (ref_scan_total 10 18446744073709551616 dec_val src
    (Z.of_nat (length src)) 0 0) as [[k l] E]; [lia|].
  rewrite E. cbn [mbind option_bind].
  apply ref_scan_bound in E as (Hl & Hk & Hn & _);
    [|lia|apply dec_val_range|lia].
  eexists _, _. split; [done|]. destruct (Nat.eqb_spec k 0); lia.
Qed.

Lemma scan_ulongn_numeral (i x n : Z) (rest : list Z) (dest : Z) :
  is_u64 i -> 10 <= dec_val x -> Z.of_nat (length (numeral 10 i)) <= n ->
  scan_ulongn ((dec_char <$> numeral 10 i) ++ x :: rest) n dest =
  Some (length (numeral 10 i), i).
Proof.
  intros Hi Hx Hn. unfold scan_ulongn.
  rewrite scan_ulongn_loop_ref by done.
  rewrite ref_scan_numeral with (chr := dec_char);
    [|lia|done|unfold is_u64 in Hi; lia|apply dec_val_char|done|done].
  cbn [mbind option_bind]. by rewrite nonzero_count by (unfold is_u64 in Hi; lia).
Qed.

Lemma scan_ulong_digits (i dest x : Z) (rest : list Z) :
  is_u64 i -> 10 <= dec_val x ->
  scan_ulong ((dec_char <$> numeral 10 i) ++ x :: rest) dest =
  Some (length (numeral 10 i), i).
Proof.
  intros Hi Hx. apply scan_ulongn_numeral; [done..|apply numeral_fits].
Qed.

(** * Properties *)

(** C20: the overflow tests of the unsigned scanners (shift-and-add, comparison
    with a truncation, top-bit tests) are exact: each scanner reads the digits
    whose value, computed with unbounded integers, stays below the width of
    its result, and stores that value. *)
Theorem scan_unsigned_exact (src : list Z) (n dest : Z) :
  scan_ulongn src n dest =
    ('(k, l) ← ref_scan 10 (2 ^ 64) dec_val src n 0 0;
     Some (k, if (k =? 0)%nat then dest else l)) /\
  scan_ulonglong src dest =
    ('(k, l) ← ref_scan 10 (2 ^ 64) dec_val src (big src) 0 0;
     Some (k, if (k =? 0)%nat then dest else l)) /\
  (bytes src ->
   scan_uint src dest =
     ('(k, l) ← ref_scan 10 (2 ^ 32) dec_val src (big src) 0 0;
      Some (k, if (0 <? k)%nat then l else dest)) /\
   scan_ushort src dest =
     ('(k, l) ← ref_scan 10 (2 ^ 16) dec_val src (big src) 0 0;
      Some (k, if (0 <? k)%nat then l else dest))) /\
  scan_8longn src n = ref_scan 8 (2 ^ 64) dec_val src n 0 0 /\
  scan_8int src = ref_scan 8 (2 ^ 32) dec_val src (big src) 0 0 /\
  scan_8short src = ref_scan 8 (2 ^ 16) dec_val src (big src) 0 0 /\
  scan_octal src = ref_scan 8 (2 ^ 64) dec_val src (big src) 0 0.
Proof.
  unfold scan_ulongn, scan_ulonglong, scan_uint, scan_ushort, scan_8longn,
    scan_8int, scan_8short, scan_octal.
  rewrite scan_ulongn_loop_ref, scan_ulonglong_loop_ref by done.
  rewrite scan_8longn_ref, scan_8int_ref, scan_8short_ref, scan_octal_ref
    by done.
  do 2 (split; [done|]). split; [|done]. intros Hb.
  rewrite (scan_trunc_ref u32 4294967296), (scan_trunc_ref u16 65536)
    by (done || lia).
  done.
Qed.

Lemma scan_unsigned_exact_witness :
  scan_uint (lit "4294967296;") 0 = Some (9%nat, 429496729).
Proof.
  assert (bytes (lit "4294967296;")) as Hb.
  { unfold bytes, is_u8. repeat constructor; lia. }
  rewrite (proj1 (proj1 (proj2 (proj2
             (scan_unsigned_exact (lit "4294967296;") 0 0))) Hb)).
  reflexivity.
Defined.



(** The smallest number of each. *)
Example signed_limits :
  scan_longlong (lit "-9223372036854775808;") 5 = Some (20%nat, - 2 ^ 63) /\
  scan_longlong (lit "-9223372036854775809;") 5 = Some (19%nat, - 922337203685477580) /\
  scan_int (lit "+2147483647;") 5 = Some (11%nat, 2147483647) /\ scan_int (lit "-2147483648;") 5 = None /\
  scan_int (lit "+;") 5 = Some (0%nat, 5) /\ scan_longn (lit "7;") 1 5 = Some (0%nat, 5) /\
  scan_short (lit "-32768;") 5 = Some (6%nat, - 32768) /\ scan_short (lit "70000;") 5 = Some (5%nat, 4464).
Proof. split_and!; vm_compute; reflexivity. Qed.

(** [scan_ulong] reads back what [fmt_ulong] printed, for every unsigned
    64-bit number and whatever follows that is not a digit; the same holds
    for the hexadecimal and the octal pair. *)
Theorem fmt_scan_ulong_roundtrip (i dest x : Z) (rest : list Z) :
  is_u64 i ->
  (10 <= dec_val x ->
   scan_ulong (fst (fmt_ulong true i) ++ x :: rest) dest =
   Some (snd (fmt_ulong true i), i)) /\
  (16 <= hexval x ->
   scan_xlong (fst (fmt_xlong true i) ++ x :: rest) =
   Some (snd (fmt_xlong true i), i)) /\
  (8 <= dec_val x ->
   scan_8long (fst (fmt_8long true i) ++ x :: rest) =
   Some (snd (fmt_8long true i), i)).
Proof.
  intros Hi. assert (0 <= i) as H0 by (unfold is_u64 in Hi; lia).
  autorewrite with dlr. unfold num_out. cbn [fst snd]. repeat split; intros Hx.
  - by apply scan_ulong_digits.
  - unfold scan_xlong. pose proof (numeral_range 16 i ltac:(lia) H0) as Hr.
    rewrite scan_xlong_digits; [|eapply Forall_fmap, Forall_impl; [|exact Hr]
      |done|done].
    + rewrite length_fmap, <- list_fmap_compose.
      replace (hexval ∘ hex_char <$> numeral 16 i) with (numeral 16 i).
      * by rewrite numeral_value, u64_id by (done || lia).
      * rewrite <- (list_fmap_id (numeral 16 i)) at 1.
        apply Forall_fmap_ext. eapply Forall_impl; [|exact Hr].
        unfold compose. simpl. intros. by rewrite hexval_char.
    + unfold compose. simpl. intros d Hd. rewrite hexval_char; lia.
  - unfold scan_8long, scan_8longn. rewrite scan_8longn_ref by done.
    rewrite ref_scan_numeral with (chr := dec_char);
      [done|lia|done|unfold is_u64 in Hi; lia| |done|apply numeral_fits].
    intros. apply dec_val_char. lia.
Qed.

Lemma fmt_scan_ulong_roundtrip_witness :
  scan_ulong (fst (fmt_ulong true 18446744073709551615) ++ [32; 49]) 7 =
  Some (20%nat, 18446744073709551615).
Proof.
  assert (is_u64 18446744073709551615) as Hi by (unfold is_u64; lia).
  apply (proj1 (fmt_scan_ulong_roundtrip 18446744073709551615 7 32 [49] Hi)).
  vm_compute. discriminate.
Defined.

(** [scan_long] reads back what [fmt_long] printed for every [long] but
    the smallest one. *)
Theorem fmt_scan_long_roundtrip (i dest x : Z) (rest : list Z) :
  -9223372036854775808 < i < 9223372036854775808 -> 10 <= dec_val x ->
  exists b len, fmt_long true i = Some (b, len) /\
    scan_long (b ++ x :: rest) dest = Some (len, i).
Proof.
  intros Hi Hx. rewrite fmt_long_num by done. unfold num_out.
  unfold scan_long, scan_longn.
  change (u64 (-1) =? 0) with false. cbv iota.
  change (u64 (-1) - 1) with 18446744073709551614.
  destruct (Z.ltb_spec i 0) as [Hn|Hn].
  - eexists _, _. split; [done|].
    rewrite <- app_comm_cons. cbv iota.
    change (scan_sign 45) with (1, 1%nat). cbv beta iota.
    rewrite skipn_cons, drop_0, longn_digits by (lia || by right).
    cbn [mbind option_bind negb]. rewrite Nat.add_1_l.
    replace (s64 (- i)) with (- i) by zmod. unfold chk64.
    ztrue (-9223372036854775808 <=? - - i).
    ztrue (- - i <? 9223372036854775808). cbn [andb].
    change (negb (1 =? 0)) with true. cbn [mbind option_bind].
    by rewrite Z.opp_involutive.
  - eexists _, _. split; [done|].
    destruct (numeral_first i x rest Hn) as (c & l & Hc & Hs).
    rewrite Hc, Hs, <- Hc, drop_0.
    rewrite longn_digits by (lia || by left).
    cbn [mbind option_bind negb]. change (negb (0 =? 0)) with false.
    cbn [mbind option_bind]. rewrite Nat.add_0_l.
    by replace (s64 i) with i by zmod.
Qed.

Lemma fmt_scan_long_roundtrip_witness :
  exists b len, fmt_long true (-120) = Some (b, len) /\
    scan_long (b ++ [44]) 0 = Some (len, -120).
Proof.
  apply (fmt_scan_long_roundtrip (-120) 0 44 []); [lia|].
  vm_compute. discriminate.
Defined.

(** At the smallest [long] both directions are undefined: [fmt_long]
    negates it, and [scan_long] accepts its 19 digits and then negates the
    [long] it has made of them. *)
Theorem long_min_undefined (dest : bool) (d x : Z) (rest : list Z) :
  fmt_long dest (-9223372036854775808) = None /\
  (10 <= dec_val x ->
   scan_long (lit "-9223372036854775808" ++ x :: rest) d = None).
Proof.
  split; [done|]. intros Hx. unfold scan_long, scan_longn.
  change (u64 (-1) =? 0) with false. cbv iota.
  change (u64 (-1) - 1) with 18446744073709551614.
  cbn [app]. change (scan_sign 45) with (1, 1%nat). cbv beta iota.
  match goal with
  | |- context [scan_longn_loop ?s _ _ _ _ _] =>
      replace s with
        ((dec_char <$> numeral 10 9223372036854775808) ++ x :: rest)
        by (vm_compute; reflexivity)
  end.
  rewrite longn_digits by (lia || by right). reflexivity.
Qed.

Lemma long_min_undefined_witness :
  scan_long (lit "-9223372036854775808" ++ [10]) 0 = None.
Proof.
  apply (proj2 (long_min_undefined true 0 10 [])). vm_compute. discriminate.
Defined.

(** With a [NULL] destination the number printers return the length they
    store otherwise, so that a caller can ask for the size first. *)
Theorem null_dest_length (i : Z) (pad : nat) :
  is_u64 i ->
  Forall (fun f : bool -> out =>
            snd (f false) = snd (f true) /\
            length (fst (f true)) = snd (f true) /\ fst (f false) = [])
    [ (fun d => fmt_ulong d i); (fun d => fmt_ulonglong d i);
      (fun d => fmt_xlong d i); (fun d => fmt_8long d i);
      (fun d => fmt_ulong0 d i pad); (fun d => fmt_human d i) ].
Proof.
  intros Hi. repeat apply List.Forall_cons; [..|by apply List.Forall_nil].
  1-4: autorewrite with dlr; unfold num_out; cbn [fst snd];
    by rewrite length_fmap.
  - rewrite !fmt_ulong0_num by done. cbn [fst snd].
    rewrite length_app, length_replicate, length_fmap. repeat split. lia.
  - unfold fmt_human.
    destruct (Z.ltb_spec i 1000).
    { autorewrite with dlr. unfold num_out. cbn [fst snd].
      by rewrite length_fmap. }
    assert (forall l u, 10 <= l -> is_u64 l ->
      snd (human_tail false l u) = snd (human_tail true l u) /\
      length (fst (human_tail true l u)) = snd (human_tail true l u) /\
      fst (human_tail false l u) = []) as Ht.
    { intros l u Hl Hu. by destruct (human_tail_length l u Hl Hu) as [-> ->]. }
    repeat zcase1; apply Ht; unfold is_u64 in *; zmod.
Qed.

Lemma null_dest_length_witness :
  snd (fmt_human false 4900) = snd (fmt_human true 4900).
Proof.
  assert (is_u64 4900) as Hi by (unfold is_u64; lia).
  pose proof (null_dest_length 4900 0 Hi) as H.
  do 5 apply Forall_inv_tail in H. apply Forall_inv in H. apply H.
Defined.

(** [fmt_pad] right-aligns a string that fits, padding on the left and
    keeping within [maxlen]; but when [maxlen] blanks do not fill the padding
    it stores [maxlen + 1] of them, one more than [maxlen] and than the
    length it announces for [NULL]. *)
Theorem fmt_pad_fit_or_overrun (src : list Z) (srclen padlen maxlen : nat) :
  (srclen <= length src)%nat ->
  fmt_pad false src srclen padlen maxlen =
    Some ([], Nat.min (Nat.max srclen padlen) maxlen) /\
  ((Nat.max srclen padlen <= maxlen)%nat ->
   fmt_pad true src srclen padlen maxlen =
     Some (replicate (padlen - srclen) 32 ++ take srclen src,
           Nat.max srclen padlen)) /\
  ((maxlen < padlen - srclen)%nat ->
   fmt_pad true src srclen padlen maxlen =
     Some (replicate (S maxlen) 32, S maxlen)).
Proof.
  assert (forall todo off m, (todo <= S m - off)%nat ->
    pad_spaces todo off m = replicate todo 32) as Hsp.
  { induction todo as [|t IH]; intros off m H; [done|]. cbn [pad_spaces].
    zfalse (m <? off)%nat. by rewrite IH by lia. }
  intros Hs. split; [done|]. unfold fmt_pad. split; intros Hm.
  - rewrite Hsp by lia. rewrite length_replicate.
    rewrite pad_copy_spec by lia. cbn [mbind option_bind].
    rewrite length_take.
    replace (Nat.min (Nat.min srclen maxlen) (S maxlen - (padlen - srclen)))
      with srclen by lia.
    do 2 f_equal. lia.
  - assert (pad_spaces (padlen - srclen) 0 maxlen = replicate (S maxlen) 32)
      as ->.
    { assert (forall k todo off, (k = S maxlen - off)%nat -> (k < todo)%nat ->
        pad_spaces todo off maxlen = replicate k 32) as H.
      { induction k as [|k IH]; intros [|todo] off Hk Ht; try lia;
          cbn [pad_spaces].
        - by ztrue (maxlen <? off)%nat.
        - zfalse (maxlen <? off)%nat. by rewrite (IH todo (S off)) by lia. }
      destruct (Nat.eq_dec (padlen - srclen)%nat (S maxlen)) as [->|].
      - apply Hsp. lia.
      - apply H; lia. }
    rewrite length_replicate, pad_copy_spec by lia.
    replace (Nat.min (Nat.min srclen maxlen) (S maxlen - S maxlen)) with 0%nat
      by lia.
    cbn [take mbind option_bind length]. by rewrite app_nil_r, Nat.add_0_r.
Qed.

Lemma fmt_pad_fit_or_overrun_witness :
  fmt_pad true (lit "blah") 3 5 7 = Some (lit "  bla", 5%nat) /\
  fmt_pad true (lit "blah") 3 9 4 = Some (lit "     ", 5%nat).
Proof.
  destruct (fmt_pad_fit_or_overrun (lit "blah") 3 5 7) as (_ & H & _);
    [cbn [length]; lia|].
  destruct (fmt_pad_fit_or_overrun (lit "blah") 3 9 4) as (_ & _ & H');
    [cbn [length]; lia|].
  split; [apply H|apply H']; lia.
Defined.

(** [fmt_humank] adds half a unit before it divides; for the sizes within
    half a tebibyte-tenth of [2^64] the addition wraps and the text is
    0.0T. *)
Theorem fmt_humank_wraps (l : Z) :
  18446744073709551616 - 1024 * 1024 * 1024 * 1024 / 20 <= l ->
  l < 18446744073709551616 ->
  fmt_humank true l = (lit "0.0T", 4%nat).
Proof.
  intros H1 H2. change (1024 * 1024 * 1024 * 1024 / 20) with 54975581388 in H1.
  unfold fmt_humank. zfalse (l <? 1000). cbv iota.
  ztrue (1024 * 1024 * 1024 * 1024 <? l). cbv iota.
  change (1024 * 1024 * 1024 * 1024 / 20) with 54975581388.
  change (1024 * 1024 * 1024 * 1024 / 10) with 109951162777.
  replace (u64 (l + 54975581388) / 109951162777) with 0 by zmod.
  reflexivity.
Qed.

Lemma fmt_humank_wraps_witness :
  fmt_humank true 18446744073709551615 = (lit "0.0T", 4%nat).
Proof. apply fmt_humank_wraps; vm_compute; discriminate || reflexivity. Defined.

(** [scan_netstring] parses what is written as a netstring, giving the
    place and the length of the payload and consuming everything; and on any
    buffer of [len] bytes (an object has less than [2^63]) it reads nothing outside the buffer and announces
    only payloads that lie in it. *)
Theorem scan_netstring_correct (p rest src : list Z) :
  (Z.of_nat (length (netstring p ++ rest)) < 9223372036854775808 ->
   exists k, k = length (dec_char <$> numeral 10 (Z.of_nat (length p))) /\
   scan_netstring (netstring p ++ rest)
     (Z.of_nat (length (netstring p ++ rest))) =
   Some (Z.of_nat (length (netstring p)), Z.of_nat k + 1,
         Z.of_nat (length p)) /\
   block (netstring p ++ rest) (k + 1) (length p) = p) /\
  (Z.of_nat (length src) < 9223372036854775808 ->
   exists r ofs slen, scan_netstring src (Z.of_nat (length src)) =
     Some (r, ofs, slen) /\
     (0 < r -> 0 <= ofs /\ 0 <= slen /\ ofs + slen < r <= Z.of_nat (length src))).
Proof.
  split; intros Hlen.
  - exists (length (dec_char <$> numeral 10 (Z.of_nat (length p)))).
    split; [done|]. rewrite length_fmap.
    set (N := length (numeral 10 (Z.of_nat (length p)))) in *.
    set (s := netstring p ++ rest) in *.
    assert (s = (dec_char <$> numeral 10 (Z.of_nat (length p))) ++
      ":"%C :: p ++ ","%C :: rest) as Hs.
    { subst s. unfold netstring. rewrite <- app_assoc. cbn [app].
      by rewrite <- app_assoc. }
    assert (length (netstring p) = (N + 2 + length p)%nat) as Hp.
    { unfold netstring. rewrite length_app. cbn [length].
      rewrite length_app, length_fmap. cbn [length]. subst N. lia. }
    assert (length s = (N + 2 + length p + length rest)%nat) as Hls.
    { subst s. rewrite length_app. lia. }
    assert (0 < N)%nat as HN by (apply numeral_nonempty; lia).
    assert (load s N = Some ":"%C /\ load s (N + 1 + length p) = Some ","%C /\
      block s (N + 1) (length p) = p) as (Ha & Hb & Hc).
    { rewrite Hs. unfold load, block.
      assert (length (dec_char <$> numeral 10 (Z.of_nat (length p))) = N) as HD
        by apply length_fmap.
      rewrite !lookup_app_r by lia. rewrite drop_app_ge by lia. rewrite HD.
      replace (N - N)%nat with 0%nat by lia.
      replace (N + 1 + length p - N)%nat with (S (length p)) by lia.
      replace (N + 1 - N)%nat with 1%nat by lia.
      split; [done|]. split.
      - exact (list_lookup_middle p rest 44 (length p) eq_refl).
      - change (take (length p) (p ++ 44 :: rest) = p).
        by rewrite take_app_length. }
    split; [|done]. rewrite scan_netstring_body.
    rewrite Hs at 1. rewrite scan_ulongn_numeral;
      [|unfold is_u64; lia|vm_compute; discriminate|fold N; lia].
    fold N. cbn [mbind option_bind].
    rewrite netstring_checks by lia.
    replace (Z.to_nat (Z.of_nat N)) with N by lia.
    replace (Z.to_nat (Z.of_nat N + Z.of_nat (length p) + 1))
      with (N + 1 + length p)%nat by lia.
    rewrite Ha, Hb. cbn [mbind option_bind Z.eqb Pos.eqb negb]. do 3 f_equal. lia.
  - rewrite scan_netstring_body.
    destruct (scan_ulongn_total src) as (k & l & -> & Hk & Hl); [lia|].
    cbn [mbind option_bind].
    destruct (netstring_cases (Z.of_nat k) l (Z.of_nat (length src)))
      as [Hf|(Hf & Hk0 & Hfit)]; [lia|lia|lia| |]; rewrite Hf.
    { exists 0, 0, 0. split; [done|lia]. }
    destruct (lookup_lt_is_Some_2 src (Z.to_nat (Z.of_nat k))) as [a Ha]; [lia|].
    destruct (lookup_lt_is_Some_2 src (Z.to_nat (Z.of_nat k + l + 1)))
      as [b Hb]; [lia|].
    unfold load. rewrite Ha, Hb. cbn [mbind option_bind].
    repeat case_match; eexists _, _, _; (split; [done|lia]).
Qed.

Lemma scan_netstring_correct_witness :
  exists k, block (netstring (lit "hello") ++ [33]) (k + 1) 5 = lit "hello".
Proof.
  destruct (proj1 (scan_netstring_correct (lit "hello") [33] [])) as (k & H).
  - vm_compute. reflexivity.
  - exists k. apply H.
Defined.
