(* ===== verification/TextHex.v ===== *)
(** Text codes that write a byte as itself or as an escape with two hexadecimal
    digits: hex dumps, LDAP filters, quoted-printable and URL encoding of
    [lib/textcode/].  The encoders share a loop over the bytes, the decoders a
    reader of two digits; what a pair of them guarantees is the class
    [HexCode]. *)
From S2P Require Import Prelude StrOps FmtNum ScanNum.

(** * Encoders *)

(** [for(i = 0; i < len; ++i)] around the code [enc] writes for a byte: the
    bytes stored and the return value, [(size_t)-1] when [written] passes
    half of the address space.  [written] does not depend on [dest]. *)
Fixpoint esc_loop (enc : Z -> option (list Z)) (s : list Z) (len written : nat)
    {struct len} : option (list Z * Z) :=
  match len with
  | O => Some ([], Z.of_nat written)
  | S len' =>
      match s with
      | [] => None
      | c :: s' =>
          e ← enc c;
          let written := (written + length e)%nat in
          if 9223372036854775807 <? Z.of_nat written
          then Some (e, u64 (-1))
          else '(l, r) ← esc_loop enc s' len' written; Some (e ++ l, r)
      end
  end.

Definition esc_fmt (enc : Z -> option (list Z)) (dest : bool) (s : list Z)
    (len : nat) : option (list Z * Z) :=
  '(l, r) ← esc_loop enc s len 0; Some (if dest then l else [], r).

(** The two digits of a byte. *)
Definition hex2 (c : Z) : list Z :=
  [fmt_tohex (Z.shiftr c 4); fmt_tohex (Z.land c 15)].

Definition hexdump_enc (c : Z) : option (list Z) := Some (hex2 c).

(** The length for [NULL] is computed, without a loop and its test. *)
Definition fmt_hexdump (dest : bool) (s : list Z) (len : nat)
  : option (list Z * Z) :=
  if dest then
    '(l, _) ← esc_loop hexdump_enc s len 0; Some (l, u64 (2 * Z.of_nat len))
  else Some ([], if 9223372036854775807 <? Z.of_nat len then u64 (-1)
                 else u64 (2 * Z.of_nat len)).

Definition ldap_enc (c : Z) : option (list Z) :=
  Some (if (c =? "*"%C) || (c =? "("%C) || (c =? ")"%C) || (c =? 0) ||
           (c =? "\"%C) || (c <? " "%C)
        then "\"%C :: hex2 c else [c]).

Definition fmt_ldapescape : bool -> list Z -> nat -> option (list Z * Z) :=
  esc_fmt ldap_enc.

Definition ldap2_enc (escapeme : list Z) (c : Z) : option (list Z) :=
  if (c =? "\"%C) || (c <? " "%C) then Some ("\"%C :: hex2 c) else
  hit ← strchr_hit escapeme c;
  Some (if (hit : bool) then "\"%C :: hex2 c else [c]).

Definition fmt_ldapescape2 (dest : bool) (s : list Z) (len : nat)
    (escapeme : list Z) : option (list Z * Z) :=
  esc_fmt (ldap2_enc escapeme) dest s len.

(** [escapeme[str_chr(escapeme, c)] == c], a plain [char] against an
    [unsigned char]. *)
Definition escapes (escapeme : list Z) (c : Z) : option bool :=
  k ← str_chr escapeme c; e ← load escapeme k; Some (s8 e =? c).

Definition qp_enc (escapeme : list Z) (c : Z) : option (list Z) :=
  if negb (Z.land c 128 =? 0) || (c <? " "%C) || (c =? "="%C)
  then Some ("="%C :: hex2 c) else
  hit ← escapes escapeme c;
  Some (if (hit : bool) then "="%C :: hex2 c else [c]).

Definition fmt_quotedprintable2 (dest : bool) (s : list Z) (len : nat)
    (escapeme : list Z) : option (list Z * Z) :=
  esc_fmt (qp_enc escapeme) dest s len.

Definition fmt_quotedprintable (dest : bool) (s : list Z) (len : nat)
  : option (list Z * Z) := fmt_quotedprintable2 dest s len [0].

Definition safe_chars : list Z := lit "$/.=~-_" ++ [0].

Definition issafe (c : Z) : option bool :=
  if ((65 <=? c) && (c <=? 90)) || ((97 <=? c) && (c <=? 122)) ||
     ((48 <=? c) && (c <=? 57)) then Some true else
  k ← str_chr safe_chars c; x ← load safe_chars k; Some (negb (x =? 0)).

Definition url_enc (escapeme : list Z) (c : Z) : option (list Z) :=
  safe ← issafe c;
  if negb safe then Some ("%"%C :: hex2 c) else
  hit ← escapes escapeme c;
  Some (if (hit : bool) then "%"%C :: hex2 c else [c]).

Definition fmt_urlencoded2 (dest : bool) (s : list Z) (len : nat)
    (escapeme : list Z) : option (list Z * Z) :=
  esc_fmt (url_enc escapeme) dest s len.

Definition fmt_urlencoded (dest : bool) (s : list Z) (len : nat)
  : option (list Z * Z) := fmt_urlencoded2 dest s len [0].

(** * Decoders *)

(** Two digits at [s]: [Some None] when one of them is no digit. *)
Definition read_hex2 (s : list Z) : option (option Z) :=
  a ← load s 0;
  let j := scan_fromhex a in
  if j <? 0 then Some None else
  let c := u8 (Z.shiftl j 4) in
  b ← load s 1;
  let j := scan_fromhex b in
  if j <? 0 then Some None else Some (Some (u8 (Z.lor c j))).

(** What a decoder leaves: the bytes it stored ([destlen] is their number)
    and the number of bytes read. *)
Fixpoint scan_hexdump (s : list Z) (i : nat) : option (list Z * nat) :=
  match s with
  | [] => None
  | c :: s' =>
      if c =? 0 then Some ([], i) else
      let j := scan_fromhex c in
      if j <? 0 then Some ([], i) else
      let k := u8 (Z.shiftl j 4) in
      match s' with
      | [] => None
      | d :: s'' =>
          let j := scan_fromhex d in
          if j <? 0 then Some ([], i) else
          '(l, n) ← scan_hexdump s'' (S (S i)); Some (u8 (Z.lor k j) :: l, n)
      end
  end.

Fixpoint scan_ldapescape (s : list Z) (i : nat) : option (list Z * nat) :=
  match s with
  | [] => None
  | c :: s' =>
      if c =? 0 then Some ([], i) else
      if c =? "\"%C then
        match s' with
        | a :: b :: s'' =>
            r ← read_hex2 s';
            match r with
            | None => Some ([], i)
            | Some x =>
                '(l, n) ← scan_ldapescape s'' (S (S (S i))); Some (x :: l, n)
            end
        | _ => r ← read_hex2 s'; Some ([], i)
        end
      else '(l, n) ← scan_ldapescape s' (S i); Some (c :: l, n)
  end.

(** The first digit is stored before the second is checked: the object may
    hold one byte more than the length says, [extra]. *)
Fixpoint scan_quotedprintable (s : list Z) (i : nat)
  : option (list Z * list Z * nat) :=
  match s with
  | [] => None
  | c :: s' =>
      if c =? 0 then Some ([], [], i) else
      if c =? "="%C then
        match s' with
        | [] => None
        | a :: s2 =>
            let j := scan_fromhex a in
            if j <? 0 then Some ([], [], i) else
            let x := u8 (Z.shiftl j 4) in
            match s2 with
            | [] => None
            | b :: s3 =>
                let j := scan_fromhex b in
                if j <? 0 then Some ([], [x], i) else
                '(l, e, n) ← scan_quotedprintable s3 (S (S (S i)));
                Some (u8 (Z.lor x j) :: l, e, n)
            end
        end
      else '(l, e, n) ← scan_quotedprintable s' (S i); Some (c :: l, e, n)
  end.

Fixpoint inner_scan_urlencoded (plus : bool) (s : list Z) (i : nat)
  : option (list Z * nat) :=
  match s with
  | [] => None
  | c :: s' =>
      if c =? 0 then Some ([], i) else
      if c =? "%"%C then
        match s' with
        | a :: b :: s'' =>
            r ← read_hex2 s';
            match r with
            | None => Some ([], i)
            | Some x =>
                '(l, n) ← inner_scan_urlencoded plus s'' (S (S (S i)));
                Some (x :: l, n)
            end
        | _ => r ← read_hex2 s'; Some ([], i)
        end
      else if (c =? "+"%C) && plus then
        '(l, n) ← inner_scan_urlencoded plus s' (S i); Some (" "%C :: l, n)
      else if (c <=? " "%C) || (c =? "?"%C) || (c =? "&"%C) then Some ([], i)
      else '(l, n) ← inner_scan_urlencoded plus s' (S i); Some (c :: l, n)
  end.

Definition scan_urlencoded (s : list Z) : option (list Z * nat) :=
  inner_scan_urlencoded true s 0.
Definition scan_urlencoded2 (s : list Z) : option (list Z * nat) :=
  inner_scan_urlencoded false s 0.

(** [fmt_foldwhitespace] replaces in a copy. *)
Fixpoint fmt_foldwhitespace (dest : bool) (s : list Z) (len : nat)
    {struct len} : option (list Z * nat) :=
  match len with
  | O => Some ([], O)
  | S len' =>
      match s with
      | [] => None
      | c :: s' =>
          '(l, n) ← fmt_foldwhitespace dest s' len';
          let c := if (c =? " "%C) || (c =? 9) || (c =? 10) then "_"%C else c in
          Some (if dest then c :: l else [], S n)
      end
  end.

(** * The interface *)

(** A byte code: [enc] never fails on a byte and writes at most [widest]
    bytes, and reading them back with [dec] gives the byte and goes on behind
    them; reading stops at a terminator. *)
Class HexCode (enc : Z -> option (list Z))
    (dec : list Z -> nat -> option (list Z * nat)) (widest : nat) : Prop := {
  enc_total : forall c, is_u8 c -> exists l, enc c = Some l /\
    (1 <= length l <= widest)%nat /\ bytes l;
  dec_enc : forall c l s i, is_u8 c -> enc c = Some l ->
    dec (l ++ s) i = '(r, n) ← dec s (i + length l)%nat; Some (c :: r, n);
  dec_end : forall s i, dec (0 :: s) i = Some ([], i);
}.

(** * Lemmas *)

Lemma hex2_digits (c : Z) :
  is_u8 c ->
  let h := fmt_tohex (Z.shiftr c 4) in
  let l := fmt_tohex (Z.land c 15) in
  is_u8 h /\ is_u8 l /\ h <> 0 /\ (scan_fromhex h <? 0) = false /\
  (scan_fromhex l <? 0) = false /\
  u8 (Z.lor (u8 (Z.shiftl (scan_fromhex h) 4)) (scan_fromhex l)) = c.
Proof.
  intros Hc.
  assert (let h := fmt_tohex (Z.shiftr c 4) in
    let l := fmt_tohex (Z.land c 15) in
    (0 <=? h) && (h <? 256) && (0 <=? l) && (l <? 256) && negb (h =? 0) &&
    negb (scan_fromhex h <? 0) && negb (scan_fromhex l <? 0) &&
    (u8 (Z.lor (u8 (Z.shiftl (scan_fromhex h) 4)) (scan_fromhex l)) =? c) = true)
    as F by by_bytes c.
  cbv zeta in *. unfold is_u8 in *.
  set (h := fmt_tohex (Z.shiftr c 4)) in *. set (l := fmt_tohex (Z.land c 15)) in *.
  set (a := scan_fromhex h) in *. set (b := scan_fromhex l) in *.
  set (x := u8 (Z.lor (u8 (Z.shiftl a 4)) b)) in *.
  clearbody x a b h l. repeat split; lia.
Qed.

Lemma read_hex2_spec (c : Z) (s : list Z) :
  is_u8 c -> read_hex2 (hex2 c ++ s) = Some (Some c).
Proof.
  intros Hc. destruct (hex2_digits c Hc) as (_ & _ & _ & H1 & H2 & H3).
  unfold read_hex2, hex2. cbn [app]. load_all. rewrite H1. load_all.
  by rewrite H2, H3.
Qed.

Lemma hex2_bytes (c : Z) : is_u8 c -> bytes (hex2 c).
Proof.
  intros Hc. destruct (hex2_digits c Hc) as (H1 & H2 & _).
  constructor; [done|]. constructor; [done|constructor].
Qed.

(** An escape or the byte itself. *)
Lemma enc_cases (lead : Z) (c : Z) (b : bool) :
  is_u8 lead -> is_u8 c ->
  exists l, (if b then Some (lead :: hex2 c) else Some [c]) = Some l /\
    (1 <= length l <= 3)%nat /\ bytes l.
Proof.
  intros Hl Hc. destruct b; eexists; (split; [done|]); (split; [simpl; lia|]).
  - constructor; [done|]. by apply hex2_bytes.
  - constructor; [done|constructor].
Qed.

#[export] Instance hexdump_code : HexCode hexdump_enc scan_hexdump 2.
Proof.
  split.
  - intros c Hc. exists (hex2 c). split; [done|]. split; [simpl; lia|].
    by apply hex2_bytes.
  - intros c l s i Hc [= <-].
    destruct (hex2_digits c Hc) as (_ & _ & H0 & H1 & H2 & H3).
    unfold hex2. cbn [app scan_hexdump length].
    zfalse (fmt_tohex (Z.shiftr c 4) =? 0). rewrite H1, H2, H3.
    by replace (i + 2)%nat with (S (S i)) by lia.
  - done.
Qed.

Lemma scan_ldap_escape (c : Z) (s : list Z) (i : nat) :
  is_u8 c ->
  scan_ldapescape ("\"%C :: hex2 c ++ s) i =
    '(r, n) ← scan_ldapescape s (i + 3)%nat; Some (c :: r, n).
Proof.
  intros Hc. pose proof (read_hex2_spec c s Hc) as R. unfold hex2 in *.
  cbn [app scan_ldapescape] in *. cbn [Z.eqb Pos.eqb].
  rewrite R. cbn [mbind option_bind].
  by replace (i + 3)%nat with (S (S (S i))) by lia.
Qed.

Lemma scan_ldap_literal (c : Z) (s : list Z) (i : nat) :
  c <> 0 -> c <> "\"%C ->
  scan_ldapescape (c :: s) i =
    '(r, n) ← scan_ldapescape s (i + 1)%nat; Some (c :: r, n).
Proof.
  intros H0 H1. cbn [scan_ldapescape]. zfalse (c =? 0). zfalse (c =? "\"%C).
  by rewrite Nat.add_1_r.
Qed.

#[export] Instance ldap_code : HexCode ldap_enc scan_ldapescape 3.
Proof.
  split.
  - intros c Hc. unfold ldap_enc.
    destruct (enc_cases "\"%C c ((c =? "*"%C) || (c =? "("%C) || (c =? ")"%C) ||
      (c =? 0) || (c =? "\"%C) || (c <? " "%C))) as (l & E & Hl); [done|done|].
    exists l. split; [|done]. by rewrite <- E; case_match.
  - intros c l s i Hc. unfold ldap_enc. case_match eqn:E; intros [= <-].
    + by apply scan_ldap_escape.
    + apply scan_ldap_literal; intros ->; by vm_compute in E.
  - done.
Qed.

#[export] Instance ldap2_code (escapeme junk : list Z) :
  nonul escapeme -> HexCode (ldap2_enc (zstr escapeme junk)) scan_ldapescape 3.
Proof.
  intros He. split.
  - intros c Hc. unfold ldap2_enc.
    destruct ((c =? "\"%C) || (c <? " "%C)) eqn:E.
    + destruct (enc_cases "\"%C c true) as (l & [= <-] & Hl); [done|done|]. eauto.
    + unfold is_u8 in Hc. rewrite strchr_hit_spec by (done || lia). simpl.
      destruct (enc_cases "\"%C c (bool_decide (c ∈ escapeme))) as (l & H & Hl);
        [done|done|]. exists l. split; [|done]. by rewrite <- H; case_bool_decide.
  - intros c l s i Hc. unfold ldap2_enc.
    destruct ((c =? "\"%C) || (c <? " "%C)) eqn:E.
    + intros [= <-]. by apply scan_ldap_escape.
    + unfold is_u8 in Hc. rewrite strchr_hit_spec by (done || lia). simpl.
      case_bool_decide; intros [= <-].
      * by apply scan_ldap_escape.
      * apply scan_ldap_literal; lia.
  - done.
Qed.

(** [escapes] always answers: within the terminated string. *)
Lemma escapes_total (escapeme junk : list Z) (c : Z) :
  nonul escapeme -> exists b, escapes (zstr escapeme junk) c = Some b.
Proof.
  intros He. unfold escapes. rewrite str_chr_spec by done. simpl.
  set (k := span _ escapeme). pose proof (span_le (fun x => negb (x =? c)) escapeme).
  unfold load, zstr. destruct ((escapeme ++ 0 :: junk) !! k) as [e|] eqn:E.
  - simpl. eauto.
  - apply lookup_ge_None in E. rewrite length_app in E. simpl in E. fold k in H. lia.
Qed.

Lemma issafe_spec (c : Z) :
  is_u8 c -> exists b, issafe c = Some b /\
    (b = true -> 33 <= c < 127 /\ c <> "%"%C /\ c <> "+"%C /\ c <> "?"%C /\
                 c <> "&"%C).
Proof.
  intros Hc.
  assert (match issafe c with
          | Some b => negb b || ((33 <=? c) && (c <? 127) && negb (c =? "%"%C) &&
              negb (c =? "+"%C) && negb (c =? "?"%C) && negb (c =? "&"%C))
          | None => false
          end = true) as F by by_bytes c.
  destruct (issafe c) as [b|]; [|done]. exists b. split; [done|].
  intros ->. lia.
Qed.

Definition qp_dec (s : list Z) (i : nat) : option (list Z * nat) :=
  '(l, _, n) ← scan_quotedprintable s i; Some (l, n).

Lemma url_dec_escape (plus : bool) (c : Z) (s : list Z) (i : nat) :
  is_u8 c ->
  inner_scan_urlencoded plus ("%"%C :: hex2 c ++ s) i =
    '(r, n) ← inner_scan_urlencoded plus s (i + 3)%nat; Some (c :: r, n).
Proof.
  intros Hc. pose proof (read_hex2_spec c s Hc) as R. unfold hex2 in *.
  cbn [app inner_scan_urlencoded] in *. cbn [Z.eqb Pos.eqb].
  rewrite R. cbn [mbind option_bind].
  by replace (i + 3)%nat with (S (S (S i))) by lia.
Qed.

#[export] Instance url_code (escapeme junk : list Z) (plus : bool) :
  nonul escapeme ->
  HexCode (url_enc (zstr escapeme junk)) (inner_scan_urlencoded plus) 3.
Proof.
  intros He. split.
  - intros c Hc. unfold url_enc. destruct (issafe_spec c Hc) as (b & -> & _).
    simpl. destruct (escapes_total escapeme junk c He) as [h ->]. simpl.
    destruct (enc_cases "%"%C c (negb b || h)) as (l & H & Hl); [done|done|].
    exists l. split; [|done]. rewrite <- H. by destruct b, h.
  - intros c l s i Hc. unfold url_enc.
    destruct (issafe_spec c Hc) as (b & -> & Hb). simpl.
    destruct (escapes_total escapeme junk c He) as [h ->]. simpl.
    destruct b; simpl; [destruct h|]; intros [= <-];
      try (by apply url_dec_escape).
    specialize (Hb eq_refl). cbn [app inner_scan_urlencoded].
    zfalse (c =? 0). zfalse (c =? "%"%C).
    replace ((c =? "+"%C) && plus) with false by (destruct plus; lia).
    replace ((c <=? " "%C) || (c =? "?"%C) || (c =? "&"%C)) with false by lia.
    by rewrite Nat.add_1_r.
  - done.
Qed.

#[export] Instance qp_code (escapeme junk : list Z) :
  nonul escapeme -> HexCode (qp_enc (zstr escapeme junk)) qp_dec 3.
Proof.
  intros He.
  assert (forall c s i, is_u8 c -> qp_dec ("="%C :: hex2 c ++ s) i =
    '(r, n) ← qp_dec s (i + 3)%nat; Some (c :: r, n)) as Hesc.
  { intros c s i Hc. destruct (hex2_digits c Hc) as (_ & _ & _ & H1 & H2 & H3).
    unfold qp_dec, hex2. cbn [app scan_quotedprintable Z.eqb Pos.eqb].
    rewrite H1, H2, H3. replace (i + 3)%nat with (S (S (S i))) by lia.
    by destruct (scan_quotedprintable s _) as [[[? ?] ?]|]. }
  split.
  - intros c Hc. unfold qp_enc.
    destruct (_ || _); simpl.
    + destruct (enc_cases "="%C c true) as (l & [= <-] & Hl); [done|done|]. eauto.
    + destruct (escapes_total escapeme junk c He) as [h ->]. simpl.
      destruct (enc_cases "="%C c h) as (l & H & Hl); [done|done|].
      exists l. split; [|done]. rewrite <- H. by destruct h.
  - intros c l s i Hc. unfold qp_enc. destruct (_ || _) eqn:E.
    + intros [= <-]. by apply Hesc.
    + destruct (escapes_total escapeme junk c He) as [h ->]. simpl.
      destruct h; intros [= <-]; [by apply Hesc|].
      unfold qp_dec. cbn [app scan_quotedprintable].
      unfold is_u8 in Hc. zfalse (c =? 0). zfalse (c =? "="%C).
      rewrite Nat.add_1_r. by destruct (scan_quotedprintable s _) as [[[? ?] ?]|].
  - done.
Qed.

(** ** Clients of the interface *)

Section code.
Context {enc : Z -> option (list Z)} {dec : list Z -> nat -> option (list Z * nat)}
  {widest : nat} {H : HexCode enc dec widest}.

Lemma esc_loop_code (q : list Z) (s : list Z) : forall (w i : nat),
  bytes s -> Z.of_nat (w + widest * length s) <= 9223372036854775807 ->
  exists l, esc_loop enc (s ++ q) (length s) w =
      Some (l, Z.of_nat (w + length l)) /\
    bytes l /\ (length s <= length l <= widest * length s)%nat /\
    forall r, dec (l ++ r) i = '(d, n) ← dec r (i + length l)%nat; Some (s ++ d, n).
Proof.
  induction s as [|c s IH]; intros w i Hs Hw.
  - exists []. simpl. rewrite Nat.add_0_r. split; [done|].
    split; [constructor|]. split; [lia|]. intros r. rewrite Nat.add_0_r.
    by destruct (dec r i) as [[? ?]|].
  - inversion Hs as [|? ? Hc Hs']; subst. cbn [length] in *.
    destruct (enc_total c Hc) as (e & E & Hlen & Hb).
    destruct (IH (w + length e)%nat (i + length e)%nat Hs') as (l & El & Hbl & Hl & Hd);
      [nia|].
    exists (e ++ l). cbn [app esc_loop]. rewrite E. cbn [mbind option_bind].
    replace (9223372036854775807 <? Z.of_nat (w + length e)) with false by nia.
    rewrite El. cbn [mbind option_bind]. rewrite length_app, Nat.add_assoc.
    split; [done|]. split; [by apply Forall_app|]. split; [nia|].
    intros r. rewrite <- app_assoc, (dec_enc c e) by done.
    rewrite Hd, Nat.add_assoc. by destruct (dec r _) as [[? ?]|].
Qed.

(** Encoding, a terminator, decoding. *)
Lemma code_roundtrip (s q r : list Z) :
  bytes s -> Z.of_nat (widest * length s) <= 9223372036854775807 ->
  exists l, esc_fmt enc true (s ++ q) (length s) = Some (l, Z.of_nat (length l)) /\
    esc_fmt enc false (s ++ q) (length s) = Some ([], Z.of_nat (length l)) /\
    bytes l /\ (length s <= length l <= widest * length s)%nat /\
    dec (l ++ 0 :: r) 0 = Some (s, length l).
Proof.
  intros Hs Hw. destruct (esc_loop_code q s 0 0 Hs) as (l & El & Hb & Hl & Hd);
    [done|].
  exists l. unfold esc_fmt. rewrite El. split; [done|]. split; [done|].
  split; [done|]. split; [done|]. rewrite Hd, dec_end. simpl.
  by rewrite app_nil_r.
Qed.
End code.

(** Without an interface: the code of a string is the concatenation of the
    codes of its bytes. *)
Definition codes (enc : Z -> option (list Z)) (s : list Z) : list Z :=
  concat (map (fun c => default [] (enc c)) s).

Lemma esc_loop_codes (enc : Z -> option (list Z)) (k : nat) (q s : list Z) :
  forall w : nat,
  Forall (fun c => exists e, enc c = Some e /\ (1 <= length e <= k)%nat) s ->
  Z.of_nat (w + k * length s) <= 9223372036854775807 ->
  esc_loop enc (s ++ q) (length s) w =
    Some (codes enc s, Z.of_nat (w + length (codes enc s))) /\
  (length s <= length (codes enc s) <= k * length s)%nat.
Proof.
  unfold codes. induction s as [|c s IH]; intros w He Hw.
  - simpl. rewrite Nat.add_0_r. split; [done|lia].
  - inversion He as [|? ? (e & E & Hlen) He']; subst. cbn [length] in *.
    rewrite Nat.mul_succ_r in *.
    destruct (IH (w + length e)%nat He') as [El Hl]; [lia|].
    cbn [app esc_loop map concat]. rewrite E. cbn [mbind option_bind default from_option].
    replace (9223372036854775807 <? Z.of_nat (w + length e)) with false by lia.
    rewrite El. cbn [mbind option_bind]. change (id e) with e.
    rewrite length_app, Nat.add_assoc. split; [done|]. lia.
Qed.

(** Reading inside a longer text. *)
Lemma load_pre (pre l : list Z) (k : nat) :
  load (pre ++ l) (length pre + k) = load l k.
Proof.
  unfold load. rewrite lookup_app_r by lia. f_equal. lia.
Qed.

Lemma load_pre_0 (pre l : list Z) : load (pre ++ l) (length pre) = load l 0.
Proof. by rewrite <- (load_pre pre l 0), Nat.add_0_r. Qed.

(** What a pair of routines guarantees for the bytes [s], read up to the
    terminator whatever follows it. *)
Definition roundtrips (fmt : bool -> list Z -> nat -> option (list Z * Z))
    (scan : list Z -> option (list Z * nat)) (widest : nat) (s q r : list Z) : Prop :=
  exists l, fmt true (s ++ q) (length s) = Some (l, Z.of_nat (length l)) /\
    fmt false (s ++ q) (length s) = Some ([], Z.of_nat (length l)) /\
    bytes l /\ (length s <= length l <= widest * length s)%nat /\
    scan (l ++ 0 :: r) = Some (s, length l).

(** The bytes that stay as they are in a URL. *)
Definition url_ok (c : Z) : Prop := issafe c = Some true \/ c = "%"%C.

Lemma url_enc_ok (escapeme junk : list Z) (c : Z) (l : list Z) :
  nonul escapeme -> is_u8 c -> url_enc (zstr escapeme junk) c = Some l ->
  Forall url_ok l.
Proof.
  intros He Hc. unfold url_enc. destruct (issafe c) as [b|] eqn:E; [|done]. simpl.
  assert (issafe (fmt_tohex (Z.shiftr c 4)) = Some true /\
          issafe (fmt_tohex (Z.land c 15)) = Some true) as [H1 H2]
    by (by_bytes c).
  assert (Forall url_ok ("%"%C :: hex2 c)) as Hx.
  { constructor; [by right|]. constructor; [by left|]. constructor; [by left|].
    constructor. }
  destruct (escapes_total escapeme junk c He) as [h ->]. simpl.
  destruct b; simpl; [destruct h|]; intros [= <-]; try done.
  constructor; [by left|constructor].
Qed.

Lemma esc_loop_Forall (P : Z -> Prop) (enc : Z -> option (list Z)) (s : list Z) :
  forall (len w : nat) (l : list Z) (r : Z),
  bytes s -> (forall c e, is_u8 c -> enc c = Some e -> Forall P e) ->
  esc_loop enc s len w = Some (l, r) -> Forall P l.
Proof.
  induction s as [|c s IH]; intros len w l r Hs He; destruct len as [|len];
    simpl; try done.
  1-2: by intros [= <- <-]; apply Forall_nil.
  inversion Hs; subst. destruct (enc c) as [e|] eqn:E; [|done]. simpl.
  case_match; [intros [= <- <-]; eauto|].
  destruct (esc_loop enc s len _) as [[l' r']|] eqn:E'; [|done]. simpl.
  intros [= <- <-]. apply Forall_app. eauto.
Qed.

(** A hex dump has two digits for each byte. *)
Lemma hexdump_length (q s : list Z) : forall w : nat,
  Z.of_nat (w + 2 * length s) <= 9223372036854775807 ->
  exists l, esc_loop hexdump_enc (s ++ q) (length s) w =
      Some (l, Z.of_nat (w + 2 * length s)) /\ length l = (2 * length s)%nat.
Proof.
  induction s as [|c s IH]; intros w Hw.
  - exists []. simpl. by rewrite Nat.add_0_r.
  - cbn [length app esc_loop hexdump_enc hex2 mbind option_bind] in *.
    replace (9223372036854775807 <? Z.of_nat (w + 2)) with false by lia.
    destruct (IH (w + 2)%nat) as (l & -> & Hl); [lia|]. eexists.
    cbn [mbind option_bind]. split; [do 3 f_equal; lia|]. simpl. lia.
Qed.

(** * Properties *)

(** C34: the five escape codes are lossless on every string of bytes, zeros
    included: hex dumps, LDAP filters with the fixed and with any set of escaped
    characters, URLs (read with and without the meaning of +) and
    quoted-printable.  Encoding gives the length a [NULL] destination gets, at
    most two or three times the input, and decoding the terminated result gives
    the input back and reads exactly the code. *)
Theorem text_codes_roundtrip (s q r esc j : list Z) :
  bytes s -> Z.of_nat (3 * length s) <= 9223372036854775807 -> nonul esc ->
  roundtrips fmt_hexdump (fun t => scan_hexdump t 0) 2 s q r /\
  roundtrips fmt_ldapescape (fun t => scan_ldapescape t 0) 3 s q r /\
  roundtrips (fun d t n => fmt_ldapescape2 d t n (zstr esc j))
    (fun t => scan_ldapescape t 0) 3 s q r /\
  roundtrips (fun d t n => fmt_urlencoded2 d t n (zstr esc j)) scan_urlencoded 3 s q r /\
  roundtrips (fun d t n => fmt_urlencoded2 d t n (zstr esc j)) scan_urlencoded2 3 s q r /\
  roundtrips (fun d t n => fmt_quotedprintable2 d t n (zstr esc j))
    (fun t => qp_dec t 0) 3 s q r.
Proof.
  intros Hs Hw He. split; [|split; [|split; [|split; [|split]]]].
  - destruct (esc_loop_code (H := hexdump_code) q s 0 0 Hs)
      as (l & El & Hb & Hl & Hd); [lia|].
    assert (length l = 2 * length s)%nat as Hlen.
    { destruct (hexdump_length q s 0) as (l' & El' & Hl'); [lia|].
      by assert (l = l') as -> by congruence. }
    exists l. unfold fmt_hexdump. rewrite El. simpl.
    rewrite !u64_id by (unfold is_u64; lia).
    replace (9223372036854775807 <? Z.of_nat (length s)) with false by lia.
    replace (Z.of_nat (length l)) with (2 * Z.of_nat (length s)) by lia.
    split; [done|]. split; [done|]. split; [done|]. split; [lia|].
    rewrite Hd, dec_end. simpl. by rewrite app_nil_r.
  - by apply code_roundtrip.
  - apply (code_roundtrip (H := ldap2_code esc j He)); done.
  - apply (code_roundtrip (H := url_code esc j true He)); done.
  - apply (code_roundtrip (H := url_code esc j false He)); done.
  - apply (code_roundtrip (H := qp_code esc j He)); done.
Qed.

Lemma text_codes_roundtrip_witness :
  roundtrips fmt_hexdump (fun t => scan_hexdump t 0) 2 [0; 255; 61; 37; 43] [] [] /\
  fmt_urlencoded true [0; 255; 61; 37; 43] 5 = Some (lit "%00%ff=%25%2b", 13).
Proof.
  split; [|reflexivity].
  destruct (text_codes_roundtrip [0; 255; 61; 37; 43] [] [] [] []) as [H _];
    [repeat constructor; lia|discriminate|constructor|exact H].
Defined.

(** Whatever bytes are URL-encoded, the result holds only letters, digits,
    the safe punctuation of the code and percent signs. *)
Theorem url_output_safe (s esc j l : list Z) (len : nat) (r : Z) :
  bytes s -> nonul esc ->
  fmt_urlencoded2 true s len (zstr esc j) = Some (l, r) -> Forall url_ok l.
Proof.
  unfold fmt_urlencoded2, esc_fmt. intros Hs He.
  destruct (esc_loop _ s len 0) as [[l' r']|] eqn:E; [|done]. simpl.
  intros [= <- <-]. eapply (esc_loop_Forall url_ok); [exact Hs| |exact E].
  intros c e Hc. by apply url_enc_ok.
Qed.

Lemma url_output_safe_witness : Forall url_ok (lit "%00a%3f").
Proof.
  apply (url_output_safe [0; 97; 63] [] [] (lit "%00a%3f") 3 7);
    [repeat constructor; lia|constructor|reflexivity].
Defined.
