(* ===== verification/Base64.v ===== *)
(** Base 64: [lib/textcode/fmt_base64.c], [scan_base64.c] and the URL-safe
    variants.  Both encoders run one loop over a shift register of 16 bits that
    keeps up to six bits back; both decoders one over a register they fill six
    bits at a time.  The two alphabets are a parameter of the shared parts and
    of their proof. *)
From S2P Require Import Prelude.

(** * Encoders *)

Definition base64 : list Z :=
  lit "ABCDEFGHIJKLMNOPQRSTUVWXYZabcdefghijklmnopqrstuvwxyz0123456789+/=".
Definition base64url : list Z :=
  lit "ABCDEFGHIJKLMNOPQRSTUVWXYZabcdefghijklmnopqrstuvwxyz0123456789-_=".

Definition sextet (alpha : list Z) (v : Z) : Z := nth (Z.to_nat v) alpha 0.

(** [while(bits > 6)]; [bits] falls by six each time. *)
Fixpoint b64_emit (alpha : list Z) (temp bits : Z) (fuel : nat) : list Z * Z :=
  match fuel with
  | O => ([], bits)
  | S fuel' =>
      if 6 <? bits then
        let '(l, b) := b64_emit alpha temp (bits - 6) fuel' in
        (sextet alpha (Z.land (Z.shiftr temp (bits - 6)) 63) :: l, b)
      else ([], bits)
  end.

(** The bytes stored and the register left behind the loop. *)
Fixpoint b64_loop (alpha : list Z) (s : list Z) (len : nat) (temp bits : Z)
    {struct len} : option (list Z * (Z * Z)) :=
  match len with
  | O => Some ([], (temp, bits))
  | S len' =>
      match s with
      | [] => None
      | c :: s' =>
          let temp := u16 (u16 (Z.shiftl temp 8) + c) in
          let '(l, bits) := b64_emit alpha temp (u16 (bits + 8)) 3 in
          '(l', st) ← b64_loop alpha s' len' temp bits; Some (l ++ l', st)
      end
  end.

(** The loop and [if(bits)]. *)
Definition b64_body (alpha : list Z) (s : list Z) (len : nat)
  : option (list Z) :=
  '(l, (temp, bits)) ← b64_loop alpha s len 0 0;
  Some (if bits =? 0 then l
        else l ++ [sextet alpha (Z.land (u16 (Z.shiftl temp (6 - bits))) 63)]).

(** The length for [NULL]: [((len + 2) / 3) * 4]. *)
Definition b64_length (len : nat) : Z :=
  if 9223372036854775807 <? Z.of_nat len then u64 (-1)
  else u64 (u64 (Z.of_nat len + 2) / 3 * 4).

(** [while(written & 3)] *)
Definition b64_pad (l : list Z) : list Z :=
  replicate ((4 - length l mod 4) mod 4) "="%C.

Definition fmt_base64 (dest : bool) (s : list Z) (len : nat)
  : option (list Z * Z) :=
  if dest then
    l ← b64_body base64 s len;
    let l := l ++ b64_pad l in Some (l, Z.of_nat (length l))
  else Some ([], b64_length len).

Definition fmt_base64url (dest : bool) (s : list Z) (len : nat)
  : option (list Z * Z) :=
  if dest then l ← b64_body base64url s len; Some (l, Z.of_nat (length l))
  else Some ([], b64_length len).

(** * Decoders *)

Definition base64_dec (x : Z) : Z :=
  if (65 <=? x) && (x <=? 90) then x - 65
  else if (97 <=? x) && (x <=? 122) then x - 97 + 26
  else if (48 <=? x) && (x <=? 57) then x - 48 + 26 + 26
  else if x =? "+"%C then 62 else if x =? "/"%C then 63 else -1.

Definition scan_base64url_decimal (x : Z) : Z :=
  if (65 <=? x) && (x <=? 90) then x - 65
  else if (97 <=? x) && (x <=? 122) then x - 97 + 26
  else if (48 <=? x) && (x <=? 57) then x - 48 + 26 + 26
  else if x =? "-"%C then 62 else if x =? "_"%C then 63 else -1.

(** [while( *s == '=' && ((s - src) & 3)) ++s;] gives the offset. *)
Fixpoint skip_pad (s : list Z) (pos : nat) : option nat :=
  match s with
  | [] => None
  | c :: s' =>
      if (c =? "="%C) && negb (pos mod 4 =? 0)%nat then skip_pad s' (S pos)
      else Some pos
  end.

(** [pos] is [s - src], [j] and [orig] what the results would be.  Gives the
    bytes stored, the length reported and the bytes read. *)
Fixpoint scan_base64_loop (s : list Z) (pos : nat) (tmp bits : Z)
    (i j orig : nat) : option (list Z * nat * nat) :=
  match s with
  | [] => None
  | c :: s' =>
      let a := base64_dec c in
      if a <? 0 then
        e ← skip_pad s pos;
        let tmp := Z.land tmp (u16 (Z.shiftl 1 bits - 1)) in
        if (tmp =? 0) || (c =? "="%C) then Some ([], i, e)
        else Some ([], j, orig)
      else
        let tmp := u16 (Z.lor (Z.shiftl tmp 6) a) in
        let bits := u16 (bits + 6) in
        if 8 <=? bits then
          let bits := bits - 8 in
          let x := u8 (Z.shiftr tmp bits) in
          let j := if bits =? 0 then S i else j in
          let orig := if bits =? 0 then S pos else orig in
          '(l, d, n) ← scan_base64_loop s' (S pos) tmp bits (S i) j orig;
          Some (x :: l, d, n)
        else scan_base64_loop s' (S pos) tmp bits i j orig
  end.

Definition scan_base64 (s : list Z) : option (list Z * nat * nat) :=
  scan_base64_loop s 0 0 0 0 0 0.

Fixpoint scan_base64url_loop (s : list Z) (pos : nat) (tmp bits : Z) (i : nat)
  : option (list Z * nat * nat) :=
  match s with
  | [] => None
  | c :: s' =>
      let a := scan_base64url_decimal c in
      if a <? 0 then Some ([], i, pos)
      else
        let tmp := u16 (Z.lor (Z.shiftl tmp 6) a) in
        let bits := u16 (bits + 6) in
        if 8 <=? bits then
          let bits := bits - 8 in
          let x := u8 (Z.shiftr tmp bits) in
          '(l, d, n) ← scan_base64url_loop s' (S pos) tmp bits (S i);
          Some (x :: l, d, n)
        else scan_base64url_loop s' (S pos) tmp bits i
  end.

Definition scan_base64url (s : list Z) : option (list Z * nat * nat) :=
  scan_base64url_loop s 0 0 0 0.

(** * The reference: groups of three bytes as four sextets *)

Fixpoint sextets (s : list Z) : list Z :=
  match s with
  | a :: b :: c :: s' =>
      a / 4 :: a mod 4 * 16 + b / 16 :: b mod 16 * 4 + c / 64 :: c mod 64
        :: sextets s'
  | [a; b] => [a / 4; a mod 4 * 16 + b / 16; b mod 16 * 4]
  | [a] => [a / 4; a mod 4 * 16]
  | [] => []
  end.

Lemma triple_ind (P : list Z -> Prop) :
  P [] -> (forall a, P [a]) -> (forall a b, P [a; b]) ->
  (forall a b c s, P s -> P (a :: b :: c :: s)) -> forall s, P s.
Proof.
  intros H0 H1 H2 H3 s. assert (P s /\ (forall a, P (a :: s)) /\
    forall a b, P (a :: b :: s)) as [H _]; [|done].
  induction s as [|c s (IH1 & IH2 & IH3)]; [auto|].
  split; [apply IH2|]. split; [intros a; apply IH3|]. intros a b. by apply H3.
Qed.

Lemma sextets_range (s : list Z) :
  bytes s -> Forall (fun v => 0 <= v < 64) (sextets s).
Proof.
  unfold bytes. induction s as [|a|a b|a b c s IH] using triple_ind; intros H;
    cbn [sextets]; repeat match goal with
      | H : Forall _ (_ :: _) |- _ => inversion H; clear H; subst end;
    repeat (constructor; [zmod|]); auto.
Qed.

(** * The encoder computes the reference *)

Section alphabet.
Context (alpha : list Z).

(** The encoder's output from a register that keeps [bits] bits of [temp]
    back. *)
Definition b64_from (s q : list Z) (temp bits : Z) : option (list Z) :=
  '(l, (temp, bits)) ← b64_loop alpha (s ++ q) (length s) temp bits;
  Some (if bits =? 0 then l
        else l ++ [sextet alpha (Z.land (u16 (Z.shiftl temp (6 - bits))) 63)]).

Lemma land63 (x : Z) : Z.land x 63 = x mod 64.
Proof. by rewrite (land_low x 6). Qed.

Lemma shiftl_pow (x k p : Z) : 0 <= k -> p = 2 ^ k -> Z.shiftl x k = x * p.
Proof. intros ? ->. by apply Z.shiftl_mul_pow2. Qed.

Lemma shiftr_pow (x k p : Z) : 0 <= k -> p = 2 ^ k -> Z.shiftr x k = x / p.
Proof. intros ? ->. by apply Z.shiftr_div_pow2. Qed.

(** One byte into the register. *)
Lemma b64_step (c : Z) (s q : list Z) (temp bits : Z) (l : list Z) (bits' : Z) :
  b64_emit alpha (u16 (u16 (Z.shiftl temp 8) + c)) (u16 (bits + 8)) 3 = (l, bits') ->
  b64_from (c :: s) q temp bits =
    l' ← b64_from s q (u16 (u16 (Z.shiftl temp 8) + c)) bits'; Some (l ++ l').
Proof.
  intros H. unfold b64_from. cbn [app length b64_loop]. rewrite H.
  destruct (b64_loop alpha (s ++ q) (length s) _ bits') as [[l' [t b]]|]; [|done].
  cbn [mbind option_bind]. case_match; [done|]. by rewrite app_assoc.
Qed.

(** The register holds the last two bytes. *)
Lemma b64_register (t c : Z) :
  is_u8 c -> u16 (u16 (Z.shiftl t 8) + c) = t mod 256 * 256 + c.
Proof. intros H. rewrite (shiftl_pow t 8 256) by done. zmod. Qed.

Lemma b64_emit_8 (t : Z) :
  b64_emit alpha t (u16 (0 + 8)) 3 = ([sextet alpha (t / 4 mod 64)], 2).
Proof.
  transitivity ([sextet alpha (Z.land (Z.shiftr t 2) 63)], 2); [reflexivity|].
  by rewrite land63, (shiftr_pow t 2 4).
Qed.

Lemma b64_emit_10 (t : Z) :
  b64_emit alpha t (u16 (2 + 8)) 3 = ([sextet alpha (t / 16 mod 64)], 4).
Proof.
  transitivity ([sextet alpha (Z.land (Z.shiftr t 4) 63)], 4); [reflexivity|].
  by rewrite land63, (shiftr_pow t 4 16).
Qed.

Lemma b64_emit_12 (t : Z) :
  b64_emit alpha t (u16 (4 + 8)) 3 = ([sextet alpha (t / 64 mod 64)], 6).
Proof.
  transitivity ([sextet alpha (Z.land (Z.shiftr t 6) 63)], 6); [reflexivity|].
  by rewrite land63, (shiftr_pow t 6 64).
Qed.

Lemma b64_emit_14 (t : Z) :
  b64_emit alpha t (u16 (6 + 8)) 3 =
    ([sextet alpha (t / 256 mod 64); sextet alpha (t / 4 mod 64)], 2).
Proof.
  transitivity ([sextet alpha (Z.land (Z.shiftr t 8) 63);
                 sextet alpha (Z.land (Z.shiftr t 2) 63)], 2); [reflexivity|].
  by rewrite !land63, (shiftr_pow t 8 256), (shiftr_pow t 2 4).
Qed.

Lemma b64_end (q : list Z) (t bits p : Z) :
  bits <> 0 -> 0 <= 6 - bits -> p = 2 ^ (6 - bits) ->
  b64_from [] q t bits = Some [sextet alpha (u16 (t * p) mod 64)].
Proof.
  intros H0 H1 Hp. unfold b64_from. cbn [app length b64_loop mbind option_bind].
  zfalse (bits =? 0). by rewrite land63, (shiftl_pow t (6 - bits) p).
Qed.

(** Equal lists of sextets, element by element. *)
Ltac sextets_eq :=
  repeat match goal with
    | |- Some _ = Some _ => apply f_equal
    | |- _ :: _ = _ :: _ => apply f_equal2
    | |- sextet _ _ = sextet _ _ => apply f_equal
    end; try done; zmod.

Lemma b64_from_sextets (q s : list Z) : bytes s -> forall t : Z,
  b64_from s q t 0 = Some (sextet alpha <$> sextets s) /\
  b64_from s q t 6 = Some (sextet alpha <$> t mod 64 :: sextets s).
Proof.
  unfold bytes.
  induction s as [|a|a b|a b c s IH] using triple_ind; intros Hs t;
    repeat match goal with
      | H : Forall _ (_ :: _) |- _ => inversion H; clear H; subst end;
    rewrite ?(b64_step a _ _ _ _ _ _ (b64_emit_8 _)),
      ?(b64_step a _ _ _ _ _ _ (b64_emit_14 _)), ?b64_register by done.
  - split; [done|]. rewrite (b64_end _ _ _ 1) by done. simpl. sextets_eq.
  - rewrite !(b64_end _ _ _ 16) by done. simpl. split; sextets_eq.
  - rewrite !(b64_step b _ _ _ _ _ _ (b64_emit_10 _)), !b64_register,
      !(b64_end _ _ _ 4) by done. simpl. split; sextets_eq.
  - rewrite !(b64_step b _ _ _ _ _ _ (b64_emit_10 _)), !b64_register,
      !(b64_step c _ _ _ _ _ _ (b64_emit_12 _)), !b64_register by done.
    rewrite !(proj2 (IH ltac:(done) _)). simpl. split; sextets_eq.
Qed.
End alphabet.

(** * The decoders read the reference *)

Lemma sextet_dec (v : Z) :
  0 <= v < 64 ->
  is_u8 (sextet base64 v) /\ base64_dec (sextet base64 v) = v /\
  is_u8 (sextet base64url v) /\ scan_base64url_decimal (sextet base64url v) = v.
Proof.
  intros Hv. assert (is_u8 v) as Hb by (unfold is_u8; lia).
  assert ((64 <=? v) || ((0 <=? sextet base64 v) && (sextet base64 v <? 256) &&
    (base64_dec (sextet base64 v) =? v) && (0 <=? sextet base64url v) &&
    (sextet base64url v <? 256) &&
    (scan_base64url_decimal (sextet base64url v) =? v)) = true) as F by by_bytes v.
  unfold is_u8. replace (64 <=? v) with false in F by lia. cbn [orb] in F.
  repeat split; lia.
Qed.

(** Six more bits in the register. *)
Lemma b64_shift_in (t v : Z) :
  0 <= v < 64 -> u16 (Z.lor (Z.shiftl t 6) v) = u16 (t * 64 + v).
Proof.
  intros Hv. rewrite Z.shiftl_mul_pow2 by lia. by rewrite lor_add by lia.
Qed.

(** The bytes in the register after the second, third and fourth sextet. *)
Lemma byte_2 (t a b : Z) :
  is_u8 a -> is_u8 b ->
  u8 (u16 (u16 (t * 64 + a / 4) * 64 + (a mod 4 * 16 + b / 16)) / 16) = a.
Proof. intros Ha Hb. zmod. Qed.

Lemma byte_3 (t a b c : Z) :
  is_u8 b -> is_u8 c ->
  u8 (u16 (u16 (t * 64 + (a mod 4 * 16 + b / 16)) * 64 + (b mod 16 * 4 + c / 64)) / 4)
  = b.
Proof. intros Hb Hc. zmod. Qed.

Lemma byte_4 (t b c : Z) :
  is_u8 c ->
  u8 (u16 (u16 (t * 64 + (b mod 16 * 4 + c / 64)) * 64 + c mod 64)) = c.
Proof. intros Hc. zmod. Qed.

(** The two decoders agree on the characters they share a meaning for; one
    proof serves both, from what a step does to the register. *)
Section decoder.
Context (alpha : list Z) (dec : Z -> Z)
  (loop : list Z -> nat -> Z -> Z -> nat -> nat -> nat ->
          option (list Z * nat * nat))
  (Hdec : forall v, 0 <= v < 64 -> dec (sextet alpha v) = v)
  (Hloop : forall c s pos t bits i j orig, 0 <= dec c ->
     loop (c :: s) pos t bits i j orig =
       let t := u16 (Z.lor (Z.shiftl t 6) (dec c)) in
       let bits := u16 (bits + 6) in
       if 8 <=? bits then
         let bits := bits - 8 in
         '(l, d, n) ← loop s (S pos) t bits (S i)
            (if bits =? 0 then S i else j) (if bits =? 0 then S pos else orig);
         Some (u8 (Z.shiftr t bits) :: l, d, n)
       else loop s (S pos) t bits i j orig).

Lemma step_0 (v : Z) s pos t i j orig : 0 <= v < 64 ->
  loop (sextet alpha v :: s) pos t 0 i j orig =
    loop s (S pos) (u16 (t * 64 + v)) 6 i j orig.
Proof. intros Hv. rewrite Hloop, Hdec, b64_shift_in by (rewrite ?Hdec; lia). done. Qed.

Lemma step_6 (v : Z) s pos t i j orig : 0 <= v < 64 ->
  loop (sextet alpha v :: s) pos t 6 i j orig =
    '(l, d, n) ← loop s (S pos) (u16 (t * 64 + v)) 4 (S i) j orig;
    Some (u8 (u16 (t * 64 + v) / 16) :: l, d, n).
Proof.
  intros Hv. rewrite Hloop, Hdec, b64_shift_in by (rewrite ?Hdec; lia).
  change (u16 (6 + 6)) with 12. cbv zeta. change (8 <=? 12) with true.
  change (12 - 8) with 4. change (4 =? 0) with false. cbv iota.
  by rewrite (shiftr_pow _ 4 16).
Qed.

Lemma step_4 (v : Z) s pos t i j orig : 0 <= v < 64 ->
  loop (sextet alpha v :: s) pos t 4 i j orig =
    '(l, d, n) ← loop s (S pos) (u16 (t * 64 + v)) 2 (S i) j orig;
    Some (u8 (u16 (t * 64 + v) / 4) :: l, d, n).
Proof.
  intros Hv. rewrite Hloop, Hdec, b64_shift_in by (rewrite ?Hdec; lia).
  change (u16 (4 + 6)) with 10. cbv zeta. change (8 <=? 10) with true.
  change (10 - 8) with 2. change (2 =? 0) with false. cbv iota.
  by rewrite (shiftr_pow _ 2 4).
Qed.

Lemma step_2 (v : Z) s pos t i j orig : 0 <= v < 64 ->
  loop (sextet alpha v :: s) pos t 2 i j orig =
    '(l, d, n) ← loop s (S pos) (u16 (t * 64 + v)) 0 (S i) (S i) (S pos);
    Some (u8 (u16 (t * 64 + v)) :: l, d, n).
Proof.
  intros Hv. rewrite Hloop, Hdec, b64_shift_in by (rewrite ?Hdec; lia).
  change (u16 (2 + 6)) with 8. cbv zeta. change (8 <=? 8) with true.
  change (8 - 8) with 0. change (0 =? 0) with true. cbv iota.
  by rewrite (shiftr_pow _ 0 1), Z.div_1_r.
Qed.

Lemma group_loop (a b c : Z) s pos t i j orig :
  is_u8 a -> is_u8 b -> is_u8 c ->
  exists t', loop ((sextet alpha <$> sextets [a; b; c]) ++ s) pos t 0 i j orig =
    '(l, d, n) ← loop s (4 + pos)%nat t' 0 (3 + i) (3 + i) (4 + pos);
    Some (a :: b :: c :: l, d, n).
Proof.
  intros Ha Hb Hc. cbn [sextets fmap list_fmap app].
  rewrite step_0, step_6, step_4, step_2 by zmod.
  rewrite byte_2, byte_3, byte_4 by done.
  match goal with |- context [loop s (S (S (S (S pos)))) ?x] => exists x end.
  change (4 + pos)%nat with (S (S (S (S pos)))).
  change (3 + i)%nat with (S (S (S i))).
  by destruct (loop s (S (S (S (S pos))))) as [[[l d] n]|].
Qed.
End decoder.

Lemma base64_loop_step c s pos t bits i j orig :
  0 <= base64_dec c ->
  scan_base64_loop (c :: s) pos t bits i j orig =
    let t := u16 (Z.lor (Z.shiftl t 6) (base64_dec c)) in
    let bits := u16 (bits + 6) in
    if 8 <=? bits then
      let bits := bits - 8 in
      '(l, d, n) ← scan_base64_loop s (S pos) t bits (S i)
         (if bits =? 0 then S i else j) (if bits =? 0 then S pos else orig);
      Some (u8 (Z.shiftr t bits) :: l, d, n)
    else scan_base64_loop s (S pos) t bits i j orig.
Proof. intros H. cbn [scan_base64_loop]. zfalse (base64_dec c <? 0). reflexivity. Qed.

(** The URL decoder without the positions it does not keep. *)
Definition url_loop (s : list Z) (pos : nat) (t bits : Z) (i j orig : nat)
  : option (list Z * nat * nat) := scan_base64url_loop s pos t bits i.

Lemma base64url_loop_step c s pos t bits i j orig :
  0 <= scan_base64url_decimal c ->
  url_loop (c :: s) pos t bits i j orig =
    let t := u16 (Z.lor (Z.shiftl t 6) (scan_base64url_decimal c)) in
    let bits := u16 (bits + 6) in
    if 8 <=? bits then
      let bits := bits - 8 in
      '(l, d, n) ← url_loop s (S pos) t bits (S i)
         (if bits =? 0 then S i else j) (if bits =? 0 then S pos else orig);
      Some (u8 (Z.shiftr t bits) :: l, d, n)
    else url_loop s (S pos) t bits i j orig.
Proof.
  intros H. unfold url_loop. cbn [scan_base64url_loop].
  zfalse (scan_base64url_decimal c <? 0). reflexivity.
Qed.

Definition dec_of (v : Z) (Hv : 0 <= v < 64) :
  base64_dec (sextet base64 v) = v := proj1 (proj2 (sextet_dec v Hv)).
Definition dec_url_of (v : Z) (Hv : 0 <= v < 64) :
  scan_base64url_decimal (sextet base64url v) = v :=
  proj2 (proj2 (proj2 (sextet_dec v Hv))).

(** The padding of [l] sextets at an offset divisible by four. *)
Definition pads (n : nat) : list Z := replicate ((4 - n mod 4) mod 4) "="%C.

Lemma scan_base64_sextets (stop : Z) (r : list Z) (s : list Z) :
  bytes s -> base64_dec stop < 0 -> forall pos t i j orig, (pos mod 4 = 0)%nat ->
  scan_base64_loop ((sextet base64 <$> sextets s) ++ pads (length (sextets s)) ++
      stop :: r) pos t 0 i j orig =
    Some (s, (length s + i)%nat,
          (length (sextets s) + length (pads (length (sextets s))) + pos)%nat).
Proof.
  unfold bytes.
  induction s as [|a|a b|a b c s IH] using triple_ind; intros Hs Hst pos t i j orig Hp;
    repeat match goal with
      | H : Forall _ (_ :: _) |- _ => inversion H; clear H; subst end.
  - cbn [sextets fmap list_fmap app length]. change (pads 0) with (@nil Z).
    cbn [app length scan_base64_loop skip_pad]. ztrue (base64_dec stop <? 0).
    rewrite Hp. cbn [Nat.eqb negb]. rewrite andb_false_r. cbn [mbind option_bind].
    change (u16 (Z.shiftl 1 0 - 1)) with 0. by rewrite Z.land_0_r.
  - cbn [sextets fmap list_fmap app length]. change (pads 2) with ["="%C; "="%C].
    rewrite (step_0 base64 base64_dec _ dec_of base64_loop_step),
      (step_6 base64 base64_dec _ dec_of base64_loop_step) by zmod.
    cbn [app length scan_base64_loop]. change (base64_dec "="%C <? 0) with true.
    cbn [skip_pad].
    replace (S (S pos) mod 4 =? 0)%nat with false by lia.
    replace (S (S (S pos)) mod 4 =? 0)%nat with false by lia.
    replace (S (S (S (S pos))) mod 4 =? 0)%nat with true by lia.
    change ("="%C =? "="%C) with true. cbn [negb andb]. rewrite andb_false_r, orb_true_r.
    cbn [mbind option_bind]. replace (u8 _) with a; [done|]. zmod.
  - cbn [sextets fmap list_fmap app length]. change (pads 3) with ["="%C].
    rewrite (step_0 base64 base64_dec _ dec_of base64_loop_step),
      (step_6 base64 base64_dec _ dec_of base64_loop_step),
      (step_4 base64 base64_dec _ dec_of base64_loop_step) by zmod.
    cbn [app length scan_base64_loop]. change (base64_dec "="%C <? 0) with true.
    cbn [skip_pad].
    replace (S (S (S pos)) mod 4 =? 0)%nat with false by lia.
    replace (S (S (S (S pos))) mod 4 =? 0)%nat with true by lia.
    change ("="%C =? "="%C) with true. cbn [negb andb]. rewrite andb_false_r, orb_true_r.
    cbn [mbind option_bind].
    rewrite byte_2 by done.
    pose proof (byte_3 (u16 (t * 64 + a / 4)) a b 0) as E.
    change (0 / 64) with 0 in E. rewrite Z.add_0_r in E. by rewrite E by done.
  - change (sextets (a :: b :: c :: s)) with (sextets [a; b; c] ++ sextets s).
    rewrite fmap_app, <- app_assoc.
    destruct (group_loop base64 base64_dec _ dec_of base64_loop_step a b c
      ((sextet base64 <$> sextets s) ++
       pads (length (sextets [a; b; c] ++ sextets s)) ++ stop :: r) pos t i j orig)
      as (t' & ->); [done..|].
    assert (pads (length (sextets [a; b; c] ++ sextets s)) = pads (length (sextets s)))
      as ->.
    { unfold pads. rewrite length_app. change (length (sextets [a; b; c])) with 4%nat.
      f_equal. lia. }
    rewrite IH by (done || lia). cbn [mbind option_bind]. rewrite length_app.
    change (length (sextets [a; b; c])) with 4%nat.
    replace (length (a :: b :: c :: s) + i)%nat with (length s + (3 + i))%nat
      by (simpl; lia).
    apply f_equal, f_equal. lia.
Qed.

Lemma scan_base64url_sextets (stop : Z) (r : list Z) (s : list Z) :
  bytes s -> scan_base64url_decimal stop < 0 -> forall pos t i j orig,
  url_loop ((sextet base64url <$> sextets s) ++ stop :: r) pos t 0 i j orig =
    Some (s, (length s + i)%nat, (length (sextets s) + pos)%nat).
Proof.
  unfold bytes.
  assert (forall pos t bits i j orig, scan_base64url_decimal stop < 0 ->
    url_loop (stop :: r) pos t bits i j orig = Some ([], i, pos)) as Hstop.
  { intros. unfold url_loop. cbn [scan_base64url_loop].
    by ztrue (scan_base64url_decimal stop <? 0). }
  induction s as [|a|a b|a b c s IH] using triple_ind; intros Hs Hst pos t i j orig;
    repeat match goal with
      | H : Forall _ (_ :: _) |- _ => inversion H; clear H; subst end.
  - by apply Hstop.
  - cbn [sextets fmap list_fmap app length].
    rewrite (step_0 base64url _ _ dec_url_of base64url_loop_step),
      (step_6 base64url _ _ dec_url_of base64url_loop_step) by zmod.
    rewrite Hstop by done. cbn [mbind option_bind].
    pose proof (byte_2 t a 0) as E. change (0 / 16) with 0 in E.
    rewrite Z.add_0_r in E. by rewrite E by done.
  - cbn [sextets fmap list_fmap app length].
    rewrite (step_0 base64url _ _ dec_url_of base64url_loop_step),
      (step_6 base64url _ _ dec_url_of base64url_loop_step),
      (step_4 base64url _ _ dec_url_of base64url_loop_step) by zmod.
    rewrite Hstop by done. cbn [mbind option_bind].
    rewrite byte_2 by done.
    pose proof (byte_3 (u16 (t * 64 + a / 4)) a b 0) as E.
    change (0 / 64) with 0 in E. rewrite Z.add_0_r in E. by rewrite E by done.
  - change (sextets (a :: b :: c :: s)) with (sextets [a; b; c] ++ sextets s).
    rewrite fmap_app, <- app_assoc.
    destruct (group_loop base64url _ _ dec_url_of base64url_loop_step a b c
      ((sextet base64url <$> sextets s) ++ stop :: r) pos t i j orig)
      as (t' & ->); [done..|].
    rewrite IH by done. cbn [mbind option_bind]. rewrite length_app.
    change (length (sextets [a; b; c])) with 4%nat.
    replace (length (a :: b :: c :: s) + i)%nat with (length s + (3 + i))%nat
      by (simpl; lia).
    apply f_equal, f_equal. lia.
Qed.

Lemma sextets_length (s : list Z) :
  length (sextets s) = (length s / 3 * 4 +
    match length s mod 3 with 0 => 0 | 1 => 2 | _ => 3 end)%nat.
Proof.
  induction s as [|a|a b|a b c s IH] using triple_ind; try done.
  cbn [sextets length]. rewrite IH.
  replace (S (S (S (length s)))) with (length s + 1 * 3)%nat by lia.
  rewrite Nat.div_add, Nat.Div0.mod_add by lia. lia.
Qed.

(** * Properties *)

(** C21: base 64 is lossless: encoding [len] bytes gives [4 * ceil(len/3)]
    characters, as a [NULL] destination is told, and decoding them, up to the
    first character outside the alphabet, gives the bytes back and reads
    exactly the code with its padding.  The URL-safe variant writes no padding,
    though a [NULL] destination is told the padded length, and decodes too: it
    reads exactly the code, and leaves padding that follows.  The texts are
    shorter than [2^62]. *)
Theorem base64_roundtrip (s q r : list Z) (stop : Z) :
  bytes s -> Z.of_nat (length s) < 4611686018427387904 ->
  (exists l, fmt_base64 true (s ++ q) (length s) = Some (l, Z.of_nat (length l)) /\
     Z.of_nat (length l) = (Z.of_nat (length s) + 2) / 3 * 4 /\
     fmt_base64 false (s ++ q) (length s) = Some ([], Z.of_nat (length l)) /\
     (base64_dec stop < 0 ->
      scan_base64 (l ++ stop :: r) = Some (s, length s, length l))) /\
  (exists l, fmt_base64url true (s ++ q) (length s) = Some (l, Z.of_nat (length l)) /\
     Z.of_nat (length l) = (Z.of_nat (length s) * 4 + 2) / 3 /\
     fmt_base64url false (s ++ q) (length s) = Some ([], (Z.of_nat (length s) + 2) / 3 * 4) /\
     (scan_base64url_decimal stop < 0 ->
      scan_base64url (l ++ stop :: r) = Some (s, length s, length l))).
Proof.
  intros Hs Hl.
  pose proof (sextets_length s) as L.
  assert (Z.of_nat (length (sextets s)) = (Z.of_nat (length s) * 4 + 2) / 3) as Lz.
  { rewrite L. clear. generalize (length s) as n. intros n.
    pose proof (Nat.div_mod_eq n 3). pose proof (Nat.mod_upper_bound n 3).
    destruct (n mod 3)%nat as [|[|[|?]]]; Z.div_mod_to_equations; lia. }
  split.
  - exists ((sextet base64 <$> sextets s) ++ pads (length (sextets s))).
    assert (Z.of_nat (length ((sextet base64 <$> sextets s) ++
      pads (length (sextets s)))) = (Z.of_nat (length s) + 2) / 3 * 4) as Lp.
    { rewrite length_app, length_fmap. unfold pads. rewrite length_replicate. lia. }
    split; [|split; [done|split]].
    + unfold fmt_base64, b64_body.
      pose proof (proj1 (b64_from_sextets base64 q s Hs 0)) as E.
      unfold b64_from in E. rewrite E. cbn [mbind option_bind].
      unfold b64_pad. by rewrite length_fmap.
    + rewrite Lp. unfold fmt_base64, b64_length.
      replace (9223372036854775807 <? Z.of_nat (length s)) with false by lia.
      rewrite !u64_id by zmod. done.
    + intros Hst. unfold scan_base64. rewrite <- app_assoc.
      rewrite scan_base64_sextets by done.
      by rewrite length_app, length_fmap, !Nat.add_0_r.
  - exists (sextet base64url <$> sextets s). rewrite length_fmap.
    split; [|split; [done|split]].
    + unfold fmt_base64url, b64_body.
      pose proof (proj1 (b64_from_sextets base64url q s Hs 0)) as E.
      unfold b64_from in E. rewrite E. cbn [mbind option_bind].
      by rewrite length_fmap.
    + unfold fmt_base64url, b64_length.
      replace (9223372036854775807 <? Z.of_nat (length s)) with false by lia.
      rewrite !u64_id by zmod. done.
    + intros Hst. unfold scan_base64url.
      pose proof (scan_base64url_sextets stop r s Hs Hst 0 0 0 0 0) as E.
      unfold url_loop in E. rewrite E. by rewrite !Nat.add_0_r.
Qed.

Lemma base64_roundtrip_witness :
  (exists l, fmt_base64 true (lit "fnord" ++ [7]) 5 = Some (l, Z.of_nat (length l)) /\
    scan_base64 (l ++ [0]) = Some (lit "fnord", 5%nat, length l)) /\
  fmt_base64 true (lit "fnord") 5 = Some (lit "Zm5vcmQ=", 8).
Proof.
  split; [|reflexivity].
  destruct (base64_roundtrip (lit "fnord") [7] [] 0) as [(l & E & _ & _ & H) _];
    [repeat constructor; lia|reflexivity|].
  exists l. split; [exact E|apply H; reflexivity].
Defined.
