(* ===== verification/TextEsc.v ===== *)
(** Text codes with their own grammar: C and JSON string escapes, HTML and XML
    character references (writing), yEnc and uuencode lines of
    [lib/textcode/].  Positions are indices into the source, as in the code:
    the scanners look ahead of the byte they are at. *)
From S2P Require Import Prelude ByteOps StrOps FmtNum ScanNum Utf8 TextHex.

(** * C escapes *)

(** The letter of a short escape. *)
Definition cesc_letter (c : Z) : option Z :=
  if c =? 7 then Some "a"%C else if c =? 8 then Some "b"%C
  else if c =? 27 then Some "e"%C else if c =? 12 then Some "f"%C
  else if c =? 10 then Some "n"%C else if c =? 13 then Some "r"%C
  else if c =? 9 then Some "t"%C else if c =? 11 then Some "v"%C
  else if c =? "\"%C then Some "\"%C else None.

Definition cesc_enc (escapeme : list Z) (c : Z) : option (list Z) :=
  match cesc_letter c with
  | Some x => Some ["\"%C; x]
  | None =>
      if c <? " "%C then Some ("\"%C :: "x"%C :: hex2 c) else
      hit ← escapes escapeme c;
      Some (if (hit : bool) then "\"%C :: "x"%C :: hex2 c else [c])
  end.

Definition fmt_cescape2 (dest : bool) (s : list Z) (len : nat)
    (escapeme : list Z) : option (list Z * Z) :=
  esc_fmt (cesc_enc escapeme) dest s len.

Definition fmt_cescape (dest : bool) (s : list Z) (len : nat)
  : option (list Z * Z) := fmt_cescape2 dest s len [0].

(** [for(j = 2; j < l; ++j)]: the digits of a unicode escape; [Some None] is
    [goto error]. *)
Fixpoint cesc_unicode (s : list Z) (p : nat) (k : Z) (n : nat)
  : option (option Z) :=
  match n with
  | O => Some (Some k)
  | S n' =>
      x ← load s p;
      let c := hexval x in
      if 16 <=? c then Some None
      else cesc_unicode s (S p) (u32 (u32 (k * 16) + c)) n'
  end.

(** Up to three octal digits: the value and their number. *)
Fixpoint cesc_octal (s : list Z) (p : nat) (k : Z) (n : nat)
  : option (Z * nat) :=
  match n with
  | O => Some (k, O)
  | S n' =>
      x ← load s p;
      let l := u32 (x - 48) in
      if l <? 8 then
        '(k, j) ← cesc_octal s (S p) (u32 (u32 (k * 8) + l)) n'; Some (k, S j)
      else Some (k, O)
  end.

(** What is behind a backslash at [i]. *)
Inductive cesc :=
  | Plain (c : Z) (i : nat)        (** store [c], go on behind [i] *)
  | Many (l : list Z) (n i : nat)  (** [n] more bytes, go on at [i] *)
  | Error.

Definition scan_cesc (dest : bool) (s : list Z) (i : nat) : option cesc :=
  x ← load s (i + 1);
  if x =? "a"%C then Some (Plain 7 (i + 1))
  else if x =? "b"%C then Some (Plain 8 (i + 1))
  else if x =? "e"%C then Some (Plain 27 (i + 1))
  else if x =? "f"%C then Some (Plain 12 (i + 1))
  else if x =? "n"%C then Some (Plain 10 (i + 1))
  else if x =? "r"%C then Some (Plain 13 (i + 1))
  else if x =? "t"%C then Some (Plain 9 (i + 1))
  else if x =? "v"%C then Some (Plain 11 (i + 1))
  else if x =? "\"%C then Some (Plain "\"%C (i + 1))
  else if x =? "x"%C then
    a ← load s (i + 2); b ← load s (i + 3);
    let a := hexval a in
    let b := hexval b in
    Some (if a <? 16 then
            if b <? 16 then Plain (u8 (Z.shiftl a 4 + b)) (i + 3)
            else Plain a (i + 2)
          else Plain "\"%C (i + 1))
  else if (x =? "u"%C) || (x =? "U"%C) then
    let n := if x =? "U"%C then 8%nat else 4%nat in
    r ← cesc_unicode s (i + 2) 0 n;
    Some (match r with
          | None => Error
          | Some k =>
              let '(l, w) := fmt_utf8 dest k in Many l w (i + n + 2)
          end)
  else if (48 <=? x) && (x <=? 55) then
    '(k, j) ← cesc_octal s (i + 1) 0 3;
    Some (if dest then Many [u8 k] 1 (i + j + 1) else Many [] 0 (i + j + 1))
  else Some (Plain "\"%C i).

(** The bytes stored, [written] and [i]. *)
Fixpoint scan_cescape_loop (dest : bool) (s : list Z) (i fuel : nat)
  : option (list Z * nat * nat) :=
  match fuel with
  | O => None
  | S fuel' =>
      c ← load s i;
      if c =? 0 then Some ([], O, i) else
      if c =? "\"%C then
        e ← scan_cesc dest s i;
        match e with
        | Error => Some ([], O, i)
        | Plain x i =>
            '(l, w, n) ← scan_cescape_loop dest s (S i) fuel';
            Some (if dest then x :: l else l, S w, n)
        | Many m k i =>
            '(l, w, n) ← scan_cescape_loop dest s i fuel';
            Some (m ++ l, (k + w)%nat, n)
        end
      else if c =? 34 then Some ([], O, i)
      else
        '(l, w, n) ← scan_cescape_loop dest s (S i) fuel';
        Some (if dest then c :: l else l, S w, n)
  end.

Definition scan_cescape (dest : bool) (s : list Z)
  : option (list Z * nat * nat) :=
  scan_cescape_loop dest s 0 (S (length s)).

(** * JSON escapes *)

Definition json_letter (c : Z) : option Z :=
  if (c =? "\"%C) || (c =? 34) then Some c
  else if c =? 10 then Some "n"%C else if c =? 13 then Some "r"%C
  else if c =? 8 then Some "b"%C else if c =? 9 then Some "t"%C
  else if c =? 12 then Some "f"%C else None.

(** What is written for the byte at [i], and how many bytes it covers. *)
Definition json_enc (s : list Z) (len i : nat) : option (list Z * nat) :=
  c ← load s i;
  match json_letter c with
  | Some x => Some (["\"%C; x], 1%nat)
  | None =>
      if c <? " "%C then Some (lit "\u00" ++ hex2 c, 1%nat)
      else if 127 <? c then
        '(j, _) ← scan_utf8_sem (drop i s) (len - i);
        Some (if (j =? 0)%nat then (fst (fmt_utf8 true c), 1%nat)
              else (block s i j, j))
      else Some ([c], 1%nat)
  end.

Fixpoint json_loop (s : list Z) (len i written fuel : nat)
  : option (list Z * Z) :=
  match fuel with
  | O => None
  | S fuel' =>
      if (i <? len)%nat then
        '(e, n) ← json_enc s len i;
        let written := (written + length e)%nat in
        if 9223372036854775807 <? Z.of_nat written then Some (e, u64 (-1))
        else
          '(l, r) ← json_loop s len (i + n) written fuel'; Some (e ++ l, r)
      else Some ([], Z.of_nat written)
  end.

Definition fmt_jsonescape (dest : bool) (s : list Z) (len : nat)
  : option (list Z * Z) :=
  '(l, r) ← json_loop s len 0 0 (S len); Some (if dest then l else [], r).

(** Four digits into [cur]. *)
Fixpoint json_hex4 (s : list Z) (p : nat) (cur : Z) (n : nat)
  : option (option Z) :=
  match n with
  | O => Some (Some cur)
  | S n' =>
      c ← load s p;
      let x := scan_fromhex c in
      if x <? 0 then Some None
      else json_hex4 s (S p) (Z.lor (u32 (Z.shiftl cur 4)) x) n'
  end.

(** [prev] is the open lead surrogate.  The result has the bytes stored,
    [written] and the return value. *)
Definition json_abort (prev : option Z) (i : nat) : list Z * nat * nat :=
  ([], O, match prev with Some _ => (i - 6)%nat | None => i end).

Fixpoint scan_json_loop (dest : bool) (s : list Z) (prev : option Z)
    (i fuel : nat) : option (list Z * nat * nat) :=
  match fuel with
  | O => None
  | S fuel' =>
      c ← load s i;
      if c =? 0 then Some ([], O, i) else
      if c =? 34 then
        Some (match prev with Some _ => json_abort prev i
              | None => ([], O, i) end)
      else
      let store_char (c : Z) (i : nat) :=
        match prev with
        | Some _ => Some (json_abort prev i)
        | None =>
            '(k, _) ← scan_utf8 (drop i s) 4;
            if (k =? 0)%nat then Some (json_abort prev i) else
            '(l, w, n) ← scan_json_loop dest s prev (S i) fuel';
            Some (if dest then c :: l else l, S w, n)
        end in
      if c =? "\"%C then
        x ← load s (i + 1);
        if x =? "u"%C then
          r ← json_hex4 s (i + 2) 0 4;
          match r with
          | None => Some (json_abort prev i)
          | Some cur =>
              if (55296 <=? cur) && (cur <=? 56319) then
                match prev with
                | Some _ => Some (json_abort prev i)
                | None => scan_json_loop dest s (Some cur) (i + 6) fuel'
                end
              else
              match (if (56320 <=? cur) && (cur <=? 57343) then
                       p ← prev;
                       Some (Z.lor (Z.lor (Z.land cur 1023)
                                          (Z.shiftl (Z.land p 1023) 10)) 65536)
                     else Some cur) with
              | None => Some (json_abort prev i)
              | Some todo =>
                  let '(m, k) := fmt_utf8 dest todo in
                  '(l, w, n) ← scan_json_loop dest s None (i + 6) fuel';
                  Some (m ++ l, (k + w)%nat, n)
              end
          end
        else
          let y := if x =? "n"%C then 10 else if x =? "r"%C then 13
                   else if x =? "b"%C then 8 else if x =? "f"%C then 12
                   else if x =? "t"%C then 9 else x in
          store_char y (i + 1)%nat
      else store_char c i
  end.

Definition scan_jsonescape (dest : bool) (s : list Z)
  : option (list Z * nat * nat) :=
  scan_json_loop dest s None 0 (S (length s)).

(** * HTML and XML *)

Definition xml_enc (c : Z) : option (list Z) :=
  Some (if c =? "&"%C then lit "&amp;" else if c =? "<"%C then lit "&lt;"
        else [c]).

Definition fmt_xml : bool -> list Z -> nat -> option (list Z * Z) :=
  esc_fmt xml_enc.

Definition tagarg_enc (c : Z) : option (list Z) :=
  Some (if c =? "&"%C then lit "&amp;" else if c =? "<"%C then lit "&lt;"
        else if c =? ">"%C then lit "&gt;"
        else if c =? 34 then lit "&dquot;" else [c]).

Definition fmt_html_tagarg : bool -> list Z -> nat -> option (list Z * Z) :=
  esc_fmt tagarg_enc.

(** A newline looks at the next byte, which may lie behind [len]. *)
Definition html_enc (s : list Z) (i : nat) : option (list Z * nat) :=
  c ← load s i;
  if c =? "&"%C then Some (lit "&amp;", 1%nat)
  else if c =? "<"%C then Some (lit "&lt;", 1%nat)
  else if c =? ">"%C then Some (lit "&gt;", 1%nat)
  else if c =? 10 then
    d ← load s (i + 1);
    Some (if d =? 10 then (lit "<p>", 2%nat) else (lit "<br>", 1%nat))
  else Some ([c], 1%nat).

Fixpoint html_loop (s : list Z) (len i written fuel : nat)
  : option (list Z * Z) :=
  match fuel with
  | O => None
  | S fuel' =>
      if (i <? len)%nat then
        '(e, n) ← html_enc s i;
        let written := (written + length e)%nat in
        if 9223372036854775807 <? Z.of_nat written then Some (e, u64 (-1))
        else
          '(l, r) ← html_loop s len (i + n) written fuel'; Some (e ++ l, r)
      else Some ([], Z.of_nat written)
  end.

Definition fmt_html (dest : bool) (s : list Z) (len : nat)
  : option (list Z * Z) :=
  '(l, r) ← html_loop s len 0 0 (S len); Some (if dest then l else [], r).

(** * yEnc *)

(** Whether the byte at [i], encoded as [c], is escaped: the [switch] with its
    fall-throughs.  [F] looks at the four bytes behind, [s[i+1] + 42] being an
    [int]. *)
Definition yenc_from (s : list Z) (i : nat) : option bool :=
  a ← load s (i + 1);
  if negb (a + 42 =? "r"%C) then Some false else
  b ← load s (i + 2);
  if negb (b + 42 =? "o"%C) then Some false else
  d ← load s (i + 3);
  if negb (d + 42 =? "m"%C) then Some false else
  e ← load s (i + 4); Some (e + 42 =? " "%C).

Definition yenc_escaped (s : list Z) (i : nat) (c : Z) (linelen : Z)
  : option bool :=
  if c =? "F"%C then
    f ← yenc_from s i; Some (f && negb (linelen =? 0))
  else if c =? "."%C then Some (negb (linelen =? 0))
  else Some ((c =? 0) || (c =? 10) || (c =? 13) || (c =? "="%C)).

(** The bytes written for the byte at [i] and the new [linelen]. *)
Definition yenc_enc (s : list Z) (i : nat) (linelen : Z)
  : option (list Z * Z) :=
  x ← load s i;
  let c := u8 (x + 42) in
  let '(pre, linelen) :=
    if (c =? " "%C) && (linelen =? 253) then ([10], 0) else ([], linelen) in
  esc ← yenc_escaped s i c linelen;
  let '(pre, c) :=
    if (esc : bool) then (pre ++ ["="%C], u8 (c + 64)) else (pre, c) in
  let linelen := linelen + 1 in
  Some (if 253 <? linelen then (pre ++ [c; 10], 0) else (pre ++ [c], linelen)).

(** [for(i = 0; i < len; ++i)]; [k] bytes are left. *)
Fixpoint yenc_loop (s : list Z) (i k : nat) (linelen : Z) (written : nat)
  : option (list Z * Z) :=
  match k with
  | O =>
      Some (if linelen =? 0 then ([], Z.of_nat written)
            else ([10], Z.of_nat (S written)))
  | S k' =>
      '(e, linelen) ← yenc_enc s i linelen;
      let written := (written + length e)%nat in
      if 9223372036854775807 <? Z.of_nat written then Some (e, u64 (-1))
      else
        '(l, r) ← yenc_loop s (S i) k' linelen written; Some (e ++ l, r)
  end.

Definition fmt_yenc (dest : bool) (s : list Z) (len : nat)
  : option (list Z * Z) :=
  '(l, r) ← yenc_loop s 0 len 0 0; Some (if dest then l else [], r).

(** One line: the bytes stored and [i]. *)
Fixpoint scan_yenc (s : list Z) (i : nat) : option (list Z * nat) :=
  match s with
  | [] => None
  | c :: s' =>
      if c =? 0 then Some ([], i) else
      if c =? "="%C then
        match s' with
        | [] => None
        | d :: s'' =>
            if d =? "y"%C then Some ([], S i) else
            '(l, n) ← scan_yenc s'' (S (S i)); Some (u8 (d - 64 - 42) :: l, n)
        end
      else if (c =? 10) || (c =? 13) then Some ([], i)
      else '(l, n) ← scan_yenc s' (S i); Some (u8 (c - 42) :: l, n)
  end.

(** * uuencode *)

Definition uu_enc (x : Z) : Z := u8 (Z.land (u8 x - 1) 63 + 33).

(** [i] groups of three bytes from [s]. *)
Fixpoint uu_groups (s : list Z) (i : nat) {struct i} : option (list Z) :=
  match i with
  | O => Some []
  | S i' =>
      a ← load s 0; b ← load s 1; c ← load s 2;
      let tmp := Z.shiftl a 16 + Z.shiftl b 8 + c in
      l ← uu_groups (drop 3 s) i';
      Some (uu_enc (Z.land (Z.shiftr tmp 18) 63) ::
            uu_enc (Z.land (Z.shiftr tmp 12) 63) ::
            uu_enc (Z.land (Z.shiftr tmp 6) 63) ::
            uu_enc (Z.land tmp 63) :: l)
  end.

(** [while(len)]: a line of at most 45 bytes. *)
Fixpoint uu_lines (s : list Z) (len fuel : nat) : option (list Z) :=
  match fuel with
  | O => None
  | S fuel' =>
      if (len =? 0)%nat then Some [] else
      let '(i, diff) :=
        if (45 <? len)%nat then (15%nat, 45%nat)
        else (((len + 2) / 3)%nat, len) in
      g ← uu_groups s i;
      l ← uu_lines (drop (3 * i) s) (len - diff) fuel';
      Some (uu_enc (Z.of_nat diff) :: g ++ 10 :: l)
  end.

Definition fmt_uuencoded (dest : bool) (s : list Z) (len : nat)
  : option (list Z * Z) :=
  if dest then
    l ← uu_lines s len (S len); Some (l, Z.of_nat (length l))
  else Some ([], if 9223372036854775807 <? Z.of_nat len then u64 (-1)
                 else u64 (u64 (Z.of_nat len + 2) / 3 * 4)).

(** [while(len > 0)]; the bytes stored and the rest of the source, [Some None]
    for [return 0]. *)
Fixpoint uu_read (s : list Z) (len fuel : nat)
  : option (list Z * option (list Z)) :=
  match fuel with
  | O => None
  | S fuel' =>
      if (len =? 0)%nat then Some ([], Some s) else
      a ← load s 0;
      if 64 <? a - 32 then Some ([], None) else
      b ← load s 1;
      if 64 <? b - 32 then Some ([], None) else
      c ← load s 2;
      if 64 <? c - 32 then Some ([], None) else
      d ← load s 3;
      if 64 <? d - 32 then Some ([], None) else
      let tmp := Z.shiftl (Z.land (a - 32) 63) 18 +
                 Z.shiftl (Z.land (b - 32) 63) 12 +
                 Z.shiftl (Z.land (c - 32) 63) 6 + Z.land (d - 32) 63 in
      let bytes3 := take len [u8 (Z.shiftr tmp 16); u8 (Z.shiftr tmp 8);
                              u8 (Z.land tmp 255)] in
      '(l, r) ← uu_read (drop 4 s) (len - 3) fuel'; Some (bytes3 ++ l, r)
  end.

(** The bytes stored, [destlen] (not set on failure) and the bytes read. *)
Definition scan_uuencoded (s : list Z) : option (list Z * option nat * nat) :=
  x ← load s 0;
  let n := u64 (x - 32) in
  if 64 <? n then Some ([], None, O) else
  '(l, r) ← uu_read (tail s) (Z.to_nat (Z.land n 63)) 64;
  Some (match r with
        | None => (l, None, O)
        | Some r => (l, Some (length l), (length s - length r)%nat)
        end).

(** * Lemmas *)

(** ** C escapes *)

Definition cesc_letter_ok (c : Z) : bool :=
  match cesc_letter c with
  | Some x => match scan_cesc true ["\"%C; x] 0 with
              | Some (Plain d i) => (d =? c) && (i =? 1)%nat && negb (x =? 0)
              | _ => false
              end
  | None => negb (c =? "\"%C)
  end.

(** The reader behind a backslash looks at nothing before it. *)
Lemma scan_cesc_letter (c x : Z) (pre t : list Z) :
  is_u8 c -> cesc_letter c = Some x ->
  scan_cesc true (pre ++ "\"%C :: x :: t) (length pre) =
    Some (Plain c (length pre + 1)).
Proof.
  intros Hc Hx. unfold scan_cesc.
  rewrite (load_pre pre _ 1), load_cons_S, load_cons_0.
  cbn [mbind option_bind]. unfold cesc_letter in Hx.
  repeat match type of Hx with
    | (if ?c =? ?n then _ else _) = _ =>
        destruct (Z.eqb_spec c n) as [->|_]; [injection Hx as <-; reflexivity|]
    end. done.
Qed.

Lemma scan_cesc_hex (c : Z) (pre t : list Z) :
  is_u8 c ->
  scan_cesc true (pre ++ "\"%C :: "x"%C :: hex2 c ++ t) (length pre) =
    Some (Plain c (length pre + 3)).
Proof.
  intros Hc. unfold scan_cesc, hex2. cbn [app].
  rewrite (load_pre pre _ 1), (load_pre pre _ 2), (load_pre pre _ 3).
  rewrite !load_cons_S, !load_cons_0. cbn [mbind option_bind].
  change ("x"%C =? "a"%C) with false. change ("x"%C =? "b"%C) with false.
  change ("x"%C =? "e"%C) with false. change ("x"%C =? "f"%C) with false.
  change ("x"%C =? "n"%C) with false. change ("x"%C =? "r"%C) with false.
  change ("x"%C =? "t"%C) with false. change ("x"%C =? "v"%C) with false.
  change ("x"%C =? "\"%C) with false. change ("x"%C =? "x"%C) with true.
  cbv iota zeta.
  assert ((hexval (fmt_tohex (Z.shiftr c 4)) <? 16) &&
    (hexval (fmt_tohex (Z.land c 15)) <? 16) &&
    (u8 (Z.shiftl (hexval (fmt_tohex (Z.shiftr c 4))) 4 +
         hexval (fmt_tohex (Z.land c 15))) =? c) = true) as F by by_bytes c.
  apply andb_prop in F as [F F3]. apply andb_prop in F as [F1 F2].
  rewrite F1, F2. do 2 f_equal. lia.
Qed.

(** The bytes a C string literal may hold: all but the quote, unless the
    caller asks for it to be escaped. *)
Definition cesc_readable (esc : list Z) (c : Z) : Prop :=
  is_u8 c /\ (c <> 34 \/ c ∈ esc).

(** A byte in the set is escaped when it is a plain character. *)
Lemma escapes_in (esc j : list Z) (c : Z) :
  nonul esc -> c ∈ esc -> c < 128 -> escapes (zstr esc j) c = Some true.
Proof.
  intros He Hc Hlt. unfold escapes. rewrite str_chr_spec by done. simpl.
  set (P := fun x : Z => negb (x =? c)).
  assert (1 <= c) as Hc1.
  { apply list_elem_of_In in Hc. unfold nonul in He.
    rewrite Forall_forall in He. apply He in Hc. lia. }
  destruct (decide (span P esc < length esc)%nat) as [Hl|Hl].
  - destruct (span_stop P esc Hl) as (x & Hx & E). subst P. simpl in *.
    unfold load, zstr. rewrite lookup_app_l by done. rewrite Hx. simpl.
    f_equal. assert (x = c) as -> by lia. rewrite s8_id by lia. lia.
  - exfalso. apply list_elem_of_lookup_1 in Hc as [i Hi].
    pose proof (lookup_lt_Some _ _ _ Hi).
    destruct (span_before P esc i) as (x & Hx & E); [lia|]. subst P. simpl in E.
    assert (x = c) by congruence. lia.
Qed.

Lemma cesc_step (esc j : list Z) (c : Z) (e : list Z) (pre t : list Z) (fuel : nat) :
  nonul esc -> cesc_readable esc c -> cesc_enc (zstr esc j) c = Some e ->
  scan_cescape_loop true (pre ++ e ++ t) (length pre) (S fuel) =
    '(l, w, n) ← scan_cescape_loop true (pre ++ e ++ t)
                   (length pre + length e) fuel;
    Some (c :: l, S w, n).
Proof.
  intros He [Hc Hq]. unfold cesc_enc.
  destruct (cesc_letter c) as [x|] eqn:Ex.
  { intros [= <-]. cbn [app length scan_cescape_loop].
    rewrite load_pre_0, load_cons_0. cbn [mbind option_bind].
    change ("\"%C =? 0) with false. change ("\"%C =? "\"%C) with true.
    rewrite (scan_cesc_letter c) by done. cbn [mbind option_bind].
    by replace (length pre + 2)%nat with (S (length pre + 1)) by lia. }
  assert (forall fuel, scan_cescape_loop true
      (pre ++ ("\"%C :: "x"%C :: hex2 c) ++ t) (length pre) (S fuel) =
    '(l, w, n) ← scan_cescape_loop true (pre ++ ("\"%C :: "x"%C :: hex2 c) ++ t)
                   (length pre + 4) fuel; Some (c :: l, S w, n)) as Hhex.
  { intros f. cbn [app scan_cescape_loop].
    rewrite load_pre_0, load_cons_0. cbn [mbind option_bind].
    change ("\"%C =? 0) with false. change ("\"%C =? "\"%C) with true.
    rewrite (scan_cesc_hex c) by done. cbn [mbind option_bind].
    by replace (length pre + 4)%nat with (S (length pre + 3)) by lia. }
  destruct (Z.ltb_spec c " "%C); [intros [= <-]; apply Hhex|].
  destruct (escapes_total esc j c He) as [h Eh]. rewrite Eh. cbn [mbind option_bind].
  destruct h; intros [= <-]; [apply Hhex|].
  assert (c <> 34) as Hne.
  { destruct Hq as [|Hin]; [done|]. intros ->.
    rewrite (escapes_in esc j 34) in Eh by done. done. }
  assert (c <> "\"%C) as Hnb by (intros ->; by vm_compute in Ex).
  cbn [app length scan_cescape_loop]. rewrite load_pre_0, load_cons_0.
  cbn [mbind option_bind]. zfalse (c =? 0). zfalse (c =? "\"%C). zfalse (c =? 34).
  by rewrite Nat.add_1_r.
Qed.

Lemma cesc_enc_total (esc j : list Z) (c : Z) :
  nonul esc -> is_u8 c ->
  exists e, cesc_enc (zstr esc j) c = Some e /\ (1 <= length e <= 4)%nat.
Proof.
  intros He Hc. unfold cesc_enc. destruct (cesc_letter c).
  { eexists. split; [done|]. simpl. lia. }
  case_match; [eexists; split; [done|]; simpl; lia|].
  destruct (escapes_total esc j c He) as [h ->]. simpl.
  destruct h; eexists; (split; [done|]); simpl; lia.
Qed.

Lemma scan_cescape_codes (esc j r s : list Z) :
  nonul esc -> Forall (cesc_readable esc) s ->
  forall (pre : list Z) (fuel : nat),
  (length (codes (cesc_enc (zstr esc j)) s) < fuel)%nat ->
  scan_cescape_loop true (pre ++ codes (cesc_enc (zstr esc j)) s ++ 0 :: r)
    (length pre) fuel =
    Some (s, length s, (length pre + length (codes (cesc_enc (zstr esc j)) s))%nat).
Proof.
  intros He Hs. induction Hs as [|c s Hc _ IH]; intros pre fuel Hf.
  - unfold codes in *. simpl in *. destruct fuel; [lia|]. cbn [scan_cescape_loop].
    rewrite load_pre_0, load_cons_0. cbn. by rewrite Nat.add_0_r.
  - destruct (cesc_enc_total esc j c He (proj1 Hc)) as (e & E & Hl).
    assert (codes (cesc_enc (zstr esc j)) (c :: s) =
      e ++ codes (cesc_enc (zstr esc j)) s) as Ec by (unfold codes; simpl; by rewrite E).
    rewrite Ec in *. rewrite length_app in Hf. destruct fuel as [|fuel]; [lia|].
    rewrite <- app_assoc, (cesc_step esc j c e) by done.
    specialize (IH (pre ++ e) fuel ltac:(lia)).
    rewrite <- app_assoc, length_app in IH. rewrite IH. cbn [mbind option_bind].
    by rewrite length_app, Nat.add_assoc.
Qed.

(** ** JSON *)

Definition json_code (c : Z) : list Z :=
  match json_letter c with
  | Some x => ["\"%C; x]
  | None => if c <? " "%C then lit "\u00" ++ hex2 c else [c]
  end.

Lemma json_loop_S (s : list Z) (len i written fuel : nat) :
  json_loop s len i written (S fuel) =
    if (i <? len)%nat then
      '(e, n) ← json_enc s len i;
      let written := (written + length e)%nat in
      if 9223372036854775807 <? Z.of_nat written then Some (e, u64 (-1))
      else
        '(l, r) ← json_loop s len (i + n) written fuel; Some (e ++ l, r)
    else Some ([], Z.of_nat written).
Proof. reflexivity. Qed.

Lemma json_loop_ascii (q s : list Z) : forall (p : list Z) (w : nat),
  Forall (fun c => 0 <= c < 128) s ->
  Z.of_nat (w + 6 * length s) <= 9223372036854775807 ->
  json_loop (p ++ s ++ q) (length p + length s) (length p) w (S (length s)) =
    Some (concat (map json_code s),
          Z.of_nat (w + length (concat (map json_code s)))).
Proof.
  induction s as [|c s IH]; intros p w Hs Hw.
  - simpl. replace (length p <? length p + 0)%nat with false by lia.
    by rewrite Nat.add_0_r.
  - inversion Hs as [|? ? Hc Hs']; subst. cbn [length map concat] in *.
    rewrite json_loop_S. replace (length p <? length p + S (length s))%nat with true by lia.
    assert (json_enc (p ++ (c :: s) ++ q) (length p + S (length s)) (length p) =
      Some (json_code c, 1%nat)) as ->.
    { unfold json_enc, json_code. cbn [app]. rewrite load_pre_0, load_cons_0.
      cbn [mbind option_bind]. destruct (json_letter c); [done|].
      case_match; [done|]. by zfalse (127 <? c). }
    cbn [mbind option_bind].
    assert (length (json_code c) <= 6)%nat as Hl.
    { unfold json_code. destruct (json_letter c); [simpl; lia|].
      case_match; simpl; lia. }
    replace (9223372036854775807 <? Z.of_nat (w + length (json_code c)))
      with false by lia.
    specialize (IH (p ++ [c]) (w + length (json_code c))%nat Hs' ltac:(lia)).
    rewrite length_app, <- !app_assoc in IH. cbn [length app] in IH.
    cbn [app]. replace (length p + S (length s))%nat with (length p + 1 + length s)%nat
      by lia.
    rewrite IH. cbn [mbind option_bind]. by rewrite length_app, Nat.add_assoc.
Qed.

(** What the reader does with a plain character at [i]. *)
Lemma json_store (c d : Z) (pre t : list Z) (fuel : nat) :
  0 <= d < 128 ->
  ('(k, _) ← scan_utf8 (drop (length pre) (pre ++ d :: t)) 4;
   if (k =? 0)%nat then Some (json_abort None (length pre)) else
   '(l, w, n) ← scan_json_loop true (pre ++ d :: t) None (S (length pre)) fuel;
   Some (c :: l, S w, n)) =
  ('(l, w, n) ← scan_json_loop true (pre ++ d :: t) None (S (length pre)) fuel;
   Some (c :: l, S w, n)).
Proof. intros Hd. rewrite drop_app_length, scan_utf8_ascii by lia. done. Qed.

Lemma json_letter_cases (c x : Z) :
  json_letter c = Some x ->
  0 <= x < 128 /\ (x =? "u"%C) = false /\
  (if x =? "n"%C then 10 else if x =? "r"%C then 13 else if x =? "b"%C then 8
   else if x =? "f"%C then 12 else if x =? "t"%C then 9 else x) = c.
Proof.
  unfold json_letter. destruct (Z.eqb_spec c "\"%C) as [->|]; [by intros [= <-]|].
  destruct (Z.eqb_spec c 34) as [->|]; [by intros [= <-]|]. cbn [orb].
  repeat match goal with
    | |- (if ?c =? ?n then _ else _) = _ -> _ =>
        destruct (Z.eqb_spec c n) as [->|_]; [by intros [= <-]|]
    end. done.
Qed.

Lemma json_step (c : Z) (pre t : list Z) (fuel : nat) :
  0 <= c < 128 ->
  scan_json_loop true (pre ++ json_code c ++ t) None (length pre) (S fuel) =
    '(l, w, n) ← scan_json_loop true (pre ++ json_code c ++ t) None
                   (length pre + length (json_code c)) fuel;
    Some (c :: l, S w, n).
Proof.
  intros Hc. unfold json_code. destruct (json_letter c) as [x|] eqn:Ex.
  - destruct (json_letter_cases c x Ex) as (Hx & Hu & Hy).
    cbn [app length scan_json_loop]. rewrite load_pre_0, load_cons_0.
    cbn [mbind option_bind]. change ("\"%C =? 0) with false.
    change ("\"%C =? 34) with false. change ("\"%C =? "\"%C) with true. cbv iota.
    rewrite (load_pre pre _ 1), load_cons_S, load_cons_0. cbn [mbind option_bind].
    rewrite Hu, Hy.
    pose proof (json_store c x (pre ++ ["\"%C]) t fuel Hx) as E.
    rewrite <- app_assoc, length_app in E. cbn [app length] in E.
    cbv zeta. rewrite E. by replace (length pre + 2)%nat with (S (length pre + 1)) by lia.
  - destruct (Z.ltb_spec c " "%C).
    + cbn [app length scan_json_loop hex2]. rewrite load_pre_0, load_cons_0.
      cbn [mbind option_bind]. change ("\"%C =? 0) with false.
      change ("\"%C =? 34) with false. change ("\"%C =? "\"%C) with true. cbv iota.
      rewrite (load_pre pre _ 1), load_cons_S, load_cons_0. cbn [mbind option_bind].
      change ("u"%C =? "u"%C) with true. cbv iota.
      assert (json_hex4 (pre ++ 92 :: 117 :: 48 :: 48 :: fmt_tohex (Z.shiftr c 4)
        :: fmt_tohex (Z.land c 15) :: t) (length pre + 2) 0 4 = Some (Some c)) as ->.
      { cbn [json_hex4].
        replace (S (length pre + 2)) with (length pre + 3)%nat by lia.
        replace (S (length pre + 3)) with (length pre + 4)%nat by lia.
        replace (S (length pre + 4)) with (length pre + 5)%nat by lia.
        rewrite (load_pre pre _ 2), (load_pre pre _ 3), (load_pre pre _ 4),
          (load_pre pre _ 5).
        rewrite !load_cons_S, !load_cons_0. cbn [mbind option_bind].
        change (scan_fromhex 48 <? 0) with false. cbv iota.
        assert (is_u8 c) as Hb by (unfold is_u8; lia).
        destruct (hex2_digits c Hb) as (_ & _ & _ & H1 & H2 & _).
        rewrite H1, H2. do 2 f_equal.
        assert ((32 <=? c) || (Z.lor (u32 (Z.shiftl (Z.lor (u32 (Z.shiftl
          (Z.lor (u32 (Z.shiftl (Z.lor (u32 (Z.shiftl 0 4)) (scan_fromhex 48)) 4))
            (scan_fromhex 48)) 4)) (scan_fromhex (fmt_tohex (Z.shiftr c 4)))) 4))
          (scan_fromhex (fmt_tohex (Z.land c 15))) =? c) = true) as F by by_bytes c.
        replace (32 <=? c) with false in F by lia. cbn [orb] in F. lia. }
      cbn [mbind option_bind].
      replace ((55296 <=? c) && (c <=? 56319)) with false by lia.
      replace ((56320 <=? c) && (c <=? 57343)) with false by lia.
      cbn [mbind option_bind]. unfold fmt_utf8. ztrue (c <=? 127).
      done.
    + assert (c <> "\"%C /\ c <> 34) as [H1 H2].
      { split; intros ->; by vm_compute in Ex. }
      cbn [app length scan_json_loop]. rewrite load_pre_0, load_cons_0.
      cbn [mbind option_bind]. zfalse (c =? 0). zfalse (c =? 34). zfalse (c =? "\"%C).
      cbv zeta. rewrite (json_store c c) by lia. by rewrite Nat.add_1_r.
Qed.

Lemma scan_json_codes (stop : Z) (r s : list Z) :
  stop = 0 \/ stop = 34 -> Forall (fun c => 0 <= c < 128) s ->
  forall (pre : list Z) (fuel : nat),
  (length (concat (map json_code s)) < fuel)%nat ->
  scan_json_loop true (pre ++ concat (map json_code s) ++ stop :: r) None
    (length pre) fuel =
    Some (s, length s, (length pre + length (concat (map json_code s)))%nat).
Proof.
  intros Hst Hs. induction Hs as [|c s Hc _ IH]; intros pre fuel Hf.
  - simpl in *. destruct fuel; [lia|]. cbn [scan_json_loop].
    rewrite load_pre_0, load_cons_0. rewrite Nat.add_0_r.
    by destruct Hst as [-> | ->].
  - cbn [map concat] in *. rewrite length_app in *. destruct fuel as [|fuel]; [lia|].
    rewrite <- app_assoc, json_step by done.
    assert (1 <= length (json_code c))%nat as Hl.
    { unfold json_code. destruct (json_letter c); [simpl; lia|]. case_match; simpl; lia. }
    specialize (IH (pre ++ json_code c) fuel ltac:(lia)).
    rewrite <- app_assoc, length_app in IH. rewrite IH. cbn [mbind option_bind].
    by rewrite Nat.add_assoc.
Qed.

(** ** yEnc *)

(** The two ways a byte is written: plain, or behind an equals sign. *)
Lemma yenc_byte (x : Z) :
  is_u8 x ->
  u8 (u8 (u8 (x + 42) + 64) - 64 - 42) = x /\ u8 (u8 (x + 42) - 42) = x.
Proof. intros H. split; zmod. Qed.

Lemma yenc_from_total (p s q : list Z) (c : Z) :
  (4 <= length q)%nat ->
  exists b, yenc_from (p ++ (c :: s) ++ q) (length p) = Some b.
Proof.
  intros Hq. unfold yenc_from.
  assert (forall k, (k <= 4)%nat -> exists y, load (p ++ (c :: s) ++ q)
    (length p + k) = Some y) as H.
  { intros k Hk. unfold load. apply lookup_lt_is_Some_2.
    rewrite !length_app. simpl. lia. }
  destruct (H 1%nat ltac:(lia)) as [a ->]. cbn [mbind option_bind].
  case_match; [eauto|]. destruct (H 2%nat ltac:(lia)) as [b ->]. cbn [mbind option_bind].
  case_match; [eauto|]. destruct (H 3%nat ltac:(lia)) as [d ->]. cbn [mbind option_bind].
  case_match; [eauto|]. destruct (H 4%nat ltac:(lia)) as [e ->]. simpl. eauto.
Qed.

(** One byte on a line that is not full: what is written, and how it reads. *)
Lemma yenc_enc_short (p s q : list Z) (x : Z) (linelen : Z) :
  is_u8 x -> (4 <= length q)%nat -> 0 <= linelen < 253 ->
  exists e, yenc_enc (p ++ (x :: s) ++ q) (length p) linelen =
      Some (e, linelen + 1) /\ (1 <= length e <= 2)%nat /\
    forall t i, scan_yenc (e ++ t) i =
      '(l, n) ← scan_yenc t (i + length e)%nat; Some (x :: l, n).
Proof.
  intros Hx Hq Hl. unfold yenc_enc. rewrite load_pre_0. cbn [app].
  rewrite load_cons_0. cbn [mbind option_bind].
  destruct (yenc_byte x Hx) as [E1 E2]. set (c := u8 (x + 42)) in *.
  assert (is_u8 c) as Hc by apply u8_range. clearbody c.
  replace ((c =? " "%C) && (linelen =? 253)) with false by lia.
  assert (exists b, yenc_escaped (p ++ x :: s ++ q) (length p) c linelen = Some b /\
    (b = false -> c <> 0 /\ c <> 10 /\ c <> 13 /\ c <> "="%C) /\
    (b = true -> u8 (c + 64) <> "y"%C)) as (b & -> & Hb0 & Hb1).
  { destruct (yenc_from_total p s q x Hq) as [f Ef]. cbn [app] in Ef.
    unfold yenc_escaped. destruct (Z.eqb_spec c "F"%C) as [->|].
    { rewrite Ef. simpl. eexists. split; [done|]. split; [done|]. intros _. by vm_compute. }
    destruct (Z.eqb_spec c "."%C) as [->|].
    { eexists. split; [done|]. split; [done|]. intros _. by vm_compute. }
    eexists. split; [done|]. split; [lia|]. intros Hor Hy.
    assert (c = 0 \/ c = 10 \/ c = 13 \/ c = "="%C) as [->|[->|[->| ->]]] by lia;
      by vm_compute in Hy. }
  cbn [mbind option_bind]. replace (253 <? linelen + 1) with false by lia.
  destruct b.
  - specialize (Hb1 eq_refl). exists ["="%C; u8 (c + 64)].
    split; [done|]. split; [simpl; lia|]. intros t i.
    cbn [app length scan_yenc]. change ("="%C =? 0) with false.
    change ("="%C =? "="%C) with true. cbv iota. zfalse (u8 (c + 64) =? "y"%C).
    rewrite E1. by replace (i + 2)%nat with (S (S i)) by lia.
  - destruct (Hb0 eq_refl) as (H1 & H2 & H3 & H4). exists [c].
    split; [done|]. split; [simpl; lia|]. intros t i.
    cbn [app length scan_yenc]. zfalse (c =? 0). zfalse (c =? "="%C).
    replace ((c =? 10) || (c =? 13)) with false by lia.
    by rewrite E2, Nat.add_1_r.
Qed.

Lemma yenc_loop_short (q s : list Z) : forall (p : list Z) (linelen : Z) (w : nat),
  bytes s -> (4 <= length q)%nat -> 0 <= linelen ->
  linelen + Z.of_nat (length s) <= 253 -> 0 < linelen + Z.of_nat (length s) ->
  Z.of_nat (w + 2 * length s) < 9223372036854775807 ->
  exists l, yenc_loop (p ++ s ++ q) (length p) (length s) linelen w =
      Some (l ++ [10], Z.of_nat (w + length l + 1)) /\
    forall t i, scan_yenc (l ++ t) i =
      '(d, n) ← scan_yenc t (i + length l)%nat; Some (s ++ d, n).
Proof.
  induction s as [|x s IH]; intros p linelen w Hs Hq H0 Hl Hpos Hw.
  - exists []. simpl in *. zfalse (linelen =? 0). split; [do 2 f_equal; lia|].
    intros t i. rewrite Nat.add_0_r. by destruct (scan_yenc t i) as [[? ?]|].
  - inversion Hs as [|? ? Hx Hs']; subst. cbn [length] in *.
    destruct (yenc_enc_short p s q x linelen Hx Hq) as (e & Ee & Hle & Hd); [lia|].
    cbn [yenc_loop]. rewrite Ee. cbn [mbind option_bind].
    replace (9223372036854775807 <? Z.of_nat (w + length e)) with false by lia.
    destruct (IH (p ++ [x]) (linelen + 1) (w + length e)%nat) as (l & El & Hl');
      try done; try lia.
    rewrite <- app_assoc, length_app, Nat.add_1_r in El. cbn [app] in El.
    cbn [app]. rewrite El. cbn [mbind option_bind].
    exists (e ++ l). split.
    + rewrite <- app_assoc. do 2 f_equal. rewrite length_app. lia.
    + intros t i. rewrite <- app_assoc, Hd, Hl', length_app, Nat.add_assoc.
      by destruct (scan_yenc t _) as [[? ?]|].
Qed.

(** ** uuencode *)

Lemma uu_char (v : Z) :
  0 <= v < 64 ->
  (64 <? uu_enc v - 32) = false /\ Z.land (uu_enc v - 32) 63 = v /\
  (0 < v -> uu_enc v = v + 32).
Proof.
  intros Hv. assert (is_u8 v) as Hb by (unfold is_u8; lia).
  assert ((64 <=? v) || (negb (64 <? uu_enc v - 32) &&
    (Z.land (uu_enc v - 32) 63 =? v) && ((v =? 0) || (uu_enc v =? v + 32))) = true) as F
    by by_bytes v.
  replace (64 <=? v) with false in F by lia. cbn [orb] in F.
  set (e := uu_enc v) in *. set (l := Z.land (e - 32) 63) in *. clearbody l e. lia.
Qed.

Lemma land_63 (x : Z) : Z.land x 63 = x mod 64.
Proof. by rewrite (land_low x 6). Qed.

(** Three bytes through four sextets. *)
Lemma uu_triple (a b c : Z) :
  is_u8 a -> is_u8 b -> is_u8 c ->
  let tmp := Z.shiftl a 16 + Z.shiftl b 8 + c in
  let u := Z.shiftl (Z.land (Z.shiftr tmp 18) 63) 18 +
           Z.shiftl (Z.land (Z.shiftr tmp 12) 63) 12 +
           Z.shiftl (Z.land (Z.shiftr tmp 6) 63) 6 + Z.land tmp 63 in
  u8 (Z.shiftr u 16) = a /\ u8 (Z.shiftr u 8) = b /\ u8 (Z.land u 255) = c.
Proof.
  intros Ha Hb Hc tmp u.
  assert (u = tmp) as ->.
  { unfold u. rewrite !land_63, !Z.shiftr_div_pow2, !Z.shiftl_mul_pow2 by lia.
    change (2 ^ 18) with 262144. change (2 ^ 12) with 4096. change (2 ^ 6) with 64.
    assert (0 <= tmp < 16777216) as Ht.
    { unfold tmp. rewrite !Z.shiftl_mul_pow2 by lia. change (2 ^ 16) with 65536.
      change (2 ^ 8) with 256. zmod. }
    clearbody tmp. zmod. }
  unfold tmp. rewrite (land_low _ 8) by done.
  rewrite !Z.shiftr_div_pow2, !Z.shiftl_mul_pow2 by lia.
  change (2 ^ 16) with 65536. change (2 ^ 8) with 256. zmod.
Qed.

Lemma uu_read_groups (r : list Z) (i : nat) : forall (s : list Z) (len fuel : nat) g,
  bytes s -> uu_groups s i = Some g -> (3 * i < len + 3)%nat -> (len <= 3 * i)%nat ->
  (i < fuel)%nat ->
  uu_read (g ++ r) len fuel = Some (take len s, Some r).
Proof.
  induction i as [|i IH]; intros s len fuel g Hs Hg H1 H2 Hf.
  - simpl in Hg. injection Hg as <-. assert (len = 0)%nat as -> by lia.
    destruct fuel; [lia|]. by rewrite take_0.
  - cbn [uu_groups] in Hg.
    destruct s as [|a s]; [done|]. destruct s as [|b s]; [done|].
    destruct s as [|c s]; [done|].
    rewrite !load_cons_S, !load_cons_0 in Hg. cbn [mbind option_bind] in Hg.
    change (drop 3 (a :: b :: c :: s)) with (drop 0 s) in Hg. rewrite drop_0 in Hg.
    destruct (uu_groups s i) as [g'|] eqn:Eg; [|done]. cbn [mbind option_bind] in Hg.
    injection Hg as <-. destruct fuel as [|fuel]; [lia|]. cbn [uu_read app].
    replace (len =? 0)%nat with false by lia.
    rewrite !load_cons_S, !load_cons_0. cbn [mbind option_bind].
    set (tmp := Z.shiftl a 16 + Z.shiftl b 8 + c).
    assert (forall x, 0 <= Z.land x 63 < 64) as Hr
      by (intros; rewrite land_63; apply Z.mod_pos_bound; lia).
    destruct (uu_char (Z.land (Z.shiftr tmp 18) 63) (Hr _)) as (-> & -> & _).
    destruct (uu_char (Z.land (Z.shiftr tmp 12) 63) (Hr _)) as (-> & -> & _).
    destruct (uu_char (Z.land (Z.shiftr tmp 6) 63) (Hr _)) as (-> & -> & _).
    destruct (uu_char (Z.land tmp 63) (Hr _)) as (-> & -> & _). cbv iota zeta.
    unfold bytes in Hs. inversion Hs as [|? ? Ha Hs1]; subst.
    inversion Hs1 as [|? ? Hb Hs2]; subst. inversion Hs2 as [|? ? Hc Hs3]; subst.
    pose proof (uu_triple a b c Ha Hb Hc) as HT. cbv zeta in HT. fold tmp in HT.
    destruct HT as (-> & -> & ->).
    change (drop 4 (_ :: _ :: _ :: _ :: g' ++ r)) with (drop 0 (g' ++ r)).
    rewrite drop_0, (IH s) by (done || lia). cbn [mbind option_bind].
    destruct len as [|[|[|len]]]; [lia|done|done|].
    replace (S (S (S len)) - 3)%nat with len by lia.
    change (take (S (S (S len))) [a; b; c]) with (a :: b :: c :: take len (@nil Z)).
    by rewrite firstn_nil.
Qed.

(** ** Lines *)

Lemma uu_groups_total (i : nat) : forall s : list Z,
  (3 * i <= length s)%nat ->
  exists g, uu_groups s i = Some g /\ length g = (4 * i)%nat.
Proof.
  induction i as [|i IH]; intros s Hs; [by exists []|].
  destruct s as [|a [|b [|c s]]]; simpl in Hs; try lia. cbn [uu_groups].
  rewrite !load_cons_S, !load_cons_0. cbn [mbind option_bind].
  change (drop 3 (a :: b :: c :: s)) with (drop 0 s). rewrite drop_0.
  destruct (IH s ltac:(lia)) as (g & -> & Hl). cbn [mbind option_bind].
  eexists. split; [done|]. simpl. lia.
Qed.

(** * Properties *)

(** An escaper and its reader agree on [s]: the text, its length with and
    without a destination, its size, and that reading it up to the terminator
    [stop] gives [s] back, whatever follows. *)
Definition escapes_back (fmt : bool -> list Z -> nat -> option (list Z * Z))
    (scan : list Z -> option (list Z * nat * nat)) (widest : nat) (stop : Z)
    (s q r : list Z) : Prop :=
  exists l, fmt true (s ++ q) (length s) = Some (l, Z.of_nat (length l)) /\
    fmt false (s ++ q) (length s) = Some ([], Z.of_nat (length l)) /\
    (length s <= length l <= widest * length s)%nat /\
    scan (l ++ stop :: r) = Some (s, length s, length l).

(** Escaping a byte string for a C literal and reading the literal back
    gives the string: for all bytes, provided the caller asks for double quotes
    to be escaped when there are any, and for any further set of characters to
    escape.  The text is at most four times as long. *)
Theorem cescape_roundtrip (s q r esc j : list Z) :
  nonul esc -> Forall (cesc_readable esc) s ->
  Z.of_nat (4 * length s) <= 9223372036854775807 ->
  escapes_back (fun d t n => fmt_cescape2 d t n (zstr esc j)) (scan_cescape true)
    4 0 s q r.
Proof.
  intros He Hs Hw.
  destruct (esc_loop_codes (cesc_enc (zstr esc j)) 4 q s 0) as [E Hl].
  { eapply Forall_impl; [|exact Hs]. intros c [Hc _]. by apply cesc_enc_total. }
  { lia. }
  exists (codes (cesc_enc (zstr esc j)) s).
  unfold fmt_cescape2, esc_fmt. rewrite E. split; [done|]. split; [done|].
  split; [done|]. unfold scan_cescape.
  rewrite (scan_cescape_codes esc j r s He Hs []); [done|].
  rewrite length_app. simpl. lia.
Qed.

Lemma cescape_roundtrip_witness :
  escapes_back (fun d t n => fmt_cescape2 d t n (zstr [34] [])) (scan_cescape true)
    4 0 [10; 34; 92; 200; 1] [] [7].
Proof.
  apply (cescape_roundtrip [10; 34; 92; 200; 1] [] [7] [34] []);
    [repeat constructor; lia| |discriminate].
  assert (forall c, 0 <= c < 256 -> cesc_readable [34] c) as H.
  { intros c Hc. split; [exact Hc|]. destruct (decide (c = 34)) as [->|];
      [right; by apply list_elem_of_singleton|by left]. }
  repeat (constructor; [apply H; lia|]). constructor.
Defined.

(** An ASCII string escaped for JSON reads back as it was, up to the end
    of the text or the closing quote. *)
Theorem jsonescape_roundtrip (s q r : list Z) (stop : Z) :
  Forall (fun c => 0 <= c < 128) s -> stop = 0 \/ stop = 34 ->
  Z.of_nat (6 * length s) <= 9223372036854775807 ->
  escapes_back fmt_jsonescape (scan_jsonescape true) 6 stop s q r.
Proof.
  intros Hs Hst Hw. pose proof (json_loop_ascii q s [] 0 Hs Hw) as E.
  exists (concat (map json_code s)). unfold fmt_jsonescape. cbn [app length Nat.add] in E.
  rewrite E. split; [done|]. split; [done|]. split.
  - clear. induction s as [|c s IH]; [simpl; lia|]. cbn [map concat length].
    rewrite length_app. assert (1 <= length (json_code c) <= 6)%nat; [|lia].
    unfold json_code. destruct (json_letter c); [simpl; lia|]. case_match; simpl; lia.
  - unfold scan_jsonescape.
    rewrite (scan_json_codes stop r s Hst Hs []); [done|].
    rewrite length_app. simpl. lia.
Qed.

Lemma jsonescape_roundtrip_witness :
  escapes_back fmt_jsonescape (scan_jsonescape true) 6 34 [10; 34; 92; 31; 65] [] [200].
Proof.
  apply (jsonescape_roundtrip [10; 34; 92; 31; 65] [] [200] 34);
    [repeat constructor; lia|by right|discriminate].
Defined.

(** Up to 253 bytes written as one yEnc line read back, with the number of
    characters of the line before its newline.  The encoder looks at the four
    bytes behind the block, which the caller must have. *)
Theorem yenc_roundtrip (s q t : list Z) :
  bytes s -> (0 < length s <= 253)%nat -> (4 <= length q)%nat ->
  exists l, fmt_yenc true (s ++ q) (length s) =
      Some (l ++ [10], Z.of_nat (length l + 1)) /\
    scan_yenc ((l ++ [10]) ++ t) 0 = Some (s, length l).
Proof.
  intros Hs Hlen Hq.
  destruct (yenc_loop_short q s [] 0 0 Hs Hq) as (l & E & Hd); [lia..|].
  exists l. unfold fmt_yenc. cbn [app length Nat.add] in E. rewrite E. split; [done|].
  rewrite <- app_assoc, Hd. simpl. by rewrite app_nil_r.
Qed.

Lemma yenc_roundtrip_witness :
  exists l, fmt_yenc true ([214; 19; 1; 223; 4] ++ [0; 0; 0; 0]) 5 =
      Some (l ++ [10], Z.of_nat (length l + 1)) /\
    scan_yenc ((l ++ [10]) ++ []) 0 = Some ([214; 19; 1; 223; 4], length l).
Proof.
  apply (yenc_roundtrip [214; 19; 1; 223; 4] [0; 0; 0; 0] []);
    [repeat constructor; lia|simpl; lia|simpl; lia].
Defined.

(** One line of uuencode, up to 45 bytes, decodes to the bytes: their
    number is in the first character, and the padding of the last group is
    dropped.  The encoder reads up to two bytes behind the block. *)
Theorem uuencode_roundtrip (s q t : list Z) :
  bytes (s ++ q) -> (0 < length s <= 45)%nat -> (2 <= length q)%nat ->
  exists l, fmt_uuencoded true (s ++ q) (length s) =
      Some (l ++ [10], Z.of_nat (length l + 1)) /\
    length l = (1 + 4 * ((length s + 2) / 3))%nat /\
    scan_uuencoded (l ++ t) = Some (s, Some (length s), length l).
Proof.
  intros Hb Hlen Hq. set (i := ((length s + 2) / 3)%nat).
  assert (3 * i <= length s + 2 < 3 * i + 3)%nat as Hi.
  { subst i. pose proof (Nat.div_mod (length s + 2) 3 ltac:(lia)).
    pose proof (Nat.mod_upper_bound (length s + 2) 3 ltac:(lia)). lia. }
  destruct (uu_groups_total i (s ++ q)) as (g & Eg & Hg); [rewrite length_app; lia|].
  set (n := Z.of_nat (length s)).
  assert (0 < n < 46) as Hn by (subst n; lia).
  destruct (uu_char n ltac:(lia)) as (H1 & H2 & H3). specialize (H3 ltac:(lia)).
  exists (uu_enc n :: g). split; [|split].
  - unfold fmt_uuencoded.
    replace (S (length s)) with (S (S (length s - 1))) by lia.
    cbn [uu_lines]. replace (length s =? 0)%nat with false by lia.
    replace (45 <? length s)%nat with false by lia. fold i. fold n. rewrite Eg.
    cbn [mbind option_bind]. rewrite Nat.sub_diag. cbn [uu_lines Nat.eqb mbind option_bind].
    do 2 f_equal. cbn [length]. rewrite !length_app. simpl. lia.
  - cbn [length]. lia.
  - unfold scan_uuencoded. cbn [app]. rewrite load_cons_0. cbn [mbind option_bind].
    rewrite H3. replace (n + 32 - 32) with n by lia.
    rewrite u64_id by (unfold is_u64; lia). replace (64 <? n) with false by lia.
    rewrite land_63, Z.mod_small by lia. cbn [tail].
    replace (Z.to_nat n) with (length s) by lia.
    rewrite (uu_read_groups t i (s ++ q)) by (done || lia). cbn [mbind option_bind].
    rewrite take_app_length. do 3 f_equal. cbn [length]. rewrite length_app. lia.
Qed.

Lemma uuencode_roundtrip_witness :
  exists l, fmt_uuencoded true ([102; 110; 111; 114; 100] ++ [0; 0]) 5 =
      Some (l ++ [10], Z.of_nat (length l + 1)) /\ length l = 9%nat /\
    scan_uuencoded (l ++ [1]) = Some ([102; 110; 111; 114; 100], Some 5%nat, length l).
Proof.
  apply (uuencode_roundtrip [102; 110; 111; 114; 100] [0; 0] [1]);
    [repeat constructor; lia|simpl; lia|simpl; lia].
Defined.
