(* ===== verification/Heap.v ===== *)
(** Counted memory: what the components that never look at the addresses of
    their blocks ask of [malloc] and [free]. *)
From S2P Require Import Prelude.

(** The answers the allocator gives to successive requests and the number of
    live blocks.  Behind the recorded answers requests succeed. *)
Record heap : Type := Heap { answers : list bool; live : Z }.

Definition request (h : heap) : bool * heap :=
  match answers h with
  | [] => (true, Heap [] (live h + 1))
  | true :: a => (true, Heap a (live h + 1))
  | false :: a => (false, Heap a (live h))
  end.

Definition release (h : heap) : heap := Heap (answers h) (live h - 1).

(** Requests: the block is counted when it is granted. *)
Lemma alloc_cases (h : heap) :
  exists ok h', request h = (ok, h') /\
    live h' = live h + (if (ok : bool) then 1 else 0) /\
    (answers h = [] -> ok = true /\ answers h' = []).
Proof.
  destruct h as [[|[] a] n]; simpl; eexists _, _; (split; [done|]); simpl;
    (split; [lia|done]).
Qed.

Lemma request_granted (h : heap) :
  answers h = [] -> request h = (true, Heap [] (live h + 1)).
Proof. destruct h as [a n]. by intros [= ->]. Qed.
