(* ===== verification/Critbit.v ===== *)
(** Crit-bit trees over byte-string keys: the data structure that
    [lib/cbmap] (maps) and [lib/cb] (sets) share.  An internal node names the
    byte and the bit at which the keys below it first differ; a key is looked
    up by following its bits to a leaf, which is then compared.  This file has
    the tree, the bit arithmetic of the code and the theory the two components
    are proved with. *)
From Stdlib Require Export Sorting.Sorted.
From S2P Require Import Prelude.
From S2P Require Export Heap.

(** * Data *)

(** Pointers to internal nodes are tagged in the code; here the two kinds of
    node are constructors.  A child is owned by its parent alone, so trees are
    values.  [otherbits] is all ones but for the branching bit. *)
Inductive tree (V : Type) : Type :=
  | Data (key : list Z) (value : V)
  | Internal (byte : nat) (otherbits : Z) (branch0 branch1 : tree V).
Arguments Data {V} key value.
Arguments Internal {V} byte otherbits branch0 branch1.

(** [(1 + (otherbits | c)) >> 8] *)
Definition direction (otherbits c : Z) : Z := Z.shiftr (1 + Z.lor otherbits c) 8.

(** [branch[direction]] *)
Definition branch {V} (d : Z) (l r : tree V) : option (tree V) :=
  if d =? 0 then Some l else if d =? 1 then Some r else None.

(** The mask of the highest bit in which two bytes with exclusive or [x]
    differ. *)
Definition critical (x : Z) : Z :=
  let x := Z.lor x (Z.shiftr x 1) in
  let x := Z.lor x (Z.shiftr x 2) in
  let x := Z.lor x (Z.shiftr x 4) in
  Z.lxor (Z.land x (Z.lnot (Z.shiftr x 1))) 255.

(** * Bits of keys *)

(** A key has zero bytes behind its end. *)
Definition kbyte (k : list Z) (b : nat) : Z := default 0 (k !! b).
Definition bit (k : list Z) (b : nat) (o : Z) : bool := Z.lor o (kbyte k b) =? 255.

(** The eight masks; a higher bit has a smaller mask. *)
Definition masks : list Z := [127; 191; 223; 239; 247; 251; 253; 254].
Abbreviation mask o := (o ∈ masks).

(** Bit positions in the order in which they are compared. *)
Definition before (b : nat) (o : Z) (b' : nat) (o' : Z) : Prop :=
  (b < b')%nat \/ b = b' /\ o < o'.

(** Two keys have the same bits before a position. *)
Definition agree (k k' : list Z) (b : nat) (o : Z) : Prop :=
  forall b' o', mask o' -> before b' o' b o -> bit k b' o' = bit k' b' o'.

Fixpoint entries {V} (t : tree V) : list (list Z * V) :=
  match t with
  | Data k v => [(k, v)]
  | Internal _ _ l r => entries l ++ entries r
  end.

Abbreviation keys t := ((entries t).*1).

(** The leaf that following the bits of [k] ends at. *)
Fixpoint best {V} (k : list Z) (t : tree V) : list Z * V :=
  match t with
  | Data k' v => (k', v)
  | Internal b o l r => if bit k b o then best k r else best k l
  end.

(** The invariant: below a node all keys agree up to its position and are
    parted by their bit there. *)
Fixpoint wf {V} (t : tree V) : Prop :=
  match t with
  | Data k _ => bytes k
  | Internal b o l r =>
      mask o /\ wf l /\ wf r /\
      (forall k, k ∈ keys l -> bit k b o = false) /\
      (forall k, k ∈ keys r -> bit k b o = true) /\
      (forall k k', k ∈ keys l -> k' ∈ keys r -> agree k k' b o) /\
      (forall k k', k ∈ keys l -> k' ∈ keys l -> agree k k' b o) /\
      (forall k k', k ∈ keys r -> k' ∈ keys r -> agree k k' b o)
  end.

(** No key is a proper prefix of another: the condition under which both
    libraries keep keys apart (terminated strings satisfy it). *)
Definition prefix_free (K : list (list Z)) : Prop :=
  forall k k', k ∈ K -> k' ∈ K -> k `prefix_of` k' -> k = k'.

(** The order in which trees are traversed: unsigned bytes, left to right. *)
Definition key_lt (k k' : list Z) : Prop :=
  exists b : nat, (forall i, (i < b)%nat -> kbyte k i = kbyte k' i) /\
    kbyte k b < kbyte k' b.

(** * Lemmas *)

Lemma kbyte_range (k : list Z) (b : nat) : bytes k -> is_u8 (kbyte k b).
Proof.
  intros H. unfold kbyte. destruct (k !! b) eqn:E; simpl.
  - by eapply bytes_lookup.
  - unfold is_u8. lia.
Qed.

Lemma kbyte_load (k j : list Z) (b : nat) :
  (b < length k)%nat -> load (k ++ j) b = Some (kbyte k b).
Proof.
  intros H. unfold load, kbyte. rewrite lookup_app_l by done.
  destruct (lookup_lt_is_Some_2 k b H) as [x ->]. done.
Qed.

Lemma kbyte_here (k : list Z) (b : nat) :
  (b < length k)%nat -> load k b = Some (kbyte k b).
Proof.
  intros H. unfold load, kbyte. destruct (lookup_lt_is_Some_2 k b H) as [x ->]. done.
Qed.

Lemma kbyte_end (k : list Z) (b : nat) : (length k <= b)%nat -> kbyte k b = 0.
Proof. intros H. unfold kbyte. by rewrite lookup_ge_None_2. Qed.

(** A key whose bytes are the first of another. *)
Lemma prefix_kbyte (k d : list Z) (n : nat) :
  n = length k -> (n <= length d)%nat ->
  (forall i, (i < n)%nat -> kbyte d i = kbyte k i) -> k `prefix_of` d.
Proof.
  intros -> Hl H. exists (drop (length k) d).
  rewrite <- (take_drop (length k) d) at 1. f_equal.
  apply list_eq_nth; [rewrite length_take; lia|]. intros i Hi.
  rewrite length_take in Hi. rewrite lookup_take_lt by lia.
  specialize (H i ltac:(lia)). unfold kbyte in H.
  destruct (lookup_lt_is_Some_2 d i) as [x Hx]; [lia|].
  destruct (lookup_lt_is_Some_2 k i) as [y Hy]; [lia|].
  rewrite Hx, Hy in *. simpl in H. by rewrite H.
Qed.

(** Checking a statement about a mask and one or two bytes by computation. *)
Lemma mask_forall (P : Z -> bool) (o : Z) :
  forallb P masks = true -> mask o -> P o = true.
Proof.
  rewrite forallb_forall. intros H Ho. apply H. by apply list_elem_of_In.
Qed.

Lemma direction_bit (o c : Z) :
  mask o -> is_u8 c -> direction o c = if Z.lor o c =? 255 then 1 else 0.
Proof.
  intros Ho Hc.
  assert (forallb (fun o => direction o c =? if Z.lor o c =? 255 then 1 else 0) masks
    = true) as H by by_bytes c.
  apply (mask_forall _ o) in H; [|done]. lia.
Qed.

(** What [critical] computes: the first bit, from the top, at which two
    different bytes differ. *)
Definition first_diff_ok (x y : Z) : bool :=
  (x =? y) ||
  (bool_decide (critical (Z.lxor x y) ∈ masks) &&
   negb (Bool.eqb (Z.lor (critical (Z.lxor x y)) x =? 255)
                  (Z.lor (critical (Z.lxor x y)) y =? 255)) &&
   Bool.eqb (Z.lor (critical (Z.lxor x y)) x =? 255) (y <? x) &&
   forallb (fun o => (critical (Z.lxor x y) <=? o) ||
     Bool.eqb (Z.lor o x =? 255) (Z.lor o y =? 255)) masks).

Lemma first_diff_all (x y : Z) : is_u8 x -> is_u8 y -> first_diff_ok x y = true.
Proof. revert x y. apply byte_forall2. vm_compute. reflexivity. Qed.

Lemma critical_spec (x y : Z) :
  is_u8 x -> is_u8 y -> x <> y ->
  let o := critical (Z.lxor x y) in
  mask o /\ (Z.lor o x =? 255) = negb (Z.lor o y =? 255) /\
  (Z.lor o x =? 255) = (y <? x) /\
  (forall o', mask o' -> o' < o -> (Z.lor o' x =? 255) = (Z.lor o' y =? 255)).
Proof.
  intros Hx Hy Hne o. pose proof (first_diff_all x y Hx Hy) as H.
  unfold first_diff_ok in H. fold o in H. clearbody o.
  replace (x =? y) with false in H by lia. cbn [orb] in H.
  apply andb_prop in H as [H H4]. apply andb_prop in H as [H H3].
  apply andb_prop in H as [H1 H2]. apply bool_decide_eq_true in H1.
  apply eqb_prop in H3. split; [done|]. split; [|split; [done|]].
  - destruct (Z.lor o x =? 255), (Z.lor o y =? 255); done.
  - intros o' Ho' Hlt. apply (mask_forall _ o') in H4; [|done]. cbn beta in H4.
    replace (o <=? o') with false in H4 by lia. by apply eqb_prop in H4.
Qed.

(** Bytes with the same bits are equal. *)
Lemma same_bits (x y : Z) :
  is_u8 x -> is_u8 y ->
  (forall o, mask o -> (Z.lor o x =? 255) = (Z.lor o y =? 255)) -> x = y.
Proof.
  intros Hx Hy H. destruct (decide (x = y)) as [|Hne]; [done|]. exfalso.
  destruct (critical_spec x y Hx Hy Hne) as (Hm & Hd & _). cbv zeta in *.
  rewrite (H _ Hm) in Hd. by destruct (Z.lor _ y =? 255).
Qed.

(** ** Positions *)

Lemma before_total (b : nat) (o : Z) (b' : nat) (o' : Z) :
  before b o b' o' \/ (b = b' /\ o = o') \/ before b' o' b o.
Proof. unfold before. lia. Qed.

Lemma agree_sym (k k' : list Z) (b : nat) (o : Z) : agree k k' b o -> agree k' k b o.
Proof. intros H b' o' Ho Hb. symmetry. by apply H. Qed.

Lemma agree_trans (k1 k2 k3 : list Z) (b : nat) (o : Z) :
  agree k1 k2 b o -> agree k2 k3 b o -> agree k1 k3 b o.
Proof. intros H1 H2 b' o' Ho Hb. rewrite H1 by done. by apply H2. Qed.

Lemma agree_before (k k' : list Z) (b : nat) (o : Z) (b' : nat) (o' : Z) :
  agree k k' b o -> before b' o' b o -> agree k k' b' o'.
Proof. intros H Hb b2 o2 Ho Hb2. apply H; [done|]. unfold before in *. lia. Qed.

Lemma agree_refl (k : list Z) (b : nat) (o : Z) : agree k k b o.
Proof. done. Qed.

Lemma agree_bytes (k k' : list Z) (b : nat) (o : Z) (i : nat) :
  bytes k -> bytes k' -> agree k k' b o -> (i < b)%nat -> kbyte k i = kbyte k' i.
Proof.
  intros Hk Hk' H Hi. apply same_bits; [by apply kbyte_range..|].
  intros o' Ho'. apply (H i o' Ho'). by left.
Qed.

(** Agreement from the bytes before and the bits of the byte itself. *)
Lemma agree_intro (k k' : list Z) (b : nat) (o : Z) :
  (forall i, (i < b)%nat -> kbyte k i = kbyte k' i) ->
  (forall o', mask o' -> o' < o -> bit k b o' = bit k' b o') -> agree k k' b o.
Proof.
  intros H1 H2 b' o' Ho' [Hb|[-> Hlt]]; [|by apply H2].
  unfold bit. by rewrite H1.
Qed.

Lemma bit_lt (k k' : list Z) (b : nat) (o : Z) :
  bytes k -> bytes k' -> mask o -> agree k k' b o ->
  bit k b o = false -> bit k' b o = true -> key_lt k k'.
Proof.
  intros Hk Hk' Ho H H0 H1. exists b. split.
  { intros i Hi. by eapply agree_bytes. }
  unfold bit in *. pose proof (kbyte_range k b Hk) as Rx.
  pose proof (kbyte_range k' b Hk') as Ry.
  set (x := kbyte k b) in *. set (y := kbyte k' b) in *.
  assert (x <> y) as Hne by (intros E; rewrite E in H0; congruence).
  destruct (critical_spec x y Rx Ry Hne) as (Hm & Hd & Hl & Hb).
  set (c := critical (Z.lxor x y)) in *.
  assert (c = o) as Ec.
  { destruct (Z.lt_trichotomy c o) as [Hlt|[E|Hgt]]; [|done|].
    - assert (bit k b c = bit k' b c) as E by (apply H; [done|by right]).
      unfold bit in E. fold x y in E. rewrite E in Hd. by destruct (Z.lor c y =? 255).
    - rewrite (Hb o Ho Hgt) in H0. congruence. }
  rewrite Ec in *. rewrite H0 in *. lia.
Qed.

(** The first [n] bytes of two keys are the same. *)
Definition pre_eq (p : list Z) (n : nat) (k : list Z) : bool :=
  forallb (fun i => kbyte k i =? kbyte p i) (seq 0 n).

Lemma pre_eq_spec (p : list Z) (n : nat) (k : list Z) :
  pre_eq p n k <-> forall i, (i < n)%nat -> kbyte k i = kbyte p i.
Proof.
  unfold pre_eq. rewrite Is_true_true, forallb_forall. split.
  - intros H i Hi. specialize (H i). rewrite in_seq in H. lia.
  - intros H i [_ Hi]%in_seq. rewrite H by done. lia.
Qed.

(** ** Trees *)

Section trees.
Context {V : Type}.
Implicit Types (t l r : tree V) (k : list Z) (v : V).

Lemma best_in k t : best k t ∈ entries t.
Proof.
  induction t as [k' v|b o l IHl r IHr]; simpl.
  - by apply list_elem_of_singleton.
  - apply elem_of_app. case_match; eauto.
Qed.

Lemma best_key_in k t : (best k t).1 ∈ keys t.
Proof. apply list_elem_of_fmap. eauto using best_in. Qed.

Lemma entry_key k v t : (k, v) ∈ entries t -> k ∈ keys t.
Proof. intros H. apply list_elem_of_fmap. by exists (k, v). Qed.

Lemma keys_app l r : (entries l ++ entries r).*1 = keys l ++ keys r.
Proof. apply fmap_app. Qed.

Lemma wf_bytes t k : wf t -> k ∈ keys t -> bytes k.
Proof.
  induction t as [k' v|b o l IHl r IHr]; simpl.
  - intros H ->%list_elem_of_singleton. done.
  - intros (_ & Hl & Hr & _). rewrite keys_app, elem_of_app. naive_solver.
Qed.

(** All keys below a node agree up to its position. *)
Lemma wf_agree b o l r k k' :
  wf (Internal b o l r) -> k ∈ keys (Internal b o l r) ->
  k' ∈ keys (Internal b o l r) -> agree k k' b o.
Proof.
  intros (_ & _ & _ & _ & _ & Hlr & Hll & Hrr). cbn [entries].
  rewrite keys_app, !elem_of_app.
  intros [Hk|Hk] [Hk'|Hk']; eauto using agree_sym.
Qed.

Lemma wf_best t k v : wf t -> (k, v) ∈ entries t -> best k t = (k, v).
Proof.
  induction t as [k' v'|b o l IHl r IHr]; simpl.
  - by intros _ ->%list_elem_of_singleton.
  - intros (_ & Hl & Hr & H0 & H1 & _) [H|H]%elem_of_app.
    + rewrite H0 by eauto using entry_key. eauto.
    + rewrite H1 by eauto using entry_key. eauto.
Qed.

Lemma wf_nodup t : wf t -> NoDup (keys t).
Proof.
  induction t as [k' v'|b o l IHl r IHr]; simpl.
  - intros _. apply NoDup_singleton.
  - intros (_ & Hl & Hr & H0 & H1 & _). rewrite keys_app.
    apply list.NoDup_app. split; [eauto|]. split; [|eauto].
    intros k Hk Hk'. apply H0 in Hk. apply H1 in Hk'. congruence.
Qed.

Lemma wf_sorted t : wf t -> StronglySorted key_lt (keys t).
Proof.
  induction t as [k' v'|b o l IHl r IHr]; simpl.
  - intros _. repeat constructor.
  - intros (Ho & Hl & Hr & H0 & H1 & Hlr & _). rewrite keys_app.
    assert (forall k k', k ∈ keys l -> k' ∈ keys r -> key_lt k k') as Hx.
    { intros k k' Hk Hk'. apply (bit_lt k k' b o); eauto using wf_bytes. }
    specialize (IHl Hl). specialize (IHr Hr). clear Hl Hr H0 H1 Hlr.
    induction IHl as [|k ks _ IH Hk]; simpl; [done|].
    constructor.
    + apply IH. intros; apply Hx; [by apply list_elem_of_further|done].
    + apply Forall_app. split; [done|]. rewrite list.Forall_forall.
      intros k' Hk'. apply Hx; [by apply list_elem_of_here|done].
Qed.

(** ** Insertion *)

(** The new leaf goes in at position [(b, o)] on the path of its key. *)
Definition join k b (o : Z) v t : tree V :=
  if bit k b o then Internal b o t (Data k v) else Internal b o (Data k v) t.

Fixpoint graft k b (o : Z) v t : tree V :=
  match t with
  | Data _ _ => join k b o v t
  | Internal b' o' l r =>
      if (b <? b')%nat || ((b' =? b)%nat && (o <? o')) then join k b o v t
      else if bit k b' o' then Internal b' o' l (graft k b o v r)
      else Internal b' o' (graft k b o v l) r
  end.

Lemma join_ok k b o v t :
  wf t -> bytes k -> mask o ->
  (forall k', k' ∈ keys t -> agree k' k b o /\ bit k' b o = negb (bit k b o)) ->
  (forall k1 k2, k1 ∈ keys t -> k2 ∈ keys t -> agree k1 k2 b o) ->
  wf (join k b o v t) /\ entries (join k b o v t) ≡ₚ (k, v) :: entries t.
Proof.
  intros Ht Hk Ho H Ha. unfold join. destruct (bit k b o) eqn:E.
  - split; [|cbn [entries]; by rewrite Permutation_app_comm].
    cbn [wf entries]. repeat split; try done.
    + intros k' Hk'. destruct (H k' Hk') as [_ ->]. done.
    + by intros k' ->%list_elem_of_singleton.
    + intros k1 k2 H1 ->%list_elem_of_singleton. by apply H.
    + intros k1 k2 ->%list_elem_of_singleton ->%list_elem_of_singleton. done.
  - split; [|done].
    cbn [wf entries]. repeat split; try done.
    + by intros k' ->%list_elem_of_singleton.
    + intros k' Hk'. destruct (H k' Hk') as [_ ->]. done.
    + intros k1 k2 ->%list_elem_of_singleton H2. apply agree_sym. by apply H.
    + intros k1 k2 ->%list_elem_of_singleton ->%list_elem_of_singleton. done.
Qed.

Lemma perm_keys (l1 l2 : list (list Z * V)) k :
  l1 ≡ₚ l2 -> k ∈ l1.*1 <-> k ∈ l2.*1.
Proof. intros H. by rewrite H. Qed.

(** The new key against the keys below a node at or behind its position. *)
Lemma graft_join k b o v t :
  wf t -> bytes k -> mask o -> agree (best k t).1 k b o ->
  bit (best k t).1 b o = negb (bit k b o) ->
  (forall k1 k2, k1 ∈ keys t -> k2 ∈ keys t ->
     agree k1 k2 b o /\ bit k1 b o = bit k2 b o) ->
  wf (join k b o v t) /\ entries (join k b o v t) ≡ₚ (k, v) :: entries t.
Proof.
  intros Ht Hk Ho Ha Hb Hall. apply join_ok; try done.
  - intros k' Hk'. destruct (Hall k' (best k t).1 Hk' (best_key_in k t)) as [H1 H2].
    split; [eauto using agree_trans|]. by rewrite H2.
  - intros. by apply Hall.
Qed.

Lemma graft_ok k b o v t :
  wf t -> bytes k -> mask o -> agree (best k t).1 k b o ->
  bit (best k t).1 b o = negb (bit k b o) ->
  wf (graft k b o v t) /\ entries (graft k b o v t) ≡ₚ (k, v) :: entries t.
Proof.
  intros Ht Hk Ho. induction t as [k' v'|b' o' l IHl r IHr]; intros Ha Hb.
  { cbn [graft]. apply graft_join; try done. cbn [entries fmap list_fmap].
    by intros k1 k2 ->%list_elem_of_singleton ->%list_elem_of_singleton. }
  cbn [graft]. set (stop := (b <? b')%nat || ((b' =? b)%nat && (o <? o'))).
  destruct stop eqn:Es; subst stop.
  { assert (before b o b' o') as Hpos by (unfold before; lia).
    apply graft_join; try done. intros k1 k2 H1 H2.
    pose proof (wf_agree b' o' l r k1 k2 Ht H1 H2) as Hag.
    split; [by eapply agree_before|]. by apply Hag. }
  assert (wf (Internal b' o' l r)) as Hw by done.
  destruct Ht as (Ho' & Hl & Hr & H0 & H1 & Hlr & Hll & Hrr).
  cbn [best] in Ha, Hb.
  assert (before b' o' b o) as Hpos.
  { destruct (before_total b' o' b o) as [?|[[-> ->]|?]]; [done| |unfold before in *; lia].
    exfalso. destruct (bit k b o) eqn:E.
    - rewrite (H1 (best k r).1) in Hb; [done|apply best_key_in].
    - rewrite (H0 (best k l).1) in Hb; [done|apply best_key_in]. }
  destruct (bit k b' o') eqn:E.
  - destruct (IHr Hr Ha Hb) as [Hwg Hp]. split.
    2:{ cbn [entries]. rewrite Hp. symmetry. apply Permutation_middle. }
    assert (forall k2, k2 ∈ keys r -> agree k2 k b' o') as Hkr.
    { intros k2 Hk2. apply (agree_trans _ (best k r).1).
      - apply Hrr; [done|apply best_key_in].
      - by eapply agree_before. }
    assert (forall k1, k1 ∈ keys l -> agree k1 k b' o') as Hkl.
    { intros k1 Hk1. apply (agree_trans _ (best k r).1).
      - apply Hlr; [done|apply best_key_in].
      - by eapply agree_before. }
    cbn [wf]. repeat split; try done; intros *;
      rewrite ?(perm_keys _ _ _ Hp); cbn [fmap list_fmap fst]; rewrite ?elem_of_cons.
    + intros [->|?]; [done|by apply H1].
    + intros Hk1 [->|?]; [by apply Hkl|by apply Hlr].
    + intros [->|?] [->|?]; eauto using agree_sym, agree_refl.
  - destruct (IHl Hl Ha Hb) as [Hwg Hp]. split.
    2:{ cbn [entries]. by rewrite Hp. }
    assert (forall k2, k2 ∈ keys r -> agree k k2 b' o') as Hkr.
    { intros k2 Hk2. apply (agree_trans _ (best k l).1).
      - apply agree_sym. by eapply agree_before.
      - apply Hlr; [apply best_key_in|done]. }
    assert (forall k1, k1 ∈ keys l -> agree k1 k b' o') as Hkl.
    { intros k1 Hk1. apply (agree_trans _ (best k l).1).
      - apply Hll; [done|apply best_key_in].
      - by eapply agree_before. }
    cbn [wf]. repeat split; try done; intros *;
      rewrite ?(perm_keys _ _ _ Hp); cbn [fmap list_fmap fst]; rewrite ?elem_of_cons.
    + intros [->|?]; [done|by apply H0].
    + intros [->|?] Hk2; [by apply Hkr|by apply Hlr].
    + intros [->|?] [->|?]; eauto using agree_sym, agree_refl.
Qed.

(** ** Removal *)

(** [None]: the key is not there; [Some None]: nothing is left. *)
Fixpoint prune k t : option (option (tree V)) :=
  match t with
  | Data k' _ => if decide (k' = k) then Some None else None
  | Internal b o l r =>
      if bit k b o then
        r' ← prune k r; Some (Some (match r' with
                                    | None => l | Some r => Internal b o l r end))
      else
        l' ← prune k l; Some (Some (match l' with
                                    | None => r | Some l => Internal b o l r end))
  end.

Definition oentries (t : option (tree V)) : list (list Z * V) :=
  match t with None => [] | Some t => entries t end.
Definition owf (t : option (tree V)) : Prop :=
  match t with None => True | Some t => wf t end.

Lemma prune_none k t : wf t -> prune k t = None <-> k ∉ keys t.
Proof.
  induction t as [k' v'|b o l IHl r IHr]; cbn [wf prune entries].
  - intros _. case_decide as E; split; try done.
    + intros H. exfalso. apply H. rewrite E. by apply list_elem_of_singleton.
    + intros _. cbn. by rewrite list_elem_of_singleton.
  - intros (Ho & Hl & Hr & H0 & H1 & _). rewrite keys_app, elem_of_app.
    destruct (bit k b o) eqn:E.
    + destruct (prune k r) as [r'|] eqn:Ep; simpl.
      * split; [done|]. intros Hn. exfalso.
        destruct (decide (k ∈ keys r)) as [Hin|Hin]; [by apply Hn; right|].
        by apply (IHr Hr) in Hin.
      * split; [|done]. intros _ [Hk|Hk]; [|by apply (IHr Hr)].
        apply H0 in Hk. congruence.
    + destruct (prune k l) as [l'|] eqn:Ep; simpl.
      * split; [done|]. intros Hn. exfalso.
        destruct (decide (k ∈ keys l)) as [Hin|Hin]; [by apply Hn; left|].
        by apply (IHl Hl) in Hin.
      * split; [|done]. intros _ [Hk|Hk]; [by apply (IHl Hl)|].
        apply H1 in Hk. congruence.
Qed.

Lemma prune_some k t (t' : option (tree V)) :
  wf t -> prune k t = Some t' ->
  owf t' /\ exists v, entries t ≡ₚ (k, v) :: oentries t'.
Proof.
  revert t'. induction t as [k' v'|b o l IHl r IHr]; intros t'; cbn [wf prune entries].
  - intros _. case_decide as E; [|done]. intros [= <-]. split; [done|].
    exists v'. simpl. by rewrite E.
  - intros (Ho & Hl & Hr & H0 & H1 & Hlr & Hll & Hrr).
    destruct (bit k b o) eqn:E.
    + destruct (prune k r) as [r'|] eqn:Ep; [|done]. intros [= <-].
      destruct (IHr r' Hr eq_refl) as (Hw & v & Hp). destruct r' as [r'|]; simpl in *.
      * split; [|exists v; rewrite Hp; symmetry; apply Permutation_middle].
        assert (forall k2, k2 ∈ keys r' -> k2 ∈ keys r) as Hsub.
        { intros k2 H. rewrite (perm_keys _ _ _ Hp). by apply list_elem_of_further. }
        repeat split; eauto.
      * split; [done|]. exists v. rewrite Hp. apply Permutation_app_comm.
    + destruct (prune k l) as [l'|] eqn:Ep; [|done]. intros [= <-].
      destruct (IHl l' Hl eq_refl) as (Hw & v & Hp). destruct l' as [l'|]; simpl in *.
      * split; [|exists v; by rewrite Hp].
        assert (forall k2, k2 ∈ keys l' -> k2 ∈ keys l) as Hsub.
        { intros k2 H. rewrite (perm_keys _ _ _ Hp). by apply list_elem_of_further. }
        repeat split; eauto.
      * split; [done|]. exists v. by rewrite Hp.
Qed.

(** ** Prefixes *)

(** The subtree reached by the first [n] bytes of [p]. *)
Fixpoint top (p : list Z) (n : nat) t : tree V :=
  match t with
  | Data _ _ => t
  | Internal b o l r =>
      if (b <? n)%nat then if bit p b o then top p n r else top p n l else t
  end.

(** All keys of the subtree have the same first [n] bytes. *)
Lemma top_same p n t k k' :
  wf t -> k ∈ keys (top p n t) -> k' ∈ keys (top p n t) ->
  forall i, (i < n)%nat -> kbyte k i = kbyte k' i.
Proof.
  induction t as [k0 v0|b o l IHl r IHr]; intros Ht.
  { by intros ->%list_elem_of_singleton ->%list_elem_of_singleton. }
  cbn [top]. destruct (b <? n)%nat eqn:E.
  - destruct Ht as (_ & Hl & Hr & _). case_match; eauto.
  - intros Hk Hk' i Hi. apply (agree_bytes _ _ b o).
    + by eapply wf_bytes.
    + by eapply wf_bytes.
    + by eapply wf_agree.
    + lia.
Qed.

Lemma top_sub p n t e : e ∈ entries (top p n t) -> e ∈ entries t.
Proof.
  induction t as [k0 v0|b o l IHl r IHr]; [done|]. cbn [top].
  destruct (b <? n)%nat; [|done]. cbn [entries]. rewrite elem_of_app.
  case_match; auto.
Qed.

Lemma filter_sorted (P : list Z * V -> Prop) `{forall x, Decision (P x)}
    (l : list (list Z * V)) :
  StronglySorted key_lt l.*1 -> StronglySorted key_lt (filter P l).*1.
Proof.
  induction l as [|e l IH]; [done|]. intros Hs. inversion Hs as [|? ? Hs' Hf]; subst.
  rewrite list.filter_cons. case_decide; [|by apply IH]. simpl. constructor; [by apply IH|].
  rewrite list.Forall_forall in *. intros k (e' & -> & He)%list_elem_of_fmap.
  apply Hf, list_elem_of_fmap. exists e'. split; [done|].
  by apply list_elem_of_filter in He as [_ ?].
Qed.

Lemma list_filter_all (P : list Z * V -> Prop) `{forall x, Decision (P x)}
    (l : list (list Z * V)) : (forall e, e ∈ l -> P e) -> filter P l = l.
Proof.
  induction l as [|e l IH]; [done|]. intros Ha.
  rewrite list.filter_cons, decide_True by (apply Ha, list_elem_of_here).
  f_equal. apply IH. intros. by apply Ha, list_elem_of_further.
Qed.

Lemma list_filter_none (P : list Z * V -> Prop) `{forall x, Decision (P x)}
    (l : list (list Z * V)) : (forall e, e ∈ l -> ~ P e) -> filter P l = [].
Proof.
  induction l as [|e l IH]; [done|]. intros Ha.
  rewrite list.filter_cons, decide_False by (apply Ha, list_elem_of_here).
  apply IH. intros. by apply Ha, list_elem_of_further.
Qed.

Lemma top_wf p n t : wf t -> wf (top p n t).
Proof.
  induction t as [k0 v0|b o l IHl r IHr]; intros Ht; [done|]. cbn [top].
  destruct (b <? n)%nat; [|done]. destruct Ht as (_ & Hl & Hr & _).
  case_match; eauto.
Qed.

Lemma best_top p n t :
  (forall i, (n <= i)%nat -> kbyte p i = 0) -> best p (top p n t) = best p t.
Proof.
  intros Hp. induction t as [k0 v0|b o l IHl r IHr]; [done|].
  cbn [top best]. destruct (b <? n)%nat; [|done]. by case_match.
Qed.

(** Nothing with that prefix is elsewhere, and the order is kept. *)
Lemma top_filter p n t :
  wf t ->
  filter (fun e => pre_eq p n e.1) (entries t) =
  filter (fun e => pre_eq p n e.1) (entries (top p n t)).
Proof.
  set (P := fun e : list Z * V => Is_true (pre_eq p n e.1)).
  induction t as [k0 v0|b o l IHl r IHr]; [done|].
  intros (Ho & Hl & Hr & H0 & H1 & _). cbn [top].
  destruct (b <? n)%nat eqn:E; [|done]. cbn [entries]. rewrite list.filter_app.
  assert (forall s, (forall e, e ∈ entries s -> bit e.1 b o <> bit p b o) ->
    filter P (entries s) = []) as Hnil.
  { intros s Hs. destruct (filter P (entries s)) as [|e es] eqn:F; [done|].
    assert (e ∈ filter P (entries s)) as [HP He]%list_elem_of_filter
      by (rewrite F; apply list_elem_of_here).
    destruct (Hs e He). unfold P in HP. rewrite pre_eq_spec in HP.
    unfold bit. by rewrite HP by lia. }
  destruct (bit p b o) eqn:Eb.
  - rewrite (Hnil l), <- IHr; [done|done|]. intros [k v] He.
    simpl. rewrite H0 by eauto using entry_key. done.
  - rewrite (Hnil r), <- IHl; [by rewrite app_nil_r|done|]. intros [k v] He.
    simpl. rewrite H1 by eauto using entry_key. done.
Qed.

(** Positions grow on the way down. *)
Lemma child_before b o l r b' o' l' r' :
  wf (Internal b o l r) ->
  (l = Internal b' o' l' r' \/ r = Internal b' o' l' r') -> before b o b' o'.
Proof.
  intros (Ho & Hl & Hr & H0 & H1 & Hlr & Hll & Hrr) Hc.
  assert (exists k k', bit k b o = bit k' b o /\ agree k k' b o /\
    bit k b' o' = false /\ bit k' b' o' = true /\ mask o') as (k & k' & E & Ha & F & T & Hm).
  { destruct Hc as [-> | ->].
    - destruct Hl as (Hm & _ & _ & F & T & _).
      assert ((best [] l').1 ∈ keys (Internal b' o' l' r') /\
              (best [] r').1 ∈ keys (Internal b' o' l' r')) as [I1 I2].
      { cbn [entries]. rewrite keys_app, !elem_of_app. eauto using best_key_in. }
      exists (best [] l').1, (best [] r').1. rewrite (H0 _ I1), (H0 _ I2).
      repeat split; eauto using best_key_in.
    - destruct Hr as (Hm & _ & _ & F & T & _).
      assert ((best [] l').1 ∈ keys (Internal b' o' l' r') /\
              (best [] r').1 ∈ keys (Internal b' o' l' r')) as [I1 I2].
      { cbn [entries]. rewrite keys_app, !elem_of_app. eauto using best_key_in. }
      exists (best [] l').1, (best [] r').1. rewrite (H1 _ I1), (H1 _ I2).
      repeat split; eauto using best_key_in. }
  destruct (before_total b o b' o') as [|[[-> ->]|Hb]]; [done|congruence|].
  rewrite (Ha b' o' Hm Hb) in F. congruence.
Qed.

(** Every node of the tree is at byte [n] or behind. *)
Fixpoint deep (n : nat) t : Prop :=
  match t with
  | Data _ _ => True
  | Internal b _ l r => (n <= b)%nat /\ deep n l /\ deep n r
  end.

Lemma wf_deep n t :
  wf t -> match t with Data _ _ => True | Internal b _ _ _ => (n <= b)%nat end ->
  deep n t.
Proof.
  induction t as [|b o l IHl r IHr]; [done|]. intros Hw Hb.
  pose proof Hw as (_ & Hl & Hr & _). split; [done|].
  split; [apply IHl|apply IHr]; try done.
  - destruct l as [|b' o' l' r']; [done|].
    destruct (child_before b o _ r b' o' l' r' Hw); [by left|lia..].
  - destruct r as [|b' o' l' r']; [done|].
    destruct (child_before b o l _ b' o' l' r' Hw); [by right|lia..].
Qed.

(** ** Maps *)

Definition to_map (t : option (tree V)) : gmap (list Z) V :=
  list_to_map (oentries t).

Lemma owf_nodup (t : option (tree V)) : owf t -> NoDup (oentries t).*1.
Proof. destruct t; simpl; [apply wf_nodup|constructor]. Qed.

Lemma to_map_Some (t : option (tree V)) k v :
  owf t -> to_map t !! k = Some v <-> (k, v) ∈ oentries t.
Proof. intros H. symmetry. apply elem_of_list_to_map. by apply owf_nodup. Qed.

Lemma to_map_None (t : option (tree V)) k :
  to_map t !! k = None <-> k ∉ (oentries t).*1.
Proof. symmetry. apply not_elem_of_list_to_map. Qed.

Lemma to_map_perm (t t' : option (tree V)) k v :
  owf t' -> oentries t' ≡ₚ (k, v) :: oentries t -> to_map t' = <[k:=v]> (to_map t).
Proof.
  intros H Hp. unfold to_map. rewrite <- (list_to_map_cons (M := gmap (list Z))).
  apply list_to_map_proper; [by apply owf_nodup|done].
Qed.

Lemma to_map_size (t : option (tree V)) : owf t -> size (to_map t) = length (oentries t).
Proof. intros H. apply map_size_list_to_map. by apply owf_nodup. Qed.

End trees.

(** The first byte at which two keys differ gives the position that parts
    them. *)
Lemma critical_agree (k k' : list Z) (i : nat) :
  bytes k -> bytes k' -> (forall j, (j < i)%nat -> kbyte k j = kbyte k' j) ->
  kbyte k i <> kbyte k' i ->
  let o := critical (Z.lxor (kbyte k i) (kbyte k' i)) in
  mask o /\ agree k k' i o /\ bit k i o = negb (bit k' i o).
Proof.
  intros Hk Hk' He Hne o.
  destruct (critical_spec (kbyte k i) (kbyte k' i)) as (Hm & Hd & _ & Hb);
    [by apply kbyte_range..|done|].
  split; [done|]. split; [|done]. by apply agree_intro.
Qed.
