(* ===== verification/Cbmap.v ===== *)
(** The crit-bit map of [lib/cbmap/]: byte-string keys to byte-string values,
    as [cbmap_new] makes it, with keys and values copied into memory of the
    map.  Memory is the answers the allocator gives to successive requests and
    the number of live blocks, so that running out of memory at any point and
    leaks are part of the model.  A key or value argument is the object it
    points to and a length.  [None] is undefined behaviour: a read outside an
    object. *)
From S2P Require Import Prelude ByteOps Critbit.

(** * Memory *)

(** A copy of [data_len] bytes, or [NULL]. *)
Definition cbmap_default_allocator (data : list Z) (data_len : nat) (h : heap)
  : option (option (list Z) * heap) :=
  let '(ok, h) := request h in
  if (ok : bool) then
    c ← byte_copy (replicate data_len 0) 0 data_len (There data); Some (Some c, h)
  else Some (None, h).

Definition cbmap_default_deallocator : heap -> heap := release.

(** * The map *)

Record cbmap : Type := Cbmap { root : option (tree (list Z)); count : Z }.

Definition cbmap_new (h : heap) : option cbmap * heap :=
  let '(ok, h) := request h in
  (if (ok : bool) then Some (Cbmap None 0) else None, h).

Definition cbmap_count (map : cbmap) : Z := count map.

(** The way down: [while(IS_INTERNAL_NODE(p))]. *)
Definition key_bits (key : list Z) (key_len byte : nat) : option Z :=
  if (byte <? key_len)%nat then load key byte else Some 0.

Fixpoint cbmap_walk (key : list Z) (key_len : nat) (p : tree (list Z))
  : option (list Z * list Z) :=
  match p with
  | Data k v => Some (k, v)
  | Internal byte otherbits l r =>
      c ← key_bits key key_len byte;
      let d := direction otherbits c in
      if d =? 0 then cbmap_walk key key_len l
      else if d =? 1 then cbmap_walk key key_len r else None
  end.

(** The value found, [NULL] for [NOT_FOUND]. *)
Definition cbmap_get (map : cbmap) (key : list Z) (key_len : nat)
  : option (Z * option (list Z)) :=
  match root map with
  | None => Some (0, None)
  | Some p =>
      '(k, v) ← cbmap_walk key key_len p;
      if (length k =? key_len)%nat then
        e ← byte_diff k key_len key;
        Some (if e =? 0 then (1, Some v) else (0, None))
      else Some (0, None)
  end.

(** ** Insertion *)

Definition cbmap_data_node_new (key : list Z) (key_len : nat) (value : list Z)
    (value_len : nat) (h : heap) : option (option (list Z * list Z) * heap) :=
  let '(ok, h) := request h in
  if negb ok then Some (None, h) else
  '(v, h) ← cbmap_default_allocator value value_len h;
  match v with
  | None => Some (None, release h)
  | Some v =>
      '(k, h) ← cbmap_default_allocator key key_len h;
      Some (match k with
            | None => (None, release (cbmap_default_deallocator h))
            | Some k => (Some (k, v), h)
            end)
  end.

(** The leaf at the end of the way down gets the value [v]. *)
Fixpoint cbmap_set (key : list Z) (key_len : nat) (v : list Z)
    (p : tree (list Z)) : option (tree (list Z)) :=
  match p with
  | Data k _ => Some (Data k v)
  | Internal byte otherbits l r =>
      c ← key_bits key key_len byte;
      let d := direction otherbits c in
      if d =? 0 then
        l ← cbmap_set key key_len v l; Some (Internal byte otherbits l r)
      else if d =? 1 then
        r ← cbmap_set key key_len v r; Some (Internal byte otherbits l r)
      else None
  end.

(** The new value of a leaf, [NULL] when memory is out. *)
Definition cbmap_data_node_update_value (old value : list Z) (value_len : nat)
    (h : heap) : option (option (list Z) * heap) :=
  same ← (if (length old =? value_len)%nat then
            e ← byte_diff old value_len value; Some (e =? 0)
          else Some false);
  if (same : bool) then Some (Some old, h) else
  '(v, h) ← cbmap_default_allocator value value_len h;
  Some (match v with
        | None => (None, h)
        | Some v => (Some v, cbmap_default_deallocator h)
        end).

(** [for(newbyte = 0; newbyte < key_len; ++newbyte)], [n] bytes left: the
    first byte that differs and the differing bits.  The counter has 32 bits:
    when it wraps around it starts over on bytes that are equal, and the loop
    does not end. *)
Fixpoint cbmap_newbyte (data key : list Z) (newbyte n : nat)
  : option (option (nat * Z)) :=
  match n with
  | O => Some None
  | S n' =>
      a ← load data newbyte;
      b ← load key newbyte;
      if negb (a =? b) then Some (Some (newbyte, Z.lxor a b)) else
      if u32 (Z.of_nat newbyte + 1) =? 0 then None
      else cbmap_newbyte data key (S newbyte) n'
  end.

(** [newnode], with [newdata] opposite of [newdirection]; its byte is the counter
    of the loop above and stays below [2^32]. *)
Definition cbmap_newnode (newbyte : nat) (newotherbits newdirection : Z)
    (newdata p : tree (list Z)) : option (tree (list Z)) :=
  if newdirection =? 0 then Some (Internal newbyte newotherbits p newdata)
  else if newdirection =? 1 then Some (Internal newbyte newotherbits newdata p)
  else None.

(** The loop that looks for [insertion_node]. *)
Fixpoint cbmap_place (key : list Z) (key_len newbyte : nat)
    (newotherbits newdirection : Z) (newdata p : tree (list Z))
  : option (tree (list Z)) :=
  match p with
  | Data _ _ => cbmap_newnode newbyte newotherbits newdirection newdata p
  | Internal byte otherbits l r =>
      if (newbyte <? byte)%nat then
        cbmap_newnode newbyte newotherbits newdirection newdata p
      else if (byte =? newbyte)%nat && (newotherbits <? otherbits) then
        cbmap_newnode newbyte newotherbits newdirection newdata p
      else
        c ← key_bits key key_len byte;
        let d := direction otherbits c in
        if d =? 0 then
          l ← cbmap_place key key_len newbyte newotherbits newdirection newdata l;
          Some (Internal byte otherbits l r)
        else if d =? 1 then
          r ← cbmap_place key key_len newbyte newotherbits newdirection newdata r;
          Some (Internal byte otherbits l r)
        else None
  end.

(** 0 is [INSERT_OUT_OF_MEMORY], 1 [INSERT_OK], 2 [INSERT_UPDATED]. *)
Definition cbmap_insert (map : cbmap) (key : list Z) (key_len : nat)
    (value : list Z) (value_len : nat) (h : heap) : option (Z * cbmap * heap) :=
  match root map with
  | None =>
      '(data, h) ← cbmap_data_node_new key key_len value value_len h;
      Some (match data with
            | None => (0, map, h)
            | Some (k, v) => (1, Cbmap (Some (Data k v)) (u64 (count map + 1)), h)
            end)
  | Some top =>
      '(dkey, dvalue) ← cbmap_walk key key_len top;
      diff ← cbmap_newbyte dkey key 0 key_len;
      match diff with
      | None =>
          '(v, h) ← cbmap_data_node_update_value dvalue value value_len h;
          match v with
          | None => Some (0, map, h)
          | Some v =>
              top ← cbmap_set key key_len v top;
              Some (2, Cbmap (Some top) (count map), h)
          end
      | Some (newbyte, bits) =>
          let newotherbits := critical bits in
          c ← load dkey newbyte;
          let newdirection := direction newotherbits c in
          let '(ok, h) := request h in
          if negb ok then Some (0, map, h) else
          '(data, h) ← cbmap_data_node_new key key_len value value_len h;
          match data with
          | None => Some (0, map, release h)
          | Some (k, v) =>
              top ← cbmap_place key key_len newbyte newotherbits newdirection
                      (Data k v) top;
              Some (1, Cbmap (Some top) (u64 (count map + 1)), h)
          end
      end
  end.

(** ** Removal *)

Definition cbmap_data_node_destroy (h : heap) : heap :=
  release (cbmap_default_deallocator (cbmap_default_deallocator h)).

(** What is left below [p] without the key and the memory; [Some None]:
    [NOT_FOUND].  A node whose child is removed gives way to the other one. *)
Fixpoint cbmap_remove (key : list Z) (key_len : nat) (p : tree (list Z))
    (h : heap) : option (option (option (tree (list Z)) * heap)) :=
  match p with
  | Data k _ =>
      if negb (length k =? key_len)%nat then Some None else
      e ← byte_diff k key_len key;
      Some (if negb (e =? 0) then None else Some (None, cbmap_data_node_destroy h))
  | Internal byte otherbits l r =>
      c ← key_bits key key_len byte;
      let d := direction otherbits c in
      if d =? 0 then
        x ← cbmap_remove key key_len l h;
        Some (match x with
              | None => None
              | Some (None, h) => Some (Some r, release h)
              | Some (Some l, h) => Some (Some (Internal byte otherbits l r), h)
              end)
      else if d =? 1 then
        x ← cbmap_remove key key_len r h;
        Some (match x with
              | None => None
              | Some (None, h) => Some (Some l, release h)
              | Some (Some r, h) => Some (Some (Internal byte otherbits l r), h)
              end)
      else None
  end.

Definition cbmap_delete (map : cbmap) (key : list Z) (key_len : nat) (h : heap)
  : option (Z * cbmap * heap) :=
  match root map with
  | None => Some (0, map, h)
  | Some p =>
      x ← cbmap_remove key key_len p h;
      Some (match x with
            | None => (0, map, h)
            | Some (p, h) => (1, Cbmap p (u64 (count map - 1)), h)
            end)
  end.

Fixpoint cbmap_recursive_delete (p : tree (list Z)) (h : heap) : heap :=
  match p with
  | Data _ _ => cbmap_data_node_destroy h
  | Internal _ _ l r =>
      release (cbmap_recursive_delete r (cbmap_recursive_delete l h))
  end.

Definition cbmap_destroy (map : cbmap) (h : heap) : heap :=
  release (match root map with
            | None => h
            | Some p => cbmap_recursive_delete p h
            end).

(** ** Visiting *)

(** The visitor is the caller's: it gets the key, the value and its own state,
    and answers 1 to go on. *)
Section visit.
Context {U : Type} (visitor_fn : list Z -> list Z -> U -> Z * U).

Fixpoint cbmap_visit (p : tree (list Z)) (u : U) : Z * U :=
  match p with
  | Internal _ _ l r =>
      let '(x, u) := cbmap_visit l u in
      if negb (x =? 1) then (0, u) else
      let '(x, u) := cbmap_visit r u in
      if negb (x =? 1) then (0, u) else (1, u)
  | Data k v => visitor_fn k v u
  end.

(** The way down with [top], the subtree reached while the prefix decides. *)
Fixpoint cbmap_prefix_top (key_prefix : list Z) (n : nat)
    (top p : tree (list Z)) : option (tree (list Z) * list Z) :=
  match p with
  | Data k _ => Some (top, k)
  | Internal byte otherbits l r =>
      c ← key_bits key_prefix n byte;
      let d := direction otherbits c in
      if d =? 0 then
        cbmap_prefix_top key_prefix n (if (byte <? n)%nat then l else top) l
      else if d =? 1 then
        cbmap_prefix_top key_prefix n (if (byte <? n)%nat then r else top) r
      else None
  end.

(** [for(i = 0; i < key_prefix_len; i++)], [n] bytes left. *)
Fixpoint cbmap_has_prefix (key key_prefix : list Z) (i n : nat) : option bool :=
  match n with
  | O => Some true
  | S n' =>
      a ← load key i;
      b ← load key_prefix i;
      if negb (a =? b) then Some false
      else cbmap_has_prefix key key_prefix (S i) n'
  end.

Definition cbmap_visit_prefix (map : cbmap) (key_prefix : list Z) (n : nat)
    (u : U) : option (Z * U) :=
  match root map with
  | None => Some (1, u)
  | Some p =>
      '(top, k) ← cbmap_prefix_top key_prefix n p p;
      b ← cbmap_has_prefix k key_prefix 0 n;
      Some (if (b : bool) then cbmap_visit top u else (1, u))
  end.

(** [empty_prefix] is one uninitialised byte, [x] here. *)
Definition cbmap_visit_all (map : cbmap) (x : Z) (u : U) : option (Z * U) :=
  cbmap_visit_prefix map [x] 0 u.
End visit.

(** * The contract *)

Definition key_list (map : cbmap) : list (list Z) := (oentries (root map)).*1.

(** The abstract map. *)
Definition contents (map : cbmap) : gmap (list Z) (list Z) := to_map (root map).

(** Blocks a map holds: three for an entry and one for an internal node, and
    the map itself. *)
Fixpoint tree_blocks (p : tree (list Z)) : Z :=
  match p with
  | Data _ _ => 3
  | Internal _ _ l r => 1 + tree_blocks l + tree_blocks r
  end.
Definition blocks (map : cbmap) : Z :=
  1 + match root map with None => 0 | Some p => tree_blocks p end.

(** The invariant of the component. *)
Definition good (map : cbmap) : Prop :=
  owf (root map) /\ count map = Z.of_nat (length (oentries (root map))) /\
  prefix_free (key_list map).

(** * Lemmas *)

Lemma tree_blocks_entries (p : tree (list Z)) :
  tree_blocks p = 4 * Z.of_nat (length (entries p)) - 1.
Proof. induction p; simpl; [done|]. rewrite length_app. lia. Qed.

Lemma key_bits_ok (k j : list Z) (b : nat) :
  key_bits (k ++ j) (length k) b = Some (kbyte k b).
Proof.
  unfold key_bits. destruct (Nat.ltb_spec b (length k)).
  - by apply kbyte_load.
  - by rewrite kbyte_end.
Qed.

(** The steps of every way down. *)
Lemma way_down {A} (k j : list Z) (b : nat) (o : Z) (f g : option A) :
  bytes k -> mask o ->
  (c ← key_bits (k ++ j) (length k) b;
   let d := direction o c in
   if d =? 0 then f else if d =? 1 then g else None) =
  if bit k b o then g else f.
Proof.
  intros Hk Ho. rewrite key_bits_ok. cbn [mbind option_bind]. cbv zeta.
  rewrite direction_bit by eauto using kbyte_range. unfold bit. by destruct (_ =? 255).
Qed.

Lemma walk_ok (k j : list Z) (p : tree (list Z)) :
  bytes k -> wf p -> cbmap_walk (k ++ j) (length k) p = Some (best k p).
Proof.
  intros Hk. induction p as [|b o l IHl r IHr]; [done|].
  intros (Ho & Hl & Hr & _). cbn [cbmap_walk best]. rewrite way_down by done.
  case_match; auto.
Qed.

Lemma copy_ok (data j : list Z) (h : heap) :
  cbmap_default_allocator (data ++ j) (length data) h =
    Some (if (request h).1 then (Some data, (request h).2)
          else (None, (request h).2)).
Proof.
  unfold cbmap_default_allocator. destruct (request h) as [ok h'].
  destruct ok; [|done]. simpl.
  rewrite byte_copy_spec; [|by rewrite length_replicate| |done].
  - cbn [mbind option_bind]. do 3 f_equal. unfold splice. simpl.
    rewrite take_app_length, drop_ge by (rewrite length_replicate; lia).
    by rewrite app_nil_r.
  - simpl. rewrite length_app. lia.
Qed.

Lemma same_key (k key j : list Z) :
  length k = length key ->
  exists e, byte_diff k (length key) (key ++ j) = Some e /\ (e =? 0) = bool_decide (k = key).
Proof.
  intros Hl. pose proof (byte_equal_spec k (key ++ j) (length key)) as H.
  rewrite take_app_length, take_ge in H by lia. unfold byte_equal in H.
  destruct (byte_diff k (length key) (key ++ j)) as [e|].
  - exists e. split; [done|]. rewrite length_app in H.
    specialize (H ltac:(lia) ltac:(lia)). simpl in H. congruence.
  - rewrite length_app in H. specialize (H ltac:(lia) ltac:(lia)). done.
Qed.

Lemma copy_cases (data j : list Z) (h : heap) :
  exists r h', cbmap_default_allocator (data ++ j) (length data) h = Some (r, h') /\
    (r = None /\ live h' = live h \/ r = Some data /\ live h' = live h + 1) /\
    (answers h = [] -> r = Some data /\ answers h' = []).
Proof.
  rewrite copy_ok. destruct (alloc_cases h) as (ok & h' & -> & Hl & Ha). simpl.
  destruct ok; eexists _, _; (split; [done|]).
  - split; [right; split; [done|lia]|]. intros H. by split; [|apply Ha].
  - split; [left; split; [done|lia]|]. intros H. by destruct (Ha H).
Qed.

(** A new leaf costs three blocks, a failure none. *)
Lemma data_node_new_ok (key j value jv : list Z) (h : heap) :
  exists d h', cbmap_data_node_new (key ++ j) (length key) (value ++ jv)
      (length value) h = Some (d, h') /\
    (d = None /\ live h' = live h \/ d = Some (key, value) /\ live h' = live h + 3) /\
    (answers h = [] -> d = Some (key, value) /\ answers h' = []).
Proof.
  unfold cbmap_data_node_new.
  destruct (alloc_cases h) as (ok & h1 & -> & L1 & A1).
  destruct ok; cbn [negb].
  2:{ eexists _, _. split; [done|]. split; [left; split; [done|lia]|].
      intros H. by destruct (A1 H). }
  destruct (copy_cases value jv h1) as (r & h2 & -> & L2 & A2).
  cbn [mbind option_bind]. destruct r as [v|].
  2:{ eexists _, _. split; [done|]. destruct L2 as [[_ L2]|[? _]]; [|done].
      split; [left; split; [done|simpl; lia]|]. intros H.
      destruct (A2 (proj2 (A1 H))). done. }
  destruct L2 as [[? _]|[[= ->] L2]]; [done|].
  destruct (copy_cases key j h2) as (r & h3 & -> & L3 & A3).
  cbn [mbind option_bind]. destruct r as [k|].
  2:{ eexists _, _. split; [done|]. destruct L3 as [[_ L3]|[? _]]; [|done].
      split; [left; split; [done|simpl; lia]|]. intros H.
      destruct (A3 (proj2 (A2 (proj2 (A1 H))))). done. }
  destruct L3 as [[? _]|[[= ->] L3]]; [done|].
  eexists _, _. split; [done|]. split; [right; split; [done|lia]|].
  intros H. split; [done|]. apply A3, A2, A1, H.
Qed.

(** ** The first difference *)

(** The loop with a counter that does not wrap around. *)
Fixpoint first_diff (d k : list Z) (i n : nat) : option (option (nat * Z)) :=
  match n with
  | O => Some None
  | S n' =>
      a ← load d i;
      b ← load k i;
      if negb (a =? b) then Some (Some (i, Z.lxor a b)) else first_diff d k (S i) n'
  end.

Lemma newbyte_first (d k : list Z) (n i : nat) :
  Z.of_nat i + Z.of_nat n < 2 ^ 32 -> cbmap_newbyte d k i n = first_diff d k i n.
Proof.
  revert i. induction n as [|n IH]; intros i Hn; [done|]. cbn [cbmap_newbyte first_diff].
  destruct (load d i); [|done]. cbn [mbind option_bind]. destruct (load k i); [|done]. cbn [mbind option_bind].
  assert (u32 (Z.of_nat i + 1) <> 0) by (rewrite u32_id; unfold is_u32; lia).
  zfalse (u32 (Z.of_nat i + 1) =? 0). rewrite IH by lia. done.
Qed.

(** The byte of a new node fits its field. *)
Lemma newbyte_u32 (d k : list Z) (n i b : nat) (x : Z) :
  Z.of_nat i < 2 ^ 32 -> cbmap_newbyte d k i n = Some (Some (b, x)) -> Z.of_nat b < 2 ^ 32.
Proof.
  revert i. induction n as [|n IH]; intros i Hi E; [done|]. cbn [cbmap_newbyte] in E.
  destruct (load d i); [|done]. cbn [mbind option_bind] in E. destruct (load k i); [|done]. cbn [mbind option_bind] in E.
  destruct (negb _); [by injection E as <- _|]. destruct (Z.eqb_spec (u32 (Z.of_nat i + 1)) 0) as [|Hw]; [done|].
  apply (IH (S i)); [|done]. unfold u32 in Hw. Z.div_mod_to_equations. lia.
Qed.

Lemma first_diff_ok (d k j : list Z) (n i : nat) :
  (i + n = length k)%nat -> (i <= length d)%nat ->
  (forall x, (x < i)%nat -> kbyte d x = kbyte k x) ->
  first_diff d (k ++ j) i n = Some None /\ k `prefix_of` d \/
  first_diff d (k ++ j) i n = None /\ d `prefix_of` k /\ (length d < length k)%nat \/
  exists b, first_diff d (k ++ j) i n = Some (Some (b, Z.lxor (kbyte d b) (kbyte k b))) /\
    (b < length d)%nat /\ (b < length k)%nat /\
    (forall x, (x < b)%nat -> kbyte d x = kbyte k x) /\ kbyte d b <> kbyte k b.
Proof.
  revert i. induction n as [|n IH]; intros i Hn Hd H.
  - left. split; [done|]. apply (prefix_kbyte k d i); auto with lia.
  - cbn [first_diff]. destruct (decide (i < length d)%nat) as [Hlt|Hge].
    2:{ right. left. split; [|split; [|lia]].
        - unfold load. by rewrite (lookup_ge_None_2 d i) by lia.
        - apply (prefix_kbyte d k i); [lia|lia|]. intros. symmetry. by apply H. }
    rewrite (kbyte_here d), (kbyte_load k) by lia.
    cbn [mbind option_bind]. destruct (Z.eqb_spec (kbyte d i) (kbyte k i)) as [E|E]; cbn [negb].
    + apply IH; [lia|lia|]. intros x Hx. destruct (decide (x = i)) as [->|]; [done|].
      apply H. lia.
    + right. right. exists i. repeat split; auto with lia.
Qed.

Lemma newbyte_ok (d k j : list Z) :
  Z.of_nat (length k) < 2 ^ 32 ->
  cbmap_newbyte d (k ++ j) 0 (length k) = Some None /\ k `prefix_of` d \/
  cbmap_newbyte d (k ++ j) 0 (length k) = None /\ d `prefix_of` k /\ (length d < length k)%nat \/
  exists b, cbmap_newbyte d (k ++ j) 0 (length k) = Some (Some (b, Z.lxor (kbyte d b) (kbyte k b))) /\
    (b < length d)%nat /\ (b < length k)%nat /\
    (forall x, (x < b)%nat -> kbyte d x = kbyte k x) /\ kbyte d b <> kbyte k b.
Proof. intros H. rewrite newbyte_first by lia. apply first_diff_ok; lia. Qed.

(** ** The tree operations of the code are those of the theory *)

Lemma set_ok (k j v : list Z) (p : tree (list Z)) :
  bytes k -> wf p -> exists p', cbmap_set (k ++ j) (length k) v p = Some p' /\
    wf p' /\ tree_blocks p' = tree_blocks p /\
    exists r, entries p ≡ₚ best k p :: r /\ entries p' ≡ₚ ((best k p).1, v) :: r.
Proof.
  intros Hk. induction p as [k' v'|b o l IHl r IHr].
  - intros Hw. eexists. split; [done|]. split; [done|]. split; [done|]. by exists [].
  - intros (Ho & Hl & Hr & H0 & H1 & Hlr & Hll & Hrr). cbn [cbmap_set best].
    rewrite way_down by done. destruct (bit k b o) eqn:E.
    + destruct (IHr Hr) as (r' & -> & Hw & Hb & x & P1 & P2). cbn [mbind option_bind].
      eexists. split; [done|].
      assert (forall k2, k2 ∈ keys r' -> k2 ∈ keys r) as Hsub.
      { intros k2. rewrite (perm_keys _ _ _ P2), (perm_keys _ _ _ P1). done. }
      split; [simpl; repeat split; eauto|]. split; [simpl; lia|].
      exists (entries l ++ x). cbn [entries]. rewrite P1, P2.
      split; symmetry; apply Permutation_middle.
    + destruct (IHl Hl) as (l' & -> & Hw & Hb & x & P1 & P2). cbn [mbind option_bind].
      eexists. split; [done|].
      assert (forall k2, k2 ∈ keys l' -> k2 ∈ keys l) as Hsub.
      { intros k2. rewrite (perm_keys _ _ _ P2), (perm_keys _ _ _ P1). done. }
      split; [simpl; repeat split; eauto|]. split; [simpl; lia|].
      exists (x ++ entries r). cbn [entries]. by rewrite P1, P2.
Qed.

Lemma newnode_ok (k : list Z) (b : nat) (o c : Z) (v : list Z) (p : tree (list Z)) :
  mask o -> is_u8 c -> (Z.lor o c =? 255) = negb (bit k b o) ->
  cbmap_newnode b o (direction o c) (Data k v) p = Some (join k b o v p).
Proof.
  intros Ho Hc H. unfold cbmap_newnode, join. rewrite direction_bit, H by done.
  by destruct (bit k b o).
Qed.

Lemma place_ok (k j : list Z) (b : nat) (o c : Z) (v : list Z) (p : tree (list Z)) :
  bytes k -> mask o -> is_u8 c -> (Z.lor o c =? 255) = negb (bit k b o) -> wf p ->
  cbmap_place (k ++ j) (length k) b o (direction o c) (Data k v) p =
    Some (graft k b o v p).
Proof.
  intros Hk Ho Hc H. induction p as [|b' o' l IHl r IHr].
  { intros _. cbn [cbmap_place graft]. by apply newnode_ok. }
  intros (Ho' & Hl & Hr & _). cbn [cbmap_place graft].
  rewrite newnode_ok, way_down by done.
  destruct (b <? b')%nat; [done|]. cbn [orb].
  destruct ((b' =? b)%nat && (o <? o')); [done|].
  rewrite IHl, IHr by done. by case_match.
Qed.

Lemma graft_blocks (k : list Z) (b : nat) (o : Z) (v : list Z) (p : tree (list Z)) :
  tree_blocks (graft k b o v p) = tree_blocks p + 4.
Proof.
  induction p as [|b' o' l IHl r IHr]; cbn [graft].
  - unfold join. case_match; simpl; lia.
  - case_match; [unfold join; case_match; simpl; lia|]. case_match; simpl; lia.
Qed.

Lemma remove_ok (k j : list Z) (p : tree (list Z)) (h : heap) :
  bytes k -> wf p ->
  exists x, cbmap_remove (k ++ j) (length k) p h = Some x /\
    match prune k p with
    | None => x = None
    | Some t => exists h', x = Some (t, h') /\
        live h' = live h - tree_blocks p + match t with None => 0 | Some t => tree_blocks t end
    end.
Proof.
  intros Hk. induction p as [k' v'|b o l IHl r IHr].
  - intros _. cbn [cbmap_remove prune].
    destruct (Nat.eqb_spec (length k') (length k)) as [El|El]; cbn [negb].
    + destruct (same_key k' k j El) as (e & -> & He). cbn [mbind option_bind].
      eexists. split; [done|]. rewrite He. case_decide as E.
      * rewrite bool_decide_eq_true_2 by done. eexists. split; [done|]. simpl. lia.
      * by rewrite bool_decide_eq_false_2 by done.
    + eexists. split; [done|]. case_decide as E; [by subst|done].
  - intros (Ho & Hl & Hr & _). cbn [cbmap_remove prune]. rewrite way_down by done.
    destruct (bit k b o).
    + destruct (IHr Hr) as (x & -> & Hx). cbn [mbind option_bind].
      eexists. split; [done|]. destruct (prune k r) as [t|]; [|by subst].
      destruct Hx as (h' & -> & Hlv). cbn [mbind option_bind].
      destruct t as [t|]; eexists; (split; [done|]); simpl in *; lia.
    + destruct (IHl Hl) as (x & -> & Hx). cbn [mbind option_bind].
      eexists. split; [done|]. destruct (prune k l) as [t|]; [|by subst].
      destruct Hx as (h' & -> & Hlv). cbn [mbind option_bind].
      destruct t as [t|]; eexists; (split; [done|]); simpl in *; lia.
Qed.

Lemma recursive_delete_ok (p : tree (list Z)) (h : heap) :
  live (cbmap_recursive_delete p h) = live h - tree_blocks p.
Proof.
  revert h. induction p as [|b o l IHl r IHr]; intros h; simpl; [lia|].
  rewrite IHr, IHl. lia.
Qed.

(** ** Prefixes *)

Lemma has_prefix_first (d k : list Z) (n i : nat) :
  cbmap_has_prefix d k i n =
    (x ← first_diff d k i n;
     Some (match x with None => true | Some _ => false end)).
Proof.
  revert i. induction n as [|n IH]; intros i; [done|]. simpl.
  destruct (load d i); [|done]. simpl. destruct (load k i); [|done]. simpl.
  by case_match.
Qed.

Lemma prefix_exact (p k : list Z) :
  (k `prefix_of` p -> k = p) -> pre_eq p (length p) k <-> p `prefix_of` k.
Proof.
  intros Hpre. rewrite pre_eq_spec. split; [|intros [e ->]].
  - intros H. destruct (decide (length p <= length k)%nat) as [Hl|Hl].
    { by apply (prefix_kbyte p k (length p)). }
    rewrite Hpre; [done|]. apply (prefix_kbyte k p (length k)); [done|lia|].
    intros i Hi. symmetry. apply H. lia.
  - intros i Hi. unfold kbyte. by rewrite lookup_app_l.
Qed.

Lemma prefix_top_deep (p j : list Z) (top t : tree (list Z)) :
  bytes p -> wf t -> deep (length p) t ->
  cbmap_prefix_top (p ++ j) (length p) top t = Some (top, (best p t).1).
Proof.
  intros Hp. revert top. induction t as [|b o l IHl r IHr]; [done|].
  intros top' (Ho & Hl & Hr & _) (Hb & Dl & Dr). cbn [cbmap_prefix_top best].
  rewrite way_down by done. replace (b <? length p)%nat with false by lia.
  case_match; auto.
Qed.

Lemma prefix_top_ok (p j : list Z) (t : tree (list Z)) :
  bytes p -> wf t ->
  cbmap_prefix_top (p ++ j) (length p) t t = Some (top p (length p) t, (best p t).1).
Proof.
  intros Hp. induction t as [|b o l IHl r IHr]; [done|].
  intros Hw. pose proof Hw as (Ho & Hl & Hr & _).
  destruct (Nat.ltb_spec b (length p)).
  - cbn [cbmap_prefix_top top best]. rewrite way_down by done.
    replace (b <? length p)%nat with true by lia. case_match; auto.
  - rewrite prefix_top_deep by (done || by apply wf_deep).
    cbn [top]. by replace (b <? length p)%nat with false by lia.
Qed.

Section visits.
Context {U : Type} (f : list Z -> list Z -> U -> Z * U).

(** Visiting the entries of a list until the visitor stops. *)
Fixpoint visit_list (l : list (list Z * list Z)) (u : U) : Z * U :=
  match l with
  | [] => (1, u)
  | (k, v) :: l =>
      let '(x, u) := f k v u in if x =? 1 then visit_list l u else (x, u)
  end.

Lemma visit_list_app (l1 l2 : list (list Z * list Z)) (u : U) :
  visit_list (l1 ++ l2) u =
    let '(x, u) := visit_list l1 u in if x =? 1 then visit_list l2 u else (x, u).
Proof.
  revert u. induction l1 as [|[k v] l1 IH]; intros u; [done|]. simpl.
  destruct (f k v u) as [x u']. destruct (x =? 1) eqn:E; [apply IH|by rewrite E].
Qed.

Lemma visit_ok (t : tree (list Z)) (u : U) :
  (cbmap_visit f t u).2 = (visit_list (entries t) u).2 /\
  ((cbmap_visit f t u).1 = 1 <-> (visit_list (entries t) u).1 = 1).
Proof.
  revert u. induction t as [k v|b o l IHl r IHr]; intros u; simpl.
  { destruct (f k v u) as [x u']. simpl. destruct (Z.eqb_spec x 1) as [->|]; done. }
  rewrite visit_list_app. destruct (IHl u) as [E1 E2].
  destruct (cbmap_visit f l u) as [x u1], (visit_list (entries l) u) as [y u2].
  simpl in *. subst u2. destruct (Z.eqb_spec x 1) as [->|Hx]; simpl.
  - rewrite (proj1 E2 eq_refl). simpl. destruct (IHr u1) as [E3 E4].
    destruct (cbmap_visit f r u1) as [x' u3], (visit_list (entries r) u1) as [y' u4].
    simpl in *. subst u4. destruct (Z.eqb_spec x' 1) as [->|Hx']; simpl; [done|].
    split; [done|]. split; [done|]. intros. exfalso. by apply Hx', E4.
  - destruct (Z.eqb_spec y 1) as [->|Hy]; [exfalso; by apply Hx, E2|]. simpl.
    split; [done|]. split; [done|]. by intros.
Qed.
End visits.

(** ** Preservation *)

Lemma prefix_free_perm (K K' : list (list Z)) :
  (forall k, k ∈ K' -> k ∈ K) -> prefix_free K -> prefix_free K'.
Proof. intros H HK k k' Hk Hk'. apply HK; auto. Qed.

Lemma good_new : good (Cbmap None 0).
Proof. split; [done|]. split; [done|]. by intros k k' Hk%not_elem_of_nil. Qed.

Lemma insert_new_leaf (map : cbmap) (t : tree (list Z)) (key value : list Z) :
  good map -> wf t -> entries t ≡ₚ (key, value) :: oentries (root map) ->
  Z.of_nat (size (contents map)) + 1 < 18446744073709551616 ->
  prefix_free (key :: key_list map) ->
  let map' := Cbmap (Some t) (u64 (count map + 1)) in
  good map' /\ contents map' = <[key:=value]> (contents map) /\
  contents map !! key = None.
Proof.
  intros (Hw & Hc & Hp) Ht He Hs Hpf map'.
  assert (key ∉ key_list map) as Hn.
  { intros Hin. pose proof (wf_nodup t Ht) as Hnd. rewrite He in Hnd.
    by apply list.NoDup_cons in Hnd as [? _]. }
  unfold contents in Hs. rewrite to_map_size in Hs by done.
  split; [|split].
  - split; [done|]. simpl. split.
    + rewrite He. simpl. rewrite u64_id by (unfold is_u64; lia). lia.
    + unfold key_list. simpl. eapply prefix_free_perm; [|exact Hpf].
      intros k Hk. by rewrite (perm_keys _ _ _ He) in Hk.
  - unfold contents, map'. simpl. by apply to_map_perm.
  - by apply to_map_None.
Qed.

(** What an insertion may do. *)
Definition inserted (map : cbmap) (key value : list Z) (h : heap) (r : Z)
    (map' : cbmap) (h' : heap) : Prop :=
  good map' /\ live h' - live h = blocks map' - blocks map /\
  (answers h = [] -> r <> 0) /\
  (r = 0 /\ map' = map \/
   r = 1 /\ contents map !! key = None /\
     contents map' = <[key:=value]> (contents map) \/
   r = 2 /\ is_Some (contents map !! key) /\
     contents map' = <[key:=value]> (contents map)).

Lemma insert_empty (map : cbmap) (key j value jv : list Z) (h : heap) :
  root map = None -> good map -> bytes key -> prefix_free (key :: key_list map) ->
  Z.of_nat (size (contents map)) + 1 < 18446744073709551616 ->
  exists r map' h',
    ('(data, h) ← cbmap_data_node_new (key ++ j) (length key) (value ++ jv) (length value) h;
     Some (match data with
           | None => (0, map, h)
           | Some (k, v) => (1, Cbmap (Some (Data k v)) (u64 (count map + 1)), h)
           end)) = Some (r, map', h') /\
    inserted map key value h r map' h'.
Proof.
  intros Er Hg Hk Hpf Hs.
  destruct (data_node_new_ok key j value jv h) as (d & h' & -> & [[-> Hl]|[-> Hl]] & Ha).
  - eexists _, _, _. split; [done|]. split; [done|]. split; [lia|].
    split; [intros H; by destruct (Ha H)|]. by left.
  - eexists _, _, _. split; [done|].
    destruct (insert_new_leaf map (Data key value) key value) as (G & C & N);
      [done|done|by rewrite Er|done|done|].
    split; [done|]. split; [unfold blocks; rewrite Er; simpl; lia|].
    split; [done|]. right. by left.
Qed.

Lemma update_value_ok (old value jv : list Z) (h : heap) :
  exists v h', cbmap_data_node_update_value old (value ++ jv) (length value) h =
      Some (v, h') /\ live h' = live h /\
    (v = None \/ v = Some value) /\ (answers h = [] -> v = Some value).
Proof.
  unfold cbmap_data_node_update_value.
  assert (exists b, (if (length old =? length value)%nat
      then e ← byte_diff old (length value) (value ++ jv); Some (e =? 0)
      else Some false) = Some b /\ (b = true -> old = value)) as (b & -> & Hb).
  { destruct (Nat.eqb_spec (length old) (length value)) as [El|]; [|by eexists].
    destruct (same_key old value jv El) as (e & -> & He). eexists. split; [done|].
    rewrite He. apply bool_decide_eq_true. }
  cbn [mbind option_bind]. destruct b.
  - rewrite (Hb eq_refl). eexists _, _. split; [done|]. split; [done|]. auto.
  - destruct (copy_cases value jv h) as (r & h' & -> & Hl & Ha). cbn [mbind option_bind].
    destruct Hl as [[-> Hl]|[-> Hl]]; eexists _, _; (split; [done|]).
    + split; [done|]. split; [auto|]. intros H. by destruct (Ha H).
    + split; [simpl; lia|]. auto.
Qed.

Lemma insert_update (map : cbmap) (p : tree (list Z)) (key dv j value jv : list Z) (h : heap) :
  root map = Some p -> good map -> bytes key -> best key p = (key, dv) ->
  exists r map' h',
    ('(v, h) ← cbmap_data_node_update_value dv (value ++ jv) (length value) h;
     match v with
     | None => Some (0, map, h)
     | Some v =>
         top ← cbmap_set (key ++ j) (length key) v p;
         Some (2, Cbmap (Some top) (count map), h)
     end) = Some (r, map', h') /\
    inserted map key value h r map' h'.
Proof.
  intros Er Hg Hk Eb.
  destruct (update_value_ok dv value jv h) as (v & h' & -> & Hl & Hv & Ha).
  cbn [mbind option_bind]. destruct Hv as [-> | ->].
  { eexists _, _, _. split; [done|]. split; [done|]. split; [lia|].
    split; [intros H; by apply Ha in H|]. by left. }
  pose proof Hg as (Hw & Hc & Hpf). rewrite Er in *.
  destruct (set_ok key j value p Hk Hw) as (p' & -> & Hw' & Hb & r & P1 & P2).
  cbn [mbind option_bind]. rewrite Eb in *. cbn [fst] in *.
  eexists _, _, _. split; [done|].
  assert (length (entries p') = length (entries p)) as El by (by rewrite P1, P2).
  split; [|split; [|split]].
  - split; [done|]. split; [simpl in *; lia|]. unfold key_list in *. rewrite Er in Hpf.
    eapply prefix_free_perm; [|exact Hpf]. simpl. intros k.
    rewrite (perm_keys _ _ _ P2), (perm_keys _ _ _ P1). done.
  - unfold blocks. rewrite Er. simpl. lia.
  - done.
  - right. right. split; [done|]. unfold contents. rewrite Er. cbn [root].
    assert (to_map (Some p) = <[key:=dv]> (list_to_map r)) as E1.
    { unfold to_map. rewrite <- list_to_map_cons. apply list_to_map_proper; [|done].
      by apply wf_nodup. }
    assert (to_map (Some p') = <[key:=value]> (list_to_map r)) as E2.
    { unfold to_map. rewrite <- list_to_map_cons. apply list_to_map_proper; [|done].
      by apply wf_nodup. }
    rewrite E1, E2, lookup_insert_eq, insert_insert_eq. split; [by eexists|done].
Qed.

Lemma insert_split (map : cbmap) (p : tree (list Z)) (key d dv j value jv : list Z)
    (b : nat) (h : heap) :
  root map = Some p -> good map -> bytes key -> prefix_free (key :: key_list map) ->
  Z.of_nat (size (contents map)) + 1 < 18446744073709551616 ->
  best key p = (d, dv) -> (forall x, (x < b)%nat -> kbyte d x = kbyte key x) ->
  kbyte d b <> kbyte key b ->
  exists r map' h',
    (let newotherbits := critical (Z.lxor (kbyte d b) (kbyte key b)) in
     let newdirection := direction newotherbits (kbyte d b) in
     let '(ok, h) := request h in
     if negb ok then Some (0, map, h) else
     '(data, h) ← cbmap_data_node_new (key ++ j) (length key) (value ++ jv) (length value) h;
     match data with
     | None => Some (0, map, release h)
     | Some (k, v) =>
         top ← cbmap_place (key ++ j) (length key) b newotherbits newdirection
                 (Data k v) p;
         Some (1, Cbmap (Some top) (u64 (count map + 1)), h)
     end) = Some (r, map', h') /\
    inserted map key value h r map' h'.
Proof.
  intros Er Hg Hk Hpf Hs Eb Heq Hne. cbv zeta.
  destruct (alloc_cases h) as (ok & h1 & -> & L1 & A1). destruct ok; cbn [negb].
  2:{ eexists _, _, _. split; [done|]. split; [done|]. split; [lia|].
      split; [intros H; by destruct (A1 H)|]. by left. }
  destruct (data_node_new_ok key j value jv h1) as (x & h2 & -> & [[-> L2]|[-> L2]] & A2);
    cbn [mbind option_bind].
  { eexists _, _, _. split; [done|]. split; [done|]. split; [simpl; lia|].
    split; [|by left]. intros H. destruct (A2 (proj2 (A1 H))). done. }
  pose proof Hg as (Hw & _). rewrite Er in Hw.
  assert (bytes d) as Hd.
  { eapply wf_bytes; [exact Hw|]. pose proof (best_key_in key p) as H. by rewrite Eb in H. }
  destruct (critical_agree d key b Hd Hk Heq Hne) as (Hm & Ha & Hb). cbv zeta in *.
  set (o := critical (Z.lxor (kbyte d b) (kbyte key b))) in *.
  rewrite place_ok; [|done|done|by apply kbyte_range|exact Hb|done].
  cbn [mbind option_bind].
  destruct (graft_ok key b o value p Hw Hk Hm) as [Hw' Hp]; [by rewrite Eb..|].
  eexists _, _, _. split; [done|].
  destruct (insert_new_leaf map (graft key b o value p) key value) as (G & C & N);
    [done|done|by rewrite Er|done|done|].
  split; [done|]. split; [|split; [done|right; by left]].
  unfold blocks. rewrite Er. simpl. rewrite graft_blocks. lia.
Qed.

Lemma insert_ok (map : cbmap) (key j value jv : list Z) (h : heap) :
  good map -> bytes key -> prefix_free (key :: key_list map) ->
  Z.of_nat (length key) < 2 ^ 32 ->
  Z.of_nat (size (contents map)) + 1 < 18446744073709551616 ->
  exists r map' h',
    cbmap_insert map (key ++ j) (length key) (value ++ jv) (length value) h =
      Some (r, map', h') /\
    inserted map key value h r map' h'.
Proof.
  intros Hg Hk Hpf Hkl Hs. unfold cbmap_insert.
  destruct (root map) as [p|] eqn:Er; [|by apply insert_empty].
  pose proof Hg as (Hw & _). rewrite Er in Hw. rewrite walk_ok by done.
  destruct (best key p) as [d dv] eqn:Eb. cbn [mbind option_bind].
  assert ((d, dv) ∈ entries p) as Hin by (rewrite <- Eb; apply best_in).
  assert (d ∈ key_list map) as Hd.
  { unfold key_list. rewrite Er. by eapply entry_key. }
  destruct (newbyte_ok d key j Hkl) as [[E Hpre]|[(_ & Hpre & Hl)|H]].
  - rewrite E. cbn [mbind option_bind].
    assert (key = d) as -> by (apply Hpf; [set_solver..|done]).
    by eapply insert_update.
  - assert (d = key) by (apply Hpf; [set_solver..|done]). subst. lia.
  - destruct H as (b & E & Hbd & Hbk & Heq & Hne). rewrite E. cbn [mbind option_bind].
    rewrite kbyte_here by done. cbn [mbind option_bind].
    by eapply insert_split.
Qed.

Lemma delete_ok (map : cbmap) (key j : list Z) (h : heap) :
  good map -> bytes key -> count map < 18446744073709551616 ->
  exists r map' h',
    cbmap_delete map (key ++ j) (length key) h = Some (r, map', h') /\
    good map' /\ contents map' = delete key (contents map) /\
    (r = 0 /\ contents map !! key = None /\ map' = map /\ h' = h \/
     r = 1 /\ is_Some (contents map !! key) /\
       live h' - live h = blocks map' - blocks map).
Proof.
  intros Hg Hk Hc. unfold cbmap_delete. pose proof Hg as (Hw & Hcnt & Hpf).
  destruct (root map) as [p|] eqn:Er.
  2:{ eexists _, _, _. split; [done|]. split; [done|].
      unfold contents. rewrite Er. split; [done|]. left. done. }
  destruct (remove_ok key j p h Hk Hw) as (x & -> & Hx). cbn [mbind option_bind].
  destruct (prune key p) as [t|] eqn:Ep.
  - destruct Hx as (h' & -> & Hl). eexists _, _, _. split; [done|].
    destruct (prune_some key p t Hw Ep) as (Hw' & v & Hp).
    assert (to_map (Some p) = <[key:=v]> (to_map t)) as Em by (by apply to_map_perm).
    assert (to_map t !! key = None) as En.
    { apply to_map_None. pose proof (wf_nodup p Hw) as Hnd. rewrite Hp in Hnd.
      by apply list.NoDup_cons in Hnd as [? _]. }
    unfold contents. rewrite Er, Em. cbn [root]. split; [|split; [|right]].
    + split; [done|]. split.
      * simpl in *. rewrite Hp in Hcnt. simpl in Hcnt.
        rewrite u64_id by (unfold is_u64; lia). lia.
      * eapply prefix_free_perm; [|exact Hpf]. intros k Hkin. unfold key_list.
        rewrite Er. simpl. rewrite (perm_keys _ _ _ Hp). by apply list_elem_of_further.
    + by rewrite delete_insert_id.
    + rewrite lookup_insert_eq. split; [done|]. split; [by eexists|].
      unfold blocks. rewrite Er. simpl. destruct t; lia.
  - subst x. eexists _, _, _. split; [done|]. split; [done|].
    assert (contents map !! key = None) as En.
    { unfold contents. rewrite Er. apply to_map_None. by apply prune_none. }
    split; [by rewrite delete_id|]. by left.
Qed.

Lemma insert_good (map : cbmap) (key j value jv : list Z) (h : heap) (r : Z)
    (map' : cbmap) (h' : heap) :
  good map -> bytes key -> prefix_free (key :: key_list map) ->
  Z.of_nat (length key) < 2 ^ 32 ->
  Z.of_nat (size (contents map)) + 1 < 18446744073709551616 ->
  cbmap_insert map (key ++ j) (length key) (value ++ jv) (length value) h =
    Some (r, map', h') ->
  good map' /\ live h' - live h = blocks map' - blocks map.
Proof.
  intros Hg Hk Hp Hl Hs E.
  destruct (insert_ok map key j value jv h Hg Hk Hp Hl Hs) as (r2 & m2 & h2 & E2 & G & L & _).
  rewrite E in E2. by injection E2 as <- <- <-.
Qed.

Lemma delete_good (map : cbmap) (key j : list Z) (h : heap) (r : Z) (map' : cbmap)
    (h' : heap) :
  good map -> bytes key -> count map < 18446744073709551616 ->
  cbmap_delete map (key ++ j) (length key) h = Some (r, map', h') ->
  good map' /\ live h' - live h = blocks map' - blocks map.
Proof.
  intros Hg Hk Hc E.
  destruct (delete_ok map key j h Hg Hk Hc) as (r2 & m2 & h2 & E2 & G & _ & H).
  rewrite E in E2. injection E2 as <- <- <-. split; [done|].
  destruct H as [(_ & _ & -> & ->)|(_ & _ & H)]; lia.
Qed.

(** * Properties *)

(** Looking a key up in a crit-bit map gives the value the abstract map
    holds for it, and [NOT_FOUND] exactly when it holds none; the search never
    reads outside the key or the stored key. *)
Theorem cbmap_get_correct (map : cbmap) (key j : list Z) :
  good map -> bytes key ->
  cbmap_get map (key ++ j) (length key) =
    Some (match contents map !! key with
          | Some v => (1, Some v)
          | None => (0, None)
          end).
Proof.
  intros (Hw & _) Hk. unfold cbmap_get, contents.
  destruct (root map) as [p|] eqn:Er; [|done]. rewrite walk_ok by done.
  destruct (best key p) as [k v] eqn:Eb. cbn [mbind option_bind].
  assert ((k, v) ∈ entries p) as Hin by (rewrite <- Eb; apply best_in).
  destruct (to_map (Some p) !! key) as [w|] eqn:Em.
  - apply to_map_Some in Em; [|done]. pose proof (wf_best p key w Hw Em) as E.
    rewrite E in Eb. injection Eb as <- <-. rewrite Nat.eqb_refl.
    destruct (same_key key key j eq_refl) as (e & -> & He). cbn [mbind option_bind].
    by rewrite He, bool_decide_eq_true_2.
  - apply to_map_None in Em. destruct (Nat.eqb_spec (length k) (length key)) as [El|]; [|done].
    destruct (same_key k key j El) as (e & -> & He). cbn [mbind option_bind].
    rewrite He, bool_decide_eq_false_2; [done|]. intros ->. apply Em.
    by eapply entry_key.
Qed.

Lemma cbmap_get_correct_witness :
  cbmap_get (Cbmap (Some (Data [97; 0] [1])) 1) ([97; 0] ++ [5]) 2 = Some (1, Some [1]).
Proof.
  assert (good (Cbmap (Some (Data [97; 0] [1])) 1)) as G.
  { split; [repeat constructor; lia|]. split; [done|].
    intros k k'. by intros ->%list_elem_of_singleton ->%list_elem_of_singleton. }
  exact (cbmap_get_correct _ [97; 0] [5] G ltac:(repeat constructor; lia)).
Defined.

(** C1: inserting into a crit-bit map, when no key is a proper prefix of another
    and the key is shorter than [2^32] bytes (the counter of the code wraps
    around there): a new key is added and an old one gets the new value, exactly as
    in a finite map; the tree stays well formed and the count right; when
    memory runs out, at whichever of the up to four requests, the map is
    unchanged and every block obtained is given back; and with enough memory
    it does not fail. *)
Theorem cbmap_insert_correct (map : cbmap) (key j value jv : list Z) (h : heap) :
  good map -> bytes key -> prefix_free (key :: key_list map) ->
  Z.of_nat (length key) < 2 ^ 32 ->
  Z.of_nat (size (contents map)) + 1 < 18446744073709551616 ->
  exists r map' h',
    cbmap_insert map (key ++ j) (length key) (value ++ jv) (length value) h =
      Some (r, map', h') /\
    inserted map key value h r map' h'.
Proof. apply insert_ok. Qed.

Lemma cbmap_insert_correct_witness :
  let m := Cbmap (Some (Data [97; 0] [1])) 1 in
  let h := Heap [true; true; true; false] 4 in
  exists r map' h', cbmap_insert m ([98; 0] ++ []) 2 ([2; 3] ++ []) 2 h = Some (r, map', h') /\
    inserted m [98; 0] [2; 3] h r map' h'.
Proof.
  intros m h.
  apply (cbmap_insert_correct m [98; 0] [] [2; 3] [] h).
  - split; [repeat constructor; lia|]. split; [done|].
    intros k k'. by intros ->%list_elem_of_singleton ->%list_elem_of_singleton.
  - repeat constructor; lia.
  - intros k k' Hk Hk' [e E]. cbn in Hk, Hk'. set_unfold in Hk. set_unfold in Hk'.
    destruct Hk as [->|[->|[]]], Hk' as [->|[->|[]]]; done.
  - vm_compute. reflexivity.
  - vm_compute. reflexivity.
Defined.

(** C19: deleting from a crit-bit map removes exactly the key, or reports that
    it is not there and changes nothing; the invariant is kept and the blocks
    of the entry and of the node above it are freed. *)
Theorem cbmap_delete_correct (map : cbmap) (key j : list Z) (h : heap) :
  good map -> bytes key -> count map < 18446744073709551616 ->
  exists r map' h',
    cbmap_delete map (key ++ j) (length key) h = Some (r, map', h') /\
    good map' /\ contents map' = delete key (contents map) /\
    (r = 0 /\ contents map !! key = None /\ map' = map /\ h' = h \/
     r = 1 /\ is_Some (contents map !! key) /\
       live h' - live h = blocks map' - blocks map).
Proof. apply delete_ok. Qed.

Lemma cbmap_delete_correct_witness :
  let m := Cbmap (Some (Data [97; 0] [1])) 1 in
  exists r m' h', cbmap_delete m ([97; 0] ++ [7]) 2 (Heap [] 4) = Some (r, m', h') /\
    good m' /\ contents m' = delete [97; 0] (contents m).
Proof.
  intros m.
  destruct (cbmap_delete_correct m [97; 0] [7] (Heap [] 4)) as (r & m' & h' & E & G & C & _);
    [|repeat constructor; lia|done|by exists r, m', h'].
  split; [repeat constructor; lia|]. split; [done|].
  intros k k'. by intros ->%list_elem_of_singleton ->%list_elem_of_singleton.
Defined.

(** Visiting a crit-bit map by a prefix calls the visitor on the entries
    whose keys have the prefix and no others, once each, in increasing order of
    the keys, until the visitor stops; an empty prefix visits everything. *)
Theorem cbmap_visit_correct {U : Type} (f : list Z -> list Z -> U -> Z * U)
    (map : cbmap) (p j : list Z) (u : U) :
  good map -> bytes p ->
  (forall k, k ∈ key_list map -> k `prefix_of` p -> k = p) ->
  exists l r u',
    cbmap_visit_prefix f map (p ++ j) (length p) u = Some (r, u') /\
    u' = (visit_list f l u).2 /\ (r = 1 <-> (visit_list f l u).1 = 1) /\
    StronglySorted key_lt l.*1 /\
    (forall k v, (k, v) ∈ l <-> contents map !! k = Some v /\ p `prefix_of` k).
Proof.
  intros (Hw & _) Hp Hpre. unfold cbmap_visit_prefix, contents.
  unfold key_list in Hpre. destruct (root map) as [t|].
  2:{ exists [], 1, u. split; [done|]. split; [done|]. split; [done|].
      split; [constructor|]. intros k v. rewrite elem_of_nil. split; [done|].
      by intros [H _]. }
  cbn [oentries] in Hpre. simpl in Hw.
  rewrite prefix_top_ok by done. cbn [mbind option_bind].
  set (s := top p (length p) t). set (d := (best p t).1).
  assert (Hexact : forall k, k ∈ keys t -> pre_eq p (length p) k <-> p `prefix_of` k)
    by (intros k Hk; apply prefix_exact; auto).
  assert (d ∈ keys s) as Hds.
  { unfold d. rewrite <- (best_top p (length p) t); [apply best_key_in|].
    intros i Hi. by apply kbyte_end. }
  assert (forall e, e ∈ entries s -> e ∈ entries t) as Hsub by apply top_sub.
  assert (d ∈ keys t) as Hdt by apply best_key_in.
  exists (filter (fun e => pre_eq p (length p) e.1) (entries t)).
  assert (StronglySorted key_lt
    (filter (fun e => pre_eq p (length p) e.1) (entries t)).*1) as Hsort
    by (by apply filter_sorted, wf_sorted).
  assert (forall k v, (k, v) ∈ filter (fun e => pre_eq p (length p) e.1) (entries t) <->
    to_map (Some t) !! k = Some v /\ p `prefix_of` k) as Hmem.
  { intros k v. rewrite list_elem_of_filter, to_map_Some by done. cbn [fst oentries].
    split; intros [H1 H2].
    - split; [done|]. apply Hexact; [by eapply entry_key|done].
    - split; [|done]. apply Hexact; [by eapply entry_key|done]. }
  rewrite top_filter in * by done. fold s in Hsort, Hmem. fold s.
  rewrite has_prefix_first.
  destruct (first_diff_ok d p j (length p) 0) as [[-> Hd]|[(_ & Hd & Hl)|(b & -> & Hb1 & Hb2 & _ & Hne)]];
    [lia|lia|lia|..]; cbn [mbind option_bind].
  - assert (filter (fun e => pre_eq p (length p) e.1) (entries s) = entries s) as Hall.
    { apply list_filter_all. intros [k v] He. cbn [fst]. rewrite pre_eq_spec. intros i Hi.
      rewrite (top_same p (length p) t k d Hw) by (done || by eapply entry_key).
      refine (proj1 (pre_eq_spec p (length p) d) _ i Hi). by apply Hexact. }
    rewrite Hall in *. destruct (visit_ok f s u) as [E1 E2].
    destruct (cbmap_visit f s u) as [r u']. exists r, u'. done.
  - exfalso. pose proof (Hpre d Hdt Hd) as E. rewrite E in Hl. lia.
  - assert (filter (fun e => pre_eq p (length p) e.1) (entries s) = []) as Hnil.
    { apply list_filter_none. intros [k v] He. cbn [fst]. rewrite pre_eq_spec. intros H.
      apply Hne. rewrite <- H by done.
      by apply (top_same p (length p) t d k Hw); [done|eapply entry_key|]. }
    rewrite Hnil in *. exists 1, u. done.
Qed.

Lemma cbmap_visit_correct_witness :
  let f := fun (k v : list Z) (n : Z) => (1, n + 1) in
  exists l r u',
    cbmap_visit_prefix f (Cbmap (Some (Data [97; 0] [1])) 1) ([97] ++ [0]) 1 0 = Some (r, u') /\
    u' = (visit_list f l 0).2 /\ (r = 1 <-> (visit_list f l 0).1 = 1) /\
    StronglySorted key_lt l.*1 /\
    (forall k v, (k, v) ∈ l <->
       contents (Cbmap (Some (Data [97; 0] [1])) 1) !! k = Some v /\ [97] `prefix_of` k).
Proof.
  intros f.
  apply (cbmap_visit_correct f (Cbmap (Some (Data [97; 0] [1])) 1) [97] [0] 0).
  - split; [repeat constructor; lia|]. split; [done|].
    intros k k'. by intros ->%list_elem_of_singleton ->%list_elem_of_singleton.
  - repeat constructor; lia.
  - intros k ->%list_elem_of_singleton [e E]. done.
Defined.

(** What a program can do with one map: the maps and memories it can reach. *)
Inductive reach (h0 : heap) : cbmap -> heap -> Prop :=
  | reach_new map h :
      cbmap_new h0 = (Some map, h) -> reach h0 map h
  | reach_insert map h key j value jv r map' h' :
      reach h0 map h -> bytes key -> prefix_free (key :: key_list map) ->
      Z.of_nat (length key) < 2 ^ 32 ->
      Z.of_nat (size (contents map)) + 1 < 18446744073709551616 ->
      cbmap_insert map (key ++ j) (length key) (value ++ jv) (length value) h =
        Some (r, map', h') ->
      reach h0 map' h'
  | reach_delete map h key j r map' h' :
      reach h0 map h -> bytes key -> count map < 18446744073709551616 ->
      cbmap_delete map (key ++ j) (length key) h = Some (r, map', h') ->
      reach h0 map' h'.

(** C31: no leak: whatever deletions were made on a map, and whatever insertions
    and updates, failed ones included, of keys that are shorter than [2^32] bytes
    and keep the keys free of prefixes of each other, it is well formed, its count is the number of its keys, and
    destroying it gives back every block allocated since before it was made.
    (A key that is a prefix of another can be confused with it:
    [cbmap_prefix_confusion].) *)
Theorem cbmap_no_leak (h0 : heap) (map : cbmap) (h : heap) :
  reach h0 map h ->
  good map /\ cbmap_count map = Z.of_nat (size (contents map)) /\
  live (cbmap_destroy map h) = live h0.
Proof.
  intros Hr. assert (good map /\ live h = live h0 + blocks map) as [Hg Hl].
  { induction Hr as [map h E|map h key j value jv r map' h' _ [Hg Hl] Hk Hp Hkl Hs E
      |map h key j r map' h' _ [Hg Hl] Hk Hc E].
    - unfold cbmap_new in E. destruct (alloc_cases h0) as (ok & h1 & E1 & Hl & _).
      rewrite E1 in E. destruct ok; [|done]. injection E as <- <-.
      split; [apply good_new|]. unfold blocks. simpl. lia.
    - destruct (insert_good map key j value jv h r map' h' Hg Hk Hp Hkl Hs E) as [? ?].
      split; [done|lia].
    - destruct (delete_good map key j h r map' h' Hg Hk Hc E) as [? ?].
      split; [done|lia]. }
  pose proof Hg as (Hw & Hc & _). split; [done|]. split.
  - unfold cbmap_count, contents. by rewrite to_map_size.
  - unfold cbmap_destroy, blocks in *. destruct (root map) as [p|]; simpl in *; [|lia].
    rewrite recursive_delete_ok. lia.
Qed.

Lemma cbmap_no_leak_witness :
  let m := Cbmap (Some (Data [97; 0] [1])) 1 in
  good m /\ cbmap_count m = Z.of_nat (size (contents m)) /\
  live (cbmap_destroy m (Heap [] 11)) = 7.
Proof.
  intros m. apply (cbmap_no_leak (Heap [] 7)).
  apply (reach_insert _ (Cbmap None 0) (Heap [] 8) [97; 0] [] [1] [] 1);
    [by apply reach_new|repeat constructor; lia| |done|done|reflexivity].
  intros k k'. by intros ->%list_elem_of_singleton ->%list_elem_of_singleton.
Defined.

(** Keys that are prefixes of one another are not kept apart: storing a
    proper prefix of the only key overwrites the value of that key and leaves
    the new key missing; storing an extension of it reads behind the stored
    key. *)
Theorem cbmap_prefix_confusion (k e v w : list Z) :
  bytes (k ++ e) -> e <> [] -> Z.of_nat (length (k ++ e)) < 2 ^ 32 ->
  let map := Cbmap (Some (Data (k ++ e) v)) 1 in
  (exists h', cbmap_insert map k (length k) w (length w) (Heap [] 4) =
     Some (2, Cbmap (Some (Data (k ++ e) w)) 1, h') /\
   cbmap_get (Cbmap (Some (Data (k ++ e) w)) 1) k (length k) = Some (0, None)) /\
  cbmap_insert (Cbmap (Some (Data k v)) 1) (k ++ e) (length (k ++ e)) w (length w)
    (Heap [] 4) = None.
Proof.
  intros Hb He Hl32 map. split.
  - unfold cbmap_insert, map. cbn [root cbmap_walk mbind option_bind].
    assert (cbmap_newbyte (k ++ e) k 0 (length k) = Some None) as ->.
    { destruct (newbyte_ok (k ++ e) k []) as [[H _]|[(_ & _ & Hl)|(b & _ & Hb1 & Hb2 & _ & Hne)]];
        rewrite ?app_nil_r in *; [rewrite length_app in Hl32; lia|done|rewrite length_app in Hl; lia|].
      destruct Hne. unfold kbyte. by rewrite lookup_app_l. }
    cbn [mbind option_bind].
    destruct (update_value_ok v w [] (Heap [] 4)) as (x & h' & E & _ & _ & Hx).
    rewrite app_nil_r in E. rewrite E, (Hx eq_refl). cbn [mbind option_bind cbmap_set].
    exists h'. split; [done|]. unfold cbmap_get. cbn [root cbmap_walk mbind option_bind].
    rewrite length_app. destruct e; [done|]. simpl.
    by replace (length k + S (length e) =? length k)%nat with false by lia.
  - unfold cbmap_insert. cbn [root cbmap_walk mbind option_bind].
    destruct (newbyte_ok k (k ++ e) [] Hl32) as [[_ H]|[(H & _)|(b & _ & Hb1 & Hb2 & _ & Hne)]];
      rewrite ?app_nil_r in *.
    + apply prefix_length in H. rewrite length_app in H. destruct e; [done|]. simpl in H. lia.
    + by rewrite H.
    + destruct Hne. unfold kbyte. by rewrite lookup_app_l.
Qed.

Lemma cbmap_prefix_confusion_witness :
  (exists h', cbmap_insert (Cbmap (Some (Data ([97] ++ [98]) [1])) 1) [97] 1 [2] 1 (Heap [] 4) =
     Some (2, Cbmap (Some (Data ([97] ++ [98]) [2])) 1, h')) /\
  cbmap_insert (Cbmap (Some (Data [97] [1])) 1) ([97] ++ [98]) 2 [2] 1 (Heap [] 4) = None.
Proof.
  destruct (cbmap_prefix_confusion [97] [98] [1] [2]) as [(h' & E & _) E2];
    [repeat constructor; lia|done|done|]. split; [by exists h'|exact E2].
Defined.
