(* ===== verification/Cb.v ===== *)
(** The crit-bit set of [lib/cb/]: byte-string keys stored in the leaves, with
    search by prefix.  [malloc] is not checked by this library: a refused
    request is undefined behaviour ([None]), as are a failing [assert] and a
    read outside an object. *)
From S2P Require Import Prelude ByteOps StrOps Critbit.

(** * The code *)

(** The root; leaves carry no data besides their key. *)
Definition critbit_tree : Type := option (tree unit).

Definition cb_less (byte : nat) (mask : Z) (byte' : nat) (mask' : Z) : bool :=
  (byte <? byte')%nat || (byte =? byte')%nat && (mask <? mask').

(** [(keylen <= node->byte) ? 0 : ((1 + ((bytes[node->byte] | node->mask) &
    0xFF)) >> 8)] *)
Definition cb_bit (c mask : Z) : Z := Z.shiftr (1 + Z.land (Z.lor c mask) 255) 8.
Definition cb_branch (key : list Z) (keylen byte : nat) (mask : Z) : option Z :=
  if (keylen <=? byte)%nat then Some 0
  else c ← load key byte; Some (cb_bit c mask).

(** A way down: the last internal node and the key of the leaf. *)
Fixpoint cb_down (key : list Z) (keylen : nat) (prev : option (nat * Z))
    (p : tree unit) : option (option (nat * Z) * list Z) :=
  match p with
  | Data k _ => Some (prev, k)
  | Internal byte mask l r =>
      d ← cb_branch key keylen byte mask;
      if d =? 0 then cb_down key keylen (Some (byte, mask)) l
      else if d =? 1 then cb_down key keylen (Some (byte, mask)) r else None
  end.

Definition cb_find (cb : critbit_tree) (key : list Z) (keylen : nat)
  : option (option (list Z)) :=
  match cb with
  | None => Some None
  | Some p =>
      '(_, str) ← cb_down key keylen None p;
      if (keylen <=? length str)%nat then
        e ← byte_diff key keylen str; Some (if e =? 0 then Some str else None)
      else Some None
  end.

(** ** Insertion *)

Definition make_external_node (key : list Z) (keylen : nat) (h : heap)
  : option (list Z * heap) :=
  let '(ok, h) := request h in
  if negb ok then None else
  if (keylen =? 0)%nat then None else
  k ← byte_copy (replicate keylen 0) 0 keylen (There key); Some (k, h).

(** The loop over the bytes both keys have: the place [pos] of both pointers and
    the counter, which has 32 bits.  The fuel is the length of the object: the
    pointers do not get behind it. *)
Definition cb_counter (pos : nat) : nat := Z.to_nat (u32 (Z.of_nat pos)).
Fixpoint cb_common (key str : list Z) (keylen pos fuel : nat) : option (nat * nat) :=
  match fuel with
  | O => None
  | S fuel =>
      let byte := cb_counter pos in
      if (byte <? keylen)%nat && (byte <? length str)%nat then
        a ← load key pos;
        b ← load str pos;
        if a =? b then cb_common key str keylen (S pos) fuel else Some (pos, byte)
      else Some (pos, byte)
  end.

(** The new internal node in the place of [p]. *)
Definition cb_node (byte : nat) (mask branch : Z) (k : list Z) (p : tree unit)
  : option (tree unit) :=
  if branch =? 0 then Some (Internal byte mask (Data k tt) p)
  else if branch =? 1 then Some (Internal byte mask p (Data k tt))
  else None.

(** [*iter] at the leaf of the way down. *)
Fixpoint cb_at_leaf (key : list Z) (keylen byte : nat) (mask branch : Z)
    (k : list Z) (p : tree unit) : option (tree unit) :=
  match p with
  | Data _ _ => cb_node byte mask branch k p
  | Internal b m l r =>
      d ← cb_branch key keylen b m;
      if d =? 0 then
        l ← cb_at_leaf key keylen byte mask branch k l; Some (Internal b m l r)
      else if d =? 1 then
        r ← cb_at_leaf key keylen byte mask branch k r; Some (Internal b m l r)
      else None
  end.

(** The second way down, which does not compare [next->byte] with [keylen]
    and asserts that it stops before a leaf. *)
Fixpoint cb_again (key : list Z) (byte : nat) (mask branch : Z) (k : list Z)
    (p : tree unit) : option (tree unit) :=
  match p with
  | Data _ _ => None
  | Internal b m l r =>
      if cb_less b m byte mask then
        c ← load key b;
        let d := cb_bit c m in
        if d =? 0 then
          l ← cb_again key byte mask branch k l; Some (Internal b m l r)
        else if d =? 1 then
          r ← cb_again key byte mask branch k r; Some (Internal b m l r)
        else None
      else cb_node byte mask branch k p
  end.

(** 0 is [CB_SUCCESS], 1 [CB_EXISTS], 2 [CB_NOTFOUND]. *)
Definition cb_insert (cb : critbit_tree) (key : list Z) (keylen : nat) (h : heap)
  : option (Z * critbit_tree * heap) :=
  match cb with
  | None =>
      '(k, h) ← make_external_node key keylen h; Some (0, Some (Data k tt), h)
  | Some top =>
      '(prev, str) ← cb_down key keylen None top;
      '(pos, byte) ← cb_common key str keylen 0 (S (length key));
      if (byte =? keylen)%nat && (byte =? length str)%nat then Some (1, cb, h) else
      let '(ok, h) := request h in
      if negb ok then None else
      a ← load key pos;
      b ← load str pos;
      let mask := critical (Z.lxor a b) in
      let branch := cb_bit a mask in
      '(k, h) ← make_external_node key keylen h;
      top ← (if match prev with
                | Some (b, m) => cb_less byte mask b m
                | None => false end
             then cb_again key byte mask branch k top
             else cb_at_leaf key keylen byte mask branch k top);
      Some (0, Some top, h)
  end.

(** ** Removal *)

(** [Some None]: not found. *)
Fixpoint cb_remove (key : list Z) (keylen : nat) (p : tree unit) (h : heap)
  : option (option (option (tree unit) * heap)) :=
  match p with
  | Data str _ =>
      if (length str =? keylen)%nat then
        e ← byte_diff key (length str) str;
        Some (if e =? 0 then Some (None, release h) else None)
      else Some None
  | Internal b m l r =>
      d ← cb_branch key keylen b m;
      if d =? 0 then
        x ← cb_remove key keylen l h;
        Some (match x with
              | None => None
              | Some (None, h) => Some (Some r, release h)
              | Some (Some l, h) => Some (Some (Internal b m l r), h)
              end)
      else if d =? 1 then
        x ← cb_remove key keylen r h;
        Some (match x with
              | None => None
              | Some (None, h) => Some (Some l, release h)
              | Some (Some r, h) => Some (Some (Internal b m l r), h)
              end)
      else None
  end.

Definition cb_erase (cb : critbit_tree) (key : list Z) (keylen : nat) (h : heap)
  : option (Z * critbit_tree * heap) :=
  match cb with
  | None => Some (2, cb, h)
  | Some p =>
      x ← cb_remove key keylen p h;
      Some (match x with
            | None => (2, cb, h)
            | Some (p, h) => (0, p, h)
            end)
  end.

Fixpoint cb_free_node (p : tree unit) (h : heap) : heap :=
  match p with
  | Data _ _ => release h
  | Internal _ _ l r => release (cb_free_node r (cb_free_node l h))
  end.

Definition cb_clear (cb : critbit_tree) (h : heap) : critbit_tree * heap :=
  match cb with
  | None => (None, h)
  | Some p => (None, cb_free_node p h)
  end.

(** ** Search by prefix *)

Fixpoint cb_find_top_i (key : list Z) (keylen : nat) (top p : tree unit)
  : option (tree unit) :=
  match p with
  | Data _ _ => Some p
  | Internal b m l r =>
      if (keylen <=? b)%nat then Some top else
      c ← load key b;
      let d := cb_bit c m in
      if d =? 0 then cb_find_top_i key keylen p l
      else if d =? 1 then cb_find_top_i key keylen p r else None
  end.

(** Does the stored key start with the [keylen] bytes? *)
Definition cb_match (str key : list Z) (keylen : nat) : option bool :=
  if (keylen <=? length str)%nat then
    e ← byte_diff key keylen str; Some (e =? 0)
  else Some false.

(** [next] is the length of [results]. *)
Fixpoint cb_find_prefix_i (p : tree unit) (key : list Z) (keylen : nat)
    (results : list (list Z)) (numresults offset : Z)
  : option (list (list Z) * Z) :=
  let next := Z.of_nat (length results) in
  if numresults <? next then None else
  if next =? numresults then Some (results, offset) else
  match p with
  | Internal _ _ l r =>
      '(results, offset) ← cb_find_prefix_i l key keylen results numresults offset;
      if Z.of_nat (length results) <? numresults then
        cb_find_prefix_i r key keylen results numresults offset
      else Some (results, offset)
  | Data str _ =>
      b ← cb_match str key keylen;
      Some (if (b : bool) then
              if 0 <? offset then (results, offset - 1) else (results ++ [str], offset)
            else (results, offset))
  end.

(** The results, as many as the return value says. *)
Definition cb_find_prefix (cb : critbit_tree) (key : list Z) (keylen : nat)
    (numresults offset : Z) : option (list (list Z)) :=
  if 0 <? numresults then
    match cb with
    | None => Some []
    | Some p =>
        top ← cb_find_top_i key keylen p p;
        '(results, _) ← cb_find_prefix_i top key keylen [] numresults offset;
        Some results
    end
  else Some [].

Section foreach.
Context {U : Type} (match_cb : list Z -> U -> Z * U).

Fixpoint cb_foreach_i (p : tree unit) (key : list Z) (keylen : nat) (u : U)
  : option (Z * U) :=
  match p with
  | Internal _ _ l r =>
      '(x, u) ← cb_foreach_i l key keylen u;
      if x =? 0 then cb_foreach_i r key keylen u else Some (x, u)
  | Data str _ =>
      b ← cb_match str key keylen;
      Some (if (b : bool) then match_cb str u else (0, u))
  end.

Definition cb_foreach (cb : critbit_tree) (key : list Z) (keylen : nat) (u : U)
  : option (Z * U) :=
  match cb with
  | None => Some (0, u)
  | Some p =>
      top ← cb_find_top_i key keylen p p; cb_foreach_i top key keylen u
  end.
End foreach.

(** ** Key-value pairs in one key *)

(** The pair goes to [dst] of [m]; [Here dst] is the case [dst == key]. *)
Definition cb_new_kv (m : list Z) (dst : nat) (key : cptr) (keylen : nat)
    (value : list Z) (len : nat) : option (list Z * nat) :=
  m ← match key with
      | Here off => if (off =? dst)%nat then Some m else byte_copyr m dst keylen key
      | There _ => byte_copyr m dst keylen key
      end;
  m ← store m (dst + keylen) 0;
  m ← byte_copyr m (dst + keylen + 1) len (There value);
  Some (m, (len + keylen + 1)%nat).

Definition cb_get_kv (kv : list Z) (m : list Z) (value len : nat)
  : option (list Z) :=
  n ← str_len kv; byte_copyr m value len (There (drop (n + 1) kv)).

(** The place of the value in the pair. *)
Definition cb_get_kv_ex (kv : list Z) : option nat :=
  n ← str_len kv; Some (n + 1)%nat.

(** * The contract *)

(** The set a tree stands for. *)
Definition members (cb : critbit_tree) : list (list Z) := (oentries cb).*1.

Fixpoint tree_blocks (p : tree unit) : Z :=
  match p with
  | Data _ _ => 1
  | Internal _ _ l r => 1 + tree_blocks l + tree_blocks r
  end.
Definition blocks (cb : critbit_tree) : Z :=
  match cb with None => 0 | Some p => tree_blocks p end.

(** * Lemmas *)

Lemma cb_bit_ok (c m : Z) :
  mask m -> is_u8 c -> cb_bit c m = if Z.lor m c =? 255 then 1 else 0.
Proof.
  intros Hm Hc.
  assert (forallb (fun m => cb_bit c m =? if Z.lor m c =? 255 then 1 else 0) masks
    = true) as H by by_bytes c.
  apply (mask_forall _ m) in H; [|done]. lia.
Qed.

Lemma cb_branch_ok (k j : list Z) (b : nat) (m : Z) :
  bytes k -> mask m ->
  cb_branch (k ++ j) (length k) b m = Some (if bit k b m then 1 else 0).
Proof.
  intros Hk Hm. unfold cb_branch, bit. destruct (Nat.leb_spec (length k) b).
  - rewrite kbyte_end by done. pose proof (cb_bit_ok 0 m Hm ltac:(unfold is_u8; lia)) as H0.
    assert (forallb (fun m => negb (Z.lor m 0 =? 255)) masks = true) as H1 by done.
    apply (mask_forall _ m) in H1; [|done]. cbn beta in H1. by destruct (Z.lor m 0 =? 255).
  - rewrite kbyte_load by done. cbn [mbind option_bind].
    by rewrite cb_bit_ok by eauto using kbyte_range.
Qed.

Lemma cb_way {A} (k j : list Z) (b : nat) (m : Z) (f g : option A) :
  bytes k -> mask m ->
  (d ← cb_branch (k ++ j) (length k) b m;
   if d =? 0 then f else if d =? 1 then g else None) = if bit k b m then g else f.
Proof. intros Hk Hm. rewrite cb_branch_ok by done. simpl. by destruct (bit k b m). Qed.

(** The same choice where the code does not check the length. *)
Lemma cb_way' {A} (k j : list Z) (b : nat) (m : Z) (f g : option A) :
  bytes k -> mask m -> (b < length k)%nat ->
  (c ← load (k ++ j) b;
   let d := cb_bit c m in
   if d =? 0 then f else if d =? 1 then g else None) = if bit k b m then g else f.
Proof.
  intros Hk Hm Hb. rewrite kbyte_load by done. cbn [mbind option_bind]. cbv zeta.
  rewrite cb_bit_ok by eauto using kbyte_range. unfold bit. by destruct (_ =? 255).
Qed.

(** Every node on the way of [k] is before the position. *)
Fixpoint path_before (k : list Z) (b : nat) (m : Z) (p : tree unit) : Prop :=
  match p with
  | Data _ _ => True
  | Internal b' m' l r =>
      before b' m' b m /\ if bit k b' m' then path_before k b m r
                          else path_before k b m l
  end.

Definition last_before (q : option (nat * Z)) (b : nat) (m : Z) : Prop :=
  match q with Some (b', m') => before b' m' b m | None => True end.

(** It is enough to look at the last of them, at which the key and the leaf
    have the same bit. *)
Lemma down_ok (k j : list Z) (prev : option (nat * Z)) (p : tree unit) :
  bytes k -> wf p ->
  exists q, cb_down (k ++ j) (length k) prev p = Some (q, (best k p).1) /\
    match p with
    | Data _ _ => q = prev
    | Internal _ _ _ _ =>
        (exists b' m', q = Some (b', m') /\ bit (best k p).1 b' m' = bit k b' m') /\
        forall b m, last_before q b m <-> path_before k b m p
    end.
Proof.
  intros Hk. revert prev. induction p as [k' v'|b m l IHl r IHr]; intros prev Hw.
  { by exists prev. }
  pose proof Hw as (Hm & Hl & Hr & H0 & H1 & _). cbn [cb_down best].
  rewrite cb_way by done.
  assert (forall c, (c = l \/ c = r) -> wf c -> bit (best k c).1 b m = bit k b m ->
    (forall prev, exists q, cb_down (k ++ j) (length k) prev c = Some (q, (best k c).1) /\
      match c with
      | Data _ _ => q = prev
      | Internal _ _ _ _ =>
          (exists b' m', q = Some (b', m') /\ bit (best k c).1 b' m' = bit k b' m') /\
          forall b m, last_before q b m <-> path_before k b m c
      end) ->
    exists q, cb_down (k ++ j) (length k) (Some (b, m)) c = Some (q, (best k c).1) /\
      (exists b' m', q = Some (b', m') /\ bit (best k c).1 b' m' = bit k b' m') /\
      forall b' m', last_before q b' m' <-> before b m b' m' /\ path_before k b' m' c) as Hc.
  { intros c Hlr Hwc Hbit IH. destruct (IH (Some (b, m))) as (q & E & H). exists q.
    split; [done|]. destruct c as [|b2 m2 l2 r2].
    { subst q. split; [by exists b, m|]. simpl. tauto. }
    destruct H as [Hq H]. split; [done|]. intros b' m'. rewrite H.
    split; [|tauto]. intros Hp. split; [|done]. destruct Hp as [Hp _].
    assert (before b m b2 m2) by
      (apply (child_before b m l r b2 m2 l2 r2 Hw); destruct Hlr as [E2|E2]; auto).
    unfold before in *. lia. }
  destruct (bit k b m) eqn:Eb.
  - destruct (Hc r) as (q & -> & Hq & H); [by right|done|apply H1, best_key_in|auto|].
    exists q. split; [done|]. split; [done|]. intros b' m'. cbn [path_before].
    by rewrite Eb.
  - destruct (Hc l) as (q & -> & Hq & H); [by left|done|apply H0, best_key_in|auto|].
    exists q. split; [done|]. split; [done|]. intros b' m'. cbn [path_before].
    by rewrite Eb.
Qed.

Lemma external_ok (k j : list Z) (h : heap) :
  k <> [] -> answers h = [] ->
  make_external_node (k ++ j) (length k) h = Some (k, Heap [] (live h + 1)).
Proof.
  intros Hk Ha. unfold make_external_node. destruct h as [a n]. simpl in Ha. subst a.
  cbn [request answers live negb]. destruct (Nat.eqb_spec (length k) 0) as [E|E].
  { by apply nil_length_inv in E. }
  rewrite byte_copy_spec; [|by rewrite length_replicate| |done].
  - cbn [mbind option_bind]. do 2 f_equal. unfold splice. simpl.
    rewrite take_app_length, drop_ge by (rewrite length_replicate; lia).
    by rewrite app_nil_r.
  - simpl. rewrite length_app. lia.
Qed.

Lemma cb_counter_id (n : nat) : Z.of_nat n < 2 ^ 32 -> cb_counter n = n.
Proof. intros H. unfold cb_counter. rewrite u32_id by (unfold is_u32; lia). apply Nat2Z.id. Qed.

Lemma common_ok (k j s : list Z) (n i : nat) :
  Z.of_nat (length k) < 2 ^ 32 -> (i <= length k)%nat -> (i <= length s)%nat -> (length k < i + n)%nat ->
  (forall x, (x < i)%nat -> kbyte s x = kbyte k x) ->
  exists b, cb_common (k ++ j) s (length k) i n = Some (b, b) /\ (b <= length k)%nat /\
    (b <= length s)%nat /\ (forall x, (x < b)%nat -> kbyte s x = kbyte k x) /\
    ((b < length k)%nat -> (b < length s)%nat -> kbyte s b <> kbyte k b).
Proof.
  intros H32. revert i. induction n as [|n IH]; intros i Hi Hs Hn H; [lia|].
  cbn [cb_common]. rewrite cb_counter_id by lia. destruct ((i <? length k)%nat && (i <? length s)%nat) eqn:Ei.
  - apply andb_true_iff in Ei as [Hk Hl]. apply Nat.ltb_lt in Hk, Hl.
    rewrite (kbyte_here s), (kbyte_load k) by lia. cbn [mbind option_bind].
    destruct (Z.eqb_spec (kbyte k i) (kbyte s i)) as [E|E].
    + apply IH; [lia|lia|lia|]. intros x Hx. destruct (decide (x = i)) as [->|]; [done|].
      apply H. lia.
    + exists i. split; [done|]. repeat split; auto with lia.
  - exists i. split; [done|]. repeat split; auto with lia.
Qed.

Lemma node_ok (b : nat) (m c : Z) (k : list Z) (p : tree unit) :
  mask m -> is_u8 c -> c = kbyte k b ->
  cb_node b m (cb_bit c m) k p = Some (join k b m tt p).
Proof.
  intros Hm Hc ->. unfold cb_node, join, bit. rewrite cb_bit_ok by done.
  by destruct (_ =? 255).
Qed.

(** Both ways of finding [*iter] are the insertion of the theory. *)
Lemma at_leaf_ok (k j : list Z) (b : nat) (m c : Z) (p : tree unit) :
  bytes k -> mask m -> is_u8 c -> c = kbyte k b -> wf p -> path_before k b m p ->
  cb_at_leaf (k ++ j) (length k) b m (cb_bit c m) k p = Some (graft k b m tt p).
Proof.
  intros Hk Hm Hc Hck. induction p as [k' v'|b' m' l IHl r IHr].
  { intros _ _. cbn [cb_at_leaf graft]. by apply node_ok. }
  intros (Hm' & Hl & Hr & _) [Hb Hp]. cbn [cb_at_leaf graft].
  replace ((b <? b')%nat || (b' =? b)%nat && (m <? m')) with false
    by (unfold before in Hb; lia).
  rewrite cb_way by done. destruct (bit k b' m'); [rewrite IHr|rewrite IHl]; done.
Qed.

(** The second way down meets a node behind the new position before a leaf. *)
Lemma again_ok (k j : list Z) (b : nat) (m c : Z) (p : tree unit) :
  bytes k -> mask m -> is_u8 c -> c = kbyte k b -> (b < length k)%nat -> wf p ->
  bit (best k p).1 b m = negb (bit k b m) ->
  (match p with Data _ _ => False | Internal b' m' _ _ => True end) ->
  ~ path_before k b m p ->
  cb_again (k ++ j) b m (cb_bit c m) k p = Some (graft k b m tt p).
Proof.
  intros Hk Hm Hc Hck Hbl. induction p as [k' v'|b' m' l IHl r IHr]; [done|].
  intros Hw Hbit _ Hn. pose proof Hw as (Hm' & Hl & Hr & H0 & H1 & _).
  cbn [cb_again graft]. unfold cb_less.
  destruct (before_total b' m' b m) as [Hb|[[-> ->]|Hb]].
  - replace ((b' <? b)%nat || (b' =? b)%nat && (m' <? m)) with true
      by (unfold before in Hb; lia).
    replace ((b <? b')%nat || (b' =? b)%nat && (m <? m')) with false
      by (unfold before in Hb; lia).
    rewrite cb_way' by (done || unfold before in Hb; lia).
    cbn [best path_before] in Hbit, Hn. destruct (bit k b' m').
    + rewrite IHr; try done; [|by intros H; apply Hn].
      destruct r; [|done]. by apply Hn.
    + rewrite IHl; try done; [|by intros H; apply Hn].
      destruct l; [|done]. by apply Hn.
  - exfalso. cbn [best] in Hbit. destruct (bit k b m) eqn:E.
    + rewrite (H1 _ (best_key_in k r)) in Hbit. done.
    + rewrite (H0 _ (best_key_in k l)) in Hbit. done.
  - replace ((b' <? b)%nat || (b' =? b)%nat && (m' <? m)) with false
      by (unfold before in Hb; lia).
    replace ((b <? b')%nat || (b' =? b)%nat && (m <? m')) with true
      by (unfold before in Hb; lia).
    by apply node_ok.
Qed.

Lemma iter_ok (k j : list Z) (b : nat) (m : Z) (p : tree unit) (q : option (nat * Z)) s :
  bytes k -> mask m -> (b < length k)%nat -> wf p ->
  bit (best k p).1 b m = negb (bit k b m) ->
  cb_down (k ++ j) (length k) None p = Some (q, s) ->
  (if match q with Some (b', m') => cb_less b m b' m' | None => false end
   then cb_again (k ++ j) b m (cb_bit (kbyte k b) m) k p
   else cb_at_leaf (k ++ j) (length k) b m (cb_bit (kbyte k b) m) k p) =
    Some (graft k b m tt p).
Proof.
  intros Hk Hm Hb Hw Hbit E.
  destruct (down_ok k j None p Hk Hw) as (q' & E' & H). rewrite E' in E.
  injection E as -> _. pose proof (kbyte_range k b Hk) as Hr.
  destruct p as [k' v'|b0 m0 l r].
  { subst q. by apply at_leaf_ok. }
  destruct H as [(b' & m' & -> & Hq) H]. specialize (H b m). simpl in H.
  destruct (before_total b' m' b m) as [Hbef|[[-> ->]|Hbef]].
  - replace (cb_less b m b' m') with false
      by (unfold cb_less, before in *; lia).
    apply at_leaf_ok; try done. by apply H.
  - rewrite Hq in Hbit. by destruct (bit k b m).
  - replace (cb_less b m b' m') with true by (unfold cb_less, before in *; lia).
    apply again_ok; try done. intros Hp. apply H in Hp. unfold before in *. lia.
Qed.

Lemma cb_graft_blocks (k : list Z) (b : nat) (m : Z) (p : tree unit) :
  tree_blocks (graft k b m tt p) = tree_blocks p + 2.
Proof.
  induction p as [|b' m' l IHl r IHr]; cbn [graft].
  - unfold join. case_match; simpl; lia.
  - case_match; [unfold join; case_match; simpl; lia|]. case_match; simpl; lia.
Qed.

Lemma cb_remove_ok (k j : list Z) (p : tree unit) (h : heap) :
  bytes k -> wf p ->
  exists x, cb_remove (k ++ j) (length k) p h = Some x /\
    match prune k p with
    | None => x = None
    | Some t => exists h', x = Some (t, h') /\ live h' = live h - tree_blocks p + blocks t
    end.
Proof.
  intros Hk. induction p as [k' v'|b m l IHl r IHr].
  - intros _. cbn [cb_remove prune].
    destruct (Nat.eqb_spec (length k') (length k)) as [El|El].
    + pose proof (byte_equal_spec (k ++ j) k' (length k')) as H.
      rewrite length_app in H. specialize (H ltac:(lia) ltac:(lia)).
      rewrite El, take_app_length, (take_ge k') in H by lia. unfold byte_equal in H.
      rewrite El. destruct (byte_diff (k ++ j) (length k) k') as [e|]; [|done].
      injection H as H. cbn [mbind option_bind]. eexists. split; [done|].
      destruct (decide (k' = k)) as [E|E].
      * rewrite bool_decide_eq_true_2 in H by done. rewrite H. eexists. split; [done|].
        simpl. lia.
      * rewrite bool_decide_eq_false_2 in H by congruence. by rewrite H.
    + eexists. split; [done|]. case_decide as E; [by subst|done].
  - intros (Ho & Hl & Hr & _). cbn [cb_remove prune]. rewrite cb_way by done.
    destruct (bit k b m).
    + destruct (IHr Hr) as (x & -> & Hx). cbn [mbind option_bind].
      eexists. split; [done|]. destruct (prune k r) as [t|]; [|by subst].
      destruct Hx as (h' & -> & Hlv). cbn [mbind option_bind].
      destruct t as [t|]; eexists; (split; [done|]); simpl in *; lia.
    + destruct (IHl Hl) as (x & -> & Hx). cbn [mbind option_bind].
      eexists. split; [done|]. destruct (prune k l) as [t|]; [|by subst].
      destruct Hx as (h' & -> & Hlv). cbn [mbind option_bind].
      destruct t as [t|]; eexists; (split; [done|]); simpl in *; lia.
Qed.

Lemma match_ok (s k j : list Z) :
  cb_match s (k ++ j) (length k) = Some (bool_decide (k `prefix_of` s)).
Proof.
  unfold cb_match. destruct (Nat.leb_spec (length k) (length s)).
  - pose proof (byte_equal_spec (k ++ j) s (length k)) as E. rewrite length_app in E.
    specialize (E ltac:(lia) ltac:(lia)). rewrite take_app_length in E.
    unfold byte_equal in E. destruct (byte_diff (k ++ j) (length k) s); [|done].
    simpl in *. rewrite E. f_equal. apply bool_decide_ext. split.
    + intros ->. exists (drop (length k) s). by rewrite take_drop.
    + intros [e ->]. by rewrite take_app_length.
  - rewrite bool_decide_eq_false_2; [done|]. intros Hp%prefix_length. lia.
Qed.

(** ** Search by prefix *)

Abbreviation matching k l := (filter (fun s : list Z => k `prefix_of` s) l).

Lemma bit_prefix (k s : list Z) (b : nat) (m : Z) :
  k `prefix_of` s -> (b < length k)%nat -> bit s b m = bit k b m.
Proof. intros [e ->] Hb. unfold bit, kbyte. by rewrite lookup_app_l. Qed.

Lemma top_i_ok (k j : list Z) (top t : tree unit) :
  bytes k -> wf t ->
  exists T, cb_find_top_i (k ++ j) (length k) top t = Some T /\
    (T = top \/ matching k (keys T) = matching k (keys t)).
Proof.
  intros Hk. revert top. induction t as [k' v'|b m l IHl r IHr]; intros top.
  { intros _. eexists. split; [done|]. by right. }
  intros (Hm & Hl & Hr & H0 & H1 & _). cbn [cb_find_top_i].
  destruct (Nat.leb_spec (length k) b) as [Hb|Hb]; [eexists; split; [done|by left]|].
  rewrite cb_way' by done. cbn [entries]. rewrite keys_app, list.filter_app.
  assert (forall l, (forall s, s ∈ l -> bit s b m <> bit k b m) -> matching k l = [])
    as Hnil.
  { intros l' Hs. destruct (matching k l') as [|s ss] eqn:F; [done|].
    assert (s ∈ matching k l') as [HP He]%list_elem_of_filter
      by (rewrite F; apply list_elem_of_here).
    destruct (Hs s He). by apply bit_prefix. }
  destruct (bit k b m) eqn:E.
  - destruct (IHr (Internal b m l r) Hr) as (T & -> & HT). exists T. split; [done|].
    right. rewrite (Hnil (keys l)) by (intros s Hs; by rewrite H0).
    destruct HT as [-> | ->]; [|done]. cbn [entries].
    rewrite keys_app, list.filter_app, (Hnil (keys l)); [done|]. intros s Hs. by rewrite H0.
  - destruct (IHl (Internal b m l r) Hl) as (T & -> & HT). exists T. split; [done|].
    right. rewrite (Hnil (keys r)), app_nil_r by (intros s Hs; by rewrite H1).
    destruct HT as [-> | ->]; [|done]. cbn [entries].
    rewrite keys_app, list.filter_app, (Hnil (keys r)), app_nil_r; [done|].
    intros s Hs. by rewrite H1.
Qed.

Lemma find_prefix_i_ok (k j : list Z) (p : tree unit) (num : nat) :
  forall (acc : list (list Z)) (off : Z), (length acc <= num)%nat ->
  exists off',
    cb_find_prefix_i p (k ++ j) (length k) acc (Z.of_nat num) off =
      Some (acc ++ take (num - length acc) (drop (Z.to_nat off) (matching k (keys p))), off') /\
    ((length acc + length (drop (Z.to_nat off) (matching k (keys p))) < num)%nat ->
     Z.to_nat off' = (Z.to_nat off - length (matching k (keys p)))%nat).
Proof.
  induction p as [s v|b m l IHl r IHr]; intros acc off Hacc; cbn [cb_find_prefix_i].
  - replace (Z.of_nat num <? Z.of_nat (length acc)) with false by lia.
    destruct (Z.eqb_spec (Z.of_nat (length acc)) (Z.of_nat num)) as [E|E].
    { replace (num - length acc)%nat with 0%nat by lia. rewrite take_0, app_nil_r.
      eexists. split; [done|lia]. }
    rewrite match_ok. cbn [mbind option_bind entries fmap list_fmap fst].
    rewrite list.filter_cons. destruct (decide (k `prefix_of` s)) as [Hp|Hp].
    + rewrite bool_decide_eq_true_2 by done. destruct (Z.ltb_spec 0 off).
      * rewrite drop_ge by (simpl; lia). rewrite take_nil, app_nil_r.
        eexists. split; [done|]. simpl. lia.
      * replace (Z.to_nat off) with 0%nat by lia. rewrite drop_0.
        rewrite take_ge by (simpl; lia). eexists. split; [done|]. simpl. lia.
    + rewrite bool_decide_eq_false_2 by done. cbn [filter list_filter].
      rewrite drop_nil, take_nil, app_nil_r. eexists. split; [done|]. simpl. lia.
  - replace (Z.of_nat num <? Z.of_nat (length acc)) with false by lia.
    destruct (Z.eqb_spec (Z.of_nat (length acc)) (Z.of_nat num)) as [E|E].
    { replace (num - length acc)%nat with 0%nat by lia. rewrite take_0, app_nil_r.
      eexists. split; [done|lia]. }
    cbn [entries]. rewrite keys_app, list.filter_app, drop_app, length_app.
    destruct (IHl acc off Hacc) as (off1 & -> & H1). cbn [mbind option_bind].
    set (ml := matching k (keys l)) in *. set (mr := matching k (keys r)) in *.
    set (n := (num - length acc)%nat) in *. rewrite take_app, length_app, length_take.
    destruct (Z.ltb_spec (Z.of_nat (length acc + n `min` length (drop (Z.to_nat off) ml)))
      (Z.of_nat num)) as [Hlt|Hge].
    + rewrite (take_ge (drop _ ml)) in * by (subst n; lia).
      specialize (H1 ltac:(subst n; lia)).
      destruct (IHr (acc ++ drop (Z.to_nat off) ml) off1) as (off2 & -> & H2).
      { rewrite length_app. subst n. lia. }
      rewrite H1, length_app in *. exists off2. split.
      * rewrite <- app_assoc.
        by replace (num - (length acc + length (drop (Z.to_nat off) ml)))%nat
          with (n - length (drop (Z.to_nat off) ml))%nat by (subst n; lia).
      * intros Hn. rewrite length_app. rewrite H2 by lia. lia.
    + eexists. split.
      * do 2 f_equal. replace (n - length (drop (Z.to_nat off) ml))%nat with 0%nat
          by (subst n; lia). by rewrite take_0, app_nil_r.
      * subst n. lia.
Qed.

Section foreach_list.
Context {U : Type} (f : list Z -> U -> Z * U).

(** The callback on the keys of a list until it answers other than 0. *)
Fixpoint each (l : list (list Z)) (u : U) : Z * U :=
  match l with
  | [] => (0, u)
  | s :: l => let '(x, u) := f s u in if x =? 0 then each l u else (x, u)
  end.

Lemma each_app (l1 l2 : list (list Z)) (u : U) :
  each (l1 ++ l2) u = let '(x, u) := each l1 u in if x =? 0 then each l2 u else (x, u).
Proof.
  revert u. induction l1 as [|s l1 IH]; intros u; [done|]. simpl.
  destruct (f s u) as [x u']. destruct (x =? 0) eqn:E; [apply IH|by rewrite E].
Qed.

Lemma foreach_i_ok (k j : list Z) (p : tree unit) (u : U) :
  cb_foreach_i f p (k ++ j) (length k) u = Some (each (matching k (keys p)) u).
Proof.
  revert u. induction p as [s v|b m l IHl r IHr]; intros u; cbn [cb_foreach_i].
  - rewrite match_ok. cbn [mbind option_bind entries fmap list_fmap fst].
    rewrite list.filter_cons. case_decide as Hp.
    + rewrite bool_decide_eq_true_2 by done. simpl. destruct (f s u) as [x u'].
      destruct (Z.eqb_spec x 0) as [->|]; done.
    + by rewrite bool_decide_eq_false_2.
  - rewrite IHl. cbn [mbind option_bind entries].
    rewrite keys_app, list.filter_app, each_app.
    destruct (each (matching k (keys l)) u) as [x u'].
    destruct (x =? 0); [by rewrite IHr|done].
Qed.
End foreach_list.

(** The invariant of the component. *)
Definition good (cb : critbit_tree) : Prop := owf cb.

Lemma insert_new (p : tree unit) (key j : list Z) (q : option (nat * Z)) (b : nat) (h : heap) :
  wf p -> bytes key -> key <> [] -> answers h = [] ->
  cb_down (key ++ j) (length key) None p = Some (q, (best key p).1) ->
  (b < length key)%nat -> (b < length (best key p).1)%nat ->
  (forall x, (x < b)%nat -> kbyte (best key p).1 x = kbyte key x) ->
  ((b < length key)%nat -> (b < length (best key p).1)%nat ->
   kbyte (best key p).1 b <> kbyte key b) ->
  exists r cb' h',
    (let '(ok, h) := request h in
     if negb ok then None else
     a ← load (key ++ j) b;
     b0 ← load (best key p).1 b;
     let mask := critical (Z.lxor a b0) in
     let branch := cb_bit a mask in
     '(k, h) ← make_external_node (key ++ j) (length key) h;
     top ← (if match q with
               | Some (b', m) => cb_less b mask b' m
               | None => false end
            then cb_again (key ++ j) b mask branch k p
            else cb_at_leaf (key ++ j) (length key) b mask branch k p);
     Some (0, Some top, h)) = Some (r, cb', h') /\
    good cb' /\ live h' - live h = blocks cb' - tree_blocks p /\
    (r = 1 /\ key ∈ members (Some p) /\ cb' = Some p \/
     r = 0 /\ key ∉ members (Some p) /\ members cb' ≡ₚ (key :: members (Some p))).
Proof.
  intros Hw Hk Hne Ha Ed Hbk Hbd Heq Hdiff. specialize (Hdiff Hbk Hbd).
  destruct h as [a n]. simpl in Ha. subst a. cbn [request answers live negb].
  rewrite (kbyte_load key), (kbyte_here (best key p).1) by done. cbn [mbind option_bind].
  rewrite external_ok by done. cbn [mbind option_bind live].
  assert (bytes (best key p).1) as Hd by (eapply wf_bytes; [done|apply best_key_in]).
  destruct (critical_agree key (best key p).1 b Hk Hd) as (Hm & Hag & Hbit).
  { intros x Hx. symmetry. auto. }
  { by intros E. }
  cbv zeta in *. set (m := critical (Z.lxor (kbyte key b) (kbyte (best key p).1 b))) in *.
  assert (bit (best key p).1 b m = negb (bit key b m)) as Hbit'.
  { rewrite Hbit. by rewrite negb_involutive. }
  rewrite (iter_ok key j b m p q _ Hk Hm Hbk Hw Hbit' Ed). cbn [mbind option_bind].
  destruct (graft_ok key b m tt p Hw Hk Hm) as [Hw' Hp]; [by apply agree_sym|done|].
  eexists _, _, _. split; [done|]. split; [exact Hw'|]. split.
  { simpl. rewrite cb_graft_blocks. lia. }
  right. split; [done|]. split.
  - intros Hin. pose proof (wf_nodup _ Hw') as Hnd. rewrite Hp in Hnd.
    by apply list.NoDup_cons in Hnd as [? _].
  - unfold members. simpl. by rewrite Hp.
Qed.

Lemma sorted_matching (k : list Z) (l : list (list Z)) :
  StronglySorted key_lt l -> StronglySorted key_lt (matching k l).
Proof.
  induction 1 as [|s l Hs IH Hf]; [constructor|]. rewrite list.filter_cons.
  case_decide; [|done]. constructor; [done|].
  rewrite list.Forall_forall in *. intros s' [_ Hin]%list_elem_of_filter. by apply Hf.
Qed.

(** * Properties *)

(** C23: inserting into a crit-bit set (keys not empty, no key a proper prefix of
    another, the key shorter than [2^32] bytes, where the counter of the code
    wraps around, and memory not refused): a key that is there is reported and nothing changes; otherwise
    the key is added, whichever of the two ways down finds its place, the
    assertion that the second one stops before a leaf never fails, and two
    blocks more are in use (one for the first key). *)
Theorem cb_insert_correct (cb : critbit_tree) (key j : list Z) (h : heap) :
  good cb -> bytes key -> key <> [] -> prefix_free (key :: members cb) ->
  Z.of_nat (length key) < 2 ^ 32 -> answers h = [] ->
  exists r cb' h', cb_insert cb (key ++ j) (length key) h = Some (r, cb', h') /\
    good cb' /\ live h' - live h = blocks cb' - blocks cb /\
    (r = 1 /\ key ∈ members cb /\ cb' = cb \/
     r = 0 /\ key ∉ members cb /\ members cb' ≡ₚ (key :: members cb)).
Proof.
  intros Hw Hk Hne Hpf H32 Ha. unfold cb_insert, good in *.
  destruct cb as [p|].
  2:{ rewrite external_ok by done. eexists _, _, _. split; [done|]. split; [done|].
      split; [simpl; lia|]. right. split; [done|]. split; [by apply not_elem_of_nil|done]. }
  destruct (down_ok key j None p Hk Hw) as (q & Ed & _). rewrite Ed.
  cbn [mbind option_bind]. set (d := (best key p).1) in *.
  assert (d ∈ members (Some p)) as Hd by apply best_key_in.
  destruct (common_ok key j d (S (length (key ++ j))) 0 H32) as (b & -> & Hb1 & Hb2 & Heq & Hdiff);
    [lia|lia|rewrite length_app; lia|lia|]. cbn [mbind option_bind].
  destruct (decide (b = length key /\ b = length d)) as [[E1 E2]|Hn].
  { rewrite E1, Nat.eqb_refl. cbn [andb]. replace (length key =? length d)%nat with true by lia.
    assert (d = key) as Edk.
    { apply Hpf; [set_solver..|]. apply (prefix_kbyte d key b); [lia|lia|].
      intros i Hi. symmetry. auto. }
    eexists _, _, _. split; [done|]. split; [done|]. split; [lia|]. left.
    by rewrite <- Edk. }
  replace ((b =? length key)%nat && (b =? length d)%nat) with false by lia.
  assert (b < length key)%nat as Hbk.
  { destruct (decide (b = length key)) as [E|]; [|lia]. exfalso.
    assert (key = d) as Ekd.
    { apply Hpf; [set_solver..|]. apply (prefix_kbyte key d b); auto with lia. }
    apply Hn. split; [done|]. by rewrite <- Ekd. }
  assert (b < length d)%nat as Hbd.
  { destruct (decide (b = length d)) as [E|]; [|lia]. exfalso.
    assert (d = key) as Edk.
    { apply Hpf; [set_solver..|]. apply (prefix_kbyte d key b); [lia|lia|].
      intros i Hi. symmetry. auto. }
    rewrite Edk in E. lia. }
  by eapply insert_new.
Qed.

Lemma cb_insert_correct_witness :
  exists r cb' h', cb_insert (Some (Data [97; 0] tt)) ([98; 0] ++ [7]) 2 (Heap [] 1) =
      Some (r, cb', h') /\ good cb' /\ live h' = 3 /\ members cb' ≡ₚ ([98; 0] :: [[97; 0]]).
Proof.
  destruct (cb_insert_correct (Some (Data [97; 0] tt)) [98; 0] [7] (Heap [] 1))
    as (r & cb' & h' & E & G & _ & H).
  - repeat constructor; lia.
  - repeat constructor; lia.
  - done.
  - intros k k' Hk Hk' [e E]. cbn in Hk, Hk'. set_unfold in Hk. set_unfold in Hk'.
    destruct Hk as [->|[->|[]]], Hk' as [->|[->|[]]]; done.
  - done.
  - done.
  - exists r, cb', h'. split; [exact E|]. split; [exact G|]. vm_compute in E.
    injection E as <- <- <-. split; [done|]. apply Permutation_swap.
Defined.

(** C37: erasing a key from a crit-bit set removes it and nothing else, or
    reports that it is not there; and the search function finds exactly the
    members, when no key is a proper prefix of another (otherwise it answers
    with a stored key that starts with the one looked for). *)
Theorem cb_erase_find_correct (cb : critbit_tree) (key j : list Z) (h : heap) :
  good cb -> bytes key ->
  (exists r cb' h', cb_erase cb (key ++ j) (length key) h = Some (r, cb', h') /\
     good cb' /\ live h' - live h = blocks cb' - blocks cb /\
     (r = 2 /\ key ∉ members cb /\ cb' = cb \/
      r = 0 /\ (members cb ≡ₚ (key :: members cb')) /\ key ∉ members cb')) /\
  (exists s, cb_find cb (key ++ j) (length key) = Some s /\
     (key ∈ members cb -> s = Some key) /\
     (forall k, s = Some k -> k ∈ members cb /\ key `prefix_of` k) /\
     (prefix_free (key :: members cb) -> s = Some key <-> key ∈ members cb)).
Proof.
  intros Hw Hk. unfold good in *. split.
  - unfold cb_erase. destruct cb as [p|].
    2:{ eexists _, _, _. split; [done|]. split; [done|]. split; [lia|]. left.
        split; [done|]. split; [by apply not_elem_of_nil|done]. }
    destruct (cb_remove_ok key j p h Hk Hw) as (x & -> & Hx). cbn [mbind option_bind].
    destruct (prune key p) as [t|] eqn:Ep.
    + destruct Hx as (h' & -> & Hl). eexists _, _, _. split; [done|].
      destruct (prune_some key p t Hw Ep) as (Hw' & v & Hp).
      split; [done|]. split; [simpl; lia|]. right. split; [done|].
      pose proof (wf_nodup p Hw) as Hnd. rewrite Hp in Hnd. unfold members. split.
      * simpl. by rewrite Hp.
      * by apply list.NoDup_cons in Hnd as [? _].
    + subst x. eexists _, _, _. split; [done|]. split; [done|]. split; [lia|]. left.
      split; [done|]. split; [by apply prune_none|done].
  - unfold cb_find. destruct cb as [p|].
    2:{ eexists. split; [done|]. split; [by intros ?%not_elem_of_nil|].
        split; [done|]. intros _. split; [done|by intros ?%not_elem_of_nil]. }
    destruct (down_ok key j None p Hk Hw) as (q & -> & _). cbn [mbind option_bind].
    set (d := (best key p).1). assert (d ∈ members (Some p)) as Hd by apply best_key_in.
    assert ((if (length key <=? length d)%nat then
        e ← byte_diff (key ++ j) (length key) d; Some (if e =? 0 then Some d else None)
      else Some None) = Some (if bool_decide (key `prefix_of` d) then Some d else None)) as ->.
    { pose proof (match_ok d key j) as M. unfold cb_match in M.
      destruct (length key <=? length d)%nat.
      - destruct (byte_diff (key ++ j) (length key) d) as [e|]; [|done].
        injection M as M. cbn [mbind option_bind]. by rewrite M.
      - injection M as M. by rewrite <- M. }
    eexists. split; [done|].
    assert (key ∈ members (Some p) -> d = key) as Hdk.
    { intros Hin. apply list_elem_of_fmap in Hin as ([k' v] & E & Hin).
      simpl in E. subst k'. unfold d. by rewrite (wf_best p _ v Hw Hin). }
    split; [|split].
    + intros Hin. rewrite Hdk by done. by rewrite bool_decide_eq_true_2.
    + intros k. case_bool_decide; [|done]. intros E. injection E as E. by rewrite <- E.
    + intros Hpf. split.
      * case_bool_decide; [|done]. intros E. injection E as E. by rewrite <- E.
      * intros Hin. rewrite Hdk by done. by rewrite bool_decide_eq_true_2.
Qed.

Lemma cb_erase_find_correct_witness :
  cb_find (Some (Data [97; 0] tt)) ([97] ++ [5]) 1 = Some (Some [97; 0]) /\
  exists s, cb_find (Some (Data [97; 0] tt)) ([98; 0] ++ []) 2 = Some s /\
    (forall k, s = Some k -> k ∈ [[97; 0]] /\ [98; 0] `prefix_of` k).
Proof.
  split; [reflexivity|].
  destruct (cb_erase_find_correct (Some (Data [97; 0] tt)) [98; 0] [] (Heap [] 1))
    as [_ (s & E & _ & H & _)]; [repeat constructor; lia..|].
  exists s. split; [exact E|exact H].
Defined.

(** Search by prefix: [cb_find_prefix] gives the keys that start with the
    prefix in increasing order, after skipping [offset] of them and up to
    [numresults]; [cb_foreach] calls the callback on the same keys in the same
    order until it answers other than 0.  Neither has a precondition on the
    prefix. *)
Theorem cb_prefix_search_correct {U : Type} (f : list Z -> U -> Z * U)
    (cb : critbit_tree) (key j : list Z) (numresults offset : Z) (u : U) :
  good cb -> bytes key ->
  exists l, StronglySorted key_lt l /\
    (forall k, k ∈ l <-> k ∈ members cb /\ key `prefix_of` k) /\
    cb_find_prefix cb (key ++ j) (length key) numresults offset =
      Some (take (Z.to_nat numresults) (drop (Z.to_nat offset) l)) /\
    cb_foreach f cb (key ++ j) (length key) u = Some (each f l u).
Proof.
  intros Hw Hk. exists (matching key (members cb)). unfold good in *.
  assert (StronglySorted key_lt (members cb)) as Hs.
  { destruct cb as [p|]; [by apply wf_sorted|constructor]. }
  split; [by apply sorted_matching|]. split.
  { intros k. rewrite list_elem_of_filter. tauto. }
  unfold cb_find_prefix, cb_foreach. destruct cb as [p|]; cbn [members oentries].
  - destruct (top_i_ok key j p p Hk Hw) as (T & E & HT). rewrite E.
    cbn [mbind option_bind]. unfold members. cbn [oentries].
    assert (matching key (keys T) = matching key (keys p)) as HT'
      by (by destruct HT as [->|]).
    rewrite foreach_i_ok, HT'. split; [|done].
    destruct (Z.ltb_spec 0 numresults).
    + destruct (find_prefix_i_ok key j T (Z.to_nat numresults) [] offset) as (o & E2 & _);
        [simpl; lia|]. rewrite Z2Nat.id in E2 by lia. rewrite E2. cbn [mbind option_bind app].
      by rewrite HT', Nat.sub_0_r.
    + replace (Z.to_nat numresults) with 0%nat by lia. by rewrite take_0.
  - split; [|done]. cbn [members oentries fmap list_fmap filter list_filter].
    rewrite drop_nil, take_nil. by case_match.
Qed.

Lemma cb_prefix_search_correct_witness :
  exists l, StronglySorted key_lt l /\
    (forall k, k ∈ l <-> k ∈ members (Some (Data [98; 0] tt)) /\ [98] `prefix_of` k) /\
    cb_find_prefix (Some (Data [98; 0] tt)) ([98] ++ []) 1 5 0 =
      Some (take 5 (drop 0 l)) /\
    cb_foreach (fun _ n => (0, n + 1)) (Some (Data [98; 0] tt)) ([98] ++ []) 1 0 =
      Some (each (fun _ n => (0, n + 1)) l 0).
Proof.
  apply (cb_prefix_search_correct (fun _ n => (0, n + 1)) (Some (Data [98; 0] tt))
    [98] [] 5 0 0); repeat constructor; lia.
Defined.

(** A value packed behind its terminated key is found again. *)
Theorem cb_kv_roundtrip (m m2 k j v jv : list Z) (o o2 : nat) :
  nonul k -> (o + length k + 1 + length v <= length m)%nat ->
  (o2 + length v <= length m2)%nat ->
  exists m', cb_new_kv m o (There (k ++ j)) (length k) (v ++ jv) (length v) =
      Some (m', (length v + length k + 1)%nat) /\
    cb_get_kv_ex (drop o m') = Some (length k + 1)%nat /\
    cb_get_kv (drop o m') m2 o2 (length v) = Some (splice m2 o2 v).
Proof.
  intros Hk Hm Hm2. unfold cb_new_kv, cb_get_kv, cb_get_kv_ex.
  rewrite byte_copyr_spec by (simpl; rewrite ?length_app; done || lia).
  cbn [mbind option_bind src_block]. rewrite take_app_length.
  assert (length (splice m o k) = length m) as Hl by (apply splice_length; lia).
  rewrite store_Some by lia. cbn [mbind option_bind].
  rewrite byte_copyr_spec; [|rewrite length_insert; lia|simpl; rewrite length_app; lia|done].
  cbn [mbind option_bind src_block]. rewrite take_app_length.
  eexists. split; [done|].
  set (m' := splice _ _ v).
  assert (exists t, drop o m' = zstr k (v ++ t)) as [t ->].
  { exists (drop (o + length k + 1 + length v) m). unfold m', zstr.
    apply list_eq. intros i. rewrite lookup_drop, splice_lookup by (rewrite length_insert; lia).
    destruct (decide (i < length k)%nat) as [H1|H1].
    { rewrite decide_False, list_lookup_insert_ne by lia.
      rewrite splice_lookup, decide_True by lia. rewrite lookup_app_l by done.
      f_equal. lia. }
    rewrite (lookup_app_r k) by lia. destruct (decide (i = length k)) as [->|H2].
    { rewrite decide_False, list_lookup_insert_eq by lia. by rewrite Nat.sub_diag. }
    replace (i - length k)%nat with (S (i - length k - 1)) by lia. simpl.
    case_decide.
    { rewrite lookup_app_l by lia. f_equal. lia. }
    rewrite list_lookup_insert_ne, splice_lookup, decide_False by lia.
    rewrite lookup_app_r by lia. rewrite lookup_drop. f_equal. lia. }
  rewrite str_len_spec by done. cbn [mbind option_bind]. split; [done|].
  assert (drop (length k + 1) (zstr k (v ++ t)) = v ++ t) as ->.
  { unfold zstr. rewrite drop_app_ge by lia.
    by replace (length k + 1 - length k)%nat with 1%nat by lia. }
  rewrite byte_copyr_spec by (simpl; rewrite ?length_app; done || lia).
  simpl. by rewrite take_app_length.
Qed.
