(* ===== verification/Chain.v ===== *)
(** Links: what the doubly linked structures ([lib/dlist/], the rings of
    [lib/hmap/]) share.  One direction of the links is a map from a node to the
    next one. *)
From S2P Require Import Prelude.

(** * Definitions *)

(** The first element, or [e]. *)
Definition first (xs : list nat) (e : option nat) : option nat :=
  match xs with [] => e | x :: _ => Some x end.

(** From each element to the next, [e] behind the last. *)
Fixpoint chain (m : gmap nat (option nat)) (xs : list nat) (e : option nat) : Prop :=
  match xs with
  | [] => True
  | x :: xs => m !! x = Some (first xs e) /\ chain m xs e
  end.

(** * Lemmas *)

Lemma chain_app (m : gmap nat (option nat)) (xs ys : list nat) (e : option nat) :
  chain m (xs ++ ys) e <-> chain m xs (first ys e) /\ chain m ys e.
Proof.
  induction xs as [|x xs IH]; simpl; [tauto|]. rewrite IH.
  destruct xs; simpl; tauto.
Qed.

Lemma chain_ne (m : gmap nat (option nat)) (xs : list nat) (e : option nat) (y : nat) v :
  y ∉ xs -> chain (<[y:=v]> m) xs e <-> chain m xs e.
Proof.
  induction xs as [|x xs IH]; simpl; [done|]. intros Hy.
  apply not_elem_of_cons in Hy as [Hne Hy]. rewrite IH by done.
  by rewrite lookup_insert_ne by done.
Qed.

(** The last link is redirected. *)
Lemma chain_redirect (m : gmap nat (option nat)) (xs : list nat) (x : nat) e e' :
  x ∉ xs -> chain m (xs ++ [x]) e -> chain (<[x:=e']> m) (xs ++ [x]) e'.
Proof.
  intros Hx. rewrite !chain_app. simpl. rewrite chain_ne by done.
  rewrite lookup_insert_eq. tauto.
Qed.

Lemma chain_lookup (m : gmap nat (option nat)) (xs : list nat) (e : option nat) (x : nat) :
  chain m xs e -> x ∈ xs -> is_Some (m !! x).
Proof.
  induction xs as [|y xs IH]; simpl; [by intros _ ?%not_elem_of_nil|].
  intros [Hy Hc] [->|Hin]%elem_of_cons; [by eexists|auto].
Qed.

Lemma chain_mid (m : gmap nat (option nat)) (xs ys : list nat) (x : nat) e :
  chain m (xs ++ x :: ys) e -> m !! x = Some (first ys e).
Proof. rewrite chain_app. simpl. tauto. Qed.

Lemma first_app (xs ys : list nat) (e : option nat) :
  first (xs ++ ys) e = first xs (first ys e).
Proof. by destruct xs. Qed.

(** A list is empty or ends in an element. *)
Lemma last_case (xs : list nat) : xs = [] \/ exists ys y, xs = ys ++ [y].
Proof.
  destruct xs as [|x xs] using rev_ind; [by left|]. right. by eexists _, _.
Qed.

Lemma nodup_reverse (xs : list nat) : NoDup (reverse xs) <-> NoDup xs.
Proof. by rewrite reverse_Permutation. Qed.

Lemma reverse_mid (A B : list nat) (a : nat) :
  reverse (A ++ a :: B) = reverse B ++ a :: reverse A.
Proof. by rewrite reverse_app, reverse_cons, <- app_assoc. Qed.

Lemma reverse_mid2 (A B : list nat) (a b : nat) :
  reverse (A ++ a :: b :: B) = reverse B ++ b :: a :: reverse A.
Proof. by rewrite reverse_mid, reverse_cons, <- app_assoc. Qed.

(** A list is not affected by writes elsewhere. *)
Lemma chain_ext (m m' : gmap nat (option nat)) (xs : list nat) (e : option nat) :
  (forall x, x ∈ xs -> m' !! x = m !! x) -> chain m xs e -> chain m' xs e.
Proof.
  induction xs as [|x xs IH]; simpl; [done|]. intros H [Hx Hc]. split.
  - rewrite H; [done|apply list_elem_of_here].
  - apply IH; [|done]. intros y Hy. apply H. by apply list_elem_of_further.
Qed.

Lemma chain_add (m : gmap nat (option nat)) (A B : list nat) (a p : nat) e :
  NoDup (A ++ a :: B) -> p ∉ A ++ a :: B -> chain m (A ++ a :: B) e ->
  chain (<[a:=Some p]> (<[p:=first B e]> m)) (A ++ a :: p :: B) e.
Proof.
  intros Hn Hp. rewrite !chain_app. cbn [chain first].
  apply list.NoDup_app in Hn as (_ & Ha & Hn). apply list.NoDup_cons in Hn as [HaB _].
  rewrite elem_of_app, elem_of_cons in Hp.
  rewrite (lookup_insert_ne _ a p), !lookup_insert_eq by (intros ->; tauto).
  rewrite !chain_ne by (first [tauto | intros Hin; apply (Ha a Hin), list_elem_of_here]).
  tauto.
Qed.

Lemma chain_del (m : gmap nat (option nat)) (A B : list nat) (a p : nat) e :
  NoDup (A ++ a :: p :: B) -> chain m (A ++ a :: p :: B) e ->
  chain (<[p:=None]> (<[a:=first B e]> m)) (A ++ a :: B) e.
Proof.
  intros Hn. rewrite !chain_app. cbn [chain first].
  apply list.NoDup_app in Hn as (_ & Ha & Hn). apply list.NoDup_cons in Hn as [HaB Hn].
  apply list.NoDup_cons in Hn as [HpB _]. rewrite elem_of_cons in HaB.
  rewrite (lookup_insert_ne _ p a), lookup_insert_eq by (intros ->; tauto).
  rewrite !chain_ne by (first [tauto | intros Hin; eapply Ha; [exact Hin|]; set_solver]).
  tauto.
Qed.

Lemma chain_del_first (m : gmap nat (option nat)) (B : list nat) (p : nat) e :
  NoDup (p :: B) -> chain m (p :: B) e -> chain (<[p:=None]> m) B e.
Proof. intros [Hp _]%list.NoDup_cons [_ Hc]. by apply chain_ne. Qed.

Lemma last_in (xs : list nat) (y : nat) : first (reverse xs) None = Some y -> y ∈ xs.
Proof.
  intros H. apply elem_of_reverse. destruct (reverse xs); [done|].
  injection H as ->. apply list_elem_of_here.
Qed.
