(* ===== verification/Dlist.v ===== *)
(** The doubly linked lists of [lib/dlist/].  Nodes live in a store of cells
    that the lists share; a node pointer is the number of its cell, [None] the
    null pointer.  [None] as a result is undefined behaviour: a null or
    dangling pointer is followed. *)
From S2P Require Import Prelude Chain.

(** * Data *)

Record node : Type := Node { prev : option nat; next : option nat }.
Record dlist : Type := Dlist { head : option nat; tail : option nat }.
Abbreviation store := (gmap nat node).

Definition deref (h : store) (p : option nat) : option node := p ≫= (h !!.).

(** [p->next = v] and [p->prev = v]. *)
Definition set_next (h : store) (p v : option nat) : option store :=
  a ← p; n ← h !! a; Some (<[a := Node (prev n) v]> h).
Definition set_prev (h : store) (p v : option nat) : option store :=
  a ← p; n ← h !! a; Some (<[a := Node v (next n)]> h).

(** * The code *)

Definition dlist_init : dlist := Dlist None None.

Definition dlist_push (h : store) (l : dlist) (p : nat) : option (store * dlist) :=
  h ← set_next h (Some p) None;
  h ← set_prev h (Some p) (tail l);
  match tail l with
  | Some _ =>
      h ← set_next h (tail l) (Some p); Some (h, Dlist (head l) (Some p))
  | None => Some (h, Dlist (Some p) (Some p))
  end.

Definition dlist_unshift (h : store) (l : dlist) (p : nat)
  : option (store * dlist) :=
  h ← set_prev h (Some p) None;
  h ← set_next h (Some p) (head l);
  match head l with
  | Some _ =>
      h ← set_prev h (head l) (Some p); Some (h, Dlist (Some p) (tail l))
  | None => Some (h, Dlist (Some p) (Some p))
  end.

Definition dlist_add_after (h : store) (l : dlist) (p : nat) (after : option nat)
  : option (store * dlist) :=
  if decide (after = tail l) then dlist_push h l p else
  a ← deref h after;
  h ← set_next h (Some p) (next a);
  h ← set_prev h (Some p) after;
  a ← deref h after;
  h ← set_prev h (next a) (Some p);
  h ← set_next h after (Some p);
  Some (h, l).

Definition dlist_add_before (h : store) (l : dlist) (p : nat) (before : option nat)
  : option (store * dlist) :=
  if decide (before = head l) then dlist_unshift h l p else
  h ← set_next h (Some p) before;
  b ← deref h before;
  h ← set_prev h (Some p) (prev b);
  b ← deref h before;
  h ← set_next h (prev b) (Some p);
  h ← set_prev h before (Some p);
  Some (h, l).

Definition dlist_remove (h : store) (l : dlist) (p : nat) : option (store * dlist) :=
  n ← h !! p;
  '(h, l) ← (if decide (Some p = head l) then Some (h, Dlist (next n) (tail l))
             else h ← set_next h (prev n) (next n); Some (h, l));
  n ← h !! p;
  '(h, l) ← (if decide (tail l = Some p) then Some (h, Dlist (head l) (prev n))
             else h ← set_prev h (next n) (prev n); Some (h, l));
  h ← set_next h (Some p) None;
  h ← set_prev h (Some p) None;
  Some (h, l).

(** [dlist_foreach]: the first node from [p] on that satisfies [pred]; the
    fuel is a bound on the number of nodes. *)
Fixpoint dlist_foreach (pred : nat -> bool) (h : store) (p : option nat)
    (fuel : nat) : option (option nat) :=
  match fuel with
  | O => None
  | S fuel' =>
      match p with
      | None => Some None
      | Some a =>
          if pred a then Some p
          else n ← h !! a; dlist_foreach pred h (next n) fuel'
      end
  end.

Definition dlist_find (pred : nat -> bool) (h : store) (l : dlist)
  : option (option nat) := dlist_foreach pred h (head l) (S (size h)).

Definition dlist_find_delete (pred : nat -> bool) (h : store) (l : dlist)
  : option (option nat * store * dlist) :=
  r ← dlist_foreach pred h (head l) (S (size h));
  match r with
  | None => Some (None, h, l)
  | Some p =>
      n ← h !! p;
      '(h, l) ← match prev n with
                | Some _ => h ← set_next h (prev n) (next n); Some (h, l)
                | None => Some (h, Dlist (next n) (tail l))
                end;
      n ← h !! p;
      '(h, l) ← match next n with
                | Some _ => h ← set_prev h (next n) (prev n); Some (h, l)
                | None => Some (h, Dlist (head l) (prev n))
                end;
      h ← set_next h (Some p) None;
      h ← set_prev h (Some p) None;
      Some (Some p, h, l)
  end.

Fixpoint dlist_length_loop (h : store) (p : option nat) (count : Z) (fuel : nat)
  : option Z :=
  match fuel with
  | O => None
  | S fuel' =>
      match p with
      | None => Some count
      | Some a => n ← h !! a; dlist_length_loop h (next n) (u64 (count + 1)) fuel'
      end
  end.

Definition dlist_length (h : store) (l : dlist) : option Z :=
  dlist_length_loop h (head l) 0 (S (size h)).

(** [from] is prepended to, or appended to, [to]; both lists are given back. *)
Definition dlist_move_head (h : store) (from to : dlist)
  : option (store * dlist * dlist) :=
  '(h, to) ← match head to with
             | None => Some (h, Dlist (head from) (tail from))
             | Some _ =>
                 match tail from with
                 | Some _ =>
                     h ← set_next h (tail from) (head to);
                     h ← set_prev h (head to) (tail from);
                     Some (h, Dlist (head from) (tail to))
                 | None => Some (h, to)
                 end
             end;
  Some (h, Dlist None None, to).

Definition dlist_move_tail (h : store) (from to : dlist)
  : option (store * dlist * dlist) :=
  '(h, to) ← match tail to with
             | None => Some (h, Dlist (head from) (tail from))
             | Some _ =>
                 match head from with
                 | Some _ =>
                     h ← set_prev h (head from) (tail to);
                     h ← set_next h (tail to) (head from);
                     Some (h, Dlist (head to) (tail from))
                 | None => Some (h, to)
                 end
             end;
  Some (h, Dlist None None, to).

(** The copies [l1] and [l2] of the two nodes are taken first. *)
Definition dlist_swap (h : store) (l : dlist) (p1 p2 : nat)
  : option (store * dlist) :=
  if decide (p1 = p2) then Some (h, l) else
  l1 ← h !! p1;
  l2 ← h !! p2;
  '(h, l) ← match next l2 with
            | Some _ => h ← set_prev h (next l2) (Some p1); Some (h, l)
            | None => Some (h, Dlist (head l) (Some p1))
            end;
  '(h, l) ← match prev l2 with
            | Some _ => h ← set_next h (prev l2) (Some p1); Some (h, l)
            | None => Some (h, Dlist (Some p1) (tail l))
            end;
  '(h, l) ← match next l1 with
            | Some _ => h ← set_prev h (next l1) (Some p2); Some (h, l)
            | None => Some (h, Dlist (head l) (Some p2))
            end;
  '(h, l) ← match prev l1 with
            | Some _ => h ← set_next h (prev l1) (Some p2); Some (h, l)
            | None => Some (h, Dlist (Some p2) (tail l))
            end;
  n1 ← h !! p1;
  n2 ← h !! p2;
  let h := <[p1 := Node (prev n2) (next n2)]> h in
  let h := <[p2 := Node (prev n1) (next n1)]> h in
  Some (h, l).

(** * The contract *)

Definition nx (h : store) : gmap nat (option nat) := next <$> h.
Definition pv (h : store) : gmap nat (option nat) := prev <$> h.

(** The list [l] in the store [h] is the sequence of nodes [xs]. *)
Record rep (h : store) (l : dlist) (xs : list nat) : Prop := Rep {
  rep_nodup : NoDup xs;
  rep_head : head l = first xs None;
  rep_tail : tail l = first (reverse xs) None;
  rep_next : chain (nx h) xs None;
  rep_prev : chain (pv h) (reverse xs) None
}.

(** ** The abstract list

    The operations that take nodes, as values, on the store and on the sequence
    of nodes. *)

Inductive op : Type :=
  | Push (p : nat)
  | Unshift (p : nat)
  | AddAfter (p a : nat)
  | AddBefore (p b : nat)
  | Remove (p : nat)
  | Swap (p q : nat).

Definition run_op (h : store) (l : dlist) (o : op) : option (store * dlist) :=
  match o with
  | Push p => dlist_push h l p
  | Unshift p => dlist_unshift h l p
  | AddAfter p a => dlist_add_after h l p (Some a)
  | AddBefore p b => dlist_add_before h l p (Some b)
  | Remove p => dlist_remove h l p
  | Swap p q => dlist_swap h l p q
  end.

Fixpoint run_ops (h : store) (l : dlist) (os : list op) : option (store * dlist) :=
  match os with
  | [] => Some (h, l)
  | o :: os => '(h, l) ← run_op h l o; run_ops h l os
  end.

(** What is before and after [a]. *)
Fixpoint cut (a : nat) (xs : list nat) : option (list nat * list nat) :=
  match xs with
  | [] => None
  | x :: xs => if decide (x = a) then Some ([], xs)
               else '(A, B) ← cut a xs; Some (x :: A, B)
  end.

Definition exchange (a b x : nat) : nat :=
  if decide (x = a) then b else if decide (x = b) then a else x.

(** A node that is put in must not be in; one that is named must be. *)
Definition spec_op (xs : list nat) (o : op) : option (list nat) :=
  match o with
  | Push p => if decide (p ∈ xs) then None else Some (xs ++ [p])
  | Unshift p => if decide (p ∈ xs) then None else Some (p :: xs)
  | AddAfter p a =>
      if decide (p ∈ xs) then None else
      '(A, B) ← cut a xs; Some (A ++ a :: p :: B)
  | AddBefore p b =>
      if decide (p ∈ xs) then None else
      '(A, B) ← cut b xs; Some (A ++ p :: b :: B)
  | Remove p => '(A, B) ← cut p xs; Some (A ++ B)
  | Swap p q =>
      if decide (p ∈ xs /\ q ∈ xs) then Some (exchange p q <$> xs) else None
  end.

Fixpoint spec_ops (xs : list nat) (os : list op) : option (list nat) :=
  match os with
  | [] => Some xs
  | o :: os => xs ← spec_op xs o; spec_ops xs os
  end.

(** The node an operation puts in. *)
Definition subject (o : op) : nat :=
  match o with
  | Push p | Unshift p | AddAfter p _ | AddBefore p _ | Remove p | Swap p _ => p
  end.

(** Only the cells [zs] were written, and no cell came or went. *)
Definition only (zs : list nat) (h h' : store) : Prop :=
  (forall y, y ∉ zs -> h' !! y = h !! y) /\ dom h' = dom h.

(** * Lemmas *)

(** ** Chains *)

(** ** Cells *)

Lemma cell_of (h : store) (a : nat) (p q : option nat) :
  nx h !! a = Some q -> pv h !! a = Some p -> h !! a = Some (Node p q).
Proof.
  unfold nx, pv. rewrite !lookup_fmap. destruct (h !! a) as [[p' q']|]; simpl; [|done].
  by intros [= ->] [= ->].
Qed.

Lemma set_next_ok (h : store) (a : nat) (v : option nat) :
  is_Some (h !! a) ->
  exists h', set_next h (Some a) v = Some h' /\ nx h' = <[a:=v]> (nx h) /\
    pv h' = pv h /\ only [a] h h'.
Proof.
  intros [n Hn]. unfold set_next. simpl. rewrite Hn. simpl. eexists. split; [done|].
  unfold nx, pv. rewrite !fmap_insert. cbn [next prev]. split; [done|]. split.
  - apply insert_id. by rewrite lookup_fmap, Hn.
  - split.
    + intros y Hy. rewrite lookup_insert_ne; [done|]. set_solver.
    + apply dom_insert_lookup_L. by eexists.
Qed.

Lemma set_prev_ok (h : store) (a : nat) (v : option nat) :
  is_Some (h !! a) ->
  exists h', set_prev h (Some a) v = Some h' /\ pv h' = <[a:=v]> (pv h) /\
    nx h' = nx h /\ only [a] h h'.
Proof.
  intros [n Hn]. unfold set_prev. simpl. rewrite Hn. simpl. eexists. split; [done|].
  unfold nx, pv. rewrite !fmap_insert. cbn [next prev]. split; [done|]. split.
  - apply insert_id. by rewrite lookup_fmap, Hn.
  - split.
    + intros y Hy. rewrite lookup_insert_ne; [done|]. set_solver.
    + apply dom_insert_lookup_L. by eexists.
Qed.

Lemma only_refl (zs : list nat) (h : store) : only zs h h.
Proof. done. Qed.

Lemma only_trans (zs1 zs2 zs : list nat) (h h' h'' : store) :
  only zs1 h h' -> only zs2 h' h'' -> (forall y, y ∈ zs1 \/ y ∈ zs2 -> y ∈ zs) ->
  only zs h h''.
Proof.
  intros [H1 D1] [H2 D2] Hz. split; [|congruence]. intros y Hy.
  rewrite H2, H1; [done|..]; intros Hin; apply Hy, Hz; auto.
Qed.

Lemma only_is_Some (zs : list nat) (h h' : store) (a : nat) :
  only zs h h' -> is_Some (h !! a) -> is_Some (h' !! a).
Proof. intros [_ D]. rewrite <- !elem_of_dom, D. done. Qed.

Lemma rep_is_Some (h : store) (l : dlist) (xs : list nat) (x : nat) :
  rep h l xs -> x ∈ xs -> is_Some (h !! x).
Proof.
  intros H Hx. destruct (chain_lookup _ _ _ x (rep_next _ _ _ H) Hx) as [v Hv].
  unfold nx in Hv. rewrite lookup_fmap in Hv. destruct (h !! x); [by eexists|done].
Qed.

Lemma rep_frame (h h' : store) (l : dlist) (xs zs : list nat) :
  rep h l xs -> only zs h h' -> (forall x, x ∈ xs -> x ∉ zs) -> rep h' l xs.
Proof.
  intros [Hn Hh Ht Hx Hp] [Ho _] Hd. constructor; try done.
  - eapply chain_ext; [|exact Hx]. intros x Hin. unfold nx.
    rewrite !lookup_fmap, Ho; [done|]. by apply Hd.
  - eapply chain_ext; [|exact Hp]. intros x Hin. unfold pv.
    rewrite !lookup_fmap, Ho; [done|]. apply Hd. by rewrite elem_of_reverse in Hin.
Qed.

Lemma only_app (zs1 zs2 : list nat) (h h' h'' : store) :
  only zs1 h h' -> only zs2 h' h'' -> only (zs1 ++ zs2) h h''.
Proof. intros H1 H2. eapply only_trans; [done..|]. intros y. by rewrite elem_of_app. Qed.

Lemma only_mono (zs zs' : list nat) (h h' : store) :
  only zs h h' -> (forall y, y ∈ zs -> y ∈ zs') -> only zs' h h'.
Proof. intros [H D] Hz. split; [|done]. intros y Hy. apply H. auto. Qed.

(** ** Inserting into and removing from a chain *)

(** ** Two elements change places *)

Definition relink (o : option nat) (v : nat) (m : gmap nat (option nat))
  : gmap nat (option nat) :=
  match o with Some a => <[a:=Some v]> m | None => m end.

Lemma chain_relink_ne (m : gmap nat (option nat)) (xs ys : list nat) (v : nat) e :
  (forall y, y ∈ ys -> y ∉ xs) ->
  chain (relink (first (reverse ys) None) v m) xs e <-> chain m xs e.
Proof.
  intros H. destruct (first (reverse ys) None) as [y|] eqn:E; [|done].
  apply chain_ne, H. by apply last_in.
Qed.

(** The last element of a segment is linked to [v]. *)
Lemma chain_relink (m : gmap nat (option nat)) (xs : list nat) (v : nat) e :
  NoDup xs -> chain m xs e ->
  chain (relink (first (reverse xs) None) v m) xs (Some v).
Proof.
  intros Hn Hc. destruct (last_case xs) as [->|(ys & y & ->)]; [done|].
  rewrite reverse_app. cbn [reverse rev_append app first relink].
  eapply chain_redirect; [|exact Hc].
  apply list.NoDup_app in Hn as (_ & Hn & _). intros Hin. apply (Hn y Hin).
  by apply list_elem_of_singleton.
Qed.

Lemma chain_swap (m : gmap nat (option nat)) (A B C : list nat) (a b : nat) e :
  NoDup (A ++ a :: B ++ b :: C) -> chain m (A ++ a :: B ++ b :: C) e ->
  let m' := relink (first (reverse A) None) b
              (relink (first (reverse (a :: B)) None) a m) in
  m' !! b = Some (first C e) /\ m' !! a = Some (first B (Some a)) /\
  chain (<[b:=first B (Some a)]> (<[a:=first C e]> m')) (A ++ b :: B ++ a :: C) e.
Proof.
  intros Hn Hc m'.
  assert (a <> b /\ a ∉ A /\ a ∉ B /\ a ∉ C /\ b ∉ A /\ b ∉ B /\ b ∉ C /\
    (forall x, x ∈ A -> x ∉ B /\ x ∉ C) /\ (forall x, x ∈ B -> x ∉ C) /\ NoDup A /\ NoDup B)
    as (Hab & HaA & HaB & HaC & HbA & HbB & HbC & HAB & HBC & HnA & HnB).
  { rewrite !list.NoDup_app, !list.NoDup_cons, !list.NoDup_app, !list.NoDup_cons in Hn.
    set_solver. }
  rewrite chain_app in Hc. cbn [chain first] in Hc. rewrite chain_app in Hc.
  cbn [chain first] in Hc. destruct Hc as (HA & Ha & HB & Hb & HC).
  rewrite first_app in Ha. cbn [first] in Ha.
  assert (chain m (a :: B) (Some b)) as HaBc by done.
  apply (chain_relink _ _ a) in HaBc; [|by apply list.NoDup_cons].
  set (m1 := relink (first (reverse (a :: B)) None) a m) in *.
  assert (chain m1 A (Some a)) as HA1 by (apply chain_relink_ne; [set_solver|done]).
  assert (chain m1 (b :: C) e) as HC1 by (apply chain_relink_ne; [set_solver|done]).
  apply (chain_relink _ _ b) in HA1; [|done]. fold m' in HA1.
  assert (chain m' (a :: B) (Some a)) as [Ha' HB'] by (apply chain_relink_ne; [set_solver|done]).
  assert (chain m' (b :: C) e) as [Hb' HC'] by (apply chain_relink_ne; [set_solver|done]).
  split; [done|]. split; [done|].
  rewrite chain_app. cbn [chain first]. rewrite chain_app. cbn [chain first].
  rewrite first_app. cbn [first]. rewrite !chain_ne by done.
  rewrite lookup_insert_eq, lookup_insert_ne, lookup_insert_eq by done. done.
Qed.

(** The two links are independent. *)
Lemma relink_comm (m : gmap nat (option nat)) (A B : list nat) (v w : nat) :
  (forall x, x ∈ A -> x ∉ B) ->
  relink (first (reverse A) None) v (relink (first (reverse B) None) w m) =
  relink (first (reverse B) None) w (relink (first (reverse A) None) v m).
Proof.
  intros H. destruct (first (reverse A) None) as [x|] eqn:EA; [|done].
  destruct (first (reverse B) None) as [y|] eqn:EB; [|done]. simpl.
  apply insert_insert_ne. intros ->. eapply H; by apply last_in.
Qed.

(** ** The operations on sequences *)

(** Executes the next assignment of the goal. *)
Ltac assign h' En Ep Ho :=
  lazymatch goal with
  | |- context [set_next ?h (Some ?a) ?v] =>
      destruct (set_next_ok h a v) as (h' & -> & En & Ep & Ho);
      [|cbn [mbind option_bind]]
  | |- context [set_prev ?h (Some ?a) ?v] =>
      destruct (set_prev_ok h a v) as (h' & -> & Ep & En & Ho);
      [|cbn [mbind option_bind]]
  end.

Ltac cells := eauto using only_is_Some, rep_is_Some with set_solver.

Lemma push_ok (h : store) (l : dlist) (xs : list nat) (p : nat) :
  rep h l xs -> p ∉ xs -> is_Some (h !! p) ->
  exists h' l', dlist_push h l p = Some (h', l') /\ rep h' l' (xs ++ [p]) /\
    only (p :: xs) h h'.
Proof.
  intros H Hp Hs. pose proof H as [Hn Hh Ht Hx Hv]. unfold dlist_push.
  assign h1 N1 P1 O1; [done|]. assign h2 N2 P2 O2; [by eapply only_is_Some|].
  assert (NoDup (xs ++ [p])) as Hn'.
  { apply list.NoDup_app. split; [done|]. split; [|apply NoDup_singleton].
    by intros x Hx' ->%list_elem_of_singleton. }
  destruct (last_case xs) as [->|(ys & y & ->)].
  - rewrite Ht in *. cbn in *. eexists _, _. split; [done|]. split.
    + constructor; try done; cbn.
      * by rewrite N2, N1, lookup_insert_eq.
      * by rewrite P2, lookup_insert_eq.
    + eapply only_mono; [exact (only_app _ _ _ _ _ O1 O2)|set_solver].
  - rewrite reverse_app in *. cbn [reverse rev_append app first] in *. rewrite Ht in *.
    assign h3 N3 P3 O3.
    { eapply only_is_Some; [exact O2|]. eapply only_is_Some; [exact O1|].
      eapply rep_is_Some; [exact H|set_solver]. }
    eexists _, _. split; [done|]. split.
    + constructor; cbn [head tail]; try done.
      * rewrite Hh. by destruct ys.
      * by rewrite reverse_app.
      * rewrite N3, N2, N1. apply chain_app. split.
        -- apply chain_redirect with None; [|by apply chain_ne].
           apply list.NoDup_app in Hn as (_ & Hn & _). intros Hin. apply (Hn y Hin).
           by apply list_elem_of_singleton.
        -- simpl. rewrite lookup_insert_ne, lookup_insert_eq by set_solver. done.
      * rewrite P3, P2, P1, reverse_app, (reverse_app ys). cbn [reverse rev_append app chain first].
        rewrite lookup_insert_eq. split; [done|].
        apply (chain_ne _ (y :: reverse ys)); [|done].
        intros Hin. apply Hp. apply elem_of_cons in Hin as [->|Hin]; [set_solver|].
        rewrite elem_of_reverse in Hin. set_solver.
    + eapply only_mono; [exact (only_app _ _ _ _ _ O1 (only_app _ _ _ _ _ O2 O3))|].
      set_solver.
Qed.

Lemma unshift_ok (h : store) (l : dlist) (xs : list nat) (p : nat) :
  rep h l xs -> p ∉ xs -> is_Some (h !! p) ->
  exists h' l', dlist_unshift h l p = Some (h', l') /\ rep h' l' (p :: xs) /\
    only (p :: xs) h h'.
Proof.
  intros H Hp Hs. pose proof H as [Hn Hh Ht Hx Hv]. unfold dlist_unshift.
  assign h1 N1 P1 O1; [done|]. assign h2 N2 P2 O2; [by eapply only_is_Some|].
  assert (NoDup (p :: xs)) as Hn' by (by apply list.NoDup_cons).
  rewrite Hh. destruct xs as [|y ys]; cbn [first].
  - eexists _, _. split; [done|]. split.
    + constructor; try done; cbn.
      * by rewrite N2, lookup_insert_eq, Hh.
      * by rewrite P2, P1, lookup_insert_eq.
    + eapply only_mono; [exact (only_app _ _ _ _ _ O1 O2)|set_solver].
  - assign h3 N3 P3 O3.
    { eapply only_is_Some; [exact O2|]. eapply only_is_Some; [exact O1|].
      eapply rep_is_Some; [exact H|apply list_elem_of_here]. }
    assert (y ∉ ys) as Hy by (apply list.NoDup_cons in Hn as [? _]; done).
    eexists _, _. split; [done|]. split.
    + constructor; cbn [head tail]; try done.
      * rewrite Ht, !reverse_cons, <- app_assoc, !first_app. by destruct (reverse ys).
      * cbn [chain first]. rewrite N3, N2, N1, lookup_insert_eq, Hh. split; [done|].
        apply (chain_ne _ (y :: ys)); done.
      * rewrite P3, P2, P1, (reverse_cons (y :: ys)). apply chain_app. cbn [chain first].
        rewrite reverse_cons in *. split.
        -- apply chain_redirect with None; [by rewrite elem_of_reverse|].
           apply chain_ne; [|done]. rewrite elem_of_app, elem_of_reverse. set_solver.
        -- rewrite lookup_insert_ne, lookup_insert_eq by set_solver. done.
    + eapply only_mono; [exact (only_app _ _ _ _ _ O1 (only_app _ _ _ _ _ O2 O3))|].
      set_solver.
Qed.

(** What the store holds at an element of a list. *)
Lemma rep_cell (h : store) (l : dlist) (A B : list nat) (p : nat) :
  rep h l (A ++ p :: B) ->
  h !! p = Some (Node (first (reverse A) None) (first B None)).
Proof.
  intros [_ _ _ Hx Hv]. apply cell_of.
  - by eapply chain_mid.
  - rewrite reverse_app, reverse_cons, <- app_assoc in Hv. by eapply chain_mid.
Qed.

Lemma rep_last (h : store) (l : dlist) (A B : list nat) (p : nat) :
  rep h l (A ++ p :: B) -> tail l = Some p <-> B = [].
Proof.
  intros [Hn _ -> _ _]. rewrite reverse_app, reverse_cons, <- app_assoc.
  apply list.NoDup_app in Hn as (_ & _ & [Hp _]%list.NoDup_cons).
  destruct (last_case B) as [->|(B' & y & ->)]; [done|].
  rewrite reverse_app. cbn [reverse rev_append app first]. split.
  - intros [= ->]. set_solver.
  - intros E. by apply app_eq_nil in E as [_ ?].
Qed.

Lemma rep_first (h : store) (l : dlist) (A B : list nat) (p : nat) :
  rep h l (A ++ p :: B) -> head l = Some p <-> A = [].
Proof.
  intros [Hn -> _ _ _]. destruct A as [|x A]; [done|]. cbn [app first].
  apply list.NoDup_cons in Hn as [Hx _]. split; [|done]. intros [= ->]. set_solver.
Qed.

(** [p] has been linked in between [a] and [b]. *)
Lemma insert_rep (h h' : store) (l : dlist) (A B : list nat) (a b p : nat) :
  rep h l (A ++ a :: b :: B) -> p ∉ A ++ a :: b :: B ->
  nx h' = <[a:=Some p]> (<[p:=Some b]> (nx h)) ->
  pv h' = <[b:=Some p]> (<[p:=Some a]> (pv h)) ->
  rep h' l (A ++ a :: p :: b :: B).
Proof.
  intros [Hn Hh Ht Hx Hv] Hp N P. constructor.
  - rewrite !list.NoDup_app, !list.NoDup_cons in *. set_solver.
  - rewrite Hh. by destruct A.
  - rewrite Ht, !reverse_app, !reverse_cons, <- !app_assoc, !first_app. done.
  - rewrite N. by apply (chain_add (nx h) A (b :: B) a p None).
  - rewrite P, reverse_mid, (reverse_cons (b :: B)), (reverse_cons B), <- !app_assoc.
    rewrite reverse_mid2 in Hv. cbn [app].
    apply (chain_add (pv h) (reverse B) (a :: reverse A) b p None); [..|done].
    + rewrite <- (reverse_mid2 A B), nodup_reverse. done.
    + by rewrite <- (reverse_mid2 A B), elem_of_reverse.
Qed.

Lemma add_after_ok (h : store) (l : dlist) (A B : list nat) (a p : nat) :
  rep h l (A ++ a :: B) -> p ∉ A ++ a :: B -> is_Some (h !! p) ->
  exists h' l', dlist_add_after h l p (Some a) = Some (h', l') /\
    rep h' l' (A ++ a :: p :: B) /\ only (p :: A ++ a :: B) h h'.
Proof.
  intros H Hp Hs. unfold dlist_add_after. case_decide as E.
  { symmetry in E. apply (rep_last _ _ _ _ _ H) in E. subst B.
    destruct (push_ok h l (A ++ [a]) p H Hp Hs) as (h' & l' & E & R & O).
    exists h', l'. split; [done|]. split; [|done]. by rewrite <- app_assoc in R. }
  assert (B <> []) as HB.
  { intros ->. apply E. symmetry. by apply (rep_last _ _ _ _ _ H). }
  destruct B as [|b B]; [done|]. clear E HB.
  pose proof (rep_cell _ _ _ _ _ H) as Ca. pose proof H as [Hn Hh Ht Hx Hv].
  assert (p <> a) as Hpa by set_solver. cbn [deref mbind option_bind]. rewrite Ca.
  cbn [mbind option_bind next first].
  assign h1 N1 P1 O1; [done|]. assign h2 N2 P2 O2; [by eapply only_is_Some|].
  assert (h2 !! a = h !! a) as -> by (rewrite (proj1 O2), (proj1 O1) by set_solver; done).
  rewrite Ca. cbn [mbind option_bind next first].
  assign h3 N3 P3 O3.
  { eapply only_is_Some; [exact O2|]. eapply only_is_Some; [exact O1|].
    eapply rep_is_Some; [exact H|set_solver]. }
  assign h4 N4 P4 O4.
  { eapply only_is_Some; [exact O3|]. eapply only_is_Some; [exact O2|].
    eapply only_is_Some; [exact O1|]. by eexists. }
  eexists _, _. split; [done|]. split.
  - apply (insert_rep h); [done|done| |].
    + by rewrite N4, N3, N2, N1.
    + by rewrite P4, P3, P2, P1.
  - eapply only_mono;
      [exact (only_app _ _ _ _ _ O1 (only_app _ _ _ _ _ O2 (only_app _ _ _ _ _ O3 O4)))|].
    set_solver.
Qed.

Lemma add_before_ok (h : store) (l : dlist) (A B : list nat) (b p : nat) :
  rep h l (A ++ b :: B) -> p ∉ A ++ b :: B -> is_Some (h !! p) ->
  exists h' l', dlist_add_before h l p (Some b) = Some (h', l') /\
    rep h' l' (A ++ p :: b :: B) /\ only (p :: A ++ b :: B) h h'.
Proof.
  intros H Hp Hs. unfold dlist_add_before. case_decide as E.
  { symmetry in E. apply (rep_first _ _ _ _ _ H) in E. subst A. by apply unshift_ok. }
  destruct (last_case A) as [->|(A' & a & ->)].
  { destruct E. symmetry. by apply (rep_first _ _ _ _ _ H). }
  clear E. pose proof (rep_cell _ _ _ _ _ H) as Cb.
  rewrite reverse_app in Cb. cbn [reverse rev_append app first] in Cb.
  rewrite <- app_assoc in *. cbn [app] in *.
  assert (p <> b) as Hpb by set_solver.
  assign h1 N1 P1 O1; [done|]. cbn [deref mbind option_bind].
  assert (h1 !! b = h !! b) as -> by (rewrite (proj1 O1) by set_solver; done).
  rewrite Cb. cbn [mbind option_bind prev].
  assign h2 N2 P2 O2; [by eapply only_is_Some|].
  assert (h2 !! b = h !! b) as -> by (rewrite (proj1 O2), (proj1 O1) by set_solver; done).
  rewrite Cb. cbn [mbind option_bind prev].
  assign h3 N3 P3 O3.
  { eapply only_is_Some; [exact O2|]. eapply only_is_Some; [exact O1|].
    eapply rep_is_Some; [exact H|set_solver]. }
  assign h4 N4 P4 O4.
  { eapply only_is_Some; [exact O3|]. eapply only_is_Some; [exact O2|].
    eapply only_is_Some; [exact O1|]. by eexists. }
  eexists _, _. split; [done|]. split.
  - apply (insert_rep h); [done|done| |].
    + by rewrite N4, N3, N2, N1.
    + by rewrite P4, P3, P2, P1.
  - eapply only_mono;
      [exact (only_app _ _ _ _ _ O1 (only_app _ _ _ _ _ O2 (only_app _ _ _ _ _ O3 O4)))|].
    set_solver.
Qed.

(** ** Removal *)

(** The body of [dlist_find_delete] for the node found. *)
Definition unlink (h : store) (l : dlist) (p : nat) : option (store * dlist) :=
  n ← h !! p;
  '(h, l) ← match prev n with
            | Some _ => h ← set_next h (prev n) (next n); Some (h, l)
            | None => Some (h, Dlist (next n) (tail l))
            end;
  n ← h !! p;
  '(h, l) ← match next n with
            | Some _ => h ← set_prev h (next n) (prev n); Some (h, l)
            | None => Some (h, Dlist (head l) (prev n))
            end;
  h ← set_next h (Some p) None;
  h ← set_prev h (Some p) None;
  Some (h, l).

Lemma remove_chain (m : gmap nat (option nat)) (A B : list nat) (p : nat) :
  NoDup (A ++ p :: B) -> chain m (A ++ p :: B) None ->
  chain (<[p:=None]> match first (reverse A) None with
                     | Some a => <[a:=first B None]> m | None => m end) (A ++ B) None.
Proof.
  intros Hn Hc. destruct (last_case A) as [->|(A' & a & ->)].
  - by apply chain_del_first.
  - rewrite reverse_app. cbn [reverse rev_append app first].
    rewrite <- app_assoc in *. by apply chain_del.
Qed.

Lemma unlink_ok (h : store) (l : dlist) (A B : list nat) (p : nat) :
  rep h l (A ++ p :: B) ->
  exists h' l', unlink h l p = Some (h', l') /\ rep h' l' (A ++ B) /\
    h' !! p = Some (Node None None) /\ only (A ++ p :: B) h h'.
Proof.
  intros H. pose proof H as [Hn Hh Ht Hx Hv].
  pose proof (rep_cell _ _ _ _ _ H) as Cp.
  pose proof (remove_chain _ _ _ _ Hn Hx) as Hx'. rewrite reverse_mid in Hv, Ht.
  assert (NoDup (reverse B ++ p :: reverse A)) as Hn2
    by (by rewrite <- reverse_mid, nodup_reverse).
  pose proof (remove_chain _ _ _ _ Hn2 Hv) as Hv'. rewrite reverse_involutive in Hv'.
  assert (NoDup (A ++ B)) as Hn'.
  { rewrite !list.NoDup_app, !list.NoDup_cons in *. set_solver. }
  assert (p ∉ A /\ p ∉ B) as [HpA HpB].
  { rewrite !list.NoDup_app, !list.NoDup_cons in Hn. set_solver. }
  unfold unlink. rewrite Cp. cbn [mbind option_bind prev next].
  set (lp := first (reverse A) None) in *. set (ln := first B None) in *.
  assert (exists h1, nx h1 = match lp with Some a => <[a:=ln]> (nx h) | None => nx h end /\
    pv h1 = pv h /\ only A h h1 /\
    match lp with
    | Some _ => h ← set_next h lp ln; Some (h, l)
    | None => Some (h, Dlist ln (tail l))
    end = Some (h1, Dlist (first (A ++ B) None) (tail l))) as (h1 & N1 & P1 & O1 & E1).
  { destruct lp as [a|] eqn:E.
    - apply last_in in E. assign h1 N1 P1 O1.
      { eapply rep_is_Some; [exact H|set_solver]. }
      exists h1. split; [done|]. split; [done|]. split.
      + eapply only_mono; [exact O1|set_solver].
      + do 2 f_equal. destruct l as [lh lt]. cbn in *. rewrite Hh.
        destruct A; [by apply not_elem_of_nil in E|done].
    - assert (A = []) as ->.
      { destruct (last_case A) as [|(A' & x & ->)]; [done|].
        subst lp. by rewrite reverse_app in E. }
      exists h. done. }
  rewrite E1. cbn [mbind option_bind].
  assert (h1 !! p = h !! p) as -> by (apply (proj1 O1); done).
  rewrite Cp. cbn [mbind option_bind prev next tail head]. fold lp ln.
  assert (exists h2, pv h2 = match ln with Some b => <[b:=lp]> (pv h1) | None => pv h1 end /\
    nx h2 = nx h1 /\ only B h1 h2 /\
    match ln with
    | Some _ => h ← set_prev h1 ln lp; Some (h, Dlist (first (A ++ B) None) (tail l))
    | None => Some (h1, Dlist (first (A ++ B) None) lp)
    end = Some (h2, Dlist (first (A ++ B) None) (first (reverse (A ++ B)) None)))
    as (h2 & P2 & N2 & O2 & E2).
  { subst ln. destruct B as [|b B]; cbn [first].
    - exists h1. rewrite app_nil_r. done.
    - assign h2 N2 P2 O2.
      { eapply only_is_Some; [exact O1|]. eapply rep_is_Some; [exact H|set_solver]. }
      exists h2. split; [done|]. split; [done|]. split.
      + eapply only_mono; [exact O2|set_solver].
      + do 3 f_equal. rewrite Ht, reverse_app, reverse_cons, !first_app. done. }
  rewrite E2. cbn [mbind option_bind].
  assert (is_Some (h2 !! p)) as Hp2.
  { eapply only_is_Some; [exact O2|]. eapply only_is_Some; [exact O1|]. by eexists. }
  assign h3 N3 P3 O3; [done|]. assign h4 N4 P4 O4; [by eapply only_is_Some|].
  eexists _, _. split; [done|]. split; [|split].
  - constructor; cbn [head tail]; try done.
    + by rewrite N4, N3, N2, N1.
    + by rewrite P4, P3, P2, P1, reverse_app.
  - apply cell_of.
    + by rewrite N4, N3, lookup_insert_eq.
    + by rewrite P4, lookup_insert_eq.
  - eapply only_mono;
      [exact (only_app _ _ _ _ _ O1 (only_app _ _ _ _ _ O2 (only_app _ _ _ _ _ O3 O4)))|].
    set_solver.
Qed.

(** The tests of [dlist_remove] amount to the same. *)
Lemma remove_unlink (h : store) (l : dlist) (A B : list nat) (p : nat) :
  rep h l (A ++ p :: B) -> dlist_remove h l p = unlink h l p.
Proof.
  intros H. pose proof (rep_cell _ _ _ _ _ H) as Cp.
  pose proof (rep_first _ _ _ _ _ H) as Hf. pose proof (rep_last _ _ _ _ _ H) as Hl.
  unfold dlist_remove, unlink. rewrite Cp. cbn [mbind option_bind prev next].
  assert (forall h1 l1, tail l1 = tail l -> h1 !! p = h !! p ->
    (n ← h1 !! p;
     '(h, l) ← (if decide (tail l1 = Some p) then Some (h1, Dlist (head l1) (prev n))
                else h ← set_prev h1 (next n) (prev n); Some (h, l1));
     h ← set_next h (Some p) None; h ← set_prev h (Some p) None; Some (h, l)) =
    (n ← h1 !! p;
     '(h, l) ← match next n with
               | Some _ => h ← set_prev h1 (next n) (prev n); Some (h, l1)
               | None => Some (h1, Dlist (head l1) (prev n))
               end;
     h ← set_next h (Some p) None; h ← set_prev h (Some p) None; Some (h, l))) as Hrest.
  { intros h1 l1 -> ->. rewrite Cp. cbn [mbind option_bind prev next].
    case_decide as E.
    - apply Hl in E. by subst B.
    - destruct B; [|done]. destruct E. by apply Hl. }
  case_decide as E.
  - symmetry in E. apply Hf in E. subst A. by apply Hrest.
  - destruct (last_case A) as [->|(A' & a & ->)]; [destruct E; symmetry; by apply Hf|].
    rewrite reverse_app. cbn [reverse rev_append app first].
    assign h1 N1 P1 O1; [eapply rep_is_Some; [exact H|set_solver]|].
    apply Hrest; [done|]. apply (proj1 O1).
    pose proof (rep_nodup _ _ _ H) as Hn.
    rewrite !list.NoDup_app in Hn. set_solver.
Qed.

Lemma dlist_remove_ok (h : store) (l : dlist) (A B : list nat) (p : nat) :
  rep h l (A ++ p :: B) ->
  exists h' l', dlist_remove h l p = Some (h', l') /\ rep h' l' (A ++ B) /\
    h' !! p = Some (Node None None) /\ only (A ++ p :: B) h h'.
Proof. intros H. rewrite (remove_unlink _ _ _ _ _ H). by apply unlink_ok. Qed.

(** ** Traversal *)

Lemma rep_size (h : store) (l : dlist) (xs : list nat) :
  rep h l xs -> (length xs <= size h)%nat.
Proof.
  intros H. rewrite <- size_dom, <- (size_list_to_set (C := gset nat) xs (rep_nodup _ _ _ H)).
  apply subseteq_size. intros x Hx. apply elem_of_list_to_set in Hx.
  apply elem_of_dom. by eapply rep_is_Some.
Qed.

Lemma foreach_ok (pred : nat -> bool) (h : store) (xs : list nat) (fuel : nat) :
  chain (nx h) xs None -> (length xs < fuel)%nat ->
  dlist_foreach pred h (first xs None) fuel = Some (List.find pred xs).
Proof.
  revert fuel. induction xs as [|x xs IH]; intros [|fuel] Hc Hf; simpl in *; try lia; [done|].
  destruct Hc as [Hx Hc]. destruct (pred x); [done|].
  unfold nx in Hx. rewrite lookup_fmap in Hx. destruct (h !! x) as [n|]; [|done].
  simpl in *. injection Hx as ->. apply IH; [done|lia].
Qed.

Lemma length_ok (h : store) (xs : list nat) (fuel : nat) (count : Z) :
  chain (nx h) xs None -> (length xs < fuel)%nat -> 0 <= count ->
  count + Z.of_nat (length xs) < 18446744073709551616 ->
  dlist_length_loop h (first xs None) count fuel = Some (count + Z.of_nat (length xs)).
Proof.
  revert fuel count. induction xs as [|x xs IH]; intros [|fuel] count Hc Hf H0 Hb;
    cbn [length chain first dlist_length_loop] in *; try lia.
  { f_equal. lia. }
  destruct Hc as [Hx Hc].
  unfold nx in Hx. rewrite lookup_fmap in Hx. destruct (h !! x) as [n|]; [|done].
  cbn [fmap option_fmap option_map mbind option_bind] in *. injection Hx as ->.
  rewrite u64_id by (unfold is_u64; lia). rewrite IH by (done || lia). f_equal. lia.
Qed.

(** ** Joining and exchanging *)

(** The links that join [xs] and [ys]. *)
Lemma join_chain (m : gmap nat (option nat)) (xs ys : list nat) (x y : nat) :
  NoDup ((xs ++ [x]) ++ y :: ys) -> chain m (xs ++ [x]) None -> chain m (y :: ys) None ->
  chain (<[x:=Some y]> m) ((xs ++ [x]) ++ y :: ys) None.
Proof.
  intros Hn Hx Hy. apply list.NoDup_app in Hn as (Hn & Hd & _). apply chain_app. split.
  - eapply chain_redirect; [|exact Hx]. apply list.NoDup_app in Hn as (_ & Hn & _).
    intros Hin. apply (Hn x Hin). by apply list_elem_of_singleton.
  - apply chain_ne; [|done]. apply Hd. set_solver.
Qed.

Lemma join_rep (h h' : store) (l1 l2 : dlist) (xs ys : list nat) (x y : nat) :
  rep h l1 (xs ++ [x]) -> rep h l2 (y :: ys) -> NoDup ((xs ++ [x]) ++ y :: ys) ->
  nx h' = <[x:=Some y]> (nx h) -> pv h' = <[y:=Some x]> (pv h) ->
  rep h' (Dlist (head l1) (tail l2)) ((xs ++ [x]) ++ y :: ys).
Proof.
  intros [_ Hh1 Ht1 Hx1 Hv1] [_ Hh2 Ht2 Hx2 Hv2] Hn N P. constructor; cbn [head tail]; try done.
  - rewrite Hh1. by destruct xs.
  - rewrite Ht2, reverse_app, reverse_cons, !first_app. done.
  - rewrite N. by apply join_chain.
  - rewrite P. rewrite reverse_app, reverse_cons, (reverse_app xs) in *.
    cbn [reverse rev_append app] in *. apply join_chain; try done.
    rewrite <- (reverse_cons ys), <- (reverse_snoc xs), <- reverse_app. by rewrite nodup_reverse.
Qed.

Lemma move_head_ok (h : store) (from to : dlist) (xs ys : list nat) :
  rep h from xs -> rep h to ys -> NoDup (xs ++ ys) ->
  exists h' to', dlist_move_head h from to = Some (h', Dlist None None, to') /\
    rep h' to' (xs ++ ys) /\ only (xs ++ ys) h h'.
Proof.
  intros Hf Ht Hn. unfold dlist_move_head. rewrite (rep_head _ _ _ Ht).
  destruct ys as [|y ys]; cbn [first mbind option_bind].
  { rewrite app_nil_r in *. destruct from. by eexists _, _. }
  rewrite (rep_tail _ _ _ Hf). destruct (last_case xs) as [->|(xs' & x & ->)].
  { eexists _, _. split; [done|]. done. }
  rewrite reverse_app. cbn [reverse rev_append app first].
  assign h1 N1 P1 O1; [eapply rep_is_Some; [exact Hf|set_solver]|].
  assign h2 N2 P2 O2.
  { eapply only_is_Some; [exact O1|]. eapply rep_is_Some; [exact Ht|set_solver]. }
  eexists _, _. split; [done|]. split.
  - apply (join_rep h); try done; [by rewrite N2|by rewrite P2, P1].
  - eapply only_mono; [exact (only_app _ _ _ _ _ O1 O2)|set_solver].
Qed.

Lemma move_tail_ok (h : store) (from to : dlist) (xs ys : list nat) :
  rep h from xs -> rep h to ys -> NoDup (ys ++ xs) ->
  exists h' to', dlist_move_tail h from to = Some (h', Dlist None None, to') /\
    rep h' to' (ys ++ xs) /\ only (ys ++ xs) h h'.
Proof.
  intros Hf Ht Hn. unfold dlist_move_tail. rewrite (rep_tail _ _ _ Ht).
  destruct (last_case ys) as [->|(ys' & y & ->)].
  { destruct from. by eexists _, _. }
  rewrite reverse_app. cbn [reverse rev_append app first mbind option_bind].
  rewrite (rep_head _ _ _ Hf). destruct xs as [|x xs]; cbn [first].
  { rewrite app_nil_r. eexists _, _. split; [done|]. done. }
  assign h1 N1 P1 O1; [eapply rep_is_Some; [exact Hf|set_solver]|].
  assign h2 N2 P2 O2.
  { eapply only_is_Some; [exact O1|]. eapply rep_is_Some; [exact Ht|set_solver]. }
  eexists _, _. split; [done|]. split.
  - apply (join_rep h); try done; [by rewrite N2, N1|by rewrite P2, P1].
  - eapply only_mono; [exact (only_app _ _ _ _ _ O1 O2)|set_solver].
Qed.

(** One of the four conditional assignments of [dlist_swap]. *)
Definition olist (o : option nat) : list nat :=
  match o with Some a => [a] | None => [] end.

Lemma swap_prev (h : store) (l : dlist) (o : option nat) (v : nat) :
  (forall a, o = Some a -> is_Some (h !! a)) ->
  exists h', match o with
    | Some _ => h ← set_prev h o (Some v); Some (h, l)
    | None => Some (h, Dlist (head l) (Some v)) end =
    Some (h', Dlist (head l) match o with None => Some v | Some _ => tail l end) /\
    pv h' = relink o v (pv h) /\ nx h' = nx h /\ only (olist o) h h'.
Proof.
  intros Ho. destruct o as [a|]; [|by exists h].
  assign h1 N1 P1 O1; [auto|]. exists h1. by destruct l.
Qed.

Lemma swap_next (h : store) (l : dlist) (o : option nat) (v : nat) :
  (forall a, o = Some a -> is_Some (h !! a)) ->
  exists h', match o with
    | Some _ => h ← set_next h o (Some v); Some (h, l)
    | None => Some (h, Dlist (Some v) (tail l)) end =
    Some (h', Dlist match o with None => Some v | Some _ => head l end (tail l)) /\
    nx h' = relink o v (nx h) /\ pv h' = pv h /\ only (olist o) h h'.
Proof.
  intros Ho. destruct o as [a|]; [|by exists h].
  assign h1 N1 P1 O1; [auto|]. exists h1. by destruct l.
Qed.

(** What the assignments of [dlist_swap] do to the two directions. *)
Lemma swap_run (h : store) (l : dlist) (p1 p2 : nat) (n1 n2 : node) q1 q2 r1 r2 :
  p1 <> p2 -> h !! p1 = Some n1 -> h !! p2 = Some n2 ->
  (forall a, Some a ∈ [prev n1; next n1; prev n2; next n2] -> is_Some (h !! a)) ->
  let N := relink (prev n1) p2 (relink (prev n2) p1 (nx h)) in
  let P := relink (next n1) p2 (relink (next n2) p1 (pv h)) in
  N !! p1 = Some q1 -> N !! p2 = Some q2 -> P !! p1 = Some r1 -> P !! p2 = Some r2 ->
  exists h', dlist_swap h l p1 p2 = Some (h', Dlist
      (match prev n1 with None => Some p2 | Some _ =>
         match prev n2 with None => Some p1 | Some _ => head l end end)
      (match next n1 with None => Some p2 | Some _ =>
         match next n2 with None => Some p1 | Some _ => tail l end end)) /\
    nx h' = <[p2:=q1]> (<[p1:=q2]> N) /\ pv h' = <[p2:=r1]> (<[p1:=r2]> P) /\
    only (p1 :: p2 :: omap id [prev n1; next n1; prev n2; next n2]) h h'.
Proof.
  intros Hne H1 H2 Hs N P Hq1 Hq2 Hr1 Hr2. unfold dlist_swap.
  rewrite decide_False by done. rewrite H1, H2. cbn [mbind option_bind].
  set (l1 := Dlist (head l) match next n2 with None => Some p1 | Some _ => tail l end).
  set (l2 := Dlist match prev n2 with None => Some p1 | Some _ => head l1 end (tail l1)).
  set (l3 := Dlist (head l2) match next n1 with None => Some p2 | Some _ => tail l2 end).
  destruct (swap_prev h l (next n2) p1) as (h1 & -> & P1 & N1 & O1);
    [intros; apply Hs; set_solver|].
  cbn [mbind option_bind].
  fold l1. destruct (swap_next h1 l1 (prev n2) p1) as (h2 & -> & N2 & P2 & O2).
  { intros a Ha. eapply only_is_Some; [exact O1|]. apply Hs. set_solver. }
  pose proof (only_app _ _ _ _ _ O1 O2) as O12. cbn [mbind option_bind].
  fold l2. destruct (swap_prev h2 l2 (next n1) p2) as (h3 & -> & P3 & N3 & O3).
  { intros a Ha. eapply only_is_Some; [exact O12|]. apply Hs. set_solver. }
  pose proof (only_app _ _ _ _ _ O12 O3) as O13. cbn [mbind option_bind].
  fold l3. destruct (swap_next h3 l3 (prev n1) p2) as (h4 & -> & N4 & P4 & O4).
  { intros a Ha. eapply only_is_Some; [exact O13|]. apply Hs. set_solver. }
  pose proof (only_app _ _ _ _ _ O13 O4) as O14. cbn [mbind option_bind].
  assert (nx h4 = N) as EN by (by rewrite N4, N3, N2, N1).
  assert (pv h4 = P) as EP by (by rewrite P4, P3, P2, P1).
  rewrite (cell_of h4 p1 r1 q1), (cell_of h4 p2 r2 q2) by (rewrite ?EN, ?EP; done).
  cbn [mbind option_bind prev next head tail]. eexists. split; [done|].
  unfold nx, pv in *. rewrite !fmap_insert. cbn [prev next]. rewrite EN, EP.
  split; [done|]. split; [done|]. split.
  - intros y Hy. rewrite !lookup_insert_ne by set_solver. apply (proj1 O14).
    intros Hin. apply Hy. rewrite !elem_of_app in Hin. rewrite !elem_of_cons, list_elem_of_omap.
    do 2 right. destruct Hin as [[[Hin|Hin]|Hin]|Hin]; unfold olist in Hin;
      case_match; [|by apply not_elem_of_nil in Hin| |by apply not_elem_of_nil in Hin
        | |by apply not_elem_of_nil in Hin| |by apply not_elem_of_nil in Hin];
      apply list_elem_of_singleton in Hin; subst; eexists; (split; [|done]); set_solver.
  - rewrite !dom_insert_L, (proj2 O14). apply elem_of_dom_2 in H1, H2. set_solver.
Qed.

(** The four neighbours of the two nodes. *)
Lemma swap_cells (h : store) (l : dlist) (A B C : list nat) (a b : nat) :
  rep h l (A ++ a :: B ++ b :: C) ->
  h !! a = Some (Node (first (reverse A) None) (first B (Some b))) /\
  h !! b = Some (Node (first (reverse (a :: B)) None) (first C None)) /\
  forall x, Some x ∈ [first (reverse A) None; first B (Some b);
                      first (reverse (a :: B)) None; first C None] ->
    x ∈ A ++ a :: B ++ b :: C.
Proof.
  intros H. pose proof (rep_cell h l A (B ++ b :: C) a H) as Ha.
  rewrite first_app in Ha. split; [done|].
  assert (A ++ a :: B ++ b :: C = (A ++ a :: B) ++ b :: C) as E by (by rewrite <- app_assoc).
  rewrite E in H. apply (rep_cell h l (A ++ a :: B) C b) in H.
  rewrite reverse_app, first_app in H. split.
  - rewrite H. do 2 f_equal. rewrite reverse_cons, !first_app. by destruct (reverse B).
  - intros x Hx. rewrite !elem_of_cons, elem_of_nil in Hx.
    destruct Hx as [Hx|[Hx|[Hx|[Hx|[]]]]]; symmetry in Hx.
    + apply last_in in Hx. set_solver.
    + destruct B; injection Hx as ->; set_solver.
    + apply last_in in Hx. set_solver.
    + destruct C; [done|]. injection Hx as ->. set_solver.
Qed.

Lemma swap_nodup (A B C : list nat) (a b : nat) :
  NoDup (A ++ a :: B ++ b :: C) -> NoDup (A ++ b :: B ++ a :: C).
Proof.
  rewrite !list.NoDup_app, !list.NoDup_cons, !list.NoDup_app, !list.NoDup_cons. set_solver.
Qed.

Lemma swap_reverse (A B C : list nat) (a b : nat) :
  reverse (A ++ a :: B ++ b :: C) = reverse C ++ b :: reverse B ++ a :: reverse A.
Proof.
  rewrite reverse_mid, reverse_app, reverse_cons, <- !app_assoc. done.
Qed.

(** The result, however the two nodes are named in the call. *)
Lemma swap_rep (h h' : store) (l : dlist) (A B C : list nat) (a b : nat) :
  rep h l (A ++ a :: B ++ b :: C) ->
  let N := relink (first (reverse A) None) b
             (relink (first (reverse (a :: B)) None) a (nx h)) in
  let P := relink (first C None) a (relink (first B (Some b)) b (pv h)) in
  nx h' = <[b:=first B (Some a)]> (<[a:=first C None]> N) ->
  pv h' = <[a:=first (reverse B) (Some b)]> (<[b:=first (reverse A) None]> P) ->
  rep h' (Dlist match first (reverse A) None with None => Some b | Some _ => head l end
                match first C None with None => Some a | Some _ => tail l end)
    (A ++ b :: B ++ a :: C).
Proof.
  intros H N P EN EP. pose proof H as [Hn Hh Ht Hx Hv].
  constructor; cbn [head tail].
  - by apply swap_nodup.
  - destruct (last_case A) as [->|(A' & x & ->)]; [done|].
    rewrite reverse_app, Hh. cbn [reverse rev_append app first]. by destruct A'.
  - rewrite swap_reverse in *. rewrite Ht. destruct C as [|c C]; [done|].
    cbn [first]. rewrite reverse_cons, !first_app. by destruct (reverse C).
  - rewrite EN. by apply chain_swap.
  - rewrite swap_reverse in *. rewrite EP.
    assert (NoDup (reverse C ++ b :: reverse B ++ a :: reverse A)) as Hn2
      by (by rewrite <- swap_reverse, nodup_reverse).
    destruct (chain_swap (pv h) (reverse C) (reverse B) (reverse A) b a None Hn2 Hv)
      as (_ & _ & Hc).
    rewrite reverse_involutive, reverse_cons, reverse_involutive, first_app in Hc.
    cbn [first] in Hc. exact Hc.
Qed.

Lemma swap_values (h : store) (l : dlist) (A B C : list nat) (a b : nat) :
  rep h l (A ++ a :: B ++ b :: C) ->
  let N := relink (first (reverse A) None) b
             (relink (first (reverse (a :: B)) None) a (nx h)) in
  let P := relink (first C None) a (relink (first B (Some b)) b (pv h)) in
  N !! b = Some (first C None) /\ N !! a = Some (first B (Some a)) /\
  P !! a = Some (first (reverse A) None) /\ P !! b = Some (first (reverse B) (Some b)) /\
  N = relink (first (reverse (a :: B)) None) a
        (relink (first (reverse A) None) b (nx h)) /\
  P = relink (first B (Some b)) b (relink (first C None) a (pv h)).
Proof.
  intros [Hn _ _ Hx Hv] N P.
  destruct (chain_swap (nx h) A B C a b None Hn Hx) as (E1 & E2 & _).
  rewrite swap_reverse in Hv.
  assert (NoDup (reverse C ++ b :: reverse B ++ a :: reverse A)) as Hn2
    by (by rewrite <- swap_reverse, nodup_reverse).
  destruct (chain_swap (pv h) (reverse C) (reverse B) (reverse A) b a None Hn2 Hv)
    as (E3 & E4 & _).
  rewrite reverse_involutive, reverse_cons, reverse_involutive, first_app in E3, E4.
  cbn [first] in E3, E4.
  split; [done|]. split; [done|]. split; [done|]. split; [done|]. split.
  - apply relink_comm. rewrite !list.NoDup_app, !list.NoDup_cons in Hn. set_solver.
  - subst P. pose proof (relink_comm (pv h) (reverse C) (b :: reverse B) a b) as E.
    rewrite reverse_involutive, reverse_cons, reverse_involutive, first_app in E. apply E.
    intros x. rewrite elem_of_cons, !elem_of_reverse.
    rewrite !list.NoDup_app, !list.NoDup_cons, !list.NoDup_app, !list.NoDup_cons in Hn.
    set_solver.
Qed.

(** The two nodes may be named in either order. *)
Lemma swap_ok (h : store) (l : dlist) (A B C : list nat) (a b p1 p2 : nat) :
  rep h l (A ++ a :: B ++ b :: C) -> (p1, p2) = (a, b) \/ (p1, p2) = (b, a) ->
  exists h' l', dlist_swap h l p1 p2 = Some (h', l') /\
    rep h' l' (A ++ b :: B ++ a :: C) /\ only (A ++ a :: B ++ b :: C) h h'.
Proof.
  intros H Hor. destruct (swap_cells h l A B C a b H) as (Ha & Hb & Hin).
  destruct (swap_values h l A B C a b H) as (E1 & E2 & E3 & E4 & EN & EP).
  pose proof (fun h' => swap_rep h h' l A B C a b H) as Hrep. cbv zeta in Hrep.
  set (N := relink (first (reverse A) None) b _) in *.
  set (P := relink (first C None) a _) in *.
  assert (a <> b) as Hne.
  { pose proof (rep_nodup _ _ _ H) as Hn.
    rewrite !list.NoDup_app, !list.NoDup_cons in Hn. set_solver. }
  assert (forall x, Some x ∈ [first (reverse A) None; first B (Some b);
    first (reverse (a :: B)) None; first C None] -> is_Some (h !! x)) as Hs.
  { intros x Hx. eapply rep_is_Some; [exact H|auto]. }
  assert (exists x, first (reverse (a :: B)) None = Some x) as [lb Elb].
  { rewrite reverse_cons, first_app. destruct (reverse B); by eexists. }
  assert (exists x, first B (Some b) = Some x) as [fb Efb] by (destruct B; by eexists).
  destruct Hor as [[= -> ->]|[= -> ->]].
  - destruct (swap_run h l a b _ _ (first B (Some a)) (first C None)
      (first (reverse A) None) (first (reverse B) (Some b)) Hne Ha Hb)
      as (h' & -> & N1 & P1 & O1); cbn [prev next] in *; try done; try (by rewrite <- EP).
    eexists _, _. split; [done|]. rewrite Elb, Efb. split.
    + apply Hrep; [exact N1|]. rewrite P1, <- EP. by apply insert_insert_ne.
    + eapply only_mono; [exact O1|]. intros y. rewrite !elem_of_cons, list_elem_of_omap.
      intros [->|[->|(o & Ho & Hy)]]; [set_solver..|]. simpl in Hy. subst o. by apply Hin.
  - destruct (swap_run h l b a _ _ (first C None) (first B (Some a))
      (first (reverse B) (Some b)) (first (reverse A) None) (not_eq_sym Hne) Hb Ha)
      as (h' & -> & N1 & P1 & O1); cbn [prev next] in *; try done; try (by rewrite <- EN).
    { intros x Hx. apply Hs. set_solver. }
    eexists _, _. split; [done|]. rewrite Elb, Efb. split.
    + apply Hrep; [|exact P1]. rewrite N1, <- EN. by apply insert_insert_ne.
    + eapply only_mono; [exact O1|]. intros y. rewrite !elem_of_cons, list_elem_of_omap.
      intros [->|[->|(o & Ho & Hy)]]; [set_solver..|]. simpl in Hy. subst o.
      apply Hin. set_solver.
Qed.

(** ** The abstract list *)

Lemma cut_Some (a : nat) (xs A B : list nat) :
  cut a xs = Some (A, B) -> xs = A ++ a :: B.
Proof.
  revert A. induction xs as [|x xs IH]; simpl; [done|]. intros A.
  case_decide as E; [by intros [= <- <-]; subst|].
  destruct (cut a xs) as [[A' B']|]; [|done]. simpl.
  intros [= <- <-]. simpl. f_equal. by apply IH.
Qed.

(** Two elements of a list are somewhere in it, in one of the two orders. *)
Lemma two_in (xs : list nat) (a b : nat) :
  a <> b -> a ∈ xs -> b ∈ xs ->
  exists A B C c d, xs = A ++ c :: B ++ d :: C /\
    ((a, b) = (c, d) \/ (a, b) = (d, c)).
Proof.
  intros Hne (A & B & ->)%list_elem_of_split Hb. rewrite elem_of_app, elem_of_cons in Hb.
  destruct Hb as [Hb|[->|Hb]]; [|done|];
    apply list_elem_of_split in Hb as (C & D & ->).
  - exists C, D, B, b, a. rewrite <- app_assoc. auto.
  - exists A, C, D, a, b. auto.
Qed.

Lemma exchange_id (a b : nat) (xs : list nat) :
  a ∉ xs -> b ∉ xs -> exchange a b <$> xs = xs.
Proof.
  intros Ha Hb. rewrite <- (list_fmap_id xs) at 2. apply list_fmap_ext.
  intros i x Hx%list_elem_of_lookup_2. unfold exchange.
  rewrite !decide_False by (intros ->; done). done.
Qed.

Lemma exchange_swap (A B C : list nat) (a b c d : nat) :
  NoDup (A ++ c :: B ++ d :: C) -> (a, b) = (c, d) \/ (a, b) = (d, c) ->
  exchange a b <$> (A ++ c :: B ++ d :: C) = A ++ d :: B ++ c :: C.
Proof.
  intros Hn Hor.
  assert (c <> d /\ c ∉ A /\ c ∉ B /\ c ∉ C /\ d ∉ A /\ d ∉ B /\ d ∉ C)
    as (Hcd & HcA & HcB & HcC & HdA & HdB & HdC).
  { rewrite !list.NoDup_app, !list.NoDup_cons, !list.NoDup_app, !list.NoDup_cons in Hn.
    set_solver. }
  rewrite !fmap_app, !fmap_cons, !fmap_app, !fmap_cons.
  destruct Hor as [[= -> ->]|[= -> ->]];
    rewrite (exchange_id _ _ A), (exchange_id _ _ B), (exchange_id _ _ C) by done;
    unfold exchange; do 2 f_equal; repeat case_decide; try done; congruence.
Qed.

(** What running one operation does. *)
Lemma run_op_ok (h : store) (l : dlist) (xs ys : list nat) (o : op) :
  rep h l xs -> subject o ∈ dom h -> spec_op xs o = Some ys ->
  exists h' l', run_op h l o = Some (h', l') /\ rep h' l' ys /\
    only (subject o :: xs) h h'.
Proof.
  intros H Hd%elem_of_dom Hs.
  destruct o as [p|p|p a|p b|p|p q]; cbn [spec_op run_op subject] in *;
    try (case_decide as Hin; [done|]).
  - injection Hs as <-. by apply push_ok.
  - injection Hs as <-. by apply unshift_ok.
  - destruct (cut a xs) as [[A B]|] eqn:E; [|done]. injection Hs as <-.
    apply cut_Some in E as ->. by apply add_after_ok.
  - destruct (cut b xs) as [[A B]|] eqn:E; [|done]. injection Hs as <-.
    apply cut_Some in E as ->. by apply add_before_ok.
  - destruct (cut p xs) as [[A B]|] eqn:E; [|done]. injection Hs as <-.
    apply cut_Some in E as ->. destruct (dlist_remove_ok _ _ _ _ _ H) as (h' & l' & ? & ? & _ & O).
    exists h', l'. split; [done|]. split; [done|]. eapply only_mono; [exact O|set_solver].
  - case_decide as Hin; [|done]. destruct Hin as [Hp Hq]. injection Hs as <-.
    destruct (decide (p = q)) as [->|Hne].
    { exists h, l. unfold dlist_swap. rewrite decide_True by done. split; [done|].
      assert (exchange q q <$> xs = xs) as ->; [|done].
      rewrite <- (list_fmap_id xs) at 2. apply list_fmap_ext. intros i x _.
      unfold exchange. repeat case_decide; by subst. }
    destruct (two_in xs p q Hne Hp Hq) as (A & B & C & c & d & -> & Hor).
    rewrite (exchange_swap A B C p q c d) by (done || apply H).
    destruct (swap_ok h l A B C c d p q H Hor) as (h' & l' & ? & ? & O).
    exists h', l'. split; [done|]. split; [done|]. eapply only_mono; [exact O|set_solver].
Qed.

Lemma run_ops_ok (os : list op) (h : store) (l : dlist) (xs ys : list nat) :
  rep h l xs -> Forall (fun o => subject o ∈ dom h) os -> spec_ops xs os = Some ys ->
  exists h' l', run_ops h l os = Some (h', l') /\ rep h' l' ys /\
    only (map subject os ++ xs) h h'.
Proof.
  revert h l xs. induction os as [|o os IH]; intros h l xs H Hd Hs; cbn [spec_ops run_ops] in *.
  { injection Hs as <-. by exists h, l. }
  apply list.Forall_cons in Hd as [Ho Hd].
  destruct (spec_op xs o) as [xs'|] eqn:E; [|done]. cbn [mbind option_bind] in Hs.
  destruct (run_op_ok h l xs xs' o H Ho E) as (h1 & l1 & -> & H1 & O1).
  cbn [mbind option_bind].
  destruct (IH h1 l1 xs' H1) as (h2 & l2 & -> & H2 & O2); [by rewrite (proj2 O1)|done|].
  exists h2, l2. split; [done|]. split; [done|]. eapply only_trans; [exact O1|exact O2|].
  assert (forall y, y ∈ xs' -> y ∈ subject o :: xs) as Hin.
  { clear -E. destruct o; cbn [spec_op subject] in *; try (case_decide as Hx; [done|]);
      repeat match goal with
      | E : context [cut ?a ?l] |- _ =>
          let C := fresh "C" in destruct (cut a l) as [[? ?]|] eqn:C; [|done];
          apply cut_Some in C; subst l
      end; try (injection E as <-; set_solver).
    case_decide as Hx; [|done]. injection E as <-. intros y.
    rewrite list_elem_of_fmap. intros (x & -> & Hi). unfold exchange.
    repeat case_decide; set_solver. }
  cbn [map]. intros y. rewrite !elem_of_cons, !elem_of_app, !elem_of_cons.
  intros [[?|?]|[?|?%Hin]]; set_solver.
Qed.

(** ** Finding *)

Lemma find_delete_unlink (pred : nat -> bool) (h : store) (l : dlist) :
  dlist_find_delete pred h l =
  r ← dlist_find pred h l;
  match r with
  | None => Some (None, h, l)
  | Some p => '(h, l) ← unlink h l p; Some (Some p, h, l)
  end.
Proof.
  unfold dlist_find_delete, dlist_find, unlink.
  destruct (dlist_foreach pred h (head l) (S (size h))) as [[p|]|]; [|done..].
  cbn [mbind option_bind]. destruct (h !! p) as [n|]; [|done]. cbn [mbind option_bind].
  destruct (match prev n with Some _ => _ | None => _ end) as [[h1 l1]|]; [|done].
  cbn [mbind option_bind]. destruct (h1 !! p) as [n1|]; [|done]. cbn [mbind option_bind].
  destruct (match next n1 with Some _ => _ | None => _ end) as [[h2 l2]|]; [|done].
  cbn [mbind option_bind]. destruct (set_next h2 (Some p) None) as [h3|]; [|done].
  cbn [mbind option_bind]. by destruct (set_prev h3 (Some p) None).
Qed.

Lemma find_list_ok (pred : nat -> bool) (h : store) (l : dlist) (xs : list nat) :
  rep h l xs -> dlist_find pred h l = Some (List.find pred xs).
Proof.
  intros H. unfold dlist_find. rewrite (rep_head _ _ _ H).
  apply foreach_ok; [apply H|]. pose proof (rep_size _ _ _ H). lia.
Qed.

Lemma find_split (pred : nat -> bool) (xs : list nat) (p : nat) :
  List.find pred xs = Some p ->
  exists A B, xs = A ++ p :: B /\ pred p = true /\ Forall (fun x => pred x = false) A.
Proof.
  induction xs as [|x xs IH]; simpl; [done|]. destruct (pred x) eqn:E.
  - intros [= ->]. by exists [], xs.
  - intros (A & B & -> & Hp & HA)%IH. exists (x :: A), B. eauto.
Qed.

(** * Theorems *)

(** C3: every sequence of [dlist_push], [dlist_unshift], [dlist_add_after],
    [dlist_add_before], [dlist_remove] and [dlist_swap] that the sequence of
    nodes allows - what is put in is not in yet, what is named is in - runs
    without following a bad pointer and leaves the list with the sequence of
    nodes the operations describe; the links agree in both directions, no node
    appears in the store or leaves it, and a second list that shares no node
    with this one and with the operations is not touched. *)
Theorem dlist_refines_sequence (os : list op) (h : store) (l l2 : dlist)
    (xs ys zs : list nat) :
  rep h l xs -> Forall (fun o => subject o ∈ dom h) os -> spec_ops xs os = Some ys ->
  rep h l2 zs -> (forall z, z ∈ zs -> z ∉ xs /\ z ∉ map subject os) ->
  exists h' l', run_ops h l os = Some (h', l') /\ rep h' l' ys /\ dom h' = dom h /\
    rep h' l2 zs.
Proof.
  intros H Hd Hs H2 Hz. destruct (run_ops_ok os h l xs ys H Hd Hs) as (h' & l' & E & R & O).
  exists h', l'. split; [done|]. split; [done|]. split; [apply O|].
  apply (rep_frame _ _ _ _ _ H2 O). intros x Hx. destruct (Hz x Hx). set_solver.
Qed.

Definition dlist_cells : store :=
  list_to_map (map (fun a => (a, Node None None)) (seq 0 6)).

Definition dlist_script : list op :=
  [Push 1%nat; Unshift 0%nat; AddAfter 2%nat 1%nat; AddBefore 3%nat 1%nat; AddAfter 5%nat 0%nat;
   Swap 0%nat 1%nat; Remove 3%nat; Swap 0%nat 5%nat].

Lemma dlist_refines_sequence_witness :
  spec_ops [] dlist_script = Some [1%nat; 0%nat; 5%nat; 2%nat] /\
  exists h' l', run_ops dlist_cells dlist_init dlist_script = Some (h', l') /\
    rep h' l' [1%nat; 0%nat; 5%nat; 2%nat] /\ dom h' = dom dlist_cells /\
    rep h' dlist_init [].
Proof.
  split; [by vm_compute|].
  apply (dlist_refines_sequence dlist_script dlist_cells dlist_init dlist_init [] _ []).
  - by constructor; [apply NoDup_nil_2|..].
  - repeat constructor; apply elem_of_dom; by eexists.
  - by vm_compute.
  - by constructor; [apply NoDup_nil_2|..].
  - by intros z ?%not_elem_of_nil.
Defined.

(** [dlist_find] ends and returns the first node of the list that satisfies
    the predicate, the null pointer if there is none; [dlist_find_delete]
    returns the same node, unlinks it from the list and clears its links, and
    changes nothing when there is none; [dlist_length] is the number of nodes. *)
Theorem dlist_find_delete_correct (pred : nat -> bool) (h : store) (l : dlist)
    (xs : list nat) (H : rep h l xs) :
  dlist_find pred h l = Some (List.find pred xs) /\
  match List.find pred xs with
  | None => Forall (fun x => pred x = false) xs /\
            dlist_find_delete pred h l = Some (None, h, l)
  | Some p => exists A B h' l', xs = A ++ p :: B /\ pred p = true /\
      Forall (fun x => pred x = false) A /\
      dlist_find_delete pred h l = Some (Some p, h', l') /\
      rep h' l' (A ++ B) /\ h' !! p = Some (Node None None) /\ only xs h h'
  end /\
  (Z.of_nat (length xs) < 2 ^ 64 -> dlist_length h l = Some (Z.of_nat (length xs))).
Proof.
  pose proof (find_list_ok pred _ _ _ H) as Hf. split; [done|]. split.
  - rewrite find_delete_unlink, Hf. cbn [mbind option_bind].
    destruct (List.find pred xs) as [p|] eqn:E.
    + apply find_split in E as (A & B & -> & Hp & HA).
      destruct (unlink_ok _ _ _ _ _ H) as (h' & l' & -> & R & C & O).
      by exists A, B, h', l'.
    + split; [|done]. apply list.Forall_forall. intros x Hx%list_elem_of_In.
      by apply (List.find_none _ _ E).
  - intros Hb. unfold dlist_length. rewrite (rep_head _ _ _ H).
    rewrite length_ok; [f_equal; lia|apply H| |lia|lia].
    pose proof (rep_size _ _ _ H). lia.
Qed.

Lemma dlist_find_delete_correct_witness :
  exists h l, run_ops dlist_cells dlist_init [Push 4%nat; Push 2%nat; Push 3%nat] = Some (h, l) /\
    dlist_find (Nat.ltb 2) h l = Some (Some 4%nat) /\
    dlist_length h l = Some 3.
Proof.
  destruct (run_ops_ok [Push 4%nat; Push 2%nat; Push 3%nat] dlist_cells dlist_init []
    [4%nat; 2%nat; 3%nat]) as (h & l & E & R & _).
  - by constructor; [apply NoDup_nil_2|..].
  - repeat constructor; apply elem_of_dom; by eexists.
  - by vm_compute.
  - destruct (dlist_find_delete_correct (Nat.ltb 2) h l _ R) as (Hf & _ & Hl).
    exists h, l. split; [done|]. split; [by rewrite Hf|]. by apply Hl.
Defined.

(** [dlist_move_head] and [dlist_move_tail] join two lists of one store that
    share no node, the moved one in front or behind, and leave it empty; empty
    lists on either side included.  A third list is not touched. *)
Theorem dlist_move_correct (h : store) (from to other : dlist) (xs ys zs : list nat)
    (Hf : rep h from xs) (Ht : rep h to ys) (Ho : rep h other zs)
    (Hd : NoDup (xs ++ ys)) (Hz : forall z, z ∈ zs -> z ∉ xs ++ ys) :
  (exists h' to', dlist_move_head h from to = Some (h', dlist_init, to') /\
    rep h' dlist_init [] /\ rep h' to' (xs ++ ys) /\ rep h' other zs) /\
  (exists h' to', dlist_move_tail h from to = Some (h', dlist_init, to') /\
    rep h' dlist_init [] /\ rep h' to' (ys ++ xs) /\ rep h' other zs).
Proof.
  assert (forall h', rep h' dlist_init []) as Hnil by (by constructor; [apply NoDup_nil_2|..]).
  split.
  - destruct (move_head_ok h from to xs ys Hf Ht Hd) as (h' & to' & E & R & O).
    exists h', to'. split; [done|]. split; [done|]. split; [done|].
    by apply (rep_frame _ _ _ _ _ Ho O).
  - assert (NoDup (ys ++ xs)) as Hd' by (by rewrite (Permutation_app_comm ys xs)).
    destruct (move_tail_ok h from to xs ys Hf Ht Hd') as (h' & to' & E & R & O).
    exists h', to'. split; [done|]. split; [done|]. split; [done|].
    apply (rep_frame _ _ _ _ _ Ho O). intros x Hx. rewrite (Permutation_app_comm ys xs). auto.
Qed.

Lemma dlist_move_correct_witness :
  let h : store := <[1%nat := Node None (Some 2%nat)]> (<[2%nat := Node (Some 1%nat) None]>
    (<[3%nat := Node None None]> (<[4%nat := Node None None]> ∅))) in
  exists h' to', dlist_move_head h (Dlist (Some 1%nat) (Some 2%nat))
      (Dlist (Some 3%nat) (Some 3%nat)) = Some (h', dlist_init, to') /\
    rep h' dlist_init [] /\ rep h' to' [1%nat; 2%nat; 3%nat] /\
    rep h' (Dlist (Some 4%nat) (Some 4%nat)) [4%nat].
Proof.
  intros h. refine (proj1 (dlist_move_correct h _ _ _ [1%nat; 2%nat] [3%nat] [4%nat] _ _ _ _ _)).
  1-3: constructor; vm_compute; repeat split; repeat constructor; set_solver.
  - repeat constructor; set_solver.
  - set_solver.
Defined.
