(* ===== verification/Memory.v ===== *)
(** Dynamic memory: what the growing buffers of the library ask of [malloc],
    [realloc] and [free].  Blocks are objects with an identity, so that a copy
    that overlaps its source, a pointer into a block that [realloc] moved, a
    double [free] and a leak can all be told; [None] is undefined behaviour. *)
From S2P Require Import Prelude ByteOps.

(** * Data *)

(** The answers [malloc] and [realloc] give to successive requests (behind
    them requests succeed), the live blocks, the name of the next block and the
    content of memory nobody has written yet. *)
Record mem : Type := Mem {
  answers : list bool;
  blocks : gmap nat (list Z);
  fresh_block : nat;
  junk : nat -> Z
}.

(** A pointer that is read through: into a block, or to an object that is
    not on the heap. *)
Inductive ptr : Type :=
  | Blk (b off : nat)
  | Const (l : list Z).

(** * The C library *)

Definition answer (m : mem) : bool * mem :=
  match answers m with
  | [] => (true, m)
  | ok :: l => (ok, Mem l (blocks m) (fresh_block m) (junk m))
  end.

Definition put (m : mem) (b : nat) (l : list Z) : mem :=
  Mem (answers m) (<[b:=l]> (blocks m)) (fresh_block m) (junk m).

Definition drop_block (m : mem) (b : nat) : mem :=
  Mem (answers m) (delete b (blocks m)) (fresh_block m) (junk m).

(** A new block with the content [l]. *)
Definition add_block (m : mem) (l : list Z) : mem :=
  Mem (answers m) (<[fresh_block m := l]> (blocks m)) (S (fresh_block m)) (junk m).

Definition malloc (m : mem) (n : Z) : option nat * mem :=
  let '(ok, m) := answer m in
  if (ok : bool)
  then (Some (fresh_block m), add_block m (map (junk m) (seq 0 (Z.to_nat n))))
  else (None, m).

(** [realloc] may always move the block; the bytes behind the old ones are
    indeterminate.  Of size 0 it frees the block, as the GNU library does. *)
Definition realloc (m : mem) (p : option nat) (n : Z) : option (option nat * mem) :=
  match p with
  | None => Some (malloc m n)
  | Some b =>
      l ← blocks m !! b;
      if n =? 0 then Some (None, drop_block m b) else
      let '(ok, m) := answer m in
      if (ok : bool) then
        let k := Z.to_nat n in
        Some (Some (fresh_block m),
              drop_block (add_block m (take k (l ++ map (junk m) (seq (length l) k)))) b)
      else Some (None, m)
  end.

Definition free (m : mem) (p : option nat) : option mem :=
  match p with
  | None => Some m
  | Some b => _ ← blocks m !! b; Some (drop_block m b)
  end.

(** * Access *)

(** The bytes from the pointer to the end of its object. *)
Definition view (m : mem) (p : ptr) : option (list Z) :=
  match p with
  | Const l => Some l
  | Blk b off => drop off <$> blocks m !! b
  end.

(** The source of a copy into the block [b]. *)
Definition source (m : mem) (b : nat) (p : ptr) : option cptr :=
  match p with
  | Const l => Some (There l)
  | Blk b' off =>
      if decide (b' = b) then Some (Here off)
      else l ← blocks m !! b'; Some (There (drop off l))
  end.

(** A routine of [lib/byte/] that writes, on the block [b]. *)
Definition on_block (m : mem) (b : nat) (f : list Z -> option (list Z)) : option mem :=
  l ← blocks m !! b; l ← f l; Some (put m b l).

Definition mcopy (m : mem) (b off : nat) (n : Z) (p : ptr) : option mem :=
  c ← source m b p; on_block m b (fun l => byte_copy l off (Z.to_nat n) c).

Definition mcopyr (m : mem) (b off : nat) (n : Z) (p : ptr) : option mem :=
  c ← source m b p; on_block m b (fun l => byte_copyr l off (Z.to_nat n) c).

Definition mstore (m : mem) (b off : nat) (v : Z) : option mem :=
  on_block m b (fun l => store l off v).

(** * Lemmas *)

(** The blocks that have a name are older than the next one. *)
Definition mwf (m : mem) : Prop := forall b, b ∈ dom (blocks m) -> (b < fresh_block m)%nat.

(** All blocks but [p]. *)
Definition rest (m : mem) (p : option nat) : gmap nat (list Z) :=
  match p with Some b => delete b (blocks m) | None => blocks m end.

Lemma answer_ok (m m' : mem) (ok : bool) :
  answer m = (ok, m') ->
  blocks m' = blocks m /\ fresh_block m' = fresh_block m /\ junk m' = junk m /\
  (ok = false -> false ∈ answers m) /\ (forall x, x ∈ answers m' -> x ∈ answers m).
Proof.
  unfold answer. destruct m as [[|x l] bs fr j]; cbn [answers blocks fresh_block junk].
  - by intros [= <- <-].
  - intros [= -> <-]. cbn [answers blocks fresh_block junk]. repeat split; intros; subst; set_solver.
Qed.

Lemma mwf_fresh (m : mem) : mwf m -> blocks m !! fresh_block m = None.
Proof.
  intros H. apply not_elem_of_dom. intros Hin%H. lia.
Qed.

Lemma mwf_add (m : mem) (l : list Z) : mwf m -> mwf (add_block m l).
Proof.
  intros H b. cbn. rewrite dom_insert, elem_of_union, elem_of_singleton.
  intros [->|?%H]; lia.
Qed.

Lemma mwf_sub (m m' : mem) :
  mwf m -> dom (blocks m') ⊆ dom (blocks m) -> (fresh_block m <= fresh_block m')%nat -> mwf m'.
Proof. intros H Hd Hf b Hb. apply Hd, H in Hb. lia. Qed.

Lemma mwf_put (m : mem) (b : nat) (l : list Z) :
  mwf m -> is_Some (blocks m !! b) -> mwf (put m b l).
Proof.
  intros H Hb. eapply mwf_sub; [exact H| |done]. cbn.
  by rewrite dom_insert_lookup.
Qed.

(** What a request gives. *)
Record grown (m m' : mem) (p : option nat) (b : nat) : Prop := Grown {
  grown_wf : mwf m';
  grown_rest : rest m' (Some b) = rest m p;
  grown_new : blocks m !! b = None;
  grown_answers : forall x, x ∈ answers m' -> x ∈ answers m
}.

(** A refused request. *)
Definition refused (m m' : mem) : Prop :=
  false ∈ answers m /\ mwf m' /\ blocks m' = blocks m /\
  (forall x, x ∈ answers m' -> x ∈ answers m).

Lemma malloc_ok (m : mem) (n : Z) :
  mwf m ->
  (exists b m' l, malloc m n = (Some b, m') /\ grown m m' None b /\
    blocks m' !! b = Some l /\ length l = Z.to_nat n) \/
  exists m', malloc m n = (None, m') /\ refused m m'.
Proof.
  intros Hm. unfold malloc. destruct (answer m) as [ok m1] eqn:E.
  apply answer_ok in E as (Eb & Ef & Ej & Hf & Ha).
  assert (mwf m1) as Hm1 by (eapply mwf_sub; [exact Hm|by rewrite Eb|lia]).
  destruct ok; [left|right].
  - eexists _, _, _. split; [done|]. split.
    + split; [by apply mwf_add| | |exact Ha].
      * cbn. rewrite <- Eb. apply delete_insert_id. by apply mwf_fresh.
      * rewrite Ef. by apply mwf_fresh.
    + cbn. rewrite lookup_insert_eq. split; [done|]. by rewrite length_map, length_seq.
  - exists m1. split; [done|]. repeat split; auto.
Qed.

Lemma realloc_ok (m : mem) (b : nat) (l : list Z) (n : Z) :
  mwf m -> blocks m !! b = Some l -> 0 < n ->
  (exists b' m' l', realloc m (Some b) n = Some (Some b', m') /\ grown m m' (Some b) b' /\
    blocks m' !! b' = Some l' /\ length l' = Z.to_nat n /\
    take (length l) l' = take (Z.to_nat n) l) \/
  exists m', realloc m (Some b) n = Some (None, m') /\ refused m m'.
Proof.
  intros Hm Hb Hn. unfold realloc. rewrite Hb. cbn [mbind option_bind].
  zfalse (n =? 0). destruct (answer m) as [ok m1] eqn:E.
  apply answer_ok in E as (Eb & Ef & Ej & Hf & Ha).
  assert (mwf m1) as Hm1 by (eapply mwf_sub; [exact Hm|by rewrite Eb|lia]).
  assert (b < fresh_block m1)%nat as Hlt.
  { apply Hm1. rewrite Eb. apply elem_of_dom. by eexists. }
  destruct ok; [left|right; exists m1; repeat split; auto].
  eexists _, _, _. split; [done|]. split; [split|].
  - intros c. cbn. rewrite dom_delete, dom_insert, elem_of_difference, elem_of_union,
      elem_of_singleton. intros [[->|?%Hm1] _]; lia.
  - cbn. rewrite <- Eb, delete_delete. f_equal. apply delete_insert_id. by apply mwf_fresh.
  - rewrite Ef. by apply mwf_fresh.
  - exact Ha.
  - cbn. rewrite lookup_delete_ne, lookup_insert_eq by lia. split; [done|]. split.
    + rewrite length_take, length_app, length_map, length_seq. lia.
    + rewrite take_take, Nat.min_comm, <- take_take, take_app_length. done.
Qed.
