(* ===== verification/Stralloc.v ===== *)
(** The growing strings of [lib/stralloc/].  A [stralloc] is a pointer to a
    block of Memory.v, the length used and the length allocated; the bytes
    behind the length used are indeterminate.  A source string is a pointer,
    which may lead into the block the operation is about to move.  The [int]
    results that say whether memory was found are [bool]s.  [None] is undefined
    behaviour. *)
From S2P Require Import Prelude ByteOps StrOps Digits FmtNum Memory.

(** * Data *)

Record stralloc : Type := SA { sa_s : option nat; sa_len : Z; sa_a : Z }.

(** What most operations give: success, the memory, the string. *)
Abbreviation result := (option (bool * mem * stralloc)).

(** [sa->s] as a pointer to read through, and as an object. *)
Definition sa_ptr (sa : stralloc) : ptr :=
  match sa_s sa with Some b => Blk b 0 | None => Const [] end.
Definition sa_view (m : mem) (sa : stralloc) : option (list Z) := view m (sa_ptr sa).

Definition ptr_len (m : mem) (p : ptr) : option Z :=
  l ← view m p; n ← str_len l; Some (Z.of_nat n).

(** * Memory *)

Definition stralloc_init : stralloc := SA None 0 0.

(** With [a == 0] and [s] set - a string that is not on the heap - the code
    copies [len] bytes, the length asked for, from [s]. *)
Definition stralloc_ready (m : mem) (sa : stralloc) (len : Z) : result :=
  let wanted := u64 (len + Z.shiftr len 3 + 30) in
  if bool_decide (is_Some (sa_s sa)) && (len <=? sa_a sa) then Some (true, m, sa)
  else if (sa_a sa =? 0) || negb (bool_decide (is_Some (sa_s sa))) then
    let '(tmp, m) := malloc m wanted in
    match tmp with
    | None => Some (false, m, sa)
    | Some b =>
        m ← match sa_s sa with
            | Some _ => mcopy m b 0 len (sa_ptr sa)
            | None => on_block m b (fun l => byte_zero l 0 (Z.to_nat wanted))
            end;
        Some (true, m, SA (Some b) (sa_len sa) wanted)
    end
  else
    '(tmp, m) ← realloc m (sa_s sa) wanted;
    match tmp with
    | None => Some (false, m, sa)
    | Some b => Some (true, m, SA (Some b) (sa_len sa) wanted)
    end.

Definition stralloc_readyplus (m : mem) (sa : stralloc) (len : Z) : result :=
  match sa_s sa with
  | Some _ =>
      if u64 (sa_len sa + len) <? len then Some (false, m, sa)
      else stralloc_ready m sa (u64 (sa_len sa + len))
  | None => stralloc_ready m sa len
  end.

(** [errno] aside; a refused [realloc] overwrites [s]. *)
Definition stralloc_ready_tuned (m : mem) (sa : stralloc) (n base a b : Z) : result :=
  if b =? 0 then Some (false, m, sa) else
  let t := u64 (n + base + u64 (a * n) / b) in
  if t <? n then Some (false, m, sa) else
  match sa_s sa with
  | None =>
      let '(s, m) := malloc m t in
      match s with
      | None => Some (false, m, SA None (sa_len sa) (sa_a sa))
      | Some _ => Some (true, m, SA s (sa_len sa) t)
      end
  | Some _ =>
      if sa_a sa <? n then
        '(s, m) ← realloc m (sa_s sa) t;
        match s with
        | None => Some (false, m, SA None (sa_len sa) (sa_a sa))
        | Some _ => Some (true, m, SA s (sa_len sa) t)
        end
      else Some (true, m, sa)
  end.

(** [s] alone is reset, [len] and [a] stay. *)
Definition stralloc_free (m : mem) (sa : stralloc) : option (mem * stralloc) :=
  m ← match sa_s sa with
      | Some _ => if sa_a sa =? 0 then Some m else free m (sa_s sa)
      | None => Some m
      end;
  Some (m, SA None (sa_len sa) (sa_a sa)).

Definition stralloc_zero (sa : stralloc) : stralloc := SA (sa_s sa) 0 (sa_a sa).

(** [a] is not updated. *)
Definition stralloc_trunc (m : mem) (sa : stralloc) (n : Z) : result :=
  '(s, m) ← realloc m (sa_s sa) (u64 (n + 1));
  match s with
  | Some b => m ← mstore m b (Z.to_nat n) 0; Some (true, m, SA s n (sa_a sa))
  | None => Some (false, m, SA None (sa_len sa) (sa_a sa))
  end.

Definition stralloc_shrink (m : mem) (sa : stralloc) : result :=
  if sa_len sa <? sa_a sa then
    '(s, m) ← realloc m (sa_s sa) (sa_len sa);
    match s with
    | None => Some (false, m, SA None (sa_len sa) (sa_a sa))
    | Some _ => Some (true, m, SA s (sa_len sa) (sa_len sa))
    end
  else Some (true, m, sa).

(** The block, its length and what is left of the string. *)
Definition stralloc_moveb (from : stralloc) : option nat * Z * stralloc :=
  (sa_s from, sa_len from, stralloc_init).

(** [to] and [from] afterwards. *)
Definition stralloc_move (m : mem) (to from : stralloc)
  : option (mem * stralloc * stralloc) :=
  let to := if sa_a to =? 0 then SA None (sa_len to) (sa_a to) else to in
  '(m, _) ← stralloc_free m to;
  Some (m, SA (sa_s from) (sa_len from) (sa_a from), stralloc_init).

(** * Copying and appending *)

Definition stralloc_copyb (m : mem) (sa : stralloc) (buf : ptr) (len : Z) : result :=
  '(ok, m, sa) ← stralloc_ready m sa len;
  if (ok : bool) then
    b ← sa_s sa;
    m ← mcopy m b 0 len buf;
    Some (true, m, SA (sa_s sa) len (sa_a sa))
  else Some (false, m, sa).

Definition stralloc_copy (m : mem) (sa sa2 : stralloc) : result :=
  stralloc_copyb m sa (sa_ptr sa2) (sa_len sa2).

Definition stralloc_copys (m : mem) (sa : stralloc) (buf : ptr) : result :=
  n ← ptr_len m buf; stralloc_copyb m sa buf n.

Definition stralloc_catb (m : mem) (sa : stralloc) (buf : ptr) (len : Z) : result :=
  '(ok, m, sa) ← stralloc_readyplus m sa len;
  if (ok : bool) then
    b ← sa_s sa;
    m ← mcopy m b (Z.to_nat (sa_len sa)) len buf;
    Some (true, m, SA (sa_s sa) (u64 (sa_len sa + len)) (sa_a sa))
  else Some (false, m, sa).

Definition stralloc_cat (m : mem) (sa sa2 : stralloc) : result :=
  stralloc_catb m sa (sa_ptr sa2) (sa_len sa2).

Definition stralloc_cats (m : mem) (sa : stralloc) (buf : ptr) : result :=
  n ← ptr_len m buf; stralloc_catb m sa buf n.

(** The strings of [stralloc_catm] in turn, the first refusal ends. *)
Fixpoint stralloc_catm_loop (m : mem) (sa : stralloc) (l : list ptr) : result :=
  match l with
  | [] => Some (true, m, sa)
  | p :: l =>
      '(ok, m, sa) ← stralloc_cats m sa p;
      if (ok : bool) then stralloc_catm_loop m sa l else Some (false, m, sa)
  end.

Definition stralloc_catm_internal (m : mem) (sa : stralloc) (l : list ptr) : result :=
  ns ← mapM (ptr_len m) l;
  '(_, m, sa) ← stralloc_readyplus m sa (u64 (foldr Z.add 0 ns));
  stralloc_catm_loop m sa l.

(** A byte behind the string: [sa->s[sa->len] = c]. *)
Definition sa_store_end (m : mem) (sa : stralloc) (c : Z) : option mem :=
  b ← sa_s sa; mstore m b (Z.to_nat (sa_len sa)) c.

Definition stralloc_catc (m : mem) (sa : stralloc) (c : Z) : result :=
  '(ok, m, sa) ← stralloc_ready m sa (u64 (sa_len sa + 1));
  if (ok : bool) then
    m ← sa_store_end m sa c;
    Some (true, m, SA (sa_s sa) (u64 (sa_len sa + 1)) (sa_a sa))
  else Some (false, m, sa).

Definition stralloc_append (m : mem) (sa : stralloc) (p : ptr) : result :=
  '(ok, m, sa) ← stralloc_readyplus m sa 1;
  if (ok : bool) then
    l ← view m p; c ← load l 0;
    m ← sa_store_end m sa c;
    Some (true, m, SA (sa_s sa) (u64 (sa_len sa + 1)) (sa_a sa))
  else Some (false, m, sa).

Definition stralloc_0 (m : mem) (sa : stralloc) : result :=
  stralloc_append m sa (Const [0]).

Definition stralloc_nul (m : mem) (sa : stralloc) : result :=
  '(ok, m, sa) ← stralloc_readyplus m sa 1;
  if (ok : bool) then m ← sa_store_end m sa 0; Some (true, m, sa)
  else Some (false, m, sa).

(** The text of a number, as a formatter of [lib/fmt/] writes it, behind the
    string. *)
Definition sa_put (m : mem) (sa : stralloc) (text : list Z) (n : Z)
  : option (mem * stralloc) :=
  b ← sa_s sa;
  m ← mcopy m b (Z.to_nat (sa_len sa)) (Z.of_nat (length text)) (Const text);
  Some (m, SA (sa_s sa) (u64 (sa_len sa + n)) (sa_a sa)).

Definition stralloc_catulong0 (m : mem) (sa : stralloc) (i : Z) (n : nat) : result :=
  '(ok, m, sa) ← stralloc_readyplus m sa (Z.of_nat (snd (fmt_ulong0 false i n)));
  if (ok : bool) then
    let '(text, k) := fmt_ulong0 true i n in
    '(m, sa) ← sa_put m sa text (Z.of_nat k); Some (true, m, sa)
  else Some (false, m, sa).

Definition stralloc_catulong (m : mem) (sa : stralloc) (ul : Z) : result :=
  stralloc_catulong0 m sa ul 0.

(** [fmt_minus] takes an [int]: the sign is that of the lower half of the number. *)
Definition stralloc_catlong0 (m : mem) (sa : stralloc) (i : Z) (n : nat) : result :=
  '(ok, m, sa) ← stralloc_readyplus m sa
    (u64 (Z.of_nat (snd (fmt_minus false (s32 i))) + Z.of_nat (snd (fmt_ulong0 false (u64 i) n))));
  if (ok : bool) then
    let '(sign, k) := fmt_minus true (s32 i) in
    '(m, sa) ← sa_put m sa sign (Z.of_nat k);
    j ← (if 0 <=? i then Some i else chk64 (- i));
    let '(text, k) := fmt_ulong0 true (u64 j) n in
    '(m, sa) ← sa_put m sa text (Z.of_nat k); Some (true, m, sa)
  else Some (false, m, sa).

Definition stralloc_catxlong (m : mem) (sa : stralloc) (u : Z) : result :=
  let i := snd (fmt_xlong false u) in
  '(ok, m, sa) ← stralloc_readyplus m sa (Z.of_nat i);
  if (ok : bool) then
    '(m, sa) ← sa_put m sa (fst (fmt_xlong true u)) (Z.of_nat i); Some (true, m, sa)
  else Some (false, m, sa).

Definition stralloc_cathexb (m : mem) (sa : stralloc) (d : list Z) (n : nat) : result :=
  let len := u32 (Z.shiftl (Z.of_nat n) 1) in
  '(ok, m, sa) ← stralloc_readyplus m sa len;
  if (ok : bool) then
    '(text, _) ← fmt_hexb true d n;
    '(m, sa) ← sa_put m sa text len; Some (true, m, sa)
  else Some (false, m, sa).

(** * Changing *)

Definition stralloc_insertb (m : mem) (sa : stralloc) (s : ptr) (pos n : Z) : result :=
  if sa_len sa <=? pos then stralloc_catb m sa s n else
  '(ok, m, sa) ← stralloc_readyplus m sa n;
  if (ok : bool) then
    b ← sa_s sa;
    m ← mcopyr m b (Z.to_nat (pos + n)) (sa_len sa - pos) (Blk b (Z.to_nat pos));
    m ← mcopy m b (Z.to_nat pos) n s;
    Some (true, m, SA (sa_s sa) (u64 (sa_len sa + n)) (sa_a sa))
  else Some (false, m, sa).

Definition stralloc_insert (m : mem) (sa other : stralloc) (pos : Z) : result :=
  stralloc_insertb m sa (sa_ptr other) pos (sa_len other).

Definition stralloc_inserts (m : mem) (sa : stralloc) (s : ptr) (pos : Z) : result :=
  n ← ptr_len m s; stralloc_insertb m sa s pos n.

Definition stralloc_prependb (m : mem) (sa : stralloc) (s : ptr) (n : Z) : result :=
  stralloc_insertb m sa s 0 n.

Definition stralloc_prepend (m : mem) (sa other : stralloc) : result :=
  stralloc_prependb m sa (sa_ptr other) (sa_len other).

Definition stralloc_prepends (m : mem) (sa : stralloc) (s : ptr) : result :=
  n ← ptr_len m s; stralloc_prependb m sa s n.

(** The number of bytes removed, [(size_t)-1] for a bad position. *)
Definition stralloc_remove (m : mem) (sa : stralloc) (pos n : Z)
  : option (Z * mem * stralloc) :=
  if sa_len sa <? u64 (pos + 1) then Some (u64 (-1), m, sa)
  else if sa_len sa <=? u64 (pos + n) then
    Some (sa_len sa - pos, m, SA (sa_s sa) pos (sa_a sa))
  else
    b ← sa_s sa;
    m ← mcopy m b (Z.to_nat pos) (sa_len sa - u64 (pos + n)) (Blk b (Z.to_nat (pos + n)));
    Some (n, m, SA (sa_s sa) (sa_len sa - n) (sa_a sa)).

(** [t] bytes kept so far, [x] the place read. *)
Fixpoint remove_all_loop (l : list Z) (x t i : nat) (del : list Z) (dlen : nat)
  : option (list Z * nat) :=
  match i with
  | O => Some (l, t)
  | S i' =>
      c ← load l x;
      k ← byte_chr del dlen c;
      if (k =? dlen)%nat then
        l ← store l t c; remove_all_loop l (S x) (S t) i' del dlen
      else remove_all_loop l (S x) t i' del dlen
  end.

Definition stralloc_remove_all (m : mem) (sa : stralloc) (del : list Z) (dlen : nat)
  : option (mem * stralloc) :=
  match sa_s sa with
  | None => Some (m, sa)
  | Some b =>
      l ← blocks m !! b;
      '(l, t) ← remove_all_loop l 0 0 (Z.to_nat (sa_len sa)) del dlen;
      Some (put m b l, SA (sa_s sa) (Z.of_nat t) (sa_a sa))
  end.

(** The end that [stralloc_replace] and [stralloc_replaces] share: the [n]
    bytes behind the [flen] bytes at [p] move, [to] takes their place. *)
Definition sa_gap (m : mem) (sa : stralloc) (b : nat) (p flen n : Z) (to : ptr) (tlen : Z)
  : option (mem * stralloc) :=
  '(m, sa) ← (if flen <? tlen then
                m ← mcopyr m b (Z.to_nat (p + tlen)) n (Blk b (Z.to_nat (p + flen)));
                Some (m, SA (sa_s sa) (u64 (sa_len sa + (tlen - flen))) (sa_a sa))
              else if tlen <? flen then
                m ← mcopy m b (Z.to_nat (p + tlen)) n (Blk b (Z.to_nat (p + flen)));
                Some (m, SA (sa_s sa) (u64 (sa_len sa - (flen - tlen))) (sa_a sa))
              else Some (m, sa));
  m ← (if tlen =? 0 then Some m else mcopy m b (Z.to_nat p) tlen to);
  Some (m, sa).

(** A failing [assert] ends the program. *)
Definition stralloc_replace (m : mem) (sa : stralloc) (pos len : Z) (to : ptr) (tolen : Z)
  : result :=
  if sa_len sa <? u64 (pos + len) then None else
  '(ok, m, sa) ← (if len <? tolen then stralloc_readyplus m sa (tolen - len)
                  else Some (true, m, sa));
  if (ok : bool) then
    b ← sa_s sa;
    let n := u64 (sa_len sa - pos) in
    '(m, sa) ← sa_gap m sa b pos len (u64 (n - len)) to tolen;
    Some (true, m, sa)
  else Some (false, m, sa).

(** Every occurrence of [from] from [p] on; the fuel counts the rounds. *)
Fixpoint replaces_loop (m : mem) (sa : stralloc) (p : Z) (from : list Z) (flen : Z)
    (to : list Z) (tlen : Z) (fuel : nat) : result :=
  match fuel with
  | O => None
  | S fuel' =>
      if p <? sa_len sa then
        l ← sa_view m sa;
        i ← byte_findb (drop (Z.to_nat p) l) (Z.to_nat (sa_len sa - p)) from (Z.to_nat flen);
        let p := p + Z.of_nat i in
        if p =? sa_len sa then Some (true, m, sa) else
        '(ok, m, sa) ← (if flen <? tlen then stralloc_readyplus m sa (tlen - flen)
                        else Some (true, m, sa));
        if (ok : bool) then
          b ← sa_s sa;
          '(m, sa) ← sa_gap m sa b p flen (u64 (sa_len sa - p - flen)) (Const to) tlen;
          replaces_loop m sa (p + tlen) from flen to tlen fuel'
        else Some (false, m, sa)
      else Some (true, m, sa)
  end.

Definition stralloc_replaces (m : mem) (sa : stralloc) (from to : list Z) (fuel : nat)
  : result :=
  flen ← str_len from;
  tlen ← str_len to;
  replaces_loop m sa 0 from (Z.of_nat flen) to (Z.of_nat tlen) fuel.

(** An in-place routine of [lib/byte/] on the bytes used. *)
Definition sa_bytes (m : mem) (sa : stralloc) (f : list Z -> nat -> option (list Z))
  : option mem :=
  match sa_s sa with
  | Some b => on_block m b (fun l => f l (Z.to_nat (sa_len sa)))
  | None => _ ← f [] (Z.to_nat (sa_len sa)); Some m
  end.

Definition stralloc_replacec (m : mem) (sa : stralloc) (before after : Z) : option mem :=
  sa_bytes m sa (fun l n => byte_replace l 0 n before after).

Definition stralloc_lower (m : mem) (sa : stralloc) : option mem :=
  sa_bytes m sa (fun l n => byte_lower l 0 n).

Definition stralloc_upper (m : mem) (sa : stralloc) : option mem :=
  sa_bytes m sa (fun l n => byte_upper l 0 n).

(** [k] exchanges to go, of [i] and [len - 1 - i]. *)
Fixpoint reverse_loop (l : list Z) (i len k : nat) : option (list Z) :=
  match k with
  | O => Some l
  | S k' =>
      tmp ← load l i;
      c ← load l (len - 1 - i);
      l ← store l i c;
      l ← store l (len - 1 - i) tmp;
      reverse_loop l (S i) len k'
  end.

Definition stralloc_reverse (m : mem) (sa : stralloc) : option mem :=
  sa_bytes m sa (fun l n => reverse_loop l 0 n (Z.to_nat (Z.shiftr (sa_len sa) 1))).

(** The byte removed, -1 if there is none. *)
Definition stralloc_chop (m : mem) (sa : stralloc) : option (Z * stralloc) :=
  if sa_len sa =? 0 then Some (-1, sa) else
  l ← sa_view m sa;
  c ← load l (Z.to_nat (sa_len sa - 1));
  Some (c, SA (sa_s sa) (sa_len sa - 1) (sa_a sa)).

Definition stralloc_chomp (m : mem) (sa : stralloc) : option (Z * stralloc) :=
  if 0 <? sa_len sa then
    let max := sa_len sa - 1 in
    l ← sa_view m sa;
    x ← load l (Z.to_nat max);
    if (x =? 10) || (x =? 13) then
      two ← (if (x =? 10) && (1 <? max) then
               y ← load l (Z.to_nat (max - 1)); Some (y =? 13)
             else Some false);
      if (two : bool) then Some (2, SA (sa_s sa) (sa_len sa - 2) (sa_a sa))
      else Some (1, SA (sa_s sa) (sa_len sa - 1) (sa_a sa))
    else Some (0, sa)
  else Some (0, sa).

Definition stralloc_trimr (m : mem) (sa : stralloc) (set : list Z) (n : nat)
  : option stralloc :=
  match sa_s sa with
  | None => Some sa
  | Some _ =>
      l ← sa_view m sa;
      k ← byte_trimr l (Z.to_nat (sa_len sa)) set n;
      Some (SA (sa_s sa) (Z.of_nat k) (sa_a sa))
  end.

Definition stralloc_erase (m : mem) (sa : stralloc) : result :=
  '(ok, m, sa) ← stralloc_ready m sa 1;
  if (ok : bool) then
    b ← sa_s sa; m ← mstore m b 0 "Z"%C; Some (true, m, SA (sa_s sa) 0 (sa_a sa))
  else Some (false, m, sa).

(** Appends [b] with [from] replaced to [out]; the fuel counts the rounds. *)
Fixpoint subst_loop (m : mem) (out : stralloc) (b : list Z) (i len : nat)
    (from : list Z) (plen : nat) (to : list Z) (fuel : nat) : result :=
  match fuel with
  | O => None
  | S fuel' =>
      if (i <? len)%nat then
        e ← (if (i + plen <=? len)%nat then byte_equal from plen (drop i b) else Some false);
        if (e : bool) then
          '(ok, m, out) ← stralloc_cats m out (Const to);
          if (ok : bool) then subst_loop m out b (i + plen) len from plen to fuel'
          else Some (false, m, out)
        else
          '(ok, m, out) ← stralloc_append m out (Const (drop i b));
          if (ok : bool) then subst_loop m out b (S i) len from plen to fuel'
          else Some (false, m, out)
      else Some (true, m, out)
  end.

Definition stralloc_subst (m : mem) (out : stralloc) (b : list Z) (len : nat)
    (from to : list Z) (fuel : nat) : result :=
  plen ← str_len from; subst_loop m out b 0 len from plen to fuel.

(** * Asking *)

(** The bytes behind [s] are read directly; [NULL] with length 0 is fine. *)
Definition stralloc_findb (m : mem) (sa : stralloc) (what : list Z) (len : nat) : option nat :=
  l ← sa_view m sa; byte_findb l (Z.to_nat (sa_len sa)) what len.

Definition stralloc_finds (m : mem) (sa : stralloc) (what : list Z) : option nat :=
  n ← str_len what; stralloc_findb m sa what n.

Definition stralloc_find (m : mem) (sa what : stralloc) : option nat :=
  l ← sa_view m what; stralloc_findb m sa l (Z.to_nat (sa_len what)).

Definition stralloc_contains (m : mem) (sa : stralloc) (what : list Z) : option bool :=
  i ← stralloc_finds m sa what; Some (negb (Z.of_nat i =? sa_len sa)).

Definition stralloc_count (m : mem) (sa : stralloc) (c : Z) : option Z :=
  l ← sa_view m sa; byte_count l (Z.to_nat (sa_len sa)) c.

Definition stralloc_chr (m : mem) (sa : stralloc) (c : Z) : option nat :=
  l ← sa_view m sa; byte_chr l (Z.to_nat (sa_len sa)) c.

Definition stralloc_rchr (m : mem) (sa : stralloc) (c : Z) : option nat :=
  l ← sa_view m sa; byte_rchr l (Z.to_nat (sa_len sa)) c.

Definition stralloc_startb (m : mem) (sa : stralloc) (prefix : list Z) (len : Z) : option bool :=
  if len <=? sa_len sa then l ← sa_view m sa; byte_equal l (Z.to_nat len) prefix
  else Some false.

Definition stralloc_start (m : mem) (sa prefix : stralloc) : option bool :=
  let len := sa_len prefix in
  if len <=? sa_len sa then
    l ← sa_view m sa; k ← sa_view m prefix; byte_equal k (Z.to_nat len) l
  else Some false.

Definition stralloc_starts (m : mem) (sa : stralloc) (s : list Z) : option bool :=
  n ← str_len s;
  if Z.of_nat n <=? sa_len sa then
    l ← sa_view m sa; r ← byte_diff l n s; Some (r =? 0)
  else Some false.

Definition stralloc_endb (m : mem) (sa : stralloc) (suffix : list Z) (len : Z) : option bool :=
  if len <=? sa_len sa then
    l ← sa_view m sa; byte_equal (drop (Z.to_nat (sa_len sa - len)) l) (Z.to_nat len) suffix
  else Some false.

Definition stralloc_endsb (m : mem) (sa : stralloc) (x : list Z) (n : Z) : option bool :=
  if n <=? sa_len sa then
    l ← sa_view m sa; byte_equal (drop (Z.to_nat (sa_len sa - n)) l) (Z.to_nat n) x
  else Some false.

Definition stralloc_ends (m : mem) (sa suffix : stralloc) : option bool :=
  l ← sa_view m suffix; stralloc_endsb m sa l (sa_len suffix).

Definition stralloc_removesuffixb (m : mem) (sa : stralloc) (x : list Z) (len : Z)
  : option (bool * stralloc) :=
  if len =? 0 then Some (false, sa) else
  e ← stralloc_endb m sa x len;
  Some (if (e : bool) then (true, SA (sa_s sa) (sa_len sa - len) (sa_a sa)) else (false, sa)).

(** [n] and [k] bytes left. *)
Fixpoint diff_loop (x y : list Z) (n k : nat) {struct n} : option Z :=
  match n, k with
  | O, O => Some 0
  | O, S _ => Some (-1)
  | S _, O => Some 1
  | S n', S k' =>
      match x, y with
      | c :: x', d :: y' =>
          if negb (c - d =? 0) then Some (c - d) else diff_loop x' y' n' k'
      | _, _ => None
      end
  end.

Definition stralloc_diff (m : mem) (sa sb : stralloc) : option Z :=
  x ← sa_view m sa; y ← sa_view m sb;
  diff_loop x y (Z.to_nat (sa_len sa)) (Z.to_nat (sa_len sb)).

Fixpoint diffs_loop (x : list Z) (n : nat) (b : list Z) {struct b} : option Z :=
  match b with
  | [] => None
  | d :: b' =>
      match n with
      | O => Some (if d =? 0 then 0 else -1)
      | S n' =>
          if d =? 0 then Some 1 else
          match x with
          | [] => None
          | c :: x' => if negb (c - d =? 0) then Some (c - d) else diffs_loop x' n' b'
          end
      end
  end.

Definition stralloc_diffs (m : mem) (sa : stralloc) (b : list Z) : option Z :=
  x ← sa_view m sa; diffs_loop x (Z.to_nat (sa_len sa)) b.

(** The lengths are compared as [int]s. *)
Definition stralloc_diffb (m : mem) (sa : stralloc) (d : list Z) (dlen : Z) : option Z :=
  l ← sa_view m sa;
  r ← byte_diff l (Z.to_nat (if dlen <? sa_len sa then dlen else sa_len sa)) d;
  if negb (r =? 0) then Some r else chk32 (s32 (sa_len sa) - s32 dlen).

Definition stralloc_equal (m : mem) (sa sb : stralloc) : option bool :=
  r ← stralloc_diff m sa sb; Some (r =? 0).
Definition stralloc_equals (m : mem) (sa : stralloc) (s : list Z) : option bool :=
  r ← stralloc_diffs m sa s; Some (r =? 0).
Definition stralloc_equalb (m : mem) (sa : stralloc) (d : list Z) (dlen : Z) : option bool :=
  r ← stralloc_diffb m sa d dlen; Some (r =? 0).

Definition stralloc_case_diff (m : mem) (sa sb : stralloc) : option Z :=
  x ← sa_view m sa; y ← sa_view m sb;
  r ← byte_case_diff x (Z.to_nat (if sa_len sb <? sa_len sa then sa_len sb else sa_len sa)) y;
  if negb (r =? 0) then Some r else chk32 (s32 (sa_len sa) - s32 (sa_len sb)).

Definition stralloc_case_equal (m : mem) (sa sb : stralloc) : option bool :=
  r ← stralloc_case_diff m sa sb; Some (r =? 0).

(** The length of the prefix is kept in an [unsigned int]. *)
Definition stralloc_case_start (m : mem) (sa prefix : stralloc) : option bool :=
  let n := u32 (sa_len prefix) in
  if sa_len sa <? n then Some false else
  x ← sa_view m sa; y ← sa_view m prefix; byte_case_equal x (Z.to_nat n) y.

(** * The contract *)

(** The [stralloc] holds the bytes [xs] in a block of the size [a] says. *)
Record rep (m : mem) (sa : stralloc) (xs : list Z) : Prop := Rep {
  rep_wf : mwf m;
  rep_len : sa_len sa = Z.of_nat (length xs);
  rep_block : match sa_s sa with
              | None => xs = []
              | Some b => exists l, blocks m !! b = Some l /\
                  Z.of_nat (length l) = sa_a sa /\ 0 < sa_a sa /\ take (length xs) l = xs
              end
}.

(** What an operation on [sa] may do to the memory: only the block of [sa] is
    written or exchanged for a new one, so no other object changes and nothing
    leaks. *)
Record evolves (m : mem) (sa : stralloc) (m' : mem) (sa' : stralloc) : Prop := Evolves {
  ev_wf : mwf m';
  ev_rest : rest m' (sa_s sa') = rest m (sa_s sa);
  ev_block : sa_s sa' = sa_s sa \/ exists b, sa_s sa' = Some b /\ blocks m !! b = None;
  ev_answers : forall x, x ∈ answers m' -> x ∈ answers m
}.

(** The source [p] is not in the block of [sa] and points at the bytes [ys]. *)
Definition reads (m : mem) (sa : stralloc) (p : ptr) (ys : list Z) : Prop :=
  (exists l, view m p = Some l /\ take (length ys) l = ys) /\
  match p with Blk b _ => sa_s sa <> Some b | Const _ => True end.

(** The operation succeeds and leaves [ys], or memory ran out and it leaves
    the string as it was. *)
Definition yields (m : mem) (sa : stralloc) (xs ys : list Z) (r : result) : Prop :=
  exists ok m' sa', r = Some (ok, m', sa') /\ evolves m sa m' sa' /\
    rep m' sa' (if (ok : bool) then ys else xs) /\ (ok = false -> false ∈ answers m).

(** Sizes whose sums and whose allocation heuristic do not overflow. *)
Definition small (n : Z) : Prop := 0 <= n < 2 ^ 60.

(** * Lemmas *)

(** ** Memory *)

Lemma evolves_refl (m : mem) (sa : stralloc) (n k : Z) :
  mwf m -> evolves m sa m (SA (sa_s sa) n k).
Proof. intros H. by split; [|..|]; auto. Qed.

Lemma evolves_trans (m m1 m2 : mem) (sa sa1 sa2 : stralloc) :
  evolves m sa m1 sa1 -> evolves m1 sa1 m2 sa2 -> evolves m sa m2 sa2.
Proof.
  intros [W1 R1 B1 A1] [W2 R2 B2 A2]. split; [done|congruence| |auto].
  destruct B2 as [->|(b & -> & Hb)]; [done|].
  destruct (decide (sa_s sa = Some b)) as [->|Hne]; [by left|right].
  exists b. split; [done|].
  assert (rest m (sa_s sa) !! b = blocks m !! b) as <-.
  { destruct (sa_s sa); simpl; [|done]. apply lookup_delete_ne. congruence. }
  rewrite <- R1. destruct (sa_s sa1); simpl; [|done]. by apply lookup_delete_None; right.
Qed.

Lemma evolves_put (m : mem) (sa sa' : stralloc) (b : nat) (l l' : list Z) :
  mwf m -> sa_s sa = Some b -> sa_s sa' = Some b -> blocks m !! b = Some l ->
  evolves m sa (put m b l') sa'.
Proof.
  intros Hm Hs Hs' Hb. split; [|rewrite Hs, Hs'|rewrite Hs, Hs'; by left|done].
  - apply mwf_put; [done|]. by eexists.
  - simpl. apply delete_insert_eq.
Qed.

Lemma reads_evolves (m m' : mem) (sa sa' : stralloc) (p : ptr) (ys : list Z) :
  evolves m sa m' sa' -> reads m sa p ys -> reads m' sa' p ys.
Proof.
  intros [_ R _ _] [(l & Hv & Ht) Hp]. unfold reads.
  destruct p as [b off|]; [|split; [by exists l|done]]. simpl in *.
  destruct (blocks m !! b) as [x|] eqn:E; [|done].
  assert (rest m (sa_s sa) !! b = Some x) as H.
  { destruct (sa_s sa); simpl; [|done]. rewrite lookup_delete_ne; [done|congruence]. }
  rewrite <- R in H. destruct (sa_s sa') as [b'|]; simpl in H.
  - apply lookup_delete_Some in H as [Hne H].
    split; [exists l; by rewrite H|congruence].
  - split; [exists l; by rewrite H|done].
Qed.

Lemma reads_const (m : mem) (sa : stralloc) (ys zs : list Z) :
  reads m sa (Const (ys ++ zs)) ys.
Proof. split; [|done]. exists (ys ++ zs). split; [done|]. apply take_app_length. Qed.

Lemma reads_all (m : mem) (sa : stralloc) (ys : list Z) : reads m sa (Const ys) ys.
Proof. split; [|done]. exists ys. split; [done|]. apply firstn_all. Qed.

Lemma reads_prefix (m : mem) (sa : stralloc) (p : ptr) (ys zs : list Z) :
  reads m sa p (ys ++ zs) -> reads m sa p ys.
Proof.
  intros [(l & Hv & Ht) Hp]. split; [|done]. exists l. split; [done|].
  apply (f_equal (take (length ys))) in Ht. rewrite take_app_length, take_take in Ht.
  by rewrite Nat.min_l in Ht by (rewrite length_app; lia).
Qed.

Lemma mcopy_reads (m : mem) (sa : stralloc) (b off : nat) (n : Z) (p : ptr) (l0 ys : list Z) :
  reads m sa p ys -> sa_s sa = Some b -> blocks m !! b = Some l0 ->
  n = Z.of_nat (length ys) -> Z.of_nat off + n <= Z.of_nat (length l0) ->
  mcopy m b off n p = Some (put m b (splice l0 off ys)).
Proof.
  intros [(l & Hv & Ht) Hp] Hs Hb -> Ho. unfold mcopy.
  assert (source m b p = Some (There l)) as ->.
  { destruct p as [b' o|]; simpl in *; [|by injection Hv as ->].
    rewrite decide_False by congruence. by destruct (blocks m !! b'); simplify_eq/=. }
  cbn [mbind option_bind]. unfold on_block. rewrite Hb. cbn [mbind option_bind].
  apply (f_equal length) in Ht as Hlen. rewrite length_take in Hlen.
  rewrite byte_copy_spec; [|lia|simpl; lia|done]. simpl. by rewrite Nat2Z.id, Ht.
Qed.

Lemma mcopy_within (m : mem) (b off src : nat) (n : Z) (l : list Z) :
  blocks m !! b = Some l -> 0 <= n -> (off <= src)%nat ->
  Z.of_nat src + n <= Z.of_nat (length l) ->
  mcopy m b off n (Blk b src) = Some (put m b (splice l off (block l src (Z.to_nat n)))).
Proof.
  intros Hb H0 Ho Hn. unfold mcopy. simpl. rewrite decide_True by done.
  cbn [mbind option_bind]. unfold on_block. rewrite Hb. cbn [mbind option_bind].
  rewrite byte_copy_spec; [done|lia|simpl; lia|simpl; lia].
Qed.

Lemma mcopyr_within (m : mem) (b off src : nat) (n : Z) (l : list Z) :
  blocks m !! b = Some l -> 0 <= n -> (src <= off)%nat ->
  Z.of_nat off + n <= Z.of_nat (length l) ->
  mcopyr m b off n (Blk b src) = Some (put m b (splice l off (block l src (Z.to_nat n)))).
Proof.
  intros Hb H0 Ho Hn. unfold mcopyr. simpl. rewrite decide_True by done.
  cbn [mbind option_bind]. unfold on_block. rewrite Hb. cbn [mbind option_bind].
  rewrite byte_copyr_spec; [done|lia|simpl; lia|simpl; lia].
Qed.

(** ** Strings *)

Lemma rep_init (m : mem) : mwf m -> rep m stralloc_init [].
Proof. by split. Qed.

(** The bytes used are replaced by others. *)
Lemma rep_put (m : mem) (sa : stralloc) (xs ys l l' : list Z) (b : nat) :
  rep m sa xs -> sa_s sa = Some b -> blocks m !! b = Some l -> length l' = length l ->
  take (length ys) l' = ys ->
  rep (put m b l') (SA (Some b) (Z.of_nat (length ys)) (sa_a sa)) ys.
Proof.
  intros [Hw _ Hl] Hs Hb Hlen Ht. rewrite Hs in Hl.
  destruct Hl as (l0 & Hb' & Ha & Hpos & _). simplify_eq. split; [|done|].
  - apply mwf_put; [done|]. by eexists.
  - simpl. rewrite lookup_insert_eq. exists l'. split; [done|]. rewrite Hlen. done.
Qed.

Lemma rep_room (m : mem) (sa : stralloc) (xs : list Z) (b : nat) :
  rep m sa xs -> sa_s sa = Some b ->
  exists l, blocks m !! b = Some l /\ Z.of_nat (length l) = sa_a sa /\
    take (length xs) l = xs /\ (length xs <= length l)%nat.
Proof.
  intros [_ _ Hl] Hs. rewrite Hs in Hl. destruct Hl as (l & Hb & Ha & _ & Ht).
  exists l. split; [done|]. split; [done|]. split; [done|].
  apply (f_equal length) in Ht. rewrite length_take in Ht. lia.
Qed.

Lemma small_wanted (n : Z) :
  small n -> u64 (n + Z.shiftr n 3 + 30) = n + Z.shiftr n 3 + 30 /\
    n < n + Z.shiftr n 3 + 30.
Proof.
  unfold small. intros H. rewrite Z.shiftr_div_pow2 by lia. change (2 ^ 3) with 8.
  split; [|zmod]. apply u64_id. zmod.
Qed.

(** ** Allocation *)

(** What [stralloc_ready] answers when asked for [n] bytes. *)
Definition readied (m : mem) (sa : stralloc) (xs : list Z) (n : Z) (r : result) : Prop :=
  exists ok m' sa', r = Some (ok, m', sa') /\
    evolves m sa m' sa' /\ rep m' sa' xs /\ sa_len sa' = sa_len sa /\
    (ok = true -> n <= sa_a sa' /\ exists b, sa_s sa' = Some b) /\
    (ok = false -> false ∈ answers m).

Lemma ready_grow (m : mem) (sa : stralloc) (xs l : list Z) (n w : Z) (b : nat) :
  rep m sa xs -> sa_s sa = Some b -> blocks m !! b = Some l -> take (length xs) l = xs ->
  Z.of_nat (length l) < w -> n < w ->
  readied m sa xs n
    ('(tmp, m) ← realloc m (Some b) w;
     match tmp with
     | None => Some (false, m, sa)
     | Some b => Some (true, m, SA (Some b) (sa_len sa) w)
     end).
Proof.
  intros H Es Hb Ht Hw Hn. pose proof H as [Hwf Hl Hblk]. unfold readied.
  destruct (realloc_ok m b l w Hwf Hb) as
    [(b' & m' & l' & -> & [W R N A] & Hb' & Hlen & Ht')|(m' & -> & Hf & W & Eb & A)];
    [lia| |]; cbn [mbind option_bind]; eexists _, _, _; (split; [done|]).
  - split; [|split; [|split; [done|split; [|done]]]].
    + split; [done|by rewrite Es|right; by exists b'|done].
    + split; [done|done|]. simpl. exists l'. split; [done|]. split; [lia|]. split; [lia|].
      rewrite (take_ge l) in Ht' by lia. rewrite <- Ht at 2. rewrite <- Ht', take_take.
      f_equal. apply (f_equal length) in Ht. rewrite length_take in Ht. lia.
    + intros _. simpl. split; [lia|]. by exists b'.
  - split; [|split; [|split; [done|split; [done|done]]]].
    + split; [done|by rewrite Es; simpl; rewrite Eb|by left|done].
    + split; [done|done|]. by rewrite Eb.
Qed.

Lemma ready_new (m : mem) (sa : stralloc) (n w : Z) :
  rep m sa [] -> sa_s sa = None -> 0 < w -> n < w ->
  readied m sa [] n
    (let '(tmp, m) := malloc m w in
     match tmp with
     | None => Some (false, m, sa)
     | Some b =>
         m ← on_block m b (fun l => byte_zero l 0 (Z.to_nat w));
         Some (true, m, SA (Some b) (sa_len sa) w)
     end).
Proof.
  intros H Es Hw Hn. pose proof H as [Hwf Hl Hblk]. unfold readied.
  destruct (malloc_ok m w Hwf) as
    [(b' & m' & l & -> & [W R N A] & Hb' & Hlen)|(m' & -> & Hf & W & Eb & A)].
  - unfold on_block. rewrite Hb'. cbn [mbind option_bind].
    rewrite byte_zero_spec by lia. cbn [mbind option_bind].
    eexists _, _, _. split; [done|]. split; [|split; [|split; [done|split; [|done]]]].
    + split; [apply mwf_put; [done|by eexists]| |right; by exists b'|exact A].
      simpl. rewrite delete_insert_eq, Es. exact R.
    + split; [apply mwf_put; [done|by eexists]|done|]. simpl. rewrite lookup_insert_eq.
      eexists. split; [done|]. rewrite splice_length by (rewrite length_replicate; lia).
      split; [lia|]. split; [lia|]. done.
    + intros _. simpl. split; [lia|]. by exists b'.
  - eexists _, _, _. split; [done|]. split; [|split; [|split; [done|split; [done|done]]]].
    + split; [done|by rewrite Es; simpl; rewrite Eb|by left|done].
    + split; [done|done|]. by rewrite Es.
Qed.

Lemma ready_ok (m : mem) (sa : stralloc) (xs : list Z) (n : Z) :
  rep m sa xs -> small n -> readied m sa xs n (stralloc_ready m sa n).
Proof.
  intros H Hn. pose proof H as [Hw Hl Hb]. unfold stralloc_ready.
  destruct (small_wanted n Hn) as [-> Hgt]. set (w := n + Z.shiftr n 3 + 30) in *.
  assert (0 <= n) as H0 by apply Hn.
  destruct (sa_s sa) as [b|] eqn:Es.
  - destruct Hb as (l & Hb & Ha & Hpos & Ht).
    rewrite bool_decide_eq_true_2 by (by eexists). cbn [andb negb orb].
    destruct (Z.leb_spec n (sa_a sa)).
    + eexists _, _, _. split; [done|]. split; [|split; [done|split; [done|split; [|done]]]].
      * replace sa with (SA (sa_s sa) (sa_len sa) (sa_a sa)) at 2 by (by destruct sa).
        by apply evolves_refl.
      * intros _. split; [lia|]. by exists b.
    + zfalse (sa_a sa =? 0). cbn [orb]. apply (ready_grow _ _ _ l); (done || lia).
  - rewrite bool_decide_eq_false_2 by (by intros [? ?]). cbn [andb negb].
    rewrite orb_true_r. subst xs. apply ready_new; (done || lia).
Qed.

Lemma readyplus_ok (m : mem) (sa : stralloc) (xs : list Z) (n : Z) :
  rep m sa xs -> small (Z.of_nat (length xs) + n) -> 0 <= n ->
  readied m sa xs (Z.of_nat (length xs) + n) (stralloc_readyplus m sa n).
Proof.
  intros H Hn H0. pose proof H as [Hw Hl Hb]. unfold stralloc_readyplus.
  assert (is_u64 (sa_len sa + n)) as Hu by (rewrite Hl; unfold small in Hn; split; lia).
  destruct (sa_s sa) as [b|] eqn:Es.
  - rewrite u64_id by done. zfalse (sa_len sa + n <? n).
    replace (Z.of_nat (length xs) + n) with (sa_len sa + n) in * by lia. by apply ready_ok.
  - subst xs. by apply ready_ok.
Qed.

(** An operation that asks for room and then writes into the block. *)
Lemma then_write (m : mem) (sa : stralloc) (xs ys : list Z) (n : Z) (r : result)
    (k : mem -> stralloc -> result) :
  readied m sa xs n r ->
  (forall m' sa' b l, evolves m sa m' sa' -> rep m' sa' xs -> sa_len sa' = Z.of_nat (length xs) ->
     sa_s sa' = Some b -> blocks m' !! b = Some l -> n <= Z.of_nat (length l) ->
     take (length xs) l = xs -> (length xs <= length l)%nat ->
     exists l', k m' sa' = Some (true, put m' b l',
         SA (Some b) (Z.of_nat (length ys)) (sa_a sa')) /\
       length l' = length l /\ take (length ys) l' = ys) ->
  yields m sa xs ys
    ('(ok, m, sa) ← r; if (ok : bool) then k m sa else Some (false, m, sa)).
Proof.
  intros (ok & m' & sa' & -> & E & R & Hl & Ht & Hf) Hk. cbn [mbind option_bind].
  destruct ok; [|by exists false, m', sa'].
  destruct (Ht eq_refl) as (Hn & b & Hs).
  destruct (rep_room _ _ _ _ R Hs) as (l & Hb & Ha & Htk & Hle).
  destruct (Hk m' sa' b l) as (l' & -> & Hlen & Htk'); try done; [apply R|lia|].
  exists true. eexists _, _. split; [done|]. split.
  - eapply evolves_trans; [exact E|]. apply (evolves_put _ _ _ _ l); [apply R|done..].
  - split; [|done]. by apply (rep_put _ _ _ _ l _ b R).
Qed.

(** ** The bytes used after a write *)

Lemma take_splice_app (xs ys l : list Z) :
  take (length xs) l = xs -> (length xs + length ys <= length l)%nat ->
  take (length (xs ++ ys)) (splice l (length xs) ys) = xs ++ ys.
Proof.
  intros Ht Hl. unfold splice. rewrite Ht, app_assoc, take_app_length. done.
Qed.

Lemma take_splice_0 (ys l : list Z) : take (length ys) (splice l 0 ys) = ys.
Proof. unfold splice. simpl. apply take_app_length. Qed.

Lemma copyb_ok (m : mem) (sa : stralloc) (xs ys : list Z) (p : ptr) (n : Z) :
  rep m sa xs -> reads m sa p ys -> n = Z.of_nat (length ys) -> small n ->
  yields m sa xs ys (stralloc_copyb m sa p n).
Proof.
  intros H Hp Hn Hs.
  apply (then_write _ _ _ _ n _ (fun m sa => b ← sa_s sa; m ← mcopy m b 0 n p;
    Some (true, m, SA (sa_s sa) n (sa_a sa)))); [by apply ready_ok|].
  intros m' sa' b l0 E R Hl Hb Hblk Hroom Ht Hle. rewrite Hb. cbn [mbind option_bind].
  rewrite (mcopy_reads m' sa' b 0 n p l0 ys) by
    (first [done | lia | by eapply reads_evolves]).
  cbn [mbind option_bind]. eexists. split; [by rewrite Hn|].
  split; [apply splice_length; lia|apply take_splice_0].
Qed.

Lemma catb_ok (m : mem) (sa : stralloc) (xs ys : list Z) (p : ptr) (n : Z) :
  rep m sa xs -> reads m sa p ys -> n = Z.of_nat (length ys) ->
  small (Z.of_nat (length xs) + n) ->
  yields m sa xs (xs ++ ys) (stralloc_catb m sa p n).
Proof.
  intros H Hp Hn Hs. pose proof Hs as Hs'. unfold small in Hs'.
  apply (then_write _ _ _ _ (Z.of_nat (length xs) + n) _ (fun m sa => b ← sa_s sa;
    m ← mcopy m b (Z.to_nat (sa_len sa)) n p;
    Some (true, m, SA (sa_s sa) (u64 (sa_len sa + n)) (sa_a sa)))); [apply readyplus_ok; (done||lia)|].
  intros m' sa' b l0 E R Hl Hb Hblk Hroom Ht Hle. rewrite Hb. cbn [mbind option_bind].
  rewrite (mcopy_reads m' sa' b _ n p l0 ys) by
    (first [done | lia | by eapply reads_evolves]).
  cbn [mbind option_bind]. eexists. split.
  - rewrite Hl, length_app, u64_id by (split; lia).
    rewrite Nat2Z.id. do 3 f_equal. lia.
  - split; [apply splice_length; lia|]. apply take_splice_app; [done|lia].
Qed.

(** Two writes, the second in front of the first: a gap is opened or closed
    and filled. *)
Lemma splice_twice (l z ys : list Z) (p : nat) :
  (p + length ys <= length l)%nat ->
  splice (splice l (p + length ys) z) p ys =
  take p l ++ ys ++ z ++ drop (p + length ys + length z) l.
Proof.
  intros H. unfold splice. rewrite take_app_le, take_take by (rewrite length_take; lia).
  rewrite Nat.min_l by lia. do 2 f_equal.
  rewrite drop_app_ge by (rewrite length_take; lia). rewrite length_take.
  by replace (p + length ys - (p + length ys) `min` length l)%nat with O by lia.
Qed.

Lemma used_block (xs l : list Z) (p : nat) :
  take (length xs) l = xs -> (p <= length xs)%nat ->
  block l p (length xs - p) = drop p xs.
Proof.
  intros Ht Hp. unfold block. rewrite take_drop_commute.
  by replace (p + (length xs - p))%nat with (length xs) by lia; rewrite Ht.
Qed.

Lemma used_take (xs l : list Z) (p : nat) :
  take (length xs) l = xs -> (p <= length xs)%nat -> take p l = take p xs.
Proof. intros Ht Hp. rewrite <- Ht, take_take, Nat.min_l by done. done. Qed.

Lemma used_load (xs l : list Z) (i : nat) :
  take (length xs) l = xs -> (i < length xs)%nat -> load l i = xs !! i.
Proof. intros Ht Hi. unfold load. rewrite <- Ht, lookup_take_lt by done. done. Qed.

Lemma put_put (m : mem) (b : nat) (l l' : list Z) : put (put m b l) b l' = put m b l'.
Proof. unfold put. simpl. by rewrite insert_insert_eq. Qed.

Lemma put_lookup (m : mem) (b : nat) (l : list Z) : blocks (put m b l) !! b = Some l.
Proof. apply lookup_insert_eq. Qed.

(** The gap is opened or closed and filled: the heart of [stralloc_insertb],
    [stralloc_replace] and [stralloc_replaces]. *)
Lemma gap_ok (m : mem) (sa : stralloc) (xs l ys : list Z) (b p q : nat) (s : ptr) (n : Z)
    (copy : mem -> nat -> nat -> Z -> ptr -> option mem) :
  mwf m -> reads m sa s ys -> n = Z.of_nat (length ys) -> sa_s sa = Some b ->
  blocks m !! b = Some l -> take (length xs) l = xs -> (p <= q <= length xs)%nat ->
  (p + length ys + (length xs - q) <= length l)%nat -> (length xs <= length l)%nat ->
  copy m b (p + length ys)%nat (Z.of_nat (length xs - q)) (Blk b q) =
    Some (put m b (splice l (p + length ys) (block l q (length xs - q)))) ->
  (m ← copy m b (p + length ys)%nat (Z.of_nat (length xs - q)) (Blk b q);
   mcopy m b p n s) =
  Some (put m b (take p xs ++ ys ++ drop q xs ++
         drop (p + length ys + (length xs - q)) l)) /\
  length (take p xs ++ ys ++ drop q xs ++
         drop (p + length ys + (length xs - q)) l) = length l.
Proof.
  intros Hw Hf -> Hs Hb Ht Hpq Hroom Hle ->. cbn [mbind option_bind].
  assert (block l q (length xs - q) = drop q xs) as Hq by (apply used_block; (done || lia)).
  rewrite Hq. assert (length (drop q xs) = (length xs - q)%nat) as Hd by apply length_drop.
  split.
  - rewrite (mcopy_reads _ sa b p _ s (splice l (p + length ys) (drop q xs)) ys).
    + rewrite put_put, splice_twice by lia.
      by rewrite Hd, (used_take xs) by (done || lia).
    + eapply reads_evolves; [|exact Hf].
      replace sa with (SA (sa_s sa) (sa_len sa) (sa_a sa)) at 2 by (by destruct sa).
      apply (evolves_put _ _ _ b l); done.
    + done.
    + apply put_lookup.
    + done.
    + rewrite splice_length; lia.
  - rewrite !length_app, !length_drop, length_take. lia.
Qed.

(** ** Operations that ask for memory *)

Lemma sa_put_ok (m : mem) (sa : stralloc) (xs l text : list Z) (b : nat) (n : Z) :
  sa_len sa = Z.of_nat (length xs) -> sa_s sa = Some b -> blocks m !! b = Some l ->
  n = Z.of_nat (length text) -> (length xs + length text <= length l)%nat ->
  small (Z.of_nat (length xs) + n) ->
  sa_put m sa text n = Some (put m b (splice l (length xs) text),
    SA (Some b) (Z.of_nat (length xs + length text)) (sa_a sa)).
Proof.
  intros Hl Hs Hb -> Hroom Hsm. unfold sa_put, small in *. rewrite Hs. cbn [mbind option_bind].
  rewrite (mcopy_reads _ sa b _ _ (Const text) l text) by (apply reads_all || done || lia).
  cbn [mbind option_bind]. rewrite Hl, !Nat2Z.id, u64_id by (split; lia).
  do 3 f_equal. lia.
Qed.

Lemma catc_ok (m : mem) (sa : stralloc) (xs : list Z) (c : Z) :
  rep m sa xs -> small (Z.of_nat (length xs) + 1) ->
  yields m sa xs (xs ++ [c]) (stralloc_catc m sa c).
Proof.
  intros H Hs. pose proof Hs as Hs'. unfold small in Hs'. pose proof (rep_len _ _ _ H) as Hl.
  apply (then_write _ _ _ _ (Z.of_nat (length xs) + 1) _ (fun m sa =>
    m ← sa_store_end m sa c; Some (true, m, SA (sa_s sa) (u64 (sa_len sa + 1)) (sa_a sa)))).
  { rewrite Hl, u64_id by (split; lia). by apply ready_ok. }
  intros m' sa' b l E R Hl' Hb Hblk Hroom Ht Hle. unfold sa_store_end.
  rewrite Hb, Hl', Nat2Z.id. cbn [mbind option_bind]. unfold mstore, on_block.
  rewrite Hblk. cbn [mbind option_bind]. rewrite store_Some by lia. cbn [mbind option_bind].
  eexists. split; [|split].
  - rewrite u64_id, length_app by (split; lia). simpl. do 3 f_equal. lia.
  - apply length_insert.
  - rewrite <- (splice_nil (<[_:=c]> l) (S (length xs))), <- splice_cons by lia.
    apply (take_splice_app xs [c]); [done|simpl; lia].
Qed.

Lemma append_ok (m : mem) (sa : stralloc) (xs : list Z) (p : ptr) (c : Z) :
  rep m sa xs -> reads m sa p [c] -> small (Z.of_nat (length xs) + 1) ->
  yields m sa xs (xs ++ [c]) (stralloc_append m sa p).
Proof.
  intros H Hp Hs. pose proof Hs as Hs'. unfold small in Hs'.
  apply (then_write _ _ _ _ (Z.of_nat (length xs) + 1) _ (fun m sa =>
    l ← view m p; c ← load l 0; m ← sa_store_end m sa c;
    Some (true, m, SA (sa_s sa) (u64 (sa_len sa + 1)) (sa_a sa)))).
  { apply readyplus_ok; (done || lia). }
  intros m' sa' b l' E R Hl' Hb Hblk Hroom Ht Hle.
  destruct (reads_evolves _ _ _ _ _ _ E Hp) as [(l & -> & Hc) _]. cbn [mbind option_bind].
  destruct l as [|c0 l]; [done|]. injection Hc as ->.
  rewrite load_cons_0. cbn [mbind option_bind]. unfold sa_store_end.
  rewrite Hb, Hl', Nat2Z.id. cbn [mbind option_bind]. unfold mstore, on_block.
  rewrite Hblk. cbn [mbind option_bind]. rewrite store_Some by lia. cbn [mbind option_bind].
  eexists. split; [|split].
  - rewrite u64_id, length_app by (split; lia). simpl. do 3 f_equal. lia.
  - apply length_insert.
  - rewrite <- (splice_nil (<[_:=c]> l') (S (length xs))), <- splice_cons by lia.
    apply (take_splice_app xs [c]); [done|simpl; lia].
Qed.

(** The bytes [[p, q)] give way to [ys]. *)
Definition replaced (xs : list Z) (p q : nat) (ys : list Z) : list Z :=
  take p xs ++ ys ++ drop q xs.

Lemma insertb_ok (m : mem) (sa : stralloc) (xs ys : list Z) (s : ptr) (pos n : Z) :
  rep m sa xs -> reads m sa s ys -> n = Z.of_nat (length ys) ->
  0 <= pos -> small (Z.of_nat (length xs) + n) ->
  yields m sa xs (replaced xs (Z.to_nat pos) (Z.to_nat pos) ys) (stralloc_insertb m sa s pos n).
Proof.
  intros H Hf Hn Hpos Hs. pose proof Hs as Hs'. unfold small in Hs'.
  pose proof (rep_len _ _ _ H) as Hl. unfold stralloc_insertb, replaced.
  destruct (Z.leb_spec (sa_len sa) pos).
  { rewrite take_ge, drop_ge, app_nil_r by lia.
    by apply catb_ok. }
  apply (then_write _ _ _ _ (Z.of_nat (length xs) + n) _ (fun m sa => b ← sa_s sa;
    m ← mcopyr m b (Z.to_nat (pos + n)) (sa_len sa - pos) (Blk b (Z.to_nat pos));
    m ← mcopy m b (Z.to_nat pos) n s;
    Some (true, m, SA (sa_s sa) (u64 (sa_len sa + n)) (sa_a sa)))).
  { apply readyplus_ok; (done || lia). }
  intros m' sa' b l E R Hl' Hb Hblk Hroom Ht Hle. rewrite Hb, Hl'. cbn [mbind option_bind].
  replace (Z.of_nat (length xs) - pos) with (Z.of_nat (length xs - Z.to_nat pos)) by lia.
  replace (Z.to_nat (pos + n)) with (Z.to_nat pos + length ys)%nat by lia.
  destruct (gap_ok m' sa' xs l ys b (Z.to_nat pos) (Z.to_nat pos) s n mcopyr)
    as [Eq Hlen]; try done; [apply R|by eapply reads_evolves|lia|lia| |].
  { rewrite (mcopyr_within _ _ _ _ _ l) by (done || lia). by rewrite Nat2Z.id. }
  destruct (mcopyr m' b _ _ _) as [m1|]; cbn [mbind option_bind] in *; [|done].
  rewrite Eq. cbn [mbind option_bind]. eexists. split; [|split; [exact Hlen|]].
  - do 3 f_equal. rewrite u64_id by (split; lia).
    rewrite !length_app, length_take, length_drop. lia.
  - rewrite !app_assoc, take_app_le by done. by rewrite firstn_all.
Qed.

Lemma put_id (m : mem) (b : nat) (l : list Z) : blocks m !! b = Some l -> put m b l = m.
Proof. intros H. unfold put. rewrite insert_id by done. by destruct m. Qed.

Lemma mcopy_0 (m : mem) (sa : stralloc) (b off : nat) (p : ptr) (ys l0 : list Z) :
  reads m sa p ys -> sa_s sa = Some b -> blocks m !! b = Some l0 -> (off <= length l0)%nat ->
  mcopy m b off 0 p = Some m.
Proof.
  intros Hf Hs Hb Ho. rewrite (mcopy_reads _ sa _ _ _ _ l0 []).
  - by rewrite splice_nil, put_id.
  - by apply (reads_prefix _ _ _ [] ys).
  - done.
  - done.
  - done.
  - lia.
Qed.

Lemma sa_gap_ok (m : mem) (sa : stralloc) (xs l ys : list Z) (b : nat) (p flen n : Z)
    (to : ptr) (tlen : Z) :
  mwf m -> reads m sa to ys -> tlen = Z.of_nat (length ys) -> sa_s sa = Some b ->
  sa_len sa = Z.of_nat (length xs) -> blocks m !! b = Some l -> take (length xs) l = xs ->
  0 <= p -> 0 <= flen -> p + flen <= Z.of_nat (length xs) ->
  n = Z.of_nat (length xs) - p - flen ->
  Z.of_nat (length xs) + (tlen - flen) <= Z.of_nat (length l) ->
  (length xs <= length l)%nat -> small (Z.of_nat (length xs) + tlen) ->
  exists l', sa_gap m sa b p flen n to tlen = Some (put m b l',
      SA (Some b) (Z.of_nat (length xs) + (tlen - flen)) (sa_a sa)) /\
    length l' = length l /\
    let zs := replaced xs (Z.to_nat p) (Z.to_nat (p + flen)) ys in
    length zs = Z.to_nat (Z.of_nat (length xs) + (tlen - flen)) /\ take (length zs) l' = zs.
Proof.
  intros Hw Hf Ht Hs Hl Hb Htk H0 H1 Hp Hn Hroom Hle Hsm. unfold small in Hsm.
  assert (length (replaced xs (Z.to_nat p) (Z.to_nat (p + flen)) ys) =
    Z.to_nat (Z.of_nat (length xs) + (tlen - flen))) as Hlen.
  { unfold replaced. rewrite !length_app, length_take, length_drop. lia. }
  unfold sa_gap. cbv zeta. rewrite Hl, Hs.
  replace n with (Z.of_nat (length xs - Z.to_nat (p + flen))) by lia.
  replace (Z.to_nat (p + tlen)) with (Z.to_nat p + length ys)%nat by lia.
  assert (forall copy, copy m b (Z.to_nat p + length ys)%nat
      (Z.of_nat (length xs - Z.to_nat (p + flen))) (Blk b (Z.to_nat (p + flen))) =
      Some (put m b (splice l (Z.to_nat p + length ys)
        (block l (Z.to_nat (p + flen)) (length xs - Z.to_nat (p + flen))))) ->
    exists m1, copy m b (Z.to_nat p + length ys)%nat
      (Z.of_nat (length xs - Z.to_nat (p + flen))) (Blk b (Z.to_nat (p + flen))) = Some m1 /\
    exists l', (if tlen =? 0 then Some m1 else mcopy m1 b (Z.to_nat p) tlen to) =
      Some (put m b l') /\ length l' = length l /\
      take (length (replaced xs (Z.to_nat p) (Z.to_nat (p + flen)) ys)) l' =
      replaced xs (Z.to_nat p) (Z.to_nat (p + flen)) ys) as Hgap.
  { intros copy Hc. eexists. split; [exact Hc|].
    destruct (gap_ok m sa xs l ys b (Z.to_nat p) (Z.to_nat (p + flen)) to tlen copy)
      as [Eq Hl']; try done; [lia|lia|]. rewrite Hc in Eq. cbn [mbind option_bind] in Eq.
    eexists. split; [|split; [exact Hl'|]].
    - destruct (Z.eqb_spec tlen 0) as [E|E]; [|exact Eq]. rewrite <- Eq, E. symmetry.
      eapply (mcopy_0 _ sa); [|done|apply put_lookup|].
      + eapply reads_evolves; [|exact Hf].
        replace sa with (SA (sa_s sa) (sa_len sa) (sa_a sa)) at 2 by (by destruct sa).
        apply (evolves_put _ _ _ b l); done.
      + rewrite splice_length; [lia|]. rewrite block_length; lia.
    - rewrite !app_assoc, take_app_le by (unfold replaced; rewrite <- !app_assoc; done).
      unfold replaced. rewrite <- !app_assoc. apply firstn_all. }
  destruct (Z.ltb_spec flen tlen); [|destruct (Z.ltb_spec tlen flen)].
  - destruct (Hgap mcopyr) as (m1 & -> & l' & E & Hl' & Htk').
    { rewrite (mcopyr_within _ _ _ _ _ l) by (done || lia). by rewrite Nat2Z.id. }
    cbn [mbind option_bind]. rewrite E. cbn [mbind option_bind]. exists l'.
    rewrite u64_id by (split; lia). done.
  - destruct (Hgap mcopy) as (m1 & -> & l' & E & Hl' & Htk').
    { rewrite (mcopy_within _ _ _ _ _ l) by (done || lia). by rewrite Nat2Z.id. }
    cbn [mbind option_bind]. rewrite E. cbn [mbind option_bind]. exists l'.
    rewrite u64_id by (split; lia). split; [|done]. do 3 f_equal. lia.
  - exists (splice l (Z.to_nat p) ys). split; [|split; [apply splice_length; lia|split; [done|]]].
    + destruct (Z.eqb_spec tlen 0) as [E|E]; cbn [mbind option_bind].
      * destruct ys; [|simpl in *; lia]. rewrite splice_nil, put_id by done.
        destruct sa. simpl in *. subst. do 3 f_equal. lia.
      * rewrite (mcopy_reads m sa b _ _ to l ys) by (done || lia).
        cbn [mbind option_bind].
        destruct sa. simpl in *. subst. do 3 f_equal. lia.
    + rewrite Hlen. unfold splice, replaced.
      replace (Z.to_nat (p + flen)) with (Z.to_nat p + length ys)%nat by lia.
      rewrite <- (used_take xs l) by (done || lia).
      rewrite <- (firstn_skipn (length xs - (Z.to_nat p + length ys))
        (drop (Z.to_nat p + length ys) l)).
      fold (block l (Z.to_nat p + length ys) (length xs - (Z.to_nat p + length ys))).
      rewrite used_block by (done || lia). rewrite !app_assoc, take_app_le; [|].
      * apply take_ge. rewrite !length_app, length_take, length_drop. lia.
      * rewrite !length_app, length_take, length_drop. lia.
Qed.

Lemma readied_id (m : mem) (sa : stralloc) (xs : list Z) (n : Z) (b : nat) :
  rep m sa xs -> sa_s sa = Some b -> n <= Z.of_nat (length xs) ->
  readied m sa xs n (Some (true, m, sa)).
Proof.
  intros H Hb Hn. exists true, m, sa.
  split; [done|]. split; [|split; [done|split; [done|split; [|done]]]].
  - replace sa with (SA (sa_s sa) (sa_len sa) (sa_a sa)) at 2 by (by destruct sa).
    apply evolves_refl, H.
  - intros _. split; [|by exists b].
    destruct (rep_room _ _ _ _ H Hb) as (l & _ & Ha & _ & Hle). lia.
Qed.

(** Room for what [to] is longer than the place it gets. *)
Lemma ready_gap_ok (m : mem) (sa : stralloc) (xs : list Z) (flen tlen : Z) :
  rep m sa xs -> is_Some (sa_s sa) -> 0 <= flen <= Z.of_nat (length xs) -> 0 <= tlen ->
  small (Z.of_nat (length xs) + tlen) ->
  readied m sa xs (Z.of_nat (length xs) + (tlen - flen))
    (if flen <? tlen then stralloc_readyplus m sa (tlen - flen) else Some (true, m, sa)).
Proof.
  intros H [b Hb] Hf Ht Hs. unfold small in Hs. destruct (Z.ltb_spec flen tlen).
  - apply readyplus_ok; [done|unfold small; lia|lia].
  - apply (readied_id _ _ _ _ b); (done || lia).
Qed.

Lemma replace_ok (m : mem) (sa : stralloc) (xs ys : list Z) (to : ptr) (pos len tolen : Z) :
  rep m sa xs -> reads m sa to ys -> tolen = Z.of_nat (length ys) ->
  0 <= pos -> 0 <= len -> pos + len <= Z.of_nat (length xs) ->
  small (Z.of_nat (length xs) + tolen) -> is_Some (sa_s sa) ->
  yields m sa xs (replaced xs (Z.to_nat pos) (Z.to_nat (pos + len)) ys)
    (stralloc_replace m sa pos len to tolen).
Proof.
  intros H Hf Ht H0 H1 Hpl Hs Hb0. pose proof Hs as Hs'. unfold small in Hs'.
  pose proof (rep_len _ _ _ H) as Hl. unfold stralloc_replace.
  rewrite u64_id by (split; lia). zfalse (sa_len sa <? pos + len).
  apply (then_write _ _ _ _ (Z.of_nat (length xs) + (tolen - len)) _
    (fun m sa => b ← sa_s sa;
      let n := u64 (sa_len sa - pos) in
      '(m, sa) ← sa_gap m sa b pos len (u64 (n - len)) to tolen;
      Some (true, m, sa))); [apply ready_gap_ok; (done || lia)|].
  intros m' sa' b l E R Hl' Hb Hblk Hroom Htk Hle. rewrite Hb. cbn [mbind option_bind].
  cbv zeta. rewrite Hl', (u64_id (_ - pos)), u64_id by (split; lia).
  destruct (sa_gap_ok m' sa' xs l ys b pos len (Z.of_nat (length xs) - pos - len) to tolen)
    as (l' & -> & Hlen & Hzs & Htk'); try (done || lia); [apply R|by eapply reads_evolves|].
  exists l'. cbn [mbind option_bind]. rewrite Hzs. split; [do 3 f_equal; lia|].
  by rewrite Hzs in Htk'.
Qed.

(** ** Numbers *)

Lemma catulong0_ok (m : mem) (sa : stralloc) (xs : list Z) (i : Z) (n : nat) :
  rep m sa xs -> snd (fmt_ulong0 false i n) = snd (fmt_ulong0 true i n) ->
  length (fst (fmt_ulong0 true i n)) = snd (fmt_ulong0 true i n) ->
  small (Z.of_nat (length xs) + Z.of_nat (snd (fmt_ulong0 true i n))) ->
  yields m sa xs (xs ++ fst (fmt_ulong0 true i n)) (stralloc_catulong0 m sa i n).
Proof.
  intros H Hn Hlen Hs. unfold stralloc_catulong0. rewrite Hn.
  destruct (fmt_ulong0 true i n) as [text k]. cbn [fst snd] in *.
  apply (then_write _ _ _ _ (Z.of_nat (length xs) + Z.of_nat k) _
    (fun m sa => '(m, sa) ← sa_put m sa text (Z.of_nat k); Some (true, m, sa))).
  { apply readyplus_ok; [done..|lia]. }
  intros m' sa' b l E R Hl Hb Hblk Hroom Ht Hle.
  rewrite (sa_put_ok m' sa' xs l text b) by (done || lia). cbn [mbind option_bind].
  eexists. rewrite length_app. split; [done|]. split; [apply splice_length; lia|].
  rewrite <- length_app. apply take_splice_app; [done|lia].
Qed.

Lemma catlong0_ok (m : mem) (sa : stralloc) (xs text : list Z) (i : Z) (n k : nat) :
  rep m sa xs -> - 2 ^ 63 < i < 2 ^ 63 ->
  fmt_ulong0 true (Z.abs i) n = (text, k) -> length text = k ->
  (k <= snd (fmt_ulong0 false (u64 i) n))%nat ->
  small (Z.of_nat (length xs) + Z.of_nat (snd (fmt_ulong0 false (u64 i) n)) + 1) ->
  yields m sa xs (xs ++ (if s32 i <? 0 then ["-"%C] else []) ++ text) (stralloc_catlong0 m sa i n).
Proof.
  intros H Hi Ht Hk Hle Hs. unfold stralloc_catlong0. pose proof Hs as Hs'. unfold small in Hs'.
  set (w := snd (fmt_ulong0 false (u64 i) n)) in *. set (sg := if s32 i <? 0 then ["-"%C] else []).
  assert (snd (fmt_minus false (s32 i)) = length sg /\ fmt_minus true (s32 i) = (sg, length sg)) as [-> ->].
  { unfold fmt_minus, sg. by destruct (s32 i <? 0). }
  assert (length sg <= 1)%nat as Hsg by (unfold sg; destruct (s32 i <? 0); simpl; lia).
  rewrite u64_id by (split; lia).
  assert ((if 0 <=? i then Some i else chk64 (- i)) = Some (Z.abs i)) as Habs.
  { unfold chk64. destruct (Z.leb_spec 0 i); [by rewrite Z.abs_eq by lia|].
    ztrue ((-9223372036854775808 <=? - i) && (- i <? 9223372036854775808)).
    by rewrite Z.abs_neq by lia. }
  apply (then_write _ _ _ _ (Z.of_nat (length xs) + (Z.of_nat (length sg) + Z.of_nat w)) _
    (fun m sa => '(m, sa) ← sa_put m sa sg (Z.of_nat (length sg));
       j ← (if 0 <=? i then Some i else chk64 (- i));
       let '(text, k) := fmt_ulong0 true (u64 j) n in
       '(m, sa) ← sa_put m sa text (Z.of_nat k); Some (true, m, sa))).
  { apply readyplus_ok; [done|unfold small; lia|lia]. }
  intros m' sa' b l E R Hl Hb Hblk Hroom Htk Hle'.
  rewrite (sa_put_ok m' sa' xs l sg b) by (done || (unfold small; lia)). cbn [mbind option_bind].
  rewrite Habs. cbn [mbind option_bind]. rewrite u64_id by (split; lia). rewrite Ht.
  set (l1 := splice l (length xs) sg).
  assert (length l1 = length l) as Hl1 by (apply splice_length; lia).
  assert (take (length (xs ++ sg)) l1 = xs ++ sg) as Htk1 by (apply take_splice_app; [done|lia]).
  rewrite (sa_put_ok (put m' b l1) _ (xs ++ sg) l1 text b);
    [|by rewrite length_app|done|apply put_lookup|lia|rewrite length_app; lia|
      rewrite length_app; unfold small; lia].
  cbn [mbind option_bind sa_a]. rewrite put_put. exists (splice l1 (length (xs ++ sg)) text).
  rewrite app_assoc, (length_app (xs ++ sg)). split; [done|]. split.
  - rewrite splice_length; [done|]. rewrite length_app. lia.
  - rewrite <- length_app. apply take_splice_app; [done|]. rewrite length_app. lia.
Qed.

(** ** Operations in place *)

(** The string is [ys] afterwards, nothing else changed. *)
Definition edits (m : mem) (sa : stralloc) (ys : list Z) (m' : mem) (sa' : stralloc) : Prop :=
  evolves m sa m' sa' /\ rep m' sa' ys.

(** Fewer bytes of the same block. *)
Lemma shorten_ok (m : mem) (sa : stralloc) (xs : list Z) (n : nat) :
  rep m sa xs -> (n <= length xs)%nat ->
  edits m sa (take n xs) m (SA (sa_s sa) (Z.of_nat n) (sa_a sa)).
Proof.
  intros H Hn. split; [apply evolves_refl, H|]. destruct H as [Hw Hl Hb].
  split; [done|simpl; rewrite length_take; lia|]. simpl.
  destruct (sa_s sa) as [b|]; [|subst; by rewrite take_nil].
  destruct Hb as (l & Hb & Ha & Hp & Ht). exists l. split; [done|]. split; [done|].
  split; [done|]. rewrite length_take, Nat.min_l by done. by apply used_take.
Qed.

Lemma write_ok (m : mem) (sa : stralloc) (xs ys l l' : list Z) (b : nat) :
  rep m sa xs -> sa_s sa = Some b -> blocks m !! b = Some l -> length l' = length l ->
  take (length ys) l' = ys ->
  edits m sa ys (put m b l') (SA (Some b) (Z.of_nat (length ys)) (sa_a sa)).
Proof.
  intros H Hs Hb Hl Ht. split; [|by eapply rep_put].
  apply (evolves_put _ _ _ _ l); [apply H|done..].
Qed.

Lemma rep_view (m : mem) (sa : stralloc) (xs : list Z) :
  rep m sa xs -> exists l, sa_view m sa = Some l /\ take (length xs) l = xs /\
    (length xs <= length l)%nat.
Proof.
  intros H. unfold sa_view, sa_ptr. destruct (sa_s sa) as [b|] eqn:E.
  - destruct (rep_room _ _ _ _ H E) as (l & Hb & _ & Ht & Hle). exists l. simpl.
    by rewrite Hb.
  - pose proof (rep_block _ _ _ H) as Hx. rewrite E in Hx. subst. by exists [].
Qed.

Lemma remove_ok' (m : mem) (sa : stralloc) (xs : list Z) (pos n : Z) :
  rep m sa xs -> 0 <= pos < Z.of_nat (length xs) -> 0 <= n < 2 ^ 62 ->
  Z.of_nat (length xs) < 2 ^ 62 ->
  let k := Z.min n (Z.of_nat (length xs) - pos) in
  exists m' sa', stralloc_remove m sa pos n = Some (k, m', sa') /\
    edits m sa (replaced xs (Z.to_nat pos) (Z.to_nat (pos + k)) []) m' sa'.
Proof.
  intros H Hp Hn Hb k. pose proof (rep_len _ _ _ H) as Hl. unfold stralloc_remove, replaced.
  rewrite Hl, (u64_id (pos + 1)), (u64_id (pos + n)) by (split; lia).
  zfalse (Z.of_nat (length xs) <? pos + 1). cbn [app].
  destruct (Z.leb_spec (Z.of_nat (length xs)) (pos + n)).
  - exists m, (SA (sa_s sa) pos (sa_a sa)). split; [do 3 f_equal; lia|].
    rewrite drop_ge, app_nil_r by lia.
    replace pos with (Z.of_nat (Z.to_nat pos)) at 2 by lia. apply shorten_ok; [done|lia].
  - destruct (sa_s sa) as [b|] eqn:Es.
    2: { pose proof (rep_block _ _ _ H) as Hx. rewrite Es in Hx. subst. simpl in *. lia. }
    destruct (rep_room _ _ _ _ H Es) as (l & Hblk & Ha & Ht & Hle). cbn [mbind option_bind].
    rewrite (mcopy_within _ _ _ _ _ l) by (done || lia). cbn [mbind option_bind].
    eexists _, _. split; [do 3 f_equal; lia|].
    replace (Z.to_nat (Z.of_nat (length xs) - (pos + n)))
      with (length xs - Z.to_nat (pos + n))%nat by lia.
    rewrite used_block by (done || lia). replace k with n by lia.
    assert (length (take (Z.to_nat pos) xs ++ drop (Z.to_nat (pos + n)) xs) =
      (length xs - Z.to_nat n)%nat) as Hlen.
    { rewrite length_app, length_take, length_drop. lia. }
    replace (Z.of_nat (length xs) - n)
      with (Z.of_nat (length (take (Z.to_nat pos) xs ++ drop (Z.to_nat (pos + n)) xs))) by lia.
    apply (write_ok _ _ xs _ l); try done.
    + apply splice_length. rewrite length_drop. lia.
    + rewrite Hlen. unfold splice. rewrite (used_take xs l) by (done || lia).
      rewrite app_assoc, take_app_le by (rewrite length_app, length_take, length_drop; lia).
      apply take_ge. rewrite length_app, length_take, length_drop. lia.
Qed.

Lemma drop_insert_below (l : list Z) (t x : nat) (c : Z) :
  (t < x)%nat -> drop x (<[t:=c]> l) = drop x l.
Proof. intros. by apply drop_insert_lt. Qed.

(** The bytes that are not in the set, moved together. *)
Lemma remove_all_loop_ok (del : list Z) (i : nat) : forall (l : list Z) (x t : nat),
  (t <= x)%nat -> (x + i <= length l)%nat ->
  let ks := List.filter (fun c => negb (in_set del c)) (block l x i) in
  exists l', remove_all_loop l x t i del (length del) = Some (l', (t + length ks)%nat) /\
    length l' = length l /\ take (t + length ks) l' = take t l ++ ks.
Proof.
  induction i as [|i IH]; intros l x t Ht Hx ks.
  { exists l. subst ks. unfold block. simpl. rewrite Nat.add_0_r, app_nil_r. done. }
  destruct (lookup_lt_is_Some_2 l x) as [c Hc]; [lia|].
  cbn [remove_all_loop]. unfold load. rewrite Hc. cbn [mbind option_bind].
  rewrite byte_chr_spec, firstn_all by done. cbn [mbind option_bind]. rewrite span_ne_eq.
  subst ks. rewrite (block_S _ _ _ _ Hc). cbn [List.filter].
  destruct (in_set del c); cbn [negb].
  - destruct (IH l (S x) t) as (l' & E & Hl & Htk); [lia|lia|]. by exists l'.
  - rewrite store_Some by lia. cbn [mbind option_bind].
    destruct (IH (<[t:=c]> l) (S x) (S t)) as (l' & E & Hl & Htk);
      [lia|rewrite length_insert; lia|].
    assert (block (<[t:=c]> l) (S x) i = block l (S x) i) as Hblk.
    { unfold block. by rewrite drop_insert_below by lia. }
    rewrite Hblk in *. exists l'. rewrite E. cbn [length].
    split; [do 2 f_equal; lia|]. rewrite length_insert in Hl. split; [done|].
    rewrite <- Nat.add_succ_comm, Htk.
    rewrite (take_S_r _ _ c) by (apply list_lookup_insert_eq; lia).
    by rewrite take_insert_ge, <- app_assoc by lia.
Qed.

Lemma remove_all_ok (m : mem) (sa : stralloc) (xs del : list Z) :
  rep m sa xs ->
  exists m' sa', stralloc_remove_all m sa del (length del) = Some (m', sa') /\
    edits m sa (List.filter (fun c => negb (in_set del c)) xs) m' sa'.
Proof.
  intros H. unfold stralloc_remove_all. pose proof (rep_len _ _ _ H) as Hl.
  destruct (sa_s sa) as [b|] eqn:Es.
  - destruct (rep_room _ _ _ _ H Es) as (l & Hb & Ha & Ht & Hle).
    rewrite Hb. cbn [mbind option_bind]. rewrite Hl, Nat2Z.id.
    destruct (remove_all_loop_ok del (length xs) l 0 0) as (l' & -> & Hlen & Htk); [lia|lia|].
    assert (block l 0 (length xs) = xs) as Hblk by (unfold block; by rewrite drop_0).
    rewrite Hblk in *. cbn [mbind option_bind Nat.add]. eexists _, _. split; [done|].
    apply (write_ok _ _ xs _ l); done.
  - pose proof (rep_block _ _ _ H) as Hx. rewrite Es in Hx. subst. eexists _, _. split; [done|].
    split; [|done]. replace sa with (SA (sa_s sa) (sa_len sa) (sa_a sa)) at 2 by (by destruct sa).
    apply evolves_refl, H.
Qed.

Lemma reverse_loop_ok (n k : nat) : forall (l : list Z) (i : nat),
  (2 * (i + k) <= n)%nat -> (n <= 2 * (i + k) + 1)%nat -> (n <= length l)%nat ->
  exists l', reverse_loop l i n k = Some l' /\ length l' = length l /\
    forall j, l' !! j = if decide (i <= j < n - i)%nat then l !! (n - 1 - j)%nat else l !! j.
Proof.
  induction k as [|k IH]; intros l i H1 H2 Hn; cbn [reverse_loop].
  { exists l. split; [done|]. split; [done|]. intros j. case_decide; [|done]. f_equal. lia. }
  destruct (lookup_lt_is_Some_2 l i) as [u Hu]; [lia|].
  destruct (lookup_lt_is_Some_2 l (n - 1 - i)) as [v Hv]; [lia|].
  unfold load. rewrite Hu, Hv. cbn [mbind option_bind].
  rewrite store_Some by lia. cbn [mbind option_bind].
  rewrite store_Some by (rewrite length_insert; lia). cbn [mbind option_bind].
  destruct (IH (<[(n - 1 - i)%nat:=u]> (<[i:=v]> l)) (S i)) as (l' & -> & Hl & Hj);
    [lia|lia|rewrite !length_insert; lia|].
  exists l'. rewrite !length_insert in Hl. split; [done|]. split; [done|].
  intros j. rewrite Hj. rewrite !list_lookup_insert, !length_insert.
  repeat case_decide; try lia; try congruence; try done;
    first [by replace j with i by lia | by (replace j with (n - 1 - i)%nat by lia)
          | (rewrite <- Hu; f_equal; lia) | (rewrite <- Hv; f_equal; lia)].
Qed.

Lemma reverse_ok (m : mem) (sa : stralloc) (xs : list Z) :
  rep m sa xs ->
  exists m', stralloc_reverse m sa = Some m' /\ edits m sa (reverse xs) m' sa.
Proof.
  intros H. unfold stralloc_reverse, sa_bytes. pose proof (rep_len _ _ _ H) as Hl.
  destruct (sa_s sa) as [b|] eqn:Es.
  - destruct (rep_room _ _ _ _ H Es) as (l & Hb & Ha & Ht & Hle).
    rewrite Hl, Nat2Z.id. unfold on_block. rewrite Hb. cbn [mbind option_bind].
    rewrite Z.shiftr_div_pow2 by lia. change (2 ^ 1) with 2.
    destruct (reverse_loop_ok (length xs) (Z.to_nat (Z.of_nat (length xs) / 2)) l 0)
      as (l' & -> & Hlen & Hj); [zmod|zmod|lia|].
    cbn [mbind option_bind]. eexists. split; [done|].
    replace sa with (SA (Some b) (Z.of_nat (length (reverse xs))) (sa_a sa)) at 2.
    2: { rewrite length_reverse, <- Hl, <- Es. by destruct sa. }
    apply (write_ok _ _ xs _ l); try done.
    apply list_eq_nth; rewrite length_reverse, ?length_take; [lia|].
    intros i Hi. rewrite lookup_take_lt by lia. rewrite Hj.
    rewrite decide_True by lia. rewrite reverse_lookup by lia.
    rewrite <- (used_load xs l) by (done || lia). unfold load. f_equal. lia.
  - pose proof (rep_block _ _ _ H) as Hx. rewrite Es in Hx. subst. rewrite Hl.
    exists m. split; [done|].
    split; [|done]. replace sa with (SA (sa_s sa) (sa_len sa) (sa_a sa)) at 2 by (by destruct sa).
    apply evolves_refl, H.
Qed.

(** ** Replacing every occurrence *)

(** The string with every occurrence of [from] replaced by [to], found from the
    left; [skip] bytes belong to the last one found. *)
Fixpoint subst_all (from to b : list Z) (skip : nat) : list Z :=
  match b with
  | [] => []
  | c :: b' =>
      match skip with
      | S k => subst_all from to b' k
      | O => if bool_decide (take (length from) b = from)
             then to ++ subst_all from to b' (length from - 1)
             else c :: subst_all from to b' 0
      end
  end.

Lemma subst_all_skip (from to ds b : list Z) :
  subst_all from to (ds ++ b) (length ds) = subst_all from to b 0.
Proof. by induction ds as [|d ds IH]; simpl; [destruct b|]. Qed.

Lemma subst_all_hit (from to b : list Z) :
  from <> [] -> subst_all from to (from ++ b) 0 = to ++ subst_all from to b 0.
Proof.
  destruct from as [|f from]; [done|]. intros _.
  cbn [app subst_all]. rewrite bool_decide_eq_true_2.
  - f_equal. cbn [length]. rewrite Nat.sub_succ, Nat.sub_0_r. apply subst_all_skip.
  - change (f :: from ++ b) with ((f :: from) ++ b). apply take_app_length.
Qed.

(** In front of the first occurrence nothing changes. *)
Lemma subst_all_miss (from to A b : list Z) :
  (forall j, (j < length A)%nat -> ~ prefix_at (A ++ b) from j) ->
  subst_all from to (A ++ b) 0 = A ++ subst_all from to b 0.
Proof.
  induction A as [|c A IH]; intros H; [done|]. cbn [app subst_all].
  rewrite bool_decide_eq_false_2.
  - f_equal. apply IH. intros j Hj Hp. apply (H (S j)); [simpl; lia|exact Hp].
  - intros E. apply (H O); [simpl; lia|]. unfold prefix_at, block. by rewrite drop_0.
Qed.

Lemma subst_all_none (from to b : list Z) :
  (forall j, (j + length from <= length b)%nat -> ~ prefix_at b from j) -> from <> [] ->
  subst_all from to b 0 = b.
Proof.
  intros H Hne. rewrite <- (app_nil_r b) at 1. rewrite subst_all_miss.
  - simpl. apply app_nil_r.
  - rewrite app_nil_r. intros j Hj. destruct (decide (j + length from <= length b)%nat).
    + auto.
    + unfold prefix_at. intros E. apply (f_equal length) in E. unfold block in E.
      rewrite length_take, length_drop in E. lia.
Qed.

(** What [byte_findb] finds in the first [n] bytes of an object. *)
Lemma findb_split (s w : list Z) (n : nat) :
  (n <= length s)%nat -> w <> [] ->
  exists i, byte_findb s n w (length w) = Some i /\
    ((i = n /\ forall j, (j + length w <= n)%nat -> ~ prefix_at (take n s) w j) \/
     ((i + length w <= n)%nat /\ take n s = take i s ++ w ++ block s (i + length w) (n - (i + length w)) /\
       forall j, (j < i)%nat -> ~ prefix_at (take n s) w j)).
Proof.
  intros Hn Hw. unfold byte_findb.
  assert (forall j, (j + length w <= n)%nat -> prefix_at s w j <-> prefix_at (take n s) w j) as Hp.
  { intros j Hj. unfold prefix_at, block. rewrite skipn_firstn_comm, take_take.
    by rewrite Nat.min_l by lia. }
  destruct (Nat.ltb_spec n (length w)).
  { exists n. split; [done|]. left. split; [done|]. intros. lia. }
  destruct (byte_findb_loop_spec w n (S (n - length w)) s 0) as (i & -> & Hi); [lia|].
  exists i. split; [done|].
  destruct Hi as [[-> Hno]|(j & -> & Hj & Hhit & Hno)]; [left|right].
  - split; [done|]. intros j Hj. rewrite <- Hp by done. apply Hno. lia.
  - simpl. split; [lia|]. split.
    + rewrite <- (take_drop j (take n s)), take_take, Nat.min_l by lia. f_equal.
      rewrite <- Hhit at 1. unfold block.
      rewrite <- (take_drop (length w) (drop j (take n s))). f_equal.
      * rewrite skipn_firstn_comm, take_take. by rewrite Nat.min_l by lia.
      * by rewrite drop_drop, skipn_firstn_comm.
    + intros j' Hj'. rewrite <- Hp by lia. by apply Hno.
Qed.

Lemma byte_diff_app (w z : list Z) : forall (a : list Z),
  byte_diff a (length w) (w ++ z) = byte_diff a (length w) w.
Proof. induction w as [|c w IH]; intros [|x a]; simpl; [done..|]. by rewrite IH. Qed.

Lemma byte_findb_loop_app (w z : list Z) (n k : nat) : forall (s : list Z) (i : nat),
  byte_findb_loop s n (w ++ z) (length w) i k = byte_findb_loop s n w (length w) i k.
Proof.
  induction k as [|k IH]; intros s i; simpl; [done|].
  unfold byte_equal. rewrite byte_diff_app. destruct (byte_diff s (length w) w); simpl; [|done].
  by rewrite IH.
Qed.

Lemma byte_findb_app (s w z : list Z) (n : nat) :
  byte_findb s n (w ++ z) (length w) = byte_findb s n w (length w).
Proof. unfold byte_findb. by rewrite byte_findb_loop_app. Qed.

Lemma str_len_cstr (l z : list Z) : nonul l -> str_len (cstr l ++ z) = Some (length l).
Proof.
  unfold cstr. induction 1 as [|c l Hc _ IH]; simpl in *; [done|].
  zfalse (c =? 0). by rewrite IH.
Qed.

(** The string ends up as [ys], or memory ran out on the way and it is some
    other string. *)
Definition reaches (m : mem) (sa : stralloc) (ys : list Z) (r : result) : Prop :=
  exists ok m' sa' zs, r = Some (ok, m', sa') /\ evolves m sa m' sa' /\ rep m' sa' zs /\
    (ok = true -> zs = ys) /\ (ok = false -> false ∈ answers m).

(** [done] has been dealt with, [todo] has not. *)
Lemma replaces_loop_ok (from to z1 z2 : list Z) (fuel : nat) :
  from <> [] -> forall (m : mem) (sa : stralloc) (pre todo : list Z),
  rep m sa (pre ++ todo) -> (length todo < fuel)%nat ->
  small (Z.of_nat (length pre) + Z.of_nat (length todo) * (1 + Z.of_nat (length to)) + Z.of_nat (length to)) ->
  is_Some (sa_s sa) ->
  reaches m sa (pre ++ subst_all from to todo 0)
    (replaces_loop m sa (Z.of_nat (length pre)) (from ++ z1) (Z.of_nat (length from))
       (to ++ z2) (Z.of_nat (length to)) fuel).
Proof.
  intros Hne. induction fuel as [|fuel IH]; intros m sa pre todo H Hf Hs Hb0; [lia|].
  pose proof (rep_len _ _ _ H) as Hl. rewrite length_app in Hl. cbn [replaces_loop].
  assert (evolves m sa m sa) as Hrefl.
  { replace sa with (SA (sa_s sa) (sa_len sa) (sa_a sa)) at 2 by (by destruct sa).
    apply evolves_refl, H. }
  destruct (Z.ltb_spec (Z.of_nat (length pre)) (sa_len sa)) as [Hlt|Hge].
  2: { destruct todo; [|simpl in *; lia]. exists true, m, sa, pre.
       rewrite app_nil_r in *. by simpl. }
  destruct (rep_view _ _ _ H) as (l & -> & Ht & Hle). cbn [mbind option_bind].
  rewrite length_app in Ht, Hle.
  rewrite !Nat2Z.id, byte_findb_app.
  replace (Z.to_nat (sa_len sa - Z.of_nat (length pre))) with (length todo) by lia.
  assert (take (length todo) (drop (length pre) l) = todo) as Htodo.
  { rewrite take_drop_commute, Ht. apply drop_app_length. }
  destruct (findb_split (drop (length pre) l) from (length todo)) as (i & -> & Hi);
    [rewrite length_drop; lia|done|].
  cbn [mbind option_bind]. rewrite Htodo in Hi.
  destruct Hi as [[-> Hno]|(Hi & Hsplit & Hno)].
  { ztrue (Z.of_nat (length pre) + Z.of_nat (length todo) =? sa_len sa).
    exists true, m, sa, (pre ++ todo). split; [done|]. split; [done|]. split; [done|].
    split; [|done]. intros _. by rewrite subst_all_none. }
  assert (1 <= length from)%nat by (destruct from; [done|simpl; lia]).
  zfalse (Z.of_nat (length pre) + Z.of_nat i =? sa_len sa).
  set (A := take i (drop (length pre) l)) in *.
  set (B := block (drop (length pre) l) (i + length from) _) in *.
  assert (length A = i) as HA.
  { subst A. rewrite length_take, length_drop. lia. }
  assert (length todo = i + length from + length B)%nat as Hlt'.
  { rewrite Hsplit, !length_app, HA. lia. }
  clearbody A B. subst i. clear Htodo. subst todo. set (K := Z.of_nat (length to)) in *.
  assert (Z.of_nat (length pre + length A) + K + Z.of_nat (length B) * (1 + K) + K < 2 ^ 60) as Hbig.
  { unfold small in Hs. rewrite Hlt' in Hs. nia. }
  rewrite subst_all_miss, subst_all_hit by (rewrite ?length_app; done).
  assert (small (Z.of_nat (length (pre ++ A ++ from ++ B)) + K)) as Hsm.
  { unfold small in *. rewrite length_app, Hlt'. rewrite Hlt' in Hs.
    assert (0 <= Z.of_nat (length A + length from + length B) * K)
      by (apply Z.mul_nonneg_nonneg; lia). lia. }
  destruct (ready_gap_ok m sa _ (Z.of_nat (length from)) K H Hb0)
    as (ok & m1 & sa1 & -> & E1 & R1 & Hl1 & Hroom & Hfail);
    [rewrite !length_app; lia|lia|done|].
  cbn [mbind option_bind]. destruct ok.
  2: { exists false, m1, sa1. eexists. split; [done|]. split; [done|]. split; [exact R1|].
       split; [done|exact Hfail]. }
  destruct (Hroom eq_refl) as (Hr & b & Hb). rewrite Hb. cbn [mbind option_bind].
  destruct (rep_room _ _ _ _ R1 Hb) as (l1 & Hblk & Ha1 & Ht1 & Hle1).
  rewrite Hl1, Hl. rewrite u64_id by (unfold small in Hsm; rewrite !length_app in *; split; lia).
  destruct (sa_gap_ok m1 sa1 (pre ++ A ++ from ++ B) l1 to b
    (Z.of_nat (length pre) + Z.of_nat (length A)) (Z.of_nat (length from))
    (Z.of_nat (length B)) (Const (to ++ z2)) K) as (l2 & E2 & Hl2 & Hzs & Ht2);
    try first [ done | rewrite !length_app; lia | apply reads_const
              | exact (rep_len _ _ _ R1) | exact (rep_wf _ _ _ R1) | lia ].
  replace (Z.of_nat (length pre + length (A ++ from ++ B)) -
    (Z.of_nat (length pre) + Z.of_nat (length A)) - Z.of_nat (length from))
    with (Z.of_nat (length B)) by (rewrite !length_app; lia).
  rewrite E2. cbn [mbind option_bind].
  assert (replaced (pre ++ A ++ from ++ B) (Z.to_nat (Z.of_nat (length pre) + Z.of_nat (length A)))
    (Z.to_nat (Z.of_nat (length pre) + Z.of_nat (length A) + Z.of_nat (length from))) to =
    (pre ++ A ++ to) ++ B) as Er.
  { unfold replaced.
    replace (Z.to_nat (Z.of_nat (length pre) + Z.of_nat (length A))) with (length (pre ++ A))
      by (rewrite length_app; lia).
    replace (Z.to_nat _) with (length (pre ++ A ++ from)) by (rewrite !length_app; lia).
    rewrite (app_assoc pre A (from ++ B)) at 1. rewrite take_app_length.
    replace (pre ++ A ++ from ++ B) with ((pre ++ A ++ from) ++ B) by (by rewrite <- !app_assoc).
    rewrite drop_app_length. by rewrite <- !app_assoc. }
  rewrite Er in Hzs, Ht2. cbv zeta in Hzs, Ht2.
  replace (Z.of_nat (length (pre ++ A ++ from ++ B)) + (K - Z.of_nat (length from)))
    with (Z.of_nat (length ((pre ++ A ++ to) ++ B))) by (rewrite !length_app; lia).
  replace (Z.of_nat (length pre) + Z.of_nat (length A) + K)
    with (Z.of_nat (length (pre ++ A ++ to))) by (rewrite !length_app; lia).
  destruct (IH (put m1 b l2) (SA (Some b) (Z.of_nat (length ((pre ++ A ++ to) ++ B))) (sa_a sa1))
    (pre ++ A ++ to) B) as (ok & m3 & sa3 & zs & -> & E3 & R3 & Hok & Hno').
  - by apply (rep_put _ _ _ _ l1 _ b R1).
  - lia.
  - unfold small. rewrite !length_app. subst K.
    assert (0 <= Z.of_nat (length B) * Z.of_nat (length to)) by (apply Z.mul_nonneg_nonneg; lia).
    lia.
  - by eexists.
  - exists ok, m3, sa3, zs. split; [done|]. split; [|split; [done|split]].
    + eapply evolves_trans; [exact E1|]. eapply evolves_trans; [|exact E3].
      apply (evolves_put _ _ _ _ l1); [apply R1|done..].
    + intros Ho. rewrite (Hok Ho). by rewrite <- !app_assoc.
    + intros Ho. apply E1. simpl in Hno'. by apply Hno'.
Qed.

Lemma cats_ok (m : mem) (sa : stralloc) (xs ys z : list Z) :
  rep m sa xs -> nonul ys -> small (Z.of_nat (length xs + length ys)) ->
  yields m sa xs (xs ++ ys) (stralloc_cats m sa (Const (cstr ys ++ z))).
Proof.
  intros H Hn Hs. unfold stralloc_cats, ptr_len. cbn [view mbind option_bind].
  rewrite str_len_cstr by done. cbn [mbind option_bind].
  apply catb_ok; [done| |done|by rewrite <- Nat2Z.inj_add].
  unfold cstr. rewrite <- app_assoc. apply reads_const.
Qed.

Lemma byte_equal_app (w z a : list Z) :
  byte_equal (w ++ z) (length w) a = byte_equal w (length w) a.
Proof.
  unfold byte_equal. f_equal. revert a. induction w as [|c w IH]; intros [|x a]; simpl; [done..|].
  by rewrite IH.
Qed.

(** The test of [stralloc_subst] at one place. *)
Lemma subst_test (from z1 todo q pre : list Z) :
  (if (length pre + length from <=? length pre + length todo)%nat
   then byte_equal (from ++ z1) (length from) (drop (length pre) (pre ++ todo ++ q))
   else Some false) = Some (bool_decide (take (length from) todo = from)).
Proof.
  rewrite drop_app_length. destruct (Nat.leb_spec (length pre + length from) (length pre + length todo)).
  - rewrite byte_equal_app, byte_equal_spec by (rewrite ?length_app; lia).
    rewrite firstn_all, take_app_le by lia. f_equal. apply bool_decide_ext. by split.
  - rewrite bool_decide_eq_false_2; [done|]. intros E. apply (f_equal length) in E.
    rewrite length_take in E. lia.
Qed.

(** One step of a loop of operations. *)
Lemma reaches_bind (m : mem) (sa : stralloc) (xs ys zs : list Z) (r : result)
    (k : mem -> stralloc -> result) :
  yields m sa xs ys r ->
  (forall m' sa', evolves m sa m' sa' -> rep m' sa' ys -> reaches m' sa' zs (k m' sa')) ->
  reaches m sa zs
    ('(ok, m, sa) ← r; if (ok : bool) then k m sa else Some (false, m, sa)).
Proof.
  intros (ok & m1 & sa1 & -> & E & R & Hf) Hk. cbn [mbind option_bind]. destruct ok.
  - destruct (Hk m1 sa1 E R) as (ok & m2 & sa2 & ws & -> & E2 & R2 & Hok & Hf2).
    exists ok, m2, sa2, ws. split; [done|]. split; [by eapply evolves_trans|].
    split; [done|]. split; [done|]. intros Ho. apply E. by apply Hf2.
  - exists false, m1, sa1, xs. split; [done|]. split; [done|]. split; [done|].
    split; [done|exact Hf].
Qed.

(** The source has been dealt with up to [todo]. *)
Lemma subst_loop_ok (from to z1 z2 q : list Z) (fuel : nat) :
  from <> [] -> nonul to ->
  forall (m : mem) (out : stralloc) (xs pre todo : list Z),
  rep m out xs -> (length todo < fuel)%nat ->
  small (Z.of_nat (length xs) + Z.of_nat (length todo) * (1 + Z.of_nat (length to))) ->
  reaches m out (xs ++ subst_all from to todo 0)
    (subst_loop m out (pre ++ todo ++ q) (length pre) (length pre + length todo)
       (from ++ z1) (length from) (cstr to ++ z2) fuel).
Proof.
  intros Hne Hto. assert (1 <= length from)%nat by (destruct from; [done|simpl; lia]).
  induction fuel as [|fuel IH]; intros m out xs pre todo H0 Hf Hs; [lia|].
  cbn [subst_loop].
  assert (forall ps : list Z, 0 <= Z.of_nat (length ps) * Z.of_nat (length to)) as Hpos
    by (intros; apply Z.mul_nonneg_nonneg; lia).
  destruct todo as [|c todo].
  { rewrite Nat.add_0_r, Nat.ltb_irrefl, app_nil_r. exists true, m, out, xs.
    split; [done|]. split; [|done].
    replace out with (SA (sa_s out) (sa_len out) (sa_a out)) at 2 by (by destruct out).
    apply evolves_refl, H0. }
  destruct (Nat.ltb_spec (length pre) (length pre + length (c :: todo))); [|simpl in *; lia].
  rewrite subst_test. cbn [mbind option_bind].
  case_bool_decide as Hhit.
  - assert (c :: todo = from ++ drop (length from) (c :: todo)) as Hsp
      by (by rewrite <- Hhit at 1; rewrite take_drop).
    set (B := drop (length from) (c :: todo)) in *. clearbody B. rewrite Hsp in *.
    clear Hhit Hsp todo c. rewrite length_app in *. pose proof (Hpos B). pose proof (Hpos from).
    assert (Z.of_nat (length to) <= Z.of_nat (length from) * Z.of_nat (length to)) by nia.
    unfold small in Hs. rewrite subst_all_hit by done.
    apply (reaches_bind _ _ xs (xs ++ to)); [apply cats_ok; [done|done|unfold small; lia]|].
    intros m' out' _ R. rewrite app_assoc.
    replace (pre ++ (from ++ B) ++ q) with ((pre ++ from) ++ B ++ q) by (by rewrite <- !app_assoc).
    replace (length pre + length from)%nat with (length (pre ++ from)) by apply length_app.
    replace (length pre + (length from + length B))%nat with (length (pre ++ from) + length B)%nat
      by (rewrite length_app; lia).
    apply IH; [done|lia|]. unfold small. rewrite length_app. lia.
  - cbn [subst_all]. rewrite bool_decide_eq_false_2 by done.
    cbn [length] in *. pose proof (Hpos todo). unfold small in Hs.
    rewrite drop_app_length. cbn [app].
    apply (reaches_bind _ _ xs (xs ++ [c])).
    { apply append_ok; [done| |unfold small; lia]. apply (reads_const _ _ [c]). }
    intros m' out' _ R.
    replace (xs ++ c :: subst_all from to todo 0) with ((xs ++ [c]) ++ subst_all from to todo 0)
      by (by rewrite <- app_assoc).
    replace (pre ++ c :: todo ++ q) with ((pre ++ [c]) ++ todo ++ q) by (by rewrite <- app_assoc).
    replace (S (length pre)) with (length (pre ++ [c])) by (rewrite length_app; simpl; lia).
    replace (length pre + S (length todo))%nat with (length (pre ++ [c]) + length todo)%nat
      by (rewrite length_app; simpl; lia).
    apply IH; [done|lia|]. unfold small. rewrite length_app. simpl. lia.
Qed.

(** ** Sequences of operations *)

#[export] Instance small_dec (n : Z) : Decision (small n).
Proof. unfold small. apply _. Defined.

(** The changing operations; a source is a pointer and the bytes there. *)
Inductive sa_op : Type :=
  | Copy (p : ptr) (ys : list Z)
  | Cat (p : ptr) (ys : list Z)
  | Putc (c : Z)
  | Insert (p : ptr) (ys : list Z) (pos : nat)
  | Replace (pos len : nat) (p : ptr) (ys : list Z)
  | Remove (pos n : nat)
  | RemoveAll (del : list Z)
  | Reverse
  | Zero.

Definition zlen (l : list Z) : Z := Z.of_nat (length l).

Definition run_sa (m : mem) (sa : stralloc) (o : sa_op) : result :=
  match o with
  | Copy p ys => stralloc_copyb m sa p (zlen ys)
  | Cat p ys => stralloc_catb m sa p (zlen ys)
  | Putc c => stralloc_catc m sa c
  | Insert p ys pos => stralloc_insertb m sa p (Z.of_nat pos) (zlen ys)
  | Replace pos len p ys => stralloc_replace m sa (Z.of_nat pos) (Z.of_nat len) p (zlen ys)
  | Remove pos n =>
      '(_, m, sa) ← stralloc_remove m sa (Z.of_nat pos) (Z.of_nat n); Some (true, m, sa)
  | RemoveAll del => '(m, sa) ← stralloc_remove_all m sa del (length del); Some (true, m, sa)
  | Reverse => m ← stralloc_reverse m sa; Some (true, m, sa)
  | Zero => Some (true, m, stralloc_zero sa)
  end.

(** The caller stops at the first operation that finds no memory. *)
Fixpoint run_sas (m : mem) (sa : stralloc) (os : list sa_op) : result :=
  match os with
  | [] => Some (true, m, sa)
  | o :: os =>
      '(ok, m, sa) ← run_sa m sa o;
      if (ok : bool) then run_sas m sa os else Some (false, m, sa)
  end.

(** The same on byte strings.  Positions are within the string, sizes are
    [small]. *)
Definition spec_sa (xs : list Z) (o : sa_op) : option (list Z) :=
  match o with
  | Copy _ ys => if decide (small (zlen ys)) then Some ys else None
  | Cat _ ys => if decide (small (zlen xs + zlen ys)) then Some (xs ++ ys) else None
  | Putc c => if decide (small (zlen xs + 1)) then Some (xs ++ [c]) else None
  | Insert _ ys pos =>
      if decide (small (zlen xs + zlen ys)) then Some (replaced xs pos pos ys) else None
  | Replace pos len _ ys =>
      if decide (xs <> [] /\ (pos + len <= length xs)%nat /\ small (zlen xs + zlen ys))
      then Some (replaced xs pos (pos + len) ys) else None
  | Remove pos n =>
      if decide ((pos < length xs)%nat /\ Z.of_nat n < 2 ^ 62 /\ zlen xs < 2 ^ 62)
      then Some (replaced xs pos (pos + n) []) else None
  | RemoveAll del => Some (List.filter (fun c => negb (in_set del c)) xs)
  | Reverse => Some (reverse xs)
  | Zero => Some []
  end.

Fixpoint spec_sas (xs : list Z) (os : list sa_op) : option (list Z) :=
  match os with
  | [] => Some xs
  | o :: os => xs ← spec_sa xs o; spec_sas xs os
  end.

(** The source of an operation is outside the string. *)
Definition reads_op (m : mem) (sa : stralloc) (o : sa_op) : Prop :=
  match o with
  | Copy p ys | Cat p ys | Insert p ys _ | Replace _ _ p ys => reads m sa p ys
  | _ => True
  end.

Lemma reads_op_evolves (m m' : mem) (sa sa' : stralloc) (o : sa_op) :
  evolves m sa m' sa' -> reads_op m sa o -> reads_op m' sa' o.
Proof. intros E. destruct o; simpl; [..|done|done|done|done]; try done; by apply reads_evolves. Qed.

Lemma edits_yields (m m' : mem) (sa sa' : stralloc) (xs ys : list Z) :
  edits m sa ys m' sa' -> yields m sa xs ys (Some (true, m', sa')).
Proof. intros [E R]. by exists true, m', sa'. Qed.

Lemma run_sa_ok (m : mem) (sa : stralloc) (xs ys : list Z) (o : sa_op) :
  rep m sa xs -> reads_op m sa o -> spec_sa xs o = Some ys ->
  yields m sa xs ys (run_sa m sa o).
Proof.
  intros H Hr Hs. destruct o as [p zs|p zs|c|p zs pos|pos len p zs|pos n|del| |];
    cbn [spec_sa run_sa reads_op] in *; try (case_decide as Hd; [|done]);
    try (injection Hs as <-); unfold zlen in *.
  - by apply copyb_ok.
  - by apply catb_ok.
  - by apply catc_ok.
  - rewrite <- (Nat2Z.id pos) at 1 2. apply insertb_ok; (done || lia).
  - destruct Hd as (Hne & Hp & Hsm). rewrite <- (Nat2Z.id pos) at 1.
    rewrite <- (Nat2Z.id (pos + len)), Nat2Z.inj_add. apply replace_ok; try (done || lia).
    pose proof (rep_block _ _ _ H). destruct (sa_s sa); [by eexists|done].
  - destruct Hd as (Hp & Hn & Hx).
    destruct (remove_ok' m sa xs (Z.of_nat pos) (Z.of_nat n)) as (m' & sa' & -> & E);
      [done|lia|lia|lia|]. cbn [mbind option_bind]. apply edits_yields.
    rewrite Nat2Z.id in E. unfold replaced in *.
    destruct (decide (pos + n <= length xs)%nat).
    + rewrite Z.min_l in E by lia. by replace (Z.to_nat (Z.of_nat pos + Z.of_nat n))
        with (pos + n)%nat in E by lia.
    + rewrite (drop_ge xs (pos + n)) by lia. rewrite drop_ge in E by lia. exact E.
  - destruct (remove_all_ok m sa xs del H) as (m' & sa' & -> & E). cbn [mbind option_bind].
    by apply edits_yields.
  - destruct (reverse_ok m sa xs H) as (m' & -> & E). cbn [mbind option_bind].
    by apply edits_yields.
  - apply edits_yields. apply (shorten_ok m sa xs 0); [done|lia].
Qed.

(** What a run leaves: everything done, or everything up to the operation that
    found no memory. *)
Lemma run_sas_ok (os : list sa_op) : forall (m : mem) (sa : stralloc) (xs ys : list Z),
  rep m sa xs -> Forall (reads_op m sa) os -> spec_sas xs os = Some ys ->
  exists ok m' sa' zs, run_sas m sa os = Some (ok, m', sa') /\ evolves m sa m' sa' /\
    rep m' sa' zs /\ (ok = true -> zs = ys) /\
    (ok = false -> false ∈ answers m /\
       exists os1 o os2, os = os1 ++ o :: os2 /\ spec_sas xs os1 = Some zs).
Proof.
  induction os as [|o os IH]; intros m sa xs ys H Hr Hs; cbn [run_sas spec_sas] in *.
  { injection Hs as <-. exists true, m, sa, xs. split; [done|]. split; [|done].
    replace sa with (SA (sa_s sa) (sa_len sa) (sa_a sa)) at 2 by (by destruct sa).
    apply evolves_refl, H. }
  apply list.Forall_cons in Hr as [Ho Hr].
  destruct (spec_sa xs o) as [xs1|] eqn:E; [|done]. cbn [mbind option_bind] in Hs.
  destruct (run_sa_ok m sa xs xs1 o H Ho E) as (ok & m1 & sa1 & -> & E1 & R1 & Hf).
  cbn [mbind option_bind]. destruct ok.
  - destruct (IH m1 sa1 xs1 ys R1) as (ok & m2 & sa2 & zs & -> & E2 & R2 & Hok & Hno).
    { eapply list.Forall_impl; [exact Hr|]. intros o'. by apply reads_op_evolves. }
    { done. }
    exists ok, m2, sa2, zs. split; [done|]. split; [by eapply evolves_trans|].
    split; [done|]. split; [done|]. intros Hk.
    destruct (Hno Hk) as (Ha & os1 & o' & os2 & -> & Hsp). split; [by apply E1|].
    exists (o :: os1), o', os2. split; [done|]. cbn [spec_sas]. by rewrite E.
  - exists false, m1, sa1, xs. split; [done|]. split; [done|]. split; [done|].
    split; [done|]. intros _. split; [by apply Hf|]. by exists [], o, os.
Qed.

(** ** Comparison and search *)

(** Lexicographic order of byte strings. *)
Fixpoint lex (x y : list Z) : comparison :=
  match x, y with
  | [], [] => Eq
  | [], _ :: _ => Lt
  | _ :: _, [] => Gt
  | c :: x, d :: y => match c ?= d with Eq => lex x y | r => r end
  end.

Lemma lex_eq (x y : list Z) : lex x y = Eq <-> x = y.
Proof.
  revert y. induction x as [|c x IH]; intros [|d y]; simpl; try done.
  destruct (Z.compare_spec c d); [subst|..]; try (split; [done|]; intros [= ->]; lia).
  rewrite IH. split; [by intros ->|by intros [= ->]].
Qed.

Lemma sub_compare (c d : Z) : (c - d ?= 0) = (c ?= d).
Proof. destruct (Z.compare_spec (c - d) 0), (Z.compare_spec c d); (done || lia). Qed.

(** A step of the comparison loops. *)
Lemma diff_step (c d : Z) (k : option Z) (r : comparison) :
  (exists v, k = Some v /\ (v ?= 0) = r) ->
  exists v, (if negb (c - d =? 0) then Some (c - d) else k) = Some v /\
    (v ?= 0) = match c ?= d with Eq => r | s => s end.
Proof.
  intros (v & -> & Hv). destruct (Z.eqb_spec (c - d) 0) as [E|E]; simpl.
  - exists v. split; [done|]. assert (c = d) as -> by lia. by rewrite Z.compare_refl.
  - exists (c - d). split; [done|]. rewrite sub_compare.
    destruct (Z.compare_spec c d); [lia|done..].
Qed.

Lemma diff_loop_lex (xs ys z1 z2 : list Z) :
  exists v, diff_loop (xs ++ z1) (ys ++ z2) (length xs) (length ys) = Some v /\
    (v ?= 0) = lex xs ys.
Proof.
  revert ys. induction xs as [|c xs IH]; intros [|d ys]; cbn [app length diff_loop lex].
  1: by exists 0.
  1: by exists (-1).
  1: by exists 1.
  apply diff_step, IH.
Qed.

Lemma diffs_loop_lex (xs ys z1 z2 : list Z) :
  nonul ys ->
  exists v, diffs_loop (xs ++ z1) (length xs) (cstr ys ++ z2) = Some v /\
    (v ?= 0) = lex xs ys.
Proof.
  unfold cstr. intros Hn. revert ys Hn.
  induction xs as [|c xs IH]; intros [|d ys] Hn; cbn [app length diffs_loop lex].
  - by exists 0.
  - apply list.Forall_cons in Hn as [Hd Hn]. zfalse (d =? 0). by exists (-1).
  - by exists 1.
  - apply list.Forall_cons in Hn as [Hd Hn]. zfalse (d =? 0). apply diff_step, IH, Hn.
Qed.

(** The common length first, then the lengths. *)
Lemma byte_diff_lex (xs ys z1 z2 : list Z) :
  exists v, byte_diff (xs ++ z1) (length xs `min` length ys) (ys ++ z2) = Some v /\
    (v <> 0 -> (v ?= 0) = lex xs ys) /\
    (v = 0 -> lex xs ys = (Z.of_nat (length xs) ?= Z.of_nat (length ys))).
Proof.
  revert ys. induction xs as [|c xs IH]; intros [|d ys]; cbn [app length Nat.min byte_diff lex];
    try (exists 0; split; [done|]; done).
  destruct (IH ys) as (v & E & Hne & He). destruct (Z.eqb_spec (c - d) 0) as [Ez|Ez]; simpl negb.
  - cbv iota. exists v. split; [done|]. assert (c = d) as -> by lia. rewrite Z.compare_refl.
    split; [done|]. intros Hv. rewrite He by done.
    rewrite !Nat2Z.inj_succ. symmetry. apply Zcompare_succ_compat.
  - exists (c - d). split; [done|]. rewrite sub_compare.
    split; [|lia]. intros _. destruct (Z.compare_spec c d); [lia|done..].
Qed.

Lemma rep_split (m : mem) (sa : stralloc) (xs : list Z) :
  rep m sa xs -> exists z, sa_view m sa = Some (xs ++ z).
Proof.
  intros H. destruct (rep_view _ _ _ H) as (l & -> & Ht & _).
  exists (drop (length xs) l). f_equal. rewrite <- (take_drop (length xs) l) at 1. by rewrite Ht.
Qed.

(** Every comparison decides the lexicographic order. *)
Lemma compare_ok (m : mem) (sa sb : stralloc) (xs ys : list Z) :
  rep m sa xs -> rep m sb ys -> Z.of_nat (length xs) < 2 ^ 31 -> Z.of_nat (length ys) < 2 ^ 31 ->
  (exists v, stralloc_diff m sa sb = Some v /\ (v ?= 0) = lex xs ys) /\
  (exists v, stralloc_diffb m sa ys (Z.of_nat (length ys)) = Some v /\ (v ?= 0) = lex xs ys) /\
  (nonul ys -> exists v, stralloc_diffs m sa (cstr ys) = Some v /\ (v ?= 0) = lex xs ys).
Proof.
  intros Ha Hb Hx Hy. destruct (rep_split _ _ _ Ha) as [z1 E1].
  destruct (rep_split _ _ _ Hb) as [z2 E2].
  pose proof (rep_len _ _ _ Ha) as La. pose proof (rep_len _ _ _ Hb) as Lb.
  split; [|split].
  - unfold stralloc_diff. rewrite E1, E2. cbn [mbind option_bind]. rewrite La, Lb, !Nat2Z.id.
    apply diff_loop_lex.
  - unfold stralloc_diffb. rewrite E1. cbn [mbind option_bind]. rewrite La.
    replace (Z.to_nat _) with (length xs `min` length ys)%nat
      by (destruct (Z.ltb_spec (Z.of_nat (length ys)) (Z.of_nat (length xs))); lia).
    destruct (byte_diff_lex xs ys z1 []) as (v & E & Hne & He). rewrite app_nil_r in E.
    rewrite E. cbn [mbind option_bind]. destruct (Z.eqb_spec v 0) as [->|Hv]; simpl.
    + unfold s32. rewrite !(Z.mod_small (_ + 2147483648)) by lia. unfold chk32.
      ztrue ((-2147483648 <=? Z.of_nat (length xs) + 2147483648 - 2147483648 -
        (Z.of_nat (length ys) + 2147483648 - 2147483648)) &&
       (Z.of_nat (length xs) + 2147483648 - 2147483648 -
        (Z.of_nat (length ys) + 2147483648 - 2147483648) <? 2147483648)).
      eexists. split; [done|]. rewrite He by done.
      match goal with |- (?a ?= 0) = _ =>
        replace a with (Z.of_nat (length xs) - Z.of_nat (length ys)) by lia end.
      apply sub_compare.
    + exists v. auto.
  - intros Hn. unfold stralloc_diffs. rewrite E1. cbn [mbind option_bind]. rewrite La, Nat2Z.id.
    destruct (diffs_loop_lex xs ys z1 [] Hn) as (v & E & Hv). rewrite app_nil_r in E. eauto.
Qed.

(** Appending a string to itself: the source is the block that is grown. *)
Lemma cat_self_room (m : mem) (sa : stralloc) (xs : list Z) :
  rep m sa xs -> small (2 * Z.of_nat (length xs)) -> 2 * Z.of_nat (length xs) <= sa_a sa ->
  yields m sa xs (xs ++ xs) (stralloc_cat m sa sa).
Proof.
  intros H Hs Ha. pose proof H as [Hw Hl Hb]. unfold stralloc_cat, stralloc_catb.
  unfold small in Hs. unfold stralloc_readyplus, sa_ptr. destruct (sa_s sa) as [b|] eqn:Es.
  - destruct Hb as (l & Hb & Hla & Hpos & Ht).
    rewrite Hl, u64_id by (split; lia).
    zfalse (Z.of_nat (length xs) + Z.of_nat (length xs) <? Z.of_nat (length xs)).
    unfold stralloc_ready. rewrite Es, bool_decide_eq_true_2 by (by eexists).
    ztrue (Z.of_nat (length xs) + Z.of_nat (length xs) <=? sa_a sa). cbn [andb mbind option_bind].
    rewrite Es, Hl, Nat2Z.id. cbn [mbind option_bind].
    unfold mcopy, source. rewrite decide_True by done. cbn [mbind option_bind].
    unfold on_block. rewrite Hb. cbn [mbind option_bind].
    rewrite Nat2Z.id, byte_copy_spec by (simpl; lia). cbn [mbind option_bind src_block].
    rewrite u64_id by (split; lia).
    assert (block l 0 (length xs) = xs) as -> by (unfold block; by rewrite drop_0).
    apply edits_yields. replace (Z.of_nat (length xs) + Z.of_nat (length xs))
      with (Z.of_nat (length (xs ++ xs))) by (rewrite length_app; lia).
    apply (write_ok _ _ xs _ l); try done; [apply splice_length; lia|].
    apply take_splice_app; [done|lia].
  - subst xs. rewrite Hl. pose proof (catb_ok m sa [] [] (Const []) 0 H (reads_all _ _ _)) as Hc.
    unfold stralloc_catb, stralloc_readyplus in Hc. rewrite Es in Hc. apply Hc; [done|].
    unfold small. simpl. lia.
Qed.

Lemma cat_self_grow (m : mem) (sa : stralloc) (xs : list Z) :
  rep m sa xs -> small (2 * Z.of_nat (length xs)) -> sa_a sa < 2 * Z.of_nat (length xs) ->
  is_Some (sa_s sa) -> false ∉ answers m -> stralloc_cat m sa sa = None.
Proof.
  intros H Hs Ha [b Es] Hans. pose proof H as [Hw Hl Hb].
  unfold stralloc_cat, stralloc_catb, sa_ptr.
  pose proof Hs as Hs'. unfold small in Hs'. rewrite Es in *.
  destruct Hb as (l & Hb & Hla & Hpos & Ht).
  unfold stralloc_readyplus. rewrite Es, Hl, u64_id by (split; lia).
  zfalse (Z.of_nat (length xs) + Z.of_nat (length xs) <? Z.of_nat (length xs)).
  replace (Z.of_nat (length xs) + Z.of_nat (length xs)) with (2 * Z.of_nat (length xs)) by lia.
  unfold stralloc_ready. rewrite Es, bool_decide_eq_true_2 by (by eexists).
  zfalse (2 * Z.of_nat (length xs) <=? sa_a sa). cbn [andb negb]. zfalse (sa_a sa =? 0).
  cbn [orb]. destruct (small_wanted (2 * Z.of_nat (length xs)) Hs) as [-> Hgt].
  set (w := 2 * _ + _ + _) in *.
  destruct (realloc_ok m b l w Hw Hb) as
    [(b' & m' & l' & -> & [W R N A] & Hb' & Hlen & Ht')|(m' & _ & Hf & _)]; [lia| |done].
  cbn [mbind option_bind sa_s sa_len]. unfold mcopy, source.
  assert (b <> b') as Hne by (intros ->; congruence).
  rewrite decide_False by done.
  assert (blocks m' !! b = None) as ->; [|done].
  rewrite <- (lookup_delete_ne (blocks m') b' b) by done.
  change (rest m' (Some b') !! b = None). rewrite R. apply lookup_delete_eq.
Qed.

(** A larger number has no fewer digits. *)
Lemma numeral_length_mono (i j : Z) :
  0 <= i <= j -> is_u64 j -> (length (numeral 10 i) <= length (numeral 10 j))%nat.
Proof.
  intros Hi Hj. assert (0 <= i) as H0 by lia. revert j Hi Hj. pattern i.
  apply (Zlt_0_ind); [|exact H0]. clear i H0. intros i IH H0 j Hi Hj.
  destruct (Z.ltb_spec i 10).
  - assert (length (numeral 10 i) = 1%nat) as ->.
    { unfold numeral. change 64%nat with (S 63). rewrite digits_acc_S. by ztrue (i <? 10). }
    apply (numeral_nonempty 10 j); lia.
  - rewrite (numeral_div 10 i), (numeral_div 10 j) by (unfold is_u64 in *; lia).
    rewrite !length_app. apply Nat.add_le_mono_r. apply IH; [zmod|zmod|zmod].
Qed.

Lemma catulong_text (i : Z) (n : nat) :
  is_u64 i ->
  snd (fmt_ulong0 false i n) = snd (fmt_ulong0 true i n) /\
  length (fst (fmt_ulong0 true i n)) = snd (fmt_ulong0 true i n) /\
  fst (fmt_ulong0 true i n) =
    replicate (n - length (numeral 10 i)) 48 ++ (dec_char <$> numeral 10 i).
Proof.
  intros Hi. rewrite !fmt_ulong0_num by done. cbn [fst snd].
  rewrite length_app, length_replicate, length_fmap. split; [done|]. split; [lia|done].
Qed.

(** ** Memory that lasts *)

(** Clients that do not look at the results rely on requests being granted. *)
Definition lasts (m : mem) : Prop := false ∉ answers m.

Lemma lasts_evolves (m m' : mem) (sa sa' : stralloc) :
  evolves m sa m' sa' -> lasts m -> lasts m'.
Proof. intros [_ _ _ H] Hm Hf. by apply Hm, H. Qed.

Lemma yields_now (m : mem) (sa : stralloc) (xs ys : list Z) (r : result) :
  lasts m -> yields m sa xs ys r ->
  exists m' sa', r = Some (true, m', sa') /\ edits m sa ys m' sa' /\ lasts m'.
Proof.
  intros Hm (ok & m' & sa' & -> & E & R & Hf). destruct ok; [|by destruct Hm; auto].
  exists m', sa'. split; [done|]. split; [done|]. by eapply lasts_evolves.
Qed.

Lemma edits_trans (m m1 m2 : mem) (sa sa1 sa2 : stralloc) (xs ys : list Z) :
  edits m sa xs m1 sa1 -> edits m1 sa1 ys m2 sa2 -> edits m sa ys m2 sa2.
Proof. intros [E1 _] [E2 R2]. split; [by eapply evolves_trans|done]. Qed.

(** [stralloc_nul] puts a terminator behind the string. *)
Lemma nul_ok (m : mem) (sa : stralloc) (xs : list Z) :
  rep m sa xs -> lasts m -> small (Z.of_nat (length xs) + 1) ->
  exists m' sa' z, stralloc_nul m sa = Some (true, m', sa') /\ edits m sa xs m' sa' /\
    lasts m' /\ sa_view m' sa' = Some (xs ++ 0 :: z).
Proof.
  intros H Hm Hs. unfold stralloc_nul.
  destruct (readyplus_ok m sa xs 1 H Hs ltac:(lia)) as (ok & m1 & sa1 & -> & E & R & Hl & Ht & Hf).
  cbn [mbind option_bind]. destruct ok; [|by destruct Hm; auto].
  destruct (Ht eq_refl) as (Hn & b & Hb). pose proof (rep_len _ _ _ R) as Hl1.
  destruct (rep_room _ _ _ _ R Hb) as (l & Hblk & Ha & Htk & Hle).
  unfold sa_store_end. rewrite Hb, Hl1, Nat2Z.id. cbn [mbind option_bind].
  unfold mstore, on_block. rewrite Hblk. cbn [mbind option_bind].
  rewrite store_Some by lia. cbn [mbind option_bind].
  exists (put m1 b (<[length xs:=0]> l)), sa1, (drop (S (length xs)) l). split; [done|].
  assert (take (length xs) (<[length xs:=0]> l) = xs) as Htk'
    by (rewrite take_insert_ge by lia; done).
  assert (edits m1 sa1 xs (put m1 b (<[length xs:=0]> l))
    (SA (Some b) (Z.of_nat (length xs)) (sa_a sa1))) as Hed.
  { eapply write_ok; try done. apply length_insert. }
  replace (SA (Some b) (Z.of_nat (length xs)) (sa_a sa1)) with sa1 in Hed
    by (destruct sa1; simpl in *; congruence).
  split; [|split].
  - eapply edits_trans; [split; [exact E|exact R]|exact Hed].
  - change (lasts m1). by eapply lasts_evolves.
  - unfold sa_view, sa_ptr. rewrite Hb. simpl. rewrite lookup_insert_eq. cbn [fmap option_fmap option_map].
    rewrite drop_0. f_equal.
    rewrite <- (take_drop (length xs) (<[length xs:=0]> l)), Htk'. f_equal.
    rewrite (drop_S _ 0) by (apply list_lookup_insert_eq; lia).
    by rewrite drop_insert_lt by lia.
Qed.

Lemma edits_refl (m : mem) (sa : stralloc) (xs : list Z) : rep m sa xs -> edits m sa xs m sa.
Proof. intros H. split; [|done]. destruct sa. eapply evolves_refl, rep_wf, H. Qed.

Lemma load_last (m : mem) (sa : stralloc) (xs : list Z) (x : Z) :
  rep m sa (xs ++ [x]) -> exists l, sa_view m sa = Some l /\
    load l (Z.to_nat (sa_len sa) - 1) = Some x.
Proof.
  intros H. destruct (rep_view m sa _ H) as (l & Hv & Ht & Hl). exists l. split; [done|].
  rewrite (rep_len _ _ _ H), Nat2Z.id, length_app. cbn [length].
  replace (length xs + 1 - 1)%nat with (length xs) by lia. unfold load.
  rewrite <- (take_drop (length (xs ++ [x])) l), Ht, <- app_assoc.
  rewrite lookup_app_r by lia. by rewrite Nat.sub_diag.
Qed.

Lemma zero_ok (m : mem) (sa : stralloc) (xs : list Z) :
  rep m sa xs -> edits m sa [] m (stralloc_zero sa).
Proof. intros H. apply (shorten_ok m sa xs 0 H). lia. Qed.

(** An operation on another string leaves this one alone. *)
Definition apart (sa sb : stralloc) : Prop := sa_s sb = None \/ sa_s sb <> sa_s sa.

Lemma rep_other (m m' : mem) (sa sa' sb : stralloc) (ys : list Z) :
  evolves m sa m' sa' -> apart sa sb -> rep m sb ys -> rep m' sb ys /\ apart sa' sb.
Proof.
  intros [Hw Hrest Hblk _] Ha [_ Hl Hb]. unfold apart in *. destruct (sa_s sb) as [b|] eqn:Es.
  2:{ split; [split; [done|done|by rewrite Es]|by left]. }
  destruct Hb as (l & Hb & Hlen). destruct Ha as [|Ha]; [done|].
  assert (sa_s sa' <> Some b) as Hne.
  { destruct Hblk as [->|(b' & -> & Hf)]; [congruence|]. intros [= ->]. congruence. }
  split; [|by right]. split; [done|done|]. rewrite Es. exists l. split; [|done].
  assert (rest m (sa_s sa) !! b = Some l) as H
    by (destruct (sa_s sa); simpl; [rewrite lookup_delete_ne; [done|congruence]|done]).
  rewrite <- Hrest in H. destruct (sa_s sa'); simpl in H; [|done].
  by apply lookup_delete_Some in H as [_ H].
Qed.

Lemma rep_reads (m : mem) (sa sb : stralloc) (ys : list Z) :
  rep m sb ys -> apart sa sb -> reads m sa (sa_ptr sb) ys.
Proof.
  intros H Ha. destruct (rep_view _ _ _ H) as (l & Hv & Ht & _). split; [by exists l|].
  unfold sa_ptr. destruct Ha as [Ha|Ha]; [by rewrite Ha|]. destruct (sa_s sb); [congruence|done].
Qed.

(** * Theorems *)

Ltac nonul_lit := repeat (apply List.Forall_cons; [lia|]); apply List.Forall_nil.

(** A memory that has given out nothing and refuses nothing. *)
Definition mem0 : mem := Mem [] ∅ 0 (fun _ => 165).

Lemma mem0_wf : mwf mem0.
Proof. intros b. cbn. rewrite dom_empty. set_solver. Qed.

Lemma mem0_lasts : lasts mem0.
Proof. unfold lasts. cbn. set_solver. Qed.

(** C2: a [stralloc] is a byte string: any sequence of [stralloc_copyb],
    [stralloc_catb], [stralloc_catc], [stralloc_insertb], [stralloc_replace],
    [stralloc_remove], [stralloc_remove_all], [stralloc_reverse] and
    [stralloc_zero] whose positions and sizes are in range, and whose sources
    are outside the string, runs without undefined behaviour and leaves the
    string the operations describe.  When memory runs out, which it does only if
    a request was refused, the string is as the operation that failed found it.
    Whatever happens, no other block of memory is touched and none is leaked:
    the blocks but the one of the string are the same before and after. *)
Theorem stralloc_refines_bytes (os : list sa_op) (m : mem) (sa : stralloc) (xs ys : list Z)
    (H : rep m sa xs) (Hr : Forall (reads_op m sa) os) (Hs : spec_sas xs os = Some ys) :
  exists ok m' sa' zs, run_sas m sa os = Some (ok, m', sa') /\ rep m' sa' zs /\
    rest m' (sa_s sa') = rest m (sa_s sa) /\
    (ok = true -> zs = ys) /\
    (ok = false -> false ∈ answers m /\
       exists os1 o os2, os = os1 ++ o :: os2 /\ spec_sas xs os1 = Some zs).
Proof.
  destruct (run_sas_ok os m sa xs ys H Hr Hs) as (ok & m' & sa' & zs & E & [_ R _ _] & Hz).
  exists ok, m', sa', zs. split; [done|]. split; [by destruct Hz|]. split; [done|]. apply Hz.
Qed.

Definition sa_script : list sa_op :=
  [Copy (Const (lit "world")) (lit "world"); Insert (Const (lit "hello, ")) (lit "hello, ") 0;
   Cat (Const (lit "!!")) (lit "!!"); Putc "?"%C; Remove 5 1;
   Replace 6 5 (Const (lit "all of you")) (lit "all of you"); RemoveAll (lit "!")].

Lemma stralloc_refines_bytes_witness :
  spec_sas [] sa_script = Some (lit "hello all of you?") /\
  (exists ok m' sa' zs, run_sas mem0 stralloc_init sa_script = Some (ok, m', sa') /\
    rep m' sa' zs /\ rest m' (sa_s sa') = rest mem0 None /\
    (ok = true -> zs = lit "hello all of you?") /\
    (ok = false -> false ∈ answers mem0 /\ exists os1 o os2, sa_script = os1 ++ o :: os2 /\
      spec_sas [] os1 = Some zs)).
Proof.
  split; [by vm_compute|].
  apply (stralloc_refines_bytes sa_script mem0 stralloc_init [] (lit "hello all of you?")).
  - apply rep_init, mem0_wf.
  - repeat (apply List.Forall_cons; [first [exact I | apply reads_all]|]). apply List.Forall_nil.
  - by vm_compute.
Defined.

(** C32: [stralloc_replaces] and [stralloc_subst] compute the same function:
    every occurrence of [from], found from the left and not overlapping, gives
    way to [to]; the first in place, the second behind the string it is given.
    Both end, whatever the strings are, as long as [from] is not empty. *)
Theorem stralloc_replaces_correct (m : mem) (sa : stralloc) (xs src from to : list Z)
    (H : rep m sa xs) (Hfrom : nonul from) (Hne : from <> []) (Hto : nonul to) :
  (small (zlen xs * (1 + zlen to) + zlen to) ->
   reaches m sa (subst_all from to xs 0)
     (stralloc_replaces m sa (cstr from) (cstr to) (S (length xs)))) /\
  (small (zlen xs + zlen src * (1 + zlen to)) ->
   reaches m sa (xs ++ subst_all from to src 0)
     (stralloc_subst m sa src (length src) (cstr from) (cstr to) (S (length src)))).
Proof.
  unfold stralloc_replaces, stralloc_subst, zlen.
  pose proof (str_len_cstr from [] Hfrom) as E1. pose proof (str_len_cstr to [] Hto) as E2.
  rewrite app_nil_r in E1, E2. rewrite E1, E2. cbn [mbind option_bind]. split; intros Hs.
  - destruct (sa_s sa) as [b|] eqn:Es.
    + apply (replaces_loop_ok from to [0] [0] (S (length xs)) Hne m sa [] xs H);
        [lia|exact Hs|by eexists].
    + pose proof (rep_block _ _ _ H) as Hb. rewrite Es in Hb. subst xs.
      cbn [replaces_loop length]. rewrite (rep_len _ _ _ H).
      exists true, m, sa, []. split; [done|]. split; [|done].
      replace sa with (SA (sa_s sa) (sa_len sa) (sa_a sa)) at 2 by (by destruct sa).
      apply evolves_refl, H.
  - pose proof (subst_loop_ok from to [0] [] [] (S (length src)) Hne Hto m sa xs [] src H) as Hl.
    rewrite !app_nil_r in Hl. apply Hl; [lia|done].
Qed.

Lemma stralloc_replaces_correct_witness :
  subst_all (lit "aa") (lit "b") (lit "aaaxaa") 0 = lit "baxb" /\
  reaches mem0 stralloc_init (lit "baxb")
    (stralloc_subst mem0 stralloc_init (lit "aaaxaa") 6 (cstr (lit "aa")) (cstr (lit "b")) 7).
Proof.
  split; [by vm_compute|].
  apply (proj2 (stralloc_replaces_correct mem0 stralloc_init [] (lit "aaaxaa") (lit "aa") (lit "b")
    (rep_init _ mem0_wf) ltac:(nonul_lit) ltac:(done) ltac:(nonul_lit))).
  vm_compute. by split.
Defined.

(** The comparisons of strings agree with the lexicographic order of their
    bytes, a proper prefix being smaller: the sign of [stralloc_diff],
    [stralloc_diffb] and [stralloc_diffs] is the order of the two byte strings,
    for strings below 2^31 bytes; so [stralloc_equal] is equality. *)
Theorem stralloc_compare_correct (m : mem) (sa sb : stralloc) (xs ys : list Z)
    (Ha : rep m sa xs) (Hb : rep m sb ys) (Hx : zlen xs < 2 ^ 31) (Hy : zlen ys < 2 ^ 31) :
  (exists v, stralloc_diff m sa sb = Some v /\ (v ?= 0) = lex xs ys) /\
  (exists v, stralloc_diffb m sa ys (zlen ys) = Some v /\ (v ?= 0) = lex xs ys) /\
  (nonul ys -> exists v, stralloc_diffs m sa (cstr ys) = Some v /\ (v ?= 0) = lex xs ys) /\
  stralloc_equal m sa sb = Some (bool_decide (xs = ys)).
Proof.
  destruct (compare_ok m sa sb xs ys Ha Hb Hx Hy) as (H1 & H2 & H3).
  split; [done|]. split; [done|]. split; [done|].
  destruct H1 as (v & E & Hv). unfold stralloc_equal. rewrite E. cbn [mbind option_bind]. f_equal.
  pose proof (lex_eq xs ys) as Hl. rewrite <- Hv in Hl. rewrite Z.compare_eq_iff in Hl.
  destruct (Z.eqb_spec v 0); [rewrite bool_decide_eq_true_2|rewrite bool_decide_eq_false_2]; tauto.
Qed.

Lemma stralloc_compare_correct_witness :
  exists m1 m2 sa sb, stralloc_copyb mem0 stralloc_init (Const (lit "abc")) 3 = Some (true, m1, sa) /\
    stralloc_copyb m1 stralloc_init (Const (lit "abd")) 3 = Some (true, m2, sb) /\
    stralloc_equal m2 sa sb = Some false.
Proof.
  destruct (copyb_ok mem0 stralloc_init [] (lit "abc") (Const (lit "abc")) 3)
    as (ok1 & m1 & sa & E1 & V1 & R1 & F1);
    [apply rep_init, mem0_wf|apply reads_all|done|by vm_compute|].
  vm_compute in E1. injection E1 as <- <- <-.
  destruct (copyb_ok _ stralloc_init [] (lit "abd") (Const (lit "abd")) 3
    (rep_init _ (rep_wf _ _ _ R1)))
    as (ok2 & m2 & sb & E2 & V2 & R2 & F2); [apply reads_all|done|by vm_compute|].
  vm_compute in E2. injection E2 as <- <- <-.
  eexists _, _, _, _. split; [by vm_compute|]. split; [by vm_compute|].
  refine (proj2 (proj2 (proj2 (stralloc_compare_correct _ _ _ (lit "abc") (lit "abd") _ R2 _ _))));
    [|done|done].
  destruct R1 as [W L B]. split; [apply R2|done|]. vm_compute in B |- *. exact B.
Defined.

(** [stralloc_catulong0] and [stralloc_catlong0] append the decimal digits of
    the number, padded with zeros to the width asked for, behind the sign, which
    is right for numbers of 32 bits; what they reserve is enough for every number
    of the type but the smallest [long], whose negation is undefined. *)
Theorem stralloc_catnum_correct (m : mem) (sa : stralloc) (xs : list Z) (i : Z) (n : nat)
    (H : rep m sa xs) (Hs : small (zlen xs + Z.of_nat n + 100)) :
  (is_u64 i ->
   yields m sa xs (xs ++ replicate (n - length (numeral 10 i)) 48 ++ (dec_char <$> numeral 10 i))
     (stralloc_catulong0 m sa i n)) /\
  (- 2 ^ 63 < i < 2 ^ 63 ->
   yields m sa xs (xs ++ (if s32 i <? 0 then ["-"%C] else []) ++
       replicate (n - length (numeral 10 (Z.abs i))) 48 ++ (dec_char <$> numeral 10 (Z.abs i)))
     (stralloc_catlong0 m sa i n)).
Proof.
  unfold small, zlen in Hs. split; intros Hi.
  - destruct (catulong_text i n Hi) as (E1 & E2 & <-). apply catulong0_ok; try done.
    rewrite fmt_ulong0_num by done. cbn [snd]. pose proof (numeral_length 10 i).
    unfold small. lia.
  - assert (is_u64 (Z.abs i)) as Ha by (unfold is_u64; lia).
    assert (is_u64 (u64 i)) as Hu by apply u64_range.
    destruct (catulong_text (Z.abs i) n Ha) as (E1 & E2 & <-).
    pose proof (numeral_length 10 (u64 i)).
    apply (catlong0_ok _ _ _ _ _ _ (snd (fmt_ulong0 true (Z.abs i) n))); try done.
    + rewrite !fmt_ulong0_num by done. cbn [snd].
      assert (length (numeral 10 (Z.abs i)) <= length (numeral 10 (u64 i)))%nat; [|lia].
      apply numeral_length_mono; [|exact Hu]. unfold u64. zmod.
    + rewrite fmt_ulong0_num by done. cbn [snd]. unfold small. lia.
Qed.

Lemma stralloc_catnum_correct_witness :
  yields mem0 stralloc_init [] (lit "-0042") (stralloc_catlong0 mem0 stralloc_init (-42) 4).
Proof.
  apply (proj2 (stralloc_catnum_correct mem0 stralloc_init [] (-42) 4 (rep_init _ mem0_wf)
    ltac:(vm_compute; by split))). lia.
Defined.

(** The sign of a longer number is lost, or made up. *)
Example catlong0_sign :
  let text i := '(_, m, sa) ← stralloc_catlong0 mem0 stralloc_init i 0; l ← sa_view m sa; Some (take (Z.to_nat (sa_len sa)) l) in
  text 3000000000 = Some (lit "-3000000000") /\ text (-4294967296) = Some (lit "4294967296").
Proof. split; vm_compute; reflexivity. Qed.

(** C40: appending a string to itself works as long as the block has room for
    both copies; when it has not, and memory is found, [stralloc_cat] reads
    the block that [realloc] has just given back. *)
Theorem stralloc_cat_self (m : mem) (sa : stralloc) (xs : list Z)
    (H : rep m sa xs) (Hs : small (2 * zlen xs)) :
  (2 * zlen xs <= sa_a sa -> yields m sa xs (xs ++ xs) (stralloc_cat m sa sa)) /\
  (sa_a sa < 2 * zlen xs -> is_Some (sa_s sa) -> false ∉ answers m ->
   stralloc_cat m sa sa = None).
Proof. split; intros; [by apply cat_self_room|by apply (cat_self_grow _ _ xs)]. Qed.

Lemma stralloc_cat_self_witness :
  exists m sa, stralloc_copyb mem0 stralloc_init (Const (replicate 100 7)) 100 = Some (true, m, sa) /\
    stralloc_cat m sa sa = None.
Proof.
  destruct (copyb_ok mem0 stralloc_init [] (replicate 100 7) (Const (replicate 100 7)) 100)
    as (ok1 & m1 & sa & E1 & V1 & R1 & F1);
    [apply rep_init, mem0_wf|apply reads_all|done|by vm_compute|].
  vm_compute in E1. injection E1 as <- <- <-.
  eexists _, _. split; [by vm_compute|].
  refine (proj2 (stralloc_cat_self _ _ (replicate 100 7) R1 _) _ _ _).
  - vm_compute. by split.
  - done.
  - by eexists.
  - apply not_elem_of_nil.
Defined.

(** [stralloc_chomp] removes one trailing line end; of ["\r\n"] alone it
    leaves the ['\r'], since it looks for the second character from the third
    on. *)
Theorem stralloc_chomp_short :
  exists m sa, stralloc_copyb mem0 stralloc_init (Const [13; 10]) 2 = Some (true, m, sa) /\
    stralloc_chomp m sa = Some (1, SA (sa_s sa) 1 (sa_a sa)).
Proof. eexists _, _. split; [by vm_compute|by vm_compute]. Qed.

(** [stralloc_trunc] gives memory back and leaves [a]: the next append finds
    room that is no longer there and writes behind the block. *)
Theorem stralloc_trunc_stale :
  exists m sa m' sa', stralloc_copyb mem0 stralloc_init (Const (lit "hello")) 5 = Some (true, m, sa) /\
    stralloc_trunc m sa 2 = Some (true, m', sa') /\ sa_a sa' = sa_a sa /\
    stralloc_catb m' sa' (Const (lit "abc")) 3 = None.
Proof. eexists _, _, _, _. repeat split; by vm_compute. Qed.

(** [stralloc_free] leaves [len]: the next append writes that far behind the
    start of a block that was sized for the new bytes alone. *)
Theorem stralloc_free_stale :
  exists m sa m' sa', stralloc_copyb mem0 stralloc_init (Const (replicate 40 7)) 40 = Some (true, m, sa) /\
    stralloc_free m sa = Some (m', sa') /\ sa_len sa' = 40 /\
    stralloc_catb m' sa' (Const (lit "abc")) 3 = None.
Proof. eexists _, _, _, _. repeat split; by vm_compute. Qed.
