(* ===== verification/Buffer.v ===== *)
(** Buffered input and output: [lib/buffer/].  The operation of a buffer, a
    function pointer for [read] or [write], is the class [Writer] or [Reader]:
    it takes the state of the outside world, in which [errno] is, and gives a
    new one.  What the code relies on of it, the documented behaviour of the
    system calls, is in [WriterLaws] and [ReaderLaws].  The fuel [calls] bounds
    the calls one loop may make.  [None] is undefined behaviour, or a loop
    that runs on. *)
From S2P Require Import Prelude ByteOps StrOps Digits FmtNum.

(** * Data *)

(** The space, the position, the end of the input and the size. *)
Record buffer : Type := Buffer { buf_x : list Z; buf_p : Z; buf_n : Z; buf_a : Z }.

Definition buffer_init (y : list Z) (ylen : Z) : buffer := Buffer y 0 0 ylen.

(** [errno == EINTR], and [errno = 0]. *)
Class Errno (W : Type) := { eintr : W -> bool; clear_errno : W -> W }.

(** [op(fd, buf, len, b)]: the result, for input with the bytes stored. *)
Class Writer (W : Type) := { op_write : W -> list Z -> Z * W }.
Class Reader (W : Type) := { op_read : W -> Z -> Z * list Z * W }.

(** * Output *)

Section output.
Context {W : Type} `{!Errno W, !Writer W} (calls : nat).

(** [while(len)] of [buffer_stubborn]. *)
Fixpoint stubborn_loop (w : W) (buf : list Z) (fuel : nat) : option (Z * W) :=
  match fuel with
  | O => None
  | S fuel' =>
      match buf with
      | [] => Some (0, w)
      | _ =>
          let '(r, w) := op_write w buf in
          if r <=? 0 then
            if eintr w then stubborn_loop w buf fuel' else Some (-1, w)
          else if Z.of_nat (length buf) <? r then None
          else stubborn_loop w (drop (Z.to_nat r) buf) fuel'
      end
  end.

Definition buffer_stubborn (w : W) (buf : list Z) : option (Z * W) :=
  stubborn_loop (clear_errno w) buf calls.

(** The position is reset before the bytes are written. *)
Definition buffer_flush (w : W) (b : buffer) : option (Z * W * buffer) :=
  let p := buf_p b in
  if p =? 0 then Some (0, w, b) else
  let b := Buffer (buf_x b) 0 (buf_n b) (buf_a b) in
  '(r, w) ← buffer_stubborn w (take (Z.to_nat p) (buf_x b));
  Some (if 0 <? r then 0 else r, w, b).

(** [byte_copy(b->x + b->p, len, buf); b->p += len;] *)
Definition buf_append (b : buffer) (buf : list Z) : option buffer :=
  x ← byte_copy (buf_x b) (Z.to_nat (buf_p b)) (length buf) (There buf);
  Some (Buffer x (u64 (buf_p b + Z.of_nat (length buf))) (buf_n b) (buf_a b)).

Definition buffer_put (w : W) (b : buffer) (buf : list Z) : option (Z * W * buffer) :=
  let len := Z.of_nat (length buf) in
  if u64 (buf_a b - buf_p b) <? len then
    '(r, w, b) ← buffer_flush w b;
    if r =? -1 then Some (-1, w, b) else
    if buf_a b <? len then
      '(r, w) ← buffer_stubborn w buf;
      Some (if r <? 0 then -1 else 0, w, b)
    else b ← buf_append b buf; Some (0, w, b)
  else b ← buf_append b buf; Some (0, w, b).

Definition buffer_putc (w : W) (b : buffer) (c : Z) : option (Z * W * buffer) :=
  if buf_a b =? buf_p b then
    '(r, w, b) ← buffer_flush w b;
    if r =? -1 then Some (-1, w, b) else
    if buf_a b =? 0 then
      '(r, w) ← buffer_stubborn w [c];
      Some (if r <? 0 then -1 else 0, w, b)
    else b ← buf_append b [c]; Some (0, w, b)
  else b ← buf_append b [c]; Some (0, w, b).

(** Fills the space to the last byte before it flushes. *)
Fixpoint putalign_loop (w : W) (b : buffer) (buf : list Z) (fuel : nat)
  : option (Z * W * buffer) :=
  match fuel with
  | O => None
  | S fuel' =>
      let tmp := u64 (buf_a b - buf_p b) in
      if tmp <? Z.of_nat (length buf) then
        b ← buf_append b (take (Z.to_nat tmp) buf);
        '(r, w, b) ← buffer_flush w b;
        if r <? 0 then Some (-1, w, b)
        else putalign_loop w b (drop (Z.to_nat tmp) buf) fuel'
      else b ← buf_append b buf; Some (0, w, b)
  end.

Definition buffer_putalign (w : W) (b : buffer) (buf : list Z) : option (Z * W * buffer) :=
  putalign_loop w b buf calls.

(** When the operation is [write] and the system has [writev], the bytes
    pending and the new ones are written together. *)
Definition buffer_putflush_v (writev : W -> list Z -> list Z -> Z * W) (w : W) (b : buffer)
    (x : list Z) : option (Z * W * buffer) :=
  let v0 := take (Z.to_nat (buf_p b)) (buf_x b) in
  let fix loop (w : W) (fuel : nat) :=
    match fuel with
    | O => None
    | S fuel' =>
        let '(r, w) := writev w v0 x in
        if r <? 0 then if eintr w then loop w fuel' else Some (-1, w)
        else Some (r, w)
    end in
  '(r, w) ← loop w calls;
  if r <? 0 then Some (-1, w, b) else
  let cl := buf_p b + Z.of_nat (length x) in
  if r =? cl then Some (0, w, Buffer (buf_x b) 0 (buf_n b) (buf_a b)) else
  if r <? buf_p b then
    '(e, w) ← buffer_stubborn w (drop (Z.to_nat r) v0);
    if negb (e =? 0) then Some (-1, w, b) else
    y ← (if (length v0 <=? length x)%nat then Some (take (length v0) x) else None);
    '(e, w) ← buffer_stubborn w y;
    if negb (e =? 0) then Some (-1, w, b)
    else Some (0, w, Buffer (buf_x b) 0 (buf_n b) (buf_a b))
  else
    '(e, w) ← buffer_stubborn w (drop (Z.to_nat (r - buf_p b)) x);
    Some (e, w, b).

(** [writev] is given when the first branch is compiled and taken. *)
Definition buffer_putflush (writev : option (W -> list Z -> list Z -> Z * W)) (w : W)
    (b : buffer) (x : list Z) : option (Z * W * buffer) :=
  if buf_p b =? 0 then '(r, w) ← buffer_stubborn w x; Some (r, w, b) else
  match writev with
  | Some f => buffer_putflush_v f w b x
  | None =>
      '(r, w, b) ← buffer_put w b x;
      if r <? 0 then Some (-1, w, b) else
      '(r, w, b) ← buffer_flush w b;
      Some (if r <? 0 then -1 else 0, w, b)
  end.

(** ** Derived output *)

Definition buffer_puts (w : W) (b : buffer) (x : list Z) : option (Z * W * buffer) :=
  n ← str_len x; buffer_put w b (take n x).

Definition buffer_putsflush (w : W) (b : buffer) (x : list Z) : option (Z * W * buffer) :=
  n ← str_len x; buffer_putflush None w b (take n x).

Definition buffer_putsalign (w : W) (b : buffer) (x : list Z) : option (Z * W * buffer) :=
  n ← str_len x; buffer_putalign w b (take n x).

Definition buffer_putspace (w : W) (b : buffer) : option (Z * W * buffer) :=
  buffer_put w b [32].

Definition buffer_putnlflush (w : W) (b : buffer) : option (Z * W * buffer) :=
  buffer_putflush None w b [10].

(** The request for the spaces is taken to succeed. *)
Definition buffer_putnspace (w : W) (b : buffer) (n : Z) : option (Z * W * buffer) :=
  if 0 <? n then buffer_put w b (replicate (Z.to_nat n) 32) else Some (0, w, b).

Fixpoint put_times (w : W) (b : buffer) (x : list Z) (ntimes : nat)
  : option (Z * W * buffer) :=
  match ntimes with
  | O => Some (0, w, b)
  | S n =>
      '(r, w, b) ← buffer_put w b x;
      if r <? 0 then Some (-1, w, b) else put_times w b x n
  end.

Definition buffer_putnc (w : W) (b : buffer) (c ntimes : Z) : option (Z * W * buffer) :=
  put_times w b [c] (Z.to_nat ntimes).

Definition buffer_putns (w : W) (b : buffer) (s : list Z) (ntimes : Z)
  : option (Z * W * buffer) :=
  n ← str_len s; put_times w b (take n s) (Z.to_nat ntimes).

(** The arguments up to the null pointer. *)
Fixpoint buffer_putm_internal (w : W) (b : buffer) (args : list (list Z))
  : option (Z * W * buffer) :=
  match args with
  | [] => Some (0, w, b)
  | s :: args =>
      '(r, w, b) ← buffer_puts w b s;
      if r =? -1 then Some (-1, w, b) else buffer_putm_internal w b args
  end.

Definition buffer_putm_internal_flush (w : W) (b : buffer) (args : list (list Z))
  : option (Z * W * buffer) :=
  '(r, w, b) ← buffer_putm_internal w b args;
  '(_, w, b) ← buffer_flush w b;
  Some (r, w, b).

Definition buffer_putstr (w : W) (b : buffer) (x : option (list Z)) : option (W * buffer) :=
  match x with
  | Some x =>
      '(_, w, b) ← buffer_putc w b 34;
      '(_, w, b) ← buffer_puts w b x;
      '(_, w, b) ← buffer_putc w b 34;
      Some (w, b)
  | None => '(_, w, b) ← buffer_puts w b (cstr (lit "NULL")); Some (w, b)
  end.

Definition buffer_putulong (w : W) (b : buffer) (l : Z) : option (Z * W * buffer) :=
  buffer_put w b (fst (fmt_ulong true l)).

Definition buffer_putulonglong (w : W) (b : buffer) (l : Z) : option (Z * W * buffer) :=
  buffer_put w b (fst (fmt_ulonglong true l)).

Definition buffer_putlong (w : W) (b : buffer) (l : Z) : option (Z * W * buffer) :=
  '(text, _) ← fmt_long true l; buffer_put w b text.

Definition buffer_putlonglong (w : W) (b : buffer) (l : Z) : option (Z * W * buffer) :=
  '(text, _) ← fmt_longlong true l; buffer_put w b text.

Definition buffer_putxlong (w : W) (b : buffer) (l : Z) : option (Z * W * buffer) :=
  buffer_put w b (fst (fmt_xlong true l)).

Definition buffer_putxlonglong (w : W) (b : buffer) (l : Z) : option (Z * W * buffer) :=
  buffer_put w b (fst (fmt_xlonglong true l)).

Definition buffer_put8long (w : W) (b : buffer) (l : Z) : option (Z * W * buffer) :=
  buffer_put w b (fst (fmt_8long true l)).

Definition buffer_putulong0 (w : W) (b : buffer) (l pad : Z) : option (Z * W * buffer) :=
  let '(text, n) := fmt_ulong true l in
  '(r, w, b) ← (if Z.of_nat n <? pad then buffer_putnspace w b (pad - Z.of_nat n)
                else Some (0, w, b));
  if r <? 0 then Some (-1, w, b) else buffer_put w b text.

Definition buffer_putlong0 (w : W) (b : buffer) (l pad : Z) : option (Z * W * buffer) :=
  '(text, n) ← fmt_long true l;
  '(r, w, b) ← (if Z.of_nat n <? pad then buffer_putnspace w b (pad - Z.of_nat n)
                else Some (0, w, b));
  if r <? 0 then Some (-1, w, b) else buffer_put w b text.

(** [pad - n] is a [size_t] that becomes an [int] again. *)
Definition buffer_putxlong0 (w : W) (b : buffer) (l pad : Z) : option (Z * W * buffer) :=
  let '(text, n) := fmt_xlong true l in
  '(r, w, b) ← buffer_putnc w b 48 (s32 (pad - Z.of_nat n));
  if r <? 0 then Some (-1, w, b) else buffer_put w b text.

Definition buffer_putxlonglong0 (w : W) (b : buffer) (l pad : Z) : option (Z * W * buffer) :=
  let '(text, n) := fmt_xlonglong true l in
  '(r, w, b) ← buffer_putnc w b 48 (s32 (pad - Z.of_nat n));
  if r <? 0 then Some (-1, w, b) else buffer_put w b text.

Definition buffer_putulonglongpad (w : W) (b : buffer) (l pad : Z) : option (Z * W * buffer) :=
  let '(text, n) := fmt_ulonglong true l in
  '(r, w, b) ← buffer_putnc w b 32 (s32 (pad - Z.of_nat n));
  if r <? 0 then Some (-1, w, b) else buffer_put w b text.

(** The results of the single writes are not looked at. *)
Fixpoint put_quoted_loop (w : W) (b : buffer) (x : list Z) (r : Z) : option (Z * W * buffer) :=
  match x with
  | [] => Some (s32 r, w, b)
  | c :: x =>
      if c <? 32 then
        let '(text, n) := fmt_8long true c in
        '(_, w, b) ← buffer_put w b text;
        put_quoted_loop w b x (r + Z.of_nat n)
      else '(_, w, b) ← buffer_putc w b c; put_quoted_loop w b x (r + 1)
  end.

Definition buffer_put_quoted (w : W) (b : buffer) (x : list Z) : option (Z * W * buffer) :=
  put_quoted_loop w b x 0.
End output.

(** * Input *)

Section input.
Context {W : Type} `{!Errno W, !Reader W} (calls : nat).

Fixpoint read_loop (w : W) (len : Z) (fuel : nat) : option (Z * list Z * W) :=
  match fuel with
  | O => None
  | S fuel' =>
      let '(r, l, w) := op_read w len in
      if (r <? 0) && eintr w then read_loop w len fuel' else Some (r, l, w)
  end.

Definition buffer_stubborn_read (w : W) (len : Z) : option (Z * list Z * W) :=
  read_loop w len calls.

(** The bytes read are stored at [at], in the object of the buffer. *)
Definition buf_fill (b : buffer) (at_ : Z) (l : list Z) : option (list Z) :=
  byte_copy (buf_x b) (Z.to_nat at_) (length l) (There l).

(** [has_op] says whether the operation is not [NULL]. *)
Definition buffer_feed (has_op : bool) (w : W) (b : buffer) : option (Z * W * buffer) :=
  if buf_p b =? buf_n b then
    '(r, l, w) ← (if has_op then buffer_stubborn_read w (buf_a b) else Some (0, [], w));
    if r <? 0 then Some (-1, w, b) else
    x ← buf_fill b 0 l;
    Some (r, w, Buffer x 0 r (buf_a b))
  else Some (u64 (buf_n b - buf_p b), w, b).

(** [blen] bytes from the position. *)
Definition buf_take (b : buffer) (blen : Z) : option (list Z) :=
  let l := block (buf_x b) (Z.to_nat (buf_p b)) (Z.to_nat blen) in
  if (length l =? Z.to_nat blen)%nat then Some l else None.

Definition buf_seek (b : buffer) (k : Z) : buffer :=
  Buffer (buf_x b) (u64 (buf_p b + k)) (buf_n b) (buf_a b).

(** The bytes delivered, behind [acc]; the fuel counts the rounds. *)
Fixpoint get_loop (w : W) (b : buffer) (len : Z) (acc : list Z) (fuel : nat)
  : option (Z * list Z * W * buffer) :=
  match fuel with
  | O => None
  | S fuel' =>
      if len =? 0 then Some (Z.of_nat (length acc), acc, w, b) else
      '(blen, w, b) ← buffer_feed true w b;
      if blen <? 0 then Some (blen, acc, w, b) else
      if blen =? 0 then Some (Z.of_nat (length acc), acc, w, b) else
      let blen := if len <=? blen then len else blen in
      l ← buf_take b blen;
      get_loop w (buf_seek b blen) (len - blen) (acc ++ l) fuel'
  end.

(** The result and the bytes stored at [x].  A [len] that is negative as a
    [ssize_t] is cut to the largest one. *)
Definition buffer_get (w : W) (b : buffer) (len : Z) : option (Z * list Z * W * buffer) :=
  let len := if s64 len <? 0 then 9223372036854775807 else len in
  get_loop w b len [] (S calls).

Definition buffer_getc (w : W) (b : buffer) : option (Z * option Z * W * buffer) :=
  '(blen, w, b) ← (if buf_p b =? buf_n b then buffer_feed true w b else Some (1, w, b));
  if blen <=? 0 then Some (blen, None, w, b) else
  c ← load (buf_x b) (Z.to_nat (buf_p b));
  Some (1, Some c, w, buf_seek b 1).

Fixpoint getn_loop (w : W) (b : buffer) (n : nat) (acc : list Z)
  : option (Z * list Z * W * buffer) :=
  match n with
  | O => Some (Z.of_nat (length acc), acc, w, b)
  | S n' =>
      '(r, c, w, b) ← buffer_getc w b;
      if r <? 0 then Some (r, acc, w, b) else
      if r =? 0 then Some (Z.of_nat (length acc), acc, w, b) else
      c ← c; getn_loop w b n' (acc ++ [c])
  end.

Definition buffer_getn (w : W) (b : buffer) (len : nat) : option (Z * list Z * W * buffer) :=
  getn_loop w b len [].

(** [setlen == 1]: [byte_ccopy] gives the number of bytes it copied, the one
    that ends the token included. *)
Fixpoint token1_loop (w : W) (b : buffer) (len : Z) (c : Z) (acc : list Z) (fuel : nat)
  : option (Z * list Z * W * buffer) :=
  match fuel with
  | O => None
  | S fuel' =>
      let blen := Z.of_nat (length acc) in
      if blen <? len then
        '(n, w, b) ← buffer_feed true w b;
        if n <=? 0 then Some (blen, acc, w, b) else
        let n := if len - blen <? n then len - blen else n in
        '(d, i) ← byte_ccopy (replicate (Z.to_nat n) 0) 0 (Z.to_nat n)
                    (There (drop (Z.to_nat (buf_p b)) (buf_x b))) c;
        if Z.of_nat i <? n then
          Some (blen + Z.of_nat i, acc ++ take i d, w, buf_seek b (Z.of_nat i))
        else token1_loop w (buf_seek b n) len c (acc ++ d) fuel'
      else Some (blen, acc, w, b)
  end.

(** Other sets: byte by byte; the byte that ends the token is stored and not
    counted, at the end of the input a 0. *)
Fixpoint token_loop (w : W) (b : buffer) (n : nat) (charset : list Z) (setlen : nat)
    (acc : list Z) : option (Z * list Z * W * buffer) :=
  match n with
  | O => Some (Z.of_nat (length acc), acc, w, b)
  | S n' =>
      '(r, c, w, b) ← buffer_getc w b;
      if r <? 0 then Some (r, acc, w, b) else
      if r =? 0 then Some (Z.of_nat (length acc), acc ++ [0], w, b) else
      c ← c;
      k ← byte_chr charset setlen c;
      if (k <? setlen)%nat then Some (Z.of_nat (length acc), acc ++ [c], w, b)
      else token_loop w b n' charset setlen (acc ++ [c])
  end.

Definition buffer_get_token (w : W) (b : buffer) (len : nat) (charset : list Z) (setlen : nat)
  : option (Z * list Z * W * buffer) :=
  if (setlen =? 1)%nat then
    c ← load charset 0; token1_loop w b (Z.of_nat len) c [] (S calls)
  else token_loop w b len charset setlen [].

Definition buffer_getline (w : W) (b : buffer) (len : nat) : option (Z * list Z * W * buffer) :=
  buffer_get_token w b len [10; 0] 1.

(** The byte that ends the token is stored and counted. *)
Fixpoint until_loop (w : W) (b : buffer) (n : nat) (charset : list Z) (setlen : nat)
    (acc : list Z) : option (Z * list Z * W * buffer) :=
  match n with
  | O => Some (s32 (Z.of_nat (length acc)), acc, w, b)
  | S n' =>
      '(r, c, w, b) ← buffer_getc w b;
      if r <? 0 then Some (s32 r, acc, w, b) else
      if r =? 0 then Some (s32 (Z.of_nat (length acc)), acc ++ [0], w, b) else
      c ← c;
      k ← byte_chr charset setlen c;
      if (k <? setlen)%nat then Some (s32 (Z.of_nat (S (length acc))), acc ++ [c], w, b)
      else until_loop w b n' charset setlen (acc ++ [c])
  end.

Definition buffer_get_until (w : W) (b : buffer) (len : nat) (charset : list Z) (setlen : nat)
  : option (Z * list Z * W * buffer) := until_loop w b len charset setlen [].

Definition buffer_skipc (w : W) (b : buffer) : option (Z * W * buffer) :=
  '(r, w, b) ← (if buf_p b =? buf_n b then buffer_feed true w b else Some (1, w, b));
  if r <=? 0 then Some (r, w, b) else
  if buf_p b <? buf_n b then Some (1, w, buf_seek b 1) else Some (0, w, b).

Definition buffer_seek (b : buffer) (len : Z) : buffer :=
  let n := u64 (buf_p b + len) in
  let n := if n <? buf_p b then buf_p b else n in
  let n := if buf_n b <? n then buf_n b else n in
  Buffer (buf_x b) n (buf_n b) (buf_a b).

(** Skips through the first byte in the set; [n] counts, the fuel bounds, the
    bytes. *)
Fixpoint skip_loop (stop : Z -> option bool) (w : W) (b : buffer) (n : Z) (fuel : nat)
  : option (Z * W * buffer) :=
  match fuel with
  | O => None
  | S fuel' =>
      '(r, w, b) ← (if buf_p b =? buf_n b then buffer_feed true w b else Some (1, w, b));
      if r <=? 0 then Some (r, w, b) else
      n ← chk32 (n + 1);
      c ← load (buf_x b) (Z.to_nat (buf_p b));
      let b := buf_seek b 1 in
      s ← stop c;
      if (s : bool) then Some (n, w, b) else skip_loop stop w b n fuel'
  end.

Definition buffer_skip_until (w : W) (b : buffer) (charset : list Z) (setlen : nat)
  : option (Z * W * buffer) :=
  skip_loop (fun c => k ← byte_chr charset setlen c; Some (k <? setlen)%nat) w b 0 calls.

(** [pred] gets the byte as a signed [char]. *)
Definition buffer_skip_pred (pred : Z -> bool) (w : W) (b : buffer) : option (Z * W * buffer) :=
  skip_loop (fun c => Some (negb (pred (s8 c)))) w b 0 calls.

(** The bytes of the input in use move to the front. *)
Definition buf_compact (b : buffer) : option buffer :=
  let k := u64 (buf_n b - buf_p b) in
  x ← byte_copy (buf_x b) 0 (Z.to_nat k) (Here (Z.to_nat (buf_p b)));
  Some (Buffer x 0 k (buf_a b)).

(** At least [n] bytes ahead, as far as there is space and input; [mmapped]
    says that the buffer is a mapped file. *)
Fixpoint prefetch_loop (w : W) (b : buffer) (n : Z) (fuel : nat) : option (Z * W * buffer) :=
  match fuel with
  | O => None
  | S fuel' =>
      if buf_n b <? u64 (buf_p b + n) then
        '(r, l, w) ← buffer_stubborn_read w (u64 (buf_a b - buf_n b));
        let r := s32 r in
        if r <? 0 then Some (-1, w, b) else
        x ← buf_fill b (buf_n b) l;
        let b := Buffer x (buf_p b) (u64 (buf_n b + r)) (buf_a b) in
        if r =? 0 then Some (s32 (buf_n b - buf_p b), w, b) else prefetch_loop w b n fuel'
      else Some (s32 (buf_n b - buf_p b), w, b)
  end.

Definition buffer_prefetch (mmapped : bool) (w : W) (b : buffer) (n : Z)
  : option (Z * W * buffer) :=
  let move := negb (buf_p b =? 0) && (buf_a b <=? u64 (buf_p b + n)) in
  if move && mmapped then Some (s32 (buf_n b - buf_p b), w, b) else
  b ← (if (move : bool) then buf_compact b else Some b);
  let n := if buf_a b <=? u64 (buf_p b + n) then u64 (buf_a b - buf_p b) else n in
  if n =? 0 then Some (-1, w, b) else prefetch_loop w b n calls.

Definition buffer_peekc (mmapped : bool) (w : W) (b : buffer) : option (Z * option Z * W * buffer) :=
  '(r, w, b) ← buffer_prefetch mmapped w b 1;
  if 0 <? r then c ← load (buf_x b) (Z.to_nat (buf_p b)); Some (1, Some c, w, b)
  else Some (r, None, w, b).

Definition buffer_frombuf (x : list Z) (l : Z) : buffer := Buffer x 0 l l.
Definition buffer_fromstr (s : list Z) (len : Z) : buffer := Buffer s 0 len (len + 1).
End input.

(** * From one buffer to another *)

Section copy.
Context {W V : Type} `{!Errno W, !Writer W, !Errno V, !Reader V} (calls : nat).

Fixpoint copy_loop (w : W) (v : V) (out inp : buffer) (fuel : nat)
  : option (Z * W * V * buffer * buffer) :=
  match fuel with
  | O => None
  | S fuel' =>
      '(n, v, inp) ← buffer_feed calls true v inp;
      if n <? 0 then Some (-2, w, v, out, inp) else
      if n =? 0 then Some (0, w, v, out, inp) else
      l ← buf_take inp n;
      '(r, w, out) ← buffer_put calls w out l;
      if r =? -1 then Some (-3, w, v, out, inp)
      else copy_loop w v out (buf_seek inp n) fuel'
  end.

Definition buffer_copy (w : W) (v : V) (out inp : buffer) : option (Z * W * V * buffer * buffer) :=
  copy_loop w v out inp calls.
End copy.

(** * What is relied on *)

(** The output so far, how often an operation may still be interrupted, and a
    count of the writes that have failed, which an interrupted one is not.  A
    write delivers the first [r] bytes, or none. *)
Class WriterLaws (W : Type) `{!Errno W, !Writer W} := {
  sent : W -> list Z;
  patience : W -> nat;
  write_faults : W -> Z;
  write_law : forall (w w' : W) (buf : list Z) (r : Z),
    op_write w buf = (r, w') -> buf <> [] ->
    (patience w' <= patience w)%nat /\
    (if r <=? 0
     then sent w' = sent w /\
       (if eintr w' then (patience w' < patience w)%nat /\ write_faults w' = write_faults w
        else write_faults w' = write_faults w + 1)
     else r <= Z.of_nat (length buf) /\ sent w' = sent w ++ take (Z.to_nat r) buf /\
       write_faults w' = write_faults w);
  clear_law : forall w : W, sent (clear_errno w) = sent w /\ patience (clear_errno w) = patience w /\
    write_faults (clear_errno w) = write_faults w
}.

(** The input that is left, and the same counts.  A read gives the next [r]
    bytes, at least one unless the input is at its end, or none. *)
Class ReaderLaws (W : Type) `{!Errno W, !Reader W} := {
  stream : W -> list Z;
  tries : W -> nat;
  read_faults : W -> Z;
  read_law : forall (w w' : W) (len r : Z) (l : list Z),
    op_read w len = (r, l, w') -> 0 < len ->
    (tries w' <= tries w)%nat /\
    (if r <? 0
     then stream w' = stream w /\
       (if eintr w' then (tries w' < tries w)%nat /\ read_faults w' = read_faults w
        else read_faults w' = read_faults w + 1)
     else r = Z.of_nat (length l) /\ r <= len /\ stream w = l ++ stream w' /\
          (l = [] -> stream w = []) /\ read_faults w' = read_faults w)
}.

(** * Lemmas *)

(** ** Output *)

Section output_laws.
Context {W : Type} `{WriterLaws W} (calls : nat).

(** The space is there and the position is in it. *)
Definition wf_out (b : buffer) : Prop :=
  0 <= buf_p b <= buf_a b /\ buf_a b = Z.of_nat (length (buf_x b)) /\ buf_a b < 2 ^ 62.

Definition pending (b : buffer) : list Z := take (Z.to_nat (buf_p b)) (buf_x b).

(** What has been put in: delivered or pending. *)
Definition emitted (w : W) (b : buffer) : list Z := sent w ++ pending b.

(** No write has failed between the two, or one has, and the result says so. *)
Definition settled (w w' : W) (r : Z) (good bad : Prop) : Prop :=
  r = 0 /\ write_faults w' = write_faults w /\ good \/ r = -1 /\ write_faults w < write_faults w' /\ bad.

(** The result of an output routine: 0, and [text] is put in, or -1, a write
    has failed and part of it is delivered. *)
Definition emits (w : W) (b : buffer) (text : list Z) (res : option (Z * W * buffer)) : Prop :=
  exists r w' b', res = Some (r, w', b') /\ wf_out b' /\ buf_a b' = buf_a b /\
    (patience w' <= patience w)%nat /\
    settled w w' r (emitted w' b' = emitted w b ++ text) (sent w' `prefix_of` emitted w b ++ text).

Lemma settled_from (w w1 w' : W) (r : Z) (good bad good' bad' : Prop) :
  write_faults w1 = write_faults w -> settled w1 w' r good bad -> (good -> good') -> (bad -> bad') ->
  settled w w' r good' bad'.
Proof. intros E [(-> & ? & ?)|(-> & ? & ?)] Hg Hb; [left|right]; (split; [done|]; split; [lia|auto]). Qed.

Lemma settled_same (w w' : W) (r : Z) (good bad good' bad' : Prop) :
  settled w w' r good bad -> (good -> good') -> (bad -> bad') -> settled w w' r good' bad'.
Proof. by apply settled_from. Qed.

Lemma settled_good (w : W) (good bad : Prop) : good -> settled w w 0 good bad.
Proof. by left. Qed.

Lemma stubborn_loop_ok (fuel : nat) : forall (w : W) (buf : list Z),
  (patience w + length buf < fuel)%nat ->
  exists r w', stubborn_loop w buf fuel = Some (r, w') /\ (patience w' <= patience w)%nat /\
    settled w w' r (sent w' = sent w ++ buf) (sent w' `prefix_of` sent w ++ buf).
Proof.
  induction fuel as [|fuel IH]; intros w buf Hf; [lia|]. cbn [stubborn_loop].
  destruct buf as [|c buf].
  { exists 0, w. rewrite app_nil_r. split; [done|]. split; [done|by apply settled_good]. }
  destruct (op_write w (c :: buf)) as [r w1] eqn:E.
  apply write_law in E as [Hp Hr]; [|done].
  destruct (Z.leb_spec r 0).
  - destruct Hr as [Hs He]. destruct (eintr w1).
    + destruct He as [He Hfl]. destruct (IH w1 (c :: buf)) as (r' & w' & -> & Hp' & Hor); [lia|].
      exists r', w'. rewrite Hs in Hor. split; [done|]. split; [lia|]. by apply (settled_from _ _ _ _ _ _ _ _ Hfl Hor).
    + exists (-1), w1. split; [done|]. split; [lia|]. right. split; [done|]. split; [lia|].
      rewrite Hs. by apply prefix_app_r.
  - destruct Hr as (Hl & Hs & Hfl). zfalse (Z.of_nat (length (c :: buf)) <? r).
    destruct (IH w1 (drop (Z.to_nat r) (c :: buf))) as (r' & w' & -> & Hp' & Hor).
    { rewrite length_drop. simpl in *. lia. }
    exists r', w'. rewrite Hs, <- app_assoc, take_drop in Hor.
    split; [done|]. split; [lia|]. by apply (settled_from _ _ _ _ _ _ _ _ Hfl Hor).
Qed.

Lemma stubborn_ok (w : W) (buf : list Z) :
  (patience w + length buf < calls)%nat ->
  exists r w', buffer_stubborn calls w buf = Some (r, w') /\ (patience w' <= patience w)%nat /\
    settled w w' r (sent w' = sent w ++ buf) (sent w' `prefix_of` sent w ++ buf).
Proof.
  intros Hf. destruct (clear_law w) as (Es & Ep & Efl). unfold buffer_stubborn.
  destruct (stubborn_loop_ok calls (clear_errno w) buf) as (r & w' & E & Hp & Hor); [lia|].
  exists r, w'. rewrite Es in Hor. split; [done|]. split; [lia|]. by apply (settled_from _ _ _ _ _ _ _ _ Efl Hor).
Qed.

Lemma pending_length (b : buffer) : wf_out b -> Z.of_nat (length (pending b)) = buf_p b.
Proof. intros (Hp & Ha & _). unfold pending. rewrite length_take. lia. Qed.

Lemma buf_append_ok (b : buffer) (buf : list Z) :
  wf_out b -> buf_p b + Z.of_nat (length buf) <= buf_a b ->
  exists b', buf_append b buf = Some b' /\ wf_out b' /\ buf_a b' = buf_a b /\
    pending b' = pending b ++ buf /\ buf_p b' = buf_p b + Z.of_nat (length buf).
Proof.
  intros (Hp & Ha & Hb) Hl. unfold buf_append.
  rewrite byte_copy_spec by (simpl; lia || done). cbn [mbind option_bind src_block].
  rewrite firstn_all, u64_id by (split; lia).
  eexists. split; [done|]. unfold wf_out, pending. cbn [buf_x buf_p buf_a].
  rewrite splice_length by lia. split; [lia|]. split; [done|]. split; [|done].
  unfold splice. rewrite app_assoc, take_app_le by (rewrite length_app, length_take; lia).
  apply take_ge. rewrite length_app, length_take. lia.
Qed.

Lemma flush_ok (w : W) (b : buffer) :
  wf_out b -> (patience w + Z.to_nat (buf_a b) < calls)%nat ->
  exists r w' b', buffer_flush calls w b = Some (r, w', b') /\ wf_out b' /\
    buf_a b' = buf_a b /\ buf_p b' = 0 /\ (patience w' <= patience w)%nat /\
    settled w w' r (sent w' = emitted w b) (sent w' `prefix_of` emitted w b).
Proof.
  intros Hw Hf. pose proof Hw as (Hp & Ha & Hb). unfold buffer_flush, emitted.
  destruct (Z.eqb_spec (buf_p b) 0) as [E|E].
  - exists 0, w, b. split; [done|]. split; [done|]. split; [done|]. split; [done|].
    split; [lia|]. apply settled_good. unfold pending. rewrite E. by rewrite app_nil_r.
  - cbv zeta. cbn [buf_x]. fold (pending b). pose proof (pending_length b Hw).
    destruct (stubborn_ok w (pending b)) as (r & w' & -> & Hpt & Hor); [lia|].
    cbn [mbind option_bind]. eexists _, _, _. split; [done|]. unfold wf_out. cbn.
    split; [lia|]. split; [done|]. split; [done|]. split; [done|].
    destruct Hor as [(-> & Hfl & Hs)|(-> & Hfl & Hs)]; [left|right]; done.
Qed.

Lemma emitted_empty (w : W) (b : buffer) : buf_p b = 0 -> emitted w b = sent w.
Proof. intros E. unfold emitted, pending. rewrite E. apply app_nil_r. Qed.

Lemma prefix_more (l l1 l2 : list Z) : l `prefix_of` l1 -> l `prefix_of` l1 ++ l2.
Proof. intros. by apply prefix_app_r. Qed.

Lemma emits_append (w : W) (b : buffer) (buf : list Z) :
  wf_out b -> buf_p b + Z.of_nat (length buf) <= buf_a b ->
  emits w b buf (b ← buf_append b buf; Some (0, w, b)).
Proof.
  intros Hw Hl. destruct (buf_append_ok b buf Hw Hl) as (b' & -> & Hw' & Ha & Hp & _).
  exists 0, w, b'. split; [done|]. split; [done|]. split; [done|]. split; [lia|]. apply settled_good.
  unfold emitted. by rewrite Hp, app_assoc.
Qed.

(** The path of [buffer_put] and [buffer_putc] that flushes first. *)
Lemma emits_flush (w : W) (b : buffer) (buf : list Z) (big : bool) :
  wf_out b -> (patience w + Z.to_nat (buf_a b) + length buf < calls)%nat ->
  (big = false -> Z.of_nat (length buf) <= buf_a b) ->
  emits w b buf
    ('(r, w, b) ← buffer_flush calls w b;
     if r =? -1 then Some (-1, w, b) else
     if big then
       '(r, w) ← buffer_stubborn calls w buf;
       Some (if r <? 0 then -1 else 0, w, b)
     else b ← buf_append b buf; Some (0, w, b)).
Proof.
  intros Hw Hf Hbig.
  destruct (flush_ok w b Hw) as (r & w1 & b1 & -> & Hw1 & Ha1 & Hp1 & Hpt1 & Hor); [lia|].
  cbn [mbind option_bind]. destruct Hor as [(-> & Hfl & Hs)|(-> & Hfl & Hs)].
  2: { exists (-1), w1, b1. split; [done|]. split; [done|]. split; [done|]. split; [lia|].
       right. split; [done|]. split; [done|]. by apply prefix_more. }
  change (0 =? -1) with false. cbv iota. destruct big.
  - destruct (stubborn_ok w1 buf) as (r & w2 & -> & Hpt2 & Hor2); [lia|].
    cbn [mbind option_bind]. eexists _, w2, b1. split; [done|]. split; [done|]. split; [done|].
    split; [lia|]. rewrite <- Hs.
    destruct Hor2 as [(-> & Hfl2 & Hs2)|(-> & Hfl2 & Hs2)]; [left|right]; (split; [done|]); (split; [lia|]); [|done].
    by rewrite emitted_empty.
  - assert (buf_p b1 + Z.of_nat (length buf) <= buf_a b1) as Hl
      by (specialize (Hbig eq_refl); lia).
    destruct (buf_append_ok b1 buf Hw1 Hl) as (b2 & -> & Hw2 & Ha2 & Hp2 & _).
    cbn [mbind option_bind]. exists 0, w1, b2. split; [done|]. split; [done|].
    split; [congruence|]. split; [lia|]. left. split; [done|]. split; [done|].
    assert (pending b1 = []) as Hnil by (unfold pending; by rewrite Hp1).
    unfold emitted in *. by rewrite Hp2, Hs, Hnil.
Qed.

Lemma put_ok (w : W) (b : buffer) (buf : list Z) :
  wf_out b -> (patience w + Z.to_nat (buf_a b) + length buf < calls)%nat ->
  emits w b buf (buffer_put calls w b buf).
Proof.
  intros Hw Hf. pose proof Hw as (Hp & Ha & Hb). unfold buffer_put.
  rewrite u64_id by (split; lia).
  destruct (Z.ltb_spec (buf_a b - buf_p b) (Z.of_nat (length buf))).
  - destruct (flush_ok w b Hw) as (r & w1 & b1 & E & _ & Ha1 & _); [lia|].
    pose proof (emits_flush w b buf (buf_a b <? Z.of_nat (length buf)) Hw Hf) as He.
    rewrite E in *. cbn [mbind option_bind] in *. rewrite Ha1. apply He. lia.
  - apply emits_append; [done|lia].
Qed.

Lemma putc_ok (w : W) (b : buffer) (c : Z) :
  wf_out b -> (patience w + Z.to_nat (buf_a b) + 1 < calls)%nat ->
  emits w b [c] (buffer_putc calls w b c).
Proof.
  intros Hw Hf. pose proof Hw as (Hp & Ha & Hb). unfold buffer_putc.
  destruct (Z.eqb_spec (buf_a b) (buf_p b)).
  - destruct (flush_ok w b Hw) as (r & w1 & b1 & E & _ & Ha1 & _); [lia|].
    pose proof (emits_flush w b [c] (buf_a b =? 0) Hw ltac:(simpl; lia)) as He.
    rewrite E in *. cbn [mbind option_bind] in *. rewrite Ha1. apply He. simpl. lia.
  - apply emits_append; [done|simpl; lia].
Qed.

(** Output after output. *)
Lemma emits_bind (w : W) (b : buffer) (t1 t2 : list Z) (r1 : option (Z * W * buffer))
    (f : Z -> bool) (k : W -> buffer -> option (Z * W * buffer)) :
  f 0 = false -> f (-1) = true -> emits w b t1 r1 ->
  (forall w' b', wf_out b' -> buf_a b' = buf_a b -> (patience w' <= patience w)%nat ->
     emits w' b' t2 (k w' b')) ->
  emits w b (t1 ++ t2)
    ('(r, w, b) ← r1; if f r then Some (-1, w, b) else k w b).
Proof.
  intros H0 H1 (r & w1 & b1 & -> & Hw1 & Ha1 & Hp1 & Hor) Hk. cbn [mbind option_bind].
  destruct Hor as [(-> & Hfl & He)|(-> & Hfl & Hs)]; rewrite ?H0, ?H1.
  - destruct (Hk w1 b1 Hw1 Ha1 Hp1) as (r & w2 & b2 & -> & Hw2 & Ha2 & Hp2 & Hor).
    exists r, w2, b2. split; [done|]. split; [done|]. split; [congruence|]. split; [lia|].
    rewrite He, <- app_assoc in Hor. by apply (settled_from _ _ _ _ _ _ _ _ Hfl Hor).
  - exists (-1), w1, b1. split; [done|]. split; [done|]. split; [done|]. split; [lia|].
    right. split; [done|]. split; [done|]. rewrite app_assoc. by apply prefix_more.
Qed.

Lemma putalign_loop_ok (fuel : nat) : forall (w : W) (b : buffer) (buf : list Z),
  wf_out b -> 0 < buf_a b -> (patience w + Z.to_nat (buf_a b) < calls)%nat ->
  (length buf + (if (buf_p b =? buf_a b)%Z then 2 else 1) <= fuel)%nat ->
  emits w b buf (putalign_loop calls w b buf fuel).
Proof.
  induction fuel as [|fuel IH]; intros w b buf Hw H0 Hf Hl; [destruct (_ =? _); lia|].
  pose proof Hw as (Hp & Ha & Hb). cbn [putalign_loop]. rewrite u64_id by (split; lia).
  destruct (Z.ltb_spec (buf_a b - buf_p b) (Z.of_nat (length buf))).
  2: { apply emits_append; [done|lia]. }
  set (k := Z.to_nat (buf_a b - buf_p b)).
  assert (length (take k buf) = k) as Hk by (rewrite length_take; lia).
  destruct (buf_append_ok b (take k buf) Hw) as (b1 & -> & Hw1 & Ha1 & Hp1 & Hq1); [lia|].
  cbn [mbind option_bind].
  destruct (flush_ok w b1 Hw1) as (r & w2 & b2 & -> & Hw2 & Ha2 & Hq2 & Hpt2 & Hor); [lia|].
  cbn [mbind option_bind].
  assert (emitted w b1 = emitted w b ++ take k buf) as He
    by (unfold emitted; by rewrite Hp1, app_assoc).
  rewrite He in Hor. destruct Hor as [(-> & Hfl & Hs)|(-> & Hfl & Hs)].
  - change (0 <? 0) with false. cbv iota.
    destruct (IH w2 b2 (drop k buf) Hw2) as (r & w3 & b3 & -> & Hw3 & Ha3 & Hp3 & Hor);
      [lia|lia| |].
    { rewrite length_drop, Hq2. zfalse (0 =? buf_a b2).
      destruct (Z.eqb_spec (buf_p b) (buf_a b)); lia. }
    exists r, w3, b3. split; [done|]. split; [done|]. split; [congruence|]. split; [lia|].
    rewrite (emitted_empty w2 b2 Hq2), Hs, <- app_assoc, take_drop in Hor.
    by apply (settled_from _ _ _ _ _ _ _ _ Hfl Hor).
  - change (-1 <? 0) with true. cbv iota. exists (-1), w2, b2. split; [done|]. split; [done|].
    split; [congruence|]. split; [lia|]. right. split; [done|]. split; [done|].
    rewrite <- (take_drop k buf), app_assoc. by apply prefix_more.
Qed.

Lemma putflush_ok (w : W) (b : buffer) (buf : list Z) :
  wf_out b -> (patience w + Z.to_nat (buf_a b) + length buf < calls)%nat ->
  emits w b buf (buffer_putflush calls None w b buf) /\
  forall r w' b', buffer_putflush calls None w b buf = Some (r, w', b') -> buf_p b' = 0 \/ r = -1.
Proof.
  intros Hw Hf. unfold buffer_putflush.
  destruct (Z.eqb_spec (buf_p b) 0) as [E|E].
  - destruct (stubborn_ok w buf) as (r & w' & -> & Hp & Hor); [lia|]. cbn [mbind option_bind].
    split; [|intros ? ? ? [= <- <- <-]; by left].
    exists r, w', b. split; [done|]. split; [done|]. split; [done|]. split; [done|].
    rewrite !emitted_empty by done. exact Hor.
  - destruct (put_ok w b buf Hw Hf) as (r & w1 & b1 & -> & Hw1 & Ha1 & Hp1 & Hor).
    cbn [mbind option_bind]. destruct Hor as [(-> & Hfl & He)|(-> & Hfl & Hs)].
    + change (0 <? 0) with false. cbv iota.
      destruct (flush_ok w1 b1 Hw1) as (r & w2 & b2 & -> & Hw2 & Ha2 & Hq2 & Hp2 & Hor); [lia|].
      cbn [mbind option_bind]. split; [|intros ? ? ? [= <- <- <-]; by left].
      eexists _, w2, b2. split; [done|]. split; [done|]. split; [congruence|]. split; [lia|].
      rewrite <- He. destruct Hor as [(-> & Hfl2 & Hs)|(-> & Hfl2 & Hs)]; [left|right]; (split; [done|]); (split; [lia|]); [|done].
      by rewrite (emitted_empty w2 b2).
    + change (-1 <? 0) with true. cbv iota. split; [|intros ? ? ? [= <- <- <-]; by right].
      exists (-1), w1, b1. split; [done|]. split; [done|]. split; [done|]. split; [lia|]. by right.
Qed.

Lemma emits_nil (w : W) (b : buffer) : wf_out b -> emits w b [] (Some (0, w, b)).
Proof.
  intros Hw. exists 0, w, b. split; [done|]. split; [done|]. split; [done|]. split; [lia|].
  apply settled_good. by rewrite app_nil_r.
Qed.

Lemma put_times_ok (x : list Z) (n : nat) : forall (w : W) (b : buffer),
  wf_out b -> (patience w + Z.to_nat (buf_a b) + length x < calls)%nat ->
  emits w b (concat (replicate n x)) (put_times calls w b x n).
Proof.
  induction n as [|n IH]; intros w b Hw Hf; [by apply emits_nil|].
  cbn [put_times replicate concat].
  apply (emits_bind _ _ _ _ _ (fun r => r <? 0) (fun w b => put_times calls w b x n));
    [done..|by apply put_ok|].
  intros w' b' Hw' Ha Hp. apply IH; [done|]. rewrite Ha. lia.
Qed.

Lemma concat_single (n : nat) (c : Z) : concat (replicate n [c]) = replicate n c.
Proof. induction n as [|n IH]; [done|]. cbn [replicate concat app]. by rewrite IH. Qed.

(** A number behind its padding. *)
Lemma padded_ok (w : W) (b : buffer) (pad text : list Z) (r : option (Z * W * buffer)) :
  emits w b pad r -> (patience w + Z.to_nat (buf_a b) + length text < calls)%nat ->
  emits w b (pad ++ text) ('(r, w, b) ← r; if r <? 0 then Some (-1, w, b) else buffer_put calls w b text).
Proof.
  intros Hr Hf. apply (emits_bind _ _ _ _ _ (fun r => r <? 0) (fun w b => buffer_put calls w b text));
    [done..|].
  intros w' b' Hw' Ha Hp. apply put_ok; [done|]. rewrite Ha. lia.
Qed.

Lemma puts_ok (w : W) (b : buffer) (s z : list Z) :
  wf_out b -> nonul s -> (patience w + Z.to_nat (buf_a b) + length s < calls)%nat ->
  emits w b s (buffer_puts calls w b (cstr s ++ z)).
Proof.
  intros Hw Hs Hf. unfold buffer_puts, cstr. rewrite <- app_assoc. cbn [app].
  assert (str_len (s ++ 0 :: z) = Some (length s)) as -> by exact (str_len_spec s z Hs). cbn [mbind option_bind]. rewrite take_app_length.
  by apply put_ok.
Qed.

(** ** Sequences of output *)

Inductive out_op : Type :=
  | Put (buf : list Z)
  | Putc (c : Z)
  | Putalign (buf : list Z)
  | Puts (s : list Z)
  | Putspaces (n : nat)
  | Putnum (l : Z) (pad : nat)
  | Putflush (buf : list Z)
  | Flush.

Definition run_out (w : W) (b : buffer) (o : out_op) : option (Z * W * buffer) :=
  match o with
  | Put buf => buffer_put calls w b buf
  | Putc c => buffer_putc calls w b c
  | Putalign buf => buffer_putalign calls w b buf
  | Puts s => buffer_puts calls w b (cstr s)
  | Putspaces n => buffer_putnspace calls w b (Z.of_nat n)
  | Putnum l pad => buffer_putulong0 calls w b l (Z.of_nat pad)
  | Putflush buf => buffer_putflush calls None w b buf
  | Flush => buffer_flush calls w b
  end.

(** The bytes an operation puts in. *)
Definition out_text (o : out_op) : list Z :=
  match o with
  | Put buf | Putalign buf | Puts buf | Putflush buf => buf
  | Putc c => [c]
  | Putspaces n => replicate n 32
  | Putnum l pad =>
      let text := fst (fmt_ulong true l) in replicate (pad - length text) 32 ++ text
  | Flush => []
  end.

Definition out_valid (o : out_op) : Prop :=
  match o with Puts s => nonul s | Putnum l _ => is_u64 l | _ => True end.

Fixpoint run_outs (w : W) (b : buffer) (os : list out_op) : option (Z * W * buffer) :=
  match os with
  | [] => Some (0, w, b)
  | o :: os =>
      '(r, w, b) ← run_out w b o;
      if r <? 0 then Some (-1, w, b) else run_outs w b os
  end.

Lemma run_out_ok (w : W) (b : buffer) (o : out_op) :
  wf_out b -> 0 < buf_a b -> out_valid o ->
  (patience w + Z.to_nat (buf_a b) + length (out_text o) + 1 < calls)%nat ->
  emits w b (out_text o) (run_out w b o).
Proof.
  intros Hw H0 Hv Hf. destruct o as [buf|c|buf|s|n|l pad|buf|]; cbn [run_out out_text] in *.
  - apply put_ok; [done|lia].
  - apply putc_ok; [done|simpl in *; lia].
  - apply putalign_loop_ok; [done|done|lia|]. destruct (_ =? _); lia.
  - pose proof (puts_ok w b s [] Hw Hv) as Hs. rewrite app_nil_r in Hs. apply Hs. lia.
  - unfold buffer_putnspace. destruct (Z.ltb_spec 0 (Z.of_nat n)).
    + rewrite Nat2Z.id. apply put_ok; [done|]. lia.
    + replace n with O by lia. by apply emits_nil.
  - cbn [out_valid] in Hv. unfold buffer_putulong0. rewrite fmt_ulong_num in * by done.
    unfold num_out in *. cbn [fst] in *. rewrite length_fmap in *.
    rewrite length_app, length_replicate, length_fmap in Hf. apply padded_ok.
    + unfold buffer_putnspace.
      destruct (Z.ltb_spec (Z.of_nat (length (numeral 10 l))) (Z.of_nat pad)).
      * ztrue (0 <? Z.of_nat pad - Z.of_nat (length (numeral 10 l))).
        replace (Z.to_nat (Z.of_nat pad - Z.of_nat (length (numeral 10 l))))
          with (pad - length (numeral 10 l))%nat by lia.
        apply put_ok; [done|]. rewrite length_replicate. lia.
      * replace (pad - length (numeral 10 l))%nat with O by lia. by apply emits_nil.
    + rewrite length_fmap. lia.
  - apply putflush_ok; [done|lia].
  - destruct (flush_ok w b Hw) as (r & w' & b' & -> & Hw' & Ha' & Hq & Hp & Hor); [lia|].
    exists r, w', b'. split; [done|]. split; [done|]. split; [done|]. split; [lia|].
    rewrite app_nil_r. apply (settled_same _ _ _ _ _ _ _ Hor); [|done].
    by rewrite (emitted_empty w' b' Hq).
Qed.

Lemma run_outs_ok (os : list out_op) : forall (w : W) (b : buffer),
  wf_out b -> 0 < buf_a b -> Forall out_valid os ->
  (patience w + Z.to_nat (buf_a b) + length (concat (map out_text os)) + 1 < calls)%nat ->
  emits w b (concat (map out_text os)) (run_outs w b os).
Proof.
  induction os as [|o os IH]; intros w b Hw H0 Hv Hf; [by apply emits_nil|].
  cbn [run_outs map concat] in *. rewrite length_app in Hf.
  apply list.Forall_cons in Hv as [Ho Hv].
  apply (emits_bind _ _ _ _ _ (fun r => r <? 0) (fun w b => run_outs w b os)); [done..| |].
  - apply run_out_ok; (done || lia).
  - intros w' b' Hw' Ha Hp. apply IH; try done; rewrite Ha; lia.
Qed.
End output_laws.

(** A flush behind a sequence. *)
Lemma run_outs_flush {W : Type} `{!Errno W, !Writer W} (calls : nat) (os : list out_op) : forall (w : W) (b : buffer),
  run_outs calls w b (os ++ [Flush]) =
    ('(r, w, b) ← run_outs calls w b os;
     if r <? 0 then Some (-1, w, b) else
     '(r, w, b) ← buffer_flush calls w b; Some (if r <? 0 then -1 else 0, w, b)).
Proof.
  induction os as [|o os IH]; intros w b; cbn [app run_outs].
  - cbn [run_out mbind option_bind]. change (0 <? 0) with false. cbv iota.
    destruct (buffer_flush calls w b) as [[[r w'] b']|]; [|done]. cbn [mbind option_bind].
    by destruct (r <? 0).
  - destruct (run_out calls w b o) as [[[r w'] b']|]; [|done]. cbn [mbind option_bind].
    destruct (r <? 0); [done|apply IH].
Qed.

(** ** Input *)

Section input_laws.
Context {W : Type} `{ReaderLaws W} (calls : nat).

Definition wf_in (b : buffer) : Prop :=
  0 <= buf_p b <= buf_n b /\ buf_n b <= buf_a b /\ 0 < buf_a b /\
  buf_a b = Z.of_nat (length (buf_x b)) /\ buf_a b < 2 ^ 62.

(** The bytes read and not yet taken, and all the input that is left. *)
Definition ahead (b : buffer) : list Z :=
  block (buf_x b) (Z.to_nat (buf_p b)) (Z.to_nat (buf_n b - buf_p b)).
Definition input (w : W) (b : buffer) : list Z := ahead b ++ stream w.

Lemma ahead_length (b : buffer) :
  wf_in b -> Z.of_nat (length (ahead b)) = buf_n b - buf_p b.
Proof. intros (Hp & Hn & _ & Ha & _). unfold ahead. rewrite block_length; lia. Qed.

Lemma read_loop_ok (fuel : nat) : forall (w : W) (len : Z),
  0 < len -> (tries w < fuel)%nat ->
  exists r l w', read_loop w len fuel = Some (r, l, w') /\ (tries w' <= tries w)%nat /\
    (r < 0 /\ read_faults w < read_faults w' /\ stream w' = stream w \/
     r = Z.of_nat (length l) /\ r <= len /\ stream w = l ++ stream w' /\
       (l = [] -> stream w = []) /\ read_faults w' = read_faults w).
Proof.
  induction fuel as [|fuel IH]; intros w len H0 Hf; [lia|]. cbn [read_loop].
  destruct (op_read w len) as [[r l] w1] eqn:E. apply read_law in E as [Ht Hr]; [|done].
  destruct (Z.ltb_spec r 0); cbn [andb].
  - destruct Hr as [Hs He]. destruct (eintr w1).
    + destruct He as [He Hfl]. destruct (IH w1 len H0) as (r' & l' & w' & -> & Ht' & Hor); [lia|].
      rewrite Hs, Hfl in Hor. exists r', l', w'. split; [done|]. split; [lia|done].
    + exists r, l, w1. split; [done|]. split; [lia|]. left. split; [done|]. split; [lia|done].
  - exists r, l, w1. split; [done|]. split; [done|]. by right.
Qed.

Lemma seek_ok (b : buffer) (k : nat) :
  wf_in b -> (k <= length (ahead b))%nat ->
  wf_in (buf_seek b (Z.of_nat k)) /\ ahead (buf_seek b (Z.of_nat k)) = drop k (ahead b) /\
  buf_a (buf_seek b (Z.of_nat k)) = buf_a b.
Proof.
  intros Hw Hk. pose proof (ahead_length b Hw) as Hal. pose proof Hw as (Hp & Hn & H0 & Ha & Hb).
  unfold buf_seek, wf_in, ahead in *. cbn [buf_x buf_p buf_n buf_a] in *.
  rewrite u64_id by (split; lia). split; [lia|]. split; [|done].
  unfold block. rewrite skipn_firstn_comm, drop_drop. f_equal; [lia|]. f_equal. lia.
Qed.

Lemma take_ok (b : buffer) (k : nat) :
  wf_in b -> (k <= length (ahead b))%nat ->
  buf_take b (Z.of_nat k) = Some (take k (ahead b)).
Proof.
  intros Hw Hk. pose proof (ahead_length b Hw) as Hal. pose proof Hw as (Hp & Hn & H0 & Ha & Hb).
  unfold buf_take. rewrite Nat2Z.id, block_length, Nat.eqb_refl by lia. f_equal.
  unfold ahead, block. rewrite take_take. f_equal. lia.
Qed.

Lemma feed_ok (w : W) (b : buffer) :
  wf_in b -> (tries w < calls)%nat ->
  exists r w' b', buffer_feed calls true w b = Some (r, w', b') /\ wf_in b' /\
    buf_a b' = buf_a b /\ (tries w' <= tries w)%nat /\ input w' b' = input w b /\
    (r = -1 /\ read_faults w < read_faults w' \/
     r = Z.of_nat (length (ahead b')) /\ (r = 0 -> input w b = []) /\ read_faults w' = read_faults w).
Proof.
  intros Hw Hf. pose proof (ahead_length b Hw) as Hl. pose proof Hw as (Hp & Hn & H0 & Ha & Hb).
  unfold buffer_feed, input. destruct (Z.eqb_spec (buf_p b) (buf_n b)) as [E|E].
  - assert (ahead b = []) as Hnil by (apply nil_length_inv; lia).
    destruct (read_loop_ok calls w (buf_a b)) as (r & l & w' & Er & Ht & Hor); [done..|].
    unfold buffer_stubborn_read. rewrite Er. cbn [mbind option_bind].
    destruct Hor as [(Hr & Hfl & Hs)|(-> & Hlen & Hs & He & Hfl)].
    + ztrue (r <? 0). exists (-1), w', b. rewrite Hs. split; [done|]. split; [done|].
      split; [done|]. split; [lia|]. auto.
    + zfalse (Z.of_nat (length l) <? 0). unfold buf_fill.
      rewrite byte_copy_spec by (simpl; lia || done). cbn [mbind option_bind src_block].
      rewrite firstn_all. set (b' := Buffer _ _ _ _).
      assert (wf_in b') as Hw'.
      { unfold wf_in, b'. cbn [buf_x buf_p buf_n buf_a]. rewrite splice_length; lia. }
      assert (ahead b' = l) as Hl'.
      { unfold ahead, b', block, splice. cbn [buf_x buf_p buf_n].
        rewrite Z.sub_0_r, Nat2Z.id, drop_0. simpl. apply take_app_length. }
      eexists _, w', b'. split; [done|]. split; [done|]. split; [done|]. split; [lia|].
      rewrite Hl', Hs, Hnil. split; [done|]. right. split; [done|]. split; [|done].
      intros Hz. rewrite <- Hs. simpl. apply He. apply nil_length_inv. lia.
  - rewrite u64_id by (split; lia). eexists _, w, b. split; [done|]. split; [done|].
    split; [done|]. split; [lia|]. split; [done|]. right. split; [lia|]. split; [lia|done].
Qed.

Lemma input_seek (w : W) (b : buffer) (k : nat) :
  wf_in b -> (k <= length (ahead b))%nat ->
  input w b = take k (ahead b) ++ input w (buf_seek b (Z.of_nat k)).
Proof.
  intros Hw Hk. unfold input. destruct (seek_ok b k Hw Hk) as (_ & -> & _).
  by rewrite app_assoc, take_drop.
Qed.

(** The next byte of the input. *)
Definition next_byte (w : W) (b : buffer) (r : Z) (c : option Z) (w' : W) (b' : buffer) : Prop :=
  wf_in b' /\ buf_a b' = buf_a b /\ (tries w' <= tries w)%nat /\
  (r = -1 /\ read_faults w < read_faults w' /\ c = None /\ input w' b' = input w b \/
   read_faults w' = read_faults w /\
   (r = 0 /\ c = None /\ input w b = [] /\ input w' b' = [] \/
    r = 1 /\ exists x, c = Some x /\ input w b = x :: input w' b')).

Lemma getc_ok (w : W) (b : buffer) :
  wf_in b -> (tries w < calls)%nat ->
  exists r c w' b', buffer_getc calls w b = Some (r, c, w', b') /\ next_byte w b r c w' b'.
Proof.
  intros Hw Hf. unfold buffer_getc.
  assert (exists r w' b', (if buf_p b =? buf_n b then buffer_feed calls true w b else Some (1, w, b)) =
    Some (r, w', b') /\ wf_in b' /\ buf_a b' = buf_a b /\ (tries w' <= tries w)%nat /\
    input w' b' = input w b /\
    (r = -1 /\ read_faults w < read_faults w' \/
     read_faults w' = read_faults w /\ ((r = 0 /\ input w b = []) \/ (0 < r /\ (0 < length (ahead b'))%nat))))
    as (r & w1 & b1 & -> & Hw1 & Ha1 & Ht1 & Hi1 & Hor).
  { destruct (Z.eqb_spec (buf_p b) (buf_n b)) as [E|E].
    - destruct (feed_ok w b Hw Hf) as (r & w' & b' & -> & Hw' & Ha' & Ht & Hi & Hor).
      exists r, w', b'. split; [done|]. repeat (split; [done|]).
      destruct Hor as [[-> Hfl]|(-> & Hz & Hfl)]; [by left|right]. split; [done|].
      destruct (length (ahead b')) eqn:El; [left|right; lia].
      split; [done|by apply Hz].
    - exists 1, w, b. split; [done|]. repeat (split; [done || lia|]). right. split; [done|]. right.
      split; [lia|]. pose proof (ahead_length b Hw). destruct Hw as (Hp & _). lia. }
  cbn [mbind option_bind].
  destruct Hor as [[-> Hfl]|(Hfl & [[-> Hz]|[Hr Hlen]])].
  - change (-1 <=? 0) with true. cbv iota. exists (-1), None, w1, b1. split; [done|].
    unfold next_byte. rewrite Hi1. split; [done|]. split; [done|]. split; [done|]. by left.
  - change (0 <=? 0) with true. cbv iota. exists 0, None, w1, b1. split; [done|].
    unfold next_byte. rewrite Hi1, Hz. split; [done|]. split; [done|]. split; [done|].
    right. split; [done|]. by left.
  - zfalse (r <=? 0). pose proof (input_seek w1 b1 1 Hw1 Hlen) as Hs.
    destruct (seek_ok b1 1 Hw1 Hlen) as (Hw2 & Hd & Ha2).
    destruct (ahead b1) as [|c l] eqn:El; [simpl in Hlen; lia|].
    assert (load (buf_x b1) (Z.to_nat (buf_p b1)) = Some c) as ->.
    { assert (ahead b1 !! O = Some c) as Hc by (by rewrite El).
      unfold ahead in Hc. rewrite block_lookup in Hc; [by rewrite Nat.add_0_r in Hc|].
      pose proof (ahead_length b1 Hw1) as Hal. rewrite El in Hal. simpl in Hal. lia. }
    cbn [mbind option_bind]. eexists _, _, w1, _. split; [done|]. unfold next_byte.
    change (Z.of_nat 1) with 1 in *. split; [done|]. split; [congruence|]. split; [done|].
    right. split; [done|]. right. split; [done|]. exists c. split; [done|]. rewrite <- Hi1, Hs. done.
Qed.

Lemma get_loop_ok (fuel : nat) : forall (w : W) (b : buffer) (len : nat) (acc : list Z),
  wf_in b -> (tries w < calls)%nat -> (length (input w b) < fuel)%nat ->
  exists r l w' b', get_loop calls w b (Z.of_nat len) acc fuel = Some (r, acc ++ l, w', b') /\
    wf_in b' /\ buf_a b' = buf_a b /\ (tries w' <= tries w)%nat /\
    input w b = l ++ input w' b' /\
    (r = -1 /\ read_faults w < read_faults w' /\ (length l < len)%nat \/
     r = Z.of_nat (length acc + length l) /\ read_faults w' = read_faults w /\ l = take len (input w b)).
Proof.
  induction fuel as [|fuel IH]; intros w b len acc Hw Ht Hf; [lia|]. cbn [get_loop].
  destruct (Z.eqb_spec (Z.of_nat len) 0).
  { replace len with O by lia. exists (Z.of_nat (length acc)), [], w, b.
    rewrite app_nil_r. split; [done|]. repeat (split; [done || lia|]). right.
    split; [simpl; lia|]. by split. }
  destruct (feed_ok w b Hw Ht) as (r & w1 & b1 & -> & Hw1 & Ha1 & Ht1 & Hi1 & Hor).
  cbn [mbind option_bind]. destruct Hor as [[-> Hfl]|(-> & Hz & Hfl)].
  { change (-1 <? 0) with true. cbv iota. exists (-1), [], w1, b1. rewrite app_nil_r, Hi1.
    split; [done|]. repeat (split; [done || lia|]). left. simpl. split; [done|]. lia. }
  zfalse (Z.of_nat (length (ahead b1)) <? 0).
  destruct (Z.eqb_spec (Z.of_nat (length (ahead b1))) 0) as [E|E].
  { exists (Z.of_nat (length acc)), [], w1, b1. rewrite app_nil_r, Hi1. split; [done|].
    repeat (split; [done || lia|]). right. rewrite Hz by done. rewrite take_nil. simpl.
    split; [lia|]. by split. }
  set (k := Nat.min len (length (ahead b1))).
  replace (if Z.of_nat len <=? Z.of_nat (length (ahead b1)) then Z.of_nat len
           else Z.of_nat (length (ahead b1))) with (Z.of_nat k)
    by (destruct (Z.leb_spec (Z.of_nat len) (Z.of_nat (length (ahead b1)))); lia).
  assert (k <= length (ahead b1))%nat as Hk by lia.
  rewrite (take_ok b1 k Hw1 Hk). cbn [mbind option_bind].
  destruct (seek_ok b1 k Hw1 Hk) as (Hw2 & Hd & Ha2). pose proof (input_seek w1 b1 k Hw1 Hk) as Hs.
  replace (Z.of_nat len - Z.of_nat k) with (Z.of_nat (len - k)) by lia.
  assert (length (take k (ahead b1)) = k) as Hlk by (rewrite length_take; lia).
  destruct (IH w1 (buf_seek b1 (Z.of_nat k)) (len - k)%nat (acc ++ take k (ahead b1)))
    as (r & l & w' & b' & -> & Hw' & Ha' & Ht' & Hi' & Hor); [done|lia| |].
  { apply (f_equal length) in Hs. rewrite length_app in Hs. rewrite Hi1 in Hs. lia. }
  exists r, (take k (ahead b1) ++ l), w', b'. rewrite app_assoc. split; [done|].
  split; [done|]. split; [congruence|]. split; [lia|]. rewrite <- Hi1, Hs, Hi'.
  split; [by rewrite <- !app_assoc|]. rewrite !length_app, Hlk.
  destruct Hor as [(-> & Hfl2 & Hl)|(-> & Hfl2 & Hl)]; [left; lia|right].
  split; [rewrite length_app; lia|]. split; [lia|]. rewrite <- Hi', take_app, Hlk.
  rewrite (take_ge (take k _)) by lia. by f_equal.
Qed.
End input_laws.

(** ** Tokens *)

Section tokens.
Context {W : Type} `{ReaderLaws W} (calls : nat).

(** The bytes up to the first one of the set, that one included, at most [n]. *)
Fixpoint through (set : list Z) (n : nat) (l : list Z) : list Z :=
  match n, l with
  | S n', c :: l' => c :: (if in_set set c then [] else through set n' l')
  | _, _ => []
  end.

Lemma in_set_test (set : list Z) (c : Z) :
  byte_chr set (length set) c = Some (span (ne c) set) /\
  (span (ne c) set <? length set)%nat = in_set set c.
Proof.
  rewrite byte_chr_spec, firstn_all by done. split; [done|]. apply span_ne_lt.
Qed.

Lemma until_loop_ok (set : list Z) (n : nat) : forall (w : W) (b : buffer) (acc : list Z),
  wf_in b -> (tries w < calls)%nat -> Z.of_nat (length acc + n) < 2 ^ 31 ->
  exists r l w' b', until_loop calls w b n set (length set) acc = Some (r, acc ++ l, w', b') /\
    wf_in b' /\ buf_a b' = buf_a b /\ (tries w' <= tries w)%nat /\
    (r = -1 /\ read_faults w < read_faults w' /\ input w b = l ++ input w' b' \/
     r = Z.of_nat (length (acc ++ through set n (input w b))) /\ read_faults w' = read_faults w /\
       exists z, l = through set n (input w b) ++ z /\
         input w b = through set n (input w b) ++ input w' b' /\
         (z = [] \/ z = [0] /\ input w' b' = [])).
Proof.
  assert (forall x, 0 <= x < 2 ^ 31 -> s32 x = x) as Hs32 by (intros; zmod).
  induction n as [|n IH]; intros w b acc Hw Ht Hb; cbn [until_loop through].
  { exists (s32 (Z.of_nat (length acc))), [], w, b. rewrite app_nil_r, Hs32 by lia.
    split; [done|]. repeat (split; [done|]). right. split; [by destruct (input w b)|]. split; [done|].
    exists []. destruct (input w b); auto. }
  destruct (getc_ok calls w b Hw Ht) as (r & c & w1 & b1 & -> & Hw1 & Ha1 & Ht1 & Hor).
  cbn [mbind option_bind].
  destruct Hor as [(-> & Hfl & -> & Hi)|(Hfl & [(-> & -> & Hi & Hi1)|(-> & x & -> & Hi)])].
  - change (-1 <? 0) with true. cbv iota. exists (-1), [], w1, b1. rewrite app_nil_r, <- Hi.
    split; [done|]. repeat (split; [done|]). by left.
  - change (0 <? 0) with false. change (0 =? 0) with true. cbv iota. rewrite Hs32 by lia.
    exists (Z.of_nat (length acc)), [0], w1, b1. split; [done|]. repeat (split; [done|]). right.
    rewrite Hi, Hi1. rewrite app_nil_r. split; [done|]. split; [done|]. exists [0]. auto.
  - change (1 <? 0) with false. change (1 =? 0) with false. cbv iota.
    cbn [mbind option_bind]. destruct (in_set_test set x) as [-> Hset].
    cbn [mbind option_bind]. rewrite Hset, Hi. destruct (in_set set x).
    + exists (s32 (Z.of_nat (S (length acc)))), [x], w1, b1. rewrite Hs32 by lia. split; [done|].
      repeat (split; [done|]). right. split; [rewrite length_app; simpl; lia|]. split; [done|]. exists []. auto.
    + destruct (IH w1 b1 (acc ++ [x]) Hw1) as (r & l & w' & b' & -> & Hw' & Ha' & Ht' & Hor);
        [lia|rewrite length_app; simpl; lia|].
      exists r, (x :: l), w', b'. rewrite <- app_assoc. split; [done|]. split; [done|].
      split; [congruence|]. split; [lia|].
      destruct Hor as [(-> & Hfl2 & Hl)|(-> & Hfl2 & z & -> & Hl & Hz)].
      { left. split; [done|]. split; [lia|]. by rewrite Hl. }
      right. split; [by rewrite <- app_assoc|]. split; [lia|]. exists z. split; [done|]. split; [by rewrite Hl at 1|done].
Qed.
End tokens.

(** ** Copying *)

Section copy_laws.
Context {W V : Type} `{WriterLaws W, ReaderLaws V} (calls : nat).

(** What a copy comes to: each result has its cause. *)
Definition copied (w : W) (v : V) (out inp : buffer) (r : Z) (w' : W) (v' : V) (out' inp' : buffer) : Prop :=
  r = 0 /\ write_faults w' = write_faults w /\ read_faults v' = read_faults v /\ wf_out out' /\ input v' inp' = [] /\
    emitted w' out' = emitted w out ++ input v inp \/
  r = -2 /\ write_faults w' = write_faults w /\ read_faults v < read_faults v' /\ wf_out out' /\
    emitted w out ++ input v inp = emitted w' out' ++ input v' inp' \/
  r = -3 /\ write_faults w < write_faults w' /\ sent w' `prefix_of` emitted w out ++ input v inp.

Lemma copy_loop_ok (fuel : nat) : forall (w : W) (v : V) (out inp : buffer),
  wf_out out -> wf_in inp -> (tries v < calls)%nat -> (length (input v inp) < fuel)%nat ->
  (patience w + Z.to_nat (buf_a out) + length (input v inp) < calls)%nat ->
  exists r w' v' out' inp', copy_loop calls w v out inp fuel = Some (r, w', v', out', inp') /\
    copied w v out inp r w' v' out' inp'.
Proof.
  induction fuel as [|fuel IH]; intros w v out inp Hwo Hwi Ht Hf Hc; [lia|]. cbn [copy_loop].
  destruct (feed_ok calls v inp Hwi Ht) as (n & v1 & inp1 & -> & Hw1 & Ha1 & Ht1 & Hi1 & Hor).
  cbn [mbind option_bind]. unfold copied. destruct Hor as [[-> Hfl]|(-> & Hz & Hfl)].
  { change (-1 <? 0) with true. cbv iota. exists (-2), w, v1, out, inp1. split; [done|].
    right. left. rewrite Hi1. by split_and!. }
  zfalse (Z.of_nat (length (ahead inp1)) <? 0).
  destruct (Z.eqb_spec (Z.of_nat (length (ahead inp1))) 0) as [E|E].
  { exists 0, w, v1, out, inp1. split; [done|]. left. rewrite Hi1, Hz by done.
    rewrite app_nil_r. by split_and!. }
  rewrite take_ok by done. rewrite firstn_all. cbn [mbind option_bind].
  destruct (seek_ok inp1 (length (ahead inp1)) Hw1) as (Hw2 & Hd & Ha2); [done|].
  pose proof (input_seek v1 inp1 (length (ahead inp1)) Hw1 ltac:(done)) as Hs.
  rewrite firstn_all in Hs. rewrite <- Hi1 in *. rewrite Hs, length_app in Hf, Hc.
  destruct (put_ok calls w out (ahead inp1) Hwo) as (r & w1 & out1 & -> & Hwo1 & Hao1 & Hp1 & Hor);
    [lia|]. cbn [mbind option_bind]. rewrite Hs.
  destruct Hor as [(-> & Hwf & He)|(-> & Hwf & Hpre)].
  - change (0 =? -1) with false. cbv iota.
    destruct (IH w1 v1 out1 (buf_seek inp1 (Z.of_nat (length (ahead inp1)))) Hwo1 Hw2)
      as (r & w2 & v2 & out2 & inp2 & -> & Hor); [lia|lia|rewrite Hao1; lia|].
    exists r, w2, v2, out2, inp2. split; [done|]. unfold copied in Hor. rewrite He, <- app_assoc, Hwf, Hfl in Hor. exact Hor.
  - change (-1 =? -1) with true. cbv iota. exists (-3), w1, v1, out1, inp1. split; [done|].
    right. right. split; [done|]. split; [done|]. rewrite app_assoc. by apply prefix_more.
Qed.
End copy_laws.

(** * Theorems *)

(** A device for the witnesses: the sizes of the next transfers, 0 for an
    interruption and -1 for an error; behind them everything is transferred. *)
Record device : Type := Device { replies : list Z; content : list Z; stopped : bool }.

(** Counts up by one with every error that is behind. *)
Fixpoint errors_to_come (rs : list Z) : Z :=
  match rs with [] => 0 | r :: rs => errors_to_come rs - (if r <? 0 then 1 else 0) end.

#[export] Instance device_errno : Errno device :=
  {| eintr := stopped; clear_errno := fun d => Device (replies d) (content d) false |}.

#[export] Instance device_writer : Writer device := {| op_write := fun d buf =>
  match replies d with
  | [] => (Z.of_nat (length buf), Device [] (content d ++ buf) (stopped d))
  | r :: rs =>
      if r <=? 0 then (-1, Device rs (content d) (r =? 0))
      else (Z.of_nat (Nat.min (Z.to_nat r) (length buf)),
            Device rs (content d ++ take (Z.to_nat r) buf) (stopped d))
  end |}.

#[export] Instance device_reader : Reader device := {| op_read := fun d len =>
  let give (k : nat) (rs : list Z) :=
    let l := take k (content d) in
    (Z.of_nat (length l), l, Device rs (drop k (content d)) (stopped d)) in
  match replies d with
  | [] => give (Z.to_nat len) []
  | r :: rs =>
      if r <=? 0 then (-1, [], Device rs (content d) (r =? 0))
      else give (Nat.min (Z.to_nat r) (Z.to_nat len)) rs
  end |}.

#[export] Instance device_writer_laws : WriterLaws device.
Proof.
  refine {| sent := content; patience := fun d => length (replies d);
    write_faults := fun d => errors_to_come (replies d) |}; [|done].
  intros [rs c st] w' buf r. cbn. destruct rs as [|x rs].
  - intros [= <- <-] Hne. cbn. split; [lia|]. destruct buf; [done|].
    zcase1; [cbn in *; lia|]. rewrite Nat2Z.id, firstn_all. split; [lia|done].
  - destruct (Z.leb_spec x 0); intros [= <- <-] Hne; cbn [patience length replies content].
    + cbn. split; [lia|]. split; [done|]. destruct (Z.eqb_spec x 0); [split; [lia|]; by zfalse (x <? 0); lia|]. ztrue (x <? 0). lia.
    + split; [cbn; lia|]. destruct buf; [done|].
      zcase1; [cbn in *; lia|]. split; [lia|].
      cbn [content replies errors_to_come]. zfalse (x <? 0). split; [|lia]. rewrite Nat2Z.id. f_equal.
      rewrite <- (firstn_all (z :: buf)) at 1. rewrite take_take. done.
Defined.

#[export] Instance device_reader_laws : ReaderLaws device.
Proof.
  refine {| stream := content; tries := fun d => length (replies d);
    read_faults := fun d => errors_to_come (replies d) |}.
  intros [rs c st] w' len r l. cbn. destruct rs as [|x rs].
  - intros [= <- <- <-] Hl. cbn. split; [lia|].
    zcase1; [lia|]. rewrite length_take.
    split; [done|]. split; [lia|]. rewrite take_drop. split; [done|]. split; [|done].
    destruct c; [done|]. destruct (Z.to_nat len) eqn:E; [lia|done].
  - destruct (Z.leb_spec x 0); intros [= <- <- <-] Hl; cbn [tries replies content length].
    + cbn. split; [lia|]. split; [done|]. destruct (Z.eqb_spec x 0); [split; [lia|]; zfalse (x <? 0); lia|]. ztrue (x <? 0). lia.
    + split; [cbn; lia|].
      set (k := Nat.min (Z.to_nat x) (Z.to_nat len)).
      zcase1; [lia|]. cbn [content]. rewrite length_take.
      split; [done|]. split; [lia|]. rewrite take_drop. split; [done|]. cbn [replies errors_to_come]. zfalse (x <? 0).
      split; [|lia]. destruct c; [done|]. destruct k eqn:E; [lia|done].
Defined.


Definition out_script : list out_op :=
  [Put (lit "total"); Putc ":"%C; Putnum 42 5; Putalign (lit " items"); Puts (lit " (all)")].






(** A line that ends where the bytes read so far end is not recognised:
    [byte_ccopy] then gives the number of bytes it was asked for, as it does
    when it has not met the newline, and [buffer_getline] goes on into the next
    line. *)
Theorem buffer_getline_merges :
  exists w' b', buffer_getline 40 (Device [3; 3] (lit "ab" ++ [10] ++ lit "cd" ++ [10]) false)
    (buffer_init (replicate 8 0) 8) 80 =
  Some (6, lit "ab" ++ [10] ++ lit "cd" ++ [10], w', b').
Proof. eexists _, _. by vm_compute. Qed.

(** The vectored write of [buffer_putflush]: when the system takes all that was
    pending and part of the new bytes, the position is not reset, and the next
    flush delivers the pending bytes again. *)
Theorem buffer_putflush_resends :
  let writev := fun (d : device) (v0 v1 : list Z) => op_write d (v0 ++ v1) in
  let b := Buffer (lit "xyz" ++ [0]) 3 0 4 in
  exists w' b', buffer_putflush 40 (Some writev) (Device [4] [] false) b (lit "AB") =
      Some (0, w', b') /\ content w' = lit "xyzAB" /\
    exists w'' b'', buffer_flush 40 w' b' = Some (0, w'', b'') /\ content w'' = lit "xyzABxyz".
Proof. eexists _, _. split; [by vm_compute|]. split; [done|]. eexists _, _. by vm_compute. Qed.
