(* ===== verification/Strlist.v ===== *)
(** String lists: [lib/strlist/].  A list is a growing string (Stralloc.v) that
    holds the items with a separator between them; nothing but the separator
    tells where an item ends, so an operation that leaves one at the end of the
    text leaves the list in a state the others see.  Results that are pointers
    into the list are offsets.  [None] is undefined behaviour, or a loop that
    runs on. *)
From Stdlib Require Import Sorting.Sorted.
From stdpp Require Import gmultiset.
From S2P Require Import Prelude ByteOps StrOps Memory Stralloc Buffer.

(** * Data *)

Record strlist : Type := SL { sl_sa : stralloc; sl_sep : Z }.

Definition strlist_init (s : Z) : strlist := SL stralloc_init s.
Definition strlist_zero (l : strlist) : strlist := SL (stralloc_zero (sl_sa l)) (sl_sep l).

Definition strlist_free (m : mem) (l : strlist) : option (mem * strlist) :=
  '(m, sa) ← stralloc_free m (sl_sa l); Some (m, SL sa (sl_sep l)).

Definition strlist_copy (m : mem) (d s : strlist) : option (bool * mem * strlist) :=
  '(ok, m, sa) ← stralloc_copy m (sl_sa d) (sl_sa s); Some (ok, m, SL sa (sl_sep s)).

(** The length used, as a count, and the text from the start on. *)
Definition sl_len (l : strlist) : nat := Z.to_nat (sa_len (sl_sa l)).
Definition sl_view (m : mem) (l : strlist) : option (list Z) := sa_view m (sl_sa l).

(** An operation on the string of the list; most callers do not look at the
    result. *)
Definition on_sa {A : Type} (l : strlist) (r : option (A * mem * stralloc))
    : option (A * mem * strlist) :=
  '(x, m, sa) ← r; Some (x, m, SL sa (sl_sep l)).

(** * Walking *)

(** [byte_chr(&s[p], len - p, sep)] *)
Definition item_len (x : list Z) (len : nat) (sep : Z) (p : nat) : option nat :=
  byte_chr (drop p x) (len - p) sep.

Definition strlist_len (m : mem) (l : strlist) (p : nat) : option nat :=
  x ← sl_view m l; item_len x (sl_len l) (sl_sep l) p.

Definition strlist_skip (m : mem) (l : strlist) (p : nat) : option nat :=
  x ← sl_view m l;
  n ← item_len x (sl_len l) (sl_sep l) p;
  if (p + n <? sl_len l)%nat then
    c ← load x (p + n); Some (if c =? sl_sep l then S n else n)
  else Some n.

Definition strlist_next (m : mem) (l : strlist) (p : nat) : option nat :=
  k ← strlist_skip m l p; Some (p + k)%nat.

Definition strlist_next_b (m : mem) (l : strlist) (p : nat) : option (option (nat * nat)) :=
  x ← sl_view m l;
  n ← item_len x (sl_len l) (sl_sep l) p;
  let p := (p + n)%nat in
  if (p <? sl_len l)%nat then
    c ← load x p;
    if (c =? sl_sep l) && (S p <? sl_len l)%nat then
      n ← item_len x (sl_len l) (sl_sep l) (S p); Some (Some (S p, n))
    else Some None
  else Some None.

(** The macro [strlist_foreach]: it ends at an item without characters. *)
Fixpoint foreach_loop {V : Type} (l : strlist) (f : nat -> nat -> mem -> V -> option (mem * V))
    (p fuel : nat) (m : mem) (v : V) : option (mem * V) :=
  match fuel with
  | O => None
  | S fuel =>
      if (p <? sl_len l)%nat then
        x ← sl_view m l;
        n ← item_len x (sl_len l) (sl_sep l) p;
        if (n =? 0)%nat then Some (m, v) else
        '(m, v) ← f p n m v;
        foreach_loop l f (p + n + 1) fuel m v
      else Some (m, v)
  end.

Definition strlist_foreach {V : Type} (l : strlist) (f : nat -> nat -> mem -> V -> option (mem * V))
    (m : mem) (v : V) : option (mem * V) := foreach_loop l f 0 (S (sl_len l)) m v.

(** The item at [p], as a pointer. *)
Definition item_ptr (l : strlist) (p : nat) : ptr :=
  match sa_s (sl_sa l) with Some b => Blk b p | None => Const [] end.

(** * Looking up *)

Fixpoint at_loop (x : list Z) (sep : Z) (i l p left_ : nat) : option (option nat) :=
  match left_ with
  | O => Some None
  | S left_ =>
      if (l =? i)%nat then Some (Some p) else
      c ← load x p; at_loop x sep i (if c =? sep then S l else l) (S p) left_
  end.

(** The character behind the text is looked at, too. *)
Definition strlist_at (m : mem) (l : strlist) (i : nat) : option (option nat) :=
  match sa_s (sl_sa l) with
  | None => Some None
  | Some _ => x ← sl_view m l; at_loop x (sl_sep l) i 0 0 (S (sl_len l))
  end.

Definition strlist_at_n (m : mem) (l : strlist) (i : nat) : option (option nat * nat) :=
  x ← sl_view m l;
  p ← at_loop x (sl_sep l) i 0 0 (sl_len l);
  match p with
  | Some p => n ← item_len x (sl_len l) (sl_sep l) p; Some (Some p, n)
  | None => Some (None, O)
  end.

(** A [stralloc] whose characters are in the list; without one it is empty. *)
Definition strlist_at_sa (m : mem) (l : strlist) (i : nat) : option (option nat * nat) :=
  strlist_at_n m l i.

(** [strlist_at(sl, i) - sl->sa.s] *)
Definition at_offset (m : mem) (l : strlist) (i : nat) : option nat :=
  p ← strlist_at m l i; p.

Definition strlist_range (m : mem) (l : strlist) (from to : nat) : option (nat * Z) :=
  s ← at_offset m l from; e ← at_offset m l to; Some (s, u64 (Z.of_nat e - Z.of_nat s)).

Definition strlist_copyat (m : mem) (l : strlist) (i : nat) (out : stralloc)
    : option (Z * mem * stralloc) :=
  match sa_s (sl_sa l) with
  | None => Some (0, m, out)
  | Some b =>
      pos ← at_offset m l i;
      x ← sl_view m l;
      len ← item_len x (sl_len l) (sl_sep l) pos;
      if (0 <? len)%nat && (pos + len <=? sl_len l)%nat then
        '(_, m, out) ← stralloc_copyb m out (Blk b pos) (Z.of_nat len); Some (1, m, out)
      else Some (0, m, out)
  end.

Fixpoint count_loop (x : list Z) (n : nat) (sep l : Z) (fuel : nat) : option Z :=
  match fuel with
  | O => None
  | S fuel =>
      if (n =? 0)%nat then Some l else
      p ← byte_chr x n sep;
      if (p =? n)%nat then Some l else
      c ← load x p;
      let q := if c =? sep then S p else p in
      if (c =? sep) && (q =? n)%nat then Some l
      else count_loop (drop q x) (n - q) sep (l + 1) fuel
  end.

Definition strlist_count (m : mem) (l : strlist) : option Z :=
  if sa_len (sl_sa l) =? 0 then Some 0 else
  x ← sl_view m l; count_loop x (sl_len l) (sl_sep l) 1 (S (sl_len l)).

Fixpoint contains_loop (x : list Z) (len : nat) (sep : Z) (what : list Z) (wlen i fuel : nat)
    : option bool :=
  match fuel with
  | O => None
  | S fuel =>
      if (i <? len)%nat then
        n ← item_len x len sep i;
        same ← (if (n =? wlen)%nat then byte_equal (drop i x) wlen what else Some false);
        if (same : bool) then Some true
        else contains_loop x len sep what wlen (i + n + 1) fuel
      else Some false
  end.

Definition strlist_containsb (m : mem) (l : strlist) (x : list Z) (len : nat) : option bool :=
  v ← sl_view m l; contains_loop v (sl_len l) (sl_sep l) x len 0 (S (sl_len l)).

Definition strlist_contains (m : mem) (l : strlist) (s : list Z) : option bool :=
  n ← str_len s; strlist_containsb m l s n.

Definition strlist_contains_sa (m : mem) (l : strlist) (sa : stralloc) : option bool :=
  s ← sa_view m sa; strlist_containsb m l s (Z.to_nat (sa_len sa)).

(** The offset of the item, -1 when there is none. *)
Fixpoint index_loop (x : list Z) (len : nat) (sep : Z) (what : list Z) (wlen p fuel : nat)
    : option Z :=
  match fuel with
  | O => None
  | S fuel =>
      if (p <? len)%nat then
        n ← item_len x len sep p;
        if (n =? 0)%nat && (p + 1 =? len)%nat then Some (-1) else
        same ← (if (wlen =? n)%nat then byte_equal (drop p x) n what else Some false);
        if (same : bool) then Some (Z.of_nat p)
        else index_loop x len sep what wlen (p + n + 1) fuel
      else Some (-1)
  end.

Definition strlist_indexofb (m : mem) (l : strlist) (x : list Z) (n : nat) : option Z :=
  v ← sl_view m l; index_loop v (sl_len l) (sl_sep l) x n 0 (S (sl_len l)).

Definition strlist_index_of (m : mem) (l : strlist) (s : list Z) : option Z :=
  n ← str_len s; strlist_indexofb m l s n.

(** The search always starts at the beginning of the text. *)
Fixpoint pos_loop (x : list Z) (sep : Z) (index count pos n fuel : nat) : option Z :=
  match fuel with
  | O => None
  | S fuel =>
      if (n =? 0)%nat then Some (-1) else
      if (index =? count)%nat then Some (Z.of_nat pos) else
      i ← byte_chr x n sep;
      let i := if (i <? n)%nat then S i else i in
      pos_loop x sep index (S count) (pos + i) (n - i) fuel
  end.

Definition strlist_pos (m : mem) (l : strlist) (index : nat) : option Z :=
  x ← sl_view m l; pos_loop x (sl_sep l) index 0 0 (sl_len l) (S (sl_len l)).

(** * Adding *)

(** [sl->sa.len && sl->sa.s[sl->sa.len - 1] != sl->sep] *)
Definition ends_open (m : mem) (l : strlist) : option bool :=
  if sa_len (sl_sa l) =? 0 then Some false else
  x ← sl_view m l; c ← load x (sl_len l - 1); Some (negb (c =? sl_sep l)).

Definition separate (m : mem) (l : strlist) (open : bool) : option (mem * strlist) :=
  if open then '(_, m, l) ← on_sa l (stralloc_catc m (sl_sa l) (sl_sep l)); Some (m, l)
  else Some (m, l).

Definition strlist_pushb (m : mem) (l : strlist) (s : ptr) (n : Z) : option (Z * mem * strlist) :=
  '(m, l) ← separate m l (negb (sa_len (sl_sa l) =? 0));
  if n =? 0 then Some (1, m, l) else
  '(_, m, l) ← on_sa l (stralloc_catb m (sl_sa l) s n); Some (1, m, l).

(** [None] is the null pointer. *)
Definition strlist_push (m : mem) (l : strlist) (s : option ptr) : option (Z * mem * strlist) :=
  open ← ends_open m l;
  '(m, l) ← separate m l open;
  match s with
  | None => Some (1, m, l)
  | Some s =>
      x ← view m s;
      c ← load x 0;
      if c =? 0 then Some (1, m, l) else
      '(_, m, l) ← on_sa l (stralloc_cats m (sl_sa l) s); Some (1, m, l)
  end.

Definition strlist_push_sa (m : mem) (l : strlist) (sa : stralloc) : option (Z * mem * strlist) :=
  open ← ends_open m l;
  '(m, l) ← separate m l open;
  if sa_len sa =? 0 then Some (0, m, l) else
  '(_, m, l) ← on_sa l (stralloc_cat m (sl_sa l) sa); Some (1, m, l).

Definition strlist_pushb_unique (m : mem) (l : strlist) (s : ptr) (n : nat)
    : option (Z * mem * strlist) :=
  x ← view m s;
  i ← strlist_indexofb m l x n;
  if negb (i =? -1) then Some (0, m, l) else
  '(_, m, l) ← strlist_pushb m l s (Z.of_nat n); Some (1, m, l).

Definition strlist_push_unique (m : mem) (l : strlist) (s : ptr) : option (Z * mem * strlist) :=
  x ← view m s;
  i ← strlist_index_of m l x;
  if negb (i =? -1) then Some (0, m, l) else
  '(_, m, l) ← strlist_push m l (Some s); Some (1, m, l).

Definition strlist_push_unique_sa (m : mem) (l : strlist) (sa : stralloc)
    : option (Z * mem * strlist) :=
  strlist_pushb_unique m l (sa_ptr sa) (Z.to_nat (sa_len sa)).

(** The arguments before the null pointer. *)
Fixpoint strlist_pushm_internal (m : mem) (l : strlist) (a : list ptr)
    : option (Z * mem * strlist) :=
  match a with
  | [] => Some (1, m, l)
  | s :: a =>
      '(r, m, l) ← strlist_push m l (Some s);
      if r =? 0 then Some (0, m, l) else strlist_pushm_internal m l a
  end.

Fixpoint strlist_fromv (m : mem) (l : strlist) (v : list (option ptr)) : option (mem * strlist) :=
  match v with
  | [] => Some (m, l)
  | s :: v => '(_, m, l) ← strlist_push m l s; strlist_fromv m l v
  end.

(** The byte behind the appended string is copied as well. *)
Definition strlist_append_sa (m : mem) (l : strlist) (sa : stralloc) : option (Z * mem * strlist) :=
  '(ok, m, l) ← on_sa l (stralloc_readyplus m (sl_sa l) (u64 (sa_len sa + 2)));
  if (ok : bool) then
    b ← sa_s (sl_sa l);
    m ← mcopy m b (sl_len l) (u64 (sa_len sa + 1)) (sa_ptr sa);
    let len := u64 (sa_len (sl_sa l) + sa_len sa + 1) in
    m ← mstore m b (Z.to_nat len) 0;
    Some (1, m, SL (SA (sa_s (sl_sa l)) len (sa_a (sl_sa l))) (sl_sep l))
  else Some (0, m, l).

Definition prepend_item (m : mem) (sa : stralloc) (sep : Z) (s : ptr) (n : nat) : result :=
  '(ok, m, sa) ← stralloc_readyplus m sa (u64 (Z.of_nat n + 2));
  if (ok : bool) then
    b ← sa_s sa;
    m ← mcopyr m b (n + 1) (sa_len sa) (Blk b 0);
    m ← mcopy m b 0 (Z.of_nat n) s;
    m ← mstore m b n sep;
    Some (true, m, SA (sa_s sa) (u64 (sa_len sa + Z.of_nat n + 1)) (sa_a sa))
  else Some (false, m, sa).

Definition strlist_prependb (m : mem) (l : strlist) (s : ptr) (n : nat)
    : option (Z * mem * strlist) :=
  '(ok, m, l) ← on_sa l (prepend_item m (sl_sa l) (sl_sep l) s n);
  Some (if (ok : bool) then 1 else 0, m, l).

Definition strlist_prepends (m : mem) (l : strlist) (s : ptr) : option (Z * mem * strlist) :=
  n ← ptr_len m s; strlist_prependb m l s (Z.to_nat n).

Definition strlist_prepend_sa (m : mem) (l : strlist) (sa : stralloc) : option (Z * mem * strlist) :=
  strlist_prependb m l (sa_ptr sa) (Z.to_nat (sa_len sa)).

(** The terminator is inserted with the characters and overwritten. *)
Definition strlist_unshift (m : mem) (l : strlist) (s : ptr) : option (Z * mem * strlist) :=
  n ← ptr_len m s;
  '(_, m, l) ← on_sa l (stralloc_insertb m (sl_sa l) s 0 (n + 1));
  b ← sa_s (sl_sa l);
  m ← mstore m b (Z.to_nat n) (sl_sep l);
  Some (1, m, l).

(** The result of [malloc] is not looked at. *)
Definition strlist_unshiftb (m : mem) (l : strlist) (x : ptr) (len : nat)
    : option (Z * mem * strlist) :=
  let '(tmp, m) := malloc m (Z.of_nat len + 1) in
  t ← tmp;
  m ← mcopy m t 0 (Z.of_nat len) x;
  m ← mstore m t len (sl_sep l);
  '(_, m, l) ← on_sa l (stralloc_insertb m (sl_sa l) (Blk t 0) 0 (Z.of_nat len + 1));
  m ← free m tmp;
  Some (1, m, l).

(** [for(; i < len; ++i) if(s[i] == from) s[i] = to] *)
Fixpoint resep_loop (x : list Z) (from to : Z) (i n : nat) : option (list Z) :=
  match n with
  | O => Some x
  | S n =>
      c ← load x i;
      x ← (if c =? from then store x i to else Some x);
      resep_loop x from to (S i) n
  end.

Definition resep (m : mem) (l : strlist) (from : Z) (i : nat) : option mem :=
  if (i <? sl_len l)%nat then
    b ← sa_s (sl_sa l); on_block m b (fun x => resep_loop x from (sl_sep l) i (sl_len l - i))
  else Some m.

Definition strlist_cat (m : mem) (l o : strlist) : option (Z * mem * strlist) :=
  let n := sl_len l in
  open ← ends_open m l;
  '(m, l) ← separate m l open;
  '(_, m, l) ← on_sa l (stralloc_catb m (sl_sa l) (sa_ptr (sl_sa o)) (sa_len (sl_sa o)));
  m ← resep m l (sl_sep o) n;
  Some (1, m, l).

Definition strlist_froms (m : mem) (l : strlist) (s : option ptr) (delim : Z)
    : option (mem * strlist) :=
  match s with
  | None => Some (m, l)
  | Some s =>
      '(m, l) ← separate m l (negb (sa_len (sl_sa l) =? 0));
      '(_, m, l) ← on_sa l (stralloc_cats m (sl_sa l) s);
      m ← resep m l delim 0;
      open ← ends_open m l;
      separate m l open
  end.

Fixpoint fromb_loop (m : mem) (l : strlist) (x : list Z) (n : nat) (delim : list Z) (len fuel : nat)
    : option (mem * strlist) :=
  match fuel with
  | O => None
  | S fuel =>
      if (n =? 0)%nat then Some (m, l) else
      i ← byte_findb x n delim len;
      '(_, m, l) ← strlist_pushb m l (Const x) (Z.of_nat i);
      if (n <? i + len)%nat then Some (m, l)
      else fromb_loop m l (drop (i + len) x) (n - (i + len)) delim len fuel
  end.

(** A delimiter without characters is never behind an item. *)
Definition strlist_fromb (m : mem) (l : strlist) (x : option (list Z)) (n : nat) (delim : list Z)
    : option (mem * strlist) :=
  len ← str_len delim;
  match x with None => Some (m, l) | Some x => fromb_loop m l x n delim len (S n) end.

Fixpoint tokens_loop (m : mem) (l : strlist) (s delim : list Z) (len fuel : nat)
    : option (mem * strlist) :=
  match fuel with
  | O => None
  | S fuel =>
      c ← load s 0;
      if c =? 0 then Some (m, l) else
      n ← str_find s delim;
      '(_, m, l) ← strlist_pushb m l (Const s) (Z.of_nat n);
      tokens_loop m l (drop (n + len) s) delim len fuel
  end.

(** The delimiter is passed even when it was not found. *)
Definition strlist_push_tokens (m : mem) (l : strlist) (s delim : list Z) : option (mem * strlist) :=
  len ← str_len delim; tokens_loop m l s delim len (S (length s)).

(** * Removing *)

Fixpoint pop_loop (x : list Z) (sep : Z) (n : nat) : option (option nat) :=
  match n with
  | O => Some None
  | S n => c ← load x n; if c =? sep then Some (Some n) else pop_loop x sep n
  end.

(** Without a separator the character in front of the text is looked at. *)
Definition strlist_pop (m : mem) (l : strlist) : option (Z * strlist) :=
  x ← sl_view m l;
  i ← pop_loop x (sl_sep l) (sl_len l);
  i ← i;
  Some (1, SL (SA (sa_s (sl_sa l)) (Z.of_nat i) (sa_a (sl_sa l))) (sl_sep l)).

(** The block the item is copied to. *)
Definition str_ndup (m : mem) (s : ptr) (n : nat) : option (option nat * mem) :=
  let '(r, m) := malloc m (Z.of_nat n + 1) in
  match r with
  | None => Some (None, m)
  | Some b => m ← mcopy m b 0 (Z.of_nat n) s; m ← mstore m b n 0; Some (r, m)
  end.

Definition strlist_shift (m : mem) (l : strlist) : option (Z * option nat * mem * strlist) :=
  if sa_len (sl_sa l) =? 0 then Some (0, None, m, l) else
  offs ← at_offset m l 1;
  b ← sa_s (sl_sa l);
  if (offs =? 0)%nat then None else
  m ← mstore m b (offs - 1) 0;
  '(str, m) ← str_ndup m (Blk b 0) (offs - 1);
  let n := u64 (sa_len (sl_sa l) - Z.of_nat offs) in
  m ← mcopy m b 0 n (Blk b offs);
  Some (1, str, m, SL (SA (sa_s (sl_sa l)) n (sa_a (sl_sa l))) (sl_sep l)).

Definition strlist_shift_n (m : mem) (l : strlist) (i : nat) : option (Z * mem * strlist) :=
  n ← at_offset m l i;
  if (n <? sl_len l)%nat then
    b ← sa_s (sl_sa l);
    let left_ := Z.of_nat (sl_len l - n) in
    m ← mcopy m b 0 left_ (Blk b n);
    '(_, m, l) ← on_sa l (stralloc_shrink m (SA (sa_s (sl_sa l)) left_ (sa_a (sl_sa l))));
    Some (1, m, l)
  else Some (0, m, l).

Definition strlist_removeb (m : mem) (l : strlist) (x : list Z) (n : nat)
    : option (Z * mem * strlist) :=
  i ← strlist_indexofb m l x n;
  if i =? -1 then Some (0, m, l) else
  let i := Z.to_nat i in
  v ← sl_view m l;
  n ← (if (i + n <? sl_len l)%nat then
         c ← load v (i + n); Some (if c =? sl_sep l then S n else n)
       else Some n);
  '(_, m, l) ← on_sa l (stralloc_remove m (sl_sa l) (Z.of_nat i) (Z.of_nat n));
  Some (1, m, l).

Definition strlist_removes (m : mem) (l : strlist) (s : list Z) : option (Z * mem * strlist) :=
  n ← str_len s; strlist_removeb m l s n.

(** [n] is the number of the item, and then the number of characters. *)
Definition strlist_remove_at (m : mem) (l : strlist) (n : nat) : option (Z * mem * strlist) :=
  x ← strlist_at m l n;
  match x with
  | None => Some (0, m, l)
  | Some i =>
      v ← sl_view m l;
      '(i, n) ←
        (if (i + n <? sl_len l)%nat then
           c ← load v (i + n); Some (if c =? sl_sep l then (i, S n) else (i, n))
         else if (0 <? i)%nat then
           c ← load v (i - 1); Some (if c =? sl_sep l then ((i - 1)%nat, S n) else (i, n))
         else Some (i, n));
      '(_, m, l) ← on_sa l (stralloc_remove m (sl_sa l) (Z.of_nat i) (Z.of_nat n));
      Some (1, m, l)
  end.

Definition strlist_trunc (m : mem) (l : strlist) (items : nat) : option (Z * mem * strlist) :=
  match items with
  | O => '(_, m, l) ← on_sa l (stralloc_trunc m (sl_sa l) 0); Some (0, m, l)
  | S i =>
      '(p, n) ← strlist_at_n m l i;
      match p with
      | Some p =>
          '(_, m, l) ← on_sa l (stralloc_trunc m (sl_sa l) (Z.of_nat (n + p)));
          Some (Z.of_nat items, m, l)
      | None => Some (0, m, l)
      end
  end.

Fixpoint splice_loop (x : list Z) (sep : Z) (p end_ : nat) (ndelete : Z) (fuel : nat)
    : option nat :=
  match fuel with
  | O => None
  | S fuel =>
      if (p <? end_)%nat && negb (ndelete =? 0) then
        i ← byte_chr (drop p x) (end_ - p) sep;
        let i := if (p + i <? end_)%nat then S i else i in
        splice_loop x sep (p + i) end_ (u64 (ndelete - 1)) fuel
      else Some p
  end.

(** Without an item at [pos] the start is -1, which as a [size_t] is behind the
    text. *)
Definition strlist_splice (m : mem) (l : strlist) (pos : nat) (ndelete : Z) (s : ptr) (len : Z)
    : option (bool * mem * strlist) :=
  start ← strlist_pos m l pos;
  x ← sl_view m l;
  p ← (if start <? 0 then Some start
       else Z.of_nat <$> splice_loop x (sl_sep l) (Z.to_nat start) (sl_len l) ndelete (S (sl_len l)));
  on_sa l (stralloc_replace m (sl_sa l) (u64 start) (p - start) s len).

(** * Lists together *)

Definition strlist_cat_unique (m : mem) (l o : strlist) : option (Z * mem * strlist) :=
  '(m, (l, ret)) ← strlist_foreach o (fun p n m '(l, ret) =>
    x ← view m (item_ptr o p);
    has ← strlist_containsb m l x n;
    if (has : bool) then Some (m, (l, ret)) else
    '(_, m, l) ← strlist_pushb m l (item_ptr o p) (Z.of_nat n);
    Some (m, (l, ret + 1))) m (l, 0);
  Some (ret, m, l).

Definition strlist_diff (m : mem) (a b out : strlist) : option (Z * mem * strlist) :=
  '(m, (out, count)) ← strlist_foreach a (fun p n m '(out, count) =>
    x ← view m (item_ptr a p);
    has ← strlist_containsb m b x n;
    if (has : bool) then Some (m, (out, count)) else
    '(_, m, out) ← strlist_pushb m out (item_ptr a p) (Z.of_nat n);
    Some (m, (out, count + 1))) m (strlist_zero out, 0);
  Some (count, m, out).

(** [filter_fn] is given the characters and their number. *)
Definition strlist_filter (m : mem) (l : strlist) (filter_fn : list Z -> nat -> bool)
    (out : strlist) : option (Z * mem * strlist) :=
  '(m, (out, c)) ← strlist_foreach l (fun p n m '(out, c) =>
    x ← view m (item_ptr l p);
    if filter_fn x n then
      '(_, m, out) ← strlist_pushb m out (item_ptr l p) (Z.of_nat n);
      Some (m, (out, c + 1))
    else Some (m, (out, c))) m (out, 0);
  Some (c, m, out).

Definition strlist_remove_all (m : mem) (l remove : strlist) : option (Z * mem * strlist) :=
  '(m, (l, count)) ← strlist_foreach remove (fun p n m '(l, count) =>
    x ← view m (item_ptr remove p);
    has ← strlist_containsb m l x n;
    if (has : bool) then
      '(_, m, l) ← strlist_removeb m l x n; Some (m, (l, count + 1))
    else Some (m, (l, count))) m (l, 0);
  Some (count, m, l).

Definition strlist_sub (m : mem) (l o : strlist) : option (Z * mem * strlist) :=
  '(m, (l, r)) ← strlist_foreach o (fun p n m '(l, r) =>
    x ← view m (item_ptr o p);
    '(gone, m, l) ← strlist_removeb m l x n;
    Some (m, (l, if gone =? 0 then r else r + 1))) m (l, 0);
  Some (r, m, l).

Definition strlist_join (m : mem) (l : strlist) (sa : stralloc) (delim : Z)
    : option (mem * stralloc) :=
  '(m, (sa, _)) ← strlist_foreach l (fun p n m '(sa, i) =>
    '(_, m, sa) ← (if (0 <? i)%nat then stralloc_catc m sa delim else Some (true, m, sa));
    '(_, m, sa) ← stralloc_catb m sa (item_ptr l p) (Z.of_nat n);
    Some (m, (sa, S i))) m (sa, O);
  Some (m, sa).

Fixpoint joins_loop (m : mem) (l : strlist) (sa : stralloc) (delim : list Z) (i fuel : nat)
    : option (mem * stralloc) :=
  match fuel with
  | O => None
  | S fuel =>
      if (i <? sl_len l)%nat then
        x ← sl_view m l;
        n ← item_len x (sl_len l) (sl_sep l) i;
        '(_, m, sa) ← (if (0 <? i)%nat then stralloc_cats m sa (Const delim) else Some (true, m, sa));
        '(_, m, sa) ← stralloc_catb m sa (item_ptr l i) (Z.of_nat n);
        joins_loop m l sa delim (i + n + 1) fuel
      else Some (m, sa)
  end.

Definition strlist_joins (m : mem) (l : strlist) (sa : stralloc) (delim : list Z)
    : option (mem * stralloc) := joins_loop m l sa delim 0 (S (sl_len l)).

(** The array of pointers and the characters they lead to are one block: what
    comes back are the offsets of the strings in the characters.  [area] is
    what the block holds at first. *)
Definition strlist_to_argv (area : nat -> list Z) (m : mem) (l : strlist)
    : option (list nat * list Z) :=
  n ← strlist_count m l;
  '(_, (v, chars, _)) ← strlist_foreach l (fun p k m '(v, chars, at_) =>
    x ← view m (item_ptr l p);
    chars ← byte_copy chars at_ k (There x);
    chars ← store chars (at_ + k) 0;
    if Z.of_nat (length v) <? n then Some (m, (v ++ [at_], chars, (at_ + k + 1)%nat)) else None)
    m ([], area (S (sl_len l)), O);
  Some (v, chars).

(** * Sorting *)

Section qsort.
Context {A : Type} (cmp : A -> A -> option Z).

(** [qsort] of the C library puts equal elements in any order; this one keeps
    theirs. *)
Fixpoint place (x : A) (l : list A) : option (list A) :=
  match l with
  | [] => Some [x]
  | y :: l' => c ← cmp x y; if c <=? 0 then Some (x :: l) else l' ← place x l'; Some (y :: l')
  end.

Fixpoint qsort (l : list A) : option (list A) :=
  match l with
  | [] => Some []
  | x :: l => l ← qsort l; place x l
  end.
End qsort.

(** The separators are overwritten with terminators; the last terminator is
    behind the text. *)
Fixpoint cut_loop (x : list Z) (len : nat) (sep : Z) (p : nat) (ptrs : list nat) (fuel : nat)
    : option (list Z * list nat) :=
  match fuel with
  | O => None
  | S fuel =>
      if (p <? len)%nat then
        n ← item_len x len sep p;
        x ← store x (p + n) 0;
        cut_loop x len sep (p + n + 1) (ptrs ++ [p]) fuel
      else Some (x, ptrs)
  end.

Fixpoint push_ptrs (m : mem) (l : strlist) (b : nat) (ptrs : list nat) : option (mem * strlist) :=
  match ptrs with
  | [] => Some (m, l)
  | p :: ptrs => '(_, m, l) ← strlist_push m l (Some (Blk b p)); push_ptrs m l b ptrs
  end.

(** The comparison that is given is not used.  [ptrs] must have room for as many
    items as are counted. *)
Definition strlist_sort (m : mem) (l : strlist) : option (Z * mem * strlist) :=
  '(_, m, l) ← on_sa l (stralloc_readyplus m (sl_sa l) 1);
  p ← strlist_count m l;
  if p <=? 1 then Some (p, m, l) else
  let '(ptrs, m) := malloc m (8 * p) in
  _ ← ptrs;
  tmp ← sa_s (sl_sa l);
  x ← blocks m !! tmp;
  '(x, ps) ← cut_loop x (sl_len l) (sl_sep l) 0 [] (S (sl_len l));
  if p <? Z.of_nat (length ps) then None else
  let m := put m tmp x in
  ps ← qsort (fun p q => str_diff (drop p x) (drop q x)) ps;
  '(m, l) ← push_ptrs m (SL stralloc_init (sl_sep l)) tmp ps;
  m ← free m (Some tmp);
  m ← free m ptrs;
  Some (Z.of_nat (length ps), m, l).

(** * Printing *)

Section output.
Context {W : Type} `{!Errno W, !Writer W} (calls : nat).

(** [do { ... } while(x < end)]: [f] writes what is in front of and behind the
    item with the number [i]. *)
Fixpoint print_loop (x : list Z) (n : nat) (sep : Z) (before after : nat -> W -> buffer -> option (W * buffer))
    (i fuel : nat) (w : W) (b : buffer) : option (W * buffer) :=
  match fuel with
  | O => None
  | S fuel =>
      p ← byte_chr x n sep;
      '(w, b) ← before i w b;
      '(_, w, b) ← buffer_put calls w b (take p x);
      '(w, b) ← after i w b;
      q ← (if (p <? n)%nat then c ← load x p; Some (if c =? sep then S p else p) else Some p);
      if (q <? n)%nat then print_loop (drop q x) (n - q) sep before after (S i) fuel w b
      else Some (w, b)
  end.

Definition no_output (i : nat) (w : W) (b : buffer) : option (W * buffer) := Some (w, b).

Definition buffer_putsl (m : mem) (w : W) (b : buffer) (l : strlist) (separator : list Z)
    : option (W * buffer) :=
  x ← sl_view m l;
  print_loop x (sl_len l) (sl_sep l) (fun i w b =>
    if (i =? 0)%nat then Some (w, b)
    else '(_, w, b) ← buffer_puts calls w b separator; Some (w, b)) no_output 0 (S (sl_len l)) w b.

Definition dump_list (name : nat -> W -> buffer -> option (W * buffer)) (m : mem) (w : W)
    (b : buffer) (l : strlist) : option (W * buffer) :=
  count ← strlist_count m l;
  '(_, w, b) ← buffer_puts calls w b (cstr (lit "strlist["));
  '(_, w, b) ← buffer_putulong calls w b count;
  if count =? 0 then
    '(_, w, b) ← buffer_puts calls w b (cstr (lit "] {}" ++ [10]));
    '(_, w, b) ← buffer_flush calls w b; Some (w, b)
  else
    '(_, w, b) ← buffer_puts calls w b (cstr (lit "] {" ++ [10]));
    x ← sl_view m l;
    '(w, b) ← print_loop x (sl_len l) (sl_sep l)
      (fun i w b =>
         '(_, w, b) ← buffer_puts calls w b (cstr (lit "  "));
         '(w, b) ← name i w b;
         '(_, w, b) ← buffer_puts calls w b (cstr (lit " = " ++ [34])); Some (w, b))
      (fun i w b => '(_, w, b) ← buffer_putsflush calls w b (cstr [34; 10]); Some (w, b))
      0 (S (sl_len l)) w b;
    '(_, w, b) ← buffer_putsflush calls w b (cstr (lit "}" ++ [10])); Some (w, b).

Definition strlist_dump : mem -> W -> buffer -> strlist -> option (W * buffer) :=
  dump_list (fun i w b => '(_, w, b) ← buffer_putulong calls w b (Z.of_nat i); Some (w, b)).

(** An item without a name is undefined behaviour. *)
Definition strlist_dump_named (names : list (list Z))
    : mem -> W -> buffer -> strlist -> option (W * buffer) :=
  dump_list (fun i w b => s ← names !! i; '(_, w, b) ← buffer_puts calls w b s; Some (w, b)).

End output.

(** * The contract *)

(** An item the list can hold. *)
Definition word (sep : Z) (c : list Z) : Prop := c <> [] /\ sep ∉ c.

(** The text of items with a separator between them, and of items with one more
    behind them when [t]. *)
Fixpoint join (sep : Z) (cs : list (list Z)) : list Z :=
  match cs with
  | [] => []
  | [c] => c
  | c :: cs => c ++ sep :: join sep cs
  end.

Definition text (sep : Z) (cs : list (list Z)) (t : bool) : list Z :=
  match cs with [] => [] | _ => join sep cs ++ if t then [sep] else [] end.

Record srep (m : mem) (l : strlist) (cs : list (list Z)) (t : bool) : Prop := Srep {
  sr_rep : rep m (sl_sa l) (text (sl_sep l) cs t);
  sr_words : Forall (word (sl_sep l)) cs
}.

(** * Lemmas *)

(** ** Walking *)

Section walk.
Context (sep : Z).

(** The items [cs] are from [p] on to the end of the text. *)
Definition here (x : list Z) (len p : nat) (cs : list (list Z)) (t : bool) : Prop :=
  match cs with
  | [] => (len <= p)%nat
  | _ => (p + length (text sep cs t) = len)%nat /\ exists z, drop p x = text sep cs t ++ z
  end.

Lemma text_cons (c : list Z) (cs : list (list Z)) (t : bool) :
  text sep (c :: cs) t = c ++ match cs with
                              | [] => if t then [sep] else []
                              | _ => sep :: text sep cs t
                              end.
Proof. unfold text. destruct cs; [done|]. cbn [join]. by rewrite <- app_assoc. Qed.

Lemma byte_chr_word (c r : list Z) (n : nat) :
  sep ∉ c -> (n <> 0 -> exists r', r = sep :: r')%nat ->
  byte_chr (c ++ r) (length c + n) sep = Some (length c).
Proof.
  intros Hc Hr. induction c as [|x c IH]; cbn [app length Nat.add].
  - destruct n as [|n]; [done|]. destruct (Hr ltac:(done)) as [r' ->]. cbn. by rewrite Z.eqb_refl.
  - apply not_elem_of_cons in Hc as [Hx Hc]. cbn [byte_chr]. change (load (x :: c ++ r) 0) with (Some x).
    cbn. replace (x =? sep) with false by lia. by rewrite IH.
Qed.

Lemma here_item (x : list Z) (len p : nat) (c : list Z) (cs : list (list Z)) (t : bool) :
  word sep c -> here x len p (c :: cs) t ->
  (p < len)%nat /\ item_len x len sep p = Some (length c) /\ (exists z, drop p x = c ++ z) /\
  here x len (p + length c + 1) cs t /\ (p + length c <= len)%nat /\
  (p + length c < len -> load x (p + length c) = Some sep)%nat.
Proof.
  intros [Hne Hc] [Hlen [z Hz]]. rewrite text_cons in Hz, Hlen. rewrite length_app in Hlen.
  rewrite <- app_assoc in Hz. set (r := match cs with [] => _ | _ => _ end) in *.
  assert (0 < length c)%nat as Hpos by (destruct c; [done|simpl; lia]).
  assert (length r <> 0 -> exists r', r = sep :: r')%nat as Hr.
  { subst r. destruct cs; [destruct t; [by exists []|done]|by eexists]. }
  split; [lia|]. split.
  { unfold item_len. rewrite Hz. replace (len - p)%nat with (length c + length r)%nat by lia.
    apply byte_chr_word; [done|]. intros Hn. destruct (Hr Hn) as [r' ->]. by eexists. }
  split; [by exists (r ++ z)|]. split; [|split; [lia|]].
  - unfold here. destruct cs as [|d cs]; [subst r; destruct t; simpl in Hlen; lia|].
    subst r. cbn [length] in Hlen. split; [lia|]. exists z.
    rewrite <- Nat.add_assoc, <- drop_drop, Hz. by rewrite <- drop_drop, drop_app_length.
  - intros Hlt. destruct (Hr ltac:(lia)) as [r' Hr']. unfold load.
    rewrite <- lookup_drop, Hz, Hr'. rewrite lookup_app_r by lia. by rewrite Nat.sub_diag.
Qed.
End walk.

Lemma here_start (m : mem) (l : strlist) (cs : list (list Z)) (t : bool) :
  srep m l cs t ->
  exists x, sl_view m l = Some x /\ here (sl_sep l) x (sl_len l) 0 cs t /\
    take (length (text (sl_sep l) cs t)) x = text (sl_sep l) cs t /\
    sl_len l = length (text (sl_sep l) cs t).
Proof.
  intros [H Hw]. destruct (rep_view _ _ _ H) as (x & Hx & Ht & Hl). exists x.
  assert (sl_len l = length (text (sl_sep l) cs t)) as Hlen
    by (unfold sl_len; by rewrite (rep_len _ _ _ H), Nat2Z.id).
  split; [exact Hx|]. split; [|done]. rewrite Hlen.
  destruct cs as [|c cs]; [simpl; lia|]. split; [done|]. eexists. rewrite drop_0.
  rewrite <- Ht at 1. symmetry. apply take_drop.
Qed.

(** The number of items bounds the turns of a loop over them. *)
Lemma text_length (sep : Z) (cs : list (list Z)) (t : bool) :
  Forall (word sep) cs -> (length cs <= length (text sep cs t))%nat.
Proof.
  induction 1 as [|c cs [Hne _] _ IH]; [simpl; lia|]. rewrite text_cons, length_app. cbn [length].
  destruct c; [done|]. cbn [length]. destruct cs; cbn [length] in *; [lia|]. lia.
Qed.

(** ** Looking up *)

Lemma byte_equal_words (c w y z : list Z) :
  length c = length w -> byte_equal (c ++ y) (length w) (w ++ z) = Some (bool_decide (c = w)).
Proof.
  intros E. rewrite byte_equal_spec by (rewrite length_app; lia).
  rewrite take_app_length, <- E, take_app_length. done.
Qed.

(** One comparison of the loops. *)
Lemma same_item (c w y z : list Z) :
  (if (length c =? length w)%nat then byte_equal (c ++ y) (length w) (w ++ z) else Some false) =
    Some (bool_decide (c = w)).
Proof.
  destruct (Nat.eqb_spec (length c) (length w)) as [E|E]; [by apply byte_equal_words|].
  rewrite bool_decide_false; [done|congruence].
Qed.

Lemma contains_loop_ok (x w z : list Z) (len : nat) (sep : Z) (t : bool) (cs : list (list Z)) :
  Forall (word sep) cs -> forall p fuel, here sep x len p cs t -> (length cs < fuel)%nat ->
  contains_loop x len sep (w ++ z) (length w) p fuel = Some (bool_decide (w ∈ cs)).
Proof.
  induction 1 as [|c cs Hc _ IH]; intros p [|fuel] Hh Hf; try (simpl in Hf; lia); cbn [contains_loop].
  - replace (p <? len)%nat with false by (symmetry; apply Nat.ltb_ge; apply Hh). done.
  - destruct (here_item sep x len p c cs t Hc Hh) as (Hp & -> & [y Hy] & Hn & _).
    replace (p <? len)%nat with true by (symmetry; by apply Nat.ltb_lt). cbn [mbind option_bind].
    rewrite Hy, same_item. cbn [mbind option_bind]. destruct (decide (c = w)) as [->|Hne].
    + rewrite !bool_decide_true by set_solver. done.
    + rewrite (bool_decide_false (c = w)) by done. rewrite (IH _ _ Hn) by (simpl in Hf; lia).
      f_equal. apply bool_decide_ext. set_solver.
Qed.

(** The offset of the first item [w]. *)
Fixpoint offset_of (w : list Z) (cs : list (list Z)) (p : nat) : Z :=
  match cs with
  | [] => -1
  | c :: cs => if decide (c = w) then Z.of_nat p else offset_of w cs (p + length c + 1)
  end.

Lemma index_loop_ok (x w z : list Z) (len : nat) (sep : Z) (t : bool) (cs : list (list Z)) :
  Forall (word sep) cs -> forall p fuel, here sep x len p cs t -> (length cs < fuel)%nat ->
  index_loop x len sep (w ++ z) (length w) p fuel = Some (offset_of w cs p).
Proof.
  induction 1 as [|c cs Hc _ IH]; intros p [|fuel] Hh Hf; try (simpl in Hf; lia); cbn [index_loop].
  - replace (p <? len)%nat with false by (symmetry; apply Nat.ltb_ge; apply Hh). done.
  - destruct (here_item sep x len p c cs t Hc Hh) as (Hp & -> & [y Hy] & Hn & _).
    replace (p <? len)%nat with true by (symmetry; by apply Nat.ltb_lt). cbn [mbind option_bind].
    replace (length c =? 0)%nat with false by (destruct Hc as [Hne _]; by destruct c).
    cbn [andb]. rewrite Hy, Nat.eqb_sym.
    assert ((if (length c =? length w)%nat then byte_equal (c ++ y) (length c) (w ++ z) else Some false)
      = Some (bool_decide (c = w))) as ->.
    { rewrite <- (same_item c w y z). by destruct (Nat.eqb_spec (length c) (length w)) as [->|]. }
    cbn [mbind option_bind offset_of]. destruct (decide (c = w)) as [->|Hne].
    + rewrite bool_decide_true by done. done.
    + rewrite bool_decide_false by done. apply IH; [done|simpl in Hf; lia].
Qed.

Lemma count_loop_ok (len : nat) (sep : Z) (t : bool) (cs : list (list Z)) :
  Forall (word sep) cs -> forall x p k fuel, cs <> [] -> here sep x len p cs t -> (length cs < fuel)%nat ->
  count_loop (drop p x) (len - p) sep k fuel = Some (k + Z.of_nat (length cs) - 1).
Proof.
  induction 1 as [|c cs Hc Hcs IH]; intros x p k [|fuel] Hne Hh Hf; try done; [simpl in Hf; lia|].
  destruct (here_item sep x len p c cs t Hc Hh) as (Hp & E & _ & Hn & Hle & Hs).
  cbn [count_loop]. replace (len - p =? 0)%nat with false by lia.
  unfold item_len in E. rewrite E. cbn [mbind option_bind].
  destruct (Nat.eqb_spec (length c) (len - p)) as [El|El].
  - destruct cs as [|d cs]; [cbn; f_equal; lia|]. cbn in Hn. lia.
  - unfold load. rewrite lookup_drop. unfold load in Hs. rewrite Hs by lia. cbn [mbind option_bind].
    rewrite Z.eqb_refl. cbn [andb]. destruct (Nat.eqb_spec (S (length c)) (len - p)) as [El'|El'].
    + destruct cs as [|d cs]; [cbn; f_equal; lia|]. cbn [here] in Hn. rewrite text_cons, length_app in Hn.
      apply list.Forall_cons in Hcs as [[Hd _] _]. destruct d; [done|]. cbn [length] in Hn. lia.
    + rewrite drop_drop.
      replace (p + S (length c))%nat with (p + length c + 1)%nat by lia.
      replace (len - p - S (length c))%nat with (len - (p + length c + 1))%nat by lia.
      destruct cs as [|d cs]; [cbn [here] in Hn; lia|].
      rewrite IH by (done || (cbn [length] in *; lia)). f_equal. cbn [length]. lia.
Qed.

(** The offset of the item with the number [i]. *)
Fixpoint offset_at (cs : list (list Z)) (i p : nat) : option nat :=
  match cs, i with
  | [], _ => None
  | _ :: _, O => Some p
  | c :: cs, S i => offset_at cs i (p + length c + 1)
  end.

Lemma at_scan (c : list Z) (sep : Z) (i l : nat) : sep ∉ c -> l <> i ->
  forall x p k z, drop p x = c ++ z ->
  at_loop x sep i l p (length c + k) = at_loop x sep i l (p + length c) k.
Proof.
  intros Hc Hl. induction c as [|a c IH]; intros x p k z Hz; cbn [length Nat.add].
  - by rewrite Nat.add_0_r.
  - apply not_elem_of_cons in Hc as [Ha Hc]. cbn [at_loop].
    replace (l =? i)%nat with false by (symmetry; by apply Nat.eqb_neq).
    assert (load x p = Some a) as ->.
    { unfold load. rewrite <- (Nat.add_0_r p), <- lookup_drop, Hz. done. }
    cbn [mbind option_bind]. replace (a =? sep) with false by lia.
    rewrite (IH Hc x (S p) k z), Nat.add_succ_comm; [done|].
    replace (S p) with (p + 1)%nat by lia. by rewrite <- drop_drop, Hz.
Qed.

Lemma at_loop_ok (x : list Z) (len : nat) (sep : Z) (t : bool) (cs : list (list Z)) :
  Forall (word sep) cs -> forall p l j k, here sep x len p cs t ->
  offset_at cs j p <> None ->
  at_loop x sep (l + j) l p (len - p + k) = Some (offset_at cs j p).
Proof.
  induction 1 as [|c cs Hc _ IH]; intros p l j k Hh Hj; [by destruct j|].
  destruct (here_item sep x len p c cs t Hc Hh) as (Hp & _ & [y Hy] & Hn & Hle & Hs).
  destruct j as [|j].
  - rewrite Nat.add_0_r. destruct (len - p + k)%nat as [|m] eqn:E; [lia|].
    cbn [at_loop]. by rewrite Nat.eqb_refl.
  - cbn [offset_at] in *. destruct cs as [|d cs]; [by destruct j|].
    assert (p + length c < len)%nat as Hlt by (cbn [here] in Hn; lia).
    replace (len - p + k)%nat with (length c + S (len - (p + length c + 1) + k))%nat by lia.
    rewrite (at_scan c sep (l + S j) l) with (z := y); [|apply Hc|lia|done].
    cbn [at_loop]. replace (l =? l + S j)%nat with false by (symmetry; apply Nat.eqb_neq; lia).
    rewrite Hs by done. cbn [mbind option_bind]. rewrite Z.eqb_refl.
    replace (l + S j)%nat with (S l + j)%nat by lia.
    replace (S (p + length c)) with (p + length c + 1)%nat by lia. by apply IH.
Qed.

Lemma at_loop_none (x : list Z) (len : nat) (sep : Z) (t : bool) (cs : list (list Z)) :
  Forall (word sep) cs -> forall p l j, here sep x len p cs t -> (length cs <= j)%nat ->
  at_loop x sep (l + j) l p (len - p) = Some None.
Proof.
  induction 1 as [|c cs Hc _ IH]; intros p l j Hh Hj.
  - cbn [here] in Hh. by replace (len - p)%nat with O by lia.
  - destruct (here_item sep x len p c cs t Hc Hh) as (Hp & _ & [y Hy] & Hn & Hle & Hs).
    cbn [length] in Hj. destruct j as [|j]; [lia|].
    destruct (decide (p + length c < len)%nat) as [Hlt|Hge].
    + replace (len - p)%nat with (length c + S (len - (p + length c + 1)))%nat by lia.
      rewrite (at_scan c sep (l + S j) l) with (z := y); [|apply Hc|lia|done].
      cbn [at_loop]. replace (l =? l + S j)%nat with false by (symmetry; apply Nat.eqb_neq; lia).
      rewrite Hs by done. cbn [mbind option_bind]. rewrite Z.eqb_refl.
      replace (l + S j)%nat with (S l + j)%nat by lia.
      replace (S (p + length c)) with (p + length c + 1)%nat by lia. apply IH; [done|lia].
    + replace (len - p)%nat with (length c + 0)%nat by lia.
      rewrite (at_scan c sep (l + S j) l) with (z := y); [done|apply Hc|lia|done].
Qed.

Lemma offset_at_Some (cs : list (list Z)) (i p : nat) :
  (i < length cs)%nat -> exists o, offset_at cs i p = Some o.
Proof.
  revert i p. induction cs as [|c cs IH]; intros [|i] p Hi; cbn [length offset_at] in *; try lia;
    [by eexists|]. apply IH. lia.
Qed.

(** The items from the offset on. *)
Lemma here_at (x : list Z) (len : nat) (sep : Z) (t : bool) (cs : list (list Z)) :
  Forall (word sep) cs -> forall p i o, here sep x len p cs t -> offset_at cs i p = Some o ->
  here sep x len o (drop i cs) t.
Proof.
  induction 1 as [|c cs Hc _ IH]; intros p [|i] o Hh Ho; try done.
  - by injection Ho as <-.
  - destruct (here_item sep x len p c cs t Hc Hh) as (_ & _ & _ & Hn & _). cbn [offset_at drop skipn] in *.
    by eapply IH.
Qed.

(** ** Adding *)

Lemma text_snoc (sep : Z) (cs : list (list Z)) (c : list Z) :
  text sep (cs ++ [c]) false = match cs with [] => [] | _ => text sep cs true end ++ c.
Proof.
  unfold text. destruct cs as [|d cs]; [cbn; apply app_nil_r|].
  cbn [app]. rewrite app_nil_r. revert d. induction cs as [|e cs IH]; intros d.
  - cbn. by rewrite <- app_assoc.
  - change (d ++ sep :: join sep (e :: cs ++ [c]) = ((d ++ sep :: join sep (e :: cs)) ++ [sep]) ++ c).
    rewrite IH, <- (app_assoc d), <- app_comm_cons, <- (app_assoc d). done.
Qed.

(** The last character of the text. *)
Lemma text_last (sep : Z) (cs : list (list Z)) (t : bool) :
  Forall (word sep) cs -> cs <> [] ->
  exists ys x, text sep cs t = ys ++ [x] /\ (x =? sep) = t.
Proof.
  intros H Hne. destruct cs as [|c cs _] using rev_ind; [done|]. apply Forall_app in H as [_ H].
  apply list.Forall_cons in H as [[Hc Hs] _]. destruct t.
  - unfold text. destruct (cs ++ [c]) eqn:E; [by destruct cs|]. eexists _, _. split; [done|]. lia.
  - rewrite text_snoc. destruct c as [|x c _] using rev_ind; [done|]. rewrite app_assoc.
    eexists _, _. split; [done|]. apply not_elem_of_app in Hs as [_ Hs].
    apply not_elem_of_cons in Hs as [Hs _]. lia.
Qed.

Lemma text_open (sep : Z) (cs : list (list Z)) :
  cs <> [] -> text sep cs true = text sep cs false ++ [sep].
Proof. unfold text. destruct cs; [done|]. by rewrite app_nil_r. Qed.

Lemma srep_len (m : mem) (l : strlist) (cs : list (list Z)) (t : bool) :
  srep m l cs t -> sa_len (sl_sa l) = zlen (text (sl_sep l) cs t).
Proof. intros [H _]. apply (rep_len _ _ _ H). Qed.

Lemma text_nonempty (sep : Z) (cs : list (list Z)) (t : bool) :
  Forall (word sep) cs -> cs <> [] -> (0 < length (text sep cs t))%nat.
Proof.
  intros H Hne. destruct (text_last sep cs t H Hne) as (ys & x & -> & _). rewrite length_app. simpl. lia.
Qed.

(** What an operation that adds items does: the list is [ds] afterwards. *)
Definition becomes (m : mem) (l : strlist) (ds : list (list Z)) (t : bool) (m' : mem) (l' : strlist)
    : Prop :=
  sl_sep l' = sl_sep l /\ edits m (sl_sa l) (text (sl_sep l) ds t) m' (sl_sa l') /\ lasts m'.

(** A separator behind the text. *)
Lemma separate_ok (m : mem) (l : strlist) (cs : list (list Z)) :
  srep m l cs false -> cs <> [] -> lasts m -> small (zlen (text (sl_sep l) cs false) + 1) ->
  exists m' l', separate m l true = Some (m', l') /\ becomes m l cs true m' l'.
Proof.
  intros [H Hw] Hne Hm Hs. unfold separate, on_sa.
  destruct (yields_now _ _ _ _ _ Hm (catc_ok m (sl_sa l) _ (sl_sep l) H Hs)) as (m' & sa & -> & He & Hm').
  exists m', (SL sa (sl_sep l)). split; [done|]. split; [done|]. split; [|done]. by rewrite text_open.
Qed.

(** The characters of an item behind a separator, or in an empty list. *)
Lemma cat_item_ok (m : mem) (l : strlist) (cs : list (list Z)) (c : list Z) (s : ptr) (n : Z) :
  rep m (sl_sa l) (match cs with [] => [] | _ => text (sl_sep l) cs true end) ->
  reads m (sl_sa l) s c -> n = zlen c -> lasts m ->
  small (zlen (text (sl_sep l) (cs ++ [c]) false)) ->
  exists m' l', on_sa l (stralloc_catb m (sl_sa l) s n) = Some (true, m', l') /\
    becomes m l (cs ++ [c]) false m' l'.
Proof.
  intros H Hr -> Hm Hs. unfold on_sa, zlen in *. rewrite text_snoc, length_app in Hs.
  destruct (yields_now _ _ _ _ _ Hm (catb_ok m (sl_sa l) _ c s _ H Hr eq_refl ltac:(unfold small in *; lia)))
    as (m' & sa & -> & He & Hm').
  exists m', (SL sa (sl_sep l)). split; [done|]. split; [done|]. split; [|done]. by rewrite text_snoc.
Qed.

Lemma becomes_trans (m m1 m2 : mem) (l l1 l2 : strlist) (cs ds : list (list Z)) (t u : bool) :
  becomes m l cs t m1 l1 -> becomes m1 l1 ds u m2 l2 -> becomes m l ds u m2 l2.
Proof.
  intros (E1 & H1 & _) (E2 & H2 & Hm). split; [congruence|]. split; [|done].
  rewrite E1 in H2. by eapply edits_trans.
Qed.

Lemma becomes_srep (m m' : mem) (l l' : strlist) (cs : list (list Z)) (t : bool) :
  becomes m l cs t m' l' -> Forall (word (sl_sep l)) cs -> srep m' l' cs t.
Proof. intros (E & [_ H] & _) Hw. by split; rewrite E. Qed.

Lemma pushb_ok (m : mem) (l : strlist) (cs : list (list Z)) (c : list Z) (s : ptr) (n : Z) :
  srep m l cs false -> word (sl_sep l) c -> reads m (sl_sa l) s c -> n = zlen c -> lasts m ->
  small (zlen (text (sl_sep l) (cs ++ [c]) false)) ->
  exists m' l', strlist_pushb m l s n = Some (1, m', l') /\ becomes m l (cs ++ [c]) false m' l'.
Proof.
  intros Hl Hc Hr -> Hm Hs. unfold strlist_pushb. rewrite (srep_len _ _ _ _ Hl). unfold zlen in *.
  pose proof Hl as [H Hw]. assert (Z.of_nat (length c) =? 0 = false) as -> by (destruct Hc as [Hc _]; by destruct c).
  destruct cs as [|d cs].
  - change (Z.of_nat (length (text (sl_sep l) [] false)) =? 0) with true.
    cbn [negb separate mbind option_bind].
    destruct (cat_item_ok m l [] c s (Z.of_nat (length c)) H Hr eq_refl Hm Hs) as (m' & l' & -> & Hb). by exists m', l'.
  - pose proof (text_nonempty (sl_sep l) (d :: cs) false Hw ltac:(done)) as Hpos.
    replace (Z.of_nat (length (text (sl_sep l) (d :: cs) false)) =? 0) with false by lia. cbn [negb].
    assert (small (zlen (text (sl_sep l) (d :: cs) false) + 1)) as Hs1.
    { rewrite text_snoc, length_app, text_open, length_app in Hs by done. unfold small, zlen in *. cbn [length] in Hs.
      destruct Hc as [Hc _]. destruct c; [done|]. lia. }
    destruct (separate_ok m l (d :: cs) Hl ltac:(done) Hm Hs1) as (m1 & l1 & -> & Hb1).
    cbn [mbind option_bind]. pose proof Hb1 as (E1 & He1 & Hm1).
    destruct (cat_item_ok m1 l1 (d :: cs) c s (Z.of_nat (length c))) as (m2 & l2 & -> & Hb2); try done.
    + rewrite E1. apply He1.
    + eapply reads_evolves; [apply He1|done].
    + by rewrite E1.
    + exists m2, l2. split; [done|]. by eapply becomes_trans.
Qed.

Lemma text_app (sep : Z) (ds es : list (list Z)) (t : bool) :
  ds <> [] -> es <> [] -> text sep (ds ++ es) t = text sep ds true ++ text sep es t.
Proof.
  intros Hd He. induction ds as [|d ds IH]; [done|]. cbn [app]. rewrite text_cons.
  destruct ds as [|d' ds].
  - cbn [app]. rewrite (text_cons sep d []). destruct es; [done|]. by rewrite <- app_assoc.
  - cbn [app] in *. rewrite IH by done. rewrite (text_cons sep d (d' :: ds)).
    by rewrite <- app_assoc, <- app_comm_cons.
Qed.

(** The text in front of an item and behind it. *)
Definition before (sep : Z) (ds : list (list Z)) : list Z :=
  match ds with [] => [] | _ => text sep ds true end.
Definition after (sep : Z) (es : list (list Z)) (t : bool) : list Z :=
  match es with [] => if t then [sep] else [] | _ => sep :: text sep es t end.

Lemma text_split (sep : Z) (ds es : list (list Z)) (c : list Z) (t : bool) :
  text sep (ds ++ c :: es) t = before sep ds ++ c ++ after sep es t.
Proof.
  unfold before, after. destruct ds as [|d ds]; [apply text_cons|].
  rewrite text_app by done. f_equal. apply text_cons.
Qed.

Lemma text_cut (sep : Z) (ds es : list (list Z)) (t : bool) :
  es <> [] -> before sep ds ++ text sep es t = text sep (ds ++ es) t.
Proof. intros He. unfold before. destruct ds; [done|]. symmetry. by apply text_app. Qed.

Lemma offset_of_split (sep : Z) (w : list Z) (es ds : list (list Z)) (p : nat) :
  w ∉ ds -> offset_of w (ds ++ w :: es) p = Z.of_nat (p + length (before sep ds)).
Proof.
  revert p. induction ds as [|d ds IH]; intros p Hw; cbn [app offset_of].
  - rewrite decide_True by done. by rewrite Nat.add_0_r.
  - apply not_elem_of_cons in Hw as [Hd Hw]. rewrite decide_False by done. rewrite IH by done.
    f_equal. unfold before. rewrite (text_cons sep d ds). rewrite length_app.
    destruct ds; cbn [length]; lia.
Qed.

Lemma offset_of_none (w : list Z) (cs : list (list Z)) (p : nat) : w ∉ cs -> offset_of w cs p = -1.
Proof.
  revert p. induction cs as [|c cs IH]; intros p Hw; [done|]. apply not_elem_of_cons in Hw as [Hc Hw].
  cbn [offset_of]. rewrite decide_False by done. by apply IH.
Qed.

Lemma first_split (w : list Z) (cs : list (list Z)) :
  w ∈ cs -> exists ds es, cs = ds ++ w :: es /\ w ∉ ds.
Proof.
  induction cs as [|c cs IH]; [by intros ?%not_elem_of_nil|]. destruct (decide (c = w)) as [->|Hne].
  - intros _. exists [], cs. split; [done|]. apply not_elem_of_nil.
  - intros [?|Hw]%elem_of_cons; [congruence|]. destruct (IH Hw) as (ds & es & -> & Hd).
    exists (c :: ds), es. split; [done|]. apply not_elem_of_cons. split; [congruence|done].
Qed.

Lemma indexofb_ok (m : mem) (l : strlist) (cs : list (list Z)) (t : bool) (w z : list Z) :
  srep m l cs t -> strlist_indexofb m l (w ++ z) (length w) = Some (offset_of w cs 0).
Proof.
  intros H. destruct (here_start m l cs t H) as (x & Hx & Hh & _ & Hlen).
  unfold strlist_indexofb. rewrite Hx. cbn [mbind option_bind].
  apply (index_loop_ok x w z _ _ t cs (sr_words _ _ _ _ H)); [done|].
  pose proof (text_length (sl_sep l) cs t (sr_words _ _ _ _ H)). lia.
Qed.

Lemma containsb_ok (m : mem) (l : strlist) (cs : list (list Z)) (t : bool) (w z : list Z) :
  srep m l cs t -> strlist_containsb m l (w ++ z) (length w) = Some (bool_decide (w ∈ cs)).
Proof.
  intros H. destruct (here_start m l cs t H) as (x & Hx & Hh & _ & Hlen).
  unfold strlist_containsb. rewrite Hx. cbn [mbind option_bind].
  apply (contains_loop_ok x w z _ _ t cs (sr_words _ _ _ _ H)); [done|].
  pose proof (text_length (sl_sep l) cs t (sr_words _ _ _ _ H)). lia.
Qed.

(** ** Removing *)

(** The state after the item between [ds] and [es] is gone. *)
Definition gap_open (ds es : list (list Z)) (t : bool) : bool :=
  match es with [] => match ds with [] => false | _ => true end | _ => t end.

Lemma text_gap (sep : Z) (ds es : list (list Z)) (t : bool) :
  text sep (ds ++ es) (gap_open ds es t) =
    before sep ds ++ match es with [] => [] | _ => text sep es t end.
Proof.
  unfold gap_open. destruct es as [|e es]; [|symmetry; by apply text_cut].
  rewrite !app_nil_r. unfold before. by destruct ds.
Qed.

Lemma removeb_ok (m : mem) (l : strlist) (ds es : list (list Z)) (t : bool) (w z : list Z) :
  srep m l (ds ++ w :: es) t -> w ∉ ds -> lasts m ->
  small (zlen (text (sl_sep l) (ds ++ w :: es) t)) ->
  exists m' l', strlist_removeb m l (w ++ z) (length w) = Some (1, m', l') /\
    becomes m l (ds ++ es) (gap_open ds es t) m' l'.
Proof.
  intros H Hw Hm Hs. unfold strlist_removeb. rewrite (indexofb_ok m l _ t w z H).
  cbn [mbind option_bind]. rewrite (offset_of_split (sl_sep l)) by done.
  replace (Z.of_nat _ =? -1) with false by lia. rewrite Nat2Z.id, Nat.add_0_l.
  destruct (here_start _ _ _ _ H) as (x & -> & _ & Ht & Hlen). cbn [mbind option_bind].
  set (n := match after (sl_sep l) es t with [] => length w | _ => S (length w) end).
  pose proof H as [Hrep Hwords]. rewrite text_split in Ht, Hlen, Hrep, Hs. unfold zlen, small in *.
  assert (0 < length w)%nat as Hpos.
  { apply Forall_app in Hwords as [_ Hwords]. apply list.Forall_cons in Hwords as [[Hne _] _].
    destruct w; [done|simpl; lia]. }
  assert ((if (length (before (sl_sep l) ds) + length w <? sl_len l)%nat
    then c ← load x (length (before (sl_sep l) ds) + length w);
         Some (if c =? sl_sep l then S (length w) else length w)
    else Some (length w)) = Some n) as ->.
  { rewrite Hlen, !length_app. subst n. destruct (after (sl_sep l) es t) as [|y r] eqn:E.
    - cbn [length]. replace (_ <? _)%nat with false by lia. done.
    - assert (y = sl_sep l) as -> by (unfold after in E; destruct es; [destruct t|]; congruence).
      cbn [length]. replace (_ <? _)%nat with true by lia.
      rewrite (used_load _ _ _ Ht) by (rewrite !length_app; cbn [length]; lia).
      rewrite lookup_app_r, lookup_app_r by lia.
      replace (_ - _)%nat with O by lia. cbn. by rewrite Z.eqb_refl. }
  cbn [mbind option_bind].
  assert (length (before (sl_sep l) ds) + n <= length (before (sl_sep l) ds ++ w ++ after (sl_sep l) es t))%nat
    as Hn by (rewrite !length_app; subst n; destruct (after _ _ _); cbn [length]; lia).
  destruct (remove_ok' m (sl_sa l) _ (Z.of_nat (length (before (sl_sep l) ds))) (Z.of_nat n) Hrep)
    as (m' & sa' & E & He); [rewrite !length_app in *; lia|lia|lia|].
  unfold on_sa. rewrite E. cbn [mbind option_bind]. eexists _, _. split; [done|].
  split; [done|]. split; [|by eapply lasts_evolves; [apply He|]]. cbn [sl_sa sl_sep].
  rewrite Z.min_l in He by lia. rewrite text_gap. unfold replaced in He.
  rewrite Nat2Z.id, take_app_length in He. cbn [app] in He.
  replace (Z.to_nat _) with (length (before (sl_sep l) ds) + n)%nat in He by lia.
  rewrite <- drop_drop, drop_app_length in He.
  replace (drop n (w ++ after (sl_sep l) es t)) with
    (match es with [] => [] | _ => text (sl_sep l) es t end) in He; [done|].
  subst n. unfold after. destruct es as [|e es]; [destruct t|].
  - rewrite drop_ge; [done|rewrite length_app; simpl; lia].
  - rewrite app_nil_r. by rewrite drop_ge.
  - replace (S (length w)) with (length w + 1)%nat by lia. by rewrite <- drop_drop, drop_app_length.
Qed.

(** The first item [c] is struck out. *)
Definition strike (st : list (list Z) * bool) (c : list Z) : list (list Z) * bool :=
  match list_find (eq c) (fst st) with
  | None => st
  | Some (i, _) =>
      (take i (fst st) ++ drop (S i) (fst st), gap_open (take i (fst st)) (drop (S i) (fst st)) (snd st))
  end.

Lemma strike_in (cs : list (list Z)) (t : bool) (c : list Z) :
  c ∈ cs -> exists ds es, cs = ds ++ c :: es /\ c ∉ ds /\ strike (cs, t) c = (ds ++ es, gap_open ds es t).
Proof.
  intros Hc. unfold strike. cbn [fst snd]. destruct (list_find (eq c) cs) as [[i c']|] eqn:Ef.
  - apply list_find_Some in Ef as (Hi & <- & Hbefore). exists (take i cs), (drop (S i) cs).
    split; [symmetry; by apply take_drop_middle|]. split; [|done].
    intros (j & Hj)%list_elem_of_lookup. apply lookup_take_Some in Hj as [Hj Hlt]. by eapply Hbefore.
  - apply list_find_None in Ef. by apply (proj1 (list.Forall_forall _ _) Ef) in Hc.
Qed.

Lemma strike_out (cs : list (list Z)) (t : bool) (c : list Z) : c ∉ cs -> strike (cs, t) c = (cs, t).
Proof.
  intros Hc. unfold strike. cbn [fst snd]. destruct (list_find (eq c) cs) as [[i c']|] eqn:Ef; [|done].
  apply list_find_Some in Ef as (Hi & <- & _). by destruct Hc; eapply list_elem_of_lookup_2.
Qed.

Lemma removed_ok (m : mem) (l : strlist) (cs : list (list Z)) (t : bool) (c z : list Z) :
  srep m l cs t -> lasts m -> small (zlen (text (sl_sep l) cs t)) ->
  exists m' l', strlist_removeb m l (c ++ z) (length c) =
      Some (if decide (c ∈ cs) then 1 else 0, m', l') /\
    becomes m l (fst (strike (cs, t) c)) (snd (strike (cs, t) c)) m' l'.
Proof.
  intros H Hm Hs. case_decide as Hc.
  - destruct (strike_in cs t c Hc) as (ds & es & -> & Hd & ->). by apply removeb_ok.
  - rewrite strike_out by done. exists m, l. unfold strlist_removeb.
    rewrite (indexofb_ok m l cs t c z H), offset_of_none by done. split; [done|].
    split; [done|]. split; [|done]. apply edits_refl, (sr_rep _ _ _ _ H).
Qed.

Lemma pop_loop_ok (c : list Z) (sep : Z) (ys z : list Z) :
  sep ∉ c -> pop_loop (ys ++ [sep] ++ c ++ z) sep (length ys + 1 + length c) = Some (Some (length ys)).
Proof.
  intros Hc. revert z. induction c as [|x c IH] using rev_ind; intros z; cbn [length].
  - rewrite Nat.add_0_r, Nat.add_1_r. cbn [pop_loop]. unfold load.
    change ([sep] ++ [] ++ z) with (sep :: z). rewrite list_lookup_middle by done. cbn. by rewrite Z.eqb_refl.
  - apply not_elem_of_app in Hc as [Hc Hx]. apply not_elem_of_cons in Hx as [Hx _].
    rewrite length_app. cbn [length]. replace (length ys + 1 + (length c + 1))%nat with
      (S (length ys + 1 + length c)) by lia. cbn [pop_loop]. unfold load.
    rewrite lookup_app_r by lia. rewrite lookup_app_r by (cbn [length]; lia).
    rewrite <- app_assoc. cbn [length]. rewrite lookup_app_r by lia.
    replace (_ - _)%nat with O by lia. cbn. replace (x =? sep) with false by lia.
    apply (IH Hc ([x] ++ z)).
Qed.

Lemma pop_ok (m : mem) (l : strlist) (cs ds : list (list Z)) (t : bool) (c : list Z) :
  srep m l cs t -> text (sl_sep l) cs t = text (sl_sep l) ds false ++ [sl_sep l] ++ c ->
  sl_sep l ∉ c -> lasts m ->
  exists l', strlist_pop m l = Some (1, l') /\ becomes m l ds false m l'.
Proof.
  intros H E Hc Hm. destruct (here_start _ _ _ _ H) as (x & Hx & _ & Ht & Hlen).
  unfold strlist_pop. rewrite Hx. cbn [mbind option_bind].
  rewrite <- (take_drop (length (text (sl_sep l) cs t)) x), Ht, Hlen, E, <- !app_assoc, !length_app.
  cbn [length]. rewrite Nat.add_assoc, pop_loop_ok by done. cbn [mbind option_bind].
  eexists. split; [done|]. split; [done|]. split; [|done]. cbn [sl_sa].
  pose proof (shorten_ok m (sl_sa l) _ (length (text (sl_sep l) ds false)) (sr_rep _ _ _ _ H)) as He.
  rewrite E, take_app_length in He. apply He. rewrite length_app. lia.
Qed.

Lemma text_prepend (sep : Z) (cs : list (list Z)) (c : list Z) (t : bool) :
  text sep (c :: cs) (match cs with [] => true | _ => t end) = c ++ sep :: text sep cs t.
Proof. rewrite text_cons. by destruct cs. Qed.

Lemma prepend_write (l c xs : list Z) (x : Z) :
  (length c + 1 + length xs <= length l)%nat ->
  exists r, <[length c := x]> (splice (splice l (length c + 1) xs) 0 c) = c ++ x :: xs ++ r.
Proof.
  intros Hl. unfold splice. cbn [take firstn app Nat.add].
  rewrite drop_app_le by (rewrite length_take; lia). rewrite skipn_firstn_comm.
  replace (length c + 1 - length c)%nat with 1%nat by lia.
  destruct (drop (length c) l) as [|y d] eqn:E.
  { apply (f_equal length) in E. rewrite length_drop in E. simpl in E. lia. }
  rewrite take_0, app_nil_l. change (take 1 (y :: d)) with [y]. cbn [app].
  rewrite insert_app_r_alt by done. rewrite Nat.sub_diag. cbn. eexists. done.
Qed.

Lemma prependb_ok (m : mem) (l : strlist) (cs : list (list Z)) (t : bool) (c : list Z) (s : ptr) :
  srep m l cs t -> reads m (sl_sa l) s c -> lasts m ->
  small (zlen (text (sl_sep l) cs t) + zlen c + 2) ->
  exists m' l', strlist_prependb m l s (length c) = Some (1, m', l') /\
    becomes m l (c :: cs) (match cs with [] => true | _ => t end) m' l'.
Proof.
  intros H Hr Hm Hs. unfold strlist_prependb. pose proof (sr_rep _ _ _ _ H) as Hrep.
  set (xs := text (sl_sep l) cs t) in *. unfold zlen, small in Hs.
  assert (yields m (sl_sa l) xs (c ++ sl_sep l :: xs) (prepend_item m (sl_sa l) (sl_sep l) s (length c)))
    as Hy.
  { apply (then_write _ _ _ _ (Z.of_nat (length xs) + (Z.of_nat (length c) + 2)) _ (fun m sa =>
      b ← sa_s sa;
      m ← mcopyr m b (length c + 1) (sa_len sa) (Blk b 0);
      m ← mcopy m b 0 (Z.of_nat (length c)) s;
      m ← mstore m b (length c) (sl_sep l);
      Some (true, m, SA (sa_s sa) (u64 (sa_len sa + Z.of_nat (length c) + 1)) (sa_a sa)))).
    { rewrite u64_id by (split; lia). apply readyplus_ok; [done|unfold small; lia|lia]. }
    intros m' sa' b l0 E R Hl Hb Hblk Hroom Ht Hle. rewrite Hb, Hl. cbn [mbind option_bind].
    rewrite (mcopyr_within _ _ _ _ _ l0) by (done || lia). cbn [mbind option_bind].
    rewrite Nat2Z.id. unfold block. rewrite drop_0, Ht.
    rewrite (mcopy_reads (put m' b (splice l0 (length c + 1) xs)) (SA (Some b) 0 0) b 0 _ s
      (splice l0 (length c + 1) xs) c).
    - cbn [mbind option_bind]. unfold mstore, on_block. rewrite put_lookup. cbn [mbind option_bind].
      rewrite store_Some by (rewrite !splice_length by (rewrite ?splice_length; lia); lia). cbn [mbind option_bind]. rewrite !put_put.
      eexists. split; [|split].
      + rewrite !length_app. cbn [length]. rewrite u64_id by (split; lia). do 3 f_equal. lia.
      + by rewrite length_insert, !splice_length by (rewrite ?splice_length; lia).
      + destruct (prepend_write l0 c xs (sl_sep l)) as [r ->]; [lia|].
        rewrite app_comm_cons, app_assoc. apply take_app_length.
    - eapply (reads_evolves m' _ sa'); [|by eapply reads_evolves].
      by apply (evolves_put _ _ _ _ l0); [apply R|..].
    - done.
    - apply put_lookup.
    - done.
    - rewrite splice_length; lia. }
  destruct (yields_now _ _ _ _ _ Hm Hy) as (m' & sa' & E & He & Hm'). unfold on_sa. rewrite E.
  cbn [mbind option_bind]. eexists _, _. split; [done|]. split; [done|]. split; [|done].
  by rewrite text_prepend.
Qed.

(** ** Pushing terminated strings *)

Lemma reads_string (m : mem) (sa : stralloc) (s : ptr) (c : list Z) :
  reads m sa s (cstr c) -> nonul c -> exists z, view m s = Some (cstr c ++ z) /\
    ptr_len m s = Some (zlen c) /\ reads m sa s c.
Proof.
  intros Hr Hn. pose proof Hr as [(x & Hx & Ht) _]. exists (drop (length (cstr c)) x).
  rewrite <- Ht at 1. rewrite take_drop. split; [done|]. split; [|by eapply reads_prefix].
  unfold ptr_len. rewrite Hx. cbn [mbind option_bind].
  rewrite <- (take_drop (length (cstr c)) x), Ht, str_len_cstr by done. done.
Qed.

Lemma ends_open_ok (m : mem) (l : strlist) (cs : list (list Z)) (t : bool) :
  srep m l cs t -> ends_open m l = Some (match cs with [] => false | _ => negb t end).
Proof.
  intros H. unfold ends_open. rewrite (srep_len _ _ _ _ H). unfold zlen.
  destruct cs as [|c cs]; [done|]. pose proof (sr_words _ _ _ _ H) as Hw.
  destruct (text_last (sl_sep l) (c :: cs) t Hw ltac:(done)) as (ys & x & E & Hx).
  rewrite E, length_app. cbn [length]. replace (Z.of_nat (length ys + 1) =? 0) with false by lia.
  destruct (here_start _ _ _ _ H) as (v & -> & _ & Ht & Hlen). cbn [mbind option_bind].
  rewrite E in *. rewrite Hlen, length_app. cbn [length].
  rewrite (used_load _ _ _ Ht) by (rewrite length_app; cbn [length]; lia).
  replace (length ys + 1 - 1)%nat with (length ys) by lia. rewrite list_lookup_middle by done.
  cbn. by rewrite Hx.
Qed.

(** A separator, where one is missing. *)
Lemma separated_ok (m : mem) (l : strlist) (cs : list (list Z)) (t : bool) :
  srep m l cs t -> lasts m -> small (zlen (text (sl_sep l) cs t) + 1) ->
  exists m' l', separate m l (match cs with [] => false | _ => negb t end) = Some (m', l') /\
    becomes m l cs (match cs with [] => t | _ => true end) m' l'.
Proof.
  intros H Hm Hs.
  assert (forall t', t' = t -> exists m' l', separate m l false = Some (m', l') /\ becomes m l cs t' m' l')
    as Hsame.
  { intros t' ->. exists m, l. split; [done|]. split; [done|]. split; [|done]. apply edits_refl, H. }
  destruct cs as [|c cs]; [by apply Hsame|]. destruct t; [by apply Hsame|]. by apply separate_ok.
Qed.

Lemma text_any (sep : Z) (cs : list (list Z)) (t : bool) :
  (length (text sep cs t) <= length (before sep cs))%nat.
Proof.
  unfold before. destruct cs as [|c cs]; [simpl; lia|]. destruct t; [lia|].
  rewrite text_open by done. rewrite length_app. lia.
Qed.

Lemma list_push_ok (m : mem) (l : strlist) (cs : list (list Z)) (t : bool) (c : list Z) (s : ptr) :
  srep m l cs t -> c <> [] -> nonul c -> reads m (sl_sa l) s (cstr c) -> lasts m ->
  small (zlen (text (sl_sep l) (cs ++ [c]) false)) ->
  exists m' l', strlist_push m l (Some s) = Some (1, m', l') /\ becomes m l (cs ++ [c]) false m' l'.
Proof.
  intros H Hne Hn Hr Hm Hs. unfold strlist_push. rewrite (ends_open_ok _ _ _ _ H).
  cbn [mbind option_bind]. rewrite text_split in Hs. unfold zlen, small in *.
  rewrite !length_app in Hs. pose proof (text_any (sl_sep l) cs t) as Ha.
  assert (0 < length c)%nat by (destruct c; [done|simpl; lia]).
  destruct (separated_ok m l cs t H Hm) as (m1 & l1 & -> & Hb1); [unfold small, zlen; lia|].
  cbn [mbind option_bind]. pose proof Hb1 as (E1 & He1 & Hm1).
  pose proof (reads_evolves _ _ _ _ _ _ (proj1 He1) Hr) as Hr1.
  destruct (reads_string _ _ _ _ Hr1 Hn) as (z & Hv & Hp & Hrc). rewrite Hv. cbn [mbind option_bind].
  destruct c as [|x c]; [done|]. change (load (cstr (x :: c) ++ z) 0) with (Some x).
  cbn [mbind option_bind]. replace (x =? 0) with false
    by (apply list.Forall_cons in Hn as [Hx _]; lia).
  unfold stralloc_cats. rewrite Hp. cbn [mbind option_bind].
  destruct (cat_item_ok m1 l1 cs (x :: c) s (zlen (x :: c))) as (m2 & l2 & -> & Hb2); try done.
  - rewrite E1. replace (match cs with [] => [] | _ => text (sl_sep l) cs true end) with
      (text (sl_sep l) cs (match cs with [] => t | _ => true end)); [apply He1|by destruct cs].
  - rewrite E1, text_split. unfold zlen, small. rewrite !length_app. lia.
  - cbn [mbind option_bind]. exists m2, l2. split; [done|]. by eapply becomes_trans.
Qed.

Lemma push_unique_ok (m : mem) (l : strlist) (cs : list (list Z)) (t : bool) (c z : list Z) :
  srep m l cs t -> c ∈ cs ->
  strlist_pushb_unique m l (Const (c ++ z)) (length c) = Some (0, m, l).
Proof.
  intros H Hc. unfold strlist_pushb_unique. cbn [view mbind option_bind].
  rewrite (indexofb_ok m l cs t c z H). cbn [mbind option_bind].
  destruct (first_split c cs Hc) as (ds & es & -> & Hd). rewrite (offset_of_split (sl_sep l)) by done.
  by replace (Z.of_nat _ =? -1) with false by lia.
Qed.

(** ** Sequences of operations *)

Inductive list_op : Type :=
  | PushB (c : list Z)
  | Push (c : list Z)
  | PushUnique (c : list Z)
  | Prepend (c : list Z)
  | Remove (c : list Z)
  | Pop.

Definition run_list (m : mem) (l : strlist) (o : list_op) : option (Z * mem * strlist) :=
  match o with
  | PushB c => strlist_pushb m l (Const c) (zlen c)
  | Push c => strlist_push m l (Some (Const (cstr c)))
  | PushUnique c => strlist_pushb_unique m l (Const c) (length c)
  | Prepend c => strlist_prependb m l (Const c) (length c)
  | Remove c => strlist_removeb m l c (length c)
  | Pop => '(r, l) ← strlist_pop m l; Some (r, m, l)
  end.

Fixpoint run_lists (m : mem) (l : strlist) (os : list list_op) : option (list Z * mem * strlist) :=
  match os with
  | [] => Some ([], m, l)
  | o :: os =>
      '(r, m, l) ← run_list m l o; '(rs, m, l) ← run_lists m l os; Some (r :: rs, m, l)
  end.

Definition op_word (o : list_op) : list Z :=
  match o with PushB c | Push c | PushUnique c | Prepend c | Remove c => c | Pop => [] end.

Definition op_valid (sep : Z) (o : list_op) : Prop :=
  match o with Pop => True | Push c => word sep c /\ nonul c | _ => word sep (op_word o) end.

(** What an operation answers and makes of the items and the flag for a
    separator at the end; [None] where the code leaves an item without
    characters, or reads in front of the text. *)
Definition spec_list (o : list_op) (cs : list (list Z)) (t : bool)
    : option (Z * list (list Z) * bool) :=
  match o with
  | PushB c => if t then None else Some (1, cs ++ [c], false)
  | Push c => Some (1, cs ++ [c], false)
  | PushUnique c =>
      if decide (c ∈ cs) then Some (0, cs, t)
      else if t then None else Some (1, cs ++ [c], false)
  | Prepend c => Some (1, c :: cs, match cs with [] => true | _ => t end)
  | Remove c => Some (if decide (c ∈ cs) then 1 else 0, fst (strike (cs, t) c), snd (strike (cs, t) c))
  | Pop =>
      if t then match cs with [] => None | _ => Some (1, cs, false) end
      else match cs with [] | [_] => None | _ => Some (1, take (length cs - 1) cs, false) end
  end.

Fixpoint spec_lists (os : list list_op) (cs : list (list Z)) (t : bool)
    : option (list Z * list (list Z) * bool) :=
  match os with
  | [] => Some ([], cs, t)
  | o :: os =>
      '(r, cs, t) ← spec_list o cs t; '(rs, cs, t) ← spec_lists os cs t; Some (r :: rs, cs, t)
  end.

(** A bound on the text after the operations. *)
Fixpoint weight (cs : list (list Z)) : nat :=
  match cs with [] => O | c :: cs => (length c + 2 + weight cs)%nat end.
Definition op_weight (os : list list_op) : nat := weight (op_word <$> os).

Lemma weight_app (cs ds : list (list Z)) : weight (cs ++ ds) = (weight cs + weight ds)%nat.
Proof. induction cs as [|c cs IH]; cbn [app weight]; [done|]. rewrite IH. lia. Qed.

Lemma text_weight (sep : Z) (cs : list (list Z)) (t : bool) :
  (length (text sep cs t) <= weight cs)%nat.
Proof.
  induction cs as [|c cs IH]; [simpl; lia|]. rewrite text_cons, length_app. cbn [weight].
  destruct cs; [destruct t; simpl; lia|]. cbn [length] in *. lia.
Qed.

Lemma small_text (sep : Z) (cs : list (list Z)) (t : bool) (n : nat) :
  small (Z.of_nat (weight cs + n)) -> small (zlen (text sep cs t)).
Proof. unfold small, zlen. pose proof (text_weight sep cs t). lia. Qed.

Lemma strike_weight (st : list (list Z) * bool) (c : list Z) :
  (weight (fst (strike st c)) <= weight (fst st))%nat.
Proof.
  destruct st as [cs t]. cbn [fst]. destruct (decide (c ∈ cs)) as [Hc|Hc].
  - destruct (strike_in cs t c Hc) as (ds & es & -> & _ & ->). cbn [fst]. rewrite !weight_app. cbn [weight]. lia.
  - by rewrite strike_out.
Qed.

Lemma strike_words (sep : Z) (st : list (list Z) * bool) (c : list Z) :
  Forall (word sep) (fst st) -> Forall (word sep) (fst (strike st c)).
Proof.
  destruct st as [cs t]. cbn [fst]. destruct (decide (c ∈ cs)) as [Hc|Hc]; [|by rewrite strike_out].
  destruct (strike_in cs t c Hc) as (ds & es & -> & _ & ->). cbn [fst].
  intros [H1 [_ H2]%list.Forall_cons]%Forall_app. by apply Forall_app.
Qed.

Lemma pop_spec (cs ds : list (list Z)) (c : list Z) (u : bool) (r : Z) :
  spec_list Pop (cs ++ [c]) false = Some (r, ds, u) -> cs <> [] /\ r = 1 /\ ds = cs /\ u = false.
Proof.
  cbn [spec_list]. destruct cs as [|c2 cs]; [done|]. cbn [app].
  destruct (cs ++ [c]) as [|c3 r'] eqn:E; [by destruct cs|]. rewrite <- E.
  intros [= <- <- <-]. split; [done|]. split; [done|]. split; [|done].
  change (c2 :: cs ++ [c]) with ((c2 :: cs) ++ [c]). rewrite length_app, Nat.sub_0_r. cbn [length].
  rewrite Nat.add_1_r. apply (take_app_length (c2 :: cs)).
Qed.

Lemma run_list_ok (m : mem) (l : strlist) (o : list_op) (cs ds : list (list Z)) (t u : bool) (r : Z) :
  srep m l cs t -> op_valid (sl_sep l) o -> lasts m ->
  small (Z.of_nat (weight cs + (length (op_word o) + 2))) -> spec_list o cs t = Some (r, ds, u) ->
  exists m' l', run_list m l o = Some (r, m', l') /\ becomes m l ds u m' l' /\ srep m' l' ds u /\
    (weight ds <= weight cs + (length (op_word o) + 2))%nat.
Proof.
  intros H Hv Hm Hs Hspec.
  assert (forall m' l' r', run_list m l o = Some (r', m', l') -> r' = r -> becomes m l ds u m' l' ->
    Forall (word (sl_sep l)) ds -> (weight ds <= weight cs + (length (op_word o) + 2))%nat ->
    exists m' l', run_list m l o = Some (r, m', l') /\ becomes m l ds u m' l' /\ srep m' l' ds u /\
    (weight ds <= weight cs + (length (op_word o) + 2))%nat) as Hdone.
  { intros m' l' r' E -> Hb Hw Hwt. exists m', l'. split; [done|]. split; [done|].
    split; [by eapply becomes_srep|done]. }
  assert (becomes m l cs t m l) as Hsame.
  { split; [done|]. split; [|done]. apply edits_refl, (sr_rep _ _ _ _ H). }
  pose proof (sr_words _ _ _ _ H) as Hw.
  assert (forall c, word (sl_sep l) c -> Forall (word (sl_sep l)) (cs ++ [c])) as Hws
    by (intros c Hc; apply Forall_app; split; [done|by apply list.Forall_singleton]).
  assert (forall c, weight (cs ++ [c]) = weight cs + (length c + 2))%nat as Hsnoc
    by (intros c; rewrite weight_app; cbn; lia).
  destruct o as [c|c|c|c|c|]; cbn [spec_list op_valid op_word] in *.
  - destruct t; [done|]. injection Hspec as <- <- <-.
    destruct (pushb_ok m l cs c (Const c) (zlen c) H Hv (reads_all _ _ _) eq_refl Hm) as (m' & l' & E & Hb).
    { apply (small_text _ _ _ O). by rewrite Hsnoc, Nat.add_0_r. }
    eapply Hdone; [exact E|done|done|by apply Hws|by rewrite Hsnoc].
  - injection Hspec as <- <- <-. destruct Hv as [Hv Hn].
    destruct (list_push_ok m l cs t c (Const (cstr c)) H (proj1 Hv) Hn (reads_all _ _ _) Hm) as (m' & l' & E & Hb).
    { apply (small_text _ _ _ O). by rewrite Hsnoc, Nat.add_0_r. }
    eapply Hdone; [exact E|done|done|by apply Hws|by rewrite Hsnoc].
  - case_decide as Hin.
    + injection Hspec as <- <- <-. pose proof (push_unique_ok m l cs t c [] H Hin) as E.
      rewrite app_nil_r in E. eapply Hdone; [exact E|done|done|done|lia].
    + destruct t; [done|]. injection Hspec as <- <- <-.
      destruct (pushb_ok m l cs c (Const c) (zlen c) H Hv (reads_all _ _ _) eq_refl Hm) as (m' & l' & E & Hb).
      { apply (small_text _ _ _ O). by rewrite Hsnoc, Nat.add_0_r. }
      eapply (Hdone m' l' 1); [|done|done|by apply Hws|by rewrite Hsnoc].
      cbn [run_list]. unfold strlist_pushb_unique. cbn [view mbind option_bind].
      pose proof (indexofb_ok m l cs false c [] H) as Ei. rewrite app_nil_r in Ei. rewrite Ei.
      cbn [mbind option_bind]. rewrite offset_of_none by done. cbn. unfold zlen in E. by rewrite E.
  - injection Hspec as <- <- <-.
    destruct (prependb_ok m l cs t c (Const c) H (reads_all _ _ _) Hm) as (m' & l' & E & Hb).
    { pose proof (text_weight (sl_sep l) cs t). unfold small, zlen in *. lia. }
    eapply Hdone; [exact E|done|done|by apply list.Forall_cons|cbn [weight]; lia].
  - injection Hspec as <- <- <-.
    destruct (removed_ok m l cs t c [] H Hm (small_text _ _ _ _ Hs)) as (m' & l' & E & Hb).
    rewrite app_nil_r in E. pose proof (strike_weight (cs, t) c). pose proof (strike_words (sl_sep l) (cs, t) c Hw).
    eapply Hdone; [exact E|done|done|done|cbn [fst] in *; lia].
  - destruct t.
    + assert (cs <> []) as Hne by (by destruct cs). assert (r = 1 /\ ds = cs /\ u = false) as (-> & -> & ->)
        by (destruct cs; [done|]; by injection Hspec as <- <- <-).
      destruct (pop_ok m l cs cs true [] H) as (l' & E & Hb); try done.
      * by rewrite text_open.
      * apply not_elem_of_nil.
      * eapply (Hdone m l' 1); [|done|done|done|lia]. cbn [run_list]. by rewrite E.
    + destruct cs as [|c1 cs _] using rev_ind; [done|].
      assert (cs <> [] /\ r = 1 /\ ds = cs /\ u = false) as (Hne & -> & -> & ->)
        by exact (pop_spec _ _ _ _ _ Hspec).
      apply Forall_app in Hw as [Hw [Hc _]%list.Forall_cons].
      destruct (pop_ok m l (cs ++ [c1]) cs false c1 H) as (l' & E & Hb); try done.
      * rewrite text_snoc. destruct cs; [done|]. by rewrite text_open, <- app_assoc by done.
      * apply Hc.
      * eapply (Hdone m l' 1); [|done|done|done|rewrite weight_app; lia]. cbn [run_list]. by rewrite E.
Qed.

Lemma run_lists_ok (os : list list_op) (m : mem) (l : strlist) (cs ds : list (list Z)) (t u : bool)
    (rs : list Z) :
  srep m l cs t -> Forall (op_valid (sl_sep l)) os -> lasts m ->
  small (Z.of_nat (weight cs + op_weight os)) -> spec_lists os cs t = Some (rs, ds, u) ->
  exists m' l', run_lists m l os = Some (rs, m', l') /\ becomes m l ds u m' l'.
Proof.
  revert m l cs t rs. induction os as [|o os IH]; intros m l cs t rs H Hv Hm Hs Hspec; cbn in Hspec.
  - injection Hspec as <- <- <-. exists m, l. split; [done|]. split; [done|]. split; [|done].
    apply edits_refl, (sr_rep _ _ _ _ H).
  - apply list.Forall_cons in Hv as [Hvo Hv]. unfold op_weight, small in *. cbn [fmap list_fmap weight] in Hs.
    destruct (spec_list o cs t) as [[[r cs1] t1]|] eqn:Eo; [|done]. cbn [mbind option_bind] in Hspec.
    destruct (spec_lists os cs1 t1) as [[[rs' ds'] u']|] eqn:Eos; [|done]. injection Hspec as <- <- <-.
    destruct (run_list_ok m l o cs cs1 t t1 r H Hvo Hm) as (m1 & l1 & E1 & Hb1 & H1 & Hw1);
      [unfold small; lia|done|].
    cbn [run_lists]. rewrite E1. cbn [mbind option_bind]. pose proof Hb1 as (Es & _ & Hm1).
    destruct (IH m1 l1 cs1 t1 rs' H1) as (m2 & l2 & -> & Hb2); try done; [by rewrite Es|lia|].
    exists m2, l2. split; [done|]. by eapply becomes_trans.
Qed.

(** ** Walking over another list *)

Lemma item_offset (sep : Z) (ds : list (list Z)) (c : list Z) :
  (length (before sep ds) + length c + 1 = length (before sep (ds ++ [c])))%nat.
Proof.
  unfold before at 2. destruct (ds ++ [c]) eqn:E; [by destruct ds|]. rewrite <- E.
  rewrite text_split, !length_app. cbn. lia.
Qed.

(** The pointer to an item of [l], for an operation on [sa]. *)
Lemma reads_item (m : mem) (sa : stralloc) (l : strlist) (ds es : list (list Z)) (c : list Z) (t : bool) :
  rep m (sl_sa l) (text (sl_sep l) (ds ++ c :: es) t) -> c <> [] -> apart sa (sl_sa l) ->
  reads m sa (item_ptr l (length (before (sl_sep l) ds))) c /\
  exists z, view m (item_ptr l (length (before (sl_sep l) ds))) = Some (c ++ z).
Proof.
  intros H Hne Ha. destruct (rep_view _ _ _ H) as (x & Hv & Ht & _). unfold sa_view, sa_ptr, item_ptr in *.
  rewrite text_split in Ht. destruct (sa_s (sl_sa l)) as [b|] eqn:Es.
  2:{ injection Hv as <-. rewrite take_nil in Ht. destruct c; [done|].
      by destruct (before (sl_sep l) ds). }
  cbn [view] in Hv. destruct (blocks m !! b) as [y|] eqn:Eb; [|done]. cbn in Hv. injection Hv as Hv.
  rewrite drop_0 in Hv. subst y.
  assert (exists z, drop (length (before (sl_sep l) ds)) x = c ++ z) as [z Hz].
  { rewrite <- (take_drop (length (before (sl_sep l) ds ++ c ++ after (sl_sep l) es t)) x), Ht.
    rewrite <- !app_assoc, drop_app_length. by eexists. }
  assert (view m (Blk b (length (before (sl_sep l) ds))) = Some (c ++ z)) as E
    by (cbn [view]; rewrite Eb; cbn; by rewrite Hz).
  split; [|by exists z]. split; [|destruct Ha; congruence].
  exists (c ++ z). split; [done|]. apply take_app_length.
Qed.

Lemma foreach_items {V : Type} (l : strlist) (f : nat -> nat -> mem -> V -> option (mem * V))
    (I : mem -> V -> list (list Z) -> Prop) (cs : list (list Z)) (t : bool) (m : mem) (v : V) :
  (forall m v ds, I m v ds -> srep m l cs t) ->
  (forall m v ds c es, cs = ds ++ c :: es -> I m v ds ->
    exists m' v', f (length (before (sl_sep l) ds)) (length c) m v = Some (m', v') /\ I m' v' (ds ++ [c])) ->
  I m v [] -> exists m' v', strlist_foreach l f m v = Some (m', v') /\ I m' v' cs.
Proof.
  intros Hrep Hf H0. unfold strlist_foreach.
  assert (forall es ds m v fuel, cs = ds ++ es -> I m v ds -> (length es < fuel)%nat ->
    exists m' v', foreach_loop l f (length (before (sl_sep l) ds)) fuel m v = Some (m', v') /\ I m' v' cs)
    as Hloop.
  2:{ apply (Hloop cs [] m v); [done|done|]. destruct (here_start _ _ _ _ (Hrep _ _ _ H0)) as (_ & _ & _ & _ & ->).
      pose proof (text_length (sl_sep l) cs t (sr_words _ _ _ _ (Hrep _ _ _ H0))). lia. }
  induction es as [|c es IH]; intros ds m1 v1 [|fuel] E HI Hfuel; try (simpl in Hfuel; lia);
    destruct (here_start _ _ _ _ (Hrep _ _ _ HI)) as (x & Hx & Hh & _ & Hlen); cbn [foreach_loop].
  - rewrite app_nil_r in E. subst ds. pose proof (text_any (sl_sep l) cs t).
    replace (_ <? _)%nat with false by lia. by exists m1, v1.
  - pose proof (Hrep _ _ _ HI) as Hr. pose proof (sr_words _ _ _ _ Hr) as Hw. rewrite E in Hw.
    apply Forall_app in Hw as [_ Hw]. apply list.Forall_cons in Hw as [Hc _].
    assert (here (sl_sep l) x (sl_len l) (length (before (sl_sep l) ds)) (c :: es) t) as Hhere.
    { split.
      - rewrite Hlen, E, text_split, text_cons, !length_app. done.
      - destruct (here_start _ _ _ _ Hr) as (x' & Hx' & _ & Ht & _). rewrite Hx in Hx'. injection Hx' as <-.
        rewrite <- (take_drop (length (text (sl_sep l) cs t)) x), Ht, E, text_split, <- app_assoc.
        rewrite drop_app_length. eexists. by rewrite text_cons. }
    destruct (here_item _ x _ _ c es t Hc Hhere) as (Hp & Hi & _). 
    replace (_ <? _)%nat with true by lia. rewrite Hx. cbn [mbind option_bind]. rewrite Hi.
    cbn [mbind option_bind]. replace (length c =? 0)%nat with false by (destruct Hc as [Hc _]; by destruct c).
    destruct (Hf m1 v1 ds c es E HI) as (m2 & v2 & -> & HI2). cbn [mbind option_bind].
    rewrite item_offset. apply IH; [by rewrite <- app_assoc|done|simpl in Hfuel; lia].
Qed.

(** Operations that push the items of [l] they keep onto [out]: [keep] decides
    with what [out] holds by then; [R] is what they know of other strings. *)
Definition gather (keep : list (list Z) -> list Z -> bool) (outs cs : list (list Z))
    : list (list Z) :=
  foldl (fun outs c => if keep outs c then outs ++ [c] else outs) outs cs.

Lemma gather_snoc keep (outs cs : list (list Z)) (c : list Z) :
  gather keep outs (cs ++ [c]) =
    if keep (gather keep outs cs) c then gather keep outs cs ++ [c] else gather keep outs cs.
Proof. unfold gather. by rewrite foldl_app. Qed.

Lemma gather_weight keep (outs cs : list (list Z)) :
  (weight (gather keep outs cs) <= weight outs + weight cs)%nat.
Proof.
  induction cs as [|c cs IH] using rev_ind; [simpl; lia|].
  rewrite gather_snoc, weight_app. cbn [weight]. destruct (keep _ c); rewrite ?weight_app; cbn [weight]; lia.
Qed.

Lemma gather_words keep (sep : Z) (outs cs : list (list Z)) :
  Forall (word sep) outs -> Forall (word sep) cs -> Forall (word sep) (gather keep outs cs).
Proof.
  intros Ho Hc. induction cs as [|c cs IH] using rev_ind; [done|]. apply Forall_app in Hc as [Hcs Hc].
  rewrite gather_snoc. destruct (keep _ c); [|by apply IH]. apply Forall_app. split; [by apply IH|done].
Qed.

Section gather.
Context (l : strlist) (cs : list (list Z)) (t : bool) (keep : list (list Z) -> list Z -> bool)
  (f : nat -> nat -> mem -> strlist * Z -> option (mem * (strlist * Z)))
  (R : mem -> stralloc -> Prop).
Hypothesis R_stable : forall m sa m' sa', evolves m sa m' sa' -> R m sa -> R m' sa'.
Hypothesis R_list : forall m sa, R m sa -> srep m l cs t /\ apart sa (sl_sa l).
Hypothesis f_step : forall m out k outs c z p,
  R m (sl_sa out) -> srep m out outs false -> view m (item_ptr l p) = Some (c ++ z) ->
  f p (length c) m (out, k) =
    if keep outs c then
      '(_, m, out) ← strlist_pushb m out (item_ptr l p) (Z.of_nat (length c)); Some (m, (out, k + 1))
    else Some (m, (out, k)).

Lemma gather_ok (m : mem) (out : strlist) (outs : list (list Z)) (k : Z) :
  R m (sl_sa out) -> srep m out outs false -> Forall (word (sl_sep out)) cs -> lasts m ->
  small (Z.of_nat (weight outs + weight cs)) ->
  exists m' out', strlist_foreach l f m (out, k) =
      Some (m', (out', k + Z.of_nat (length (gather keep outs cs) - length outs))) /\
    becomes m out (gather keep outs cs) false m' out'.
Proof.
  intros HR Hout Hw Hm Hs.
  set (I := fun (m' : mem) '((out', k') : strlist * Z) (ds : list (list Z)) => becomes m out (gather keep outs ds) false m' out' /\
    R m' (sl_sa out') /\ k' = k + Z.of_nat (length (gather keep outs ds) - length outs) /\
    (length outs <= length (gather keep outs ds))%nat /\ Forall (word (sl_sep out)) ds).
  destruct (foreach_items l f I cs t m (out, k)) as (m' & [out' k'] & E & Hb & _ & -> & _).
  - intros m1 [out1 k1] ds (_ & HR1 & _). apply (R_list _ _ HR1).
  - intros m1 [out1 k1] ds c es E (Hb & HR1 & -> & Hlen & Hwd).
    pose proof Hb as (Es & He & Hm1). destruct (R_list _ _ HR1) as [Hl Hap].
    rewrite E in Hl. rewrite E in Hw, Hs.
    apply Forall_app in Hw as [Hw1 [Hc Hw2]%list.Forall_cons].
    pose proof (gather_words keep _ _ _ (sr_words _ _ _ _ Hout) Hwd) as Hgw.
    destruct (reads_item m1 (sl_sa out1) l ds es c t (sr_rep _ _ _ _ Hl) (proj1 Hc) Hap) as [Hr [z Hv]].
    rewrite (f_step m1 out1 _ (gather keep outs ds) c z) by
      (done || (split; rewrite Es; [apply He|done])).
    pose proof (gather_snoc keep outs ds c) as Eg.
    destruct (keep (gather keep outs ds) c) eqn:Ek.
    + destruct (pushb_ok m1 out1 (gather keep outs ds) c (item_ptr l (length (before (sl_sep l) ds)))
        (Z.of_nat (length c))) as (m2 & out2 & -> & Hb2); try done; rewrite ?Es; try done.
      * split; rewrite Es; [apply He|done].
      * apply (small_text _ _ _ O). rewrite weight_app. pose proof (gather_weight keep outs ds).
        rewrite weight_app in Hs. cbn [weight] in *. unfold small in *. lia.
      * cbn [mbind option_bind]. eexists m2, (out2, _). split; [done|]. unfold I. rewrite Eg.
        split; [by eapply becomes_trans|]. split; [eapply R_stable; [apply Hb2|done]|].
        rewrite length_app. cbn [length]. split; [lia|]. split; [lia|].
        apply Forall_app. split; [done|]. by apply list.Forall_singleton.
    + eexists m1, (out1, _). split; [done|]. unfold I. rewrite Eg. split; [done|]. split; [done|].
      split; [done|]. split; [done|]. apply Forall_app. split; [done|]. by apply list.Forall_singleton.
  - split; [|split; [done|split; [cbn; lia|split; [done|constructor]]]].
    split; [done|]. split; [|done]. apply edits_refl, (sr_rep _ _ _ _ Hout).
  - exists m', out'. done.
Qed.
End gather.

Lemma strikes_weight (st : list (list Z) * bool) (cs : list (list Z)) :
  (weight (fst (foldl strike st cs)) <= weight (fst st))%nat.
Proof.
  revert st. induction cs as [|c cs IH]; intros st; cbn [foldl]; [lia|].
  pose proof (IH (strike st c)). pose proof (strike_weight st c). lia.
Qed.

Lemma strikes_words (sep : Z) (st : list (list Z) * bool) (cs : list (list Z)) :
  Forall (word sep) (fst st) -> Forall (word sep) (fst (foldl strike st cs)).
Proof. revert st. induction cs as [|c cs IH]; intros st H; [done|]. by apply IH, strike_words. Qed.

(** [strlist_sub]: every item of the other list is struck out once. *)
Lemma sub_ok (m : mem) (l o : strlist) (cs ds : list (list Z)) (t u : bool) :
  srep m l cs t -> srep m o ds u -> apart (sl_sa l) (sl_sa o) -> lasts m ->
  small (Z.of_nat (weight cs)) ->
  let st := foldl strike (cs, t) ds in
  exists m' l' r, strlist_sub m l o = Some (r, m', l') /\ becomes m l (fst st) (snd st) m' l'.
Proof.
  intros Hl Ho Ha Hm Hs st. unfold strlist_sub.
  set (I := fun (m' : mem) '((l', r) : strlist * Z) (es : list (list Z)) => let st := foldl strike (cs, t) es in
    becomes m l (fst st) (snd st) m' l' /\ srep m' o ds u /\ apart (sl_sa l') (sl_sa o)).
  match goal with |- context [strlist_foreach o ?f m (l, 0)] =>
    destruct (foreach_items o f I ds u m (l, 0)) as (m' & [l' r] & -> & Hb & _ & _) end.
  - by intros m1 [l1 k1] es (_ & H & _).
  - intros m1 [l1 k1] es c es' E (Hb & Ho1 & Ha1). pose proof Hb as (Es & He & Hm1).
    pose proof Ho1 as [Hrep Hw]. rewrite E in Hw, Hrep. apply Forall_app in Hw as [_ [Hc _]%list.Forall_cons].
    destruct (reads_item m1 (sl_sa l1) o es es' c u Hrep (proj1 Hc) Ha1) as [_ [z ->]].
    cbn [mbind option_bind].
    destruct (removed_ok m1 l1 (fst (foldl strike (cs, t) es)) (snd (foldl strike (cs, t) es)) c z)
      as (m2 & l2 & -> & Hb2); [|done| |].
    + split; rewrite Es; [apply He|]. apply strikes_words, (sr_words _ _ _ _ Hl).
    + apply (small_text _ _ _ O). pose proof (strikes_weight (cs, t) es). cbn [fst] in *.
      unfold small in *. lia.
    + cbn [mbind option_bind]. eexists m2, (l2, _). split; [done|]. unfold I. rewrite foldl_app. cbn [foldl].
      rewrite <- surjective_pairing in Hb2. split; [by eapply becomes_trans|].
      destruct (rep_other _ _ _ _ _ _ (proj1 (proj1 (proj2 Hb2))) Ha1 (sr_rep _ _ _ _ Ho1)) as [Hr2 Ha2].
      split; [|done]. by split; [|apply Ho1].
  - split; [|done]. split; [done|]. split; [|done]. apply edits_refl, (sr_rep _ _ _ _ Hl).
  - cbn [mbind option_bind]. by exists m', l', r.
Qed.

(** ** Lists that keep what passes a test *)

Definition fresh (outs : list (list Z)) (c : list Z) : bool := negb (bool_decide (c ∈ outs)).
Definition missing (bs : list (list Z)) (outs : list (list Z)) (c : list Z) : bool :=
  negb (bool_decide (c ∈ bs)).

Lemma cat_unique_ok (m : mem) (l o : strlist) (cs ds : list (list Z)) (u : bool) :
  srep m l cs false -> srep m o ds u -> Forall (word (sl_sep l)) ds -> apart (sl_sa l) (sl_sa o) ->
  lasts m -> small (Z.of_nat (weight cs + weight ds)) ->
  exists m' l', strlist_cat_unique m l o =
      Some (Z.of_nat (length (gather fresh cs ds) - length cs), m', l') /\
    becomes m l (gather fresh cs ds) false m' l'.
Proof.
  intros Hl Ho Hw Ha Hm Hs. unfold strlist_cat_unique.
  match goal with |- context [strlist_foreach o ?f m (l, 0)] =>
    destruct (gather_ok o ds u fresh f (fun m sa => srep m o ds u /\ apart sa (sl_sa o)))
      with (m := m) (out := l) (outs := cs) (k := 0) as (m' & l' & -> & Hb) end; try done.
  - intros m1 sa m2 sa2 He [H1 Ha1]. destruct (rep_other _ _ _ _ _ _ He Ha1 (sr_rep _ _ _ _ H1)).
    split; [|done]. by split; [|apply H1].
  - intros m1 out k outs c z p _ Hout ->. cbn [mbind option_bind].
    rewrite (containsb_ok m1 out outs false c z Hout). cbn [mbind option_bind].
    unfold fresh. by destruct (bool_decide (c ∈ outs)).
  - cbn [mbind option_bind]. rewrite Z.add_0_l. by exists m', l'.
Qed.

Lemma diff_ok (m : mem) (a b out : strlist) (cs bs xs : list (list Z)) (t u v : bool) :
  srep m a cs t -> srep m b bs u -> srep m out xs v -> Forall (word (sl_sep out)) cs ->
  apart (sl_sa out) (sl_sa a) -> apart (sl_sa out) (sl_sa b) -> lasts m -> small (Z.of_nat (weight cs)) ->
  exists m' out', strlist_diff m a b out =
      Some (Z.of_nat (length (gather (missing bs) [] cs)), m', out') /\
    becomes m out (gather (missing bs) [] cs) false m' out'.
Proof.
  intros Hca Hcb Ho Hw Ha Hb Hm Hs. unfold strlist_diff.
  pose proof (zero_ok _ _ _ (sr_rep _ _ _ _ Ho)) as Hz.
  match goal with |- context [strlist_foreach a ?f m ?s] =>
    destruct (gather_ok a cs t (missing bs) f (fun m sa => (srep m a cs t /\ apart sa (sl_sa a)) /\
      srep m b bs u /\ apart sa (sl_sa b)))
      with (m := m) (out := strlist_zero out) (outs := @nil (list Z)) (k := 0) as (m' & o' & -> & Hbc) end; try done.
  - intros m1 sa m2 sa2 He [[H1 Ha1] [H2 Ha2]].
    destruct (rep_other _ _ _ _ _ _ He Ha1 (sr_rep _ _ _ _ H1)).
    destruct (rep_other _ _ _ _ _ _ He Ha2 (sr_rep _ _ _ _ H2)).
    split; (split; [|done]); (split; [done|]); [apply H1|apply H2].
  - by intros m1 sa [H1 _].
  - intros m1 o1 k outs c z p [_ [H2 _]] Hout ->. cbn [mbind option_bind].
    rewrite (containsb_ok m1 b bs u c z H2). cbn [mbind option_bind].
    unfold missing. by destruct (bool_decide (c ∈ bs)).
  - split; [apply Hz|constructor].
  - cbn [mbind option_bind]. rewrite Z.add_0_l, Nat.sub_0_r. exists m', o'. split; [done|].
    destruct Hbc as (E & He & Hm'). split; [done|]. split; [|done]. eapply edits_trans; [exact Hz|exact He].
Qed.

Lemma filter_ok (m : mem) (l out : strlist) (cs xs : list (list Z)) (t : bool)
    (fn : list Z -> nat -> bool) (pred : list Z -> bool) :
  srep m l cs t -> srep m out xs false -> Forall (word (sl_sep out)) cs ->
  apart (sl_sa out) (sl_sa l) -> (forall c z, fn (c ++ z) (length c) = pred c) -> lasts m ->
  small (Z.of_nat (weight xs + weight cs)) ->
  exists m' out', strlist_filter m l fn out =
      Some (Z.of_nat (length (gather (fun _ => pred) xs cs) - length xs), m', out') /\
    becomes m out (gather (fun _ => pred) xs cs) false m' out'.
Proof.
  intros Hl Ho Hw Ha Hp Hm Hs. unfold strlist_filter.
  match goal with |- context [strlist_foreach l ?f m ?s] =>
    destruct (gather_ok l cs t (fun _ => pred) f (fun m sa => srep m l cs t /\ apart sa (sl_sa l)))
      with (m := m) (out := out) (outs := xs) (k := 0) as (m' & o' & -> & Hb) end; try done.
  - intros m1 sa m2 sa2 He [H1 Ha1]. destruct (rep_other _ _ _ _ _ _ He Ha1 (sr_rep _ _ _ _ H1)).
    split; [|done]. by split; [|apply H1].
  - intros m1 o1 k outs c z p _ _ ->. cbn [mbind option_bind]. by rewrite Hp.
  - cbn [mbind option_bind]. rewrite Z.add_0_l. by exists m', o'.
Qed.

(** ** Sorting *)

Lemma lex_opp (x y : list Z) : lex y x = CompOpp (lex x y).
Proof.
  revert y. induction x as [|c x IH]; intros [|d y]; cbn [lex]; try done.
  rewrite (Z.compare_antisym c d). destruct (c ?= d); cbn; [apply IH|done..].
Qed.

Definition le (x y : list Z) : Prop := lex x y <> Gt.

Lemma str_diff_lex (x y z w : list Z) : nonul x -> nonul y ->
  exists v, str_diff (cstr x ++ z) (cstr y ++ w) = Some v /\ (v ?= 0) = lex x y.
Proof.
  unfold cstr. intros Hx. revert y. induction Hx as [|c x Hc _ IH]; intros y Hy;
    destruct Hy as [|d y Hd Hy]; cbn [app str_diff lex].
  - by exists 0.
  - exists (0 - d). replace (negb (0 - d =? 0)) with true by lia. split; [done|]. rewrite Z.compare_lt_iff. lia.
  - exists (c - 0). replace (negb (c - 0 =? 0)) with true by lia. split; [done|]. rewrite Z.compare_gt_iff. lia.
  - replace (d =? 0) with false by lia. apply diff_step, IH, Hy.
Qed.

Section sorting.
Context {A : Type} (cmp : A -> A -> option Z) (R : A -> list Z -> Prop).
Hypothesis cmp_lex : forall p q x y, R p x -> R q y -> exists v, cmp p q = Some v /\ (v ?= 0) = lex x y.

Lemma list_place_ok (p : A) (x : list Z) (ps : list A) (xs : list (list Z)) :
  R p x -> Forall2 R ps xs -> Sorted le xs ->
  exists ps' xs', place cmp p ps = Some ps' /\ Forall2 R ps' xs' /\ xs' ≡ₚ x :: xs /\ Sorted le xs' /\
    (forall y, le y x -> HdRel le y xs -> HdRel le y xs').
Proof.
  intros Hp. induction 1 as [|q y ps xs Hq H IH]; intros Hs; cbn [place].
  - exists [p], [x]. split; [done|]. split; [by repeat constructor|]. split; [done|].
    split; [by repeat constructor|]. by constructor.
  - destruct (cmp_lex p q x y Hp Hq) as (v & -> & Hv). cbn [mbind option_bind].
    destruct (Z.leb_spec v 0) as [Hle|Hlt].
    + exists (p :: q :: ps), (x :: y :: xs). split; [done|]. split; [by repeat constructor|].
      split; [done|]. split; [|by constructor]. constructor; [done|]. constructor.
      unfold le. rewrite <- Hv. rewrite Z.compare_gt_iff. lia.
    + apply Sorted_inv in Hs as [Hs Hhd]. destruct (IH Hs) as (ps' & xs' & -> & H' & Hperm & Hs' & Hhd').
      cbn [mbind option_bind]. exists (q :: ps'), (y :: xs'). split; [done|]. split; [by constructor|].
      split; [by rewrite Hperm; constructor|]. split.
      * constructor; [done|]. apply Hhd'; [|done]. unfold le. rewrite lex_opp, <- Hv.
        replace (v ?= 0) with Gt by (symmetry; by apply Z.compare_gt_iff). done.
      * intros w _ Hw. constructor. by inversion Hw.
Qed.

Lemma qsort_ok (ps : list A) (xs : list (list Z)) :
  Forall2 R ps xs ->
  exists ps' xs', qsort cmp ps = Some ps' /\ Forall2 R ps' xs' /\ xs' ≡ₚ xs /\ Sorted le xs'.
Proof.
  induction 1 as [|p x ps xs Hp _ IH]; cbn [qsort]; [by exists [], []|].
  destruct IH as (ps1 & xs1 & -> & H1 & Hp1 & Hs1). cbn [mbind option_bind].
  destruct (list_place_ok p x ps1 xs1 Hp H1 Hs1) as (ps2 & xs2 & -> & H2 & Hp2 & Hs2 & _).
  exists ps2, xs2. split; [done|]. split; [done|]. split; [by rewrite Hp2, Hp1|done].
Qed.
End sorting.

(** The items as strings of their own, from [p] on. *)
Fixpoint offsets (cs : list (list Z)) (p : nat) : list nat :=
  match cs with [] => [] | c :: cs => p :: offsets cs (p + length c + 1) end.

Lemma cut_loop_ok (sep : Z) (t : bool) (len : nat) (cs : list (list Z)) :
  Forall (word sep) cs -> cs <> [] -> forall pre z acc fuel,
  len = (length pre + length (text sep cs t))%nat -> (length cs < fuel)%nat -> (t = false -> z <> []) ->
  exists z', cut_loop (pre ++ text sep cs t ++ z) len sep (length pre) acc fuel =
    Some (pre ++ concat (map cstr cs) ++ z', acc ++ offsets cs (length pre)) /\
    length (concat (map cstr cs) ++ z') = length (text sep cs t ++ z).
Proof.
  induction 1 as [|c cs Hc Hcs IH]; intros Hne pre z acc [|fuel] Hlen Hf Hz; try done; [simpl in Hf; lia|].
  assert (here sep (pre ++ text sep (c :: cs) t ++ z) len (length pre) (c :: cs) t) as Hh.
  { split; [done|]. exists z. by rewrite drop_app_length. }
  destruct (here_item sep _ len (length pre) c cs t Hc Hh) as (Hp & E & _ & _ & Hle & _).
  cbn [cut_loop]. replace (length pre <? len)%nat with true by lia. rewrite E. cbn [mbind option_bind].
  rewrite text_cons in *. set (r := match cs with [] => _ | _ => _ end) in *.
  assert (exists y r', r ++ z = y :: r' /\ match cs with [] => True | _ => r' = text sep cs t ++ z end)
    as (y & r' & Er & Hr').
  { subst r. destruct cs as [|d cs]; [|by eexists _, _].
    destruct t; [by eexists _, _|]. destruct z as [|y z]; [by specialize (Hz eq_refl)|]. by eexists _, _. }
  assert (store (pre ++ (c ++ r) ++ z) (length pre + length c) 0 = Some (pre ++ c ++ 0 :: r')) as ->.
  { rewrite <- app_assoc, Er, store_Some by (rewrite !length_app; cbn [length]; lia).
    rewrite insert_app_r_alt by lia. replace (length pre + length c - length pre)%nat with (length c) by lia.
    rewrite insert_app_r_alt by lia. by rewrite Nat.sub_diag. }
  cbn [mbind option_bind map concat offsets].
  replace (pre ++ c ++ 0 :: r') with ((pre ++ cstr c) ++ r')
    by (unfold cstr; by rewrite <- !app_assoc).
  replace (length pre + length c + 1)%nat with (length (pre ++ cstr c))
    by (unfold cstr; rewrite !length_app; cbn [length]; lia).
  destruct cs as [|d cs].
  - subst r. exists r'. destruct fuel as [|fuel]; [simpl in Hf; lia|]. cbn [cut_loop].
    replace (_ <? len)%nat with false
      by (symmetry; apply Nat.ltb_ge; unfold cstr; rewrite Hlen, !length_app; destruct t; cbn [length]; lia).
    split; [by cbn [map concat offsets]; rewrite <- app_assoc, app_nil_r|].
    rewrite <- (app_assoc c), Er. unfold cstr. cbn [map concat]. rewrite !length_app. cbn [length]. lia.
  - subst r' r. destruct (IH ltac:(done) (pre ++ cstr c) z (acc ++ [length pre]) fuel) as (z' & -> & Hl);
      [unfold cstr; rewrite Hlen, !length_app; cbn [length]; lia|simpl in *; lia|done|].
    exists z'. split; [by rewrite <- !app_assoc|]. rewrite <- (app_assoc (cstr c)), length_app, Hl.
    unfold cstr. rewrite !length_app. cbn [length]. lia.
Qed.

Lemma offsets_read (x z' : list Z) (cs : list (list Z)) (pre : list Z) :
  x = pre ++ concat (map cstr cs) ++ z' ->
  Forall2 (fun p c => exists z, drop p x = cstr c ++ z) (offsets cs (length pre)) cs.
Proof.
  revert pre. induction cs as [|c cs IH]; intros pre E; cbn [offsets map concat] in *; constructor.
  - exists (concat (map cstr cs) ++ z'). rewrite E, drop_app_length. by rewrite <- app_assoc.
  - replace (length pre + length c + 1)%nat with (length (pre ++ cstr c))
      by (unfold cstr; rewrite !length_app; cbn [length]; lia).
    apply IH. by rewrite E, <- !app_assoc.
Qed.

Lemma offsets_length (cs : list (list Z)) (p : nat) : length (offsets cs p) = length cs.
Proof. revert p. induction cs as [|c cs IH]; intros p; cbn [offsets length]; [done|]. by rewrite IH. Qed.

Lemma push_ptrs_ok (b : nat) (sep : Z) (ps : list nat) (xs : list (list Z)) :
  Forall (word sep) xs -> Forall nonul xs -> forall m l cs, sl_sep l = sep -> srep m l cs false ->
  Forall2 (fun p c => reads m (sl_sa l) (Blk b p) (cstr c)) ps xs -> lasts m ->
  small (Z.of_nat (weight (cs ++ xs))) ->
  exists m' l', push_ptrs m l b ps = Some (m', l') /\ becomes m l (cs ++ xs) false m' l'.
Proof.
  intros Hw Hn. revert ps. induction Hw as [|x xs Hx Hw IH]; intros ps m l cs E Hl H Hm Hs.
  - inversion H; subst. exists m, l. rewrite app_nil_r. split; [done|]. split; [done|]. split; [|done].
    apply edits_refl, (sr_rep _ _ _ _ Hl).
  - inversion H as [|p ? ps' ? Hp Hps]; subst. apply list.Forall_cons in Hn as [Hnx Hn]. cbn [push_ptrs].
    rewrite cons_middle, app_assoc in *.
    destruct (list_push_ok m l cs false x (Blk b p) Hl (proj1 Hx) Hnx Hp Hm) as (m1 & l1 & -> & Hb1).
    { apply (small_text _ _ _ O). rewrite weight_app in Hs. unfold small in *. lia. }
    cbn [mbind option_bind]. pose proof Hb1 as (E1 & He1 & Hm1).
    destruct (IH Hn ps' m1 l1 (cs ++ [x]) E1) as (m2 & l2 & -> & Hb2); try done.
    + eapply becomes_srep; [exact Hb1|]. apply Forall_app. split; [apply Hl|by apply list.Forall_singleton].
    + eapply list.Forall2_impl; [exact Hps|]. intros p' c Hr. by eapply reads_evolves; [apply He1|].
    + exists m2, l2. split; [done|]. by eapply becomes_trans.
Qed.

Lemma rep_drop (m : mem) (sa : stralloc) (xs : list Z) (b : nat) :
  rep m sa xs -> sa_s sa <> Some b -> rep (drop_block m b) sa xs.
Proof.
  intros [Hw Hl Hb] Hne. split; [|done|].
  - eapply mwf_sub; [exact Hw| |done]. cbn. rewrite dom_delete. set_solver.
  - destruct (sa_s sa) as [c|]; [|done]. destruct Hb as (l & Hb & H). exists l. split; [|done].
    cbn. rewrite lookup_delete_ne; [done|congruence].
Qed.

Lemma count_ok (m : mem) (l : strlist) (cs : list (list Z)) (t : bool) :
  srep m l cs t -> strlist_count m l = Some (Z.of_nat (length cs)).
Proof.
  intros H. destruct (here_start _ _ _ _ H) as (x & Hx & Hh & Ht & Hlen). unfold strlist_count.
  rewrite (srep_len _ _ _ _ H). destruct cs as [|c cs]; [done|].
  pose proof (text_nonempty (sl_sep l) (c :: cs) t (sr_words _ _ _ _ H) ltac:(done)). unfold zlen.
  replace (_ =? 0) with false by lia. rewrite Hx. cbn [mbind option_bind].
  pose proof (text_length (sl_sep l) (c :: cs) t (sr_words _ _ _ _ H)).
  pose proof (count_loop_ok (sl_len l) (sl_sep l) t (c :: cs) (sr_words _ _ _ _ H) x 0 1 (S (sl_len l))
    ltac:(done) Hh ltac:(lia)) as E.
  rewrite drop_0, Nat.sub_0_r in E. rewrite E. f_equal. lia.
Qed.

(** The items that are cut out of the block [b] are pushed to a new list; the
    block and the array of pointers [q] are freed. *)
Lemma rebuild_ok (m : mem) (x : list Z) (b q : nat) (sep : Z) (ps : list nat) (cs : list (list Z)) :
  mwf m -> blocks m !! b = Some x -> is_Some (blocks m !! q) -> b <> q ->
  Forall2 (fun p c => exists z, drop p x = cstr c ++ z) ps cs ->
  Forall (word sep) cs -> Forall nonul cs -> lasts m -> small (Z.of_nat (weight cs)) ->
  exists m' l', ('(m, l) ← push_ptrs m (SL stralloc_init sep) b ps;
      m ← free m (Some b); m ← free m (Some q); Some (Z.of_nat (length ps), m, l)) =
    Some (Z.of_nat (length cs), m', l') /\ sl_sep l' = sep /\ srep m' l' cs false /\ lasts m' /\
    rest m' (sa_s (sl_sa l')) = delete q (delete b (blocks m)).
Proof.
  intros Hwf Hb [y Hq] Hne HR Hw Hn Hm Hs.
  destruct (push_ptrs_ok b sep ps cs Hw Hn m (SL stralloc_init sep) []) as (m1 & l1 & -> & Hb1); try done.
  - eapply list.Forall2_impl; [exact HR|]. intros p c [z Hz]. split; [|done]. exists (drop p x).
    cbn. rewrite Hb. split; [done|]. by rewrite Hz, take_app_length.
  - pose proof Hb1 as (E1 & [[Hwf1 Hrest Hblk _] Hrep] & Hm1). cbn [sl_sa sl_sep app] in *.
    change (rest m (sa_s stralloc_init)) with (blocks m) in Hrest.
    assert (forall c l, blocks m !! c = Some l ->
      blocks m1 !! c = Some l /\ sa_s (sl_sa l1) <> Some c) as Hkeep.
    { intros c l Hc. assert (sa_s (sl_sa l1) <> Some c) as Hs1
        by (destruct Hblk as [->|(d & -> & Hd)]; [done|congruence]). split; [|done].
      rewrite <- Hrest in Hc. destruct (sa_s (sl_sa l1)) as [d|]; [|done]. cbn in Hc.
      by rewrite lookup_delete_ne in Hc by congruence. }
    destruct (Hkeep b x Hb) as [Hb' Hsb]. destruct (Hkeep q y Hq) as [Hq' Hsq].
    cbn [mbind option_bind free]. rewrite Hb'. cbn [mbind option_bind]. cbn [drop_block blocks].
    rewrite lookup_delete_ne, Hq' by done. cbn [mbind option_bind].
    exists (drop_block (drop_block m1 b) q), l1. rewrite (list.Forall2_length _ _ _ HR). split; [done|].
    split; [done|]. split; [split; rewrite E1; [by do 2 (apply rep_drop; [|done])|done]|]. split; [done|].
    rewrite <- Hrest. destruct (sa_s (sl_sa l1)) as [d|]; cbn; [|done].
    by rewrite (delete_delete _ d q), (delete_delete _ d b).
Qed.

Lemma Forall2_and_r {A B : Type} (P : B -> Prop) (R : A -> B -> Prop) (xs : list A) (ys : list B) :
  Forall P ys -> Forall2 R xs ys -> Forall2 (fun x y => P y /\ R x y) xs ys.
Proof. intros H. induction 1; [constructor|]. apply list.Forall_cons in H as [? ?]. constructor; auto. Qed.

Lemma weight_perm (cs ds : list (list Z)) : cs ≡ₚ ds -> weight cs = weight ds.
Proof. induction 1; cbn [weight]; lia. Qed.

Lemma sort_ok (m : mem) (l : strlist) (cs : list (list Z)) (t : bool) :
  srep m l cs t -> Forall nonul cs -> lasts m -> small (Z.of_nat (weight cs + 1)) ->
  exists m' l' ds u, strlist_sort m l = Some (Z.of_nat (length cs), m', l') /\
    ds ≡ₚ cs /\ Sorted le ds /\ sl_sep l' = sl_sep l /\ srep m' l' ds u /\
    rest m' (sa_s (sl_sa l')) = rest m (sa_s (sl_sa l)).
Proof.
  intros Hl Hn Hm Hs. pose proof (text_weight (sl_sep l) cs t) as Htw. unfold strlist_sort.
  destruct (readyplus_ok m (sl_sa l) _ 1 (sr_rep _ _ _ _ Hl)) as (ok & m1 & sa & -> & He & Hr & Hlen & Hroom & Hno);
    [unfold small in *; lia|lia|].
  destruct ok; [|by destruct Hm; auto]. clear Hno. destruct (Hroom eq_refl) as [Ha [b Eb]]. clear Hroom.
  assert (srep m1 (SL sa (sl_sep l)) cs t) as Hl1 by (split; [exact Hr|apply Hl]).
  unfold on_sa. cbn [mbind option_bind]. rewrite (count_ok _ _ _ _ Hl1). cbn [mbind option_bind].
  pose proof (lasts_evolves _ _ _ _ He Hm) as Hm1. destruct (Z.leb_spec (Z.of_nat (length cs)) 1) as [Hc|Hc].
  - exists m1, (SL sa (sl_sep l)), cs, t. split; [done|]. split; [done|]. split; [|split; [done|split; [done|apply He]]].
    destruct cs as [|c [|d cs]]; [constructor|by repeat constructor|cbn [length] in Hc; lia].
  - destruct (malloc_ok m1 (8 * Z.of_nat (length cs)) (rep_wf _ _ _ Hr)) as
      [(q & m2 & y & -> & [Hw2 Hr2 Hq2 Ha2] & Hq & _)|(m2 & -> & [Hf _])]; [|by destruct Hm1].
    cbn [mbind option_bind sl_sa sl_sep]. rewrite Eb. cbn [mbind option_bind].
    pose proof (rep_block _ _ _ Hr) as Hx. rewrite Eb in Hx. destruct Hx as (x & Hb & Hlx & _ & Htx).
    assert (b <> q) as Hne by congruence.
    assert (blocks m2 !! b = Some x) as Hb2.
    { change (rest m1 None) with (blocks m1) in Hr2. rewrite <- Hr2 in Hb. cbn in Hb.
      by rewrite lookup_delete_ne in Hb by done. }
    rewrite Hb2. cbn [mbind option_bind].
    set (xs := text (sl_sep l) cs t) in *. assert (cs <> []) as Hcs by (by destruct cs).
    assert (sl_len (SL sa (sl_sep l)) = length xs) as Hsl
      by (unfold sl_len; cbn [sl_sa]; rewrite (rep_len _ _ _ Hr); apply Nat2Z.id).
    assert (drop (length xs) x <> []) as Hz.
    { intros E. apply (f_equal length) in E. rewrite length_drop in E. simpl in E.
      rewrite (rep_len _ _ _ Hr) in *. lia. }
    destruct (cut_loop_ok (sl_sep l) t (length xs) cs (sr_words _ _ _ _ Hl) Hcs [] (drop (length xs) x) []
      (S (length xs)) ltac:(done)) as (z' & E & _);
      [pose proof (text_length (sl_sep l) cs t (sr_words _ _ _ _ Hl)); subst xs; lia|done|].
    fold xs in E. rewrite <- Htx in E at 1. rewrite !app_nil_l, take_drop in E. cbn [length] in E.
    rewrite Hsl, E. cbn [mbind option_bind]. set (x' := concat (map cstr cs) ++ z') in *.
    rewrite offsets_length. replace (_ <? _) with false by lia.
    pose proof (offsets_read x' z' cs [] eq_refl) as HR. cbn [length] in HR.
    destruct (qsort_ok (fun p q => str_diff (drop p x') (drop q x'))
      (fun p c => nonul c /\ exists z, drop p x' = cstr c ++ z)) with (ps := offsets cs 0) (xs := cs)
      as (ps & ds & -> & HR' & Hperm & Hsorted).
    + intros p p' c d [Hc1 [z1 ->]] [Hd1 [z2 ->]]. by apply str_diff_lex.
    + by apply Forall2_and_r.
    + cbn [mbind option_bind].
      destruct (rebuild_ok (put m2 b x') x' b q (sl_sep l) ps ds) as (m' & l' & E' & Es & Hl' & _ & Hrest).
      * apply mwf_put; [done|by rewrite Hb2].
      * cbn. apply lookup_insert_eq.
      * cbn. rewrite lookup_insert_ne by done. by rewrite Hq.
      * done.
      * eapply list.Forall2_impl; [exact HR'|]. by intros p c [_ ?].
      * rewrite Hperm. apply Hl.
      * by rewrite Hperm.
      * intros Hf. apply Hm1, Ha2, Hf.
      * rewrite (weight_perm _ _ Hperm). unfold small in *. lia.
      * rewrite E', (Permutation_length Hperm). exists m', l', ds, false. do 5 (split; [done|]).
        rewrite Hrest, <- (ev_rest _ _ _ _ He), Eb. cbn.
        rewrite delete_insert_eq. rewrite (delete_delete _ q b).
        change (delete q (blocks m2)) with (rest m2 (Some q)). by rewrite Hr2.
Qed.

(** ** Splitting and joining *)

Lemma list_join_ok (m : mem) (l : strlist) (sa : stralloc) (cs : list (list Z)) (t : bool) (ys : list Z)
    (delim : Z) :
  srep m l cs t -> rep m sa ys -> apart sa (sl_sa l) -> lasts m ->
  small (Z.of_nat (length ys + weight cs)) ->
  exists m' sa', strlist_join m l sa delim = Some (m', sa') /\
    edits m sa (ys ++ text delim cs false) m' sa' /\ lasts m'.
Proof.
  intros Hl Hr Ha Hm Hs. unfold strlist_join.
  set (I := fun (m' : mem) '((sa', i) : stralloc * nat) (ds : list (list Z)) =>
    edits m sa (ys ++ text delim ds false) m' sa' /\ srep m' l cs t /\ apart sa' (sl_sa l) /\
    i = length ds /\ lasts m').
  match goal with |- context [strlist_foreach l ?f m _] =>
    destruct (foreach_items l f I cs t m (sa, O)) as (m' & [sa' i] & -> & He & _ & _ & _ & Hm') end.
  - by intros m1 [sa1 i1] ds (_ & H & _).
  - intros m1 [sa1 i1] ds c es E (He & Hl1 & Ha1 & -> & Hm1). rewrite E, weight_app in Hs. cbn [weight] in Hs.
    pose proof (text_weight delim ds true) as Hw. unfold small in Hs.
    assert (exists m2 sa2, (if (0 <? length ds)%nat then stralloc_catc m1 sa1 delim else Some (true, m1, sa1)) =
      Some (true, m2, sa2) /\ edits m1 sa1 (ys ++ before delim ds) m2 sa2 /\ lasts m2) as (m2 & sa2 & -> & He2 & Hm2).
    { destruct ds as [|d ds]; [exists m1, sa1; split; [done|split; [apply edits_refl, He|done]]|].
      change (0 <? length (d :: ds))%nat with true. unfold before in *. rewrite text_open, app_assoc in * by done.
      eapply yields_now; [done|]. apply catc_ok; [apply He|].
      rewrite !length_app in *. cbn [length] in Hw. unfold small. lia. }
    cbn [mbind option_bind].
    destruct (rep_other _ _ _ _ _ _ (proj1 He2) Ha1 (sr_rep _ _ _ _ Hl1)) as [Hr2 Ha2].
    assert (c <> []) as Hc.
    { pose proof (sr_words _ _ _ _ Hl1) as Hcs. rewrite E in Hcs.
      apply Forall_app in Hcs as [_ [[Hc _] _]%list.Forall_cons]. done. }
    pose proof Hr2 as Hr2'. rewrite E in Hr2'.
    destruct (reads_item m2 sa2 l ds es c t Hr2' Hc Ha2) as [Hrd _].
    destruct (yields_now _ _ _ _ _ Hm2 (catb_ok m2 sa2 _ c _ _ (proj2 He2) Hrd eq_refl
      ltac:(unfold small, before in *; rewrite !length_app; destruct ds; cbn [length] in *; lia)))
      as (m3 & sa3 & -> & He3 & Hm3).
    cbn [mbind option_bind]. eexists m3, (sa3, _). split; [done|]. unfold I.
    destruct (rep_other _ _ _ _ _ _ (proj1 He3) Ha2 Hr2) as [Hr3 Ha3].
    split; [|split; [by split; [|apply Hl]|split; [done|split; [rewrite length_app; cbn; lia|done]]]].
    rewrite text_snoc. unfold before in He3. rewrite <- app_assoc in He3.
    eapply edits_trans; [|exact He3]. eapply edits_trans; [exact He|exact He2].
  - unfold I. rewrite app_nil_r. split; [by apply edits_refl|done].
  - cbn [mbind option_bind]. by exists m', sa'.
Qed.

Lemma resep_loop_ok (from to : Z) (ys : list Z) (pre z : list Z) :
  resep_loop (pre ++ ys ++ z) from to (length pre) (length ys) =
    Some (pre ++ map (fun c => if c =? from then to else c) ys ++ z).
Proof.
  revert pre. induction ys as [|y ys IH]; intros pre; cbn [length resep_loop map app]; [done|].
  unfold load. rewrite list_lookup_middle by done. cbn [mbind option_bind].
  pose proof (IH (pre ++ [if y =? from then to else y])) as E.
  rewrite <- !app_assoc, length_app, Nat.add_1_r in E. cbn [app] in E. rewrite <- E.
  destruct (y =? from); [|done]. rewrite store_Some by (rewrite length_app; cbn [length]; lia).
  rewrite insert_app_r_alt by done. by rewrite Nat.sub_diag.
Qed.

Lemma resep_text (from to : Z) (cs : list (list Z)) :
  Forall (word from) cs ->
  map (fun c => if c =? from then to else c) (text from cs false) = text to cs false.
Proof.
  induction 1 as [|c cs [_ Hc] _ IH]; [done|]. rewrite !text_cons, map_app. f_equal.
  - clear -Hc. induction c as [|x c IH]; [done|]. apply not_elem_of_cons in Hc as [Hx Hc]. cbn [map].
    replace (x =? from) with false by lia. by rewrite IH.
  - destruct cs; [done|]. cbn [map]. by rewrite IH, Z.eqb_refl.
Qed.

Lemma text_sep_length (a b : Z) (cs : list (list Z)) (t : bool) :
  length (text a cs t) = length (text b cs t).
Proof.
  induction cs as [|c cs IH]; [done|]. rewrite !text_cons, !length_app. f_equal.
  destruct cs; [by destruct t|]. cbn [length]. by rewrite IH.
Qed.

Lemma resep_ok (m : mem) (l : strlist) (from : Z) (cs : list (list Z)) :
  rep m (sl_sa l) (text from cs false) -> Forall (word from) cs -> lasts m ->
  exists m', resep m l from 0 = Some m' /\
    edits m (sl_sa l) (text (sl_sep l) cs false) m' (sl_sa l) /\ lasts m'.
Proof.
  intros H Hw Hm. unfold resep.
  assert (sl_len l = length (text from cs false)) as Hlen
    by (unfold sl_len; by rewrite (rep_len _ _ _ H), Nat2Z.id).
  destruct (Nat.ltb_spec 0 (sl_len l)) as [Hpos|Hpos].
  - destruct (sa_s (sl_sa l)) as [b|] eqn:Es.
    2:{ pose proof (rep_block _ _ _ H) as E. rewrite Es in E. rewrite E in Hlen. simpl in Hlen. lia. }
    destruct (rep_room _ _ _ _ H Es) as (x & Hb & _ & Ht & Hle). cbn [mbind option_bind]. unfold on_block.
    rewrite Hb. cbn [mbind option_bind]. rewrite Nat.sub_0_r, Hlen.
    pose proof (resep_loop_ok from (sl_sep l) (text from cs false) [] (drop (length (text from cs false)) x)) as E.
    rewrite <- Ht in E at 1. rewrite !app_nil_l, take_drop in E. cbn [length] in E. rewrite E.
    cbn [mbind option_bind]. rewrite resep_text by done. eexists. split; [done|]. split; [|exact Hm].
    split; [by eapply evolves_put; [apply H|..]|].
    replace (sl_sa l) with (SA (Some b) (Z.of_nat (length (text (sl_sep l) cs false))) (sa_a (sl_sa l))).
    + eapply rep_put; [exact H|done|done| |apply take_app_length].
      rewrite length_app, length_drop, (text_sep_length (sl_sep l) from). lia.
    + rewrite (text_sep_length (sl_sep l) from), <- (rep_len _ _ _ H), <- Es. by destruct (sl_sa l).
  - exists m. split; [done|]. split; [|done]. destruct cs as [|c cs]; [by apply edits_refl|].
    pose proof (text_nonempty from (c :: cs) false Hw ltac:(done)). lia.
Qed.

(** [strlist_froms] on an empty list. *)
Lemma froms_ok (m : mem) (l : strlist) (delim : Z) (cs : list (list Z)) (z : list Z) :
  srep m l [] false -> Forall (word (sl_sep l)) cs -> Forall (word delim) cs ->
  nonul (text delim cs false) -> lasts m -> small (Z.of_nat (weight cs + 1)) ->
  exists m' l', strlist_froms m l (Some (Const (cstr (text delim cs false) ++ z))) delim = Some (m', l') /\
    becomes m l cs (match cs with [] => false | _ => true end) m' l'.
Proof.
  intros Hl Hws Hwd Hn Hm Hs. unfold strlist_froms. rewrite (srep_len _ _ _ _ Hl).
  pose proof (text_weight delim cs false) as Htw. unfold small in Hs.
  change (separate m l (negb (zlen (text (sl_sep l) [] false) =? 0))) with (Some (m, l)). cbn [mbind option_bind].
  destruct (yields_now _ _ _ _ _ Hm (cats_ok m (sl_sa l) [] _ z (sr_rep _ _ _ _ Hl) Hn
    ltac:(unfold small; cbn [length]; lia))) as (m1 & sa1 & E & He1 & Hm1).
  unfold on_sa. rewrite E. cbn [mbind option_bind]. cbn [app] in He1.
  destruct (resep_ok m1 (SL sa1 (sl_sep l)) delim cs (proj2 He1) Hwd Hm1) as (m2 & -> & He2 & Hm2).
  cbn [mbind option_bind sl_sa sl_sep] in *.
  assert (srep m2 (SL sa1 (sl_sep l)) cs false) as Hl2 by (split; [apply He2|done]).
  rewrite (ends_open_ok _ _ _ _ Hl2). cbn [mbind option_bind].
  destruct (separated_ok _ _ _ _ Hl2 Hm2) as (m3 & l3 & -> & Es & He3 & Hm3).
  - cbn [sl_sep]. unfold small, zlen. rewrite (text_sep_length (sl_sep l) delim). lia.
  - exists m3, l3. split; [done|]. split; [done|]. split; [|done].
    eapply edits_trans; [exact He1|]. by eapply edits_trans; [exact He2|].
Qed.

(** ** What the spec of the sets says *)

Lemma strike_multiset (cs : list (list Z)) (t : bool) (c : list Z) :
  list_to_set_disj (fst (strike (cs, t) c)) =@{gmultiset (list Z)} list_to_set_disj cs ∖ {[+ c +]}.
Proof.
  destruct (decide (c ∈ cs)) as [Hc|Hc].
  - destruct (strike_in cs t c Hc) as (ds & es & -> & _ & ->). cbn [fst].
    rewrite !list_to_set_disj_app, list_to_set_disj_cons. multiset_solver.
  - rewrite strike_out by done. cbn [fst].
    assert (c ∉ list_to_set_disj (C:=gmultiset (list Z)) cs) by (by rewrite elem_of_list_to_set_disj).
    multiset_solver.
Qed.

Lemma strikes_multiset (cs ds : list (list Z)) (t : bool) :
  list_to_set_disj (fst (foldl strike (cs, t) ds)) =@{gmultiset (list Z)}
    list_to_set_disj cs ∖ list_to_set_disj ds.
Proof.
  revert cs t. induction ds as [|d ds IH]; intros cs t; cbn [foldl].
  - cbn. multiset_solver.
  - rewrite (surjective_pairing (strike (cs, t) d)), IH, strike_multiset, list_to_set_disj_cons.
    multiset_solver.
Qed.

Lemma gather_filter (p : list Z -> bool) (xs cs : list (list Z)) :
  gather (fun _ => p) xs cs = xs ++ filter (fun c => p c = true) cs.
Proof.
  induction cs as [|c cs IH] using rev_ind; [by rewrite app_nil_r|].
  rewrite gather_snoc, IH, list.filter_app, filter_cons, filter_nil.
  destruct (p c) eqn:E; case_decide; try congruence; by rewrite ?app_nil_r, ?app_assoc.
Qed.

Lemma Forall_kept {A : Type} (P Q : A -> Prop) `{!forall x, Decision (Q x)} (l : list A) :
  Forall P l -> Forall P (filter Q l).
Proof. rewrite !list.Forall_forall. intros HP x Hx. apply list_elem_of_filter in Hx as [_ Hx]. by apply HP. Qed.

Lemma gather_fresh (cs ds : list (list Z)) (x : list Z) :
  x ∈ gather fresh cs ds <-> x ∈ cs \/ x ∈ ds.
Proof.
  induction ds as [|d ds IH] using rev_ind; [cbn; set_solver|].
  rewrite gather_snoc. unfold fresh at 1. case_bool_decide; set_solver.
Qed.

Lemma gather_nodup (cs ds : list (list Z)) : NoDup cs -> NoDup (gather fresh cs ds).
Proof.
  intros H. induction ds as [|d ds IH] using rev_ind; [done|].
  rewrite gather_snoc. unfold fresh at 1. case_bool_decide as Hd; [done|]. cbn [negb].
  apply list.NoDup_app. split; [done|]. split; [|apply NoDup_singleton]. set_solver.
Qed.

Lemma gather_prefix keep (cs ds : list (list Z)) : cs `prefix_of` gather keep cs ds.
Proof.
  induction ds as [|d ds IH] using rev_ind; [done|]. rewrite gather_snoc.
  destruct (keep _ d); [|done]. by apply prefix_app_r.
Qed.

(** ** Items by number *)

Lemma at_n_ok (m : mem) (l : strlist) (cs : list (list Z)) (t : bool) (i : nat) :
  srep m l cs t -> strlist_at_n m l i =
    Some (match cs !! i with Some c => (offset_at cs i 0, length c) | None => (None, O) end).
Proof.
  intros H. destruct (here_start _ _ _ _ H) as (x & Hx & Hh & _ & _). unfold strlist_at_n.
  rewrite Hx. cbn [mbind option_bind]. destruct (cs !! i) as [c|] eqn:Ei.
  - destruct (offset_at_Some cs i 0) as [o Ho]; [by apply lookup_lt_is_Some|].
    pose proof (at_loop_ok x (sl_len l) (sl_sep l) t cs (sr_words _ _ _ _ H) 0 0 i 0 Hh) as E.
    rewrite Nat.sub_0_r, !Nat.add_0_r, Ho in E. cbn [Nat.add] in E. rewrite E by done. cbn [mbind option_bind].
    pose proof (here_at x _ _ t cs (sr_words _ _ _ _ H) 0 i o Hh Ho) as Hi.
    rewrite (drop_S _ _ _ Ei) in Hi.
    assert (word (sl_sep l) c) as Hc
      by (pose proof (sr_words _ _ _ _ H) as Hw; rewrite list.Forall_lookup in Hw; by apply (Hw i)).
    destruct (here_item _ x _ _ _ _ t Hc Hi) as (_ & -> & _). by rewrite Ho.
  - apply lookup_ge_None in Ei.
    pose proof (at_loop_none x (sl_len l) (sl_sep l) t cs (sr_words _ _ _ _ H) 0 0 i Hh Ei) as E.
    rewrite Nat.sub_0_r in E. cbn [Nat.add] in E. by rewrite E.
Qed.

Lemma at_ok (m : mem) (l : strlist) (cs : list (list Z)) (t : bool) (i : nat) (c : list Z) :
  srep m l cs t -> cs !! i = Some c ->
  exists p x z, strlist_at m l i = Some (Some p) /\ offset_at cs i 0 = Some p /\
    sl_view m l = Some x /\ drop p x = c ++ z.
Proof.
  intros H Hi. destruct (here_start _ _ _ _ H) as (x & Hx & Hh & _ & Hlen).
  pose proof (sr_words _ _ _ _ H) as Hw.
  destruct (offset_at_Some cs i 0) as [o Ho]; [by apply lookup_lt_is_Some|].
  pose proof (at_loop_ok x (sl_len l) (sl_sep l) t cs Hw 0 0 i 1 Hh) as E.
  rewrite Nat.sub_0_r, Ho, Nat.add_1_r in E. cbn [Nat.add] in E.
  pose proof (here_at x _ _ t cs Hw 0 i o Hh Ho) as Hhi. rewrite (drop_S _ _ _ Hi) in Hhi.
  assert (word (sl_sep l) c) as Hc by (rewrite list.Forall_lookup in Hw; by apply (Hw i)).
  destruct (here_item _ x _ _ _ _ t Hc Hhi) as (_ & _ & [z Hz] & _).
  exists o, x, z. split; [|done]. unfold strlist_at. destruct (sa_s (sl_sa l)) as [b|] eqn:Es.
  - rewrite Hx. cbn [mbind option_bind]. by apply E.
  - pose proof (rep_block _ _ _ (sr_rep _ _ _ _ H)) as Hb. rewrite Es in Hb.
    destruct cs as [|d cs]; [done|].
    pose proof (text_nonempty (sl_sep l) (d :: cs) t Hw ltac:(done)) as Hpos. rewrite Hb in Hpos.
    simpl in Hpos. lia.
Qed.

Lemma offset_of_find (w : list Z) (cs : list (list Z)) (p : nat) :
  match list_find (eq w) cs with
  | Some (i, _) => exists o, offset_at cs i p = Some o /\ offset_of w cs p = Z.of_nat o
  | None => offset_of w cs p = -1
  end.
Proof.
  revert p. induction cs as [|c cs IH]; intros p; cbn [list_find offset_of]; [done|].
  destruct (decide (w = c)) as [->|Hne]; [rewrite decide_True by done; by exists p|].
  rewrite decide_False by congruence. specialize (IH (p + length c + 1)%nat).
  destruct (list_find (eq w) cs) as [[i c']|]; [|done]. cbn [fmap option_fmap option_map prod_map]. exact IH.
Qed.

(** * Theorems *)

Ltac words := repeat (apply list.Forall_cons; split); try apply list.Forall_nil; try exact I;
  repeat split; try discriminate; try (by apply (bool_decide_unpack _); vm_compute); try nonul_lit.

(** C6: as long as no request for memory is refused, the operations that add,
    remove and drop items act on a list of items the way the specification says,
    answers and all, for any sequence of them whose steps the specification
    allows and whose items are not empty and free of the separator: the text
    that is left is that of the items with one separator between them, and one
    behind them when the flag says so; nothing else in memory has changed.  The
    specification does not allow [strlist_pushb] behind a separator (which would
    make an empty item) nor [strlist_pop] on a text without a separator; when a request
    is refused, [strlist_pushb] and [strlist_push] answer 1 all the same and the
    item is missing ([push_refused]). *)
Theorem strlist_refines_sequence (os : list list_op) (m : mem) (l : strlist) (cs ds : list (list Z))
    (t u : bool) (rs : list Z) :
  srep m l cs t -> Forall (op_valid (sl_sep l)) os -> lasts m ->
  small (Z.of_nat (weight cs + op_weight os)) -> spec_lists os cs t = Some (rs, ds, u) ->
  exists m' l', run_lists m l os = Some (rs, m', l') /\
    rep m' (sl_sa l') (text (sl_sep l) ds u) /\ sl_sep l' = sl_sep l /\
    rest m' (sa_s (sl_sa l')) = rest m (sa_s (sl_sa l)).
Proof.
  intros H Hv Hm Hs Hspec. destruct (run_lists_ok os m l cs ds t u rs H Hv Hm Hs Hspec) as (m' & l' & -> & Hb).
  exists m', l'. destruct Hb as (Es & [He Hr] & _). split; [done|]. split; [done|]. split; [done|apply He].
Qed.

Lemma empty_list (sep : Z) : srep mem0 (strlist_init sep) [] false.
Proof. split; [apply rep_init, mem0_wf|constructor]. Qed.

Lemma strlist_refines_sequence_witness :
  exists m' l', run_lists mem0 (strlist_init 58)
      [PushB (lit "usr"); Push (lit "lib"); PushUnique (lit "usr"); Prepend (lit "bin"); Remove (lit "lib"); Pop] =
      Some ([1; 1; 0; 1; 1; 1], m', l') /\
    rep m' (sl_sa l') (lit "bin:usr") /\ sl_sep l' = 58 /\ rest m' (sa_s (sl_sa l')) = ∅.
Proof.
  apply (strlist_refines_sequence _ mem0 (strlist_init 58) [] [lit "bin"; lit "usr"] false false).
  - apply empty_list.
  - words.
  - exact mem0_lasts.
  - unfold small. cbn. lia.
  - reflexivity.
Defined.

(** Looking up: [strlist_count] is the number of items; [strlist_at] and
    [strlist_at_n] give the place and the length of every item, and
    [strlist_at_n] tells when there is none; [strlist_containsb] decides
    membership, and [strlist_indexofb] gives the place of the first equal item,
    or -1. *)
Theorem strlist_lookup_correct (m : mem) (l : strlist) (cs : list (list Z)) (t : bool) :
  srep m l cs t ->
  strlist_count m l = Some (Z.of_nat (length cs)) /\
  (forall i c, cs !! i = Some c -> exists p x z,
     strlist_at m l i = Some (Some p) /\ strlist_at_n m l i = Some (Some p, length c) /\
     sl_view m l = Some x /\ drop p x = c ++ z) /\
  (forall i, cs !! i = None -> strlist_at_n m l i = Some (None, O)) /\
  (forall w z, strlist_containsb m l (w ++ z) (length w) = Some (bool_decide (w ∈ cs))) /\
  (forall w z, match list_find (eq w) cs with
   | Some (i, _) => exists p, strlist_at m l i = Some (Some p) /\
       strlist_indexofb m l (w ++ z) (length w) = Some (Z.of_nat p)
   | None => strlist_indexofb m l (w ++ z) (length w) = Some (-1)
   end).
Proof.
  intros H. split; [by eapply count_ok|]. split; [|split; [|split]].
  - intros i c Hi. destruct (at_ok m l cs t i c H Hi) as (p & x & z & Hp & Ho & Hx & Hz).
    exists p, x, z. rewrite (at_n_ok m l cs t i H), Hi, Ho. done.
  - intros i Hi. by rewrite (at_n_ok m l cs t i H), Hi.
  - intros w z. by eapply containsb_ok.
  - intros w z. rewrite (indexofb_ok m l cs t w z H). pose proof (offset_of_find w cs 0) as Hf.
    destruct (list_find (eq w) cs) as [[i c]|] eqn:Ef; [|by rewrite Hf].
    destruct Hf as (o & Ho & ->). apply list_find_Some in Ef as (Hi & _ & _).
    destruct (at_ok m l cs t i c H Hi) as (p & x & z' & Hp & Ho' & _). exists p. split; [done|]. congruence.
Qed.

(** The list [a:bc:a]. *)
Definition abc_mem : mem := Mem [] {[0%nat := lit "a:bc:a" ++ [165; 165]]} 1 (fun _ => 165).
Definition abc : strlist := SL (SA (Some O) 6 8) 58.

Lemma abc_list : srep abc_mem abc [lit "a"; lit "bc"; lit "a"] false.
Proof.
  split; [|words]. split; [|done|by eexists].
  intros b Hb. apply elem_of_dom in Hb as [x Hb]. unfold abc_mem in Hb. cbn [blocks] in Hb.
  apply lookup_singleton_Some in Hb as [<- _]. cbn. lia.
Qed.

Lemma strlist_lookup_correct_witness :
  strlist_count abc_mem abc = Some 3 /\ strlist_at_n abc_mem abc 3 = Some (None, O) /\
  strlist_containsb abc_mem abc (lit "bc") 2 = Some true.
Proof.
  destruct (strlist_lookup_correct abc_mem abc [lit "a"; lit "bc"; lit "a"] false abc_list)
    as (H1 & _ & H3 & H4 & _).
  split; [exact H1|]. split; [by apply H3|]. exact (H4 (lit "bc") []).
Defined.

(** [strlist_cat_unique] pushes, and [strlist_sub] removes, the items of
    another list: after the first the list starts with what it had, holds
    exactly the items of both, and no item twice when it held none twice; after
    the second it is the difference as a multiset. *)
Theorem strlist_multiset_correct (m : mem) (l o : strlist) (cs ds : list (list Z)) (u : bool) :
  srep m l cs false -> srep m o ds u -> Forall (word (sl_sep l)) ds -> apart (sl_sa l) (sl_sa o) ->
  lasts m -> small (Z.of_nat (weight cs + weight ds)) ->
  (exists m' l' es, strlist_cat_unique m l o = Some (Z.of_nat (length es - length cs), m', l') /\
     srep m' l' es false /\ cs `prefix_of` es /\ (forall c, c ∈ es <-> c ∈ cs \/ c ∈ ds) /\
     (NoDup cs -> NoDup es)) /\
  (exists m' l' r es v, strlist_sub m l o = Some (r, m', l') /\ srep m' l' es v /\
     list_to_set_disj es =@{gmultiset (list Z)} list_to_set_disj cs ∖ list_to_set_disj ds).
Proof.
  intros Hl Ho Hw Ha Hm Hs. split.
  - destruct (cat_unique_ok m l o cs ds u Hl Ho Hw Ha Hm Hs) as (m' & l' & E & Hb).
    exists m', l', (gather fresh cs ds). split; [exact E|]. split; [|split; [apply gather_prefix|]].
    + eapply becomes_srep; [exact Hb|]. apply gather_words; [apply Hl|done].
    + split; [apply gather_fresh|apply gather_nodup].
  - destruct (sub_ok m l o cs ds false u Hl Ho Ha Hm) as (m' & l' & r & E & Hb); [unfold small in *; lia|].
    eexists m', l', r, _, _. split; [exact E|]. split; [|apply strikes_multiset].
    eapply becomes_srep; [exact Hb|]. apply strikes_words. apply Hl.
Qed.

Lemma strlist_multiset_correct_witness :
  exists m' l' r es v, strlist_sub abc_mem abc (strlist_init 44) = Some (r, m', l') /\
    srep m' l' es v /\
    list_to_set_disj es =@{gmultiset (list Z)} list_to_set_disj [lit "a"; lit "bc"; lit "a"] ∖ ∅.
Proof.
  apply (strlist_multiset_correct abc_mem abc (strlist_init 44) [lit "a"; lit "bc"; lit "a"] [] false).
  - apply abc_list.
  - split; [apply rep_init, abc_list|constructor].
  - constructor.
  - by left.
  - exact mem0_lasts.
  - unfold small. cbn. lia.
Defined.

(** [strlist_diff] leaves the items of the first list that are not in the
    second, in order, and [strlist_filter] pushes those the predicate accepts;
    both answer how many that are. *)
Theorem strlist_select_correct (m : mem) (a b out : strlist) (cs bs xs : list (list Z)) (t u : bool)
    (fn : list Z -> nat -> bool) (pred : list Z -> bool) :
  srep m a cs t -> srep m b bs u -> srep m out xs false -> Forall (word (sl_sep out)) cs ->
  apart (sl_sa out) (sl_sa a) -> apart (sl_sa out) (sl_sa b) ->
  (forall c z, fn (c ++ z) (length c) = pred c) -> lasts m ->
  small (Z.of_nat (weight xs + weight cs)) ->
  (exists m' out', let es := filter (.∉ bs) cs in
     strlist_diff m a b out = Some (Z.of_nat (length es), m', out') /\ srep m' out' es false) /\
  (exists m' out', let es := filter (fun c => pred c = true) cs in
     strlist_filter m a fn out = Some (Z.of_nat (length es), m', out') /\ srep m' out' (xs ++ es) false).
Proof.
  intros Hca Hcb Ho Hw Ha Hb Hp Hm Hs. split.
  - destruct (diff_ok m a b out cs bs xs t u false Hca Hcb Ho Hw Ha Hb Hm) as (m' & out' & E & Hbc);
      [unfold small in *; lia|].
    assert (gather (missing bs) [] cs = filter (.∉ bs) cs) as Eg.
    { change (missing bs) with (fun _ : list (list Z) => fun c => negb (bool_decide (c ∈ bs))).
      rewrite gather_filter. cbn [app]. apply list_filter_iff. intros c. case_bool_decide; naive_solver. }
    rewrite Eg in *. exists m', out'. split; [done|]. eapply becomes_srep; [exact Hbc|]. by apply Forall_kept.
  - destruct (filter_ok m a out cs xs t fn pred Hca Ho Hw Ha Hp Hm Hs) as (m' & out' & E & Hbc).
    rewrite gather_filter, length_app in E. rewrite gather_filter in Hbc.
    replace (length xs + _ - length xs)%nat with (length (filter (fun c => pred c = true) cs)) in E by lia.
    exists m', out'. split; [done|]. eapply becomes_srep; [exact Hbc|].
    apply Forall_app. split; [apply Ho|by apply Forall_kept].
Qed.

Lemma strlist_select_correct_witness :
  exists m' out', strlist_filter abc_mem abc (fun x n => (n =? 1)%nat) (strlist_init 44) = Some (2, m', out') /\
    srep m' out' [lit "a"; lit "a"] false.
Proof.
  apply (strlist_select_correct abc_mem abc (strlist_init 58) (strlist_init 44) [lit "a"; lit "bc"; lit "a"] []
    [] false false (fun x n => (n =? 1)%nat) (fun c => (length c =? 1)%nat)).
  - apply abc_list.
  - split; [apply rep_init, abc_list|constructor].
  - split; [apply rep_init, abc_list|constructor].
  - words.
  - by right.
  - by left.
  - done.
  - exact mem0_lasts.
  - unfold small. cbn. lia.
Defined.

(** C17: for a list of items that are not empty and hold neither the separator
    nor a zero byte, and as long as no request for memory is refused,
    [strlist_sort] answers the number of items and leaves a list of the same
    items in the order of [str_diff], with the separator the list had; what it
    allocates and the block the list was in are freed.  The comparison the
    caller gives has no part in it. *)
Theorem strlist_sort_correct (m : mem) (l : strlist) (cs : list (list Z)) (t : bool) :
  srep m l cs t -> Forall nonul cs -> lasts m -> small (Z.of_nat (weight cs + 1)) ->
  exists m' l' ds u, strlist_sort m l = Some (Z.of_nat (length cs), m', l') /\
    ds ≡ₚ cs /\ Sorted le ds /\ sl_sep l' = sl_sep l /\ srep m' l' ds u /\
    rest m' (sa_s (sl_sa l')) = rest m (sa_s (sl_sa l)).
Proof. apply sort_ok. Qed.

Lemma strlist_sort_correct_witness :
  exists m' l' ds u, strlist_sort abc_mem abc = Some (3, m', l') /\
    ds ≡ₚ [lit "a"; lit "bc"; lit "a"] /\ Sorted le ds /\ sl_sep l' = 58 /\ srep m' l' ds u /\
    rest m' (sa_s (sl_sa l')) = ∅.
Proof.
  apply (strlist_sort_correct abc_mem abc [lit "a"; lit "bc"; lit "a"] false).
  - apply abc_list.
  - words.
  - exact mem0_lasts.
  - unfold small. cbn. lia.
Defined.



(** ** Where the code does something else *)

(** The text of a list. *)
Definition content (m : mem) (l : strlist) : option (list Z) := take (sl_len l) <$> sl_view m l.

(** [strlist_push_tokens] passes the delimiter even when there is none, and with
    it the terminator. *)
Lemma push_tokens_overrun : strlist_push_tokens mem0 (strlist_init 0) (cstr (lit "a,b")) (cstr (lit ",")) = None.
Proof. by vm_compute. Qed.

(** [strlist_pushb] answers 1 when its request for memory is refused. *)
Lemma push_refused :
  ('(r, _, l) ← strlist_pushb (Mem [false] ∅ 0 (fun _ => 165)) (strlist_init 58) (Const (lit "usr")) 3;
   Some (r, sa_len (sl_sa l), sa_s (sl_sa l))) = Some (1, 0, None).
Proof. vm_compute. reflexivity. Qed.

(** [strlist_pop] looks for a separator in front of the only item. *)
Lemma pop_single :
  ('(_, m, l) ← strlist_pushb mem0 (strlist_init 58) (Const (lit "a")) 1; _ ← strlist_pop m l; Some tt) = None.
Proof. by vm_compute. Qed.

(** [strlist_shift] takes the place of the second item, and there is none. *)
Lemma shift_single :
  ('(_, m, l) ← strlist_pushb mem0 (strlist_init 58) (Const (lit "a")) 1; _ ← strlist_shift m l; Some tt) = None.
Proof. by vm_compute. Qed.

(** [strlist_remove_at] removes as many characters as the number of the item. *)
Lemma remove_at_number :
  ('(r, m, l) ← strlist_remove_at abc_mem abc 1; c ← content m l; Some (r, c)) = Some (1, lit "a:c:a").
Proof. by vm_compute. Qed.

(** [strlist_pos] searches the first item again and again. *)
Lemma pos_first_item : strlist_pos abc_mem abc 2 = Some 4 /\ strlist_at abc_mem abc 2 = Some (Some 5%nat).
Proof. by vm_compute. Qed.

(** [strlist_prependb] puts a separator behind the item in an empty list, and
    [strlist_pushb] one more: a loop over the items stops at the first. *)
Lemma prepend_empty :
  ('(_, m, l) ← strlist_prependb mem0 (strlist_init 58) (Const (lit "a")) 1;
   '(_, m, l) ← strlist_pushb m l (Const (lit "b")) 1;
   c ← content m l; '(m, sa) ← strlist_join m l stralloc_init 44; j ← sa_view m sa;
   Some (c, take (Z.to_nat (sa_len sa)) j)) = Some (lit "a::b", lit "a").
Proof. by vm_compute. Qed.
