(* ===== verification/HashSet.v ===== *)
(** The hash sets of [lib/set/]: byte strings in a table of buckets, each the
    first of a chain of overflow buckets.  The table doubles when it fills up;
    an element goes where its hash says, computed with a mask when it is added
    and with a remainder when it is looked up.  Memory is counted (Heap.v).
    [None] is undefined behaviour or an [assert] that fails; a refused request
    is always such an [assert]. *)
From S2P Require Import Prelude ByteOps StrOps Memory Stralloc Buffer Heap.

(** * Data *)

(** A bucket that holds a value; [size] is the length of the value. *)
Record bucket_t : Type := Bucket { b_value : list Z; b_hash : Z }.

(** A slot of the table is the chain that starts there.  The first bucket is
    embedded in the table and free when its [value] is [NULL] (then it has no
    [next] either: [[]]); the others are blocks of their own. *)
Abbreviation chain := (list bucket_t).

(** A hash function reads the bytes of the value. *)
Record set_t : Type := SetT {
  set_entries : Z;
  set_overflow : Z;
  set_len : Z;
  set_hash_fp : option (list Z -> Z);
  set_array : option (list chain)
}.

Record set_iterator_t : Type := SetIter {
  it_index : nat;
  it_current : option (nat * nat)
}.

(** A value argument is an object and the number of bytes that count. *)
Definition object (val : list Z) (size : nat) : option (list Z) :=
  if (size <=? length val)%nat then Some (take size val) else None.

(** * Operations *)

Fixpoint hashfunc_loop (key : list Z) (hash : Z) : Z :=
  match key with
  | [] => hash
  | c :: key => hashfunc_loop key (u32 (u32 (u32 (Z.shiftl hash 5) + hash) + c))
  end.

Definition set_hashfunc (x : list Z) : Z := hashfunc_loop x 5381.

Definition set_init (hash_fp : option (list Z -> Z)) (h : heap) : option (set_t * heap) :=
  let '(ok, h) := request h in
  if (ok : bool) then
    Some (SetT 0 0 1024 (Some (default set_hashfunc hash_fp)) (Some (replicate 1024 [])), h)
  else None.

Definition set_hash (s : set_t) (v : list Z) : option Z :=
  f ← set_hash_fp s; Some (f v).

Definition set_size (s : set_t) : Z := set_entries s.

(** The first bucket of a chain with the value, [size == b->size && b->hash ==
    hash && memcmp(...) == 0]. *)
Fixpoint find_in_chain (c : chain) (v : list Z) (hash : Z) : option nat :=
  match c with
  | [] => None
  | b :: c =>
      if (length v =? length (b_value b))%nat && (b_hash b =? hash)
         && bool_decide (b_value b = v)
      then Some O
      else S <$> find_in_chain c v hash
  end.

(** [hash % set->len]. *)
Definition slot_of (s : set_t) (hash : Z) : option (nat * chain) :=
  if set_len s =? 0 then None else
  let i := Z.to_nat (hash mod set_len s) in
  a ← set_array s; c ← a !! i; Some (i, c).

Definition set_has (s : set_t) (val : list Z) (size : nat) : option Z :=
  v ← object val size;
  hash ← set_hash s v;
  '(_, c) ← slot_of s hash;
  Some (c_bool (bool_decide (is_Some (find_in_chain c v hash)))).

(** The blocks the buckets of a chain hold: each its value, all but the first
    themselves. *)
Definition chain_blocks (c : chain) : Z := Z.of_nat (length c + (length c - 1)).
Definition releases (n : Z) (h : heap) : heap := Heap (answers h) (live h - n).

Definition set_free_array (s : set_t) (h : heap) : heap :=
  match set_array s with
  | None => h
  | Some a => releases (foldr (fun c n => chain_blocks c + n) 1 a) h
  end.

Definition set_free (s : set_t) (h : heap) : heap := set_free_array s h.

(** Values are released only when there are overflow buckets. *)
Definition set_clear (s : set_t) (h : heap) : set_t * heap :=
  let h := if set_overflow s =? 0 then h else
    match set_array s with
    | None => h
    | Some a => releases (foldr (fun c n => chain_blocks c + n) 0 a) h
    end in
  (SetT 0 0 (set_len s) (set_hash_fp s) (map (fun _ => []) <$> set_array s), h).

(** ** Adding *)

Definition zeroed (s : set_t) : bool :=
  (set_entries s =? 0) && (set_len s =? 0) && bool_decide (set_array s = None)
  && match set_hash_fp s with None => true | Some _ => false end.

(** [malloc] for the value, and for the bucket when the slot is taken. *)
Definition append_bucket (s : set_t) (b : bucket_t) (h : heap) : option (set_t * heap) :=
  let i := Z.to_nat (Z.land (b_hash b) (u32 (set_len s - 1))) in
  a ← set_array s;
  c ← a !! i;
  let a := <[i := c ++ [b]]> a in
  let '(ok, h) := request h in
  if negb ok then None else
  match c with
  | [] => Some (SetT (u32 (set_entries s + 1)) (set_overflow s) (set_len s)
            (set_hash_fp s) (Some a), h)
  | _ =>
      let '(ok, h) := request h in
      if negb ok then None else
      Some (SetT (u32 (set_entries s + 1)) (u32 (set_overflow s + 1)) (set_len s)
              (set_hash_fp s) (Some a), h)
  end.

(** The values of the old table are added to a table of twice the size. *)
Definition set_realloc (add : set_t -> list Z -> nat -> heap -> option (Z * set_t * heap))
    (s : set_t) (h : heap) : option (set_t * heap) :=
  let len := u32 (set_len s * 2) in
  let '(ok, h) := request h in
  if negb ok then None else
  a ← set_array s;
  '(new_set, h) ← foldl (fun r b =>
      '(new_set, h) ← r;
      '(_, new_set, h) ← add new_set (b_value b) (length (b_value b)) h;
      Some (new_set, h))
    (Some (SetT 0 0 len (set_hash_fp s) (Some (replicate (Z.to_nat len) [])), h)) (concat a);
  Some (new_set, set_free_array s h).

(** [set_realloc] adds to the new table, which may grow again: [fuel] bounds
    the nesting. *)
Fixpoint add_rec (fuel : nat) (s : set_t) (val : list Z) (size : nat) (h : heap)
    : option (Z * set_t * heap) :=
  match fuel with
  | O => None
  | S fuel =>
      '(s, h) ← (if zeroed s then set_init None h else Some (s, h));
      found ← set_has s val size;
      if negb (found =? 0) then Some (2, s, h) else
      '(s, h) ← (if 3 * set_len s <? 4 * u32 (set_entries s - set_overflow s)
                 then set_realloc (add_rec fuel) s h else Some (s, h));
      v ← object val size;
      hash ← set_hash s v;
      '(s, h) ← append_bucket s (Bucket v hash) h;
      Some (1, s, h)
  end.

(** The length doubles with every level and is a 32-bit number. *)
Definition set_add : set_t -> list Z -> nat -> heap -> option (Z * set_t * heap) :=
  add_rec 33.

Definition set_adds (s : set_t) (str : list Z) (h : heap) : option (Z * set_t * heap) :=
  n ← str_len str; set_add s str n h.

Definition set_addsa (m : mem) (s : set_t) (sa : stralloc) (h : heap)
    : option (Z * set_t * heap) :=
  l ← sa_view m sa; set_add s l (Z.to_nat (sa_len sa)) h.

Definition set_has_sa (m : mem) (s : set_t) (sa : stralloc) : option Z :=
  l ← sa_view m sa; set_has s l (Z.to_nat (sa_len sa)).

(** ** Removing *)

(** [set_find] gives the address of the pointer to the bucket found: the
    [next] field of its predecessor.  For the first bucket of a slot it is the
    address of a variable of [set_find] itself, which is gone, and for a value
    that is not there [NULL]; [set_delete] reads through all of them. *)
Definition set_find (s : set_t) (val : list Z) (size : nat) : option (nat * option nat) :=
  v ← object val size;
  hash ← set_hash s v;
  '(i, c) ← slot_of s hash;
  Some (i, find_in_chain c v hash).

Definition set_delete (s : set_t) (val : list Z) (size : nat) (h : heap)
    : option (Z * set_t * heap) :=
  '(i, found) ← set_find s val size;
  match found with
  | None | Some O => None
  | Some (S j) =>
      a ← set_array s;
      Some (1, SetT (set_entries s) (set_overflow s) (set_len s) (set_hash_fp s)
                 (Some (alter (fun c => take (S j) c ++ drop (S (S j)) c) i a)),
            release h)
  end.

(** ** Iterators *)

(** The first slot that is not empty, from [index] on. *)
Fixpoint next_slot (a : list chain) (index : nat) : option nat :=
  match a with
  | [] => None
  | [] :: a => next_slot a (S index)
  | (_ :: _) :: a => Some index
  end.

Definition set_iterator_init (s : set_t) : Z * set_iterator_t :=
  match set_array s with
  | None => (0, SetIter 0 None)
  | Some a =>
      match next_slot a 0 with
      | None => (0, SetIter 0 None)
      | Some i => (1, SetIter i (Some (i, 0%nat)))
      end
  end.

Definition deref_it (s : set_t) (p : nat * nat) : option bucket_t :=
  a ← set_array s; c ← a !! p.1; c !! p.2.

Definition set_iterator_value (s : set_t) (it : set_iterator_t) : option (option (list Z)) :=
  match it_current it with
  | None => Some None
  | Some p => b ← deref_it s p; Some (Some (b_value b))
  end.

Definition set_iterator_next (s : set_t) (it : set_iterator_t) : option (Z * set_iterator_t) :=
  match it_current it with
  | None => Some (0, it)
  | Some (i, j) =>
      a ← set_array s;
      c ← a !! i;
      _ ← c !! j;
      match c !! S j with
      | Some _ => Some (1, SetIter (it_index it) (Some (i, S j)))
      | None =>
          let index := S (it_index it) in
          Some (match next_slot (drop index a) index with
                | None => (3, SetIter (it_index it) None)
                | Some i => (1, SetIter i (Some (i, 0%nat)))
                end)
      end
  end.

(** From the current bucket on, in its chain only. *)
Fixpoint iterator_find_loop (c : chain) (x : list Z) (j : nat) : option nat :=
  match c with
  | [] => None
  | b :: c =>
      if (length x =? length (b_value b))%nat && bool_decide (b_value b = x) then Some j
      else iterator_find_loop c x (S j)
  end.

Definition set_iterator_find (s : set_t) (it : set_iterator_t) (x : list Z) (n : nat)
    : option (Z * set_iterator_t) :=
  match it_current it with
  | None => Some (0, it)
  | Some (i, j) =>
      v ← object x n;
      a ← set_array s;
      c ← a !! i;
      let r := iterator_find_loop (drop j c) v j in
      Some (c_bool (bool_decide (is_Some r)), SetIter (it_index it) (pair i <$> r))
  end.

Definition set_iterator_erase (it : set_iterator_t) : Z :=
  c_bool (bool_decide (is_Some (it_current it))).

(** [set_foreach]: the body gets a value and the state, and says whether to go
    on. *)
Fixpoint foreach_loop {U : Type} (s : set_t) (f : list Z -> U -> option (bool * U))
    (it : set_iterator_t) (u : U) (fuel : nat) : option U :=
  match fuel with
  | O => None
  | S fuel =>
      x ← set_iterator_value s it;
      match x with
      | None => Some u
      | Some x =>
          '(go_on, u) ← f x u;
          if (go_on : bool) then
            '(_, it) ← set_iterator_next s it; foreach_loop s f it u fuel
          else Some u
      end
  end.

(** One turn per bucket and one to see the end. *)
Definition buckets (s : set_t) : nat := length (concat (default [] (set_array s))).

Definition set_foreach {U : Type} (s : set_t) (f : list Z -> U -> option (bool * U)) (u : U)
    : option U :=
  foreach_loop s f (snd (set_iterator_init s)) u (S (buckets s)).

(** ** Operations on whole sets *)

Definition set_at_n (s : set_t) (pos : nat) : option (option (list Z)) :=
  snd <$> set_foreach s (fun x '(i, _) =>
    Some (if (i =? pos)%nat then (false, (i, Some x)) else (true, (S i, None)))) (O, None).

Definition set_at (s : set_t) (pos : nat) : option (option (list Z)) := set_at_n s pos.

(** An element of the array [set_toarray] returns. *)
Inductive cell : Type := Junk | Null | Value (v : list Z).

Fixpoint toarray_loop (array : list cell) (i : nat) (bs : chain) : option (list cell) :=
  match bs with
  | [] => Some array
  | b :: bs =>
      if (i <? length array)%nat then toarray_loop (<[i := Value (b_value b)]> array) (S i) bs
      else None
  end.

Definition set_toarray (s : set_t) (h : heap) : option (list cell * heap) :=
  let '(ok, h) := request h in
  if negb ok then None else
  let n := Z.to_nat (set_entries s) in
  array ← toarray_loop (replicate (S n) Junk) 0 (concat (default [] (set_array s)));
  Some (<[n := Null]> array, h).

(** The result of a body that adds to another set. *)
Abbreviation added := (Z * set_t * heap)%type.

Definition add_if (test : set_t -> list Z -> option bool) (x : list Z) (u : added)
    : option (bool * added) :=
  let '(r, c, h) := u in
  t ← test c x;
  if (t : bool) then
    '(_, c, h) ← set_add c x (length x) h; Some (true, (r + 1, c, h))
  else Some (true, (r, c, h)).

Definition set_cat (s other : set_t) (h : heap) : option added :=
  set_foreach other (add_if (fun s x => (Z.eqb 0) <$> set_has s x (length x))) (0, s, h).

Definition set_sub (a b c : set_t) (h : heap) : option added :=
  set_foreach a (add_if (fun _ x => (Z.eqb 0) <$> set_has b x (length x))) (0, c, h).

Definition set_filter_magic (input out : set_t) (pred : list Z -> Z) (magic : Z) (h : heap)
    : option added :=
  set_foreach input (add_if (fun _ x => Some (magic =? pred x))) (0, out, h).

Definition set_filter (input out : set_t) (pred : list Z -> Z) (h : heap) : option added :=
  set_filter_magic input out pred 1 h.

Definition set_filter_out (input out : set_t) (pred : list Z -> Z) (h : heap) : option added :=
  set_filter_magic input out pred 0 h.

(** The bytes stored (when [dest]) and the length. *)
Definition fmt_set (dest : bool) (s : set_t) (separator : list Z) : option out :=
  slen ← str_len separator;
  '(_, o) ← set_foreach s (fun x '(i, (stored, pos)) =>
    let '(stored, pos) := if (0 <? i)%nat then (stored ++ take slen separator, (pos + slen)%nat)
                          else (stored, pos) in
    Some (true, (S i, (stored ++ x, (pos + length x)%nat)))) (O, ([], O));
  Some (if dest then o else ([], snd o)).

(** The result of [stralloc_readyplus] is not looked at. *)
Definition stralloc_catset (m : mem) (sa : stralloc) (s : set_t) (separator : list Z)
    : option (Z * mem * stralloc) :=
  '(_, n) ← fmt_set false s separator;
  '(_, m, sa) ← stralloc_readyplus m sa (Z.of_nat n);
  '(text, n) ← fmt_set true s separator;
  '(m, sa) ← sa_put m sa text (Z.of_nat n);
  Some (Z.of_nat n, m, sa).

(** [stralloc_catb(out, set_iterator_value(&it, &len), len)]: the language does
    not say which argument is evaluated first, and [len] gets its value from
    the first.  [in_order] is the choice of the compiler. *)
Definition set_join (in_order : bool) (m : mem) (s : set_t) (sep : list Z) (sa : stralloc)
    : option (mem * stralloc) :=
  '(_, m, sa) ← set_foreach s (fun x '(i, m, sa) =>
    if negb in_order then None else
    '(_, m, sa) ← (if (0 <? i)%nat then stralloc_cats m sa (Const sep) else Some (true, m, sa));
    '(_, m, sa) ← stralloc_catb m sa (Const x) (Z.of_nat (length x));
    Some (true, (S i, m, sa))) (O, m, sa);
  Some (m, sa).

(** [while(n > 0 && x[n - 1] == '\0') n--;] *)
Fixpoint trim_nul (x : list Z) (n : nat) : nat :=
  match n with
  | O => O
  | S n' => if bool_decide (x !! n' = Some 0) then trim_nul x n' else n
  end.

Definition buffer_putset {W : Type} `{Errno W, Writer W} (calls : nat) (w : W) (b : buffer)
    (s : set_t) (sep : list Z) : option (W * buffer) :=
  '(_, w, b) ← set_foreach s (fun x '(i, w, b) =>
    '(_, w, b) ← (if (0 <? i)%nat then buffer_put calls w b sep else Some (0, w, b));
    '(_, w, b) ← buffer_put calls w b (take (trim_nul x (length x)) x);
    Some (true, (S i, w, b))) (O, w, b);
  Some (w, b).

(** * Invariant *)

Definition elements (s : set_t) : list (list Z) :=
  b_value <$> concat (default [] (set_array s)).

Definition contents (s : set_t) : gset (list Z) := list_to_set (elements s).

(** The buckets behind the first of their slot. *)
Definition overflowing (a : list chain) : Z :=
  Z.of_nat (foldr (fun c n => (length c - 1 + n)%nat) O a).

(** A bucket is in the slot of its hash. *)
Definition placed (f : list Z -> Z) (len : Z) (i : nat) (b : bucket_t) : Prop :=
  b_hash b = f (b_value b) /\ Z.to_nat (b_hash b mod len) = i.

Record swf (f : list Z -> Z) (s : set_t) (a : list chain) : Prop := Swf {
  sw_fp : set_hash_fp s = Some f;
  sw_u32 : forall v, is_u32 (f v);
  sw_array : set_array s = Some a;
  sw_pow : exists k, 0 <= k <= 31 /\ set_len s = 2 ^ k;
  sw_length : Z.of_nat (length a) = set_len s;
  sw_placed : forall i c, a !! i = Some c -> Forall (placed f (set_len s) i) c;
  sw_nodup : NoDup (b_value <$> concat a);
  sw_entries : set_entries s = Z.of_nat (length (concat a));
  sw_overflow : set_overflow s = overflowing a
}.

(** The blocks a set holds. *)
Definition set_blocks (s : set_t) : Z := 1 + set_entries s + set_overflow s.

(** The bound under which the counters and the length stay 32-bit numbers. *)
Definition roomy (s : set_t) (n : Z) : Prop := set_entries s + n < 2 ^ 30.

(** * Lemmas *)

Lemma object_app (v j : list Z) : object (v ++ j) (length v) = Some v.
Proof.
  unfold object. rewrite length_app. replace (length v <=? length v + length j)%nat with true
    by (symmetry; apply Nat.leb_le; lia). by rewrite take_app_length.
Qed.

Lemma elements_eq (s : set_t) (a : list chain) :
  set_array s = Some a -> elements s = b_value <$> concat a.
Proof. intros H. unfold elements. by rewrite H. Qed.

Lemma elem_of_chains (a : list chain) (b : bucket_t) :
  b ∈ concat a <-> exists i c, a !! i = Some c /\ b ∈ c.
Proof.
  rewrite list_elem_of_In, in_concat. split.
  - intros (c & [i Hi]%list_elem_of_In%list_elem_of_lookup & Hb%list_elem_of_In). eauto.
  - intros (i & c & Hi%list_elem_of_lookup_2 & Hb). exists c.
    by rewrite <- !list_elem_of_In.
Qed.

Lemma concat_grow (a : list chain) (i : nat) (c : chain) (b : bucket_t) :
  a !! i = Some c -> concat (<[i:=c ++ [b]]> a) ≡ₚ b :: concat a.
Proof.
  revert i. induction a as [|c' a IH]; intros [|i] H; simplify_eq/=.
  - rewrite <- app_assoc. symmetry. apply Permutation_middle.
  - rewrite (IH i H). symmetry. apply Permutation_middle.
Qed.

Lemma overflowing_grow (a : list chain) (i : nat) (c : chain) (b : bucket_t) :
  a !! i = Some c ->
  overflowing (<[i:=c ++ [b]]> a) = overflowing a + (if decide (c = []) then 0 else 1).
Proof.
  unfold overflowing. revert i. induction a as [|c' a IH]; intros [|i] H; simplify_eq/=.
  - rewrite length_app. simpl. case_decide; subst; simpl; [lia|].
    destruct c; [done|]. simpl. lia.
  - specialize (IH i H). lia.
Qed.

(** The slots in use. *)
Lemma overflowing_le (a : list chain) :
  Z.of_nat (length (concat a)) - Z.of_nat (length a) <= overflowing a
    <= Z.of_nat (length (concat a)).
Proof.
  unfold overflowing. induction a as [|c a IH]; simpl; [lia|]. rewrite length_app. lia.
Qed.

Lemma blocks_sum (a : list chain) (z : Z) :
  foldr (fun c n => chain_blocks c + n) z a =
    z + Z.of_nat (length (concat a)) + overflowing a.
Proof.
  unfold overflowing, chain_blocks. induction a as [|c a IH]; simpl; [lia|].
  rewrite IH, length_app. lia.
Qed.

Lemma concat_empty (n : nat) : concat (replicate n ([] : chain)) = [].
Proof. by induction n. Qed.

Lemma overflowing_empty (n : nat) : overflowing (replicate n []) = 0.
Proof. unfold overflowing. induction n; simpl in *; lia. Qed.

(** An empty table. *)
Lemma fresh_ok (f : list Z -> Z) (k : Z) :
  (forall v, is_u32 (f v)) -> 0 <= k <= 31 ->
  swf f (SetT 0 0 (2 ^ k) (Some f) (Some (replicate (Z.to_nat (2 ^ k)) [])))
    (replicate (Z.to_nat (2 ^ k)) []).
Proof.
  intros Hf Hk. split; simpl; try done.
  - by exists k.
  - rewrite length_replicate. lia.
  - intros i c [-> _]%lookup_replicate. constructor.
  - rewrite concat_empty. constructor.
  - by rewrite concat_empty.
  - by rewrite overflowing_empty.
Qed.

Section with_set.
Context (f : list Z -> Z) (s : set_t) (a : list chain) (Hs : swf f s a).

Lemma len_range : 1 <= set_len s <= 2 ^ 31.
Proof.
  destruct (sw_pow _ _ _ Hs) as (k & Hk & ->).
  pose proof (Z.pow_pos_nonneg 2 k). split; [lia|]. apply Z.pow_le_mono_r; lia.
Qed.

(** The mask and the remainder agree. *)
Lemma mask_mod (h : Z) : Z.land h (u32 (set_len s - 1)) = h mod set_len s.
Proof.
  pose proof len_range. destruct (sw_pow _ _ _ Hs) as (k & Hk & Hl). rewrite Hl in *.
  rewrite u32_id by (unfold is_u32; lia). apply land_low; [lia|].
  rewrite Z.ones_equiv. lia.
Qed.

Lemma slot_index (h : Z) : exists c, a !! Z.to_nat (h mod set_len s) = Some c.
Proof.
  apply lookup_lt_is_Some. pose proof len_range. pose proof (sw_length _ _ _ Hs).
  pose proof (Z.mod_pos_bound h (set_len s)). lia.
Qed.

Lemma slot_ok (h : Z) : exists c, a !! Z.to_nat (h mod set_len s) = Some c /\
  slot_of s h = Some (Z.to_nat (h mod set_len s), c).
Proof.
  destruct (slot_index h) as [c Hc]. exists c. split; [done|]. unfold slot_of.
  pose proof len_range. replace (set_len s =? 0) with false by lia.
  rewrite (sw_array _ _ _ Hs). cbn [mbind option_bind]. by rewrite Hc.
Qed.

Lemma find_in_chain_spec (c : chain) (v : list Z) (i : nat) :
  Forall (placed f (set_len s) i) c ->
  (find_in_chain c v (f v) = None /\ v ∉ b_value <$> c) \/
  exists j b, find_in_chain c v (f v) = Some j /\ c !! j = Some b /\ b_value b = v.
Proof.
  induction 1 as [|b c [Hb _] _ IH]; simpl.
  - left. split; [done|]. apply not_elem_of_nil.
  - destruct (decide (b_value b = v)) as [<-|Hne].
    + right. exists O, b. rewrite Hb, Nat.eqb_refl, Z.eqb_refl, bool_decide_true by done.
      done.
    + rewrite (bool_decide_false (b_value b = v)), andb_false_r by done.
      destruct IH as [[-> Hn]|(j & b' & -> & ? & ?)].
      * left. split; [done|]. rewrite elem_of_cons. intros [->|]; done.
      * right. by exists (S j), b'.
Qed.

Lemma in_slot (v : list Z) (c : chain) :
  a !! Z.to_nat (f v mod set_len s) = Some c ->
  v ∈ elements s <-> v ∈ b_value <$> c.
Proof.
  intros Hc. rewrite (elements_eq _ _ (sw_array _ _ _ Hs)), !list_elem_of_fmap.
  setoid_rewrite elem_of_chains. split.
  - intros (b & -> & i & c' & Hc' & Hb). exists b. split; [done|].
    pose proof (sw_placed _ _ _ Hs i c' Hc') as Hp. rewrite list.Forall_forall in Hp.
    destruct (Hp b Hb) as [Hh Hi]. rewrite Hh in Hi. rewrite Hi in Hc. congruence.
  - intros (b & -> & Hb). eauto 6.
Qed.

Lemma set_has_ok (v j : list Z) :
  set_has s (v ++ j) (length v) = Some (c_bool (bool_decide (v ∈ elements s))).
Proof.
  unfold set_has, set_hash. rewrite object_app, (sw_fp _ _ _ Hs). cbn [mbind option_bind].
  destruct (slot_ok (f v)) as (c & Hc & ->). cbn [mbind option_bind]. do 2 f_equal.
  apply bool_decide_ext. rewrite (in_slot v c Hc).
  destruct (find_in_chain_spec c v _ (sw_placed _ _ _ Hs _ _ Hc)) as [[-> ?]|(i & b & -> & Hb & <-)].
  - split; [by intros [? ?]|done].
  - split; [|eauto]. intros _. apply list_elem_of_fmap. exists b. split; [done|].
    by eapply list_elem_of_lookup_2.
Qed.

Lemma used_le : 0 <= set_entries s - set_overflow s <= set_len s.
Proof.
  rewrite (sw_entries _ _ _ Hs), (sw_overflow _ _ _ Hs), <- (sw_length _ _ _ Hs).
  pose proof (overflowing_le a). lia.
Qed.

(** Appending a bucket for a new value. *)
Lemma append_bucket_ok (v : list Z) (h : heap) :
  v ∉ elements s -> roomy s 1 -> answers h = [] ->
  exists s' a' h', append_bucket s (Bucket v (f v)) h = Some (s', h') /\ swf f s' a' /\
    set_len s' = set_len s /\ elements s' ≡ₚ v :: elements s /\
    answers h' = [] /\ live h' - set_blocks s' = live h - set_blocks s.
Proof.
  intros Hv Hr Hh. unfold append_bucket. cbn [b_hash]. rewrite mask_mod.
  destruct (slot_index (f v)) as [c Hc]. set (i := Z.to_nat (f v mod set_len s)) in *.
  rewrite (sw_array _ _ _ Hs). cbn [mbind option_bind]. rewrite Hc. cbn [mbind option_bind].
  rewrite request_granted by done. cbn [negb].
  set (b := Bucket v (f v)). set (a' := <[i:=c ++ [b]]> a).
  pose proof (concat_grow a i c b Hc) as Hp. pose proof (overflowing_grow a i c b Hc) as Ho.
  fold a' in Hp, Ho. pose proof used_le as Hu.
  pose proof (sw_entries _ _ _ Hs) as He. pose proof (sw_overflow _ _ _ Hs) as Hov.
  unfold roomy in Hr.
  assert (set_overflow s + 1 < 2 ^ 32 /\ 0 <= set_overflow s) as Hb.
  { rewrite Hov. unfold overflowing. unfold overflowing in Hov. lia. }
  assert (forall e o, e = set_entries s + 1 -> o = overflowing a' ->
      swf f (SetT e o (set_len s) (set_hash_fp s) (Some a')) a') as Hwf.
  { intros e o -> ->. destruct Hs as [Hfp H32 Ha Hpow Hlen Hpl Hnd _ _].
    split; cbn [set_hash_fp set_array set_len set_entries set_overflow]; try done.
    - unfold a'. by rewrite length_insert.
    - intros k c' [(<- & <- & _)|[_ Hk]]%list_lookup_insert_Some; [|by apply Hpl].
      apply Forall_app. split; [by apply Hpl|]. by repeat constructor.
    - rewrite Hp. cbn [fmap list_fmap b_value b]. constructor; [|done].
      by rewrite <- (elements_eq s a).
    - rewrite Hp. simpl. lia. }
  assert (forall e o, elements (SetT e o (set_len s) (set_hash_fp s) (Some a')) ≡ₚ
      v :: elements s) as Hel.
  { intros e o. rewrite (elements_eq s a) by apply Hs. unfold elements. simpl. by rewrite Hp. }
  destruct c as [|b0 c].
  - rewrite decide_True in Ho by done. eexists _, a', _. split; [done|].
    split; [apply Hwf; [apply u32_id; unfold is_u32; lia|lia]|]. split; [done|].
    split; [apply Hel|]. split; [done|]. unfold set_blocks.
    cbn [set_entries set_overflow live]. rewrite u32_id by (unfold is_u32; lia). lia.
  - rewrite decide_False in Ho by done. rewrite request_granted by done. cbn [negb].
    eexists _, a', _. split; [done|].
    split; [apply Hwf; rewrite u32_id by (unfold is_u32; lia); lia|]. split; [done|].
    split; [apply Hel|]. split; [done|]. unfold set_blocks.
    cbn [set_entries set_overflow live]. rewrite !u32_id by (unfold is_u32; lia). lia.
Qed.

Lemma not_zeroed : zeroed s = false.
Proof.
  unfold zeroed. rewrite (sw_array _ _ _ Hs), bool_decide_false by done.
  by rewrite !andb_false_r.
Qed.

Lemma free_array_ok (h : heap) :
  set_free_array s h = Heap (answers h) (live h - set_blocks s).
Proof.
  unfold set_free_array, releases, set_blocks. rewrite (sw_array _ _ _ Hs), blocks_sum.
  rewrite (sw_entries _ _ _ Hs), (sw_overflow _ _ _ Hs). done.
Qed.

End with_set.

(** ** Adding *)

(** What adding a value gives. *)
Definition added_ok (f : list Z -> Z) (s : set_t) (v : list Z) (h : heap)
    (res : option (Z * set_t * heap)) : Prop :=
  exists s' a' h', res = Some (if bool_decide (v ∈ elements s) then 2 else 1, s', h') /\
    swf f s' a' /\ set_len s <= set_len s' /\
    elements s' ≡ₚ (if bool_decide (v ∈ elements s) then [] else [v]) ++ elements s /\
    answers h' = [] /\ live h' - set_blocks s' = live h - set_blocks s.

Lemma entries_elements (f : list Z -> Z) (s : set_t) (a : list chain) :
  swf f s a -> set_entries s = Z.of_nat (length (elements s)).
Proof.
  intros Hs. rewrite (elements_eq s a), length_fmap by apply Hs. apply Hs.
Qed.

(** The loop of [set_realloc]. *)
Lemma refill_ok (f : list Z -> Z) (add : set_t -> list Z -> nat -> heap -> option (Z * set_t * heap))
    (len : Z) (bs : chain) :
  (forall s a v h, swf f s a -> len <= set_len s -> roomy s 1 -> answers h = [] ->
     added_ok f s v h (add s v (length v) h)) ->
  forall s a h, swf f s a -> len <= set_len s ->
  NoDup ((b_value <$> bs) ++ elements s) -> roomy s (Z.of_nat (length bs)) -> answers h = [] ->
  exists s' a' h', foldl (fun r b =>
      '(new_set, h) ← r;
      '(_, new_set, h) ← add new_set (b_value b) (length (b_value b)) h;
      Some (new_set, h)) (Some (s, h)) bs = Some (s', h') /\
    swf f s' a' /\ set_len s <= set_len s' /\ elements s' ≡ₚ (b_value <$> bs) ++ elements s /\
    answers h' = [] /\ live h' - set_blocks s' = live h - set_blocks s.
Proof.
  intros Hadd. induction bs as [|b bs IH]; intros s a h Hs Hl Hnd Hr Hh.
  - by exists s, a, h.
  - cbn [foldl]. cbn [fmap list_fmap app length] in *. rewrite list.NoDup_cons in Hnd.
    destruct Hnd as [Hb Hnd]. unfold roomy in *.
    destruct (Hadd s a (b_value b) h Hs Hl) as (s1 & a1 & h1 & E & Hs1 & Hl1 & He1 & Hh1 & Hv1);
      [unfold roomy; lia|done|].
    rewrite bool_decide_false in E, He1 by set_solver. cbn [mbind option_bind]. rewrite E.
    cbn [mbind option_bind]. cbn [app] in He1.
    destruct (IH s1 a1 h1 Hs1) as (s2 & a2 & h2 & E2 & Hs2 & Hl2 & He2 & Hh2 & Hv2);
      [lia| | |done|].
    + rewrite He1, <- Permutation_middle. apply list.NoDup_cons. set_solver.
    + rewrite (entries_elements _ _ _ Hs1), He1. cbn [length].
      rewrite (entries_elements _ _ _ Hs) in Hr. lia.
    + exists s2, a2, h2. split; [done|]. split; [done|]. split; [lia|].
      split; [|split; [done|lia]]. rewrite He2, He1. by rewrite <- Permutation_middle.
Qed.

Lemma set_realloc_ok (f : list Z -> Z)
    (add : set_t -> list Z -> nat -> heap -> option (Z * set_t * heap))
    (s : set_t) (a : list chain) (h : heap) :
  (forall s' a v h, swf f s' a -> 2 * set_len s <= set_len s' -> roomy s' 1 ->
     answers h = [] -> added_ok f s' v h (add s' v (length v) h)) ->
  swf f s a -> set_len s <= 2 ^ 30 -> roomy s 1 -> answers h = [] ->
  exists s' a' h', set_realloc add s h = Some (s', h') /\
    swf f s' a' /\ set_len s <= set_len s' /\ elements s' ≡ₚ elements s /\
    answers h' = [] /\ live h' - set_blocks s' = live h - set_blocks s.
Proof.
  intros Hadd Hs Hl Hr Hh. unfold set_realloc. pose proof (len_range f s a Hs).
  destruct (sw_pow _ _ _ Hs) as (k & Hk & Hlk).
  rewrite u32_id by (unfold is_u32; lia).
  rewrite request_granted by done. cbn [negb]. rewrite (sw_array _ _ _ Hs), (sw_fp _ _ _ Hs).
  cbn [mbind option_bind].
  replace (set_len s * 2) with (2 ^ (k + 1)) by (rewrite Hlk, Z.pow_add_r by lia; lia).
  assert (k <= 30) by (apply (Z.pow_le_mono_r_iff 2); lia).
  pose proof (fresh_ok f (k + 1) (sw_u32 _ _ _ Hs) ltac:(lia)) as Hf.
  set (s0 := SetT 0 0 (2 ^ (k + 1)) _ _) in *.
  assert (elements s0 = []) as Hs0 by (unfold elements, s0; simpl; by rewrite concat_empty).
  destruct (refill_ok f add (2 * set_len s) (concat a) Hadd s0 _ (Heap [] (live h + 1)) Hf)
    as (s1 & a1 & h1 & E & Hs1 & Hl1 & He1 & Hh1 & Hv1).
  - unfold s0. cbn [set_len]. rewrite Hlk, Z.pow_add_r by lia. lia.
  - rewrite Hs0, app_nil_r. apply Hs.
  - unfold roomy, s0 in *. cbn [set_entries]. rewrite <- (sw_entries _ _ _ Hs). lia.
  - done.
  - eexists s1, a1, _. cbn [mbind option_bind] in E. rewrite E. cbn [mbind option_bind].
    split; [done|]. split; [done|].
    assert (set_len s0 = 2 * set_len s) as Hl0
      by (unfold s0; cbn [set_len]; rewrite Hlk, Z.pow_add_r by lia; lia).
    split; [lia|]. rewrite Hs0, app_nil_r in He1.
    split; [by rewrite He1, (elements_eq s a) by apply Hs|].
    rewrite (free_array_ok f s a Hs). cbn [answers live]. split; [done|].
    cbn [live] in Hv1. unfold set_blocks, s0 in Hv1 |- *. cbn [set_entries set_overflow] in Hv1. lia.
Qed.

Lemma add_rec_S (fuel : nat) (s : set_t) (val : list Z) (size : nat) (h : heap) :
  add_rec (S fuel) s val size h =
      '(s, h) ← (if zeroed s then set_init None h else Some (s, h));
      found ← set_has s val size;
      if negb (found =? 0) then Some (2, s, h) else
      '(s, h) ← (if 3 * set_len s <? 4 * u32 (set_entries s - set_overflow s)
                 then set_realloc (add_rec fuel) s h else Some (s, h));
      v ← object val size;
      hash ← set_hash s v;
      '(s, h) ← append_bucket s (Bucket v hash) h;
      Some (1, s, h).
Proof. done. Qed.

(** The table grows again while it grows at most as often as its length can
    double. *)
Lemma add_rec_ok (f : list Z -> Z) (fuel : nat) (s : set_t) (a : list chain) (v j : list Z) (h : heap) :
  swf f s a -> 2 ^ 31 <= set_len s * 2 ^ Z.of_nat fuel -> roomy s 1 -> answers h = [] ->
  added_ok f s v h (add_rec (S fuel) s (v ++ j) (length v) h).
Proof.
  revert s a v j h. induction fuel as [|fuel IH]; intros s a v j h Hs Hfuel Hr Hh;
    unfold added_ok; rewrite add_rec_S, (not_zeroed f s a Hs); cbn [mbind option_bind];
    rewrite (set_has_ok f s a Hs); cbn [mbind option_bind];
    (destruct (bool_decide (v ∈ elements s)) eqn:Hv; cbn [c_bool Z.eqb negb];
      [by exists s, a, h|]).
  all: apply bool_decide_eq_false in Hv; pose proof (used_le f s a Hs) as Hu;
    pose proof (len_range f s a Hs) as Hl; unfold roomy in Hr;
    assert (set_entries s - set_overflow s <= set_entries s) as Hos
      by (rewrite (sw_overflow _ _ _ Hs); unfold overflowing; lia);
    rewrite (u32_id (set_entries s - _)) by (unfold is_u32; lia).
  - replace (3 * set_len s <? _) with false by lia. cbn [mbind option_bind].
    rewrite object_app. cbn [mbind option_bind]. unfold set_hash. rewrite (sw_fp _ _ _ Hs).
    cbn [mbind option_bind].
    destruct (append_bucket_ok f s a Hs v h Hv Hr Hh) as (s' & a' & h' & -> & Hs' & Hl' & He & Hh' & Hlv).
    cbn [mbind option_bind]. exists s', a', h'. split_and!; try done; lia.
  - match goal with |- context [if ?t then set_realloc _ _ _ else _] =>
      assert (exists s1 a1 h1, (if t then set_realloc (add_rec (S fuel)) s h else Some (s, h)) =
        Some (s1, h1) /\ swf f s1 a1 /\ set_len s <= set_len s1 /\ elements s1 ≡ₚ elements s /\
        answers h1 = [] /\ live h1 - set_blocks s1 = live h - set_blocks s)
        as (s1 & a1 & h1 & E & Hs1 & Hl1 & He1 & Hh1 & Hv1) end.
    { case_match eqn:Hc; [|by exists s, a, h]. eapply set_realloc_ok; try done.
      2: { destruct (sw_pow _ _ _ Hs) as (k & Hk & Hk'). rewrite Hk' in *.
        apply Z.pow_le_mono_r; [lia|]. destruct (decide (k = 31)) as [->|]; lia. }
      intros s1 a1 v1 h1 Hs1 Hl1 Hr1 Hh1.
      rewrite <- (app_nil_r v1) at 2. eapply IH; try done.
      rewrite Nat2Z.inj_succ, Z.pow_succ_r in Hfuel by lia.
      pose proof (Z.pow_pos_nonneg 2 (Z.of_nat fuel)). nia. }
    rewrite E. cbn [mbind option_bind]. rewrite object_app. cbn [mbind option_bind].
    unfold set_hash. rewrite (sw_fp _ _ _ Hs1). cbn [mbind option_bind].
    destruct (append_bucket_ok f s1 a1 Hs1 v h1) as (s' & a' & h' & -> & Hs' & Hl' & He & Hh' & Hlv).
    + by rewrite He1.
    + unfold roomy. rewrite (entries_elements _ _ _ Hs1), He1, <- (entries_elements _ _ _ Hs). lia.
    + done.
    + cbn [mbind option_bind]. exists s', a', h'. split_and!; try done; [lia| |lia].
      by rewrite He, He1.
Qed.

Lemma set_add_ok (f : list Z -> Z) (s : set_t) (a : list chain) (v j : list Z) (h : heap) :
  swf f s a -> roomy s 1 -> answers h = [] ->
  added_ok f s v h (set_add s (v ++ j) (length v) h).
Proof.
  intros Hs. unfold set_add. change 33%nat with (S 32). eapply add_rec_ok; [done|].
  pose proof (len_range f s a Hs). change (2 ^ Z.of_nat 32) with (2 ^ 32). lia.
Qed.

(** ** Iteration *)

(** A loop over a list that the body may leave. *)
Fixpoint visit {U : Type} (f : list Z -> U -> option (bool * U)) (l : list (list Z)) (u : U)
    : option U :=
  match l with
  | [] => Some u
  | x :: l => '(go_on, u) ← f x u; if (go_on : bool) then visit f l u else Some u
  end.

Lemma next_slot_spec (a : list chain) (idx : nat) :
  match next_slot a idx with
  | None => concat a = []
  | Some i => exists b c, (idx <= i)%nat /\ a !! (i - idx)%nat = Some (b :: c) /\
      concat a = b :: c ++ concat (drop (S (i - idx)) a)
  end.
Proof.
  revert idx. induction a as [|[|b c] a IH]; intros idx; simpl; [done| |].
  - specialize (IH (S idx)). destruct (next_slot a (S idx)) as [i|]; [|done].
    destruct IH as (b & c & Hi & Hl & E). exists b, c. split; [lia|].
    replace (i - idx)%nat with (S (i - S idx)) by lia. done.
  - exists b, c. rewrite Nat.sub_diag. split; [lia|done].
Qed.

Section iteration.
Context {U : Type} (f : list Z -> U -> option (bool * U)).
Context (s : set_t) (a : list chain) (Ha : set_array s = Some a).

Lemma foreach_end (i : nat) (u : U) (fuel : nat) :
  foreach_loop s f (SetIter i None) u (S fuel) = Some u.
Proof. done. Qed.

Lemma foreach_loop_ok (fuel : nat) : forall i j c b bs u, a !! i = Some c ->
  drop j c = b :: bs -> (length (b :: bs ++ concat (drop (S i) a)) < fuel)%nat ->
  foreach_loop s f (SetIter i (Some (i, j))) u fuel =
    visit f (b_value <$> b :: bs ++ concat (drop (S i) a)) u.
Proof.
  induction fuel as [|fuel IH]; intros i j c b bs u Hi Hj Hf; [simpl in Hf; lia|].
  assert (c !! j = Some b) as Hb.
  { replace j with (j + 0)%nat by lia. by rewrite <- lookup_drop, Hj. }
  cbn [foreach_loop]. unfold set_iterator_value, deref_it. cbn [it_current fst snd].
  rewrite Ha. cbn [mbind option_bind]. rewrite Hi. cbn [mbind option_bind]. rewrite Hb.
  cbn [mbind option_bind fmap list_fmap visit].
  destruct (f (b_value b) u) as [[[] u']|]; cbn [mbind option_bind]; [|done..].
  unfold set_iterator_next. cbn [it_current it_index]. rewrite Ha. cbn [mbind option_bind].
  rewrite Hi. cbn [mbind option_bind]. rewrite Hb. cbn [mbind option_bind].
  assert (drop (S j) c = bs) as Hbs.
  { replace (S j) with (j + 1)%nat by lia. by rewrite <- drop_drop, Hj. }
  cbn [length] in Hf. destruct bs as [|b' bs].
  - rewrite (proj2 (lookup_ge_None c (S j))).
    2: { apply (f_equal length) in Hbs. rewrite length_drop in Hbs. simpl in Hbs. lia. }
    pose proof (next_slot_spec (drop (S i) a) (S i)) as Hn.
    destruct (next_slot (drop (S i) a) (S i)) as [i'|]; cbn [mbind option_bind].
    + destruct Hn as (b1 & c1 & Hle & Hl & E). rewrite lookup_drop in Hl.
      replace (S i + (i' - S i))%nat with i' in Hl by lia.
      rewrite drop_drop in E. replace (S i + S (i' - S i))%nat with (S i') in E by lia.
      cbn [app] in Hf |- *. rewrite E in Hf |- *. apply (IH i' O (b1 :: c1)); [done..|].
      simpl in *. lia.
    + rewrite Hn in Hf |- *. destruct fuel; [simpl in Hf; lia|]. by rewrite foreach_end.
  - assert (c !! S j = Some b') as ->.
    { replace (S j) with (S j + 0)%nat by lia. by rewrite <- lookup_drop, Hbs. }
    cbn [mbind option_bind]. apply (IH i (S j) c); [done..|]. simpl in *. lia.
Qed.

Lemma set_foreach_ok (u : U) : set_foreach s f u = visit f (elements s) u.
Proof.
  unfold set_foreach, set_iterator_init, buckets. rewrite (elements_eq s a Ha), Ha.
  cbn [default from_option id]. unfold id. pose proof (next_slot_spec a 0) as Hn.
  destruct (next_slot a 0) as [i|]; cbn [snd].
  - destruct Hn as (b & c & _ & Hl & E). rewrite Nat.sub_0_r in *. rewrite E.
    eapply foreach_loop_ok; [done..|]. simpl. lia.
  - by rewrite Hn.
Qed.

End iteration.

(** [set_at] stops at the position it looks for. *)
Lemma at_visit (l : list (list Z)) (pos i : nat) : (i <= pos)%nat ->
  snd <$> visit (fun x '(i, _) =>
    Some (if (i =? pos)%nat then (false, (i, Some x)) else (true, (S i, None)))) l (i, None) =
  Some (l !! (pos - i)%nat).
Proof.
  revert i. induction l as [|x l IH]; intros i Hi; simpl; [by rewrite lookup_nil|].
  destruct (Nat.eqb_spec i pos) as [->|]; simpl; [by rewrite Nat.sub_diag|].
  rewrite IH by lia. replace (pos - i)%nat with (S (pos - S i)) by lia. done.
Qed.

(** The elements with the separator between them. *)
Definition joined (sep : list Z) (l : list (list Z)) : list Z :=
  match l with
  | [] => []
  | x :: l => x ++ concat (map (fun y => sep ++ y) l)
  end.

Lemma fmt_visit (sep t : list Z) (l : list (list Z)) (i : nat) (o : list Z) (n : nat) :
  n = length o ->
  (visit (fun x '(i, (stored, pos)) =>
    let '(stored, pos) := if (0 <? i)%nat then (stored ++ take (length sep) (sep ++ t),
                            (pos + length sep)%nat) else (stored, pos) in
    Some (true, (S i, (stored ++ x, (pos + length x)%nat)))) l (i, (o, n)) : option (nat * out)) =
  let text := o ++ (if (0 <? i)%nat then concat (map (fun y => sep ++ y) l) else joined sep l) in
  Some ((i + length l)%nat, (text, length text)).
Proof.
  intros ->. rewrite take_app_length. revert i o. induction l as [|x l IH]; intros i o.
  - simpl. destruct (0 <? i)%nat; rewrite app_nil_r, Nat.add_0_r; done.
  - cbn [visit mbind option_bind].
    destruct (0 <? i)%nat eqn:Hi; cbn [mbind option_bind].
    + replace (length o + length sep + length x)%nat with (length ((o ++ sep) ++ x))
        by (rewrite !length_app; lia).
      rewrite IH. change (0 <? S i)%nat with true. cbn zeta. cbn [map concat length].
      rewrite <- !app_assoc, Nat.add_succ_r. done.
    + replace (length o + length x)%nat with (length (o ++ x)) by (by rewrite length_app).
      rewrite IH. change (0 <? S i)%nat with true. cbn zeta. cbn [joined map concat length].
      rewrite <- !app_assoc, Nat.add_succ_r. done.
Qed.

Lemma toarray_loop_ok (bs : chain) (pre rest : list cell) :
  (length bs <= length rest)%nat ->
  toarray_loop (pre ++ rest) (length pre) bs =
    Some (pre ++ (Value ∘ b_value <$> bs) ++ drop (length bs) rest).
Proof.
  revert pre rest. induction bs as [|b bs IH]; intros pre [|x rest] H; simpl in *; try done; [lia|].
  rewrite length_app. cbn [length]. replace (length pre <? length pre + S (length rest))%nat
    with true by (symmetry; apply Nat.ltb_lt; lia).
  rewrite insert_app_r_alt, Nat.sub_diag by lia. cbn [insert list_insert].
  replace (pre ++ Value (b_value b) :: rest) with ((pre ++ [Value (b_value b)]) ++ rest)
    by (by rewrite <- app_assoc).
  replace (S (length pre)) with (length (pre ++ [Value (b_value b)])) by (rewrite length_app; simpl; lia).
  rewrite IH by lia. rewrite <- app_assoc. done.
Qed.

(** ** Whole sets *)

Lemma hashfunc_u32 (v : list Z) : is_u32 (set_hashfunc v).
Proof.
  unfold set_hashfunc. assert (is_u32 5381) as H by (unfold is_u32; lia). revert H.
  generalize 5381. induction v as [|c v IH]; intros h H; simpl; [done|].
  apply IH, u32_range.
Qed.

Lemma elements_nodup (f : list Z -> Z) (s : set_t) (a : list chain) :
  swf f s a -> NoDup (elements s).
Proof. intros H. rewrite (elements_eq s a) by apply H. apply H. Qed.

Lemma size_contents (f : list Z -> Z) (s : set_t) (a : list chain) :
  swf f s a -> set_size s = Z.of_nat (size (contents s)).
Proof.
  intros H. unfold set_size, contents. rewrite (entries_elements _ _ _ H).
  by rewrite size_list_to_set by (by eapply elements_nodup).
Qed.

Lemma added_contents (s s' : set_t) (v : list Z) :
  elements s' ≡ₚ (if bool_decide (v ∈ elements s) then [] else [v]) ++ elements s ->
  contents s' = {[v]} ∪ contents s.
Proof.
  intros H. unfold contents. apply set_eq. intros x.
  rewrite elem_of_union, !elem_of_list_to_set, H, elem_of_singleton, elem_of_app.
  case_bool_decide; set_solver.
Qed.

(** The loop of the operations that add the elements of a list that pass a
    test.  The test may look at the set that grows. *)
Lemma add_visit_ok (f : list Z -> Z) (test : set_t -> list Z -> option bool)
    (T : list Z -> bool) (c0 : set_t) (l : list (list Z)) :
  (forall c a x, swf f c a -> x ∈ l -> (x ∈ elements c <-> x ∈ elements c0) ->
     test c x = Some (T x)) -> NoDup l ->
  forall c a h r, swf f c a -> (forall x, x ∈ l -> (x ∈ elements c <-> x ∈ elements c0)) ->
  roomy c (Z.of_nat (length l)) -> answers h = [] ->
  exists c' a' h', visit (add_if test) l (r, c, h) =
      Some (r + Z.of_nat (length (List.filter T l)), c', h') /\
    swf f c' a' /\ contents c' = contents c ∪ list_to_set (List.filter T l) /\
    answers h' = [] /\ live h' - set_blocks c' = live h - set_blocks c.
Proof.
  intros Ht Hnd. induction l as [|x l IH]; intros c a h r Hc Hx Hr Hh.
  - exists c, a, h. simpl. rewrite Z.add_0_r. split_and!; try done. set_solver.
  - apply list.NoDup_cons in Hnd as [Hxl Hnd]. unfold roomy in *. cbn [length] in Hr.
    cbn [visit add_if List.filter].
    assert (forall c1 a1 y, swf f c1 a1 -> y ∈ l -> (y ∈ elements c1 <-> y ∈ elements c0) ->
      test c1 y = Some (T y)) as Ht' by (intros c1 a1 y ??; apply (Ht c1 a1); [done|by right]).
    specialize (IH Ht' Hnd).
    rewrite (Ht c a x) by (done || (try apply Hx; left)). cbn [mbind option_bind].
    destruct (T x); cbn [mbind option_bind].
    2: { apply IH with a; try done; [|lia]. intros y Hy. apply Hx. by right. }
    destruct (set_add_ok f c a x [] h Hc) as (c1 & a1 & h1 & E & Hc1 & _ & He1 & Hh1 & Hv1);
      [unfold roomy; lia|done|]. rewrite app_nil_r in E. rewrite E. cbn [mbind option_bind].
    pose proof (added_contents _ _ _ He1) as Hct.
    destruct (IH c1 a1 h1 (r + 1) Hc1)
      as (c2 & a2 & h2 & E2 & Hc2 & Hct2 & Hh2 & Hv2).
    + intros y Hy. rewrite <- (Hx y) by (by right). rewrite He1.
      case_bool_decide; set_solver.
    + rewrite (entries_elements _ _ _ Hc1), He1. rewrite (entries_elements _ _ _ Hc) in Hr.
      case_bool_decide; cbn [app length]; lia.
    + done.
    + exists c2, a2, h2. split; [|split; [done|split; [|split; [done|lia]]]].
      * rewrite E2. cbn [length]. do 3 f_equal. lia.
      * rewrite Hct2, Hct. cbn [list_to_set]. set_solver.
Qed.

Lemma elem_of_contents (s : set_t) (x : list Z) : x ∈ contents s <-> x ∈ elements s.
Proof. apply elem_of_list_to_set. Qed.

Lemma elem_of_bool_filter (T : list Z -> bool) (l : list (list Z)) (x : list Z) :
  x ∈ List.filter T l <-> T x = true /\ x ∈ l.
Proof. rewrite !list_elem_of_In, filter_In. naive_solver. Qed.

Lemma bool_filter_nodup (T : list Z -> bool) (l : list (list Z)) :
  NoDup l -> NoDup (List.filter T l).
Proof. rewrite !NoDup_ListNoDup. apply NoDup_filter. Qed.

Section whole.
Context (f g : list Z -> Z) (input c : set_t) (ai ac : list chain).
Context (Hi : swf g input ai) (Hc : swf f c ac).
Context (Hr : roomy c (set_entries input)) (h : heap) (Hh : answers h = []).

(** A loop over [input] that adds the elements in [D] to [c]. *)
Lemma add_foreach_ok (test : set_t -> list Z -> option bool) (T : list Z -> bool)
    (D : gset (list Z)) :
  (forall c' a x, swf f c' a -> x ∈ elements input ->
     (x ∈ elements c' <-> x ∈ elements c) -> test c' x = Some (T x)) ->
  (forall x, x ∈ D <-> T x = true /\ x ∈ contents input) ->
  exists c' a' h', set_foreach input (add_if test) (0, c, h) =
      Some (Z.of_nat (size D), c', h') /\
    swf f c' a' /\ contents c' = contents c ∪ D /\
    answers h' = [] /\ live h' - set_blocks c' = live h - set_blocks c.
Proof.
  intros Ht HD. rewrite (set_foreach_ok _ _ _ (sw_array _ _ _ Hi)).
  destruct (add_visit_ok f test T c (elements input) Ht (elements_nodup _ _ _ Hi) c ac h 0 Hc)
    as (c' & a' & h' & E & Hc' & Hct & Hh' & Hv); try done.
  - by rewrite <- (entries_elements _ _ _ Hi).
  - assert (D = list_to_set (List.filter T (elements input))) as ->.
    { apply set_eq. intros x. rewrite HD, elem_of_list_to_set, elem_of_bool_filter.
      by rewrite elem_of_contents. }
    exists c', a', h'. rewrite E, size_list_to_set; [done|].
    by apply bool_filter_nodup, (elements_nodup _ _ _ Hi).
Qed.

Lemma set_cat_ok : exists c' a' h',
  set_cat c input h = Some (Z.of_nat (size (contents input ∖ contents c)), c', h') /\
  swf f c' a' /\ contents c' = contents c ∪ contents input /\
  answers h' = [] /\ live h' - set_blocks c' = live h - set_blocks c.
Proof.
  destruct (add_foreach_ok (fun s x => (Z.eqb 0) <$> set_has s x (length x))
    (fun x => bool_decide (x ∉ elements c)) (contents input ∖ contents c))
    as (c' & a' & h' & E & Hc' & Hct & Hrest).
  - intros s a x Hs _ Hx. rewrite <- (app_nil_r x) at 1. rewrite (set_has_ok f s a Hs).
    cbn. f_equal. destruct (decide (x ∈ elements c)).
    + by rewrite (bool_decide_true (x ∈ _)), bool_decide_false by naive_solver.
    + by rewrite (bool_decide_false (x ∈ _)), bool_decide_true by naive_solver.
  - intros x. rewrite elem_of_difference, bool_decide_eq_true, !elem_of_contents. naive_solver.
  - exists c', a', h'. split; [done|]. split; [done|]. split; [|done].
    rewrite Hct. apply set_eq. intros x. rewrite !elem_of_union, elem_of_difference.
    destruct (decide (x ∈ contents c)); naive_solver.
Qed.

Lemma set_sub_ok (b : set_t) (k : list Z -> Z) (ab : list chain) (Hb : swf k b ab) :
  exists c' a' h',
  set_sub input b c h = Some (Z.of_nat (size (contents input ∖ contents b)), c', h') /\
  swf f c' a' /\ contents c' = contents c ∪ (contents input ∖ contents b) /\
  answers h' = [] /\ live h' - set_blocks c' = live h - set_blocks c.
Proof.
  apply add_foreach_ok with (fun x => bool_decide (x ∉ elements b)).
  - intros _ _ x _ _ _. rewrite <- (app_nil_r x) at 1. rewrite (set_has_ok k b ab Hb).
    cbn. f_equal. by repeat case_bool_decide.
  - intros x. rewrite elem_of_difference, bool_decide_eq_true, !elem_of_contents. naive_solver.
Qed.

Lemma set_filter_magic_ok (pred : list Z -> Z) (magic : Z) :
  let D := filter (fun x => pred x = magic) (contents input) in
  exists c' a' h', set_filter_magic input c pred magic h = Some (Z.of_nat (size D), c', h') /\
  swf f c' a' /\ contents c' = contents c ∪ D /\
  answers h' = [] /\ live h' - set_blocks c' = live h - set_blocks c.
Proof.
  apply add_foreach_ok with (fun x => magic =? pred x).
  - done.
  - intros x. rewrite elem_of_filter, Z.eqb_eq. naive_solver.
Qed.

End whole.

(** ** Scripts *)

Inductive set_op : Type :=
  | SAdd (v j : list Z)
  | SHas (v j : list Z).

Definition run_set (o : set_op) (s : set_t) (h : heap) : option (Z * set_t * heap) :=
  match o with
  | SAdd v j => set_add s (v ++ j) (length v) h
  | SHas v j => r ← set_has s (v ++ j) (length v); Some (r, s, h)
  end.

Fixpoint run_sets (os : list set_op) (s : set_t) (h : heap)
    : option (list Z * set_t * heap) :=
  match os with
  | [] => Some ([], s, h)
  | o :: os =>
      '(r, s, h) ← run_set o s h; '(rs, s, h) ← run_sets os s h; Some (r :: rs, s, h)
  end.

(** The same on a set. *)
Fixpoint spec_sets (os : list set_op) (X : gset (list Z)) : list Z * gset (list Z) :=
  match os with
  | [] => ([], X)
  | SAdd v _ :: os =>
      let '(rs, Y) := spec_sets os ({[v]} ∪ X) in ((if decide (v ∈ X) then 2 else 1) :: rs, Y)
  | SHas v _ :: os =>
      let '(rs, Y) := spec_sets os X in ((if decide (v ∈ X) then 1 else 0) :: rs, Y)
  end.

Lemma run_sets_ok (f : list Z -> Z) (os : list set_op) : forall s a h,
  swf f s a -> roomy s (Z.of_nat (length os)) -> answers h = [] ->
  exists s' a' h', run_sets os s h = Some ((spec_sets os (contents s)).1, s', h') /\
    swf f s' a' /\ contents s' = (spec_sets os (contents s)).2 /\ answers h' = [] /\
    live h' - set_blocks s' = live h - set_blocks s.
Proof.
  induction os as [|[v j|v j] os IH]; intros s a h Hs Hr Hh; unfold roomy in *;
    cbn [run_sets run_set spec_sets length] in *.
  - by exists s, a, h.
  - destruct (set_add_ok f s a v j h Hs) as (s1 & a1 & h1 & -> & Hs1 & _ & He1 & Hh1 & Hv1);
      [unfold roomy; lia|done|]. cbn [mbind option_bind].
    rewrite <- (added_contents _ _ _ He1).
    destruct (IH s1 a1 h1 Hs1) as (s2 & a2 & h2 & -> & Hs2 & Hc2 & Hh2 & Hv2); [|done|].
    { rewrite (entries_elements _ _ _ Hs1), He1. rewrite (entries_elements _ _ _ Hs) in Hr.
      case_bool_decide; cbn [app length]; lia. }
    destruct (spec_sets os (contents s1)) as [rs Y]. cbn [mbind option_bind fst snd] in *.
    exists s2, a2, h2. split; [|split_and!; (done || lia)]. do 4 f_equal.
    pose proof (elem_of_contents s v).
    by destruct (decide (v ∈ contents s));
      [rewrite bool_decide_true by tauto|rewrite bool_decide_false by tauto].
  - rewrite (set_has_ok f s a Hs). cbn [mbind option_bind].
    destruct (IH s a h Hs) as (s2 & a2 & h2 & -> & Hs2 & Hc2 & Hh2 & Hv2); [lia|done|].
    destruct (spec_sets os (contents s)) as [rs Y]. cbn [mbind option_bind fst snd] in *.
    exists s2, a2, h2. split; [|done]. do 4 f_equal.
    pose proof (elem_of_contents s v).
    by destruct (decide (v ∈ contents s));
      [rewrite bool_decide_true by tauto|rewrite bool_decide_false by tauto].
Qed.

(** * Theorems *)

(** C13: a set refines a finite set of byte strings: from [set_init], with any
    hash function, fewer than [2^30] operations and no request for memory
    refused, adding and looking up answer what the finite set answers, however
    often the table grows; the size is the number of elements, and [set_free]
    gives back every block. *)
Theorem set_refines_gset (fp : option (list Z -> Z)) (os : list set_op) (h : heap)
    (Hfp : forall v, is_u32 (default set_hashfunc fp v))
    (Hn : Z.of_nat (length os) < 2 ^ 30) (Hh : answers h = []) :
  exists s h1 rs s' h', set_init fp h = Some (s, h1) /\ run_sets os s h1 = Some (rs, s', h') /\
    rs = (spec_sets os ∅).1 /\ contents s' = (spec_sets os ∅).2 /\
    set_size s' = Z.of_nat (size (contents s')) /\
    (forall v j, set_has s' (v ++ j) (length v) = Some (c_bool (bool_decide (v ∈ contents s')))) /\
    live (set_free s' h') = live h.
Proof.
  unfold set_init. rewrite request_granted by done. eexists _, _.
  pose proof (fresh_ok (default set_hashfunc fp) 10 Hfp ltac:(lia)) as Hs.
  change (2 ^ 10) with 1024 in Hs. change (Z.to_nat 1024) with 1024%nat in Hs.
  set (s := SetT 0 0 1024 _ _) in *.
  destruct (run_sets_ok _ os s _ (Heap [] (live h + 1)) Hs) as (s' & a' & h' & E & Hs' & Hc & Hh' & Hv);
    [unfold roomy, s; cbn [set_entries]; lia|done|].
  assert (contents s = ∅) as H0
    by (unfold contents; by rewrite (elements_eq s _ eq_refl), concat_empty).
  rewrite H0 in *. eexists _, s', h'. split; [done|]. split; [done|]. split; [done|].
  split; [done|]. split; [by eapply size_contents|]. split.
  - intros v j. rewrite (set_has_ok _ s' a' Hs'). do 2 f_equal.
    apply bool_decide_ext. by rewrite elem_of_contents.
  - unfold set_free. rewrite (free_array_ok _ s' a' Hs'). cbn [live].
    unfold set_blocks, s in Hv |- *. cbn [live set_entries set_overflow] in Hv. lia.
Qed.

Lemma set_refines_gset_witness :
  let os := [SAdd [1; 2] []; SAdd [7] [9]; SHas [7] []; SAdd [1; 2] []; SHas [1] [2]] in
  let h := Heap [] 4 in
  (forall v, is_u32 (default set_hashfunc (Some (fun _ => 77)) v)) /\
  exists s h1 rs s' h', set_init (Some (fun _ => 77)) h = Some (s, h1) /\
    run_sets os s h1 = Some (rs, s', h') /\
    rs = (spec_sets os ∅).1 /\ contents s' = (spec_sets os ∅).2 /\
    set_size s' = Z.of_nat (size (contents s')) /\
    (forall v j, set_has s' (v ++ j) (length v) = Some (c_bool (bool_decide (v ∈ contents s')))) /\
    live (set_free s' h') = live h.
Proof.
  intros os h. assert (forall v, is_u32 (default set_hashfunc (Some (fun _ => 77)) v)) as H
    by (intros v; unfold is_u32; simpl; lia).
  split; [done|]. by apply (set_refines_gset (Some (fun _ => 77)) os h H).
Defined.

(** C36: the iterator visits every element exactly once: [set_at] numbers the
    elements, [set_toarray] lists them, and [fmt_set] writes them with the
    separator between, announcing the same length without a destination. *)
Theorem set_iterate_correct (f : list Z -> Z) (s : set_t) (a : list chain) (sep t : list Z)
    (h : heap) (Hs : swf f s a) (Hsep : nonul sep) (Hh : answers h = []) :
  NoDup (elements s) /\ (forall x, x ∈ elements s <-> x ∈ contents s) /\
  (forall pos, set_at s pos = Some (elements s !! pos)) /\
  fst <$> set_toarray s h = Some (map Value (elements s) ++ [Null]) /\
  fmt_set true s (sep ++ 0 :: t) = Some (joined sep (elements s), length (joined sep (elements s))) /\
  fmt_set false s (sep ++ 0 :: t) = Some ([], length (joined sep (elements s))).
Proof.
  split; [by eapply elements_nodup|]. split; [intros x; by rewrite elem_of_contents|].
  pose proof (sw_array _ _ _ Hs) as Ha. split; [|split].
  - intros pos. unfold set_at, set_at_n. rewrite (set_foreach_ok _ _ _ Ha).
    rewrite at_visit by lia. by rewrite Nat.sub_0_r.
  - unfold set_toarray. rewrite request_granted by done. cbn [negb]. rewrite Ha.
    cbn [default from_option]. unfold id. rewrite (sw_entries _ _ _ Hs), Nat2Z.id.
    pose proof (toarray_loop_ok (concat a) [] (replicate (S (length (concat a))) Junk)
      ltac:(rewrite length_replicate; lia)) as Ht.
    change ([] ++ ?l) with l in Ht. cbn [length] in Ht. rewrite Ht.
    cbn [mbind option_bind app fmap option_fmap option_map fst]. f_equal.
    rewrite drop_replicate. replace (S _ - _)%nat with 1%nat by lia. cbn [replicate].
    rewrite insert_app_r_alt by (by rewrite length_fmap). rewrite length_fmap, Nat.sub_diag.
    cbn [insert list_insert]. rewrite (elements_eq s a Ha). f_equal. by rewrite map_map.
  - unfold fmt_set. change (sep ++ 0 :: t) with (zstr sep t). rewrite (str_len_spec sep t Hsep). cbn [mbind option_bind]. unfold zstr.
    rewrite (set_foreach_ok _ _ _ Ha), (fmt_visit sep (0 :: t) (elements s) 0 [] 0 eq_refl). done.
Qed.

Lemma set_iterate_correct_witness :
  let a := [[]; [Bucket [5] 1; Bucket [6] 1]; []; [Bucket [4; 4] 3]] in
  let f := fun v : list Z => if decide (v = [4; 4]) then 3 else 1 in
  let s := SetT 3 1 4 (Some f) (Some a) in
  let sep := lit ", " in
  swf f s a /\ nonul sep /\
  NoDup (elements s) /\ (forall x, x ∈ elements s <-> x ∈ contents s) /\
  (forall pos, set_at s pos = Some (elements s !! pos)) /\
  fst <$> set_toarray s (Heap [] 0) = Some (map Value (elements s) ++ [Null]) /\
  fmt_set true s (sep ++ 0 :: []) = Some (joined sep (elements s), length (joined sep (elements s))) /\
  fmt_set false s (sep ++ 0 :: []) = Some ([], length (joined sep (elements s))).
Proof.
  intros a f s sep. assert (swf f s a) as Hs.
  { split; try done.
    - intros v. unfold f. case_decide; unfold is_u32; lia.
    - by exists 2.
    - intros [|[|[|[|i]]]] c [= <-]; repeat constructor.
    - cbn. repeat (constructor; [set_solver|]). constructor. }
  assert (nonul sep) as Hn by (repeat constructor; lia).
  split; [done|]. split; [done|]. apply (set_iterate_correct f s a sep [] (Heap [] 0)); done.
Defined.

(** The operations on whole sets compute union, difference and
    restriction, and return the number of elements they select; hash functions
    and table sizes may differ, and the table that is added to may grow. *)
Theorem set_algebra_correct (f g k : list Z -> Z) (x y z : set_t) (ax ay az : list chain)
    (pred : list Z -> Z) (h : heap) (Hx : swf g x ax) (Hy : swf k y ay) (Hz : swf f z az)
    (Hr : set_entries z + set_entries x < 2 ^ 30) (Hh : answers h = []) :
  let gives (r : option added) (D : gset (list Z)) := exists z' az' h',
    r = Some (Z.of_nat (size D), z', h') /\ swf f z' az' /\ contents z' = contents z ∪ D /\
    live h' - set_blocks z' = live h - set_blocks z in
  (exists z' az' h', set_cat z x h =
     Some (Z.of_nat (size (contents x ∖ contents z)), z', h') /\ swf f z' az' /\
     contents z' = contents z ∪ contents x /\
     live h' - set_blocks z' = live h - set_blocks z) /\
  gives (set_sub x y z h) (contents x ∖ contents y) /\
  gives (set_filter x z pred h) (filter (fun v => pred v = 1) (contents x)) /\
  gives (set_filter_out x z pred h) (filter (fun v => pred v = 0) (contents x)).
Proof.
  intros gives. split_and!.
  - destruct (set_cat_ok f g x z ax az Hx Hz Hr h Hh) as (? & ? & ? & ? & ? & ? & ? & ?). eauto 10.
  - destruct (set_sub_ok f g x z ax az Hx Hz Hr h Hh y k ay Hy) as (? & ? & ? & ? & ? & ? & ? & ?).
    unfold gives. eauto 10.
  - destruct (set_filter_magic_ok f g x z ax az Hx Hz Hr h Hh pred 1) as (? & ? & ? & ? & ? & ? & ? & ?).
    unfold gives. eauto 10.
  - destruct (set_filter_magic_ok f g x z ax az Hx Hz Hr h Hh pred 0) as (? & ? & ? & ? & ? & ? & ? & ?).
    unfold gives. eauto 10.
Qed.

Lemma set_algebra_correct_witness :
  let f := fun v : list Z => match v with [c] => u32 c | _ => 0 end in
  let table := fun l : list (list Z) => map (fun v => [Bucket v (f v)]) l in
  let x := SetT 4 0 4 (Some f) (Some (table [[0]; [1]; [2]; [3]])) in
  let y := SetT 2 0 2 (Some f) (Some (table [[2]; [1]])) in
  let z := SetT 1 0 1 (Some f) (Some (table [[9]])) in
  let pred := fun v : list Z => match v with [3] => 1 | [c] => c | _ => 7 end in
  let h := Heap [] 10 in
  swf f x (table [[0]; [1]; [2]; [3]]) /\ swf f y (table [[2]; [1]]) /\ swf f z (table [[9]]) /\
  let gives (r : option added) (D : gset (list Z)) := exists z' az' h',
    r = Some (Z.of_nat (size D), z', h') /\ swf f z' az' /\ contents z' = contents z ∪ D /\
    live h' - set_blocks z' = live h - set_blocks z in
  (exists z' az' h', set_cat z x h =
     Some (Z.of_nat (size (contents x ∖ contents z)), z', h') /\ swf f z' az' /\
     contents z' = contents z ∪ contents x /\
     live h' - set_blocks z' = live h - set_blocks z) /\
  gives (set_sub x y z h) (contents x ∖ contents y) /\
  gives (set_filter x z pred h) (filter (fun v => pred v = 1) (contents x)) /\
  gives (set_filter_out x z pred h) (filter (fun v => pred v = 0) (contents x)).
Proof.
  intros f table x y z pred h.
  assert (forall v, is_u32 (f v)) as Hf.
  { intros [|c [|]]; unfold f; [unfold is_u32; lia|apply u32_range|unfold is_u32; lia]. }
  assert (swf f x (table [[0]; [1]; [2]; [3]])) as Hx.
  { split; try done; [by exists 2| |cbn; repeat (constructor; [set_solver|]); constructor].
    intros [|[|[|[|i]]]] c [= <-]; repeat constructor. }
  assert (swf f y (table [[2]; [1]])) as Hy.
  { split; try done; [by exists 1| |cbn; repeat (constructor; [set_solver|]); constructor].
    intros [|[|i]] c [= <-]; repeat constructor. }
  assert (swf f z (table [[9]])) as Hz.
  { split; try done; [by exists 0| |cbn; repeat (constructor; [set_solver|]); constructor].
    intros [|i] c [= <-]; repeat constructor. }
  split; [done|]. split; [done|]. split; [done|].
  by apply (set_algebra_correct f f f x y z _ _ _ pred h Hx Hy Hz).
Defined.

(** [set_delete] removes only what is not the first of its slot: a value that
    is not in the set, and the first of a slot, are undefined behaviour; and
    the size stays what it was. *)
Theorem set_delete_hazards (f : list Z -> Z) (s : set_t) (a : list chain) (v : list Z) (h : heap)
    (Hs : swf f s a) :
  (v ∉ contents s -> set_delete s v (length v) h = None) /\
  (forall b c, a !! Z.to_nat (f v mod set_len s) = Some (b :: c) -> b_value b = v ->
     set_delete s v (length v) h = None) /\
  (forall r s' h', set_delete s v (length v) h = Some (r, s', h') ->
     set_size s' = set_size s /\ live h' = live h - 1).
Proof.
  assert (forall c, a !! Z.to_nat (f v mod set_len s) = Some c ->
    set_find s v (length v) = Some (Z.to_nat (f v mod set_len s), find_in_chain c v (f v))) as Hf.
  { intros c Hc. unfold set_find, set_hash. rewrite <- (app_nil_r v) at 1. rewrite object_app.
    cbn [mbind option_bind]. rewrite (sw_fp _ _ _ Hs). cbn [mbind option_bind].
    destruct (slot_ok f s a Hs (f v)) as (c' & Hc' & ->). cbn [mbind option_bind].
    by simplify_eq. }
  split_and!.
  - intros Hv. destruct (slot_index f s a Hs (f v)) as [c Hc]. unfold set_delete.
    rewrite (Hf c Hc). cbn [mbind option_bind].
    destruct (find_in_chain_spec f s c v _ (sw_placed _ _ _ Hs _ _ Hc)) as [[-> _]|(j & b & _ & Hb & Hv')];
      [done|]. destruct Hv. apply elem_of_contents, (in_slot f s a Hs v c Hc).
    apply list_elem_of_fmap. exists b. split; [done|]. by eapply list_elem_of_lookup_2.
  - intros b c Hc Hb. unfold set_delete. rewrite (Hf _ Hc). cbn [mbind option_bind find_in_chain].
    pose proof (sw_placed _ _ _ Hs _ _ Hc) as Hp. apply list.Forall_cons in Hp as [[Hh _] _].
    by rewrite Hh, Hb, Nat.eqb_refl, Z.eqb_refl, bool_decide_true by done.
  - intros r s' h'. unfold set_delete. destruct (set_find s v (length v)) as [[i [[|j]|]]|];
      cbn [mbind option_bind]; try done. rewrite (sw_array _ _ _ Hs). cbn [mbind option_bind].
    by intros [= <- <- <-].
Qed.

(** [set_clear] forgets the values when no slot overflows. *)
Theorem set_clear_leaks (f : list Z -> Z) (s : set_t) (a : list chain) (h : heap) (Hs : swf f s a) :
  let '(s', h') := set_clear s h in
  contents s' = ∅ /\ live h' - set_blocks s' =
    live h - set_blocks s + (if decide (set_overflow s = 0) then set_entries s else 0).
Proof.
  unfold set_clear. rewrite (sw_array _ _ _ Hs). cbn [fmap option_fmap option_map]. split.
  - unfold contents, elements. simpl. induction a; simpl; [done|]. clear. by induction a0.
  - unfold set_blocks. cbn [set_entries set_overflow]. case_decide as H.
    + rewrite H. cbn [Z.eqb]. lia.
    + replace (set_overflow s =? 0) with false by lia. unfold releases. cbn [live].
      rewrite blocks_sum, (sw_entries _ _ _ Hs), (sw_overflow _ _ _ Hs). lia.
Qed.

(** [set_join] reads a length before it has one when the compiler evaluates
    the arguments from the right. *)
Theorem set_join_unordered (f : list Z -> Z) (m : mem) (s : set_t) (a : list chain)
    (sep : list Z) (sa : stralloc) (Hs : swf f s a) :
  set_join false m s sep sa = if decide (contents s = ∅) then Some (m, sa) else None.
Proof.
  unfold set_join. rewrite (set_foreach_ok _ _ _ (sw_array _ _ _ Hs)). unfold contents.
  destruct (elements s) as [|x l]; simpl; [done|].
  case_decide as H; [|done]. set_solver.
Qed.
