(* ===== verification/Hmap.v ===== *)
(** The hash maps of [lib/hmap/]: a table of tuples, one per bucket, whose
    collisions are further tuples in a ring that starts at the tuple of the
    table; a second ring has all tuples in the order in which they were added.
    Tuples are cells of a store, a pointer is the number of a cell; the memory
    they and their data take is counted (Heap.v).  [None] is undefined
    behaviour or a loop that does not end.  The type [A] is what a block of data
    holds. *)
From S2P Require Import Prelude ByteOps StrOps Memory Stralloc Heap Chain.

(** * Data *)

(** The codes of [enum hmap_error_enum]. *)
Definition HMAP_SUCCESS : Z := 0.
Definition HMAP_ALLOCATED_ERROR : Z := -100.
Definition HMAP_CREATE_DB_ERROR : Z := -101.
Definition HMAP_CREATE_TUPUL_ERROR : Z := -102.
Definition HMAP_KEY_EMPTY : Z := -404.
Definition HMAP_TUPLE_NOT_FOUND : Z := -405.
Definition HMAP_TUPLE_ALREADY_EXIST : Z := -407.
Definition HMAP_DATA_TYPE_INVALID : Z := -406.

Inductive hmap_tuple_type : Type := HMAP_TUPLE_PRIMARY | HMAP_TUPLE_SECONDARY.

Inductive hmap_data_type : Type :=
  | HMAP_DATA_TYPE_INT
  | HMAP_DATA_TYPE_UINT
  | HMAP_DATA_TYPE_INT64
  | HMAP_DATA_TYPE_UINT64
  | HMAP_DATA_TYPE_DOUBLE
  | HMAP_DATA_TYPE_CHARS
  | HMAP_DATA_TYPE_CUSTOM
  | HMAP_DATA_TYPE_TUPLE.

(** The two pairs of links of a tuple: [next], [prev] and [hash_next],
    [hash_prev]. *)
Record link : Type := Link { nxt : option nat; prv : option nat }.
Inductive which : Type := ByList | ByHash.

#[export] Instance which_eq_dec : EqDecision which.
Proof. solve_decision. Defined.

Section data.
Context {A : Type}.

(** The union [vals]; a double is its image. *)
Inductive value : Type :=
  | ValInt (i : Z)
  | ValUint (i : Z)
  | ValLonglong (i : Z)
  | ValUlonglong (i : Z)
  | ValDouble (d : Z)
  | ValChars (p : option A)
  | ValCustom (p : option nat).

(** A tuple without its links; [t_key] are the [key_len] bytes of [key] that
    count. *)
Record body : Type := Body {
  t_key : list Z;
  t_type : hmap_tuple_type;
  t_index : Z;
  t_data_len : Z;
  t_data : option nat;
  t_data_type : hmap_data_type;
  t_vals : value
}.

Record tuple : Type := Tuple { t_list : link; t_hash : link; t_body : body }.

(** What [calloc] and [byte_zero] make of a tuple. *)
Definition zero_tuple : tuple :=
  Tuple (Link None None) (Link None None) (Body [] HMAP_TUPLE_PRIMARY 0 0 None HMAP_DATA_TYPE_INT (ValInt 0)).

Definition get_link (w : which) (t : tuple) : link :=
  match w with ByList => t_list t | ByHash => t_hash t end.
Definition put_link (w : which) (l : link) (t : tuple) : tuple :=
  match w with
  | ByList => Tuple l (t_hash t) (t_body t)
  | ByHash => Tuple (t_list t) l (t_body t)
  end.

Definition put_key (k : list Z) (b : body) : body :=
  Body k (t_type b) (t_index b) (t_data_len b) (t_data b) (t_data_type b) (t_vals b).
Definition put_data (n : Z) (p : option nat) (b : body) : body :=
  Body (t_key b) (t_type b) (t_index b) n p (t_data_type b) (t_vals b).
Definition put_vals (n : Z) (v : value) (b : body) : body :=
  Body (t_key b) (t_type b) (t_index b) n (t_data b) (t_data_type b) v.
(** [key], [key_len], [index], [type] and [data_type] of a tuple that is put in. *)
Definition put_entry (k : list Z) (i : Z) (ty : hmap_tuple_type) (dt : hmap_data_type) (b : body) : body :=
  Body k ty i (t_data_len b) (t_data b) dt (t_vals b).
End data.
Arguments value : clear implicits.
Arguments body : clear implicits.
Arguments tuple : clear implicits.

Abbreviation cells A := (gmap nat (tuple A)).

(** [tuple] is the number of the first cell of the table. *)
Record hmap_db : Type := HmapDb {
  tuple_count : Z;
  secondary_tuple_count : Z;
  bucket_size : Z;
  table : nat;
  list_tuple : option nat
}.

(** The tuples, the number of the next one, and the blocks. *)
Record store (A : Type) : Type := Store { tuples : cells A; fresh_tuple : nat; blocks_of : heap }.
Arguments Store {A}.
Arguments tuples {A}.
Arguments fresh_tuple {A}.
Arguments blocks_of {A}.

(** The data of [hmap_add], by [data_type]; what is no data type counts as
    [ArgOther]. *)
Inductive arg (A : Type) : Type :=
  | ArgInt (i : Z)
  | ArgUint (i : Z)
  | ArgInt64 (i : Z)
  | ArgUint64 (i : Z)
  | ArgDouble (d : Z)
  | ArgChars (x : A) (d_len : Z)
  | ArgCustom (p : option nat)
  | ArgOther.
Arguments ArgInt {A}.
Arguments ArgUint {A}.
Arguments ArgInt64 {A}.
Arguments ArgUint64 {A}.
Arguments ArgDouble {A}.
Arguments ArgChars {A}.
Arguments ArgCustom {A}.
Arguments ArgOther {A}.

(** * Rings *)

Section rings.
Context {A : Type} (w : which).

Definition deref (h : cells A) (p : option nat) : option link := a ← p; t ← h !! a; Some (get_link w t).
Definition set_nxt (h : cells A) (p v : option nat) : option (cells A) :=
  a ← p; t ← h !! a; Some (<[a := put_link w (Link v (prv (get_link w t))) t]> h).
Definition set_prv (h : cells A) (p v : option nat) : option (cells A) :=
  a ← p; t ← h !! a; Some (<[a := put_link w (Link (nxt (get_link w t)) v) t]> h).

(** [HDB_LIST_APPEND] and [HDB_HASH_APPEND]. *)
Definition ring_append (h : cells A) (first : option nat) (item : nat) : option (cells A * option nat) :=
  match first with
  | None =>
      h ← set_nxt h (Some item) (Some item);
      h ← set_prv h (Some item) (Some item);
      Some (h, Some item)
  | Some _ =>
      f ← deref h first;
      h ← set_prv h (Some item) (prv f);
      h ← set_nxt h (Some item) first;
      f ← deref h first;
      h ← set_nxt h (prv f) (Some item);
      h ← set_prv h first (Some item);
      Some (h, first)
  end.

(** The neighbours of [item] are linked. *)
Definition ring_unlink (h : cells A) (item : nat) : option (cells A) :=
  i ← deref h (Some item);
  h ← set_prv h (nxt i) (prv i);
  i ← deref h (Some item);
  set_nxt h (prv i) (nxt i).

(** [HDB_LIST_REMOVE] and [HDB_HASH_REMOVE]. *)
Definition ring_remove (h : cells A) (first : option nat) (item : nat) : option (cells A * option nat) :=
  '(h, first) ←
    (if decide (first = Some item) then
       f ← deref h first;
       if decide (nxt f = first) then Some (h, None)
       else h' ← ring_unlink h item; Some (h', nxt f)
     else h ← ring_unlink h item; Some (h, first));
  h ← set_nxt h (Some item) None;
  h ← set_prv h (Some item) None;
  Some (h, first).
End rings.

Definition body_at {A : Type} (h : cells A) (p : nat) : option (body A) := t_body <$> h !! p.

(** * Hashing and comparing *)

Definition hash_step (h c : Z) : Z :=
  let h := u32 (h + c) in
  let h := u32 (h + u32 (Z.shiftl h 10)) in
  Z.lxor h (Z.shiftr h 6).

Definition hmap_hash (key : list Z) : Z :=
  let h := foldl hash_step 0 key in
  let h := u32 (h + u32 (Z.shiftl h 3)) in
  let h := Z.lxor h (Z.shiftr h 11) in
  let h := u32 (h + u32 (Z.shiftl h 15)) in
  Z.land h (Z.ones 31).

Definition hmap_cmp (v1 v2 : list Z) : option Z :=
  if (length v1 =? length v2)%nat then byte_diff v1 (length v1) v2 else Some (-1).

(** * Operations *)

Section operations.
Context {A : Type}.

Definition lift (s : store A) (h : cells A) : store A := Store h (fresh_tuple s) (blocks_of s).
Definition lift_heap (s : store A) (h : heap) : store A := Store (tuples s) (fresh_tuple s) h.

(** A field of a tuple is assigned. *)
Definition update (f : body A -> body A) (s : store A) (p : nat) : option (store A) :=
  t ← tuples s !! p; Some (lift s (<[p := Tuple (t_list t) (t_hash t) (f (t_body t))]> (tuples s))).

Definition ask (s : store A) : bool * store A :=
  let '(ok, h) := request (blocks_of s) in (ok, lift_heap s h).
Definition give_back (s : store A) : store A := lift_heap s (release (blocks_of s)).

(** [n] tuples of zeros in a row. *)
Definition new_cells (h : cells A) (p n : nat) : cells A :=
  foldr (fun p h => <[p := zero_tuple]> h) h (seq p n).

Definition hmap_init (bucket_size : Z) (s : store A) : Z * option hmap_db * store A :=
  let '(ok, s) := ask s in
  if negb ok then (HMAP_CREATE_DB_ERROR, None, s) else
  let '(ok, s) := if bucket_size <? 0 then (false, s) else ask s in
  if negb ok then (HMAP_CREATE_TUPUL_ERROR, None, s) else
  let n := Z.to_nat bucket_size in
  (HMAP_SUCCESS, Some (HmapDb 0 0 bucket_size (fresh_tuple s) None),
   Store (new_cells (tuples s) (fresh_tuple s) n) (fresh_tuple s + n) (blocks_of s)).

(** [hmap_hash(key, k_len) % bucket_size] *)
Definition index_of (db : hmap_db) (key : list Z) : option Z :=
  if bucket_size db =? 0 then None else Some (Z.rem (hmap_hash key) (bucket_size db)).
Definition root_of (db : hmap_db) (i : Z) : nat := (table db + Z.to_nat i)%nat.

(** The inner loop of [hmap_search] runs round the ring from [itr], the outer one
    starts it at every tuple. *)
Fixpoint scan_loop (h : cells A) (key : list Z) (itr p : option nat) (fuel : nat) : option (option nat) :=
  match fuel with
  | O => None
  | S fuel =>
      match p with
      | None => Some None
      | Some a =>
          t ← h !! a;
          c ← hmap_cmp (t_key (t_body t)) key;
          if c =? 0 then Some p else
          if decide (nxt (t_hash t) = itr) then Some None
          else scan_loop h key itr (nxt (t_hash t)) fuel
      end
  end.

Fixpoint search_loop (h : cells A) (key : list Z) (root : nat) (itr : option nat) (fuel : nat)
    : option (option nat) :=
  match fuel with
  | O => None
  | S fuel =>
      match itr with
      | None => Some None
      | Some a =>
          r ← scan_loop h key itr itr (S (size h));
          match r with
          | Some p => Some (Some p)
          | None =>
              t ← h !! a;
              if decide (nxt (t_hash t) = Some root) then Some None
              else search_loop h key root (nxt (t_hash t)) fuel
          end
      end
  end.

(** The answer and the tuple found. *)
Definition hmap_search (s : store A) (db : hmap_db) (key : list Z) : option (Z * option nat) :=
  i ← index_of db key;
  if (length key =? 0)%nat then Some (HMAP_KEY_EMPTY, None) else
  r ← search_loop (tuples s) key (root_of db i) (Some (root_of db i)) (S (size (tuples s)));
  Some (match r with Some p => (HMAP_SUCCESS, Some p) | None => (HMAP_TUPLE_NOT_FOUND, None) end).

Definition hmap_is_locate (s : store A) (db : hmap_db) (key : list Z) : option Z :=
  fst <$> hmap_search s db key.

Definition hmap_get (s : store A) (db : hmap_db) (key : list Z) : option (option (value A)) :=
  '(_, p) ← hmap_search s db key;
  match p with None => Some None | Some p => t ← body_at (tuples s) p; Some (Some (t_vals t)) end.

(** What is stored for an argument: the value, the type and [data_len], which
    only characters set.  The block of the characters is one more request. *)
Definition arg_value (a : arg A) : option (value A * hmap_data_type) :=
  match a with
  | ArgInt i => Some (ValInt i, HMAP_DATA_TYPE_INT)
  | ArgUint i => Some (ValUint i, HMAP_DATA_TYPE_UINT)
  | ArgInt64 i => Some (ValLonglong i, HMAP_DATA_TYPE_INT64)
  | ArgUint64 i => Some (ValUlonglong i, HMAP_DATA_TYPE_UINT64)
  | ArgDouble d => Some (ValDouble d, HMAP_DATA_TYPE_DOUBLE)
  | ArgChars x _ => Some (ValChars (Some x), HMAP_DATA_TYPE_CHARS)
  | ArgCustom p => Some (ValCustom p, HMAP_DATA_TYPE_CUSTOM)
  | ArgOther => None
  end.

(** [HMAP_SET_DATA]: the error it returns from [hmap_add] with, if any. *)
Definition set_data (s : store A) (p : nat) (a : arg A) : option (option Z * store A) :=
  match arg_value a with
  | None => Some (Some HMAP_DATA_TYPE_INVALID, s)
  | Some (v, _) =>
      match a with
      | ArgChars x d_len =>
          let '(ok, s) := ask s in
          if (ok : bool) then s ← update (put_vals d_len v) s p; Some (None, s)
          else Some (Some HMAP_ALLOCATED_ERROR, s)
      | _ => s ← update (fun t => put_vals (t_data_len t) v t) s p; Some (None, s)
      end
  end.

Definition arg_type (a : arg A) : hmap_data_type :=
  match arg_value a with Some (_, dt) => dt | None => HMAP_DATA_TYPE_TUPLE end.

Definition with_list (db : hmap_db) (secondary : Z) (first : option nat) : hmap_db :=
  HmapDb (tuple_count db) (secondary_tuple_count db + secondary) (bucket_size db) (table db) first.
Definition counted (db : hmap_db) (n : Z) : hmap_db :=
  HmapDb (tuple_count db + n) (secondary_tuple_count db) (bucket_size db) (table db) (list_tuple db).

(** The tuple of the table is linked: a free one that was never used starts a
    ring of its own, another one is appended to the ring it starts. *)
Definition link_primary (s : store A) (db : hmap_db) (root : nat) : option (store A * hmap_db) :=
  t ← tuples s !! root;
  h ← (if decide (nxt (t_hash t) = None /\ prv (t_hash t) = None)
       then fst <$> ring_append ByHash (tuples s) None root
       else fst <$> ring_append ByHash (tuples s) (Some root) root);
  '(h, l) ← ring_append ByList h (list_tuple db) root;
  Some (lift s h, with_list db 0 l).

Definition link_secondary (s : store A) (db : hmap_db) (root p : nat) : option (store A * hmap_db) :=
  '(h, l) ← ring_append ByList (tuples s) (list_tuple db) p;
  '(h, _) ← ring_append ByHash h (Some root) p;
  Some (lift s h, with_list db 1 l).

(** A new tuple; [byte_zero] and [calloc] clear it. *)
Definition new_tuple (s : store A) : nat * store A :=
  (fresh_tuple s, Store (<[fresh_tuple s := zero_tuple]> (tuples s)) (S (fresh_tuple s)) (blocks_of s)).
Definition free_tuple (s : store A) (p : nat) : store A :=
  give_back (lift s (delete p (tuples s))).

(** [byte_copy(new_tuple->key, k_len, key); new_tuple->key[k_len] = 0] *)
Definition key_fits (key : list Z) : bool := Z.of_nat (length key) <? 1024.

(** When the characters cannot be stored, the tuple is given to [free], even
    one of the table.  The new tuple is cleared before it is tested. *)
Definition hmap_add (s : store A) (db : hmap_db) (key : list Z) (a : arg A) : option (Z * store A * hmap_db) :=
  index ← index_of db key;
  if (length key =? 0)%nat then Some (HMAP_KEY_EMPTY, s, db) else
  '(r, _) ← hmap_search s db key;
  if r =? HMAP_SUCCESS then Some (HMAP_TUPLE_ALREADY_EXIST, s, db) else
  if negb (r =? HMAP_TUPLE_NOT_FOUND) then Some (r, s, db) else
  let root := root_of db index in
  t ← body_at (tuples s) root;
  if (length (t_key t) =? 0)%nat then
    '(e, s) ← set_data s root a;
    match e with
    | Some e => if e =? HMAP_ALLOCATED_ERROR then None else Some (e, s, db)
    | None =>
        if negb (key_fits key) then None else
        s ← update (put_entry key index HMAP_TUPLE_PRIMARY (arg_type a)) s root;
        '(s, db) ← link_primary s db root;
        Some (index, s, counted db 1)
    end
  else
    let '(ok, s) := ask s in
    if negb ok then None else
    let '(p, s) := new_tuple s in
    '(e, s) ← set_data s p a;
    match e with
    | Some e => Some (e, if e =? HMAP_ALLOCATED_ERROR then free_tuple s p else s, db)
    | None =>
        if negb (key_fits key) then None else
        s ← update (put_entry key index HMAP_TUPLE_SECONDARY (arg_type a)) s p;
        '(s, db) ← link_secondary s db root p;
        Some (index, s, counted db 1)
    end.

(** [data_type] and [vals] stay as they are. *)
Definition hmap_add_tuple_with_data (s : store A) (db : hmap_db) (key : list Z) (data : option nat)
    : option (Z * store A * hmap_db) :=
  index ← index_of db key;
  if (length key =? 0)%nat then Some (HMAP_KEY_EMPTY, s, db) else
  '(r, _) ← hmap_search s db key;
  if r =? HMAP_SUCCESS then Some (HMAP_TUPLE_ALREADY_EXIST, s, db) else
  if negb (r =? HMAP_TUPLE_NOT_FOUND) then Some (r, s, db) else
  let root := root_of db index in
  let entry ty t := put_entry key index ty (t_data_type t) (put_data (u64 (-1)) data t) in
  t ← body_at (tuples s) root;
  if (length (t_key t) =? 0)%nat then
    if negb (key_fits key) then None else
    s ← update (entry HMAP_TUPLE_PRIMARY) s root;
    '(s, db) ← link_primary s db root;
    Some (index, s, counted db 1)
  else
    let '(ok, s) := ask s in
    if negb ok then Some (HMAP_ALLOCATED_ERROR, s, db) else
    let '(p, s) := new_tuple s in
    if negb (key_fits key) then None else
    s ← update (entry HMAP_TUPLE_SECONDARY) s p;
    '(s, db) ← link_secondary s db root p;
    Some (index, s, counted db 1).

(** The data go with the type: characters are freed, the others cleared. *)
Definition hmap_free_data (s : store A) (p : nat) : option (Z * store A) :=
  t ← body_at (tuples s) p;
  let clear v := s ← update (fun t => put_vals (t_data_len t) v t) s p; Some (HMAP_SUCCESS, s) in
  match t_data_type t with
  | HMAP_DATA_TYPE_INT => clear (ValInt 0)
  | HMAP_DATA_TYPE_UINT => clear (ValUint 0)
  | HMAP_DATA_TYPE_INT64 => clear (ValLonglong 0)
  | HMAP_DATA_TYPE_UINT64 => clear (ValUlonglong 0)
  | HMAP_DATA_TYPE_DOUBLE => clear (ValDouble 0)
  | HMAP_DATA_TYPE_CHARS =>
      match t_vals t with
      | ValChars c =>
          s ← update (fun t => put_vals (t_data_len t) (ValChars None) t) s p;
          Some (HMAP_SUCCESS, match c with Some _ => give_back s | None => s end)
      | _ => None
      end
  | HMAP_DATA_TYPE_CUSTOM => clear (ValCustom None)
  | HMAP_DATA_TYPE_TUPLE => Some (HMAP_DATA_TYPE_INVALID, s)
  end.

(** A tuple that is there keeps its type. *)
Definition hmap_set (s : store A) (db : hmap_db) (key : list Z) (x : A) (d_len : Z)
    : option (option nat * store A * hmap_db) :=
  if (length key =? 0)%nat then Some (None, s, db) else
  '(_, p) ← hmap_search s db key;
  match p with
  | Some p =>
      '(_, s) ← hmap_free_data s p;
      let '(ok, s) := ask s in
      if (ok : bool) then
        s ← update (put_vals d_len (ValChars (Some x))) s p; Some (Some p, s, db)
      else s ← update (fun t => put_vals (t_data_len t) (ValChars None) t) s p; Some (None, s, db)
  | None =>
      '(_, s, db) ← hmap_add s db key (ArgChars x d_len);
      '(_, p) ← hmap_search s db key;
      Some (p, s, db)
  end.

(** [free(tuple->data)]; what the pointer leads to belongs to the caller's block. *)
Definition free_custom (s : store A) (t : body A) : store A :=
  match t_data t with Some _ => give_back s | None => s end.

(** The key of a tuple of the table is cleared; another tuple leaves the ring
    and is freed. *)
Definition hmap_delete (s : store A) (db : hmap_db) (key : list Z) : option (Z * store A * hmap_db) :=
  '(r, p) ← hmap_search s db key;
  if (length key =? 0)%nat then Some (HMAP_KEY_EMPTY, s, db) else
  match p with
  | None => Some (r, s, db)
  | Some p =>
      '(h, l) ← ring_remove ByList (tuples s) (list_tuple db) p;
      let s := lift s h in
      t ← body_at (tuples s) p;
      let root := root_of db (t_index t) in
      if decide (root = p) then
        s ← update (put_key []) s root;
        '(_, s) ← hmap_free_data s p;
        s ← update (put_data 0 None) (free_custom s t) root;
        Some (r, s, counted (with_list db 0 l) (-1))
      else
        '(h, _) ← ring_remove ByHash (tuples s) (Some root) p;
        '(_, s) ← hmap_free_data (lift s h) p;
        Some (r, free_tuple (free_custom s t) p, counted (with_list db (-1) l) (-1))
  end.

(** A tuple of the table keeps its key when it has no [data], and always the
    ring it starts; the counts stay. *)
Fixpoint truncate_loop (s : store A) (db : hmap_db) (fuel : nat) : option (store A * hmap_db) :=
  match list_tuple db with
  | None => Some (s, db)
  | Some p =>
      match fuel with
      | O => None
      | S fuel =>
          '(h, l) ← ring_remove ByList (tuples s) (list_tuple db) p;
          '(_, s) ← hmap_free_data (lift s h) p;
          t ← body_at (tuples s) p;
          s ← (match t_data t with
               | Some _ => update (fun t => put_key [] (put_data (t_data_len t) None t)) (give_back s) p
               | None => Some s
               end);
          let s := match t_type t with HMAP_TUPLE_SECONDARY => free_tuple s p | HMAP_TUPLE_PRIMARY => s end in
          truncate_loop s (with_list db 0 l) fuel
      end
  end.

Definition hmap_truncate (s : store A) (db : hmap_db) : option (store A * hmap_db) :=
  truncate_loop s db (S (size (tuples s))).

(** The table and the map itself are one block each. *)
Definition hmap_destroy (s : store A) (db : hmap_db) : option (store A) :=
  '(s, db) ← hmap_truncate s db;
  let h := foldr delete (tuples s) (seq (table db) (Z.to_nat (bucket_size db))) in
  Some (give_back (give_back (lift s h))).

(** ** Walking *)

Definition hmap_begin (db : hmap_db) : option nat := list_tuple db.

Definition hmap_next (s : store A) (db : hmap_db) (p : nat) : option (option nat) :=
  t ← tuples s !! p;
  Some (if decide (list_tuple db = nxt (t_list t)) then None else nxt (t_list t)).

(** The macro [hmap_foreach]. *)
Fixpoint foreach_from {V : Type} (f : nat -> tuple A -> V -> option V) (s : store A) (db : hmap_db)
    (p : option nat) (v : V) (fuel : nat) : option V :=
  match p with
  | None => Some v
  | Some a =>
      match fuel with
      | O => None
      | S fuel =>
          t ← tuples s !! a;
          v ← f a t v;
          p ← hmap_next s db a;
          foreach_from f s db p v fuel
      end
  end.

Definition hmap_foreach {V : Type} (f : nat -> tuple A -> V -> option V) (s : store A) (db : hmap_db) (v : V)
    : option V := foreach_from f s db (hmap_begin db) v (S (size (tuples s))).

Fixpoint size_loop (s : store A) (db : hmap_db) (p : option nat) (ret : Z) (fuel : nat) : option Z :=
  match p with
  | None => Some ret
  | Some a =>
      match fuel with
      | O => None
      | S fuel =>
          t ← tuples s !! a;
          if decide (nxt (t_list t) = list_tuple db) then Some ret
          else size_loop s db (nxt (t_list t)) (u64 (ret + 1)) fuel
      end
  end.

(** The last tuple is not counted. *)
Definition hmap_size (s : store A) (db : hmap_db) : option Z :=
  size_loop s db (list_tuple db) 0 (S (size (tuples s))).

Definition hmap_count (db : hmap_db) : Z := u64 (tuple_count db).

(** [while(a && a != *it2 && a != a->next)]: where the walk stops and its steps. *)
Fixpoint walk_loop (s : store A) (a b : option nat) (n : Z) (fuel : nat) : option (option nat * Z) :=
  match a with
  | None => Some (a, n)
  | Some p =>
      if decide (a = b) then Some (a, n) else
      match fuel with
      | O => None
      | S fuel =>
          t ← tuples s !! p;
          if decide (nxt (t_list t) = a) then Some (a, n) else walk_loop s (nxt (t_list t)) b (n + 1) fuel
      end
  end.

Definition hmap_distance (s : store A) (it1 it2 : option nat) : option Z :=
  '(a, n) ← walk_loop s it1 it2 0 (S (size (tuples s)));
  if decide (a = it2) then Some n else
  '(b, n) ← walk_loop s it2 it1 0 (S (size (tuples s)));
  Some (if decide (b = it1) then n else -1).
End operations.

(** Keys and characters as terminated strings and [stralloc]s. *)
Definition hmap_set_chars (s : store (list Z)) (db : hmap_db) (key data : list Z)
    : option (Z * store (list Z) * hmap_db) :=
  k ← str_len key; d ← str_len data;
  if (k =? 0)%nat || (d =? 0)%nat then None
  else hmap_add s db (take k key) (ArgChars (take d data) (Z.of_nat d)).

Definition hmap_set_stralloc (m : mem) (s : store (list Z)) (db : hmap_db) (key data : stralloc)
    : option (Z * store (list Z) * hmap_db) :=
  _ ← sa_s key; _ ← sa_s data;
  if (sa_len key =? 0) || (sa_len data =? 0) then None else
  k ← sa_view m key; d ← sa_view m data;
  hmap_add s db (take (Z.to_nat (sa_len key)) k)
    (ArgChars (take (Z.to_nat (sa_len data)) d) (sa_len data)).

(** * The contract *)

Section contract.
Context {A : Type}.

(** The links of one kind, and what the tuples hold besides. *)
Definition links_next (w : which) (h : cells A) : gmap nat (option nat) :=
  (fun t => nxt (get_link w t)) <$> h.
Definition links_prev (w : which) (h : cells A) : gmap nat (option nat) :=
  (fun t => prv (get_link w t)) <$> h.
Definition link_at (w : which) (h : cells A) (p : nat) : option link := get_link w <$> h !! p.

(** The tuples [xs] are a ring in this order. *)
Record ring (w : which) (h : cells A) (xs : list nat) : Prop := Ring {
  ring_nodup : NoDup xs;
  ring_next : chain (links_next w h) xs (first xs None);
  ring_prev : chain (links_prev w h) (reverse xs) (first (reverse xs) None)
}.

(** Only links of the kind [w] were written, and only those of [zs]. *)
Record relinks (w : which) (zs : list nat) (h h' : cells A) : Prop := Relinks {
  rl_bodies : forall p, body_at h' p = body_at h p;
  rl_others : forall w' p, w' <> w -> link_at w' h' p = link_at w' h p;
  rl_frame : forall p, p ∉ zs -> h' !! p = h !! p
}.

(** ** Maps

    A tuple in the order of [list_tuple], with the key and the value it holds.
    [P] are the keys whose tuples are those of the table. *)
Definition entry : Type := nat * (list Z * A).

Definition bucket_of (db : hmap_db) (k : list Z) : Z := Z.rem (hmap_hash k) (bucket_size db).
Definition in_table (db : hmap_db) (p : nat) : Prop :=
  (table db <= p < table db + Z.to_nat (bucket_size db))%nat.

(** The tuples in the ring of a bucket behind that of the table. *)
Definition collisions (db : hmap_db) (P : gset (list Z)) (es : list entry) (i : Z) : list nat :=
  fst <$> filter (fun x : entry => x.2.1 ∉ P /\ bucket_of db x.2.1 = i) es.

Definition holds (h : cells A) (db : hmap_db) (P : gset (list Z)) (x : entry) : Prop :=
  exists n, body_at h x.1 = Some (Body x.2.1
    (if decide (x.2.1 ∈ P) then HMAP_TUPLE_PRIMARY else HMAP_TUPLE_SECONDARY)
    (bucket_of db x.2.1) n None HMAP_DATA_TYPE_CHARS (ValChars (Some x.2.2))).

(** A tuple of the table that is not in use. *)
Definition free_root (h : cells A) (p : nat) : Prop :=
  exists b, body_at h p = Some b /\ t_key b = [] /\ t_data b = None.

(** The ring of a bucket, or a tuple that was never used. *)
Definition bucket_ok (h : cells A) (root : nat) (xs : list nat) : Prop :=
  ring ByHash h (root :: xs) \/ link_at ByHash h root = Some (Link None None) /\ xs = [].

Record hrep (s : store A) (db : hmap_db) (es : list entry) (P : gset (list Z)) (base : Z) : Prop := Hrep {
  hr_size : 0 < bucket_size db;
  hr_list : ring ByList (tuples s) es.*1;
  hr_first : list_tuple db = first es.*1 None;
  hr_hash : forall i, 0 <= i < bucket_size db ->
    bucket_ok (tuples s) (root_of db i) (collisions db P es i);
  hr_free : forall i, 0 <= i < bucket_size db ->
    (exists k, k ∈ P /\ bucket_of db k = i /\ ring ByHash (tuples s) (root_of db i :: collisions db P es i)) \/
    free_root (tuples s) (root_of db i) /\ forall k, k ∈ P -> bucket_of db k <> i;
  hr_holds : forall x, x ∈ es -> holds (tuples s) db P x;
  hr_keys : NoDup es.*2.*1;
  hr_prim : forall k, k ∈ P -> k ∈ es.*2.*1;
  hr_place : forall x, x ∈ es -> x.2.1 <> [] /\
    if decide (x.2.1 ∈ P) then x.1 = root_of db (bucket_of db x.2.1) else ~ in_table db x.1;
  hr_fresh : forall p, is_Some (tuples s !! p) -> (p < fresh_tuple s)%nat;
  hr_answers : Heap.answers (blocks_of s) = [];
  hr_live : live (blocks_of s) = base + 2 * Z.of_nat (length es) - Z.of_nat (size P);
  hr_count : tuple_count db = Z.of_nat (length es);
  hr_second : secondary_tuple_count db = Z.of_nat (length es) - Z.of_nat (size P)
}.
End contract.

(** * Lemmas *)

(** ** Links *)

Section ring_lemmas.
Context {A : Type} (w : which).
Implicit Types (h : cells A) (xs ys zs : list nat) (p q : nat).

Lemma relinks_refl h : relinks w [] h h.
Proof. done. Qed.

Lemma relinks_trans h h1 h2 xs ys zs :
  relinks w xs h h1 -> relinks w ys h1 h2 -> (forall p, p ∈ xs \/ p ∈ ys -> p ∈ zs) -> relinks w zs h h2.
Proof.
  intros [B1 O1 F1] [B2 O2 F2] Hz. split; [congruence|..].
  - intros w' p Hw. by rewrite O2, O1.
  - intros p Hp. rewrite F2, F1; [done|..]; intros Hin; apply Hp, Hz; auto.
Qed.

Lemma put_link_get (l : link) (t : tuple A) : get_link w (put_link w l t) = l.
Proof. by destruct w. Qed.

Lemma put_link_other (w' : which) (l : link) (t : tuple A) :
  w' <> w -> get_link w' (put_link w l t) = get_link w' t.
Proof. by destruct w, w'. Qed.

Lemma put_link_body (l : link) (t : tuple A) : t_body (put_link w l t) = t_body t.
Proof. by destruct w. Qed.

Lemma relinks_put h p l (t : tuple A) :
  h !! p = Some t -> relinks w [p] h (<[p := put_link w l t]> h).
Proof.
  intros Hp. split.
  - intros q. unfold body_at. destruct (decide (q = p)) as [->|Hq];
      [by rewrite lookup_insert_eq, Hp; cbn; rewrite put_link_body|by rewrite lookup_insert_ne].
  - intros w' q Hw. unfold link_at. destruct (decide (q = p)) as [->|Hq];
      [by rewrite lookup_insert_eq, Hp; cbn; rewrite put_link_other|by rewrite lookup_insert_ne].
  - intros q Hq. rewrite lookup_insert_ne; [done|]. set_solver.
Qed.

Lemma set_nxt_ok h p v :
  is_Some (h !! p) ->
  exists h', set_nxt w h (Some p) v = Some h' /\ links_next w h' = <[p := v]> (links_next w h) /\
    links_prev w h' = links_prev w h /\ relinks w [p] h h'.
Proof.
  intros [t Ht]. unfold set_nxt. cbn [mbind option_bind]. rewrite Ht. cbn [mbind option_bind]. eexists. split; [done|].
  unfold links_next, links_prev. rewrite !fmap_insert, !put_link_get. cbn [nxt prv]. split; [done|].
  split; [apply insert_id; by rewrite lookup_fmap, Ht|]. by apply relinks_put.
Qed.

Lemma set_prv_ok h p v :
  is_Some (h !! p) ->
  exists h', set_prv w h (Some p) v = Some h' /\ links_next w h' = links_next w h /\
    links_prev w h' = <[p := v]> (links_prev w h) /\ relinks w [p] h h'.
Proof.
  intros [t Ht]. unfold set_prv. cbn [mbind option_bind]. rewrite Ht. cbn [mbind option_bind]. eexists. split; [done|].
  unfold links_next, links_prev. rewrite !fmap_insert, !put_link_get. cbn [nxt prv].
  split; [apply insert_id; by rewrite lookup_fmap, Ht|]. split; [done|]. by apply relinks_put.
Qed.

Lemma deref_ok h p (n q : option nat) :
  links_next w h !! p = Some n -> links_prev w h !! p = Some q -> deref w h (Some p) = Some (Link n q).
Proof.
  unfold links_next, links_prev, deref. cbn [mbind option_bind]. rewrite !lookup_fmap.
  destruct (h !! p) as [t|]; [|done]. cbn.
  intros [= <-] [= <-]. by destruct (get_link w t).
Qed.

Lemma relinks_is_Some h h' zs p : relinks w zs h h' -> is_Some (h !! p) -> is_Some (h' !! p).
Proof.
  intros [B _ _] [t Ht]. specialize (B p). unfold body_at in B. rewrite Ht in B.
  destruct (h' !! p); [by eexists|done].
Qed.

Lemma ring_in h xs p : ring w h xs -> p ∈ xs -> is_Some (h !! p).
Proof.
  intros [_ Hn _] Hp. destruct (chain_lookup _ _ _ p Hn Hp) as [v Hv].
  unfold links_next in Hv. rewrite lookup_fmap in Hv. destruct (h !! p); [by eexists|done].
Qed.

Lemma ring_rotate h xs ys : ring w h (xs ++ ys) -> ring w h (ys ++ xs).
Proof.
  intros [Hd Hn Hp]. split; [by rewrite Permutation_app_comm| |].
  - destruct xs as [|x xs]; [by rewrite app_nil_r|]. destruct ys as [|y ys]; [by rewrite app_nil_r in Hn|].
    rewrite chain_app in *. cbn [first app] in *. tauto.
  - rewrite reverse_app in *. destruct (reverse xs) as [|x xs']; [by rewrite app_nil_r in Hp|].
    destruct (reverse ys) as [|y ys']; [by rewrite app_nil_r|]. rewrite chain_app in *. cbn [first app] in *. tauto.
Qed.

(** A ring is made of the links of its tuples alone. *)
Lemma ring_agree h h' xs :
  ring w h xs -> (forall p, p ∈ xs -> link_at w h' p = link_at w h p) -> ring w h' xs.
Proof.
  intros [Hd Hn Hp] Ha. split; [done|..]; (eapply chain_ext; [|done]); intros p Hin;
    [specialize (Ha p Hin)|specialize (Ha p (proj1 (elem_of_reverse _ _) Hin))];
    unfold link_at in Ha; unfold links_next, links_prev; rewrite !lookup_fmap;
    destruct (h !! p), (h' !! p); cbn in *; congruence.
Qed.

(** Writes to other tuples, or to links of the other kind. *)
Lemma ring_frame h h' xs zs w' :
  ring w h xs -> relinks w' zs h h' -> w' <> w \/ (forall p, p ∈ xs -> p ∉ zs) -> ring w h' xs.
Proof.
  intros H [_ Ho Hf] Hd. apply (ring_agree h); [done|]. intros p Hp. destruct Hd as [Hw|Hz].
  - apply Ho. congruence.
  - unfold link_at. by rewrite Hf by by apply Hz.
Qed.

(** The two ends of a ring that is not empty. *)
Lemma ends_of xs : xs <> [] ->
  exists f ys l zs, xs = f :: ys /\ xs = zs ++ [l] /\ reverse xs = l :: reverse zs /\
    reverse xs = reverse ys ++ [f].
Proof.
  intros Hne. destruct xs as [|f ys]; [done|]. destruct (last_case (f :: ys)) as [|(zs & l & E)]; [done|].
  exists f, ys, l, zs. split; [done|]. split; [done|]. split; [|by rewrite reverse_cons].
  by rewrite E, reverse_app.
Qed.

Lemma ring_append_ok h xs p :
  ring w h xs -> p ∉ xs -> is_Some (h !! p) ->
  exists h', ring_append w h (first xs None) p = Some (h', first (xs ++ [p]) None) /\
    ring w h' (xs ++ [p]) /\ relinks w (p :: xs) h h'.
Proof.
  intros H Hp Hs. pose proof H as [Hd Hn Hv]. destruct (decide (xs = [])) as [->|Hne].
  - cbn [first ring_append app].
    destruct (set_nxt_ok h p (Some p) Hs) as (h1 & -> & N1 & P1 & R1). cbn [mbind option_bind].
    destruct (set_prv_ok h1 p (Some p)) as (h2 & -> & N2 & P2 & R2); [by eapply relinks_is_Some|].
    exists h2. split; [done|]. split; [|eapply relinks_trans; [done..|set_solver]].
    split; [by apply NoDup_singleton|..]; cbn; (split; [|done]);
      rewrite ?P2, ?N2, ?N1; by rewrite lookup_insert_eq.
  - destruct (ends_of xs Hne) as (f & ys & l & zs & Ef & El & Er & Er').
    assert (links_next w h !! f = Some (first ys (Some f))) as Hnf by (rewrite Ef in Hn; apply Hn).
    assert (links_prev w h !! f = Some (Some l)) as Hpf
      by (rewrite Er' in Hv; rewrite (chain_mid _ _ _ _ _ Hv), <- Er', Er; done).
    assert (f ∈ xs /\ l ∈ xs) as [Hf Hl] by (rewrite Ef at 1; rewrite El; set_solver).
    assert (forall e, first xs e = Some f) as Ff by (intros; by rewrite Ef).
    rewrite Ff. cbn [ring_append]. rewrite (deref_ok _ _ _ _ Hnf Hpf). cbn [mbind option_bind prv].
    destruct (set_prv_ok h p (Some l) Hs) as (h1 & -> & N1 & P1 & R1). cbn [mbind option_bind].
    destruct (set_nxt_ok h1 p (Some f)) as (h2 & -> & N2 & P2 & R2); [by eapply relinks_is_Some|].
    cbn [mbind option_bind]. erewrite (deref_ok h2 f).
    2:{ rewrite N2, N1, lookup_insert_ne by congruence. exact Hnf. }
    2:{ rewrite P2, P1, lookup_insert_ne by congruence. exact Hpf. }
    cbn [mbind option_bind prv].
    destruct (set_nxt_ok h2 l (Some p)) as (h3 & -> & N3 & P3 & R3).
    { eapply relinks_is_Some; [exact R2|]. eapply relinks_is_Some; [exact R1|]. by apply (ring_in h xs). }
    cbn [mbind option_bind]. destruct (set_prv_ok h3 f (Some p)) as (h4 & -> & N4 & P4 & R4).
    { eapply relinks_is_Some; [exact R3|]. eapply relinks_is_Some; [exact R2|].
      eapply relinks_is_Some; [exact R1|]. by apply (ring_in h xs). }
    exists h4. split; [by rewrite first_app, Ff|]. split.
    + split; [apply list.NoDup_app; split; [done|split; [set_solver|by apply NoDup_singleton]]|..].
      * rewrite N4, N3, N2, N1, El, <- app_assoc. cbn [app].
        assert (first (zs ++ [l; p]) None = Some f) as ->
          by (change [l; p] with ([l] ++ [p]); by rewrite app_assoc, <- El, first_app, Ff).
        apply (chain_add _ zs [] l p); rewrite <- El; [done|done|]. by rewrite Ff in Hn.
      * rewrite P4, P3, P2, P1, reverse_app. cbn [reverse rev_append app first].
        change (reverse [p] ++ reverse xs) with (p :: reverse xs). cbn [chain first]. split.
        { rewrite lookup_insert_ne by (intros ->; done). by rewrite lookup_insert_eq, Er. }
        rewrite Er'. apply (chain_redirect _ _ _ (Some l)).
        { rewrite elem_of_reverse. rewrite Ef in Hd. by apply list.NoDup_cons in Hd as [? _]. }
        rewrite <- Er'. apply chain_ne; [by rewrite elem_of_reverse|]. by rewrite Er in *.
    + assert (relinks w [p] h h2) as R12 by (eapply relinks_trans; [exact R1|exact R2|set_solver]).
      assert (relinks w [l; f] h2 h4) as R34 by (eapply relinks_trans; [exact R3|exact R4|set_solver]).
      eapply relinks_trans; [exact R12|exact R34|set_solver].
Qed.

Lemma ring_unlink_ok h p zs :
  ring w h (p :: zs) -> zs <> [] ->
  exists h', ring_unlink w h p = Some h' /\ ring w h' zs /\ relinks w zs h h' /\
    deref w h (Some p) = Some (Link (first zs None) (first (reverse zs) None)).
Proof.
  intros H Hne. pose proof H as [[Hp Hd]%list.NoDup_cons [Hn Hns] Hv].
  destruct (ends_of zs Hne) as (f & ys & l & xs & Ef & El & Er & Er').
  rewrite reverse_cons in Hv. pose proof (chain_mid _ _ _ _ _ Hv) as Hpp.
  cbn [first] in Hpp, Hn, Hns.
  assert (first (reverse zs ++ [p]) None = Some l) as E by by rewrite Er. rewrite E in *.
  assert (first zs (Some p) = Some f) as E' by by rewrite Ef. rewrite E' in *.
  rewrite chain_app in Hv. destruct Hv as [Hv _]. cbn [first] in Hv.
  unfold ring_unlink. rewrite (deref_ok _ _ _ _ Hn Hpp). cbn [mbind option_bind nxt prv].
  assert (f ∈ zs /\ l ∈ zs) as [Hf Hl] by (rewrite Ef at 1; rewrite El; set_solver).
  destruct (set_prv_ok h f (Some l)) as (h1 & -> & N1 & P1 & R1); [apply (ring_in h (p :: zs)); [done|set_solver]|].
  cbn [mbind option_bind]. erewrite (deref_ok h1 p); [|by rewrite N1|rewrite P1, lookup_insert_ne; [exact Hpp|congruence]].
  cbn [mbind option_bind nxt prv].
  destruct (set_nxt_ok h1 l (Some f)) as (h2 & -> & N2 & P2 & R2).
  { eapply relinks_is_Some; [exact R1|]. apply (ring_in h (p :: zs)); [done|set_solver]. }
  exists h2. split; [done|].
  assert (first zs None = Some f) as Ff by by rewrite Ef.
  assert (first (reverse zs) None = Some l) as Fl by by rewrite Er.
  rewrite Ff, Fl. split; [|split; [eapply relinks_trans; [exact R1|exact R2|set_solver]|done]].
  split; [done|..]; rewrite ?Ff, ?Fl.
  - rewrite N2, N1, El. apply (chain_redirect _ _ _ (Some p)).
    + rewrite El in Hd. apply list.NoDup_app in Hd as (_ & Hd & _). intros Hin. by apply (Hd _ Hin), list_elem_of_here.
    + by rewrite <- El.
  - rewrite P2, P1, Er'. apply (chain_redirect _ _ _ (Some p)).
    + rewrite elem_of_reverse. rewrite Ef in Hd. by apply list.NoDup_cons in Hd as [? _].
    + by rewrite <- Er'.
Qed.

Lemma ring_remove_ok h L R p :
  ring w h (L ++ p :: R) ->
  exists h', ring_remove w h (first (L ++ p :: R) None) p = Some (h', first (L ++ R) None) /\
    ring w h' (L ++ R) /\ relinks w (L ++ p :: R) h h'.
Proof.
  intros H. unfold ring_remove.
  assert (exists h1, (if decide (first (L ++ p :: R) None = Some p) then
      f ← deref w h (first (L ++ p :: R) None);
      if decide (nxt f = first (L ++ p :: R) None) then Some (h, None)
      else h' ← ring_unlink w h p; Some (h', nxt f)
    else h ← ring_unlink w h p; Some (h, first (L ++ p :: R) None)) = Some (h1, first (L ++ R) None) /\
    ring w h1 (L ++ R) /\ relinks w (L ++ R) h h1) as (h1 & -> & H1 & R1).
  { pose proof (ring_rotate _ _ _ H) as Hr. cbn [app] in Hr.
    destruct (decide (R ++ L = [])) as [E|Hne].
    - apply app_nil in E as [-> ->]. cbn [app first]. rewrite decide_True by done.
      destruct H as [_ [Hn _] [Hv _]]. cbn in Hn, Hv. rewrite (deref_ok _ _ _ _ Hn Hv).
      cbn [mbind option_bind nxt]. rewrite decide_True by done. exists h. split; [done|].
      split; [split; [constructor|done|done]|apply relinks_refl].
    - destruct (ring_unlink_ok h p (R ++ L) Hr Hne) as (h1 & Hu & H1 & R1 & Hd). rewrite Hu.
      exists h1. split; [|split; [by apply ring_rotate|eapply relinks_trans; [exact R1|apply relinks_refl|set_solver]]].
      destruct L as [|a L].
      + cbn [app first]. rewrite decide_True by done. rewrite Hd. cbn [mbind option_bind nxt].
        rewrite app_nil_r. rewrite decide_False; [done|].
        intros E. destruct R as [|b R]; [done|]. injection E as ->.
        destruct H as [Hnd _ _]. cbn in Hnd. apply list.NoDup_cons in Hnd as [Hnd _]. by apply Hnd, list_elem_of_here.
      + cbn [app first]. rewrite decide_False; [done|]. intros [= ->].
        destruct H as [Hnd _ _]. cbn in Hnd. apply list.NoDup_cons in Hnd as [Hnd _]. apply Hnd. set_solver. }
  cbn [mbind option_bind].
  assert (is_Some (h1 !! p)) as Hs1 by (eapply relinks_is_Some; [exact R1|]; apply (ring_in _ _ _ H); set_solver).
  destruct (set_nxt_ok h1 p None Hs1) as (h2 & -> & _ & _ & R2). cbn [mbind option_bind].
  destruct (set_prv_ok h2 p None) as (h3 & -> & _ & _ & R3); [by eapply relinks_is_Some|].
  cbn [mbind option_bind]. exists h3. split; [done|].
  assert (relinks w [p] h1 h3) as R13 by (eapply relinks_trans; [done..|set_solver]). split.
  - eapply ring_frame; [exact H1|exact R13|]. right. intros q Hq ->%list_elem_of_singleton.
    destruct H as [Hnd _ _]. apply list.NoDup_app in Hnd as (_ & Hnd & [Hpb _]%list.NoDup_cons).
    apply elem_of_app in Hq as [Hq|Hq]; [|done]. by apply (Hnd p Hq), list_elem_of_here.
  - eapply relinks_trans; [exact R1|exact R13|]. set_solver.
Qed.
End ring_lemmas.

(** ** Searching *)

Lemma hmap_cmp_ok (v1 v2 : list Z) : exists c, hmap_cmp v1 v2 = Some c /\ (c = 0 <-> v1 = v2).
Proof.
  unfold hmap_cmp. destruct (Nat.eqb_spec (length v1) (length v2)) as [E|E].
  - revert v2 E. induction v1 as [|x v1 IH]; intros [|y v2] E; try done; [by exists 0|].
    cbn [length byte_diff] in *. destruct (Z.eqb_spec (x - y) 0) as [Hxy|Hxy]; cbn [negb].
    + destruct (IH v2) as (c & -> & Hc); [lia|]. exists c. split; [done|]. rewrite Hc.
      assert (x = y) as -> by lia. split; [by intros ->|by intros [= ->]].
    + exists (x - y). split; [done|]. split; [lia|]. intros [= -> _]. lia.
  - exists (-1). split; [done|]. split; [lia|]. by intros ->.
Qed.

Section search.
Context {A : Type} (h : cells A) (key : list Z).

Definition key_at (p : nat) : option (list Z) := t_key <$> body_at h p.

Lemma ring_size (w : which) (xs : list nat) : ring w h xs -> (length xs <= size h)%nat.
Proof.
  intros H. pose proof (ring_nodup _ _ _ H) as Hd.
  rewrite <- size_dom, <- (size_list_to_set (C := gset nat) xs Hd).
  apply subseteq_size. intros x Hx. apply elem_of_list_to_set in Hx. apply elem_of_dom. by eapply ring_in.
Qed.

Lemma scan_ok (itr : nat) (R : list nat) : forall p fuel,
  chain (links_next ByHash h) (p :: R) (Some itr) -> itr ∉ R -> (length R < fuel)%nat ->
  scan_loop h key (Some itr) (Some p) fuel = Some (snd <$> list_find (fun p => key_at p = Some key) (p :: R)).
Proof.
  induction R as [|q R IH]; intros p [|fuel] [Hp Hc] Hi Hf; try (simpl in Hf; lia);
    unfold links_next in Hp; rewrite lookup_fmap in Hp; destruct (h !! p) as [t|] eqn:Ht; try done;
    cbn [fmap option_fmap option_map get_link] in Hp; injection Hp as Hp;
    cbn [scan_loop]; rewrite Ht; cbn [mbind option_bind];
    destruct (hmap_cmp_ok (t_key (t_body t)) key) as (c & -> & Hck); cbn [mbind option_bind list_find];
    assert (key_at p = Some (t_key (t_body t))) as Hk by (unfold key_at, body_at; by rewrite Ht);
    assert (c = 0 <-> key_at p = Some key) as Hkey by (rewrite Hk, Hck; split; [by intros ->|by intros [= ->]]);
    destruct (decide (key_at p = Some key)) as [E|E]; [by rewrite (proj2 Hkey E)| |by rewrite (proj2 Hkey E)|];
    assert (c <> 0) as Hc0 by tauto; replace (c =? 0) with false by lia.
  - by rewrite Hp, decide_True.
  - rewrite Hp. cbn [first]. rewrite decide_False by (intros [= ->]; by apply Hi, list_elem_of_here).
    rewrite IH; [|done|set_solver|simpl in Hf; lia].
    cbn [list_find]. destruct (decide _); [done|]. by destruct (list_find _ R) as [[]|].
Qed.

Lemma search_none (root : nat) (R : list nat) : forall L itr fuel,
  ring ByHash h (L ++ itr :: R) -> first (L ++ [itr]) None = Some root ->
  (forall p, p ∈ L ++ itr :: R -> key_at p <> Some key) -> (length R < fuel)%nat ->
  search_loop h key root (Some itr) fuel = Some None.
Proof.
  induction R as [|q R IH]; intros L itr [|fuel] H Hroot Hno Hf; try (simpl in Hf; lia); cbn [search_loop];
    pose proof (ring_rotate _ _ _ _ H) as Hr; pose proof (ring_size _ _ Hr) as Hsz; cbn [app length] in Hr, Hsz;
    destruct Hr as [[Hi Hd]%list.NoDup_cons Hn _];
    rewrite (scan_ok itr _ itr (S (size h)) Hn Hi ltac:(cbn [length app]; lia));
    (match goal with |- context [list_find ?P ?l] => assert (list_find P l = None) as ->
      by (apply list_find_None, list.Forall_forall; intros p Hp; apply Hno; set_solver) end);
    destruct Hn as [Hn _]; unfold links_next in Hn; rewrite lookup_fmap in Hn;
    destruct (h !! itr) as [t|] eqn:Ht; try done; cbn [fmap option_fmap option_map get_link] in Hn; injection Hn as Hn;
    cbn [mbind option_bind fmap option_fmap option_map].
  - rewrite Hn, decide_True; [done|]. cbn [app]. destruct L as [|l L]; [done|]. done.
  - rewrite Hn. cbn [app first]. rewrite decide_False.
    + apply (IH (L ++ [itr])); [by rewrite <- app_assoc|by destruct L|by rewrite <- app_assoc|simpl in Hf; lia].
    + intros [= ->]. apply not_elem_of_cons in Hi as [Hi1 Hi2]. destruct L as [|l L]; cbn in Hroot; injection Hroot as ->; [done|].
      apply list.NoDup_cons in Hd as [Hd _]. apply Hd. set_solver.
Qed.

(** The search finds the tuple of the ring with the key. *)
Lemma search_loop_ok (root : nat) (xs : list nat) :
  ring ByHash h (root :: xs) ->
  search_loop h key root (Some root) (S (size h)) =
    Some (snd <$> list_find (fun p => key_at p = Some key) (root :: xs)).
Proof.
  intros H. pose proof (ring_size _ _ H) as Hsz. cbn [length] in Hsz. cbn [search_loop].
  destruct (list_find (fun p => key_at p = Some key) (root :: xs)) as [[i p]|] eqn:E.
  - destruct H as [[Hi Hd]%list.NoDup_cons Hn _]. rewrite (scan_ok root _ root (S (size h)) Hn Hi ltac:(lia)). by rewrite E.
  - pose proof (search_none root xs [] root (S (size h)) H eq_refl) as Hs. cbn [search_loop] in Hs.
    rewrite Hs; [done| |lia]. intros p Hp. apply list_find_None in E.
    by apply (proj1 (list.Forall_forall _ _) E).
Qed.
End search.

(** ** The search in a map *)

Section map_lemmas.
Context {A : Type}.
Implicit Types (s : store A) (db : hmap_db) (es : list (@entry A)) (P : gset (list Z)).

Lemma bucket_range db k : 0 < bucket_size db -> 0 <= bucket_of db k < bucket_size db.
Proof.
  intros Hn. unfold bucket_of. apply Z.rem_bound_pos; [|done].
  unfold hmap_hash. rewrite Z.land_ones by lia. apply Z.mod_pos_bound. lia.
Qed.

Lemma index_of_ok db k : 0 < bucket_size db -> index_of db k = Some (bucket_of db k).
Proof. intros Hn. unfold index_of. by replace (bucket_size db =? 0) with false by lia. Qed.

Lemma collisions_in db P es i p :
  p ∈ collisions db P es i <-> exists k x, (p, (k, x)) ∈ es /\ k ∉ P /\ bucket_of db k = i.
Proof.
  unfold collisions. rewrite list_elem_of_fmap. split.
  - intros ([p' [k x]] & -> & [[? ?] Hin]%list_elem_of_filter). by exists k, x.
  - intros (k & x & Hin & Hk & Hb). exists (p, (k, x)). split; [done|]. by apply list_elem_of_filter.
Qed.

Lemma key_in es k : k ∈ es.*2.*1 <-> exists p x, (p, (k, x)) ∈ es.
Proof.
  rewrite list_elem_of_fmap. split.
  - intros ([k' x] & -> & Hin). apply list_elem_of_fmap in Hin as ([p e] & E & Hin). cbn in E. subst e. by exists p, x.
  - intros (p & x & Hin). exists (k, x). split; [done|]. apply list_elem_of_fmap. by exists (p, (k, x)).
Qed.

Lemma hr_bucket_key s db es P base i p k :
  hrep s db es P base -> 0 <= i < bucket_size db -> k <> [] ->
  p ∈ root_of db i :: collisions db P es i -> key_at (tuples s) p = Some k ->
  exists x, (p, (k, x)) ∈ es.
Proof.
  intros H Hi Hk Hp Hkey.
  assert (forall k' x, (p, (k', x)) ∈ es -> exists x, (p, (k, x)) ∈ es) as Hes.
  { intros k' x Hin. destruct (hr_holds _ _ _ _ _ H _ Hin) as [n Hb]. unfold key_at in Hkey.
    cbn [fst snd] in Hb. rewrite Hb in Hkey. injection Hkey as ->. by exists x. }
  apply elem_of_cons in Hp as [->|Hp].
  - destruct (hr_free _ _ _ _ _ H i Hi) as [(k' & Hk' & Hb & _)|[(b & Hb & Hb0 & _) _]].
    + pose proof (hr_prim _ _ _ _ _ H _ Hk') as Hin. apply key_in in Hin as (p & x & Hin).
      pose proof (hr_place _ _ _ _ _ H _ Hin) as [_ Hpl]. cbn [fst snd] in Hpl.
      rewrite decide_True in Hpl by done. rewrite Hb in Hpl. subst p. by eapply Hes.
    + unfold key_at in Hkey. rewrite Hb in Hkey. injection Hkey as <-. congruence.
  - apply collisions_in in Hp as (k' & x & Hin & _). by eapply Hes.
Qed.

(** Keys and tuples determine each other. *)
Lemma hr_unique s db es P base p q k x y :
  hrep s db es P base -> (p, (k, x)) ∈ es -> (q, (k, y)) ∈ es -> p = q /\ x = y.
Proof.
  intros H Hp Hq. apply list_elem_of_lookup in Hp as [i Hi]. apply list_elem_of_lookup in Hq as [j Hj].
  assert (i = j) as ->.
  { apply (NoDup_lookup _ _ _ k (hr_keys _ _ _ _ _ H)); by rewrite !list_lookup_fmap, ?Hi, ?Hj. }
  rewrite Hi in Hj. by injection Hj as -> ->.
Qed.

Lemma hr_search s db es P base k :
  hrep s db es P base -> k <> [] ->
  (forall p x, (p, (k, x)) ∈ es -> hmap_search s db k = Some (HMAP_SUCCESS, Some p)) /\
  (k ∉ es.*2.*1 -> hmap_search s db k = Some (HMAP_TUPLE_NOT_FOUND, None)).
Proof.
  intros H Hk. pose proof (hr_size _ _ _ _ _ H) as Hn. pose proof (bucket_range db k Hn) as Hi.
  set (i := bucket_of db k) in *. set (h := tuples s). set (root := root_of db i).
  assert (exists r, search_loop h k root (Some root) (S (size h)) = Some r /\
    (forall p, r = Some p -> key_at h p = Some k /\ p ∈ root :: collisions db P es i) /\
    (r = None -> forall p x, (p, (k, x)) ∉ es)) as (r & E & Hsome & Hnone).
  { assert (forall p x, (p, (k, x)) ∈ es -> key_at h p = Some k /\ p ∈ root :: collisions db P es i) as Hin.
    { intros p x Hin. split.
      - destruct (hr_holds _ _ _ _ _ H _ Hin) as [n Hb]. unfold key_at, h. cbn [fst snd] in Hb. by rewrite Hb.
      - destruct (hr_place _ _ _ _ _ H _ Hin) as [_ Hpl]. cbn [fst snd] in Hpl.
        apply elem_of_cons. destruct (decide (k ∈ P)) as [HP|HP]; [by left|].
        right. apply collisions_in. by exists k, x. }
    destruct (hr_hash _ _ _ _ _ H i Hi) as [Hr|[Hl Hc]].
    - eexists. split; [by apply search_loop_ok|]. split.
      + intros p Hp. destruct (list_find _ _) as [[j q]|] eqn:Ef; [|done]. injection Hp as ->.
        apply list_find_Some in Ef as (Hj & Hkey & _). split; [done|]. by eapply list_elem_of_lookup_2.
      + intros Hno p x Hpx. destruct (list_find _ _) eqn:Ef; [done|]. apply list_find_None in Ef.
        destruct (Hin p x Hpx) as [Hkey Hp]. by apply (proj1 (list.Forall_forall _ _) Ef p Hp).
    - unfold link_at in Hl. fold root h in Hl. destruct (h !! root) as [t|] eqn:Ht; [|done].
      injection Hl as Hl. cbn [search_loop scan_loop]. rewrite Ht. cbn [mbind option_bind].
      destruct (hmap_cmp_ok (t_key (t_body t)) k) as (c & -> & Hck). cbn [mbind option_bind].
      assert (key_at h root = Some (t_key (t_body t))) as Hkr by (unfold key_at, body_at; by rewrite Ht).
      destruct (Z.eqb_spec c 0) as [Hc0|Hc0].
      + exists (Some root). split; [done|]. split; [|done]. intros p [= <-]. split; [|apply list_elem_of_here].
        rewrite Hkr. f_equal. tauto.
      + exists None. cbn [get_link] in Hl. rewrite Hl. cbn [nxt].
        assert (size h <> 0)%nat as Hsz by (intros Hz; apply map_size_empty_inv in Hz; rewrite Hz in Ht; done).
        destruct (size h) as [|n] eqn:Hs; [done|]. rewrite decide_False by done.
        cbn [search_loop mbind option_bind scan_loop]. rewrite decide_False by done.
        split; [done|]. split; [done|]. intros _ p x Hpx. destruct (Hin p x Hpx) as [Hkey Hp].
        rewrite Hc in Hp. apply list_elem_of_singleton in Hp as ->. rewrite Hkr in Hkey. injection Hkey as Hkey. tauto. }
  unfold hmap_search. rewrite index_of_ok by done. cbn [mbind option_bind].
  replace (length k =? 0)%nat with false by (by destruct k). fold i root h. rewrite E. cbn [mbind option_bind]. split.
  - intros p x Hpx. destruct r as [q|]; [|by destruct (Hnone eq_refl p x)].
    destruct (Hsome q eq_refl) as [Hkey Hq]. destruct (hr_bucket_key _ _ _ _ _ i q k H Hi Hk Hq Hkey) as [y Hy].
    by destruct (hr_unique _ _ _ _ _ _ _ _ _ _ H Hpx Hy) as [-> _].
  - intros Hno. destruct r as [q|]; [|done]. destruct (Hsome q eq_refl) as [Hkey Hq].
    destruct (hr_bucket_key _ _ _ _ _ i q k H Hi Hk Hq Hkey) as [y Hy]. destruct Hno.
    apply key_in. by exists q, y.
Qed.

(** ** Writes to a tuple *)

(** Only what [p] holds besides its links has changed. *)
Record rebody (p : nat) (b : body A) (s s' : store A) : Prop := Rebody {
  rb_links : forall w q, link_at w (tuples s') q = link_at w (tuples s) q;
  rb_body : body_at (tuples s') p = Some b;
  rb_frame : forall q, q <> p -> body_at (tuples s') q = body_at (tuples s) q;
  rb_fresh : fresh_tuple s' = fresh_tuple s
}.

Lemma update_ok s p f b :
  body_at (tuples s) p = Some b ->
  exists s', update f s p = Some s' /\ rebody p (f b) s s' /\ blocks_of s' = blocks_of s.
Proof.
  unfold update, body_at. intros Hb. destruct (tuples s !! p) as [t|] eqn:Ht; [|done]. injection Hb as <-.
  cbn [mbind option_bind]. eexists. split; [done|]. split; [|done]. split; cbn [lift tuples fresh_tuple]; [..|done].
  - intros w q. unfold link_at. destruct (decide (q = p)) as [->|Hq];
      [rewrite lookup_insert_eq, Ht; by destruct w|by rewrite lookup_insert_ne].
  - unfold body_at. by rewrite lookup_insert_eq.
  - intros q Hq. unfold body_at. by rewrite lookup_insert_ne.
Qed.

Lemma rebody_trans p b b' s s1 s2 : rebody p b s s1 -> rebody p b' s1 s2 -> rebody p b' s s2.
Proof.
  intros [L1 B1 F1 R1] [L2 B2 F2 R2]. split; [intros; by rewrite L2|done|intros; by rewrite F2, F1|congruence].
Qed.

(** The blocks play no part. *)
Lemma rebody_heap p b s s' h1 h2 : rebody p b s s' -> rebody p b (lift_heap s h1) (lift_heap s' h2).
Proof. by intros []. Qed.

Lemma body_is_Some (h h' : cells A) p : body_at h' p = body_at h p -> is_Some (h' !! p) -> is_Some (h !! p).
Proof. unfold body_at. intros E [t Ht]. rewrite Ht in E. destruct (h !! p); [by eexists|done]. Qed.

Lemma rebody_is_Some p b s s' q : rebody p b s s' -> is_Some (tuples s' !! q) -> is_Some (tuples s !! q).
Proof.
  intros [L _ _ _] [t Ht]. specialize (L ByList q). unfold link_at in L. rewrite Ht in L.
  destruct (tuples s !! q); [by eexists|done].
Qed.

Lemma ask_ok s : Heap.answers (blocks_of s) = [] ->
  ask s = (true, lift_heap s (Heap [] (live (blocks_of s) + 1))).
Proof. intros H. unfold ask. by rewrite request_granted. Qed.

Lemma root_inj db i j : 0 <= i < bucket_size db -> 0 <= j < bucket_size db -> root_of db i = root_of db j -> i = j.
Proof. unfold root_of. lia. Qed.

Lemma root_in_table db i : 0 <= i < bucket_size db -> in_table db (root_of db i).
Proof. unfold in_table, root_of. lia. Qed.

Lemma table_root db p : in_table db p -> exists i, 0 <= i < bucket_size db /\ p = root_of db i.
Proof. unfold in_table, root_of. intros H. exists (Z.of_nat (p - table db)). lia. Qed.

Lemma hr_root_Some s db es P base i :
  hrep s db es P base -> 0 <= i < bucket_size db -> is_Some (tuples s !! root_of db i).
Proof.
  intros H Hi. destruct (hr_hash _ _ _ _ _ H i Hi) as [Hr|[Hl _]].
  - eapply ring_in; [exact Hr|apply list_elem_of_here].
  - unfold link_at in Hl. destruct (tuples s !! root_of db i); [by eexists|done].
Qed.

Lemma hr_in s db es P base x : hrep s db es P base -> x ∈ es -> is_Some (tuples s !! x.1).
Proof.
  intros H Hx. destruct (hr_holds _ _ _ _ _ H _ Hx) as [n Hb]. unfold body_at in Hb.
  destruct (tuples s !! x.1); [by eexists|done].
Qed.

Lemma bucket_ok_agree (h h' : cells A) (root : nat) (xs : list nat) :
  bucket_ok h root xs -> (forall q, q ∈ root :: xs -> link_at ByHash h' q = link_at ByHash h q) ->
  bucket_ok h' root xs.
Proof.
  intros [H|[H ->]] Ha; [left; by eapply ring_agree|right]. split; [|done]. rewrite Ha; [done|apply list_elem_of_here].
Qed.

Lemma collisions_app db P es es' i : collisions db P (es ++ es') i = collisions db P es i ++ collisions db P es' i.
Proof. unfold collisions. by rewrite list.filter_app, fmap_app. Qed.

(** The tuple of the table of an element says which bucket that is. *)
Lemma hr_root_of s db es P base p k x i :
  hrep s db es P base -> (p, (k, x)) ∈ es -> 0 <= i < bucket_size db -> p = root_of db i ->
  k ∈ P /\ bucket_of db k = i.
Proof.
  intros H Hx Hi ->. destruct (hr_place _ _ _ _ _ H _ Hx) as [_ Hpl]. cbn [fst snd] in Hpl.
  pose proof (bucket_range db k (hr_size _ _ _ _ _ H)). case_decide as HP.
  - split; [done|]. symmetry. by eapply root_inj.
  - destruct Hpl. by apply root_in_table.
Qed.

(** A value is exchanged. *)
Lemma hrep_value s s' db L R p k x y P base n b :
  hrep s db (L ++ (p, (k, x)) :: R) P base ->
  rebody p b s s' -> body_at (tuples s) p = Some (Body k (t_type b) (t_index b) n None HMAP_DATA_TYPE_CHARS (ValChars (Some x))) ->
  b = Body k (t_type b) (t_index b) (t_data_len b) None HMAP_DATA_TYPE_CHARS (ValChars (Some y)) ->
  blocks_of s' = blocks_of s -> hrep s' db (L ++ (p, (k, y)) :: R) P base.
Proof.
  intros H Hre Hbs Hb Hheap. pose proof Hre as [Hl Hbp Hf Hfr].
  assert ((p, (k, x)) ∈ L ++ (p, (k, x)) :: R) as Hx by set_solver.
  assert (forall q z, (q, z) ∈ L \/ (q, z) ∈ R -> q <> p) as Hne.
  { intros q z Hq ->. pose proof (ring_nodup _ _ _ (hr_list _ _ _ _ _ H)) as Hd.
    rewrite fmap_app, fmap_cons in Hd. cbn [fst] in Hd. apply list.NoDup_app in Hd as (_ & Hd & [Hd' _]%list.NoDup_cons).
    destruct Hq as [Hq|Hq].
    - apply (Hd p); [apply list_elem_of_fmap; by exists (p, z)|apply list_elem_of_here].
    - apply Hd'. apply list_elem_of_fmap. by exists (p, z). }
  assert ((L ++ (p, (k, y)) :: R).*1 = (L ++ (p, (k, x)) :: R).*1) as E1 by by rewrite !fmap_app, !fmap_cons.
  assert ((L ++ (p, (k, y)) :: R).*2.*1 = (L ++ (p, (k, x)) :: R).*2.*1) as E2 by by rewrite !fmap_app, !fmap_cons.
  assert (forall i, collisions db P (L ++ (p, (k, y)) :: R) i = collisions db P (L ++ (p, (k, x)) :: R) i) as Ec.
  { intros i. rewrite !collisions_app. f_equal. unfold collisions. rewrite !filter_cons. cbn [fst snd]. by case_decide. }
  split; rewrite ?E1, ?E2.
  - apply H.
  - eapply ring_agree; [apply H|]. intros; apply Hl.
  - apply H.
  - intros i Hi. rewrite Ec. eapply bucket_ok_agree; [by apply (hr_hash _ _ _ _ _ H)|]. intros; apply Hl.
  - intros i Hi. rewrite Ec. destruct (hr_free _ _ _ _ _ H i Hi) as [(k' & Hk' & Hbk & Hr)|[(b' & Hb' & Hfree) Hno]].
    + left. exists k'. split; [done|]. split; [done|]. eapply ring_agree; [exact Hr|]. intros; apply Hl.
    + right. split; [|done]. exists b'. split; [|done]. rewrite Hf; [done|]. intros E. symmetry in E.
      destruct (hr_root_of _ _ _ _ _ _ _ _ _ H Hx Hi E) as [HP Hbk]. by destruct (Hno k HP).
  - intros [q [k' z]] Hz. rewrite elem_of_app, elem_of_cons in Hz.
    assert ((q, (k', z)) = (p, (k, y)) \/ (q <> p /\ (q, (k', z)) ∈ L ++ (p, (k, x)) :: R)) as [[= -> -> ->]|[Hq Hin]].
    { destruct Hz as [Hz|[Hz|Hz]]; [right|by left|right]; (split; [eapply Hne; eauto|set_solver]). }
    + destruct (hr_holds _ _ _ _ _ H _ Hx) as [n' Hh]. cbn [fst snd] in Hh. rewrite Hbs in Hh.
      injection Hh as Hty Hix _. exists (t_data_len b). cbn [fst snd]. rewrite <- Hty, <- Hix, Hbp.
      f_equal. exact Hb.
    + destruct (hr_holds _ _ _ _ _ H _ Hin) as [n' Hh]. exists n'. cbn [fst snd] in *. by rewrite Hf.
  - apply H.
  - apply H.
  - intros [q [k' z]] Hz. assert (exists z', (q, (k', z')) ∈ L ++ (p, (k, x)) :: R) as [z' Hin].
    { rewrite elem_of_app, elem_of_cons in Hz. destruct Hz as [Hz|[[= -> -> ->]|Hz]]; [exists z|exists x|exists z]; set_solver. }
    apply (hr_place _ _ _ _ _ H _ Hin).
  - intros q Hq. rewrite Hfr. eapply hr_fresh; [exact H|]. by eapply rebody_is_Some.
  - rewrite Hheap. apply H.
  - rewrite Hheap. rewrite (hr_live _ _ _ _ _ H), !length_app. cbn [length]. lia.
  - rewrite (hr_count _ _ _ _ _ H), !length_app. done.
  - rewrite (hr_second _ _ _ _ _ H), !length_app. done.
Qed.

Lemma free_data_ok s p b x :
  body_at (tuples s) p = Some b -> t_data_type b = HMAP_DATA_TYPE_CHARS -> t_vals b = ValChars (Some x) ->
  exists s', hmap_free_data s p = Some (HMAP_SUCCESS, s') /\
    rebody p (put_vals (t_data_len b) (ValChars None) b) s s' /\ blocks_of s' = release (blocks_of s).
Proof.
  intros Hb Ht Hv. unfold hmap_free_data. rewrite Hb. cbn [mbind option_bind]. rewrite Ht, Hv.
  destruct (update_ok s p (fun t => put_vals (t_data_len t) (ValChars None) t) b Hb) as (s' & -> & Hre & Hh).
  cbn [mbind option_bind]. exists (give_back s'). split; [done|]. split; [by destruct Hre|].
  unfold give_back, lift_heap. cbn [blocks_of]. by rewrite Hh.
Qed.

(** The elements of a map around a key. *)
Lemma split_key es k : k ∈ es.*2.*1 -> exists L p x R, es = L ++ (p, (k, x)) :: R.
Proof.
  intros (p & x & Hin)%key_in. apply list_elem_of_split in Hin as (L & R & ->). by exists L, p, x, R.
Qed.

Lemma hr_body s db es P base p k x :
  hrep s db es P base -> (p, (k, x)) ∈ es -> exists b, body_at (tuples s) p = Some b /\
    b = Body k (t_type b) (t_index b) (t_data_len b) None HMAP_DATA_TYPE_CHARS (ValChars (Some x)) /\
    t_type b = (if decide (k ∈ P) then HMAP_TUPLE_PRIMARY else HMAP_TUPLE_SECONDARY) /\
    t_index b = bucket_of db k.
Proof.
  intros H Hx. destruct (hr_holds _ _ _ _ _ H _ Hx) as [n Hb]. cbn [fst snd] in Hb. by eexists.
Qed.

Lemma hmap_set_old s db L R p k x y n P base :
  hrep s db (L ++ (p, (k, x)) :: R) P base ->
  exists s', hmap_set s db k y n = Some (Some p, s', db) /\ hrep s' db (L ++ (p, (k, y)) :: R) P base.
Proof.
  intros H. assert ((p, (k, x)) ∈ L ++ (p, (k, x)) :: R) as Hx by set_solver.
  destruct (hr_place _ _ _ _ _ H _ Hx) as [Hk _]. cbn [fst snd] in Hk.
  destruct (hr_search _ _ _ _ _ k H Hk) as [Hs _].
  unfold hmap_set. replace (length k =? 0)%nat with false by (by destruct k).
  rewrite (Hs p x Hx). cbn [mbind option_bind].
  destruct (hr_body _ _ _ _ _ _ _ _ H Hx) as (b & Hb & Eb & _ & _).
  destruct (free_data_ok s p b x Hb) as (s1 & -> & Hre1 & Hh1); [by rewrite Eb|by rewrite Eb|].
  cbn [mbind option_bind]. rewrite ask_ok by (rewrite Hh1; apply H).
  set (s2 := lift_heap s1 (Heap [] (live (blocks_of s1) + 1))).
  destruct (update_ok s2 p (put_vals n (ValChars (Some y))) _ (rb_body _ _ _ _ Hre1)) as (s3 & -> & Hre3 & Hh3).
  cbn [mbind option_bind]. exists s3. split; [done|].
  assert (rebody p (put_vals n (ValChars (Some y)) (put_vals (t_data_len b) (ValChars None) b)) s s3) as Hre.
  { eapply rebody_trans; [|exact Hre3]. by destruct Hre1. }
  eapply hrep_value; [exact H|exact Hre| | |].
  - cbn [put_vals t_type t_index]. rewrite Hb. f_equal. exact Eb.
  - cbn [put_vals t_type t_index t_key t_data t_data_type t_data_len]. by rewrite Eb.
  - rewrite Hh3. unfold s2. cbn [lift_heap blocks_of]. rewrite Hh1. pose proof (hr_answers _ _ _ _ _ H).
    destruct (blocks_of s) as [a lv]. cbn in *. subst a. f_equal. lia.
Qed.

(** ** Adding *)

Lemma self_ring (h : cells A) p l :
  link_at ByHash h p = Some l -> nxt l = Some p -> prv l = Some p -> ring ByHash h [p].
Proof.
  unfold link_at. intros Hl Hn Hp. split; [by apply NoDup_singleton|..]; cbn; unfold links_next, links_prev;
    rewrite lookup_fmap; destruct (h !! p) as [t|]; try done; cbn in *; injection Hl as ->; by rewrite ?Hn, ?Hp.
Qed.

Lemma link_hash_ok (h : cells A) (root : nat) :
  bucket_ok h root [] ->
  exists t h', h !! root = Some t /\
    (if decide (nxt (t_hash t) = None /\ prv (t_hash t) = None)
     then fst <$> ring_append ByHash h None root
     else fst <$> ring_append ByHash h (Some root) root) = Some h' /\
    ring ByHash h' [root] /\ relinks ByHash [root] h h'.
Proof.
  intros [Hr|[Hl _]].
  - pose proof Hr as [_ [Hn _] [Hp _]]. unfold links_next, links_prev in Hn, Hp. cbn in Hn, Hp.
    rewrite lookup_fmap in Hn, Hp. destruct (h !! root) as [t|] eqn:Ht; [|done]. cbn in Hn, Hp.
    injection Hn as Hn. injection Hp as Hp. exists t.
    rewrite decide_False by (intros [E _]; congruence). unfold ring_append.
    assert (deref ByHash h (Some root) = Some (t_hash t)) as Hd by (unfold deref; cbn; by rewrite Ht).
    rewrite Hd. cbn [mbind option_bind].
    assert (is_Some (h !! root)) as Hs by by eexists.
    destruct (set_prv_ok ByHash h root (prv (t_hash t)) Hs) as (h1 & -> & N1 & P1 & R1). cbn [mbind option_bind].
    pose proof (relinks_is_Some _ _ _ _ _ R1 Hs) as Hs1.
    destruct (set_nxt_ok ByHash h1 root (Some root) Hs1) as (h2 & -> & N2 & P2 & R2). cbn [mbind option_bind].
    pose proof (relinks_is_Some _ _ _ _ _ R2 Hs1) as Hs2.
    assert (links_prev ByHash h2 !! root = Some (Some root)) as Hp2 by (rewrite P2, P1, lookup_insert_eq; congruence).
    rewrite (deref_ok ByHash h2 root (Some root) (Some root)); [|by rewrite N2, lookup_insert_eq|done].
    cbn [mbind option_bind prv].
    destruct (set_nxt_ok ByHash h2 root (Some root) Hs2) as (h3 & -> & N3 & P3 & R3). cbn [mbind option_bind].
    pose proof (relinks_is_Some _ _ _ _ _ R3 Hs2) as Hs3.
    destruct (set_prv_ok ByHash h3 root (Some root) Hs3) as (h4 & -> & N4 & P4 & R4). cbn [mbind option_bind].
    exists h4. split; [done|]. split; [done|]. split.
    + split; [by apply NoDup_singleton|..]; cbn; (split; [|done]);
        rewrite ?N4, ?N3, ?P4; by rewrite lookup_insert_eq.
    + do 3 (eapply relinks_trans; [|eassumption|intros q [?|?]; eassumption]). done.
  - unfold link_at in Hl. destruct (h !! root) as [t|] eqn:Ht; [|done]. injection Hl as Hl. cbn in Hl. exists t.
    rewrite decide_True by by rewrite Hl.
    destruct (ring_append_ok ByHash h [] root) as (h' & E & Hr & R).
    + split; [constructor|done|done].
    + apply not_elem_of_nil.
    + by eexists.
    + cbn [first] in E. exists h'. split; [done|]. by rewrite E.
Qed.

Lemma coll_place s db es P base i p :
  hrep s db es P base -> p ∈ collisions db P es i -> ~ in_table db p /\ p ∈ es.*1.
Proof.
  intros H (k & x & Hin & HP & _)%collisions_in. destruct (hr_place _ _ _ _ _ H _ Hin) as [_ Hpl].
  cbn [fst snd] in Hpl. rewrite decide_False in Hpl by done. split; [done|].
  apply list_elem_of_fmap. by exists (p, (k, x)).
Qed.

(** The tuples of a bucket are not those of another. *)
Lemma bucket_disjoint s db es P base i j q :
  hrep s db es P base -> 0 <= i < bucket_size db -> 0 <= j < bucket_size db -> i <> j ->
  q ∈ root_of db j :: collisions db P es j -> q ∉ root_of db i :: collisions db P es i.
Proof.
  intros H Hi Hj Hne Hq Hq'. apply elem_of_cons in Hq as [->|Hq]; apply elem_of_cons in Hq' as [E|Hq'].
  - apply Hne. symmetry. by eapply root_inj.
  - by destruct (coll_place _ _ _ _ _ _ _ H Hq') as [[] _]; apply root_in_table.
  - subst q. by destruct (coll_place _ _ _ _ _ _ _ H Hq) as [[] _]; apply root_in_table.
  - apply collisions_in in Hq as (k & x & Hin & _ & <-). apply collisions_in in Hq' as (k' & x' & Hin' & _ & <-).
    apply Hne. apply list_elem_of_lookup in Hin as [a Ha]. apply list_elem_of_lookup in Hin' as [a' Ha'].
    assert (a = a') as <-.
    { apply (NoDup_lookup _ _ _ q (ring_nodup _ _ _ (hr_list _ _ _ _ _ H))); by rewrite list_lookup_fmap, ?Ha, ?Ha'. }
    rewrite Ha in Ha'. by injection Ha' as -> ->.
Qed.

Definition added (prim : bool) (k : list Z) P : gset (list Z) := if prim then {[k]} ∪ P else P.

Lemma added_other prim k P (k' : list Z) : k' <> k -> k' ∈ added prim k P <-> k' ∈ P.
Proof. intros Hk. unfold added. destruct prim; set_solver. Qed.

Lemma collisions_agree db es P P' i :
  (forall k, k ∈ es.*2.*1 -> k ∈ P' <-> k ∈ P) -> collisions db P' es i = collisions db P es i.
Proof.
  intros Ha. unfold collisions. f_equal. induction es as [|[q [k x]] es IH]; [done|].
  rewrite !filter_cons. cbn [fst snd]. pose proof (Ha k ltac:(apply list_elem_of_here)) as Hk.
  rewrite IH by (intros k' Hk'; apply Ha; by apply list_elem_of_further).
  repeat case_decide; tauto.
Qed.

Lemma collisions_added db es P prim p k v j :
  k ∉ es.*2.*1 -> k ∉ P ->
  collisions db (added prim k P) (es ++ [(p, (k, v))]) j =
    collisions db P es j ++ (if prim then [] else if decide (bucket_of db k = j) then [p] else []).
Proof.
  intros Hk HP. rewrite collisions_app. f_equal.
  - apply collisions_agree. intros k' Hk'. apply added_other. by intros ->.
  - unfold collisions. rewrite filter_cons. cbn [fst snd]. destruct prim; cbn [added].
    + rewrite decide_False by set_solver. done.
    + repeat case_decide; tauto.
Qed.

(** A tuple is put in: that of the table when [prim], and otherwise a new one. *)
Lemma hrep_extend s s' db es P base p k v n (prim : bool) :
  let i := bucket_of db k in
  let cs := collisions db P es i in
  hrep s db es P base -> k <> [] -> k ∉ es.*2.*1 -> p ∉ es.*1 ->
  (if prim then p = root_of db i /\ cs = [] /\ forall k', k' ∈ P -> bucket_of db k' <> i
   else ~ in_table db p /\ exists k', k' ∈ P /\ bucket_of db k' = i) ->
  ring ByList (tuples s') (es.*1 ++ [p]) ->
  ring ByHash (tuples s') (root_of db i :: cs ++ if prim then [] else [p]) ->
  (forall q, q <> p -> body_at (tuples s') q = body_at (tuples s) q) ->
  body_at (tuples s') p = Some (Body k (if prim then HMAP_TUPLE_PRIMARY else HMAP_TUPLE_SECONDARY) i n
    None HMAP_DATA_TYPE_CHARS (ValChars (Some v))) ->
  (forall q, q ∉ root_of db i :: cs -> q <> p -> link_at ByHash (tuples s') q = link_at ByHash (tuples s) q) ->
  (forall q, is_Some (tuples s' !! q) -> (q < fresh_tuple s')%nat) ->
  Heap.answers (blocks_of s') = [] -> live (blocks_of s') = live (blocks_of s) + (if prim then 1 else 2) ->
  hrep s' (counted (with_list db (if prim then 0 else 1) (first (es.*1 ++ [p]) None)) 1)
    (es ++ [(p, (k, v))]) (added prim k P) base.
Proof.
  intros i cs H Hk Hnew Hp Hcase Hrl Hrh Hbody Hbp Hlink Hfr Hans Hlive.
  assert (k ∉ P) as HkP by (intros HP; by apply Hnew, (hr_prim _ _ _ _ _ H)).
  pose proof (hr_size _ _ _ _ _ H) as Hn. pose proof (bucket_range db k Hn) as Hi. fold i in Hi.
  set (db' := counted _ _).
  assert (forall j, collisions db' (added prim k P) (es ++ [(p, (k, v))]) j =
    collisions db P es j ++ (if prim then [] else if decide (i = j) then [p] else [])) as Ec
    by (intros j; apply (collisions_added db es P prim p k v j Hnew HkP)).
  assert (forall x, x ∈ es -> x.2.1 <> k) as Hother.
  { intros [q [k' x]] Hx E. cbn in E. subst k'. apply Hnew, key_in. by exists q, x. }
  assert (forall j q, 0 <= j < bucket_size db -> j <> i -> q ∈ root_of db j :: collisions db P es j ->
    link_at ByHash (tuples s') q = link_at ByHash (tuples s) q) as Hagree.
  { intros j q Hj Hji Hq. apply Hlink.
    - eapply (bucket_disjoint s db es P base i j); first [done|congruence].
    - intros ->. destruct prim.
      + destruct Hcase as (-> & _). apply elem_of_cons in Hq as [E|Hq]; [by apply Hji; symmetry; eapply root_inj|].
        by destruct (coll_place _ _ _ _ _ _ _ H Hq) as [[] _]; apply root_in_table.
      + destruct Hcase as [Hout _]. apply elem_of_cons in Hq as [->|Hq]; [by apply Hout, root_in_table|].
        by destruct (coll_place _ _ _ _ _ _ _ H Hq). }
  assert (forall j, 0 <= j < bucket_size db -> j <> i ->
    collisions db' (added prim k P) (es ++ [(p, (k, v))]) j = collisions db P es j) as Ecj.
  { intros j Hj Hji. rewrite Ec. destruct prim; [apply app_nil_r|]. rewrite decide_False by congruence. apply app_nil_r. }
  assert (collisions db' (added prim k P) (es ++ [(p, (k, v))]) i = cs ++ if prim then [] else [p]) as Eci.
  { rewrite Ec. unfold cs. destruct prim; [done|]. by rewrite decide_True. }
  split; try done.
  - by rewrite fmap_app.
  - by rewrite fmap_app.
  - intros j Hj. destruct (decide (j = i)) as [->|Hji]; [left; by rewrite Eci|].
    rewrite Ecj by done. eapply bucket_ok_agree; [by apply (hr_hash _ _ _ _ _ H)|]. intros q Hq. by eapply Hagree.
  - intros j Hj. destruct (decide (j = i)) as [->|Hji].
    + left. rewrite Eci. destruct prim.
      * exists k. split; [set_solver|]. by split.
      * destruct Hcase as [_ (k' & Hk' & Hb)]. by exists k'.
    + rewrite Ecj by done. destruct (hr_free _ _ _ _ _ H j Hj) as [(k' & Hk' & Hbk & Hr)|[(b & Hb & Hf) Hno]].
      * left. exists k'. split; [|split; [done|]].
        { apply added_other; [|done]. intros ->. congruence. }
        eapply ring_agree; [exact Hr|]. intros q Hq. by eapply Hagree.
      * right. split.
        { exists b. split; [|done]. rewrite Hbody; [done|]. intros E. destruct prim.
          - destruct Hcase as (-> & _). apply Hji. by eapply root_inj.
          - destruct Hcase as [Hout _]. apply Hout. rewrite <- E. exact (root_in_table db j Hj). }
        intros k' Hk' Hb'. destruct (decide (k' = k)) as [->|Hne]; [done|].
        apply added_other in Hk'; [|done]. by apply (Hno k').
  - intros x [Hx| ->%list_elem_of_singleton]%elem_of_app.
    + destruct (hr_holds _ _ _ _ _ H _ Hx) as [n' Hh]. exists n'. rewrite Hbody.
      * rewrite Hh. do 2 f_equal. pose proof (added_other prim k P x.2.1 (Hother x Hx)). repeat case_decide; tauto.
      * intros E. apply Hp. apply list_elem_of_fmap. by exists x.
    + exists n. cbn [fst snd]. rewrite Hbp. do 2 f_equal. destruct prim; cbn [added];
        [by rewrite decide_True by set_solver|by rewrite decide_False].
  - rewrite !fmap_app. apply list.NoDup_app. split; [apply H|]. split; [|by apply NoDup_singleton].
    intros k' Hk' ->%list_elem_of_singleton. done.
  - intros k' Hk'. rewrite !fmap_app. apply elem_of_app. destruct (decide (k' = k)) as [->|Hne]; [right; apply list_elem_of_here|].
    left. apply (hr_prim _ _ _ _ _ H). by apply (added_other prim k P).
  - intros x [Hx| ->%list_elem_of_singleton]%elem_of_app.
    + destruct (hr_place _ _ _ _ _ H _ Hx) as [Hw Hpl]. split; [done|].
      pose proof (added_other prim k P x.2.1 (Hother x Hx)). repeat case_decide; try tauto; done.
    + split; [done|]. cbn [fst snd]. destruct prim; cbn [added].
      * rewrite decide_True by set_solver. apply Hcase.
      * rewrite decide_False by done. apply Hcase.
  - rewrite Hlive, (hr_live _ _ _ _ _ H), length_app. cbn [length]. destruct prim; cbn [added]; [|lia].
    rewrite size_union, size_singleton by set_solver. lia.
  - cbn [db' counted with_list tuple_count]. rewrite (hr_count _ _ _ _ _ H), length_app. cbn [length]. lia.
  - cbn [db' counted with_list secondary_tuple_count]. rewrite (hr_second _ _ _ _ _ H), length_app. cbn [length].
    destruct prim; cbn [added]; [|lia]. rewrite size_union, size_singleton by set_solver. lia.
Qed.

Lemma link_primary_ok s db root ps :
  bucket_ok (tuples s) root [] -> ring ByList (tuples s) ps -> list_tuple db = first ps None -> root ∉ ps ->
  exists s', link_primary s db root = Some (s', with_list db 0 (first (ps ++ [root]) None)) /\
    ring ByList (tuples s') (ps ++ [root]) /\ ring ByHash (tuples s') [root] /\
    (forall q, body_at (tuples s') q = body_at (tuples s) q) /\
    (forall q, q <> root -> link_at ByHash (tuples s') q = link_at ByHash (tuples s) q) /\
    fresh_tuple s' = fresh_tuple s /\ blocks_of s' = blocks_of s.
Proof.
  intros Hb Hl Hf Hr. destruct (link_hash_ok _ _ Hb) as (t & h1 & Ht & E & Hh & R1).
  unfold link_primary. rewrite Ht. cbn [mbind option_bind]. rewrite E. cbn [mbind option_bind]. rewrite Hf.
  destruct (ring_append_ok ByList h1 ps root) as (h2 & -> & Hl2 & R2).
  - eapply ring_frame; [exact Hl|exact R1|by left].
  - done.
  - eapply relinks_is_Some; [exact R1|by eexists].
  - cbn [mbind option_bind]. eexists. split; [done|]. cbn [lift tuples fresh_tuple blocks_of].
    split; [done|]. split; [eapply ring_frame; [exact Hh|exact R2|by left]|]. split; [|split; [|done]].
    + intros q. by rewrite (rl_bodies _ _ _ _ R2), (rl_bodies _ _ _ _ R1).
    + intros q Hq. rewrite (rl_others _ _ _ _ R2) by done. unfold link_at.
      by rewrite (rl_frame _ _ _ _ R1) by set_solver.
Qed.

Lemma link_secondary_ok s db root p ps xs :
  ring ByHash (tuples s) (root :: xs) -> ring ByList (tuples s) ps -> list_tuple db = first ps None ->
  p ∉ root :: xs -> p ∉ ps -> is_Some (tuples s !! p) ->
  exists s', link_secondary s db root p = Some (s', with_list db 1 (first (ps ++ [p]) None)) /\
    ring ByList (tuples s') (ps ++ [p]) /\ ring ByHash (tuples s') (root :: xs ++ [p]) /\
    (forall q, body_at (tuples s') q = body_at (tuples s) q) /\
    (forall q, q ∉ root :: xs -> q <> p -> link_at ByHash (tuples s') q = link_at ByHash (tuples s) q) /\
    fresh_tuple s' = fresh_tuple s /\ blocks_of s' = blocks_of s.
Proof.
  intros Hh Hl Hf Hpx Hpl Hs. unfold link_secondary. rewrite Hf.
  destruct (ring_append_ok ByList (tuples s) ps p Hl Hpl Hs) as (h1 & -> & Hl1 & R1). cbn [mbind option_bind].
  destruct (ring_append_ok ByHash h1 (root :: xs) p) as (h2 & E & Hh2 & R2).
  - eapply ring_frame; [exact Hh|exact R1|by left].
  - done.
  - eapply relinks_is_Some; [exact R1|done].
  - cbn [first] in E. rewrite E. cbn [mbind option_bind]. eexists. split; [done|].
    cbn [lift tuples fresh_tuple blocks_of].
    split; [eapply ring_frame; [exact Hl1|exact R2|by left]|]. split; [done|]. split; [|split; [|done]].
    + intros q. by rewrite (rl_bodies _ _ _ _ R2), (rl_bodies _ _ _ _ R1).
    + intros q Hq Hqp. unfold link_at. rewrite (rl_frame _ _ _ _ R2) by set_solver.
      apply (rl_others _ _ _ _ R1). done.
Qed.

(** Data and key are written to a tuple that is cleared. *)
Lemma fill_ok s p b key i ty x n :
  body_at (tuples s) p = Some b -> t_data b = None -> Heap.answers (blocks_of s) = [] ->
  exists s1 s2, set_data s p (ArgChars x n) = Some (None, s1) /\
    update (put_entry key i ty (arg_type (ArgChars x n))) s1 p = Some s2 /\
    rebody p (Body key ty i n None HMAP_DATA_TYPE_CHARS (ValChars (Some x))) s s2 /\
    blocks_of s2 = Heap [] (live (blocks_of s) + 1).
Proof.
  intros Hb Hd Ha. unfold set_data. cbn [arg_value]. rewrite ask_ok by done.
  set (s0 := lift_heap s _).
  destruct (update_ok s0 p (put_vals n (ValChars (Some x))) b Hb) as (s1 & -> & R1 & H1). cbn [mbind option_bind].
  destruct (update_ok s1 p (put_entry key i ty HMAP_DATA_TYPE_CHARS) _ (rb_body _ _ _ _ R1)) as (s2 & E2 & R2 & H2).
  exists s1, s2. split; [done|]. split; [exact E2|]. split; [|by rewrite H2, H1].
  assert (put_entry key i ty HMAP_DATA_TYPE_CHARS (put_vals n (ValChars (Some x)) b) =
    Body key ty i n None HMAP_DATA_TYPE_CHARS (ValChars (Some x))) as <- by (unfold put_entry, put_vals; cbn; by rewrite Hd).
  eapply rebody_trans; [|exact R2]. by destruct R1.
Qed.

Lemma hr_bucket_ring s db es P base k' i :
  hrep s db es P base -> 0 <= i < bucket_size db -> k' ∈ P -> bucket_of db k' = i ->
  ring ByHash (tuples s) (root_of db i :: collisions db P es i).
Proof.
  intros H Hi Hk' Hb. destruct (hr_free _ _ _ _ _ H i Hi) as [(k2 & _ & _ & Hr)|[_ Hno]]; [done|].
  by destruct (Hno k' Hk').
Qed.

Lemma hr_in_use s db es P base k' i :
  hrep s db es P base -> 0 <= i < bucket_size db -> k' ∈ P -> bucket_of db k' = i ->
  exists b, body_at (tuples s) (root_of db i) = Some b /\ t_key b = k' /\ k' <> [].
Proof.
  intros H Hi Hk' Hb. pose proof (hr_prim _ _ _ _ _ H _ Hk') as Hin. apply key_in in Hin as (p & x & Hin).
  destruct (hr_place _ _ _ _ _ H _ Hin) as [Hw Hpl]. cbn [fst snd] in *. rewrite decide_True, Hb in Hpl by done.
  destruct (hr_body _ _ _ _ _ _ _ _ H Hin) as (b & Hbb & Eb & _). subst p. exists b. split; [done|].
  split; [|done]. by rewrite Eb.
Qed.

(** What [hmap_add] does before it comes to the tuple. *)
Lemma hmap_add_start s db es P base k :
  hrep s db es P base -> k <> [] -> k ∉ es.*2.*1 ->
  index_of db k = Some (bucket_of db k) /\ (length k =? 0)%nat = false /\
  hmap_search s db k = Some (HMAP_TUPLE_NOT_FOUND, None) /\
  exists b, body_at (tuples s) (root_of db (bucket_of db k)) = Some b.
Proof.
  intros H Hk Hnew. pose proof (hr_size _ _ _ _ _ H) as Hn. split; [by apply index_of_ok|].
  split; [by destruct k|]. split; [by apply (hr_search _ _ _ _ _ k H Hk)|].
  destruct (hr_root_Some _ _ _ _ _ (bucket_of db k) H) as [t Ht]; [by apply bucket_range|].
  exists (t_body t). unfold body_at. by rewrite Ht.
Qed.

Lemma hmap_add_primary s db es P base k v n :
  hrep s db es P base -> k <> [] -> k ∉ es.*2.*1 -> key_fits k = true ->
  (forall k', k' ∈ es.*2.*1 -> bucket_of db k' <> bucket_of db k) ->
  exists s' db' p, hmap_add s db k (ArgChars v n) = Some (bucket_of db k, s', db') /\
    bucket_size db' = bucket_size db /\ table db' = table db /\
    hrep s' db' (es ++ [(p, (k, v))]) (added true k P) base.
Proof.
  intros H Hk Hnew Hfit Hempty. set (i := bucket_of db k).
  pose proof (bucket_range db k (hr_size _ _ _ _ _ H)) as Hi. fold i in Hi.
  destruct (hmap_add_start s db es P base k H Hk Hnew) as (E1 & E2 & E3 & b & Hb).
  fold i in E1, Hb. unfold hmap_add. rewrite E1. cbn [mbind option_bind]. rewrite E2, E3. cbn [mbind option_bind].
  cbn [Z.eqb HMAP_SUCCESS HMAP_TUPLE_NOT_FOUND Pos.eqb negb]. rewrite Hb. cbn [mbind option_bind].
  assert (forall k', k' ∈ P -> bucket_of db k' <> i) as HPi by (intros k' Hk'; by apply Hempty, (hr_prim _ _ _ _ _ H)).
  destruct (hr_free _ _ _ _ _ H i Hi) as [(k' & Hk' & Hb' & _)|[(b' & Hb' & Hb0 & Hbd) _]]; [by destruct (HPi k')|].
  rewrite Hb in Hb'. injection Hb' as <-. rewrite Hb0. cbn [length Nat.eqb].
  assert (collisions db P es i = []) as Hc.
  { destruct (collisions db P es i) as [|q l] eqn:Ec; [done|].
    assert (q ∈ collisions db P es i) as Hq by (rewrite Ec; apply list_elem_of_here).
    apply collisions_in in Hq as (k' & x & Hin & _ & Hbk). destruct (Hempty k'); [|done].
    apply key_in. by exists q, x. }
  destruct (fill_ok s (root_of db i) b k i HMAP_TUPLE_PRIMARY v n Hb Hbd (hr_answers _ _ _ _ _ H))
    as (s1 & s2 & -> & E & R & Hbl).
  cbn [mbind option_bind]. rewrite Hfit. cbn [negb]. rewrite E. cbn [mbind option_bind].
  assert (root_of db i ∉ es.*1) as Hroot.
  { intros Hin. apply list_elem_of_fmap in Hin as ([q [k' x]] & Eq & Hin). cbn in Eq. subst q.
    destruct (hr_root_of _ _ _ _ _ _ _ _ _ H Hin Hi eq_refl) as [HP Hbk]. by apply (HPi k'). }
  destruct (link_primary_ok s2 db (root_of db i) es.*1) as (s3 & -> & Hl & Hh & Hbody & Hlink & Hfr & Hbl3).
  - pose proof (hr_hash _ _ _ _ _ H i Hi) as Hok. rewrite Hc in Hok.
    eapply bucket_ok_agree; [exact Hok|]. intros; apply R.
  - eapply ring_agree; [apply H|]. intros; apply R.
  - apply H.
  - done.
  - cbn [mbind option_bind]. exists s3. eexists. exists (root_of db i). split; [done|]. split; [done|]. split; [done|].
    eapply (hrep_extend s s3 db es P base (root_of db i) k v n true); fold i; rewrite ?Hc; try done.
    + intros q Hq. rewrite Hbody. by apply R.
    + rewrite Hbody. apply R.
    + intros q Hq Hqr. rewrite Hlink by done. apply R.
    + intros q Hq. rewrite Hfr, (rb_fresh _ _ _ _ R). eapply hr_fresh; [exact H|].
      eapply rebody_is_Some; [exact R|]. eapply body_is_Some; [apply Hbody|done].
    + by rewrite Hbl3, Hbl.
    + by rewrite Hbl3, Hbl.
Qed.

Lemma hmap_add_secondary s db es P base k k' v n :
  hrep s db es P base -> k <> [] -> k ∉ es.*2.*1 -> key_fits k = true ->
  k' ∈ P -> bucket_of db k' = bucket_of db k ->
  exists s' db' p, hmap_add s db k (ArgChars v n) = Some (bucket_of db k, s', db') /\
    bucket_size db' = bucket_size db /\ table db' = table db /\
    hrep s' db' (es ++ [(p, (k, v))]) (added false k P) base.
Proof.
  intros H Hk Hnew Hfit Hk' Hbk'. set (i := bucket_of db k).
  pose proof (bucket_range db k (hr_size _ _ _ _ _ H)) as Hi. fold i in Hi, Hbk'.
  destruct (hmap_add_start s db es P base k H Hk Hnew) as (E1 & E2 & E3 & b & Hb).
  fold i in E1, Hb. unfold hmap_add. rewrite E1. cbn [mbind option_bind]. rewrite E2, E3. cbn [mbind option_bind].
  cbn [Z.eqb HMAP_SUCCESS HMAP_TUPLE_NOT_FOUND Pos.eqb negb]. rewrite Hb. cbn [mbind option_bind].
  destruct (hr_in_use _ _ _ _ _ k' i H Hi Hk' Hbk') as (b' & Hb' & Hkey & Hne). rewrite Hb in Hb'. injection Hb' as <-.
  rewrite Hkey. replace (length k' =? 0)%nat with false by (by destruct k').
  rewrite ask_ok by apply H. cbn [negb]. set (s0 := lift_heap s _).
  set (p := fresh_tuple s). set (s1 := Store (<[p := zero_tuple]> (tuples s0)) (S p) (blocks_of s0)).
  change (new_tuple s0) with (p, s1). cbv beta iota.
  assert (tuples s !! p = None) as Hpn.
  { destruct (tuples s !! p) eqn:E; [|done]. pose proof (hr_fresh _ _ _ _ _ H p ltac:(by eexists)). unfold p in *. lia. }
  assert (forall q, q <> p -> tuples s1 !! q = tuples s !! q) as Hs1
    by (intros q Hq; cbn; by rewrite lookup_insert_ne).
  assert (tuples s1 !! p = Some zero_tuple) as Hp1 by (cbn; apply lookup_insert_eq).
  assert (p ∉ es.*1) as Hpe.
  { intros Hin. apply list_elem_of_fmap in Hin as (x & -> & Hin). destruct (hr_in _ _ _ _ _ _ H Hin). congruence. }
  assert (~ in_table db p) as Hpt.
  { intros Ht. apply table_root in Ht as (j & Hj & E). destruct (hr_root_Some _ _ _ _ _ j H Hj). congruence. }
  set (cs := collisions db P es i).
  assert (p ∉ root_of db i :: cs) as Hpr.
  { intros [E|Hin]%elem_of_cons; [by apply Hpt; rewrite E; apply root_in_table|].
    by destruct (coll_place _ _ _ _ _ _ _ H Hin). }
  assert (forall w q, q <> p -> link_at w (tuples s1) q = link_at w (tuples s) q) as Hlk
    by (intros w q Hq; unfold link_at; by rewrite Hs1).
  destruct (fill_ok s1 p (t_body zero_tuple) k i HMAP_TUPLE_SECONDARY v n) as (s2 & s3 & -> & E & R & Hbl).
  { unfold body_at. by rewrite Hp1. }
  { done. }
  { done. }
  cbn [mbind option_bind]. rewrite Hfit. cbn [negb]. rewrite E. cbn [mbind option_bind].
  destruct (link_secondary_ok s3 db (root_of db i) p es.*1 cs) as (s4 & -> & Hl & Hh & Hbody & Hlink & Hfr & Hbl4).
  - eapply ring_agree; [by eapply (hr_bucket_ring s db es P base k')|]. intros q Hq. rewrite (rb_links _ _ _ _ R).
    apply Hlk. by intros ->.
  - eapply ring_agree; [apply H|]. intros q Hq. rewrite (rb_links _ _ _ _ R). apply Hlk. by intros ->.
  - apply H.
  - done.
  - done.
  - pose proof (rb_body _ _ _ _ R) as Hbp. unfold body_at in Hbp. destruct (tuples s3 !! p); [by eexists|done].
  - cbn [mbind option_bind]. exists s4. eexists. exists p. split; [done|]. split; [done|]. split; [done|].
    eapply (hrep_extend s s4 db es P base p k v n false); fold i cs; try done.
    + split; [done|]. by exists k'.
    + intros q Hq. rewrite Hbody, (rb_frame _ _ _ _ R) by done. unfold body_at. by rewrite Hs1.
    + rewrite Hbody. apply R.
    + intros q Hq Hqp. rewrite Hlink, (rb_links _ _ _ _ R) by done. by apply Hlk.
    + intros q Hq. rewrite Hfr, (rb_fresh _ _ _ _ R). cbn [fresh_tuple s1 s0 lift_heap].
      destruct (decide (q = p)) as [->|Hqp]; [unfold p; lia|].
      assert (is_Some (tuples s1 !! q)) as Hq1 by (eapply rebody_is_Some; [exact R|]; eapply body_is_Some; [apply Hbody|done]).
      rewrite Hs1 in Hq1 by done. pose proof (hr_fresh _ _ _ _ _ H q Hq1). lia.
    + by rewrite Hbl4, Hbl.
    + rewrite Hbl4, Hbl. cbn. lia.
Qed.

(** ** Deleting *)

Lemma entry_unique s db es P base p k k' x y :
  hrep s db es P base -> (p, (k, x)) ∈ es -> (p, (k', y)) ∈ es -> k = k'.
Proof.
  intros H Hp Hq. apply list_elem_of_lookup in Hp as [i Hi]. apply list_elem_of_lookup in Hq as [j Hj].
  assert (i = j) as ->.
  { apply (NoDup_lookup _ _ _ p (ring_nodup _ _ _ (hr_list _ _ _ _ _ H))); by rewrite !list_lookup_fmap, ?Hi, ?Hj. }
  rewrite Hi in Hj. by injection Hj as ->.
Qed.

Lemma collisions_cons db es P p k x i :
  collisions db P ((p, (k, x)) :: es) i =
    (if decide (k ∉ P /\ bucket_of db k = i) then [p] else []) ++ collisions db P es i.
Proof. unfold collisions. rewrite filter_cons. cbn [fst snd]. by case_decide. Qed.

(** A tuple is taken out; that of the table ([prim]) stays in the ring. *)
Lemma hrep_shrink s s' db L R p k x P base (prim : bool) :
  let i := bucket_of db k in
  let es := L ++ (p, (k, x)) :: R in
  hrep s db es P base -> (prim = true <-> k ∈ P) ->
  ring ByList (tuples s') (L.*1 ++ R.*1) ->
  (forall q, q <> p -> body_at (tuples s') q = body_at (tuples s) q) ->
  (prim = true -> free_root (tuples s') p) ->
  ring ByHash (tuples s') (root_of db i :: collisions db P L i ++ collisions db P R i) ->
  (forall q, q ∉ root_of db i :: collisions db P es i -> link_at ByHash (tuples s') q = link_at ByHash (tuples s) q) ->
  (forall q, is_Some (tuples s' !! q) -> is_Some (tuples s !! q)) -> fresh_tuple s' = fresh_tuple s ->
  Heap.answers (blocks_of s') = [] -> live (blocks_of s') = live (blocks_of s) - (if prim then 1 else 2) ->
  hrep s' (counted (with_list db (if prim then 0 else -1) (first (L.*1 ++ R.*1) None)) (-1)) (L ++ R) (P ∖ {[k]}) base.
Proof.
  intros i es H Hprim Hrl Hbody Hfree Hrh Hlink Hin Hfr Hans Hlive.
  assert ((p, (k, x)) ∈ es) as Hx by (unfold es; set_solver).
  pose proof (hr_size _ _ _ _ _ H) as Hn. pose proof (bucket_range db k Hn) as Hi. fold i in Hi.
  set (db' := counted _ _).
  pose proof (hr_keys _ _ _ _ _ H) as Hkeys. unfold es in Hkeys. rewrite !fmap_app, !fmap_cons in Hkeys. cbn [snd fst] in Hkeys.
  assert (forall q, q ∈ L ++ R -> q ∈ es) as Hes by (intros q; unfold es; set_solver).
  assert (k ∉ (L ++ R).*2.*1) as Hk.
  { rewrite !fmap_app, elem_of_app. apply list.NoDup_app in Hkeys as (_ & Hd & [Hd' _]%list.NoDup_cons).
    intros [Hin'|Hin']; [|done]. by apply (Hd k Hin'), list_elem_of_here. }
  assert (forall q, q ∈ L ++ R -> q.2.1 <> k /\ q.1 <> p) as Hother.
  { intros [q [k' y]] Hq. cbn [fst snd].
    assert (k' <> k) as Hne by (intros ->; apply Hk, key_in; by exists q, y). split; [done|].
    intros ->. apply Hne. symmetry. by eapply (entry_unique s db es P base p k k'); [exact H|exact Hx|apply Hes]. }
  assert (forall q, q <> k -> q ∈ P ∖ {[k]} <-> q ∈ P) as HP' by set_solver.
  assert (forall j, collisions db' (P ∖ {[k]}) (L ++ R) j = collisions db P L j ++ collisions db P R j) as Ec.
  { intros j. rewrite <- collisions_app. apply (collisions_agree db). intros k' Hk'. apply HP'. by intros ->. }
  assert (forall j, j <> i -> collisions db P es j = collisions db P L j ++ collisions db P R j) as Ecj.
  { intros j Hji. unfold es. rewrite collisions_app, collisions_cons. rewrite decide_False; [done|].
    intros [_ E]. by apply Hji. }
  assert (forall j q, 0 <= j < bucket_size db -> j <> i -> q ∈ root_of db j :: collisions db P es j ->
    link_at ByHash (tuples s') q = link_at ByHash (tuples s) q) as Hagree.
  { intros j q Hj Hji Hq. apply Hlink. eapply (bucket_disjoint s db es P base i j); first [done|congruence]. }
  assert (forall k', k' ∈ P -> bucket_of db k' = i -> prim = true -> k' = k) as Honly.
  { intros k' Hk' Hb Hp. apply Hprim in Hp. pose proof (hr_prim _ _ _ _ _ H _ Hk') as (q & y & Hq)%key_in.
    destruct (hr_place _ _ _ _ _ H _ Hq) as [_ Hpl]. destruct (hr_place _ _ _ _ _ H _ Hx) as [_ Hpl'].
    cbn [fst snd] in *. rewrite decide_True in Hpl by done. rewrite decide_True in Hpl' by done. rewrite Hb in Hpl. fold i in Hpl'. subst q p.
    by eapply entry_unique. }
  assert (Z.of_nat (size (P ∖ {[k]})) = Z.of_nat (size P) - if prim then 1 else 0) as Hsize.
  { destruct prim.
    - rewrite size_difference, size_singleton; [|set_solver]. pose proof (proj1 Hprim eq_refl).
      assert (size P <> 0)%nat by (intros E; apply size_empty_inv in E; set_solver). lia.
    - replace (P ∖ {[k]}) with P; [lia|]. apply leibniz_equiv. destruct Hprim as [_ Hp].
      assert (k ∉ P) by (intros HP; by apply Hp in HP). set_solver. }
  split; try done.
  - by rewrite fmap_app.
  - by rewrite fmap_app.
  - intros j Hj. rewrite Ec. destruct (decide (j = i)) as [->|Hji]; [by left|]. rewrite <- Ecj by done.
    eapply bucket_ok_agree; [by apply (hr_hash _ _ _ _ _ H)|]. intros q Hq. by eapply Hagree.
  - intros j Hj. rewrite Ec. destruct (decide (j = i)) as [->|Hji].
    + destruct (decide (prim = true)) as [Hp|Hp].
      * right. split.
        { destruct (hr_place _ _ _ _ _ H _ Hx) as [_ Hpl]. cbn [fst snd] in Hpl.
          rewrite decide_True in Hpl by by apply Hprim. fold i in Hpl.
          change (root_of db' i) with (root_of db i). rewrite <- Hpl. by apply Hfree. }
        intros k' [Hk' Hne]%elem_of_difference Hb. apply Hne, elem_of_singleton. by apply Honly.
      * destruct (hr_free _ _ _ _ _ H i Hi) as [(k' & Hk' & Hb & _)|[(b & Hb & Hf) Hno]].
        -- left. exists k'. split; [|done]. apply HP'; [|done]. intros ->. apply Hp. by apply Hprim.
        -- right. split.
           { exists b. split; [|done]. rewrite Hbody; [done|]. intros E.
             destruct (hr_root_of _ _ _ _ _ _ _ _ _ H Hx Hi ltac:(by rewrite <- E)) as [HkP _]. apply Hp. by apply Hprim. }
           intros k' [Hk' _]%elem_of_difference. by apply Hno.
    + rewrite <- Ecj by done. destruct (hr_free _ _ _ _ _ H j Hj) as [(k' & Hk' & Hb & Hr)|[(b & Hb & Hf) Hno]].
      * left. exists k'. split; [apply HP'; [|done]; intros ->; by apply Hji|]. split; [done|].
        eapply ring_agree; [exact Hr|]. intros q Hq. by eapply Hagree.
      * right. split; [|intros k' [Hk' _]%elem_of_difference; by apply Hno]. exists b. split; [|done].
        rewrite Hbody; [done|]. intros E.
        destruct (hr_root_of _ _ _ _ _ _ _ _ _ H Hx Hj ltac:(by rewrite <- E)) as [_ Hb']. by apply Hji.
  - intros q Hq. destruct (Hother q Hq) as [Hk' Hqp]. destruct (hr_holds _ _ _ _ _ H _ (Hes q Hq)) as [n Hh].
    exists n. rewrite Hbody, Hh by done. do 2 f_equal. pose proof (HP' _ Hk'). repeat case_decide; tauto.
  - rewrite !fmap_app. apply list.NoDup_app in Hkeys as (H1 & H2 & [_ H3]%list.NoDup_cons).
    apply list.NoDup_app. split; [done|]. split; [|done]. intros k' Hk' Hin'. by eapply H2; [|apply list_elem_of_further].
  - intros k' [Hk' Hne]%elem_of_difference. pose proof (hr_prim _ _ _ _ _ H _ Hk') as Hk2. unfold es in Hk2.
    rewrite !fmap_app, !fmap_cons in Hk2. rewrite !fmap_app. cbn [fst snd] in Hk2.
    apply elem_of_app. apply elem_of_app in Hk2 as [?|[->|?]%elem_of_cons]; [by left| |by right].
    destruct Hne. by apply elem_of_singleton.
  - intros q Hq. destruct (Hother q Hq) as [Hk' Hqp]. destruct (hr_place _ _ _ _ _ H _ (Hes q Hq)) as [Hw Hpl].
    split; [done|]. pose proof (HP' _ Hk'). repeat case_decide; try tauto; done.
  - intros q Hq. rewrite Hfr. apply (hr_fresh _ _ _ _ _ H). by apply Hin.
  - rewrite Hsize, Hlive, (hr_live _ _ _ _ _ H). unfold es. rewrite !length_app. cbn [length]. destruct prim; lia.
  - cbn [db' counted with_list tuple_count]. rewrite (hr_count _ _ _ _ _ H). unfold es. rewrite !length_app. cbn [length]. lia.
  - cbn [db' counted with_list secondary_tuple_count]. rewrite Hsize, (hr_second _ _ _ _ _ H). unfold es.
    rewrite !length_app. cbn [length]. destruct prim; lia.
Qed.

(** The tuple leaves the list; what was found there is still there. *)
Lemma hmap_delete_start s db L R p k x P base :
  let es := L ++ (p, (k, x)) :: R in
  hrep s db es P base ->
  exists h1 b, hmap_search s db k = Some (HMAP_SUCCESS, Some p) /\ (length k =? 0)%nat = false /\
    ring_remove ByList (tuples s) (list_tuple db) p = Some (h1, first (L.*1 ++ R.*1) None) /\
    ring ByList h1 (L.*1 ++ R.*1) /\ relinks ByList es.*1 (tuples s) h1 /\ body_at h1 p = Some b /\
    b = Body k (t_type b) (bucket_of db k) (t_data_len b) None HMAP_DATA_TYPE_CHARS (ValChars (Some x)) /\
    (k ∈ P <-> root_of db (bucket_of db k) = p).
Proof.
  intros es H. assert ((p, (k, x)) ∈ es) as Hx by (unfold es; set_solver).
  destruct (hr_place _ _ _ _ _ H _ Hx) as [Hk Hpl]. cbn [fst snd] in *.
  pose proof (hr_list _ _ _ _ _ H) as Hl. pose proof (hr_first _ _ _ _ _ H) as Hf.
  assert (es.*1 = L.*1 ++ p :: R.*1) as Ees by (unfold es; by rewrite fmap_app). rewrite Ees in *.
  destruct (ring_remove_ok ByList _ _ _ _ Hl) as (h1 & E & Hl1 & R1).
  destruct (hr_body _ _ _ _ _ _ _ _ H Hx) as (b & Hb & Eb & _ & Hi).
  exists h1, b. split; [by apply (proj1 (hr_search _ _ _ _ _ k H Hk) p x)|]. split; [by destruct k|].
  split; [by rewrite Hf|]. split; [done|]. split; [done|]. split; [by rewrite (rl_bodies _ _ _ _ R1)|].
  split; [by rewrite <- Hi|]. pose proof (bucket_range db k (hr_size _ _ _ _ _ H)).
  case_decide as HP; split; try done. intros <-. destruct Hpl. by apply root_in_table.
Qed.

Lemma hmap_delete_primary s db L R p k x P base :
  hrep s db (L ++ (p, (k, x)) :: R) P base -> k ∈ P ->
  exists s' db', hmap_delete s db k = Some (HMAP_SUCCESS, s', db') /\
    bucket_size db' = bucket_size db /\ table db' = table db /\ hrep s' db' (L ++ R) (P ∖ {[k]}) base.
Proof.
  intros H HP. assert ((p, (k, x)) ∈ L ++ (p, (k, x)) :: R) as Hx by set_solver.
  destruct (hmap_delete_start s db L R p k x P base H) as (h1 & b & Es & Ek & El & Hl1 & R1 & Hb & Eb & Hroot).
  unfold hmap_delete. rewrite Es. cbn [mbind option_bind]. rewrite Ek, El. cbn [mbind option_bind].
  change (tuples (lift s h1)) with h1. rewrite Hb. cbn [mbind option_bind].
  assert (t_index b = bucket_of db k) as -> by by rewrite Eb. apply Hroot in HP as Hp. rewrite decide_True by done. rewrite Hp.
  destruct (update_ok (lift s h1) p (put_key []) b Hb) as (s1 & -> & R2 & B2). cbn [mbind option_bind].
  destruct (free_data_ok s1 p (put_key [] b) x (rb_body _ _ _ _ R2)) as (s2 & -> & R3 & B3);
    [by rewrite Eb|by rewrite Eb|]. cbn [mbind option_bind].
  assert (free_custom s2 b = s2) as -> by (unfold free_custom; by rewrite Eb).
  destruct (update_ok s2 p (put_data 0 None) _ (rb_body _ _ _ _ R3)) as (s3 & -> & R4 & B4). cbn [mbind option_bind].
  exists s3. eexists. split; [done|]. split; [done|]. split; [done|].
  pose proof (rebody_trans _ _ _ _ _ _ (rebody_trans _ _ _ _ _ _ R2 R3) R4) as Rb.
  assert (forall w q, link_at w (tuples s3) q = link_at w h1 q) as Hlk by apply Rb.
  pose proof (bucket_range db k (hr_size _ _ _ _ _ H)) as Hi.
  assert (collisions db P (L ++ (p, (k, x)) :: R) (bucket_of db k) =
    collisions db P L (bucket_of db k) ++ collisions db P R (bucket_of db k)) as Ec.
  { rewrite collisions_app, collisions_cons, decide_False; [done|]. tauto. }
  apply (hrep_shrink s s3 db L R p k x P base true); try done.
  - eapply ring_agree; [exact Hl1|]. intros; apply Hlk.
  - intros q Hq. rewrite (rb_frame _ _ _ _ Rb) by done. apply (rl_bodies _ _ _ _ R1).
  - intros _. eexists. split; [apply Rb|]. done.
  - rewrite <- Ec. eapply ring_agree; [eapply (hr_bucket_ring s db _ P base k); try done|].
    intros q _. rewrite Hlk. by apply (rl_others _ _ _ _ R1).
  - intros q _. rewrite Hlk. by apply (rl_others _ _ _ _ R1).
  - intros q Hq. eapply body_is_Some; [apply (rl_bodies _ _ _ _ R1)|]. by eapply rebody_is_Some in Hq; [|exact Rb].
  - by rewrite (rb_fresh _ _ _ _ Rb).
  - rewrite B4, B3, B2. apply H.
  - rewrite B4, B3, B2. done.
Qed.

Lemma hmap_delete_secondary s db L R p k x P base :
  hrep s db (L ++ (p, (k, x)) :: R) P base -> k ∉ P ->
  exists s' db', hmap_delete s db k = Some (HMAP_SUCCESS, s', db') /\
    bucket_size db' = bucket_size db /\ table db' = table db /\ hrep s' db' (L ++ R) (P ∖ {[k]}) base.
Proof.
  intros H HP. assert ((p, (k, x)) ∈ L ++ (p, (k, x)) :: R) as Hx by set_solver.
  destruct (hmap_delete_start s db L R p k x P base H) as (h1 & b & Es & Ek & El & Hl1 & R1 & Hb & Eb & Hroot).
  unfold hmap_delete. rewrite Es. cbn [mbind option_bind]. rewrite Ek, El. cbn [mbind option_bind].
  change (tuples (lift s h1)) with h1. rewrite Hb. cbn [mbind option_bind].
  assert (t_index b = bucket_of db k) as -> by by rewrite Eb. rewrite decide_False by tauto.
  pose proof (bucket_range db k (hr_size _ _ _ _ _ H)) as Hi. set (i := bucket_of db k) in *.
  set (C1 := collisions db P L i). set (C2 := collisions db P R i).
  assert (collisions db P (L ++ (p, (k, x)) :: R) i = C1 ++ p :: C2) as Ec.
  { rewrite collisions_app, collisions_cons, decide_True; done. }
  assert (ring ByHash h1 ((root_of db i :: C1) ++ p :: C2)) as Hr.
  { destruct (hr_hash _ _ _ _ _ H i Hi) as [Hr|[_ Hc]].
    - rewrite Ec in Hr. eapply ring_frame; [exact Hr|exact R1|by left].
    - rewrite Ec in Hc. by destruct C1. }
  destruct (ring_remove_ok ByHash _ _ _ _ Hr) as (h2 & E2 & Hr2 & R2). cbn [app first] in E2.
  rewrite E2. cbn [mbind option_bind].
  assert (body_at h2 p = Some b) as Hb2 by by rewrite (rl_bodies _ _ _ _ R2).
  destruct (free_data_ok (lift (lift s h1) h2) p b x Hb2) as (s2 & -> & R3 & B3); [by rewrite Eb|by rewrite Eb|].
  cbn [mbind option_bind].
  assert (free_custom s2 b = s2) as -> by (unfold free_custom; by rewrite Eb).
  exists (free_tuple s2 p). eexists. split; [done|]. split; [done|]. split; [done|].
  assert (forall q, q <> p -> tuples (free_tuple s2 p) !! q = tuples s2 !! q) as Hdel
    by (intros q Hq; cbn; by rewrite lookup_delete_ne).
  assert (forall q, q <> p -> body_at (tuples (free_tuple s2 p)) q = body_at (tuples s) q) as Hbody.
  { intros q Hq. unfold body_at at 1. rewrite Hdel by done. fold (body_at (tuples s2) q).
    rewrite (rb_frame _ _ _ _ R3) by done. cbn [lift tuples]. by rewrite (rl_bodies _ _ _ _ R2), (rl_bodies _ _ _ _ R1). }
  assert (forall w q, q <> p -> link_at w (tuples (free_tuple s2 p)) q = link_at w h2 q) as Hlk.
  { intros w q Hq. unfold link_at at 1. rewrite Hdel by done. apply R3. }
  assert (p ∉ L.*1 ++ R.*1 /\ p ∉ root_of db i :: C1 ++ C2) as [Hpl Hpc].
  { pose proof (ring_nodup _ _ _ (hr_list _ _ _ _ _ H)) as Hd. rewrite fmap_app, fmap_cons in Hd. cbn [fst] in Hd.
    rewrite <- Permutation_middle in Hd. apply list.NoDup_cons in Hd as [Hd _]. split; [done|].
    pose proof (ring_nodup _ _ _ Hr) as Hd2. rewrite <- Permutation_middle in Hd2. by apply list.NoDup_cons in Hd2 as [Hd2 _]. }
  apply (hrep_shrink s (free_tuple s2 p) db L R p k x P base false); try done.
  - eapply ring_agree; [exact Hl1|]. intros q Hq. rewrite Hlk by (by intros ->). by apply (rl_others _ _ _ _ R2).
  - eapply ring_agree; [exact Hr2|]. intros q Hq. apply Hlk. by intros ->.
  - intros q Hq. fold i in Hq. rewrite Ec in Hq. rewrite Hlk by set_solver.
    unfold link_at. rewrite (rl_frame _ _ _ _ R2) by set_solver. fold (link_at ByHash h1 q).
    by rewrite (rl_others _ _ _ _ R1).
  - intros q Hq. destruct (decide (q = p)) as [->|Hqp].
    + by eapply (hr_in _ _ _ _ _ (p, (k, x)) H).
    + eapply body_is_Some; [by apply Hbody|done].
  - cbn [free_tuple give_back lift_heap lift fresh_tuple]. by rewrite (rb_fresh _ _ _ _ R3).
  - cbn. rewrite B3. apply H.
  - cbn. rewrite B3. cbn. lia.
Qed.

(** ** A new map *)

Lemma new_cells_lookup (h : cells A) (p n q : nat) :
  new_cells h p n !! q = if decide (p <= q < p + n)%nat then Some zero_tuple else h !! q.
Proof.
  unfold new_cells. revert p. induction n as [|n IH]; intros p; cbn [seq foldr].
  - by rewrite decide_False by lia.
  - destruct (decide (q = p)) as [->|Hq]; [rewrite lookup_insert_eq, decide_True by lia; done|].
    rewrite lookup_insert_ne, IH by done. repeat case_decide; try done; lia.
Qed.

Lemma hmap_init_ok s n :
  Heap.answers (blocks_of s) = [] -> (forall p, is_Some (tuples s !! p) -> (p < fresh_tuple s)%nat) -> 0 < n ->
  exists db s', hmap_init n s = (HMAP_SUCCESS, Some db, s') /\ bucket_size db = n /\
    hrep s' db [] ∅ (live (blocks_of s) + 2).
Proof.
  intros Ha Hf Hn. unfold hmap_init. rewrite ask_ok by done. cbn [negb]. replace (n <? 0) with false by lia.
  rewrite ask_ok by done. cbn [negb]. eexists _, _. split; [done|]. split; [done|].
  assert (forall i, 0 <= i < n -> new_cells (tuples s) (fresh_tuple s) (Z.to_nat n) !! (fresh_tuple s + Z.to_nat i)%nat =
    Some zero_tuple) as Hroot by (intros i Hi; rewrite new_cells_lookup, decide_True by lia; done).
  split; cbn [tuples fresh_tuple blocks_of lift_heap bucket_size table list_tuple tuple_count secondary_tuple_count
    Heap.answers live length]; try done.
  - split; [constructor|done|done].
  - intros i Hi. right. split; [|done]. unfold link_at, root_of. cbn [table]. by rewrite Hroot.
  - intros i Hi. right. split; [|set_solver]. exists (t_body zero_tuple). unfold body_at, root_of. cbn [table].
    by rewrite Hroot.
  - by intros x ?%not_elem_of_nil.
  - constructor.
  - by intros x ?%not_elem_of_nil.
  - intros p. rewrite new_cells_lookup. case_decide; [lia|]. intros Hp%Hf. lia.
  - rewrite size_empty. lia.
Qed.

(** ** Walking *)

Lemma hr_next s db L R p e P base :
  hrep s db (L ++ (p, e) :: R) P base ->
  exists t, tuples s !! p = Some t /\ nxt (t_list t) = first R.*1 (list_tuple db) /\
    (nxt (t_list t) = list_tuple db <-> R = []).
Proof.
  intros H. pose proof (hr_list _ _ _ _ _ H) as [Hd Hn _]. rewrite (hr_first _ _ _ _ _ H).
  rewrite fmap_app, fmap_cons in *. cbn [fst] in *.
  pose proof (chain_mid _ _ _ _ _ Hn) as Hp. unfold links_next in Hp. rewrite lookup_fmap in Hp.
  destruct (tuples s !! p) as [t|]; [|done]. injection Hp as Hp. cbn [get_link] in Hp.
  exists t. split; [done|]. split; [done|]. rewrite Hp.
  destruct R as [|[q e'] R]; [done|]. split; [|done]. cbn [fmap list_fmap first fst] in *. intros E.
  destruct L as [|[r e''] L]; cbn in E, Hd; injection E as ->; apply list.NoDup_cons in Hd as [Hd _]; set_solver.
Qed.

Lemma hr_step s db L R p e P base :
  hrep s db (L ++ (p, e) :: R) P base -> hmap_next s db p = Some (first R.*1 None).
Proof.
  intros H. destruct (hr_next _ _ _ _ _ _ _ _ H) as (t & Ht & Hn & He). unfold hmap_next. rewrite Ht.
  cbn [mbind option_bind]. f_equal. case_decide as Hd.
  - symmetry in Hd. apply He in Hd as ->. done.
  - rewrite Hn. destruct R; [|done]. symmetry in Hn. by destruct Hd.
Qed.

Lemma hr_length s db es P base : hrep s db es P base -> (length es <= size (tuples s))%nat.
Proof. intros H. pose proof (ring_size _ ByList _ (hr_list _ _ _ _ _ H)) as E. by rewrite length_fmap in E. Qed.

Lemma tuples_walk_ok {V : Type} (f : nat -> tuple A -> V -> option V) (g : V -> list Z -> A -> V) s db es P base v :
  (forall p t v x, t_vals (t_body t) = ValChars (Some x) -> f p t v = Some (g v (t_key (t_body t)) x)) ->
  hrep s db es P base ->
  hmap_foreach f s db v = Some (foldl (fun v e => g v e.1 e.2) v es.*2).
Proof.
  intros Hf H. unfold hmap_foreach, hmap_begin. rewrite (hr_first _ _ _ _ _ H).
  pose proof (hr_length _ _ _ _ _ H) as Hlen.
  assert (forall R L v fuel, es = L ++ R -> (length R <= fuel)%nat ->
    foreach_from f s db (first R.*1 None) v fuel = Some (foldl (fun v e => g v e.1 e.2) v R.*2)) as Hloop.
  2:{ apply (Hloop es []); [done|lia]. }
  induction R as [|[p [k x]] R IH]; intros L v' [|fuel] E Hfuel; cbn [length] in Hfuel; try lia; try done.
  cbn [fmap list_fmap first fst snd foreach_from]. subst es.
  assert ((p, (k, x)) ∈ L ++ (p, (k, x)) :: R) as Hx by set_solver.
  destruct (hr_body _ _ _ _ _ _ _ _ H Hx) as (b & Hb & Eb & _). unfold body_at in Hb.
  destruct (tuples s !! p) as [t|]; [|done]. injection Hb as <-. cbn [mbind option_bind].
  rewrite (Hf p t v' x) by by rewrite Eb. cbn [mbind option_bind]. rewrite (hr_step _ _ _ _ _ _ _ _ H).
  cbn [mbind option_bind]. rewrite (IH (L ++ [(p, (k, x))])); [|by rewrite <- app_assoc|lia].
  cbn [foldl]. by rewrite Eb.
Qed.

Lemma hmap_size_ok s db es P base :
  hrep s db es P base -> Z.of_nat (length es) < 2 ^ 64 -> hmap_size s db = Some (Z.of_nat (length es - 1)).
Proof.
  intros H H64. unfold hmap_size. rewrite (hr_first _ _ _ _ _ H). pose proof (hr_length _ _ _ _ _ H) as Hlen.
  assert (forall R L fuel, es = L ++ R -> (length R <= fuel)%nat -> R <> [] ->
    size_loop s db (first R.*1 None) (Z.of_nat (length L)) fuel = Some (Z.of_nat (length es - 1))) as Hloop.
  2:{ destruct es as [|e es]; [done|]. apply (Hloop (e :: es) []); [done|lia|done]. }
  induction R as [|[p [k x]] R IH]; intros L [|fuel] E Hfuel Hne; cbn [length] in Hfuel; try lia; try done.
  cbn [fmap list_fmap first fst size_loop]. subst es.
  destruct (hr_next _ _ _ _ _ _ _ _ H) as (t & -> & Hn & He). cbn [mbind option_bind].
  case_decide as Hd.
  - apply He in Hd as ->. rewrite length_app. cbn [length]. do 2 f_equal. lia.
  - rewrite Hn. destruct R as [|y R]; [tauto|]. cbn [fmap list_fmap first].
    rewrite length_app in Hlen, H64. cbn [length] in *. unfold u64. rewrite Z.mod_small by lia.
    specialize (IH (L ++ [(p, (k, x))]) fuel). rewrite length_app in IH. cbn [length] in IH.
    replace (Z.of_nat (length L) + 1) with (Z.of_nat (length L + 1)) by lia.
    apply IH; [by rewrite <- app_assoc|lia|done].
Qed.

(** ** Taking a map down *)

Lemma release_data s db P p k x (h : cells A) :
  holds h db P (p, (k, x)) -> h = tuples s -> Heap.answers (blocks_of s) = [] ->
  exists s1 s2 b, hmap_free_data s p = Some (HMAP_SUCCESS, s1) /\ body_at (tuples s1) p = Some b /\
    t_data b = None /\ s2 = (match t_type b with HMAP_TUPLE_SECONDARY => free_tuple s1 p | HMAP_TUPLE_PRIMARY => s1 end) /\
    (forall q, q <> p -> body_at (tuples s2) q = body_at (tuples s) q) /\
    (forall w q, q <> p -> link_at w (tuples s2) q = link_at w (tuples s) q) /\
    (k ∉ P -> tuples s2 !! p = None) /\
    live (blocks_of s2) = live (blocks_of s) - (if decide (k ∈ P) then 1 else 2) /\
    Heap.answers (blocks_of s2) = [].
Proof.
  intros [n Hb] -> Ha. cbn [fst snd] in Hb.
  destruct (free_data_ok s p _ x Hb) as (s1 & E & R1 & B1); [done|done|]. pose proof (rb_body _ _ _ _ R1) as Hb1.
  exists s1. eexists _, _. split; [exact E|]. split; [exact Hb1|]. split; [done|]. split; [done|].
  cbn [put_vals t_type]. case_decide as HP.
  - split; [apply R1|]. split; [intros w q _; apply R1|]. split; [done|]. by rewrite B1.
  - split; [|split; [|split]].
    + intros q Hq. unfold body_at. cbn. rewrite lookup_delete_ne by done. by apply R1.
    + intros w q Hq. unfold link_at. cbn. rewrite lookup_delete_ne by done. apply R1.
    + intros _. cbn. by rewrite lookup_delete_eq.
    + cbn. rewrite B1. cbn. split; [lia|done].
Qed.

Lemma cell_eq (h h' : cells A) (q : nat) :
  body_at h' q = body_at h q -> (forall w, link_at w h' q = link_at w h q) -> h' !! q = h !! q.
Proof.
  unfold body_at, link_at. intros Hb Hl. pose proof (Hl ByList) as H1. pose proof (Hl ByHash) as H2.
  destruct (h' !! q) as [[]|], (h !! q) as [[]|]; cbn in *; congruence.
Qed.

(** The tuples of the map outside its table. *)
Definition outside P es : list nat := fst <$> filter (fun x : entry => x.2.1 ∉ P) es.

Lemma outside_cons P p k x es :
  outside P ((p, (k, x)) :: es) = if decide (k ∈ P) then outside P es else p :: outside P es.
Proof. unfold outside. rewrite filter_cons. cbn [fst snd]. repeat case_decide; tauto. Qed.

Lemma outside_in P es p : p ∈ outside P es -> p ∈ es.*1.
Proof. intros (x & -> & [_ Hx]%list_elem_of_filter)%list_elem_of_fmap. by apply list_elem_of_fmap_2. Qed.

Lemma truncate_ok P es : forall s db fuel,
  ring ByList (tuples s) es.*1 -> list_tuple db = first es.*1 None ->
  (forall x, x ∈ es -> holds (tuples s) db P x) -> Heap.answers (blocks_of s) = [] -> (length es <= fuel)%nat ->
  exists s' db', truncate_loop s db fuel = Some (s', db') /\ list_tuple db' = None /\
    table db' = table db /\ bucket_size db' = bucket_size db /\
    live (blocks_of s') = live (blocks_of s) - Z.of_nat (length es) - Z.of_nat (length (outside P es)) /\
    (forall q, q ∉ es.*1 -> tuples s' !! q = tuples s !! q) /\
    (forall q, q ∈ outside P es -> tuples s' !! q = None).
Proof.
  induction es as [|[p [k x]] es IH]; intros s db fuel Hr Hf Hh Ha Hfuel.
  { exists s, db. destruct fuel; cbn [truncate_loop]; rewrite Hf; cbn [first fmap list_fmap]; split_and!; try done;
      [cbn; lia|by intros q ?%not_elem_of_nil|cbn; lia|by intros q ?%not_elem_of_nil]. }
  destruct fuel as [|fuel]; [cbn in Hfuel; lia|]. cbn [truncate_loop].
  cbn [fmap list_fmap first fst] in *. rewrite Hf.
  destruct (ring_remove_ok ByList (tuples s) [] es.*1 p Hr) as (h & E & Hr1 & R1). cbn [app first] in *.
  rewrite E. cbn [mbind option_bind].
  assert (holds h db P (p, (k, x))) as Hp.
  { destruct (Hh (p, (k, x))) as [n Hb]; [set_solver|]. exists n. by rewrite (rl_bodies _ _ _ _ R1). }
  destruct (release_data (lift s h) db P p k x h Hp eq_refl Ha) as (s1 & s2 & b & -> & Hb & Hd & E2 & B2 & L2 & D2 & Hl2 & Ha2).
  cbn [mbind option_bind]. rewrite Hb. cbn [mbind option_bind]. rewrite Hd. cbn [mbind option_bind]. rewrite <- E2.
  pose proof (ring_nodup _ _ _ Hr) as [Hpe Hnd]%list.NoDup_cons.
  destruct (IH s2 (with_list db 0 (first es.*1 None)) fuel) as (s' & db' & -> & Hn & Ht & Hs & Hlive & Hframe & Hgone).
  - eapply ring_agree; [exact Hr1|]. intros q Hq. apply L2. by intros ->.
  - done.
  - intros y Hy. destruct (Hh y) as [n Hby]; [by right|]. exists n.
    rewrite B2, (rl_bodies _ _ _ _ R1); [done|]. intros E'. apply Hpe. rewrite <- E'. by apply list_elem_of_fmap_2.
  - done.
  - cbn in Hfuel. lia.
  - exists s', db'. split; [done|]. split; [done|]. split; [done|]. split; [done|]. split; [|split].
    + rewrite Hlive, Hl2. cbn [lift blocks_of length]. rewrite outside_cons. case_decide; cbn [length]; lia.
    + intros q Hq. apply not_elem_of_cons in Hq as [Hqp Hq]. rewrite Hframe by done.
      rewrite <- (rl_frame _ _ _ _ R1 q) by set_solver. apply cell_eq; [by apply B2|intros; by apply L2].
    + intros q. rewrite outside_cons. case_decide as HP; [apply Hgone|]. intros [->|Hq]%elem_of_cons; [|by apply Hgone].
      rewrite Hframe by done. by apply D2.
Qed.

Lemma outside_size s db es P base : hrep s db es P base ->
  (length (outside P es) + size P = length es)%nat.
Proof.
  intros H. assert (P = list_to_set (filter (fun k => k ∈ P) es.*2.*1)) as EP.
  { apply set_eq. intros k. rewrite elem_of_list_to_set, list_elem_of_filter. split; [|tauto].
    intros HP. split; [done|]. by apply (hr_prim _ _ _ _ _ H). }
  assert (size P = length (filter (fun k => k ∈ P) es.*2.*1)) as ->.
  { rewrite EP at 1. apply size_list_to_set. apply list.NoDup_filter, (hr_keys _ _ _ _ _ H). }
  unfold outside. rewrite length_fmap. clear H EP. induction es as [|[p [k x]] es IH]; [done|].
  cbn [fmap list_fmap fst snd]. rewrite !filter_cons. cbn [fst snd]. repeat case_decide; cbn [length]; try tauto; lia.
Qed.

Lemma delete_range (h : cells A) (p n q : nat) :
  foldr delete h (seq p n) !! q = if decide (p <= q < p + n)%nat then None else h !! q.
Proof.
  revert p. induction n as [|n IH]; intros p; cbn [seq foldr]; [by rewrite decide_False by lia|].
  destruct (decide (q = p)) as [->|Hq]; [rewrite lookup_delete_eq, decide_True by lia; done|].
  rewrite lookup_delete_ne, IH by done. repeat case_decide; try done; lia.
Qed.

Lemma destroy_ok s db es P base : hrep s db es P base ->
  exists s', hmap_destroy s db = Some s' /\ live (blocks_of s') = base - 2 /\
    forall q, tuples s' !! q =
      if decide (q ∈ es.*1 \/ (table db <= q < table db + Z.to_nat (bucket_size db))%nat) then None else tuples s !! q.
Proof.
  intros H. unfold hmap_destroy, hmap_truncate.
  destruct (truncate_ok P es s db (S (size (tuples s)))) as (s1 & db1 & -> & _ & Ht & Hs & Hlive & Hframe & Hgone);
    try apply H. { pose proof (hr_length _ _ _ _ _ H). lia. }
  cbn [mbind option_bind]. eexists. split; [done|]. split.
  - cbn. rewrite Hlive, (hr_live _ _ _ _ _ H). pose proof (outside_size _ _ _ _ _ H). lia.
  - intros q. cbn. rewrite delete_range, Ht, Hs. case_decide as Hq; [by rewrite decide_True by tauto|].
    destruct (decide (q ∈ es.*1)) as [Hin|Hin]; [|rewrite decide_False by tauto; by apply Hframe].
    rewrite decide_True by tauto. apply Hgone. apply list_elem_of_fmap in Hin as ([q' [k x]] & -> & Hin).
    destruct (hr_place _ _ _ _ _ H _ Hin) as [_ Hpl]. cbn [fst snd] in *. case_decide as HP.
    + rewrite Hpl in Hq. destruct Hq. apply root_in_table, bucket_range, H.
    + apply list_elem_of_fmap. exists (q', (k, x)). split; [done|]. by apply list_elem_of_filter.
Qed.
End map_lemmas.
