(* ===== verification/HmapDict.v ===== *)
(** The hash maps of [lib/hmap/] as dictionaries that remember the order of
    insertion: their operations refine the operations on a list of keys and
    values, and taking a map down gives its memory back.  What the maps do
    outside that contract is at the end. *)
From S2P Require Import Prelude ByteOps StrOps Memory Stralloc Heap Chain Hmap.

(** * Dictionaries *)

Section dictionary.
Context {A : Type}.

Abbreviation dictionary := (list (list Z * A)).

Fixpoint dict_get (k : list Z) (d : dictionary) : option A :=
  match d with
  | [] => None
  | e :: d => if decide (e.1 = k) then Some e.2 else dict_get k d
  end.

(** A key keeps its place, a new one comes last. *)
Fixpoint dict_put (k : list Z) (x : A) (d : dictionary) : dictionary :=
  match d with
  | [] => [(k, x)]
  | e :: d => if decide (e.1 = k) then (k, x) :: d else e :: dict_put k x d
  end.

Fixpoint dict_del (k : list Z) (d : dictionary) : dictionary :=
  match d with
  | [] => []
  | e :: d => if decide (e.1 = k) then d else e :: dict_del k d
  end.

(** The operations whose values are characters. *)
Inductive map_op : Type :=
  | OpAdd (k : list Z) (x : A) (n : Z)
  | OpSet (k : list Z) (x : A) (n : Z)
  | OpDelete (k : list Z)
  | OpGet (k : list Z).

(** [Code] is what [hmap_add] and [hmap_delete] return, [Stored] whether
    [hmap_set] returns a tuple. *)
Inductive map_answer : Type := Code (c : Z) | Stored (b : bool) | Found (x : option A).

(** ** The abstract operations

    [P] are the keys in the table itself: one for each bucket, the first that
    came.  When it is deleted, the next key of the bucket must not come before
    the others are gone: such an addition is not allowed, nor is a key that
    does not fit. *)
Definition bucket (n : Z) (k : list Z) : Z := Z.rem (hmap_hash k) n.
Definition shares (n : Z) (ks : list (list Z)) (k : list Z) : bool :=
  existsb (fun k' => bool_decide (bucket n k' = bucket n k)) ks.

Definition spec_new (n : Z) (d : dictionary) (P : gset (list Z)) (k : list Z) : option (gset (list Z)) :=
  if negb (key_fits k) then None else
  if shares n (elements P) k then Some P else
  if shares n d.*1 k then None else Some ({[k]} ∪ P).

Definition spec_op (n : Z) (op : map_op) (d : dictionary) (P : gset (list Z))
    : option (map_answer * dictionary * gset (list Z)) :=
  match op with
  | OpAdd k x _ =>
      if (length k =? 0)%nat then Some (Code HMAP_KEY_EMPTY, d, P) else
      if decide (k ∈ d.*1) then Some (Code HMAP_TUPLE_ALREADY_EXIST, d, P) else
      P ← spec_new n d P k; Some (Code (bucket n k), dict_put k x d, P)
  | OpSet k x _ =>
      if (length k =? 0)%nat then Some (Stored false, d, P) else
      if decide (k ∈ d.*1) then Some (Stored true, dict_put k x d, P) else
      P ← spec_new n d P k; Some (Stored true, dict_put k x d, P)
  | OpDelete k =>
      if (length k =? 0)%nat then Some (Code HMAP_KEY_EMPTY, d, P) else
      if decide (k ∈ d.*1) then Some (Code HMAP_SUCCESS, dict_del k d, P ∖ {[k]})
      else Some (Code HMAP_TUPLE_NOT_FOUND, d, P)
  | OpGet k => Some (Found (if (length k =? 0)%nat then None else dict_get k d), d, P)
  end.

Fixpoint spec_run (n : Z) (ops : list map_op) (d : dictionary) (P : gset (list Z))
    : option (list map_answer * dictionary * gset (list Z)) :=
  match ops with
  | [] => Some ([], d, P)
  | op :: ops =>
      '(r, d, P) ← spec_op n op d P;
      '(rs, d, P) ← spec_run n ops d P;
      Some (r :: rs, d, P)
  end.

(** ** The operations of the code *)

Definition characters (v : value A) : option A := match v with ValChars x => x | _ => None end.

Definition map_step (op : map_op) (s : store A) (db : hmap_db) : option (map_answer * store A * hmap_db) :=
  match op with
  | OpAdd k x n => '(c, s, db) ← hmap_add s db k (ArgChars x n); Some (Code c, s, db)
  | OpSet k x n => '(p, s, db) ← hmap_set s db k x n; Some (Stored (bool_decide (is_Some p)), s, db)
  | OpDelete k => '(c, s, db) ← hmap_delete s db k; Some (Code c, s, db)
  | OpGet k => v ← hmap_get s db k; Some (Found (v ≫= characters), s, db)
  end.

Fixpoint map_run (ops : list map_op) (s : store A) (db : hmap_db)
    : option (list map_answer * store A * hmap_db) :=
  match ops with
  | [] => Some ([], s, db)
  | op :: ops =>
      '(r, s, db) ← map_step op s db;
      '(rs, s, db) ← map_run ops s db;
      Some (r :: rs, s, db)
  end.
End dictionary.
Arguments map_op : clear implicits.
Arguments map_answer : clear implicits.

(** * Lemmas *)

Section lemmas.
Context {A : Type}.
Implicit Types (s : store A) (db : hmap_db) (es : list (@entry A)) (P : gset (list Z)) (d : list (list Z * A)) (x y : A).

Lemma dict_split k d :
  NoDup d.*1 -> k ∈ d.*1 -> exists L x R, d = L ++ (k, x) :: R /\ k ∉ L.*1.
Proof.
  induction d as [|[k' y] d IH]; cbn; intros Hd Hin; [by apply not_elem_of_nil in Hin|].
  apply list.NoDup_cons in Hd as [Hk Hd]. destruct (decide (k' = k)) as [->|Hne]; [exists [], y, d; set_solver|].
  destruct IH as (L & x & R & -> & HL); [done|set_solver|].
  exists ((k', y) :: L), x, R. split; [done|]. set_solver.
Qed.

Lemma dict_get_mid k x (L R : list (list Z * A)) : k ∉ L.*1 -> dict_get k (L ++ (k, x) :: R) = Some x.
Proof.
  induction L as [|[k' y] L IH]; cbn; intros Hk; [by rewrite decide_True|].
  rewrite decide_False by set_solver. apply IH. set_solver.
Qed.

Lemma dict_put_mid k x y (L R : list (list Z * A)) : k ∉ L.*1 -> dict_put k y (L ++ (k, x) :: R) = L ++ (k, y) :: R.
Proof.
  induction L as [|[k' z] L IH]; cbn; intros Hk; [by rewrite decide_True|].
  rewrite decide_False by set_solver. f_equal. apply IH. set_solver.
Qed.

Lemma dict_del_mid k x (L R : list (list Z * A)) : k ∉ L.*1 -> dict_del k (L ++ (k, x) :: R) = L ++ R.
Proof.
  induction L as [|[k' z] L IH]; cbn; intros Hk; [by rewrite decide_True|].
  rewrite decide_False by set_solver. f_equal. apply IH. set_solver.
Qed.

Lemma dict_put_new k y d : k ∉ d.*1 -> dict_put k y d = d ++ [(k, y)].
Proof.
  induction d as [|[k' z] L IH]; cbn; intros Hk; [done|].
  rewrite decide_False by set_solver. f_equal. apply IH. set_solver.
Qed.

Lemma dict_put_keys k x d k' : k' ∈ (dict_put k x d).*1 <-> k' = k \/ k' ∈ d.*1.
Proof.
  induction d as [|[k1 y] d IH]; cbn [dict_put fmap list_fmap fst]; 
    [rewrite elem_of_cons; tauto|].
  case_decide as E; cbn [fmap list_fmap fst snd] in *; rewrite !elem_of_cons;
    [subst; tauto|rewrite IH; tauto].
Qed.

Lemma dict_get_new k d : k ∉ d.*1 -> dict_get k d = None.
Proof.
  induction d as [|[k' z] L IH]; cbn; intros Hk; [done|].
  rewrite decide_False by set_solver. apply IH. set_solver.
Qed.

(** The dictionary is the finite map of its entries. *)
Lemma dict_get_map k d : dict_get k d = list_to_map (M := gmap (list Z) A) d !! k.
Proof.
  induction d as [|[k' z] d IH]; cbn; [by rewrite lookup_empty|]. case_decide as E.
  - cbn in E. subst. by rewrite lookup_insert_eq.
  - by rewrite lookup_insert_ne.
Qed.

Lemma shares_spec n ks k : shares n ks k = true <-> exists k', k' ∈ ks /\ bucket n k' = bucket n k.
Proof.
  unfold shares. rewrite existsb_exists. setoid_rewrite bool_decide_eq_true. by setoid_rewrite list_elem_of_In.
Qed.

(** ** One operation *)

(** The map stands for a dictionary. *)
Definition mrep s db d P (n base : Z) : Prop :=
  exists es, hrep s db es P base /\ es.*2 = d /\ bucket_size db = n.

Lemma mrep_split s db d P n base k :
  mrep s db d P n base -> k ∈ d.*1 ->
  exists L p x R, hrep s db (L ++ (p, (k, x)) :: R) P base /\ bucket_size db = n /\
    d = L.*2 ++ (k, x) :: R.*2 /\ k ∉ L.*2.*1.
Proof.
  intros (es & H & <- & Hn) Hk. destruct (split_key es k Hk) as (L & p & x & R & ->).
  exists L, p, x, R. split; [done|]. split; [done|]. split; [by rewrite fmap_app|].
  pose proof (hr_keys _ _ _ _ _ H) as Hd. rewrite !fmap_app, !fmap_cons in Hd. cbn [fst snd] in Hd.
  apply list.NoDup_app in Hd as (_ & Hd & _). intros HL. apply (Hd _ HL), list_elem_of_here.
Qed.

Lemma mrep_add s db d P n base k x m P' :
  mrep s db d P n base -> k <> [] -> k ∉ d.*1 -> spec_new n d P k = Some P' ->
  exists s' db', hmap_add s db k (ArgChars x m) = Some (bucket n k, s', db') /\
    mrep s' db' (dict_put k x d) P' n base.
Proof.
  intros (es & H & <- & <-) Hk Hnew Hs. unfold spec_new in Hs. rewrite dict_put_new by done.
  destruct (key_fits k) eqn:Hfit; [|done]. cbn [negb] in Hs.
  destruct (shares _ (elements P) k) eqn:E1; [|destruct (shares _ es.*2.*1 k) eqn:E2; [done|]]; cbn [mret] in Hs; injection Hs as <-.
  - apply shares_spec in E1 as (k' & Hk' & Hb). apply elem_of_elements in Hk'.
    destruct (hmap_add_secondary s db es P base k k' x m H Hk Hnew Hfit Hk' Hb) as (s' & db' & p & E & Hn & _ & H').
    exists s', db'. split; [exact E|]. eexists. split; [exact H'|]. split; [by rewrite fmap_app|done].
  - destruct (hmap_add_primary s db es P base k x m H Hk Hnew Hfit) as (s' & db' & p & E & Hn & _ & H').
    { intros k' Hk' Hb. assert (shares (bucket_size db) es.*2.*1 k = true); [|congruence].
      apply shares_spec. by exists k'. }
    exists s', db'. split; [exact E|]. eexists. split; [exact H'|]. split; [by rewrite fmap_app|done].
Qed.

Lemma mrep_search s db d P n base k :
  mrep s db d P n base -> k <> [] ->
  (k ∈ d.*1 -> exists p, hmap_search s db k = Some (HMAP_SUCCESS, Some p)) /\
  (k ∉ d.*1 -> hmap_search s db k = Some (HMAP_TUPLE_NOT_FOUND, None)).
Proof.
  intros (es & H & <- & _) Hk. destruct (hr_search _ _ _ _ _ k H Hk) as [H1 H2]. split; [|done].
  intros (p & x & Hin)%key_in. exists p. by apply (H1 p x).
Qed.

Lemma mrep_nil s db d P n base : mrep s db d P n base -> hmap_search s db [] = Some (HMAP_KEY_EMPTY, None).
Proof. intros (es & H & _ & _). unfold hmap_search. by rewrite index_of_ok by apply H. Qed.

Lemma mrep_get s db d P n base k :
  mrep s db d P n base ->
  hmap_get s db k = Some ((fun x => ValChars (Some x)) <$> if (length k =? 0)%nat then None else dict_get k d).
Proof.
  intros H. unfold hmap_get. destruct (Nat.eqb_spec (length k) 0) as [Hk|Hk].
  - apply nil_length_inv in Hk as ->. by rewrite (mrep_nil _ _ _ _ _ _ H).
  - assert (k <> []) as Hk' by by intros ->. destruct (mrep_search _ _ _ _ _ _ k H Hk') as [_ Hno].
    destruct (decide (k ∈ d.*1)) as [Hin|Hout]; [|by rewrite Hno, dict_get_new].
    destruct (mrep_split _ _ _ _ _ _ k H Hin) as (L & p & x & R & H' & _ & -> & HL).
    rewrite (proj1 (hr_search _ _ _ _ _ k H' Hk') p x) by set_solver. cbn [mbind option_bind].
    assert ((p, (k, x)) ∈ L ++ (p, (k, x)) :: R) as Hx by set_solver.
    destruct (hr_body _ _ _ _ _ _ _ _ H' Hx) as (b & -> & Eb & _). cbn [mbind option_bind].
    rewrite dict_get_mid by done. by rewrite Eb.
Qed.

Lemma mrep_set s db d P n base k x m :
  mrep s db d P n base -> k ∈ d.*1 ->
  exists p s', hmap_set s db k x m = Some (Some p, s', db) /\ mrep s' db (dict_put k x d) P n base.
Proof.
  intros H Hk. destruct (mrep_split _ _ _ _ _ _ k H Hk) as (L & p & y & R & H' & Hn & -> & HL).
  destruct (hmap_set_old s db L R p k y x m P base H') as (s' & E & H2). exists p, s'. split; [exact E|].
  exists (L ++ (p, (k, x)) :: R). split; [done|]. split; [|done]. by rewrite fmap_app, dict_put_mid.
Qed.

Lemma mrep_delete s db d P n base k :
  mrep s db d P n base -> k ∈ d.*1 ->
  exists s' db', hmap_delete s db k = Some (HMAP_SUCCESS, s', db') /\ mrep s' db' (dict_del k d) (P ∖ {[k]}) n base.
Proof.
  intros H Hk. destruct (mrep_split _ _ _ _ _ _ k H Hk) as (L & p & y & R & H' & Hn & -> & HL).
  assert (exists s' db', hmap_delete s db k = Some (HMAP_SUCCESS, s', db') /\
    bucket_size db' = bucket_size db /\ table db' = table db /\ hrep s' db' (L ++ R) (P ∖ {[k]}) base)
    as (s' & db' & E & Hb & _ & H2).
  { destruct (decide (k ∈ P)); [by eapply hmap_delete_primary|by eapply hmap_delete_secondary]. }
  exists s', db'. split; [done|]. exists (L ++ R). split; [done|]. split; [|congruence].
  by rewrite fmap_app, dict_del_mid.
Qed.

Lemma step_ok op s db d P n base r d' P' :
  mrep s db d P n base -> spec_op n op d P = Some (r, d', P') ->
  exists s' db', map_step op s db = Some (r, s', db') /\ mrep s' db' d' P' n base.
Proof.
  intros H Hs. destruct op as [k x m|k x m|k|k]; cbn [spec_op map_step] in *.
  4:{ injection Hs as <- <- <-. rewrite (mrep_get _ _ _ _ _ _ k H). cbn [mbind option_bind].
      exists s, db. split; [|done]. by destruct (length k =? 0)%nat, (dict_get k d). }
  all: destruct (Nat.eqb_spec (length k) 0) as [Hk|Hk];
    [injection Hs as <- <- <-; apply nil_length_inv in Hk as ->; exists s, db; split; [|done]
    |assert (k <> []) as Hk' by (by intros ->);
     destruct (mrep_search _ _ _ _ _ _ k H Hk') as [Hyes Hno];
     destruct (decide (k ∈ d.*1)) as [Hin|Hout]; cbn [mbind option_bind] in Hs].
  - unfold hmap_add. destruct H as (es & H & _). by rewrite index_of_ok by apply H.
  - injection Hs as <- <- <-. destruct (Hyes Hin) as [p Hp]. exists s, db. split; [|done].
    unfold hmap_add. assert (0 < bucket_size db) as Hn by (destruct H as (es & H & _); apply H).
    rewrite index_of_ok by done. cbn [mbind option_bind]. replace (length k =? 0)%nat with false by lia. by rewrite Hp.
  - destruct (spec_new n d P k) as [P1|] eqn:En; [|done]. injection Hs as <- <- <-.
    destruct (mrep_add s db d P n base k x m P1 H Hk' Hout En) as (s' & db' & -> & H'). by exists s', db'.
  - done.
  - injection Hs as <- <- <-. destruct (mrep_set s db d P n base k x m H Hin) as (p & s' & -> & H').
    by exists s', db.
  - destruct (spec_new n d P k) as [P1|] eqn:En; [|done]. injection Hs as <- <- <-.
    destruct (mrep_add s db d P n base k x m P1 H Hk' Hout En) as (s' & db' & E & H').
    exists s', db'. split; [|done]. unfold hmap_set. replace (length k =? 0)%nat with false by lia.
    rewrite Hno by done. cbn [mbind option_bind]. rewrite E. cbn [mbind option_bind].
    destruct (proj1 (mrep_search _ _ _ _ _ _ k H' Hk')) as [p ->]; [|done].
    apply dict_put_keys. by left.
  - unfold hmap_delete. by rewrite (mrep_nil _ _ _ _ _ _ H).
  - injection Hs as <- <- <-. destruct (mrep_delete s db d P n base k H Hin) as (s' & db' & -> & H').
    by exists s', db'.
  - injection Hs as <- <- <-. exists s, db. split; [|done]. unfold hmap_delete. rewrite Hno by done.
    cbn [mbind option_bind]. by replace (length k =? 0)%nat with false by lia.
Qed.

Lemma run_ok ops : forall s db d P n base rs d' P',
  mrep s db d P n base -> spec_run n ops d P = Some (rs, d', P') ->
  exists s' db', map_run ops s db = Some (rs, s', db') /\ mrep s' db' d' P' n base.
Proof.
  induction ops as [|op ops IH]; intros s db d P n base rs d' P' H Hs; cbn [spec_run map_run] in *.
  - injection Hs as <- <- <-. by exists s, db.
  - destruct (spec_op n op d P) as [[[r d1] P1]|] eqn:E1; [|done]. cbn [mbind option_bind] in Hs.
    destruct (spec_run n ops d1 P1) as [[[rs' d2] P2]|] eqn:E2; [|done]. injection Hs as <- <- <-.
    destruct (step_ok op s db d P n base r d1 P1 H E1) as (s1 & db1 & -> & H1). cbn [mbind option_bind].
    destruct (IH s1 db1 d1 P1 n base rs' d2 P2 H1 E2) as (s2 & db2 & -> & H2). by exists s2, db2.
Qed.

(** ** Additions alone never leave the contract *)

(** Each bucket in use has a key in the table. *)
Definition covered n d P : Prop := forall k, k ∈ d.*1 -> shares n (elements P) k = true.

Definition adds (op : map_op A) : bool :=
  match op with OpAdd k _ _ | OpSet k _ _ => key_fits k | OpDelete _ => false | OpGet _ => true end.

Lemma spec_new_covered n d P k x :
  covered n d P -> key_fits k = true -> exists P', spec_new n d P k = Some P' /\ covered n (dict_put k x d) P'.
Proof.
  intros H Hf. unfold spec_new. rewrite Hf. cbn [negb]. destruct (shares n (elements P) k) eqn:E1.
  - exists P. split; [done|]. by intros k' [->|Hk']%dict_put_keys; [|apply H].
  - destruct (shares n d.*1 k) eqn:E2.
    + apply shares_spec in E2 as (k' & Hk' & Hb). pose proof (H k' Hk') as (k1 & Hk1 & Hb1)%shares_spec.
      assert (shares n (elements P) k = true); [|congruence]. apply shares_spec. exists k1. by rewrite Hb1.
    + eexists. split; [done|]. intros k' [->|Hk']%dict_put_keys; apply shares_spec.
      * exists k. split; [|done]. apply elem_of_elements. set_solver.
      * pose proof (H k' Hk') as (k1 & Hk1 & Hb1)%shares_spec. exists k1. split; [|done].
        apply elem_of_elements. apply elem_of_elements in Hk1. set_solver.
Qed.

Lemma spec_run_total n ops : forall d P,
  covered n d P -> forallb adds ops = true -> is_Some (spec_run n ops d P).
Proof.
  induction ops as [|op ops IH]; intros d P H Ha; [by eexists|]. cbn [forallb] in Ha.
  apply andb_prop in Ha as [Hop Ha]. cbn [spec_run].
  assert (exists r d' P', spec_op n op d P = Some (r, d', P') /\ covered n d' P') as (r & d' & P' & -> & H').
  { destruct op as [k x m|k x m|k|k]; try done; cbn [spec_op adds] in *;
      try (destruct (length k =? 0)%nat; [by eexists _, _, _|]); [| |by eexists _, _, _].
    all: case_decide as Hin; [eexists _, _, _; split; [done|]|];
      [first [done|intros k' [->|Hk']%dict_put_keys; by apply H]|].
    all: destruct (spec_new_covered n d P k x H Hop) as (P' & -> & H'); by eexists _, _, _. }
  cbn [mbind option_bind]. destruct (IH d' P' H' Ha) as [[[rs d2] P2] ->]. by eexists.
Qed.

(** The key an operation puts in. *)
Definition given (op : map_op A) : option (list Z) :=
  match op with OpAdd k _ _ | OpSet k _ _ => Some k | _ => None end.

Lemma spec_op_keys n op d P r d' P' :
  adds op = true -> spec_op n op d P = Some (r, d', P') ->
  forall k, k ∈ d.*1 \/ given op = Some k /\ k <> [] -> k ∈ d'.*1.
Proof.
  intros Ha Hs k. destruct op as [k' x m|k' x m|k'|k']; try done; cbn [spec_op given] in *;
    [| |injection Hs as _ <- _; by intros [?|[? _]]].
  all: destruct (Nat.eqb_spec (length k') 0) as [Hk'|Hk'];
    [injection Hs as _ <- _; apply nil_length_inv in Hk' as ->; by intros [?|[[= <-] ?]]|].
  all: case_decide as Hin;
    [injection Hs as _ <- _|destruct (spec_new n d P k'); [|done]; cbn in Hs; injection Hs as _ <- _].
  all: rewrite ?dict_put_keys; intros [?|[[= <-] ?]]; auto.
Qed.

Lemma spec_run_keys n ops : forall d P rs d' P',
  forallb adds ops = true -> spec_run n ops d P = Some (rs, d', P') ->
  length rs = length ops /\ (forall k, k ∈ d.*1 -> k ∈ d'.*1) /\
  forall op k, op ∈ ops -> given op = Some k -> k <> [] -> k ∈ d'.*1.
Proof.
  induction ops as [|op ops IH]; intros d P rs d' P' Ha Hs; cbn [spec_run forallb] in *.
  - injection Hs as <- <- _. split; [done|]. split; [done|]. by intros op k ?%not_elem_of_nil.
  - apply andb_prop in Ha as [Hop Ha].
    destruct (spec_op n op d P) as [[[r d1] P1]|] eqn:E1; [|done]. cbn [mbind option_bind] in Hs.
    destruct (spec_run n ops d1 P1) as [[[rs' d2] P2]|] eqn:E2; [|done]. injection Hs as <- <- <-.
    pose proof (spec_op_keys n op d P r d1 P1 Hop E1) as Hkeep.
    destruct (IH d1 P1 rs' d2 P2 Ha E2) as (Hlen & Hd & Hkeys). split; [cbn; congruence|]. split.
    + intros k Hk. apply Hd, Hkeep. by left.
    + intros op' k [->|Hin]%elem_of_cons Hg Hk; [apply Hd, Hkeep; by right|by apply (Hkeys op' k)].
Qed.
End lemmas.

(** * Properties *)

Section properties.
Context {A : Type}.
Implicit Types (s : store A) (d : list (list Z * A)).

(** A store in which a map can be made: no request will be refused. *)
Definition ready s : Prop :=
  Heap.answers (blocks_of s) = [] /\ forall p, is_Some (tuples s !! p) -> (p < fresh_tuple s)%nat.

Lemma init_run_ok n s ops rs d P :
  ready s -> 0 < n -> spec_run n ops [] ∅ = Some (rs, d, P) ->
  exists db s1 s2 db2, hmap_init n s = (HMAP_SUCCESS, Some db, s1) /\
    map_run ops s1 db = Some (rs, s2, db2) /\ mrep s2 db2 d P n (live (blocks_of s) + 2).
Proof.
  intros [Ha Hf] Hn Hs. destruct (hmap_init_ok s n Ha Hf Hn) as (db & s1 & -> & Hb & H).
  destruct (run_ok ops s1 db [] ∅ n (live (blocks_of s) + 2) rs d P) as (s2 & db2 & E & H2); [by exists []|done|].
  by exists db, s1, s2, db2.
Qed.


(** C30: A map that is taken down after any operations of the contract of C7, no
    request for memory being refused, leaves no block behind, and no tuple of
    its table or its list. *)
Theorem hmap_destroy_frees n s (ops : list (map_op A)) rs d P :
  ready s -> 0 < n -> spec_run n ops [] ∅ = Some (rs, d, P) ->
  exists db s1 s2 db2 s3, hmap_init n s = (HMAP_SUCCESS, Some db, s1) /\ map_run ops s1 db = Some (rs, s2, db2) /\
    hmap_destroy s2 db2 = Some s3 /\ live (blocks_of s3) = live (blocks_of s) /\
    (forall k p, hmap_search s2 db2 k = Some (HMAP_SUCCESS, Some p) -> tuples s3 !! p = None) /\
    forall i, 0 <= i < n -> tuples s3 !! root_of db2 i = None.
Proof.
  intros Hr Hn Hs. destruct (init_run_ok n s ops rs d P Hr Hn Hs) as (db & s1 & s2 & db2 & E1 & E2 & H).
  pose proof H as (es & He & Hd & Hb). destruct (destroy_ok s2 db2 es P _ He) as (s3 & E3 & Hlive & Hgone).
  exists db, s1, s2, db2, s3. split; [done|]. split; [done|]. split; [done|]. split; [lia|]. split.
  - intros k p Hp. rewrite Hgone, decide_True; [done|left]. destruct (decide (k = [])) as [->|Hk].
    + by rewrite (mrep_nil _ _ _ _ _ _ H) in Hp.
    + destruct (hr_search _ _ _ _ _ k He Hk) as [Hyes Hno]. destruct (decide (k ∈ es.*2.*1)) as [Hin|Hout];
        [|by rewrite Hno in Hp].
      apply key_in in Hin as (q & x & Hin). rewrite (Hyes q x Hin) in Hp. injection Hp as ->.
      apply list_elem_of_fmap. by exists (p, (k, x)).
  - intros i Hi. rewrite Hgone, decide_True; [done|right]. apply root_in_table. by rewrite Hb.
Qed.

(** The macro [hmap_foreach] visits the tuples in the order of insertion,
    each once, and ends; [hmap_size] ends too, but does not count the last. *)
Theorem hmap_foreach_in_order n s (ops : list (map_op A)) rs d P :
  ready s -> 0 < n -> spec_run n ops [] ∅ = Some (rs, d, P) ->
  exists db s1 s2 db2, hmap_init n s = (HMAP_SUCCESS, Some db, s1) /\ map_run ops s1 db = Some (rs, s2, db2) /\
    hmap_foreach (fun _ t v => x ← characters (t_vals (t_body t)); Some (v ++ [(t_key (t_body t), x)])) s2 db2 []
      = Some d /\
    (Z.of_nat (length d) < 2 ^ 64 -> hmap_size s2 db2 = Some (Z.of_nat (length d - 1))).
Proof.
  intros Hr Hn Hs. destruct (init_run_ok n s ops rs d P Hr Hn Hs) as (db & s1 & s2 & db2 & E1 & E2 & H).
  destruct H as (es & H & <- & _). exists db, s1, s2, db2. split; [done|]. split; [done|]. split.
  - rewrite (tuples_walk_ok _ (fun v k x => v ++ [(k, x)]) s2 db2 es P (live (blocks_of s) + 2) []); [|by intros p t v x ->|done].
    f_equal. assert (forall l v, foldl (fun v (e : list Z * A) => v ++ [(e.1, e.2)]) v l = v ++ l) as E; [|apply E].
    induction l as [|[k x] l IH]; intros v; cbn [foldl fst snd]; [by rewrite app_nil_r|]. by rewrite IH, <- app_assoc.
  - rewrite length_fmap. intros Hlen. by eapply hmap_size_ok.
Qed.

(** As long as nothing is deleted and every key fits, nothing undefined
    happens: a map that is only added to, set and searched answers every
    operation, and holds every key it was given. *)
Theorem hmap_additions_defined n s (ops : list (map_op A)) :
  ready s -> 0 < n -> forallb adds ops = true ->
  exists db s1 rs s2 db2, hmap_init n s = (HMAP_SUCCESS, Some db, s1) /\
    map_run ops s1 db = Some (rs, s2, db2) /\ length rs = length ops /\
    forall op k, op ∈ ops -> given op = Some k -> k <> [] ->
      exists y, hmap_get s2 db2 k = Some (Some (ValChars (Some y))).
Proof.
  intros Hr Hn Ha. destruct (spec_run_total n ops [] ∅) as [[[rs d] P] Hs]; [by intros k ?%not_elem_of_nil|done|].
  destruct (init_run_ok n s ops rs d P Hr Hn Hs) as (db & s1 & s2 & db2 & E1 & E2 & H).
  exists db, s1, rs, s2, db2. split; [done|]. split; [done|].
  destruct (spec_run_keys n ops [] ∅ rs d P Ha Hs) as (Hlen & _ & Hkeys). split; [done|].
  intros op k Hop Hg Hk. pose proof (Hkeys op k Hop Hg Hk) as Hin.
  destruct H as (es & H & <- & Hb). pose proof (hr_keys _ _ _ _ _ H) as Hd.
  destruct (dict_split k es.*2 Hd Hin) as (L & y & R & E & HL). exists y.
  rewrite (mrep_get s2 db2 es.*2 P n (live (blocks_of s) + 2)) by by exists es.
  replace (length k =? 0)%nat with false by (by destruct k). by rewrite E, dict_get_mid.
Qed.
End properties.

(** ** Examples *)

(** Two buckets; the keys 1 and 3 share one, 2 has the other. *)
Definition empty_store : store Z := Store ∅ 0 (Heap [] 0).
Definition some_ops : list (map_op Z) :=
  [OpAdd [1] 10 1; OpSet [3] 30 1; OpAdd [2] 20 1; OpAdd [1] 11 1; OpSet [1] 12 1; OpDelete [3]; OpGet [1];
   OpGet [3]; OpSet [4] 40 1; OpAdd [] 0 1].

Lemma ready_empty : ready empty_store.
Proof. split; [done|]. by intros p [t Ht]. Qed.


Lemma hmap_destroy_frees_witness :
  exists rs db s1 s2 db2 s3, hmap_init 2 empty_store = (HMAP_SUCCESS, Some db, s1) /\
    map_run some_ops s1 db = Some (rs, s2, db2) /\ hmap_destroy s2 db2 = Some s3 /\ live (blocks_of s3) = 0.
Proof.
  edestruct (hmap_destroy_frees 2 empty_store some_ops) as (db & s1 & s2 & db2 & s3 & H1 & H2 & H3 & H4 & _);
    [exact ready_empty|done|vm_compute; reflexivity|].
  eexists _, db, s1, s2, db2, s3. split; [exact H1|]. split; [exact H2|]. split; [exact H3|exact H4].
Defined.

Lemma hmap_foreach_in_order_witness :
  exists rs db s1 s2 db2, hmap_init 2 empty_store = (HMAP_SUCCESS, Some db, s1) /\
    map_run some_ops s1 db = Some (rs, s2, db2) /\
    hmap_foreach (fun _ t v => x ← characters (t_vals (t_body t)); Some (v ++ [(t_key (t_body t), x)])) s2 db2 []
      = Some [([1], 12); ([2], 20); ([4], 40)] /\
    hmap_size s2 db2 = Some 2.
Proof.
  edestruct (hmap_foreach_in_order 2 empty_store some_ops) as (db & s1 & s2 & db2 & H1 & H2 & H3 & H4);
    [exact ready_empty|done|vm_compute; reflexivity|].
  eexists _, db, s1, s2, db2. split; [exact H1|]. split; [exact H2|]. split; [exact H3|]. apply H4. done.
Defined.

Lemma hmap_additions_defined_witness :
  exists db s1 rs s2 db2, hmap_init 2 empty_store = (HMAP_SUCCESS, Some db, s1) /\
    map_run [OpAdd [1] 10 1; OpSet [3] 30 1] s1 db = Some (rs, s2, db2) /\
    exists y, hmap_get s2 db2 [3] = Some (Some (ValChars (Some y))).
Proof.
  destruct (hmap_additions_defined 2 empty_store [OpAdd [1] 10 1; OpSet [3] 30 1])
    as (db & s1 & rs & s2 & db2 & H1 & H2 & _ & H3); [exact ready_empty|done|done|].
  exists db, s1, rs, s2, db2. split; [exact H1|]. split; [exact H2|].
  apply (H3 (OpSet [3] 30 1) [3]); [apply list_elem_of_further, list_elem_of_here|done|done].
Defined.

(** ** Outside the contract *)

(** A map with [n] buckets on which [ops] were run, and what [f] says of it. *)
Definition after {B : Type} (h : heap) (n : Z) (ops : list (map_op Z)) (f : store Z -> hmap_db -> option B)
    : option B :=
  let '(_, db, s) := hmap_init n (Store ∅ 0 h) in
  db ← db; '(_, s, db) ← map_run ops s db; f s db.

(** The tuple of the table is deleted and used again: what was in its bucket is
    lost, though the list still has it. *)
Example table_tuple_again :
  after (Heap [] 0) 1 [OpAdd [1] 10 1; OpAdd [2] 20 1; OpDelete [1]; OpAdd [3] 30 1]
    (fun s db => v ← hmap_get s db [2]; n ← hmap_size s db; Some (v, n, hmap_count db)) = Some (None, 1, 2).
Proof. vm_compute. reflexivity. Qed.

(** [hmap_truncate] leaves the keys of the table and the counts: the key is
    found, without a value, and cannot be added. *)
Example truncated_table :
  after (Heap [] 0) 2 [OpAdd [1] 10 1]
    (fun s db => '(s, db) ← hmap_truncate s db; v ← hmap_get s db [1];
       '(r, _, db) ← hmap_add s db [1] (ArgChars 11 1); Some (v, r, hmap_count db))
  = Some (Some (ValChars None), HMAP_TUPLE_ALREADY_EXIST, 1).
Proof. vm_compute. reflexivity. Qed.

(** It leaves the rings as well: a search goes to a tuple that was freed. *)
Example truncated_ring :
  after (Heap [] 0) 1 [OpAdd [1] 10 1; OpAdd [2] 20 1]
    (fun s db => '(s, db) ← hmap_truncate s db; Some (bool_decide (hmap_get s db [2] = None))) = Some true.
Proof. vm_compute. reflexivity. Qed.

(** [hmap_set] does not set the type: the characters of a tuple that was an
    integer are never freed. *)
Example set_keeps_type :
  after (Heap [] 0) 1 [] (fun s db =>
    '(_, s, db) ← hmap_add s db [1] (ArgInt 5); '(_, s, db) ← hmap_set s db [1] 10 1;
    s ← hmap_destroy s db; Some (live (blocks_of s))) = Some 1.
Proof. vm_compute. reflexivity. Qed.

(** When the characters of a table tuple are refused, [free] is called with a
    pointer into the table. *)
Example refused_characters :
  after (Heap [true; true; false] 0) 1 [OpAdd [1] 10 1] (fun s db => Some tt) = None.
Proof. vm_compute. reflexivity. Qed.

(** When the table is refused, the block of the map is lost. *)
Example refused_table :
  let '(r, db, s) := hmap_init 1 (Store (A := Z) ∅ 0 (Heap [true; false] 0)) in
  (r, db, live (blocks_of s)) = (HMAP_CREATE_TUPUL_ERROR, None, 1).
Proof. vm_compute. reflexivity. Qed.

(** A key of 1024 bytes does not fit with its terminator. *)
Example long_key :
  after (Heap [] 0) 1 [OpAdd (repeat 1 1024) 10 1] (fun s db => Some tt) = None.
Proof. vm_compute. reflexivity. Qed.

(** The type that is not valid has the code of a duplicate. *)
Example invalid_type_code :
  after (Heap [] 0) 1 [] (fun s db => '(r, _, _) ← hmap_add s db [1] ArgOther; Some r) = Some (-406).
Proof. vm_compute. reflexivity. Qed.
