(* ===== verification/HmapTypes.v ===== *)
(** The tag of a tuple of [lib/hmap/], [data_type], and the member of the union
    [vals] that is in use: the tag of a tuple that is in a map names the member,
    and every operation keeps that, [hmap_set] on tuples that hold characters
    only.  So what [hmap_free_data] gives to [free] is a pointer. *)
From S2P Require Import Prelude ByteOps StrOps Memory Stralloc Heap Chain Hmap.

Section types.
Context {A : Type}.
Implicit Types (s : store A) (db : hmap_db).

(** * The members and their tags *)

Definition has_type (v : value A) (dt : hmap_data_type) : bool :=
  match v, dt with
  | ValInt _, HMAP_DATA_TYPE_INT => true
  | ValUint _, HMAP_DATA_TYPE_UINT => true
  | ValLonglong _, HMAP_DATA_TYPE_INT64 => true
  | ValUlonglong _, HMAP_DATA_TYPE_UINT64 => true
  | ValDouble _, HMAP_DATA_TYPE_DOUBLE => true
  | ValChars _, HMAP_DATA_TYPE_CHARS => true
  | ValCustom _, HMAP_DATA_TYPE_CUSTOM => true
  | _, _ => false
  end.

Definition typed_cells (h : cells A) : Prop :=
  forall p b, body_at h p = Some b -> has_type (t_vals b) (t_data_type b) = true.
Definition typed s : Prop := typed_cells (tuples s).

(** A tuple that [hmap_set] finds holds characters. *)
Definition set_fits s db (k : list Z) : Prop :=
  forall r p b, hmap_search s db k = Some (r, Some p) -> body_at (tuples s) p = Some b ->
    t_data_type b = HMAP_DATA_TYPE_CHARS.

(** The calls that change a map. *)
Inductive call : Type :=
  | CallAdd (k : list Z) (a : arg A)
  | CallAddTuple (k : list Z) (data : option nat)
  | CallSet (k : list Z) (x : A) (n : Z)
  | CallDelete (k : list Z)
  | CallTruncate.

(** [s] and [db] after a call that returns. *)
Inductive calls : store A -> hmap_db -> call -> store A -> hmap_db -> Prop :=
  | calls_add s db k a r s' db' : hmap_add s db k a = Some (r, s', db') -> calls s db (CallAdd k a) s' db'
  | calls_add_tuple s db k data r s' db' :
      hmap_add_tuple_with_data s db k data = Some (r, s', db') -> calls s db (CallAddTuple k data) s' db'
  | calls_set s db k x n r s' db' :
      set_fits s db k -> hmap_set s db k x n = Some (r, s', db') -> calls s db (CallSet k x n) s' db'
  | calls_delete s db k r s' db' : hmap_delete s db k = Some (r, s', db') -> calls s db (CallDelete k) s' db'
  | calls_truncate s db s' db' : hmap_truncate s db = Some (s', db') -> calls s db CallTruncate s' db'.

Inductive reaches : store A -> hmap_db -> store A -> hmap_db -> Prop :=
  | reaches_here s db : reaches s db s db
  | reaches_call s db c s1 db1 s2 db2 : calls s db c s1 db1 -> reaches s1 db1 s2 db2 -> reaches s db s2 db2.

(** * Lemmas *)

(** ** Links *)

Definition same_bodies (h h' : cells A) : Prop := forall p, body_at h' p = body_at h p.

Lemma same_trans h1 h2 h3 : same_bodies h1 h2 -> same_bodies h2 h3 -> same_bodies h1 h3.
Proof. intros H1 H2 p. by rewrite H2. Qed.

Lemma set_nxt_same w (h h' : cells A) p v : set_nxt w h p v = Some h' -> same_bodies h h'.
Proof.
  destruct p as [p|]; [|done]. unfold set_nxt. cbn. destruct (h !! p) as [t|] eqn:Ht; [|done].
  cbn. intros [= <-] q. by apply (relinks_put w h p _ t Ht).
Qed.

Lemma set_prv_same w (h h' : cells A) p v : set_prv w h p v = Some h' -> same_bodies h h'.
Proof.
  destruct p as [p|]; [|done]. unfold set_prv. cbn. destruct (h !! p) as [t|] eqn:Ht; [|done].
  cbn. intros [= <-] q. by apply (relinks_put w h p _ t Ht).
Qed.

(** The steps of a computation that writes links; [tac] knows more of them. *)
Ltac link_steps tac :=
  repeat match goal with
  | H : context [decide ?P] |- _ => destruct (decide P); cbn [mbind option_bind] in H
  | p : (cells A * option nat)%type |- _ => destruct p
  | H : mbind _ ?x = Some _ |- _ => let E := fresh "E" in destruct x eqn:E; [cbn [mbind option_bind] in H|done]
  | H : Some _ = Some _ |- _ => injection H as <-
  | H : Some (_, _) = Some (_, _) |- _ => injection H as <- _
  | H : set_nxt _ _ _ _ = Some _ |- _ => apply set_nxt_same in H
  | H : set_prv _ _ _ _ = Some _ |- _ => apply set_prv_same in H
  | H : _ = Some _ |- _ => tac H
  end;
  let q := fresh in intros q; repeat match goal with H : same_bodies _ _ |- _ => specialize (H q) end; congruence.

Lemma ring_append_same w (h h' : cells A) f p l : ring_append w h f p = Some (h', l) -> same_bodies h h'.
Proof. unfold ring_append. intros H. destruct f; link_steps ltac:(fun H => fail). Qed.

Lemma ring_unlink_same w (h h' : cells A) p : ring_unlink w h p = Some h' -> same_bodies h h'.
Proof. unfold ring_unlink. intros H. link_steps ltac:(fun H => fail). Qed.

Lemma ring_remove_same w (h h' : cells A) f p l : ring_remove w h f p = Some (h', l) -> same_bodies h h'.
Proof. unfold ring_remove. intros H. link_steps ltac:(fun H => apply ring_unlink_same in H). Qed.

Lemma same_typed (h h' : cells A) : same_bodies h h' -> typed_cells h -> typed_cells h'.
Proof. intros E H p b. rewrite E. apply H. Qed.

(** ** Writes to a tuple *)

Lemma update_typed s s' f p :
  typed s -> update f s p = Some s' ->
  (forall b, body_at (tuples s) p = Some b -> has_type (t_vals (f b)) (t_data_type (f b)) = true) -> typed s'.
Proof.
  unfold update. intros H E Hf. destruct (tuples s !! p) as [t|] eqn:Ht; [|done]. injection E as <-.
  intros q b. cbn [lift tuples]. unfold body_at. destruct (decide (q = p)) as [->|Hq].
  - rewrite lookup_insert_eq. intros [= <-]. apply Hf. unfold body_at. by rewrite Ht.
  - rewrite lookup_insert_ne by done. apply H.
Qed.

Lemma body_typed s p b : typed s -> body_at (tuples s) p = Some b -> has_type (t_vals b) (t_data_type b) = true.
Proof. intros H. apply H. Qed.

Lemma delete_typed s p : typed s -> typed (free_tuple s p).
Proof.
  intros H q b. cbn. unfold body_at. destruct (decide (q = p)) as [->|Hq]; [by rewrite lookup_delete_eq|].
  rewrite lookup_delete_ne by done. apply H.
Qed.

Lemma new_tuple_typed s p s' : typed s -> new_tuple s = (p, s') -> typed s'.
Proof.
  intros H [= <- <-] q b. cbn. unfold body_at. destruct (decide (q = fresh_tuple s)) as [->|Hq].
  - rewrite lookup_insert_eq. by intros [= <-].
  - rewrite lookup_insert_ne by done. apply H.
Qed.

(** What a tuple of a typed store holds can be taken away. *)
Lemma free_data_typed s p : typed s ->
  is_Some (tuples s !! p) -> exists s', hmap_free_data s p = Some (HMAP_SUCCESS, s') /\ typed s'.
Proof.
  intros H [t Ht]. unfold hmap_free_data. pose proof (H p (t_body t)) as Hb. unfold body_at in *. rewrite Ht in *.
  specialize (Hb eq_refl). cbn [fmap option_fmap option_map mbind option_bind].
  assert (forall v, has_type v (t_data_type (t_body t)) = true -> exists s',
    update (fun b => put_vals (t_data_len b) v b) s p = Some s' /\ typed s') as Hupd.
  { intros v Hv. unfold update. rewrite Ht. cbn [mbind option_bind]. eexists. split; [done|].
    intros q b. cbn [lift tuples]. unfold body_at. destruct (decide (q = p)) as [->|Hq].
    - rewrite lookup_insert_eq. by intros [= <-].
    - rewrite lookup_insert_ne by done. apply H. }
  destruct (t_data_type (t_body t)), (t_vals (t_body t)); try done;
    match goal with |- context [update (fun b => put_vals _ ?v b) _ _] => destruct (Hupd v eq_refl) as (s' & -> & Hs') end;
    cbn [mbind option_bind]; eexists; (split; [done|]); try done.
  by destruct p0.
Qed.

Lemma update_twice (f g : body A -> body A) s s1 s2 p :
  update f s p = Some s1 -> update g s1 p = Some s2 -> update (fun b => g (f b)) s p = Some s2.
Proof.
  unfold update. destruct (tuples s !! p) as [t|]; [|done]. cbn. intros [= <-]. cbn.
  rewrite lookup_insert_eq. cbn. intros [= <-]. by rewrite insert_insert_eq.
Qed.

(** The value and its tag are written one after the other. *)
Lemma set_data_typed s p a e s1 :
  typed s -> set_data s p a = Some (e, s1) ->
  match e with
  | Some _ => typed s1
  | None => forall k i ty s2, update (put_entry k i ty (arg_type a)) s1 p = Some s2 -> typed s2
  end.
Proof.
  intros H E.
  assert (forall s0 f, tuples s0 = tuples s -> update f s0 p = Some s1 ->
    (forall b, has_type (t_vals (f b)) (arg_type a) = true) ->
    forall k i ty s2, update (put_entry k i ty (arg_type a)) s1 p = Some s2 -> typed s2) as Hfill.
  { intros s0 f Hs Eu Hf k i ty s2 E2. pose proof (update_twice _ _ _ _ _ _ Eu E2) as E3.
    eapply update_typed; [|exact E3|intros b _; apply Hf]. unfold typed. by rewrite Hs. }
  unfold set_data in E. destruct a as [i|i|i|i|d|x m|q|]; cbn [arg_value] in E.
  8: by injection E as <- <-.
  6: destruct (ask s) as [ok s0] eqn:Ea; unfold ask in Ea; destruct (request (blocks_of s)) as [ok' h];
    injection Ea as <- <-; destruct ok'; [|by injection E as <- <-].
  all: match type of E with mbind _ (update ?f ?s0 _) = _ =>
    destruct (update f s0 p) as [s3|] eqn:Eu; [|done]; cbn in E; injection E as <- <-;
    by apply (Hfill s0 f) end.
Qed.

Lemma link_primary_typed s s' db db' root : typed s -> link_primary s db root = Some (s', db') -> typed s'.
Proof.
  intros H E. unfold link_primary in E. destruct (tuples s !! root) as [t|]; [|done]. cbn [mbind option_bind] in E.
  match type of E with mbind _ ?x = _ => destruct x as [h|] eqn:E1; [|done] end. cbn [mbind option_bind] in E.
  destruct (ring_append ByList h _ _) as [[h2 l]|] eqn:E2; [|done]. injection E as <- _.
  apply (same_typed h); [by eapply ring_append_same|]. apply (same_typed (tuples s)); [|done].
  case_decide; destruct (ring_append ByHash _ _ _) as [[h1 l1]|] eqn:E3 in E1; try done; injection E1 as <-;
    by eapply ring_append_same.
Qed.

Lemma link_secondary_typed s s' db db' root p : typed s -> link_secondary s db root p = Some (s', db') -> typed s'.
Proof.
  intros H E. unfold link_secondary in E.
  destruct (ring_append ByList _ _ _) as [[h1 l1]|] eqn:E1; [|done]. cbn [mbind option_bind] in E.
  destruct (ring_append ByHash _ _ _) as [[h2 l2]|] eqn:E2; [|done]. injection E as <- _.
  apply (same_typed h1); [by eapply ring_append_same|]. by apply (same_typed (tuples s)); [eapply ring_append_same|].
Qed.

(** ** The operations *)

Lemma add_typed s db k a r s' db' : typed s -> hmap_add s db k a = Some (r, s', db') -> typed s'.
Proof.
  intros H E. unfold hmap_add in E. destruct (index_of db k) as [i|]; [|done]. cbn [mbind option_bind] in E.
  destruct (length k =? 0)%nat; [by injection E as _ <- _|].
  destruct (hmap_search s db k) as [[r1 q]|]; [|done]. cbn [mbind option_bind] in E.
  destruct (r1 =? HMAP_SUCCESS); [by injection E as _ <- _|].
  destruct (negb (r1 =? HMAP_TUPLE_NOT_FOUND)); [by injection E as _ <- _|].
  destruct (body_at _ _) as [t|]; [|done]. cbn [mbind option_bind] in E. destruct (length (t_key t) =? 0)%nat.
  - destruct (set_data _ _ _) as [[e s1]|] eqn:Ed; [|done]. cbn [mbind option_bind] in E.
    pose proof (set_data_typed _ _ _ _ _ H Ed) as Hd. destruct e as [e|].
    + destruct (e =? HMAP_ALLOCATED_ERROR); [done|]. by injection E as _ <- _.
    + destruct (negb (key_fits k)); [done|]. destruct (update _ s1 _) as [s2|] eqn:Eu; [|done]. cbn [mbind option_bind] in E.
      destruct (link_primary s2 db _) as [[s3 db3]|] eqn:El; [|done]. injection E as _ <- _.
      eapply link_primary_typed; [|exact El]. by eapply Hd.
  - destruct (ask s) as [ok s0] eqn:Ea. unfold ask in Ea. destruct (request (blocks_of s)) as [ok' h].
    injection Ea as <- <-. destruct ok'; [|done]. cbn [negb] in E.
    destruct (new_tuple _) as [p s1] eqn:En. apply new_tuple_typed in En; [|done].
    destruct (set_data s1 p a) as [[e s2]|] eqn:Ed; [|done]. cbn [mbind option_bind] in E.
    pose proof (set_data_typed _ _ _ _ _ En Ed) as Hd. destruct e as [e|].
    + injection E as _ <- _. destruct (e =? HMAP_ALLOCATED_ERROR); [by apply delete_typed|done].
    + destruct (negb (key_fits k)); [done|]. destruct (update _ s2 _) as [s3|] eqn:Eu; [|done]. cbn [mbind option_bind] in E.
      destruct (link_secondary s3 db _ _) as [[s4 db4]|] eqn:El; [|done]. injection E as _ <- _.
      eapply link_secondary_typed; [|exact El]. by eapply Hd.
Qed.

Lemma add_tuple_typed s db k data r s' db' :
  typed s -> hmap_add_tuple_with_data s db k data = Some (r, s', db') -> typed s'.
Proof.
  intros H E. unfold hmap_add_tuple_with_data in E. destruct (index_of db k) as [i|]; [|done]. cbn [mbind option_bind] in E.
  destruct (length k =? 0)%nat; [by injection E as _ <- _|].
  destruct (hmap_search s db k) as [[r1 q]|]; [|done]. cbn [mbind option_bind] in E.
  destruct (r1 =? HMAP_SUCCESS); [by injection E as _ <- _|].
  destruct (negb (r1 =? HMAP_TUPLE_NOT_FOUND)); [by injection E as _ <- _|].
  destruct (body_at _ _) as [t|]; [|done]. cbn [mbind option_bind] in E. destruct (length (t_key t) =? 0)%nat.
  - destruct (negb (key_fits k)); [done|]. destruct (update _ s _) as [s2|] eqn:Eu; [|done]. cbn [mbind option_bind] in E.
    destruct (link_primary s2 db _) as [[s3 db3]|] eqn:El; [|done]. injection E as _ <- _.
    eapply link_primary_typed; [|exact El]. eapply update_typed; [exact H|exact Eu|]. intros b Hb. exact (body_typed _ _ _ H Hb).
  - destruct (ask s) as [ok s0] eqn:Ea. unfold ask in Ea. destruct (request (blocks_of s)) as [ok' h].
    injection Ea as <- <-. destruct ok'; [|by injection E as _ <- _]. cbn [negb] in E.
    destruct (new_tuple _) as [p s1] eqn:En. apply new_tuple_typed in En; [|done].
    destruct (negb (key_fits k)); [done|]. destruct (update _ s1 _) as [s3|] eqn:Eu; [|done]. cbn [mbind option_bind] in E.
    destruct (link_secondary s3 db _ _) as [[s4 db4]|] eqn:El; [|done]. injection E as _ <- _.
    eapply link_secondary_typed; [|exact El]. eapply update_typed; [exact En|exact Eu|]. intros b Hb. exact (body_typed _ _ _ En Hb).
Qed.

(** [hmap_free_data], when it answers. *)
Lemma free_typed s p r s' : typed s -> hmap_free_data s p = Some (r, s') -> typed s'.
Proof.
  intros H E. destruct (free_data_typed s p H) as (s1 & E1 & H1); [|by rewrite E1 in E; injection E as _ <-].
  unfold hmap_free_data, body_at in E. destruct (tuples s !! p); [by eexists|done].
Qed.

Lemma delete_key_typed s db k r s' db' : typed s -> hmap_delete s db k = Some (r, s', db') -> typed s'.
Proof.
  intros H E. unfold hmap_delete in E. destruct (hmap_search s db k) as [[r1 q]|]; [|done]. cbn [mbind option_bind] in E.
  destruct (length k =? 0)%nat; [by injection E as _ <- _|]. destruct q as [p|]; [|by injection E as _ <- _].
  destruct (ring_remove ByList _ _ _) as [[h l]|] eqn:El; [|done]. cbn [mbind option_bind] in E.
  assert (typed (lift s h)) as H1 by (eapply same_typed; [by eapply ring_remove_same|done]).
  destruct (body_at _ p) as [t|]; [|done]. cbn [mbind option_bind] in E. case_decide as Hroot.
  - destruct (update (put_key []) _ _) as [s1|] eqn:E1; [|done]. cbn [mbind option_bind] in E.
    destruct (hmap_free_data s1 p) as [[r2 s2]|] eqn:E2; [|done]. cbn [mbind option_bind] in E.
    destruct (update _ (free_custom s2 t) _) as [s3|] eqn:E3; [|done]. injection E as _ <- _.
    assert (typed s2) as H2.
    { eapply free_typed; [|exact E2]. eapply update_typed; [exact H1|exact E1|]. intros b Hb. exact (body_typed _ _ _ H1 Hb). }
    eapply (update_typed (free_custom s2 t)); [|exact E3|]; [by unfold free_custom; destruct (t_data t)|].
    intros b. unfold free_custom. destruct (t_data t); exact (body_typed s2 _ _ H2).
  - destruct (ring_remove ByHash _ _ _) as [[h2 l2]|] eqn:E1; [|done]. cbn [mbind option_bind] in E.
    destruct (hmap_free_data _ p) as [[r2 s2]|] eqn:E2; [|done]. injection E as _ <- _.
    apply delete_typed. assert (typed s2) as H2; [|by unfold free_custom; destruct (t_data t)].
    eapply free_typed; [|exact E2]. eapply same_typed; [by eapply ring_remove_same|done].
Qed.

Lemma truncate_typed fuel : forall s db s' db', typed s -> truncate_loop s db fuel = Some (s', db') -> typed s'.
Proof.
  induction fuel as [|fuel IH]; intros s db s' db' H E; cbn [truncate_loop] in E;
    (destruct (list_tuple db) as [p|]; [|by injection E as <- _]); [done|].
  destruct (ring_remove ByList _ _ _) as [[h l]|] eqn:El; [|done]. cbn [mbind option_bind] in E.
  destruct (hmap_free_data _ p) as [[r1 s1]|] eqn:E1; [|done]. cbn [mbind option_bind] in E.
  assert (typed s1) as H1.
  { eapply free_typed; [|exact E1]. eapply same_typed; [by eapply ring_remove_same|done]. }
  destruct (body_at (tuples s1) p) as [t|]; [|done]. cbn [mbind option_bind] in E.
  match type of E with mbind _ ?x = _ => destruct x as [s2|] eqn:E2; [|done] end. cbn [mbind option_bind] in E.
  assert (typed s2) as H2.
  { destruct (t_data t); [|by injection E2 as <-]. eapply (update_typed (give_back s1)); [exact H1|exact E2|].
    intros b Hb. exact (body_typed _ _ _ H1 Hb). }
  eapply IH; [|exact E]. destruct (t_type t); [done|by apply delete_typed].
Qed.

Lemma set_typed s db k x n r s' db' :
  typed s -> set_fits s db k -> hmap_set s db k x n = Some (r, s', db') -> typed s'.
Proof.
  intros H Hf E. unfold hmap_set in E. destruct (length k =? 0)%nat; [by injection E as _ <- _|].
  destruct (hmap_search s db k) as [[r1 [p|]]|] eqn:Es; [| |done]; cbn [mbind option_bind] in E.
  - destruct (hmap_free_data s p) as [[r2 s1]|] eqn:E1; [|done]. cbn [mbind option_bind] in E.
    pose proof (free_typed _ _ _ _ H E1) as H1.
    assert (forall b, body_at (tuples s1) p = Some b -> t_data_type b = HMAP_DATA_TYPE_CHARS) as Ht.
    { unfold hmap_free_data in E1. destruct (body_at (tuples s) p) as [t|] eqn:Hb; [|done]. cbn [mbind option_bind] in E1.
      pose proof (Hf r1 p t Es Hb) as Hc. rewrite Hc in E1. destruct (t_vals t) as [| | | | |c|]; try done.
      destruct (update_ok s p (fun t => put_vals (t_data_len t) (ValChars None) t) t Hb) as (s3 & E3 & R3 & _).
      rewrite E3 in E1. cbn in E1. injection E1 as _ <-. intros b.
      assert (tuples (match c with Some _ => give_back s3 | None => s3 end) = tuples s3) as -> by by destruct c.
      rewrite (rb_body _ _ _ _ R3). by intros [= <-]. }
    destruct (ask s1) as [ok s2] eqn:Ea. unfold ask in Ea. destruct (request (blocks_of s1)) as [ok' h].
    injection Ea as <- <-. destruct ok';
      (match type of E with mbind _ ?u = _ => destruct u as [s3|] eqn:E3; [|done] end); injection E as _ <- _;
      (eapply (update_typed (lift_heap s1 h)); [exact H1|exact E3|]; intros b Hb; cbn; by rewrite (Ht b Hb)).
  - destruct (hmap_add s db k _) as [[[r2 s1] db1]|] eqn:E1; [|done]. cbn [mbind option_bind] in E.
    destruct (hmap_search s1 db1 k) as [[r3 p3]|]; [|done]. injection E as _ <- _. by eapply add_typed.
Qed.

Lemma init_typed s n r (o : option hmap_db) s' : typed s -> hmap_init n s = (r, o, s') -> typed s'.
Proof.
  intros H E. unfold hmap_init, ask in E. destruct (request (blocks_of s)) as [[] h]; cbn in E; [|by injection E as _ _ <-].
  destruct (n <? 0); [by injection E as _ _ <-|]. destruct (request h) as [[] h2]; cbn in E; [|by injection E as _ _ <-].
  injection E as _ _ <-. intros p b. cbn. unfold body_at. rewrite new_cells_lookup. case_decide; [by intros [= <-]|apply H].
Qed.

(** C29: In a map, [data_type] names the member of the union [vals] that a tuple
    uses: that holds in a new map and is kept by any calls, of [hmap_set] for
    keys that hold characters.  So [hmap_free_data] always has a case for
    what a tuple holds, and frees nothing but characters. *)
Theorem hmap_type_safety s n r db0 s0 db s' :
  typed s -> hmap_init n s = (r, Some db0, s0) -> reaches s0 db0 s' db ->
  (forall p b, body_at (tuples s') p = Some b -> has_type (t_vals b) (t_data_type b) = true) /\
  forall p, is_Some (tuples s' !! p) -> exists s'', hmap_free_data s' p = Some (HMAP_SUCCESS, s'') /\ typed s''.
Proof.
  intros H Hi Hr. assert (typed s') as Hs'; [|split; [done|intros p; by apply free_data_typed]].
  pose proof (init_typed _ _ _ _ _ H Hi) as H0. clear H Hi. induction Hr as [|s1 db1 c s2 db2 s3 db3 Hc _ IH]; [done|].
  apply IH. destruct Hc; [by eapply add_typed|by eapply add_tuple_typed|by eapply set_typed|by eapply delete_key_typed|].
  by eapply truncate_typed.
Qed.
End types.
Arguments call : clear implicits.

(** ** Examples *)

Definition nothing : store Z := Store ∅ 0 (Heap [] 0).

Lemma hmap_type_safety_witness :
  exists s db, hmap_init 1 nothing = (HMAP_SUCCESS, Some (HmapDb 0 0 1 0 None), s) /\
    exists s', reaches s (HmapDb 0 0 1 0 None) s' db /\ is_Some (tuples s' !! 0%nat) /\
    exists s'', hmap_free_data s' 0 = Some (HMAP_SUCCESS, s'').
Proof.
  eexists _, _. split; [vm_compute; reflexivity|]. eexists. split; [|split].
  - eapply reaches_call; [eapply (calls_add _ _ [1] (ArgInt 5)); vm_compute; reflexivity|].
    eapply reaches_call; [eapply (calls_set _ _ [2] 20 1); [intros r p b; vm_compute; done|vm_compute; reflexivity]|].
    eapply reaches_call; [eapply (calls_delete _ _ [1]); vm_compute; reflexivity|]. apply reaches_here.
  - vm_compute. by eexists.
  - edestruct (hmap_type_safety nothing 1) as [_ Hp].
    + by intros p b.
    + vm_compute. reflexivity.
    + eapply reaches_call; [eapply (calls_add _ _ [1] (ArgInt 5)); vm_compute; reflexivity|].
      eapply reaches_call; [eapply (calls_set _ _ [2] 20 1); [intros r p b; vm_compute; done|vm_compute; reflexivity]|].
      eapply reaches_call; [eapply (calls_delete _ _ [1]); vm_compute; reflexivity|]. apply reaches_here.
    + edestruct (Hp 0%nat) as (s'' & E & _); [vm_compute; by eexists|]. exists s''. exact E.
Defined.

(** [hmap_set] on an integer breaks it: what is freed then is no pointer, and
    what is no integer stays. *)
Example set_breaks_type :
  let '(_, db, s) := hmap_init 1 nothing in
  (db ← db; '(_, s, db) ← hmap_add s db [1] (ArgInt 5); '(_, s, db) ← hmap_set s db [1] 10 1;
   b ← body_at (tuples s) 0; Some (has_type (t_vals b) (t_data_type b))) = Some false.
Proof. vm_compute. reflexivity. Qed.
