(* ===== verification/Charbuf.v ===== *)
(** The character buffers of [lib/charbuf/]: look-ahead over the input of a
    device (the [Reader] of Buffer.v), counting lines and columns.  The block
    holds the characters read and not yet taken from its start.  A result is
    [None] for an access outside the block or a failed [assert]; characters
    that a call does not store are [None] inside its result. *)
From S2P Require Import Prelude ByteOps StrOps Buffer.

(** * State *)

Record charbuf : Type := Charbuf {
  chrs : option (list Z);
  cb_p : Z;
  cb_a : Z;
  cb_eof : bool;
  cb_err : bool;
  loc_line : Z;
  loc_column : Z;
  cb_offset : Z
}.

(** The fields [p] and [a] have twelve bits. *)
Definition bits12 (x : Z) : Z := x mod 4096.

(** [alloc] gives a block of the size asked for, whatever it holds, or none;
    the result is not tested. *)
Definition charbuf_init (lookahead : Z) (alloc : Z -> option (list Z)) : charbuf :=
  let a := bits12 (Z.land (u32 (lookahead + 7)) (-8)) in
  Charbuf (alloc a) 0 a false false 0 0 0.

Definition charbuf_free (b : charbuf) : charbuf :=
  Charbuf None 0 0 (cb_eof b) (cb_err b) (loc_line b) (loc_column b) (cb_offset b).

Definition charbuf_done (b : charbuf) : bool := cb_eof b || cb_err b.

(** The block and the count of the characters in it. *)
Definition with_chars (b : charbuf) (x : list Z) (p : Z) : charbuf :=
  Charbuf (Some x) (bits12 p) (cb_a b) (cb_eof b) (cb_err b) (loc_line b) (loc_column b) (cb_offset b).

(** * Operations *)

Section operations.
Context {W : Type} `{!Errno W, !Reader W} (calls : nat).

(** An interrupted read clears [errno] and is repeated. *)
Fixpoint op_loop (w : W) (n : Z) (fuel : nat) : option (Z * list Z * W) :=
  match fuel with
  | O => None
  | S fuel =>
      let '(r, l, w) := op_read w n in
      if (r <? 0) && eintr w then op_loop (clear_errno w) n fuel else Some (r, l, w)
  end.

(** At most [max] characters, as far as they fit, behind those that are there. *)
Definition charbuf_stubborn_read (w : W) (b : charbuf) (max : Z) : option (Z * W * charbuf) :=
  if cb_eof b then Some (0, w, b) else
  if cb_err b then Some (-1, w, b) else
  let n := if max <=? cb_a b - cb_p b then max else cb_a b - cb_p b in
  '(r, l, w) ← op_loop w n calls;
  let l := if r <? 0 then [] else l in
  x ← chrs b;
  x ← byte_copy x (Z.to_nat (cb_p b)) (length l) (There l);
  Some (r, w, Charbuf (Some x) (cb_p b) (cb_a b) (cb_eof b || (r =? 0)) (cb_err b || (r <? 0))
    (loc_line b) (loc_column b) (cb_offset b)).

(** [if(b->p) ... else if((ret = charbuf_stubborn_read(b, 1)) > 0) b->p = ret],
    the loop of [charbuf_peekc] and [charbuf_skipc]: after one read there is a
    character. *)
Definition charbuf_fill (w : W) (b : charbuf) : option (Z * W * charbuf) :=
  if negb (cb_p b =? 0) then Some (1, w, b) else
  '(r, w, b) ← charbuf_stubborn_read w b 1;
  if 0 <? r then x ← chrs b; Some (1, w, with_chars b x r) else Some (r, w, b).

Definition first_char (b : charbuf) : option Z := x ← chrs b; x !! 0%nat.

Definition charbuf_peekc (w : W) (b : charbuf) : option (Z * option Z * W * charbuf) :=
  '(r, w, b) ← charbuf_fill w b;
  if 0 <? r then c ← first_char b; Some (1, Some c, w, b) else Some (r, None, w, b).

Definition charbuf_peek (w : W) (b : charbuf) : option (Z * W * charbuf) :=
  '(r, _, w, b) ← charbuf_peekc w b;
  if 0 <? r then c ← first_char b; Some (c, w, b) else Some (r, w, b).

(** [b->loc] and [b->offset] after a character. *)
Definition located (b : charbuf) (c : Z) : charbuf :=
  let '(line, column) :=
    if c =? 10 then (u32 (loc_line b + 1), 0) else (loc_line b, u32 (loc_column b + 1)) in
  Charbuf (chrs b) (cb_p b) (cb_a b) (cb_eof b) (cb_err b) line column (u64 (cb_offset b + 1)).

(** The first character leaves the block. *)
Definition shift (b : charbuf) : option (Z * charbuf) :=
  c ← first_char b;
  x ← chrs b;
  let p := cb_p b - 1 in
  x ← (if 0 <? p then byte_copy x 0 (Z.to_nat p) (Here 1) else Some x);
  Some (c, located (with_chars b x p) c).

Definition charbuf_skipc (w : W) (b : charbuf) : option (Z * option Z * W * charbuf) :=
  '(r, w, b) ← charbuf_fill w b;
  if 0 <? r then '(c, b) ← shift b; Some (1, Some c, w, b) else Some (r, None, w, b).

(** The character taken, so 0 for a NUL. *)
Definition charbuf_skip (w : W) (b : charbuf) : option (Z * W * charbuf) :=
  '(r, c, w, b) ← charbuf_skipc w b;
  if 0 <? r then c ← c; Some (c, w, b) else Some (r, w, b).

Definition charbuf_get (w : W) (b : charbuf) : option (Z * W * charbuf) :=
  '(r, w, b) ← charbuf_peek w b;
  if 0 <? r then charbuf_skip w b else Some (r, w, b).

Definition charbuf_getc (w : W) (b : charbuf) : option (Z * option Z * W * charbuf) :=
  '(r, c, w, b) ← charbuf_peekc w b;
  if 0 <? r then '(_, w, b) ← charbuf_skip w b; Some (r, c, w, b) else Some (r, c, w, b).

Definition charbuf_next (w : W) (b : charbuf) : option (Z * W * charbuf) :=
  '(r, w, b) ← charbuf_skip w b;
  if 0 <? r then charbuf_peek w b else Some (r, w, b).

Definition charbuf_nextc (w : W) (b : charbuf) : option (Z * option Z * W * charbuf) :=
  '(r, w, b) ← charbuf_skip w b;
  if 0 <? r then charbuf_peekc w b else Some (r, None, w, b).

(** The difference of [n] and [p] is taken as an [unsigned int]. *)
Fixpoint peekn_loop (w : W) (b : charbuf) (n : Z) (fuel : nat) : option (option (list Z) * W * charbuf) :=
  match fuel with
  | O => None
  | S fuel =>
      if cb_p b =? n then Some (chrs b, w, b) else
      '(r, w, b) ← charbuf_stubborn_read w b (u32 (n - cb_p b));
      if 0 <? r then x ← chrs b; peekn_loop w (with_chars b x (cb_p b + r)) n fuel
      else Some (None, w, b)
  end.

Definition charbuf_peekn (w : W) (b : charbuf) (n : Z) : option (option (list Z) * W * charbuf) :=
  if n <? cb_a b then peekn_loop w b n (S (Z.to_nat (cb_a b))) else None.

(** Stops at a NUL, which [charbuf_skip] returns as 0, and gives up the count at
    the end of the input. *)
Fixpoint pred_skip_loop (pred : Z -> nat -> bool) (w : W) (b : charbuf) (n : nat) (fuel : nat)
    : option (Z * W * charbuf) :=
  match fuel with
  | O => None
  | S fuel =>
      '(r, c, w, b) ← charbuf_peekc w b;
      if 0 <? r then
        c ← c;
        if pred c n then
          '(r, w, b) ← charbuf_skip w b;
          if 0 <? r then pred_skip_loop pred w b (S n) fuel else Some (Z.of_nat (S n), w, b)
        else Some (Z.of_nat n, w, b)
      else Some (r, w, b)
  end.

Definition charbuf_pred_skip (pred : Z -> nat -> bool) (w : W) (b : charbuf) : option (Z * W * charbuf) :=
  pred_skip_loop pred w b 0 calls.

(** What is got, in a string. *)
Fixpoint pred_get_loop (pred : Z -> nat -> bool) (w : W) (b : charbuf) (sa : list Z) (fuel : nat)
    : option (list Z * W * charbuf) :=
  match fuel with
  | O => None
  | S fuel =>
      '(r, c, w, b) ← charbuf_peekc w b;
      if 0 <? r then
        c ← c;
        if pred c (length sa) then
          '(r, w, b) ← charbuf_skip w b;
          if 0 <? r then pred_get_loop pred w b (sa ++ [c]) fuel else Some (sa ++ [c], w, b)
        else Some (sa, w, b)
      else Some (sa, w, b)
  end.

Definition charbuf_pred_get (pred : Z -> nat -> bool) (w : W) (b : charbuf) : option (Z * list Z * W * charbuf) :=
  '(sa, w, b) ← pred_get_loop pred w b [] calls;
  Some (Z.of_nat (length sa), sa, w, b).

Fixpoint lookahead_loop (pred : Z -> nat -> bool) (w : W) (b : charbuf) (n : nat) (fuel : nat)
    : option (Z * W * charbuf) :=
  match fuel with
  | O => None
  | S fuel =>
      '(v, w, b) ← charbuf_peekn w b (Z.of_nat (S n));
      match v with
      | Some v =>
          c ← v !! n;
          if pred c n then lookahead_loop pred w b (S n) fuel else Some (Z.of_nat n, w, b)
      | None => Some (Z.of_nat n, w, b)
      end
  end.

Definition charbuf_pred_lookahead (pred : Z -> nat -> bool) (w : W) (b : charbuf) : option (Z * W * charbuf) :=
  lookahead_loop pred w b 0 (S (Z.to_nat (cb_a b))).

Fixpoint skip_until_loop (w : W) (b : charbuf) (c : Z) (n : nat) (fuel : nat) : option (Z * W * charbuf) :=
  match fuel with
  | O => None
  | S fuel =>
      '(r, w, b) ← charbuf_peek w b;
      if r <=? 0 then Some (r, w, b) else
      if r =? u8 c then Some (Z.of_nat n, w, b) else
      '(r, w, b) ← charbuf_skip w b;
      if r <=? 0 then Some (r, w, b) else skip_until_loop w b c (S n) fuel
  end.

Definition charbuf_skip_until (w : W) (b : charbuf) (c : Z) : option (Z * W * charbuf) :=
  skip_until_loop w b c 0 calls.

Fixpoint skipn_loop (w : W) (b : charbuf) (pos n : nat) : option (Z * W * charbuf) :=
  match n with
  | O => Some (Z.of_nat pos, w, b)
  | S n =>
      '(r, _, w, b) ← charbuf_peekc w b;
      if 0 <? r then
        '(r, w, b) ← charbuf_skip w b;
        if 0 <? r then skipn_loop w b (S pos) n else Some (Z.of_nat pos, w, b)
      else Some (Z.of_nat pos, w, b)
  end.

(** [uint8 skipped[n]] is not defined for no elements. *)
Definition charbuf_skipn (w : W) (b : charbuf) (n : nat) : option (Z * W * charbuf) :=
  if (n =? 0)%nat then None else skipn_loop w b 0 n.

Definition charbuf_is_ctype (fn : Z -> bool) (c : Z) (pos : nat) : bool := fn c.
Definition charbuf_is_samechar (other : Z) (c : Z) (pos : nat) : bool := (pos =? 0)%nat && (c =? other).

Definition charbuf_skip_ws (w : W) (b : charbuf) : option (Z * W * charbuf) :=
  charbuf_pred_skip (charbuf_is_ctype isspace) w b.
Definition charbuf_skip_ifeq (w : W) (b : charbuf) (c : Z) : option (Z * W * charbuf) :=
  charbuf_pred_skip (charbuf_is_samechar c) w b.

(** A failing read is not told from a character: the one compared is not set. *)
Definition charbuf_skip_ifset (w : W) (b : charbuf) (set : list Z) (setlen : nat) : option (Z * W * charbuf) :=
  '(r, c, w, b) ← charbuf_peekc w b;
  if r =? 0 then Some (0, w, b) else
  c ← c;
  i ← byte_chr set setlen c;
  if (i =? setlen)%nat then Some (0, w, b) else charbuf_skip w b.
End operations.

(** ** Strings as input *)

(** The pointer [b->ptr] is the terminated string from it on. *)
Definition charbuf_readstr (src : list Z) (len : Z) : option (Z * list Z * list Z) :=
  c ← load src 0;
  n ← (if c =? 0 then Some 0%nat else str_len src);
  let n := if Z.of_nat n >? len then Z.to_nat len else n in
  Some (Z.of_nat n, take n src, drop n src).

Definition charbuf_froms (lookahead : Z) (alloc : Z -> option (list Z)) : charbuf := charbuf_init lookahead alloc.

(** A terminated string as a device: its text without the terminator. *)
Record string_input : Type := StringInput { text_left : list Z }.

#[export] Instance string_errno : Errno string_input := {| eintr := fun _ => false; clear_errno := fun w => w |}.
#[export] Instance string_reader : Reader string_input := {| op_read := fun w len =>
  match charbuf_readstr (cstr (text_left w)) len with
  | Some (r, l, _) => (r, l, StringInput (drop (length l) (text_left w)))
  | None => (0, [], w)
  end |}.

(** * What is relied on *)

(** Clearing [errno] leaves the input alone. *)
Class ClearLaw (W : Type) `{ReaderLaws W} : Prop :=
  clear_read (w : W) : stream (clear_errno w) = stream w /\ (tries (clear_errno w) <= tries w)%nat /\
    read_faults (clear_errno w) = read_faults w.

(** A device that never fails. *)
Class Quiet (W : Type) `{!Errno W, !Reader W} : Prop :=
  quiet (w w' : W) (n r : Z) (l : list Z) : op_read w n = (r, l, w') -> 0 <= r.

(** * The contract *)

Section contract.
Context {W : Type} `{RL : ReaderLaws W}.

Definition wf_cb (b : charbuf) : Prop :=
  exists x, chrs b = Some x /\ Z.of_nat (length x) = cb_a b /\ 0 <= cb_p b <= cb_a b /\ 0 < cb_a b < 4096.

(** The characters that were read ahead, and all that can still be taken. *)
Definition pending (b : charbuf) : list Z :=
  match chrs b with Some x => take (Z.to_nat (cb_p b)) x | None => [] end.
Definition view (w : W) (b : charbuf) : list Z := pending b ++ if cb_eof b then [] else stream w.

(** A read has failed, and not because it was interrupted. *)
Definition loud (w w' : W) : Prop :=
  read_faults w < read_faults w' /\ exists (w1 w2 : W) (n r : Z) (l : list Z), op_read w1 n = (r, l, w2) /\ r < 0.

(** Where a buffer is in its input. *)
Definition place (b : charbuf) : Z * Z * Z := (loc_line b, loc_column b, cb_offset b).

(** What every operation leaves alone, and that [err] is set, once for all,
    exactly when the device fails. *)
Record keeps (w : W) (b : charbuf) (w' : W) (b' : charbuf) : Prop := Keeps {
  k_wf : wf_cb b';
  k_a : cb_a b' = cb_a b;
  k_tries : (tries w' <= tries w)%nat;
  k_err : cb_err b' = true -> cb_err b = true \/ loud w w';
  k_faults : read_faults w <= read_faults w' /\ (cb_err b' = false -> read_faults w' = read_faults w);
  k_stuck : cb_err b = true -> cb_err b' = true
}.

(** The next character is there, the input is at its end, or the device failed. *)
Definition peeked (w : W) (b : charbuf) (r : Z) (c : option Z) (w' : W) (b' : charbuf) : Prop :=
  keeps w b w' b' /\ view w' b' = view w b /\ place b' = place b /\ cb_p b' <= Z.max 1 (cb_p b) /\
  (r = 1 /\ (exists x xs, c = Some x /\ view w b = x :: xs /\ first_char b' = Some x /\ 0 < cb_p b') \/
   r = 0 /\ c = None /\ view w b = [] \/
   r < 0 /\ c = None /\ cb_err b' = true).

Definition moved (l : Z * Z * Z) (c : Z) : Z * Z * Z :=
  let '(line, column, offset) := l in
  if c =? 10 then (u32 (line + 1), 0, u64 (offset + 1)) else (line, u32 (column + 1), u64 (offset + 1)).

(** The next character is taken. *)
Definition skipped (w : W) (b : charbuf) (r : Z) (c : option Z) (w' : W) (b' : charbuf) : Prop :=
  keeps w b w' b' /\ cb_p b' <= Z.max 0 (cb_p b - 1) /\
  (r = 1 /\ (exists x, c = Some x /\ view w b = x :: view w' b' /\ place b' = moved (place b) x) \/
   r = 0 /\ c = None /\ view w b = [] /\ view w' b' = [] /\ place b' = place b \/
   r < 0 /\ c = None /\ cb_err b' = true).
End contract.

(** ** Streams

    A routine on a stream [xs]: its result and how many characters it takes. *)
Fixpoint stream_skip (pred : Z -> nat -> bool) (n : nat) (xs : list Z) : Z * nat :=
  match xs with
  | [] => (0, 0%nat)
  | x :: xs =>
      if pred x n then
        if x =? 0 then (Z.of_nat (S n), 1%nat)
        else let '(r, k) := stream_skip pred (S n) xs in (r, S k)
      else (Z.of_nat n, 0%nat)
  end.

Fixpoint stream_until (c : Z) (n : nat) (xs : list Z) : Z * nat :=
  match xs with
  | [] => (0, 0%nat)
  | x :: xs =>
      if x =? 0 then (0, 0%nat) else
      if x =? u8 c then (Z.of_nat n, 0%nat) else let '(r, k) := stream_until c (S n) xs in (r, S k)
  end.

Fixpoint stream_skipn (pos n : nat) (xs : list Z) : Z * nat :=
  match n, xs with
  | O, _ | _, [] => (Z.of_nat pos, 0%nat)
  | S n, x :: xs => if x =? 0 then (Z.of_nat pos, 1%nat) else let '(r, k) := stream_skipn (S pos) n xs in (r, S k)
  end.

Inductive char_op : Type :=
  | Peek | Peekc | Skip | Skipc | Get | Getc | Next | Nextc
  | SkipPred (pred : Z -> nat -> bool)
  | SkipUntil (c : Z)
  | SkipN (n : nat).

(** The result, the character stored, and the number of characters taken. *)
Definition stream_op (o : char_op) (xs : list Z) : Z * option Z * nat :=
  let head := match xs with [] => 0 | x :: _ => x end in
  let there (k : nat) := match xs with [] => (0, None, 0%nat) | x :: _ => (1, Some x, k) end in
  let taken (k : nat) := match xs with [] => 0%nat | _ :: _ => k end in
  match o with
  | Peek => (head, None, 0%nat)
  | Peekc => there 0%nat
  | Skip => (head, None, taken 1%nat)
  | Skipc => there 1%nat
  | Get => (head, None, if head =? 0 then 0%nat else taken 1%nat)
  | Getc => there 1%nat
  | Next => (if head =? 0 then 0 else match xs with _ :: y :: _ => y | _ => 0 end, None, taken 1%nat)
  | Nextc =>
      if head =? 0 then (0, None, taken 1%nat)
      else match xs with _ :: y :: _ => (1, Some y, 1%nat) | _ => (0, None, taken 1%nat) end
  | SkipPred pred => let '(r, k) := stream_skip pred 0 xs in (r, None, k)
  | SkipUntil c => let '(r, k) := stream_until c 0 xs in (r, None, k)
  | SkipN n => let '(r, k) := stream_skipn 0 n xs in (r, None, k)
  end.

Definition char_step {W : Type} `{!Errno W, !Reader W} (calls : nat) (o : char_op) (w : W) (b : charbuf)
    : option (Z * option Z * W * charbuf) :=
  let only (res : option (Z * W * charbuf)) := '(r, w, b) ← res; Some (r, None, w, b) in
  match o with
  | Peek => only (charbuf_peek calls w b)
  | Peekc => charbuf_peekc calls w b
  | Skip => only (charbuf_skip calls w b)
  | Skipc => charbuf_skipc calls w b
  | Get => only (charbuf_get calls w b)
  | Getc => charbuf_getc calls w b
  | Next => only (charbuf_next calls w b)
  | Nextc => charbuf_nextc calls w b
  | SkipPred pred => only (charbuf_pred_skip calls pred w b)
  | SkipUntil c => only (charbuf_skip_until calls w b c)
  | SkipN n => only (charbuf_skipn calls w b n)
  end.

(** Skipping no characters by number is undefined. *)
Definition char_valid (o : char_op) : Prop := match o with SkipN n => (0 < n)%nat | _ => True end.

Section outcomes.
Context {W : Type} `{RL : ReaderLaws W}.

(** The call answers: [f] of its result, the characters [xs] are left and the
    place is [l], unless the device has failed. *)
Definition outcome {R : Type} (w : W) (b : charbuf) (res : option (R * W * charbuf)) (r : R) (xs : list Z)
    (l : Z * Z * Z) : Prop :=
  exists r' w' b', res = Some (r', w', b') /\ keeps w b w' b' /\ cb_p b' <= Z.max 1 (cb_p b) /\
    (cb_err b' = true \/ r' = r /\ view w' b' = xs /\ place b' = l).
End outcomes.

(** * Lemmas *)

Section lemmas.
Context {W : Type} `{RL : ReaderLaws W, CL : !ClearLaw W} (calls : nat).

Lemma op_loop_ok (fuel : nat) : forall (w : W) (n : Z),
  0 < n -> (tries w < fuel)%nat ->
  exists r l w', op_loop w n fuel = Some (r, l, w') /\ (tries w' <= tries w)%nat /\
    (r < 0 /\ stream w' = stream w /\ loud w w' \/
     r = Z.of_nat (length l) /\ r <= n /\ stream w = l ++ stream w' /\ (l = [] -> stream w = []) /\
     read_faults w' = read_faults w).
Proof.
  induction fuel as [|fuel IH]; intros w n Hn Hf; [lia|]. cbn [op_loop].
  destruct (op_read w n) as [[r l] w1] eqn:E. pose proof E as E'. apply read_law in E as [Ht Hr]; [|done].
  destruct (Z.ltb_spec r 0); cbn [andb].
  - destruct Hr as [Hs He]. destruct (eintr w1).
    + destruct (clear_read w1) as (Hc1 & Hc2 & Hc3). destruct He as [He Hfl].
      destruct (IH (clear_errno w1) n Hn) as (r' & l' & w' & -> & Ht' & Hor); [lia|].
      unfold loud in *. rewrite Hc1, Hs, Hc3, Hfl in Hor. exists r', l', w'. split; [done|]. split; [lia|done].
    + exists r, l, w1. split; [done|]. split; [done|]. left. split; [done|]. split; [done|]. split; [lia|]. by exists w, w1, n, r, l.
  - exists r, l, w1. split; [done|]. split; [done|]. by right.
Qed.

Lemma wf_pending b : wf_cb b -> Z.of_nat (length (pending b)) = cb_p b.
Proof. intros (x & E & Hl & Hp & _). unfold pending. rewrite E, length_take. lia. Qed.

Lemma bits12_id x : 0 <= x < 4096 -> bits12 x = x.
Proof. apply Z.mod_small. Qed.

(** Reading behind what is there. *)
Lemma stubborn_read_ok (w : W) b max :
  wf_cb b -> cb_p b < cb_a b -> 0 < max -> (tries w < calls)%nat ->
  exists r w' b', charbuf_stubborn_read calls w b max = Some (r, w', b') /\ keeps w b w' b' /\
    cb_p b' = cb_p b /\ place b' = place b /\ pending b' = pending b /\
    (r < 0 /\ cb_err b' = true /\ view w' b' = view w b \/
     r = 0 /\ view w b = pending b /\ view w' b' = pending b \/
     0 < r <= max /\ cb_p b + r <= cb_a b /\ exists x, chrs b' = Some x /\
       wf_cb (with_chars b' x (cb_p b + r)) /\ view w' (with_chars b' x (cb_p b + r)) = view w b).
Proof.
  intros Hw Hroom Hmax Hf. pose proof Hw as (x & Ex & Hx & Hp & Ha). unfold charbuf_stubborn_read.
  destruct (cb_eof b) eqn:Eeof.
  { exists 0, w, b. split; [done|]. split; [by split; auto|]. split_and!; try done. right. left.
    unfold view. by rewrite Eeof, app_nil_r. }
  destruct (cb_err b) eqn:Eerr.
  { exists (-1), w, b. split; [done|]. split; [split; auto; lia|]. split_and!; try done. left. split; [lia|done]. }
  set (n := if max <=? cb_a b - cb_p b then max else cb_a b - cb_p b).
  assert (0 < n <= max /\ n <= cb_a b - cb_p b) as [Hn Hna] by (unfold n; destruct (Z.leb_spec max (cb_a b - cb_p b)); lia).
  destruct (op_loop_ok calls w n) as (r & l & w' & -> & Ht & Hor); [lia|done|]. cbn [mbind option_bind].
  rewrite Ex. cbn [mbind option_bind]. destruct Hor as [(Hr & Hs & Hloud)|(-> & Hr & Hs & He & Hfl)].
  - ztrue (r <? 0). cbn [length byte_copy byte_copy_from mbind option_bind].
    eexists r, w', _. split; [done|]. replace (r =? 0) with false by lia. split; [|split_and!; try done].
    + split; cbn; try done; [by exists x|by rewrite Eerr; right|]. destruct Hloud as [Hfl _]. rewrite ?orb_true_r. split; [lia|done].
    + unfold pending. by rewrite Ex.
    + left. split; [done|]. split; [cbn; by destruct (cb_err b)|]. unfold view, pending. cbn. by rewrite Ex, Eeof, Hs.
  - zfalse (Z.of_nat (length l) <? 0). rewrite byte_copy_spec by (simpl; lia || done).
    cbn [mbind option_bind src_block]. rewrite firstn_all. set (y := splice x (Z.to_nat (cb_p b)) l).
    assert (length y = length x) as Hy by (apply splice_length; lia).
    assert (take (Z.to_nat (cb_p b)) y = take (Z.to_nat (cb_p b)) x) as Hty.
    { unfold y, splice. rewrite take_app_le by (rewrite length_take; lia). by rewrite take_take, Nat.min_id. }
    eexists _, w', _. split; [done|].
    split; [|split; [done|split; [done|split; [unfold pending; cbn; by rewrite Ex, Hty|]]]].
    + split; cbn; try done; [exists y; cbn; split; [done|]; lia|..]; first [by rewrite Eerr|split; [lia|done]].
    + right. destruct (Z.eqb_spec (Z.of_nat (length l)) 0) as [E0|E0].
      * left. assert (l = []) as -> by (apply nil_length_inv; lia). specialize (He eq_refl).
        split; [done|]. unfold view, pending. cbn. rewrite Ex, Eeof, He, Hty, !app_nil_r. done.
      * right. split; [lia|]. split; [lia|]. exists y. split; [done|]. split.
        { exists y. unfold with_chars. cbn. rewrite bits12_id by lia. split; [done|]. lia. }
        unfold view, pending, with_chars. cbn. rewrite bits12_id, Ex, Eeof, Hs by lia. rewrite app_assoc. f_equal.
        unfold y, splice. rewrite app_assoc, take_app_le by (rewrite length_app, length_take; lia).
        rewrite take_ge; [done|]. rewrite length_app, length_take. lia.
Qed.

Lemma keeps_refl (w : W) b : wf_cb b -> keeps w b w b.
Proof. intros. split; auto. lia. Qed.

Lemma keeps_trans (w w1 w2 : W) b b1 b2 : keeps w b w1 b1 -> keeps w1 b1 w2 b2 -> keeps w b w2 b2.
Proof.
  intros [W1 A1 T1 E1 [F1 G1] S1] [W2 A2 T2 E2 [F2 G2] S2]. split; [done|congruence|lia| | |auto].
  - intros E. destruct (E2 E) as [E'|[Hfl E']]; [|right; split; [lia|done]].
    destruct (E1 E') as [?|[Hfl' ?]]; [by left|right; split; [lia|done]].
  - split; [lia|]. intros E. rewrite (G2 E). apply G1. destruct (cb_err b1) eqn:Eb; [|done]. by rewrite S2 in E.
Qed.

Lemma char_fill_ok (w : W) b :
  wf_cb b -> (tries w < calls)%nat ->
  exists r w' b', charbuf_fill calls w b = Some (r, w', b') /\ keeps w b w' b' /\ view w' b' = view w b /\
    place b' = place b /\ cb_p b' <= Z.max 1 (cb_p b) /\
    (r = 1 /\ 0 < cb_p b' \/ r = 0 /\ cb_p b' = 0 /\ view w b = [] \/ r < 0 /\ cb_p b' = 0 /\ cb_err b' = true).
Proof.
  intros Hw Hf. pose proof Hw as (x & Ex & Hx & Hp & Ha). unfold charbuf_fill.
  destruct (Z.eqb_spec (cb_p b) 0) as [E0|E0]; cbn [negb].
  2:{ exists 1, w, b. split; [done|]. split; [by apply keeps_refl|]. split_and!; try done; [lia|]. left. lia. }
  assert (pending b = []) as Hnil by (apply nil_length_inv; pose proof (wf_pending b Hw); lia).
  destruct (stubborn_read_ok w b 1) as (r & w' & b' & -> & Hk & Hp' & Hpl & Hpe & Hor); [done|lia|lia|done|].
  cbn [mbind option_bind]. destruct Hor as [(Hr & He & Hv)|[(-> & Hv & Hv')|(Hr & Hr' & y & Ey & Hwy & Hv)]].
  - zfalse (0 <? r). exists r, w', b'. split; [done|]. split; [done|]. split; [done|]. split; [done|]. split; [lia|].
    right. right. split_and!; try done. lia.
  - zfalse (0 <? 0). exists 0, w', b'. split; [done|]. split; [done|]. split; [congruence|]. split; [done|]. split; [lia|].
    right. left. split; [done|]. split; [lia|congruence].
  - ztrue (0 <? r). rewrite Ey. cbn [mbind option_bind]. rewrite E0 in *.
    exists 1, w', (with_chars b' y r). split; [done|]. split; [|split; [done|split; [done|]]].
    + destruct Hk as [_ A T E S]. split; try done.
    + cbn. rewrite bits12_id by lia. split; [lia|]. left. lia.
Qed.

(** A buffer that is not empty has its first character at the start of the block. *)
Lemma first_ok (w : W) b :
  wf_cb b -> 0 < cb_p b -> exists c xs, first_char b = Some c /\ pending b = c :: xs /\
    view w b = c :: xs ++ (if cb_eof b then [] else stream w).
Proof.
  intros (x & Ex & Hx & Hp & Ha) H0. unfold first_char, view, pending. rewrite Ex. cbn [mbind option_bind].
  destruct x as [|c x]; [cbn in Hx; lia|]. destruct (Z.to_nat (cb_p b)) as [|p] eqn:Ep; [lia|].
  exists c, (take p x). by cbn.
Qed.

Lemma peekc_ok (w : W) b :
  wf_cb b -> (tries w < calls)%nat ->
  exists r c w' b', charbuf_peekc calls w b = Some (r, c, w', b') /\ peeked w b r c w' b'.
Proof.
  intros Hw Hf. unfold charbuf_peekc.
  destruct (char_fill_ok w b Hw Hf) as (r & w' & b' & -> & Hk & Hv & Hl & Hp & Hor). cbn [mbind option_bind].
  destruct Hor as [[-> H0]|[(-> & _ & Hn)|(Hr & _ & He)]].
  - ztrue (0 <? 1). destruct (first_ok w' b' (k_wf _ _ _ _ Hk) H0) as (c & xs & Ec & _ & Hc). rewrite Ec.
    exists 1, (Some c), w', b'. split; [done|]. split_and!; try done. left. split; [done|].
    eexists c, _. split; [done|]. split; [|done]. rewrite <- Hv. exact Hc.
  - zfalse (0 <? 0). exists 0, None, w', b'. split; [done|]. split_and!; try done. right. by left.
  - zfalse (0 <? r). exists r, None, w', b'. split; [done|]. split_and!; try done. right. by right.
Qed.

Lemma shift_ok (w : W) b :
  wf_cb b -> 0 < cb_p b ->
  exists c b', shift b = Some (c, b') /\ keeps w b w b' /\ cb_p b' = cb_p b - 1 /\
    view w b = c :: view w b' /\ place b' = moved (place b) c.
Proof.
  intros Hw H0. unfold shift. destruct (first_ok w b Hw H0) as (c & xs & -> & Hpe & Hc). cbn [mbind option_bind].
  pose proof Hw as (x & Ex & Hx & Hxp & Ha). rewrite Ex. cbn [mbind option_bind].
  assert (exists y, (if 0 <? cb_p b - 1 then byte_copy x 0 (Z.to_nat (cb_p b - 1)) (Here 1) else Some x) = Some y /\
    length y = length x /\ take (Z.to_nat (cb_p b - 1)) y = xs) as (y & -> & Hy & Hty).
  { unfold pending in Hpe. rewrite Ex in Hpe. destruct x as [|c' x]; [cbn in Hx; lia|].
    destruct (Z.to_nat (cb_p b)) as [|p] eqn:Ep; [lia|]. cbn [take] in Hpe. injection Hpe as -> Hxs.
    replace (Z.to_nat (cb_p b - 1)) with p by lia. cbn [length] in Hx. destruct (Z.ltb_spec 0 (cb_p b - 1)) as [H1|H1].
    - rewrite byte_copy_spec by (simpl; lia). eexists. split; [done|].
      assert (length (src_block (c :: x) (Here 1) p) = p) as Hbl by (apply src_block_length; simpl; lia).
      split; [apply splice_length; simpl in *; lia|]. unfold splice. cbn [take app].
      rewrite take_app_le by lia. rewrite take_ge by lia. unfold src_block, block. cbn [drop]. done.
    - exists (c :: x). split; [done|]. split; [done|]. by replace p with 0%nat in * by lia. }
  cbn [mbind option_bind]. set (b2 := located (with_chars b y (cb_p b - 1)) c). exists c, b2. split; [done|].
  assert (chrs b2 = Some y /\ cb_p b2 = cb_p b - 1 /\ cb_a b2 = cb_a b /\ cb_err b2 = cb_err b /\
    cb_eof b2 = cb_eof b /\ place b2 = moved (place b) c) as (E1 & E2 & E3 & E4 & E5 & E6).
  { assert (bits12 (cb_p b - 1) = cb_p b - 1) as Eb by (apply bits12_id; lia).
    unfold b2, located, with_chars, moved, place. cbn [loc_line loc_column]. by destruct (c =? 10). }
  split; [|split; [done|split; [|done]]].
  - split; [|done|done|rewrite E4; auto|split; [lia|done]|by rewrite E4]. exists y. rewrite E2, E3. split; [done|]. lia.
  - rewrite Hc. unfold view, pending. by rewrite E1, E2, E5, Hty.
Qed.

Lemma skipc_ok (w : W) b :
  wf_cb b -> (tries w < calls)%nat ->
  exists r c w' b', charbuf_skipc calls w b = Some (r, c, w', b') /\ skipped w b r c w' b'.
Proof.
  intros Hw Hf. unfold charbuf_skipc.
  destruct (char_fill_ok w b Hw Hf) as (r & w' & b' & -> & Hk & Hv & Hl & Hp & Hor). cbn [mbind option_bind].
  pose proof (k_wf _ _ _ _ Hk) as Hw'. destruct Hor as [[-> H0]|[(-> & Hp0 & Hn)|(Hr & Hp0 & He)]].
  - ztrue (0 <? 1). destruct (shift_ok w' b' Hw' H0) as (c & b2 & -> & Hk2 & Hp2 & Hv2 & Hl2). cbn [mbind option_bind].
    exists 1, (Some c), w', b2. split; [done|]. split; [by eapply keeps_trans|]. split; [lia|]. left. split; [done|].
    exists c. split; [done|]. by rewrite <- Hv, <- Hl.
  - zfalse (0 <? 0). exists 0, None, w', b'. split; [done|]. split; [done|]. split; [lia|]. right. left. split_and!; try done.
    congruence.
  - zfalse (0 <? r). exists r, None, w', b'. split; [done|]. split; [done|]. split; [lia|]. right. right. done.
Qed.

(** The character as the result: a NUL looks like the end of the input. *)
Lemma skip_ok (w : W) b :
  wf_cb b -> (tries w < calls)%nat ->
  exists r r0 c w' b', charbuf_skip calls w b = Some (r, w', b') /\ skipped w b r0 c w' b' /\
    r = match c with Some x => x | None => r0 end.
Proof.
  intros Hw Hf. unfold charbuf_skip. destruct (skipc_ok w b Hw Hf) as (r & c & w' & b' & -> & Hs).
  cbn [mbind option_bind]. pose proof Hs as (_ & _ & [[-> (x & -> & _)]|[(-> & -> & _)|(Hr & -> & _)]]).
  - ztrue (0 <? 1). cbn [mbind option_bind]. by eexists x, 1, _, w', b'.
  - zfalse (0 <? 0). by eexists 0, 0, _, w', b'.
  - zfalse (0 <? r). by eexists r, r, _, w', b'.
Qed.

Lemma peek_ok (w : W) b :
  wf_cb b -> (tries w < calls)%nat ->
  exists r r0 c w' b', charbuf_peek calls w b = Some (r, w', b') /\ peeked w b r0 c w' b' /\
    r = match c with Some x => x | None => r0 end.
Proof.
  intros Hw Hf. unfold charbuf_peek. destruct (peekc_ok w b Hw Hf) as (r & c & w' & b' & -> & Hs).
  cbn [mbind option_bind]. pose proof Hs as (_ & _ & _ & _ & [[-> (x & xs & -> & _ & -> & _)]|[(-> & -> & _)|(Hr & -> & _)]]).
  - ztrue (0 <? 1). cbn [mbind option_bind]. by eexists x, 1, _, w', b'.
  - zfalse (0 <? 0). by eexists 0, 0, _, w', b'.
  - zfalse (0 <? r). by eexists r, r, _, w', b'.
Qed.

(** ** The operations on streams *)

Lemma outcome_here {R : Type} (w w' : W) b b' (r : R) xs l :
  keeps w b w' b' -> cb_p b' <= Z.max 1 (cb_p b) ->
  cb_err b' = true \/ view w' b' = xs /\ place b' = l -> outcome w b (Some (r, w', b')) r xs l.
Proof. intros Hk Hp Hor. exists r, w', b'. split_and!; try done. destruct Hor as [?|[? ?]]; auto. Qed.

Lemma outcome_failed {R : Type} (w w' : W) b b' (r r2 : R) xs l :
  keeps w b w' b' -> cb_p b' <= Z.max 1 (cb_p b) -> cb_err b' = true -> outcome w b (Some (r2, w', b')) r xs l.
Proof. intros Hk Hp He. exists r2, w', b'. split_and!; try done. by left. Qed.

Lemma outcome_after {R : Type} (w w1 : W) b b1 (res : option (R * W * charbuf)) r xs l :
  keeps w b w1 b1 -> cb_p b1 <= Z.max 1 (cb_p b) -> outcome w1 b1 res r xs l -> outcome w b res r xs l.
Proof.
  intros Hk Hp (r' & w' & b' & -> & Hk' & Hp' & Hor). exists r', w', b'. split; [done|].
  split; [by eapply keeps_trans|]. split; [lia|done].
Qed.

Definition bytes_ok (xs : list Z) : Prop := Forall (fun x => 0 <= x) xs.

(** A character that was looked at is taken. *)
Lemma skip_there (w : W) b x xs :
  wf_cb b -> 0 < cb_p b -> view w b = x :: xs ->
  exists b', charbuf_skip calls w b = Some (x, w, b') /\ keeps w b w b' /\ cb_p b' = cb_p b - 1 /\
    view w b' = xs /\ place b' = moved (place b) x.
Proof.
  intros Hw Hp Hx. unfold charbuf_skip, charbuf_skipc, charbuf_fill. zfalse (cb_p b =? 0). cbn [negb mbind option_bind].
  ztrue (0 <? 1). destruct (shift_ok w b Hw Hp) as (c & b' & -> & Hk & Hp' & Hv & Hl). cbn [mbind option_bind].
  ztrue (0 <? 1). cbn [mbind option_bind]. rewrite Hx in Hv. injection Hv as <- Hv. exists b'. by split_and!.
Qed.

(** What a peek of [x :: xs] or of nothing leads to. *)
Lemma peek_cases (w : W) b xs :
  wf_cb b -> (tries w < calls)%nat -> view w b = xs ->
  exists r c w1 b1, charbuf_peekc calls w b = Some (r, c, w1, b1) /\ keeps w b w1 b1 /\
    cb_p b1 <= Z.max 1 (cb_p b) /\
    (r < 0 /\ c = None /\ cb_err b1 = true \/
     view w1 b1 = xs /\ place b1 = place b /\
       match xs with
       | [] => r = 0 /\ c = None
       | x :: xs => r = 1 /\ c = Some x /\ first_char b1 = Some x /\
           exists b2, charbuf_skip calls w1 b1 = Some (x, w1, b2) /\ keeps w b w1 b2 /\ cb_p b2 <= Z.max 1 (cb_p b) /\
             view w1 b2 = xs /\ place b2 = moved (place b) x
       end).
Proof.
  intros Hw Ht Hx. destruct (peekc_ok w b Hw Ht) as (r & c & w1 & b1 & E & Hk & Hv & Hl & Hp & Hor).
  exists r, c, w1, b1. split; [done|]. split; [done|]. split; [done|].
  destruct Hor as [(-> & y & ys & -> & Hy & Hc & H0)|[(-> & -> & Hn)|?]]; [right|right|by left].
  - split; [congruence|]. split; [done|]. assert (xs = y :: ys) as -> by congruence. split_and!; try done.
    destruct (skip_there w1 b1 y ys (k_wf _ _ _ _ Hk) H0) as (b2 & -> & Hk2 & Hp2 & Hv2 & Hl2); [congruence|].
    exists b2. split; [done|]. split; [by eapply keeps_trans|]. split; [lia|]. split; [done|]. congruence.
  - split; [congruence|]. split; [done|]. by assert (xs = []) as -> by congruence.
Qed.

Lemma pred_skip_loop_ok (pred : Z -> nat -> bool) xs : forall (w : W) b n fuel,
  wf_cb b -> view w b = xs -> bytes_ok xs -> (tries w < calls)%nat -> (length xs < fuel)%nat ->
  let '(r, k) := stream_skip pred n xs in
  outcome w b (pred_skip_loop calls pred w b n fuel) r (drop k xs) (foldl moved (place b) (take k xs)).
Proof.
  induction xs as [|x xs IH]; intros w b n [|fuel] Hw Hx Hb Ht Hf; cbn [length] in Hf; try lia;
    cbn [stream_skip pred_skip_loop];
    destruct (peek_cases w b _ Hw Ht Hx) as (r & c & w1 & b1 & -> & Hk & Hp & Hor); cbn [mbind option_bind];
    destruct Hor as [(Hr & -> & He)|(Hv & Hl & Hor)].
  - zfalse (0 <? r). by apply outcome_failed.
  - destruct Hor as [-> ->]. apply outcome_here; auto.
  - zfalse (0 <? r). destruct (if pred x n then _ else _) as [r0 k0]. by apply outcome_failed.
  - destruct Hor as (-> & -> & _ & b2 & E2 & Hk2 & Hp2 & Hv2 & Hl2). ztrue (0 <? 1). cbn [mbind option_bind].
    apply list.Forall_cons in Hb as [Hx0 Hb]. destruct (pred x n); [|apply outcome_here; auto].
    rewrite E2. cbn [mbind option_bind]. destruct (Z.eqb_spec x 0) as [->|Hne]; [apply outcome_here; auto|].
    ztrue (0 <? x). specialize (IH w1 b2 (S n) fuel (k_wf _ _ _ _ Hk2) Hv2 Hb).
    destruct (stream_skip pred (S n) xs) as [r k]. cbn [take drop foldl]. rewrite Hl2 in IH.
    apply (outcome_after w w1 b b2); [done|done|]. apply IH; [pose proof (k_tries _ _ _ _ Hk2); lia|lia].
Qed.

Lemma skip_until_ok (a : Z) xs : forall (w : W) b n fuel,
  wf_cb b -> view w b = xs -> bytes_ok xs -> (tries w < calls)%nat -> (length xs < fuel)%nat ->
  let '(r, k) := stream_until a n xs in
  outcome w b (skip_until_loop calls w b a n fuel) r (drop k xs) (foldl moved (place b) (take k xs)).
Proof.
  induction xs as [|x xs IH]; intros w b n [|fuel] Hw Hx Hb Ht Hf; cbn [length] in Hf; try lia;
    cbn [stream_until skip_until_loop]; unfold charbuf_peek;
    destruct (peek_cases w b _ Hw Ht Hx) as (r & c & w1 & b1 & -> & Hk & Hp & Hor); cbn [mbind option_bind];
    destruct Hor as [(Hr & -> & He)|(Hv & Hl & Hor)].
  - zfalse (0 <? r). cbn [mbind option_bind]. ztrue (r <=? 0). by apply outcome_failed.
  - destruct Hor as [-> ->]. apply outcome_here; auto.
  - zfalse (0 <? r). cbn [mbind option_bind]. ztrue (r <=? 0).
    destruct (if x =? 0 then _ else _) as [r0 k0]. by apply outcome_failed.
  - destruct Hor as (-> & -> & -> & b2 & E2 & Hk2 & Hp2 & Hv2 & Hl2). ztrue (0 <? 1). cbn [mbind option_bind].
    apply list.Forall_cons in Hb as [Hx0 Hb].
    destruct (Z.eqb_spec x 0) as [->|Hne]; [ztrue (0 <=? 0); apply outcome_here; auto|]. zfalse (x <=? 0).
    destruct (x =? u8 a); [apply outcome_here; auto|]. rewrite E2. cbn [mbind option_bind]. zfalse (x <=? 0).
    specialize (IH w1 b2 (S n) fuel (k_wf _ _ _ _ Hk2) Hv2 Hb).
    destruct (stream_until a (S n) xs) as [r k]. cbn [take drop foldl]. rewrite Hl2 in IH.
    apply (outcome_after w w1 b b2); [done|done|]. apply IH; [pose proof (k_tries _ _ _ _ Hk2); lia|lia].
Qed.

Lemma skipn_ok (n : nat) : forall (w : W) b pos xs,
  wf_cb b -> view w b = xs -> bytes_ok xs -> (tries w < calls)%nat ->
  let '(r, k) := stream_skipn pos n xs in
  outcome w b (skipn_loop calls w b pos n) r (drop k xs) (foldl moved (place b) (take k xs)).
Proof.
  induction n as [|n IH]; intros w b pos xs Hw Hx Hb Ht; cbn [stream_skipn skipn_loop].
  { apply outcome_here; [by apply keeps_refl|lia|]. by right. }
  destruct (peek_cases w b _ Hw Ht Hx) as (r & c & w1 & b1 & -> & Hk & Hp & Hor); cbn [mbind option_bind].
  destruct Hor as [(Hr & -> & He)|(Hv & Hl & Hor)].
  - zfalse (0 <? r). destruct (match xs with [] => _ | _ => _ end) as [r0 k0]. by apply outcome_failed.
  - destruct xs as [|x xs]; [destruct Hor as [-> ->]; apply outcome_here; auto|].
    destruct Hor as (-> & -> & _ & b2 & E2 & Hk2 & Hp2 & Hv2 & Hl2). ztrue (0 <? 1). cbn [mbind option_bind].
    apply list.Forall_cons in Hb as [Hx0 Hb]. rewrite E2. cbn [mbind option_bind].
    destruct (Z.eqb_spec x 0) as [->|Hne]; [apply outcome_here; auto|]. ztrue (0 <? x).
    specialize (IH w1 b2 (S pos) xs (k_wf _ _ _ _ Hk2) Hv2 Hb).
    destruct (stream_skipn (S pos) n xs) as [r k]. cbn [take drop foldl]. rewrite Hl2 in IH.
    apply (outcome_after w w1 b b2); [done|done|]. apply IH. pose proof (k_tries _ _ _ _ Hk2). lia.
Qed.

Lemma pred_skip_ok (pred : Z -> nat -> bool) (w : W) b xs :
  wf_cb b -> view w b = xs -> bytes_ok xs -> (tries w + length xs < calls)%nat ->
  let '(r, k) := stream_skip pred 0 xs in
  outcome w b (charbuf_pred_skip calls pred w b) r (drop k xs) (foldl moved (place b) (take k xs)).
Proof. intros. apply pred_skip_loop_ok; (done || lia). Qed.

(** What skipping from [x :: xs] or nothing leads to. *)
Lemma skip_cases (w : W) b xs :
  wf_cb b -> (tries w < calls)%nat -> view w b = xs ->
  exists r c w1 b1, charbuf_skipc calls w b = Some (r, c, w1, b1) /\
    charbuf_skip calls w b = Some (match c with Some x => x | None => r end, w1, b1) /\ keeps w b w1 b1 /\
    cb_p b1 <= Z.max 1 (cb_p b) /\
    (r < 0 /\ c = None /\ cb_err b1 = true \/
     match xs with
     | [] => r = 0 /\ c = None /\ view w1 b1 = [] /\ place b1 = place b
     | x :: xs => r = 1 /\ c = Some x /\ view w1 b1 = xs /\ place b1 = moved (place b) x
     end).
Proof.
  intros Hw Ht Hx. unfold charbuf_skip. destruct (skipc_ok w b Hw Ht) as (r & c & w1 & b1 & -> & Hk & Hp & Hor).
  exists r, c, w1, b1. split; [done|]. cbn [mbind option_bind].
  destruct Hor as [(-> & x & -> & Hv & Hl)|[(-> & -> & Hv & Hv1 & Hl)|(Hr & -> & He)]].
  - split; [done|]. split; [done|]. split; [lia|]. right. assert (xs = x :: view w1 b1) as -> by congruence. by split_and!.
  - split; [done|]. split; [done|]. split; [lia|]. right. assert (xs = []) as -> by congruence. by split_and!.
  - zfalse (0 <? r). split; [done|]. split; [done|]. split; [lia|]. left. by split_and!.
Qed.

Ltac there := apply outcome_here; [done|done|right; by split_and!].
Ltac gone := apply outcome_failed; [done|done|done].

Lemma peek_step_ok (o : char_op) (w : W) b xs :
  wf_cb b -> view w b = xs -> bytes_ok xs -> (tries w < calls)%nat ->
  match o with Peek | Peekc | Get | Getc => True | _ => False end ->
  let '(r, c, k) := stream_op o xs in
  outcome w b (char_step calls o w b) (r, c) (drop k xs) (foldl moved (place b) (take k xs)).
Proof.
  intros Hw Hx Hb Ht Ho. destruct (peek_cases w b xs Hw Ht Hx) as (r & c & w1 & b1 & E & Hk & Hp & Hor).
  destruct xs as [|x xs].
  - destruct o; try done; cbn [stream_op char_step]; unfold charbuf_get, charbuf_getc, charbuf_peek;
      rewrite E; cbn [mbind option_bind];
      destruct Hor as [(Hr & -> & He)|(Hv & Hl & -> & ->)]; try (zfalse (0 <? r)); cbn [mbind option_bind];
      try (zfalse (0 <? r)); try (zfalse (0 <? 0)); cbn [mbind option_bind]; try (zfalse (0 <? 0)); (gone || there).
  - apply list.Forall_cons in Hb as [Hx0 Hb].
    destruct Hor as [(Hr & -> & He)|(Hv & Hl & -> & -> & Hc & b2 & E2 & Hk2 & Hp2 & Hv2 & Hl2)].
    + destruct o; try done; cbn [stream_op char_step]; unfold charbuf_get, charbuf_getc, charbuf_peek;
        rewrite E; cbn [mbind option_bind]; zfalse (0 <? r); cbn [mbind option_bind]; try (zfalse (0 <? r)); gone.
    + destruct o; try done; cbn [stream_op char_step]; unfold charbuf_get, charbuf_getc, charbuf_peek;
        rewrite E; cbn [mbind option_bind]; ztrue (0 <? 1); rewrite ?Hc, ?E2; cbn [mbind option_bind]; try there.
      destruct (Z.eqb_spec x 0) as [->|Hne]; [zfalse (0 <? 0); there|]. ztrue (0 <? x). rewrite E2. there.
Qed.

Lemma skip_step_ok (o : char_op) (w : W) b xs :
  wf_cb b -> view w b = xs -> bytes_ok xs -> (tries w < calls)%nat ->
  match o with Skip | Skipc | Next | Nextc => True | _ => False end ->
  let '(r, c, k) := stream_op o xs in
  outcome w b (char_step calls o w b) (r, c) (drop k xs) (foldl moved (place b) (take k xs)).
Proof.
  intros Hw Hx Hb Ht Ho. destruct (skip_cases w b xs Hw Ht Hx) as (r & c & w1 & b1 & E & E' & Hk & Hp & Hor).
  destruct xs as [|x xs].
  - destruct Hor as [(Hr & -> & He)|(-> & -> & Hv & Hl)]; destruct o; try done; cbn [stream_op char_step];
      unfold charbuf_next, charbuf_nextc; rewrite ?E, ?E'; cbn [mbind option_bind]; try (zfalse (0 <? r));
      try (zfalse (0 <? 0)); (gone || there).
  - apply list.Forall_cons in Hb as [Hx0 Hb]. destruct Hor as [(Hr & -> & He)|(-> & -> & Hv & Hl)].
    { destruct o; try done; cbn [stream_op char_step]; unfold charbuf_next, charbuf_nextc; rewrite ?E, ?E';
        cbn [mbind option_bind]; try (zfalse (0 <? r)); cbn [mbind option_bind]; try gone.
      all: by destruct (x =? 0), xs; gone. }
    assert (tries w1 < calls)%nat as Ht1 by (pose proof (k_tries _ _ _ _ Hk); lia).
    destruct o; try done; cbn [stream_op char_step]; unfold charbuf_next, charbuf_nextc; rewrite ?E, ?E';
      cbn [mbind option_bind]; [there|there|..].
    all: destruct (Z.eqb_spec x 0) as [->|Hne]; [zfalse (0 <? 0); there|]; ztrue (0 <? x); unfold charbuf_peek.
    all: destruct (peek_cases w1 b1 xs (k_wf _ _ _ _ Hk) Ht1 Hv) as (r & c & w2 & b2 & E2 & Hk2 & Hp2 & Hor2);
      rewrite E2; cbn [mbind option_bind]; pose proof (keeps_trans _ _ _ _ _ _ Hk Hk2) as Hk3;
      assert (cb_p b2 <= Z.max 1 (cb_p b)) as Hp3 by lia;
      (destruct Hor2 as [(Hr & -> & He)|(Hv2 & Hl2 & Hor2)];
       [try (zfalse (0 <? r)); cbn [mbind option_bind]; by destruct xs; gone|]);
      destruct xs as [|y xs];
      [destruct Hor2 as [-> ->]; try (zfalse (0 <? 0))|destruct Hor2 as (-> & -> & Hc & _); try (ztrue (0 <? 1)); rewrite ?Hc];
      cbn [mbind option_bind];
      rewrite Hl in Hl2; there.
Qed.

Lemma char_step_ok (o : char_op) (w : W) b xs :
  wf_cb b -> view w b = xs -> bytes_ok xs -> (tries w + length xs < calls)%nat -> char_valid o ->
  let '(r, c, k) := stream_op o xs in
  outcome w b (char_step calls o w b) (r, c) (drop k xs) (foldl moved (place b) (take k xs)).
Proof.
  intros Hw Hx Hb Hf Ho. assert (tries w < calls)%nat as Ht by lia.
  assert (forall (res : option (Z * W * charbuf)) r k,
    outcome w b res r (drop k xs) (foldl moved (place b) (take k xs)) ->
    outcome w b ('(r, w, b) ← res; Some (r, @None Z, w, b)) (r, None) (drop k xs) (foldl moved (place b) (take k xs))) as Honly.
  { intros res r k (r' & w' & b' & -> & Hk & Hp & Hor). eexists _, w', b'. split; [done|]. split; [done|]. split; [done|].
    destruct Hor as [?|(-> & ? & ?)]; auto. }
  destruct o as [| | | | | | | |pred|a|n];
    try (by apply peek_step_ok); try (by apply skip_step_ok); cbn [stream_op char_step].
  - pose proof (pred_skip_loop_ok pred xs w b 0 calls Hw Hx Hb Ht ltac:(lia)) as Hs.
    destruct (stream_skip pred 0 xs) as [r k]. by apply Honly.
  - pose proof (skip_until_ok a xs w b 0 calls Hw Hx Hb Ht ltac:(lia)) as Hs.
    destruct (stream_until a 0 xs) as [r k]. by apply Honly.
  - cbn [char_valid] in Ho. unfold charbuf_skipn. replace (n =? 0)%nat with false by lia.
    pose proof (skipn_ok n w b 0 xs Hw Hx Hb Ht) as Hs.
    destruct (stream_skipn 0 n xs) as [r k]. by apply Honly.
Qed.
End lemmas.

(** ** Devices *)

#[export] Instance device_clear : ClearLaw device.
Proof. by intros []. Qed.

(** The text of a string up to a NUL in it. *)
Fixpoint until_nul (t : list Z) : list Z :=
  match t with [] => [] | x :: t => if x =? 0 then [] else x :: until_nul t end.

Lemma until_nul_len t : str_len (cstr t) = Some (length (until_nul t)).
Proof.
  unfold cstr. induction t as [|x t IH]; [done|]. cbn [app str_len until_nul].
  destruct (x =? 0); [done|]. by rewrite IH.
Qed.

Lemma until_nul_take t k : (k <= length (until_nul t))%nat ->
  take k (cstr t) = take k (until_nul t) /\ until_nul (drop k t) = drop k (until_nul t).
Proof.
  unfold cstr. revert t. induction k as [|k IH]; intros t Hk; [done|].
  destruct t as [|x t]; [cbn in Hk; lia|]. cbn [until_nul app take drop] in *. destruct (x =? 0); [cbn in Hk; lia|].
  cbn [length take drop] in *. destruct (IH t) as [-> ->]; [lia|done].
Qed.

Lemma until_nul_id t : nonul t -> until_nul t = t.
Proof. induction 1 as [|x t Hx _ IH]; [done|]. cbn. zfalse (x =? 0). by rewrite IH. Qed.

#[export] Instance string_laws : ReaderLaws string_input.
Proof.
  refine {| stream := fun w => until_nul (text_left w); tries := fun _ => 0%nat;
    read_faults := fun _ => 0 |}.
  intros [t] w' len r l. cbn [text_left op_read string_reader]. unfold charbuf_readstr. rewrite until_nul_len.
  unfold load. assert (exists c, cstr t !! 0%nat = Some c /\ (c = 0 -> until_nul t = [])) as (c & -> & Hc).
  { unfold cstr. destruct t as [|x t]; [by exists 0|]. exists x. split; [done|]. cbn. intros ->. done. }
  cbn [mbind option_bind].
  assert ((if c =? 0 then Some 0%nat else Some (length (until_nul t))) = Some (length (until_nul t))) as ->.
  { destruct (Z.eqb_spec c 0) as [->|]; [|done]. by rewrite Hc. }
  cbn [mbind option_bind]. set (n := if Z.of_nat (length (until_nul t)) >? len then _ else _). intros [= <- <- <-] Hlen.
  assert ((n <= length (until_nul t))%nat /\ Z.of_nat n <= len) as [Hn Hn'].
  { unfold n. destruct (Z.gtb_spec (Z.of_nat (length (until_nul t))) len); lia. }
  destruct (until_nul_take t n Hn) as [-> Hd]. rewrite length_take, Nat.min_l by lia. cbn [text_left].
  split; [lia|]. zfalse (Z.of_nat n <? 0). rewrite Hd, take_drop. split; [done|]. split; [lia|]. split; [done|].
  split; [|done]. intros Hnil. apply nil_length_inv. apply (f_equal length) in Hnil. rewrite length_take in Hnil. cbn in Hnil.
  unfold n in *. destruct (Z.gtb_spec (Z.of_nat (length (until_nul t))) len); lia.
Defined.

#[export] Instance string_clear : ClearLaw string_input.
Proof. done. Qed.

#[export] Instance string_quiet : Quiet string_input.
Proof.
  intros [t] w' n r l. cbn [op_read string_reader text_left]. unfold charbuf_readstr. rewrite until_nul_len. destruct (load _ _) as [c|]; [|by intros [= <- _ _]].
  cbn [mbind option_bind]. destruct (c =? 0); cbn [mbind option_bind]; intros [= <- _ _]; lia.
Qed.

(** * Properties *)

(** Operations until the device has failed, [charbuf_done] being asked after each. *)
Fixpoint char_steps {W : Type} `{!Errno W, !Reader W} (calls : nat) (os : list char_op) (w : W) (b : charbuf)
    : option (list (Z * option Z) * W * charbuf) :=
  match os with
  | [] => Some ([], w, b)
  | o :: os =>
      '(r, c, w, b) ← char_step calls o w b;
      if cb_err b then Some ([], w, b) else
      '(rs, w, b) ← char_steps calls os w b;
      Some ((r, c) :: rs, w, b)
  end.

Fixpoint stream_ops (os : list char_op) (xs : list Z) : list (Z * option Z) * nat :=
  match os with
  | [] => ([], 0%nat)
  | o :: os =>
      let '(r, c, k) := stream_op o xs in
      let '(rs, k') := stream_ops os (drop k xs) in ((r, c) :: rs, (k + k')%nat)
  end.

Lemma char_steps_ok {W : Type} `{RL : ReaderLaws W, CL : !ClearLaw W} (calls : nat) (os : list char_op) :
  forall (w : W) b xs, wf_cb b -> view w b = xs -> bytes_ok xs -> (tries w + length xs < calls)%nat -> Forall char_valid os ->
  let '(rs, k) := stream_ops os xs in
  outcome w b (char_steps calls os w b) rs (drop k xs) (foldl moved (place b) (take k xs)).
Proof.
  induction os as [|o os IH]; intros w b xs Hw Hx Hb Hf Hval; cbn [stream_ops char_steps].
  { apply outcome_here; [by apply keeps_refl|lia|]. by right. }
  apply list.Forall_cons in Hval as [Hv1 Hval].
  pose proof (char_step_ok calls o w b xs Hw Hx Hb Hf Hv1) as Ho. destruct (stream_op o xs) as [[r c] k].
  destruct Ho as ([r' c'] & w1 & b1 & -> & Hk & Hp & Hor). cbn [mbind option_bind].
  specialize (IH w1 b1 (drop k xs) (k_wf _ _ _ _ Hk)).
  destruct (stream_ops os (drop k xs)) as [rs k']. destruct (cb_err b1) eqn:He; [by apply outcome_failed|].
  destruct Hor as [?|([= -> ->] & Hv & Hl)]; [done|].
  destruct IH as (rs' & w2 & b2 & -> & Hk2 & Hp2 & Hor2); [done|by apply list.Forall_drop| | |].
  { rewrite length_drop. pose proof (k_tries _ _ _ _ Hk). lia. }
  { done. }
  cbn [mbind option_bind]. exists ((r, c) :: rs'), w2, b2. split; [done|]. split; [by eapply keeps_trans|]. split; [lia|].
  destruct Hor2 as [?|(-> & Hv2 & Hl2)]; [by left|right]. split; [done|]. rewrite <- drop_drop. split; [done|].
  by rewrite Hl2, Hl, <- foldl_app, take_take_drop.
Qed.

(** The block of [charbuf_init] for a look-ahead that the twelve bits can hold. *)
Lemma charbuf_init_ok {W : Type} `{RL : ReaderLaws W} (w : W) lookahead alloc :
  0 < lookahead <= 4088 -> (forall n, 0 < n -> exists x, alloc n = Some x /\ Z.of_nat (length x) = n) ->
  wf_cb (charbuf_init lookahead alloc) /\ view w (charbuf_init lookahead alloc) = stream w /\
  place (charbuf_init lookahead alloc) = (0, 0, 0) /\ cb_err (charbuf_init lookahead alloc) = false /\
  cb_p (charbuf_init lookahead alloc) = 0 /\ lookahead <= cb_a (charbuf_init lookahead alloc) /\
  cb_a (charbuf_init lookahead alloc) mod 8 = 0.
Proof.
  intros Hl Ha. unfold charbuf_init.
  assert (Z.land (u32 (lookahead + 7)) (-8) = 8 * ((lookahead + 7) / 8)) as Ea.
  { rewrite u32_id by (unfold is_u32; lia). change (-8) with (Z.lnot (Z.ones 3)).
    rewrite <- Z.ldiff_land, Z.ldiff_ones_r, Z.shiftl_mul_pow2, Z.shiftr_div_pow2 by lia. change (2 ^ 3) with 8. lia. }
  rewrite Ea, bits12_id by lia. destruct (Ha (8 * ((lookahead + 7) / 8))) as (x & -> & Hx); [lia|].
  split; [exists x; cbn; split; [done|]; lia|]. split_and!; try done; cbn; [lia|].
  rewrite Z.mul_comm. by apply Z_mod_mult.
Qed.

(** C10: a character buffer over a device is the stream of the characters that
    are still to come, however the device cuts its reads short or is
    interrupted: peeking, taking, skipping over characters, up to a character
    or by a number that is not 0 give the results of the stream and leave what
    it leaves, with the line, the column and the offset of what was taken.
    Nothing outside the block is touched, and every loop ends.  The look-ahead
    is from 1 to 4088 characters, and memory for the block is given.  [err] is set exactly when a read fails with another cause than
    an interruption, and the operations are followed up to there. *)
Theorem charbuf_refines_stream (W : Type) `{RL : ReaderLaws W, CL : !ClearLaw W} (calls : nat) (w : W)
    (lookahead : Z) (alloc : Z -> option (list Z)) (os : list char_op) :
  0 < lookahead <= 4088 -> (forall n, 0 < n -> exists x, alloc n = Some x /\ Z.of_nat (length x) = n) ->
  bytes (stream w) -> (tries w + length (stream w) < calls)%nat -> Forall char_valid os ->
  let '(rs, k) := stream_ops os (stream w) in
  exists rs' w' b', char_steps calls os w (charbuf_init lookahead alloc) = Some (rs', w', b') /\
    (cb_err b' = true -> read_faults w < read_faults w') /\
    (cb_err b' = false -> read_faults w' = read_faults w /\ rs' = rs /\ view w' b' = drop k (stream w) /\
      place b' = foldl moved (0, 0, 0) (take k (stream w))).
Proof.
  intros Hl Ha Hb Hf Hval. destruct (charbuf_init_ok w lookahead alloc Hl Ha) as (Hw & Hv & Hp & He & _).
  assert (bytes_ok (stream w)) as Hb' by (eapply list.Forall_impl; [exact Hb|]; unfold is_u8; lia).
  pose proof (char_steps_ok calls os w _ _ Hw Hv Hb' Hf Hval) as H. rewrite Hp in H.
  destruct (stream_ops os (stream w)) as [rs k]. destruct H as (rs' & w' & b' & E & Hk & _ & Hor).
  exists rs', w', b'. split; [done|]. split.
  - intros He'. destruct (k_err _ _ _ _ Hk He') as [?|[? _]]; [congruence|done].
  - intros He'. destruct Hor as [?|?]; [congruence|]. split; [by apply (k_faults _ _ _ _ Hk)|done].
Qed.

(** Two characters at a time, with interruptions, and an error at the end. *)
Lemma charbuf_refines_stream_witness :
  exists rs' w' b',
    char_steps 20 [Peek; Get; SkipPred (charbuf_is_ctype isspace); Get; SkipUntil 10; SkipN 1]
      (Device [0; 2; 2; 0; 0; 2] [97; 32; 10; 98; 99; 10; 100; 101] false) (charbuf_init 2 (fun n => Some (repeat 0 (Z.to_nat n)))) = Some (rs', w', b') /\
    (cb_err b' = true -> 0 < read_faults w') /\
    (cb_err b' = false -> read_faults w' = 0 /\ rs' = [(97, None); (97, None); (2, None); (98, None); (1, None); (1, None)] /\
      view w' b' = [100; 101] /\ place b' = (2, 0, 6)).
Proof.
  destruct (charbuf_refines_stream device 20 (Device [0; 2; 2; 0; 0; 2] [97; 32; 10; 98; 99; 10; 100; 101] false) 2
    (fun n => Some (repeat 0 (Z.to_nat n)))
    [Peek; Get; SkipPred (charbuf_is_ctype isspace); Get; SkipUntil 10; SkipN 1]) as (rs' & w' & b' & E & H).
  - lia.
  - intros n Hn. eexists. split; [done|]. rewrite repeat_length. lia.
  - repeat constructor; unfold is_u8; lia.
  - vm_compute. lia.
  - repeat constructor.
  - exists rs', w', b'. split; [exact E|exact H].
Defined.

(** ** Hazards *)

Definition over (s : list Z) (lookahead : Z) : string_input * charbuf :=
  (StringInput s, charbuf_init lookahead (fun n => Some (repeat 0 (Z.to_nat n)))).

(** At the end of the input [charbuf_pred_skip] gives up its count: a character
    that is there and is taken counts as none when it is the last. *)
Example last_char_uncounted :
  let '(w, b) := over (lit "[") 2 in
  (r ← charbuf_skip_ifeq 20 w b "["%C; let '(r, w, b) := r in Some (r, view w b)) = Some (0, []).
Proof. vm_compute. reflexivity. Qed.

(** No look-ahead, no block: the first read asks for nothing and looks like the
    end of the input. *)
Example no_lookahead :
  let '(w, b) := over (lit "a") 0 in (r ← charbuf_peek 20 w b; let '(r, w, b) := r in Some (r, cb_eof b)) = Some (0, true).
Proof. vm_compute. reflexivity. Qed.

(** Peeking at fewer characters than were read ahead asks for a negative number
    of them: the block fills, and when it is full the end of the input is
    noted. *)
Example peek_fewer :
  let '(w, b) := over (lit "abcdefghijkl") 2 in
  (r ← charbuf_peekn 20 w b 3; let '(_, w, b) := r in
   r ← charbuf_peekn 20 w b 1; let '(v, w, b) := r in Some (v, cb_eof b, view w b)) = Some (None, true, lit "abcdefgh").
Proof. vm_compute. reflexivity. Qed.
