(* ===== verification/Json.v ===== *)
(** JSON documents ([lib/json/]): values, the parser over a character buffer
    (Charbuf.v) and the printer over an output buffer (Buffer.v).  The members
    of an object are the dictionaries that HmapDict.v proves of hash maps that
    are only added to, a [stralloc] is the list of its bytes and requests for
    memory are granted.  A double is the numeral it was read from, whose value is
    that of [scan_double] in the binary64 numbers of the Standard Library; the
    printing of doubles is not modelled. *)
From Stdlib Require Import SpecFloat.
From S2P Require Import Prelude ByteOps StrOps Utf8 FmtNum ScanNum TextHex Memory Stralloc Heap Chain Hmap HmapDict Buffer Charbuf.
#[local] Set Warnings "-register-all".

(** * Values *)

Inductive jsontype : Type :=
  JSON_UNDEFINED | JSON_NULL | JSON_BOOL | JSON_INT | JSON_DOUBLE | JSON_STRING | JSON_ARRAY | JSON_OBJECT.

#[export] Instance jsontype_eq_dec : EqDecision jsontype.
Proof. solve_decision. Defined.

(** [JObject None] has a null pointer for its members; [JUnset t] has the type
    [t] and a union that was not written. *)
Inductive json : Type :=
  | JUndefined
  | JNull
  | JBool (boolv : bool)
  | JInt (intv : Z)
  | JDouble (numeral : list Z)
  | JString (stringv : list Z)
  | JArray (listv : list json)
  | JObject (dictv : option (list (list Z * json)))
  | JUnset (t : jsontype).

Abbreviation members := (list (list Z * json)).

Definition json_type (v : json) : jsontype :=
  match v with
  | JUndefined => JSON_UNDEFINED
  | JNull => JSON_NULL
  | JBool _ => JSON_BOOL
  | JInt _ => JSON_INT
  | JDouble _ => JSON_DOUBLE
  | JString _ => JSON_STRING
  | JArray _ => JSON_ARRAY
  | JObject _ => JSON_OBJECT
  | JUnset t => t
  end.

(** [json_null] builds an object, not a null. *)
Definition json_null : json := JObject None.
Definition json_object : json := JObject (Some []).
Definition json_isnull (v : json) : bool := bool_decide (json_type v = JSON_NULL).

(** [MAP_INSERT]: an empty key is refused, a new one must fit. *)
Definition map_insert (d : members) (k : list Z) (v : json) : option members :=
  if (length k =? 0)%nat then Some d else
  if decide (k ∈ d.*1) then Some (dict_put k v d) else
  if key_fits k then Some (dict_put k v d) else None.

(** [MAP_GET] *)
Definition map_get (d : members) (k : list Z) : option json :=
  if (length k =? 0)%nat then None else dict_get k d.

(** [MAP_SIZE] counts all members but the last. *)
Definition map_size (d : members) : Z := Z.of_nat (length d - 1).

(** ** Access *)

Definition json_array_items (v : json) : list json := match v with JArray l => l | _ => [] end.

(** The list from the item on; without a first item there is no next. *)
Fixpoint array_at_loop (l : list json) (pos : nat) : option (list json) :=
  match pos with
  | O => Some l
  | S pos => match l with [] => None | _ :: l => match l with [] => Some [] | _ => array_at_loop l pos end end
  end.
Definition json_array_at (v : json) (pos : Z) : option (option json) :=
  head <$> array_at_loop (json_array_items v) (Z.to_nat pos).

Definition json_append (l : list json) (v : json) : list json := l ++ [v].
Definition json_array_push (v x : json) : bool * json :=
  match v with JArray l => (true, JArray (json_append l x)) | _ => (false, v) end.

Definition json_length (v : json) : option Z :=
  match v with
  | JString s => Some (Z.of_nat (length s))
  | JArray l => Some (Z.of_nat (length l))
  | JObject (Some d) => Some (map_size d)
  | JObject None => Some 0
  | JUnset JSON_STRING | JUnset JSON_ARRAY | JUnset JSON_OBJECT => None
  | _ => Some 0
  end.

Definition json_property_get_str (v : json) (key : list Z) : option json :=
  match v with
  | JObject (Some d) => n ← str_len key; Some (default JUndefined (map_get d (take n key)))
  | JObject None | JUnset JSON_OBJECT => None
  | _ => Some JUndefined
  end.

Definition json_property_get_int (v : json) (i : Z) : option json :=
  match v with
  | JArray l => Some (if 0 <=? i then default JUndefined (l !! Z.to_nat i) else JUndefined)
  | JUnset JSON_ARRAY => None
  | _ => Some JUndefined
  end.

(** The branch for arrays reads an index that is not set. *)
Definition json_property_set_str (v : json) (key : list Z) (x : json) : option (bool * json) :=
  match v with
  | JObject d =>
      n ← str_len key;
      d ← map_insert (default [] d) (take n key) x;
      Some (bool_decide (is_Some (map_get d (take n key))), JObject (Some d))
  | JArray _ | JUnset JSON_ARRAY | JUnset JSON_OBJECT => None
  | _ => Some (false, v)
  end.

Definition json_property_set_int (v : json) (index : Z) (x : json) : option (bool * json) :=
  '(text, _) ← fmt_longlong true index;
  json_property_set_str v (cstr text) x.

(** [json_recurse]: [fn] of every value with its depth, a value before those in it. *)
Fixpoint json_recurse_val {V : Type} (fn : json -> V -> nat -> V) (v : json) (arg : V) (depth : nat) : V :=
  let arg := fn v arg depth in
  match v with
  | JArray l => (fix items (l : list json) (arg : V) : V :=
      match l with [] => arg | x :: l => items l (json_recurse_val fn x arg (S depth)) end) l arg
  | JObject (Some d) => (fix pairs (d : members) (arg : V) : V :=
      match d with [] => arg | (_, x) :: d => pairs d (json_recurse_val fn x arg (S depth)) end) d arg
  | _ => arg
  end.
Definition json_recurse {V : Type} (fn : json -> V -> nat -> V) (v : json) (arg : V) : V := json_recurse_val fn v arg 0.

Definition depth_fn (v : json) (arg : Z) (depth : nat) : Z := if arg <? Z.of_nat depth then Z.of_nat depth else arg.
Definition get_depth (v : json) : Z := json_recurse depth_fn v (-1).

(** * Parsing *)

Definition identifier_chars : list Z := lit "ABCDEFGHIJKLMNOPQRSTUVWXYZabcdefghijklmnopqrstuvwxyz0123456789$_".
Definition is_identifier_char (c : Z) : bool := bool_decide (c ∈ identifier_chars).

Definition predicate_string (str : list Z) (c : Z) (pos : nat) : bool :=
  match str !! pos with Some x => (x =? c) | None => false end.
Definition predicate_identifier (str : list Z) (c : Z) (pos : nat) : bool :=
  if (pos <? length str)%nat then predicate_string str c pos
  else if (pos =? length str)%nat then negb (is_identifier_char c) else false.

(** ** Doubles *)

(** The arithmetic of a [double]: 53 digits, exponents below 1024, rounded to
    the nearest after every operation. *)
Definition d_int (n : Z) : spec_float := binary_normalize 53 1024 n 0 false.
Definition d_add : spec_float -> spec_float -> spec_float := SFadd 53 1024.
Definition d_mul : spec_float -> spec_float -> spec_float := SFmul 53 1024.
Definition d_div : spec_float -> spec_float -> spec_float := SFdiv 53 1024.

(** The 64 bits of a number as they lie in memory. *)
Definition d_bits (d : spec_float) : option Z :=
  let sign (s : bool) (n : Z) := (if s then 2 ^ 63 else 0) + n in
  match d with
  | S754_zero s => Some (sign s 0)
  | S754_infinity s => Some (sign s (2047 * 2 ^ 52))
  | S754_nan => None
  | S754_finite s m e =>
      Some (sign s (if Z.pos m <? 2 ^ 52 then Z.pos m else (e + 1075) * 2 ^ 52 + (Z.pos m - 2 ^ 52)))
  end.

(** The digits before the point, those behind it and those of the exponent: the
    number and the text behind them. *)
Fixpoint int_digits (s : list Z) (d : spec_float) : option (spec_float * list Z) :=
  match s with
  | [] => None
  | c :: t => if isdigit c then int_digits t (d_add (d_mul d (d_int 10)) (d_int (c - 48))) else Some (d, s)
  end.
Fixpoint frac_digits (s : list Z) (d factor : spec_float) : option (spec_float * list Z) :=
  match s with
  | [] => None
  | c :: t =>
      if isdigit c then frac_digits t (d_add d (d_mul factor (d_int (c - 48)))) (d_div factor (d_int 10)) else Some (d, s)
  end.
Fixpoint exp_digits (s : list Z) (exp : Z) : option (Z * list Z) :=
  match s with
  | [] => None
  | c :: t => if isdigit c then e ← chk32 (exp * 10); e ← chk32 (e + (c - 48)); exp_digits t e else Some (exp, s)
  end.

(** How much of the terminated [s] is taken, and the number.  The sign of an
    exponent is looked for in the letter [e]: there is none. *)
Definition scan_double (s : list Z) : option (nat * spec_float) :=
  c ← load s 0;
  let neg := c =? "-"%C in
  '(d, t) ← int_digits (if neg || (c =? "+"%C) then drop 1 s else s) (d_int 0);
  c ← load t 0;
  '(d, t) ← (if c =? "."%C then frac_digits (drop 1 t) d (d_div (d_int 1) (d_int 10)) else Some (d, t));
  c ← load t 0;
  '(d, t) ← (if Z.lor c 32 =? "e"%C then
      c1 ← load t 1;
      if s8 c1 <? 48 then Some (d_int 0, s) else
      '(exp, t) ← exp_digits (drop 1 t) 0;
      Some (Z.iter exp (fun d => d_mul d (d_int 10)) d, t)
    else Some (d, t));
  Some ((length s - length t)%nat, if neg then SFopp d else d).

(** ** The parser *)

Section parser.
Context {W : Type} `{!Errno W, !Reader W} (calls : nat).

Definition json_parse_null (j : json) (w : W) (b : charbuf) : option (Z * json * W * charbuf) :=
  '(n, w, b) ← charbuf_pred_lookahead calls (predicate_identifier (lit "null")) w b;
  if 4 <=? n then '(_, w, b) ← charbuf_skipn calls w b 4; Some (1, JNull, w, b) else Some (0, j, w, b).

(** [for(n = ...; *n; ++n)] *)
Fixpoint skip_word (n : list Z) (w : W) (b : charbuf) : option (bool * W * charbuf) :=
  match n with
  | [] => Some (true, w, b)
  | c :: n =>
      '(r, w, b) ← charbuf_skip_ifeq calls w b c;
      if r =? 0 then Some (false, w, b) else skip_word n w b
  end.

Definition json_parse_boolean (val : json) (w : W) (b : charbuf) : option (Z * json * W * charbuf) :=
  '(ret, w, b) ← charbuf_skip_ifset calls w b (lit "tf") 2;
  if 0 <? ret then
    '(c, w, b) ← charbuf_peek calls w b;
    let v := c =? "r"%C in
    '(ok, w, b) ← skip_word (if v then lit "rue" else lit "alse") w b;
    if (ok : bool) then Some (1, JBool v, w, b) else Some (0, val, w, b)
  else Some (ret, val, w, b).

Definition is_number_char (c : Z) : bool := isdigit c || (c =? "."%C) || (c =? "E"%C) || (c =? "e"%C).

(** The characters of a number; [dbl] says whether its type is a double by now,
    and [Some] of the answer is the result to return at the end of the input. *)
Fixpoint number_loop (num : list Z) (c : Z) (dbl : bool) (w : W) (b : charbuf) (fuel : nat)
    : option (option Z * list Z * bool * W * charbuf) :=
  match fuel with
  | O => None
  | S fuel =>
      let num := num ++ [c] in
      '(ret, c', w, b) ← charbuf_nextc calls w b;
      if ret <=? 0 then Some (Some ret, num, dbl, w, b) else
      c ← c';
      if negb (is_number_char c) && negb (dbl && (c =? "-"%C)) then Some (None, num, dbl, w, b)
      else number_loop num c (dbl || (c =? "."%C) || (c =? "E"%C) || (c =? "e"%C)) w b fuel
  end.

Definition json_parse_number (val : json) (w : W) (b : charbuf) : option (Z * json * W * charbuf) :=
  '(ret, w, b) ← charbuf_peek calls w b;
  if ret <=? 0 then Some (ret, val, w, b) else
  let c := ret in
  if isdigit c || (c =? "-"%C) || (c =? "."%C) || (c =? "+"%C) then
    '(stop, num, dbl, w, b) ← number_loop [] c false w b calls;
    let unset := JUnset (if dbl : bool then JSON_DOUBLE else JSON_INT) in
    match stop with
    | Some ret => Some (ret, unset, w, b)
    | None =>
        if dbl then
          '(n, _) ← scan_double (cstr num);
          Some (if (0 <? n)%nat then (1, JDouble num, w, b) else (0, unset, w, b))
        else
          '(n, i) ← scan_longlong (cstr num) 0;
          Some (if (0 <? n)%nat then (1, JInt i, w, b) else (0, unset, w, b))
    end
  else Some (0, val, w, b).

(** The characters up to the closing quote, or up to a colon; a backslash is
    dropped and the character behind it kept. *)
Fixpoint string_loop (quoted : bool) (sa : list Z) (w : W) (b : charbuf) (fuel : nat)
    : option (Z * list Z * W * charbuf) :=
  match fuel with
  | O => None
  | S fuel =>
      '(ret, ch, w, b) ← charbuf_peekc calls w b;
      if ret <=? 0 then Some (ret, sa, w, b) else
      ch ← ch;
      if ch =? "\"%C then
        '(ret, ch, w, b) ← charbuf_nextc calls w b;
        if ret <=? 0 then Some (ret, sa, w, b) else
        ch ← ch;
        '(_, w, b) ← charbuf_skip calls w b;
        string_loop quoted (sa ++ [ch]) w b fuel
      else if quoted && (ch =? 34) then
        '(_, w, b) ← charbuf_skip calls w b; Some (1, sa, w, b)
      else if negb quoted && (ch =? ":"%C) then Some (c_bool (0 <? length sa)%nat, sa, w, b)
      else
        '(_, w, b) ← charbuf_skip calls w b;
        string_loop quoted (sa ++ [ch]) w b fuel
  end.

(** [stralloc_catxlong0] *)
Definition xlong0 (n : Z) (pad : nat) : list Z :=
  let t := fst (fmt_xlong true n) in replicate (pad - length t) 48 ++ t.

(** A character of several bytes is written as an escape.  One that cannot be
    decoded leaves [n], which is used as the character, without a value. *)
Fixpoint escape_loop (s : list Z) (skip : nat) : option (list Z) :=
  match s with
  | [] => Some []
  | _ :: t =>
      match skip with
      | S skip => escape_loop t skip
      | O =>
          '(r, n) ← scan_utf8 s (length s);
          n ← n;
          if (1 <? r)%nat then
            rest ← escape_loop t (r - 1);
            Some (lit "\u" ++ xlong0 n (if n >? 16777215 then 8 else if n >? 65535 then 6 else 4) ++ rest)
          else rest ← escape_loop t 0; Some (u8 n :: rest)
      end
  end.

Definition json_parse_stralloc (w : W) (b : charbuf) (out : list Z) (quoted : bool)
    : option (Z * list Z * W * charbuf) :=
  '(ret, sa, w, b) ← string_loop quoted [] w b calls;
  text ← (if quoted || (0 <? length sa)%nat then escape_loop sa 0 else Some []);
  Some (ret, out ++ text, w, b).

Definition json_parse_string (val : json) (w : W) (b : charbuf) : option (Z * json * W * charbuf) :=
  '(r, w, b) ← charbuf_skip_ifeq calls w b 34;
  if r =? 0 then Some (0, val, w, b) else
  '(_, s, w, b) ← json_parse_stralloc w b [] true;
  Some (1, JString s, w, b).

(** The key of a member: a string, or a number, of which [key.intv] is formatted
    without its sign; else nothing.  Of a double these are the bits of the other
    member of the union. *)
Definition parse_key (w : W) (b : charbuf) : option (list Z * W * charbuf) :=
  '(r, key, w, b) ← json_parse_string JUndefined w b;
  if 0 <? r then match key with JString s => Some (s, w, b) | _ => None end else
  '(r, key, w, b) ← json_parse_number key w b;
  if 0 <? r then
    intv ← match key with
           | JInt i => Some i
           | JDouble num => '(_, d) ← scan_double (cstr num); d_bits d
           | _ => None
           end;
    Some (fst (fmt_ulong true (u64 intv)), w, b)
  else Some ([], w, b).

(** The separator behind an item: whether it is a comma.  [close] ends the list. *)
Definition parse_separator (close : Z) (w : W) (b : charbuf) : option (bool * W * charbuf) :=
  '(_, w, b) ← charbuf_skip_ws calls w b;
  '(r, c, w, b) ← charbuf_peekc calls w b;
  if 0 <? r then
    c ← c;
    if (c =? ","%C) || (c =? close) then
      '(_, w, b) ← charbuf_skip calls w b;
      '(_, w, b) ← charbuf_skip_ws calls w b;
      Some (c =? ","%C, w, b)
    else Some (false, w, b)
  else Some (false, w, b).

(** An alternative of the parser: it is tried when [r] is not positive. *)
Definition or_else (res : option (Z * json * W * charbuf))
    (f : json -> W -> charbuf -> option (Z * json * W * charbuf)) : option (Z * json * W * charbuf) :=
  '(r, j, w, b) ← res;
  if r <? 1 then f j w b else Some (r, j, w, b).

(** The fuel bounds calls and rounds together. *)
Fixpoint json_parse (j : json) (w : W) (b : charbuf) (fuel : nat) : option (Z * json * W * charbuf) :=
  match fuel with
  | O => None
  | S fuel =>
      '(_, w, b) ← charbuf_pred_skip calls (charbuf_is_ctype isspace) w b;
      or_else (or_else (or_else (or_else (or_else
        (json_parse_object j w b fuel)
        (fun j w b => json_parse_array j w b fuel))
        json_parse_null)
        json_parse_boolean)
        json_parse_number)
        json_parse_string
  end
with json_parse_object (val : json) (w : W) (b : charbuf) (fuel : nat) : option (Z * json * W * charbuf) :=
  match fuel with
  | O => None
  | S fuel =>
      '(r, w, b) ← charbuf_skip_ifeq calls w b "{"%C;
      if r =? 0 then Some (0, val, w, b) else
      '(_, w, b) ← charbuf_skip_ws calls w b;
      '(d, w, b) ← object_loop [] w b fuel;
      Some (1, JObject (Some d), w, b)
  end
with object_loop (d : members) (w : W) (b : charbuf) (fuel : nat) : option (members * W * charbuf) :=
  match fuel with
  | O => None
  | S fuel =>
      '(r, c, w, b) ← charbuf_peekc calls w b;
      if r <=? 0 then Some (d, w, b) else
      c ← c;
      if c =? "}"%C then '(_, _, w, b) ← charbuf_nextc calls w b; Some (d, w, b) else
      '(str, w, b) ← parse_key w b;
      '(_, w, b) ← charbuf_skip_ws calls w b;
      '(r, w, b) ← charbuf_skip_ifeq calls w b ":"%C;
      if r =? 0 then Some (d, w, b) else
      '(_, w, b) ← charbuf_skip_ws calls w b;
      '(r, member, w, b) ← json_parse JUndefined w b fuel;
      if 0 <? r then
        d ← map_insert d str member;
        '(comma, w, b) ← parse_separator "}"%C w b;
        if (comma : bool) then object_loop d w b fuel else Some (d, w, b)
      else Some (d, w, b)
  end
with json_parse_array (val : json) (w : W) (b : charbuf) (fuel : nat) : option (Z * json * W * charbuf) :=
  match fuel with
  | O => None
  | S fuel =>
      '(r, w, b) ← charbuf_skip_ifeq calls w b "["%C;
      if r =? 0 then Some (0, val, w, b) else
      '(_, w, b) ← charbuf_skip_ws calls w b;
      '(l, w, b) ← array_loop [] w b fuel;
      Some (1, JArray l, w, b)
  end
with array_loop (l : list json) (w : W) (b : charbuf) (fuel : nat) : option (list json * W * charbuf) :=
  match fuel with
  | O => None
  | S fuel =>
      '(r, c, w, b) ← charbuf_peekc calls w b;
      if r <=? 0 then Some (l, w, b) else
      c ← c;
      if c =? "]"%C then Some (l, w, b) else
      '(_, item, w, b) ← json_parse JUndefined w b fuel;
      '(comma, w, b) ← parse_separator "]"%C w b;
      if (comma : bool) then array_loop (json_append l item) w b fuel else Some (json_append l item, w, b)
  end.

(** The document, whatever the parser answers. *)
Definition json_read_tree (w : W) (b : charbuf) (fuel : nat) : option (json * W * charbuf) :=
  '(_, w, b) ← charbuf_pred_skip calls (charbuf_is_ctype isspace) w b;
  '(_, doc, w, b) ← json_parse JUndefined w b fuel;
  Some (doc, w, b).
End parser.

(** * Printing *)

(** The strings a printer chooses, terminated; [quote] are two characters, 0 for
    none. *)
Record jsonfmt : Type := Jsonfmt {
  f_indent : list Z;
  f_newline : list Z;
  f_spacing : list Z;
  f_separat : list Z;
  f_quote0 : Z;
  f_quote1 : Z;
  f_depth : Z;
  f_index : Z;
  f_compliant : bool
}.

(** [json_print_fn]: the value (not always given), the depth, the index and the
    quote. *)
Definition json_print_fn : Type := option json -> Z -> Z -> Z -> jsonfmt.

Definition json_compact_printer : json_print_fn := fun _ depth index quote =>
  Jsonfmt (lit "") (lit " ") (lit " ") (lit ", ") quote quote depth index true.

Definition json_default_printer : json_print_fn := fun v depth index quote =>
  let pretty := match v with Some v => 1 <? get_depth v | None => false end in
  Jsonfmt (if pretty then lit " " else lit "") (if pretty then [10] else lit "")
    (if pretty then lit " " else lit "") (if pretty then lit ", " else lit ",") quote quote depth index true.

(** The printers of [jsontest.c] and [jsonpp.c]; the latter with its options. *)
Definition jsontest_printer : json_print_fn := fun _ depth index _ =>
  Jsonfmt (lit "  ") [10] (lit " ") (lit "," ++ [10]) 34 0 (depth - c_bool (index =? -2)) index true.

Record jsonpp_options : Type := JsonppOptions {
  one_line : bool;
  pp_compact : bool;
  depth_arg : Z;
  no_compliant : bool;
  indent_str : list Z;
  pp_spacing : option (list Z);
  pp_separator : option (list Z);
  pp_quote0 : Z;
  pp_quote1 : Z
}.

Section jsonpp.
Context (o : jsonpp_options).

Definition jsonpp_fmt (newline : list Z -> bool -> list Z) (indent : bool -> list Z) (depth : Z -> Z -> Z) : json_print_fn :=
  fun _ d index _ =>
    let multi_line := negb (one_line o) && (d <? depth_arg o) in
    let spacing := default (if pp_compact o then lit "" else lit " ") (pp_spacing o) in
    let separat := default
      (if multi_line then lit "," ++ [10] else if (0 <? length spacing)%nat then lit ", " else lit ",") (pp_separator o) in
    Jsonfmt (if d >? depth_arg o then lit "" else indent multi_line) (newline spacing multi_line) spacing separat
      (pp_quote0 o) (pp_quote1 o) (depth d index) index (negb (no_compliant o)).

Definition jsonpp_compact_printer : json_print_fn :=
  jsonpp_fmt (fun _ multi_line => if multi_line then [10] else lit "")
    (fun multi_line => if multi_line then indent_str o else lit "") (fun d _ => d).
Definition jsonpp_default_printer : json_print_fn :=
  jsonpp_fmt (fun spacing multi_line => if multi_line then [10] else spacing) (fun _ => indent_str o)
    (fun d index => d - c_bool (index =? -2)).
End jsonpp.

(** ** Escapes *)

Definition fmt_hex4 (w : Z) : list Z :=
  map (fun k => fmt_tohex (Z.land (Z.shiftr w k) 15)) [12; 8; 4; 0].

(** The bytes stored at [dest]; their number is the result. *)
Definition fmt_escapecharjson (c quote : Z) : list Z :=
  let ch := u32 c in
  let quote := if negb (quote =? 34) && negb (quote =? 39) then 34 else quote in
  if negb (ch =? u32 quote) && ((ch =? 39) || (ch =? 34)) then [ch] else
  if ch =? 8 then lit "\b" else
  if ch =? 10 then lit "\n" else
  if ch =? 13 then lit "\r" else
  if (ch =? 34) || (ch =? "\"%C) || (ch =? "/"%C) then ["\"%C; ch] else
  if ch >? 65535 then
    if ch >? 1114111 then [] else
    lit "\u" ++ fmt_hex4 (Z.lor 55296 (Z.land (Z.shiftr (ch - 65536) 10) 1023)) ++
    lit "\u" ++ fmt_hex4 (u16 (Z.lor (Z.land ch 1023) 56320))
  else lit "\u" ++ fmt_hex4 ch.

Definition json_is_identifier_char (c : Z) : bool :=
  isalpha c || isdigit c || (c =? "$"%C) || (c =? "_"%C) || (c =? "@"%C).

Definition byte_fullfils_predicate (x : list Z) (pred : Z -> bool) : bool :=
  forallb pred x && (0 <? length x)%nat.

(** ** The printer *)

Section printer.
Context {W : Type} `{!Errno W, !Writer W} (calls : nat).

(** The results of the writes are not looked at. *)
Definition put (res : option (Z * W * buffer)) : option (W * buffer) := '(_, w, b) ← res; Some (w, b).

Definition json_print_separator (s : list Z) (fmt : jsonfmt) (w : W) (b : buffer) : option (W * buffer) :=
  '(w, b) ← put (buffer_puts calls w b (cstr s));
  if bool_decide (10 ∈ s) then put (buffer_putns calls w b (cstr (f_indent fmt)) (f_depth fmt)) else Some (w, b).

(** The first character of an empty key is its terminator. *)
Definition json_print_key (key : list Z) (fmt : jsonfmt) (w : W) (b : buffer) : option (W * buffer) :=
  let identifier := negb (isdigit (default 0 (head key))) && byte_fullfils_predicate key json_is_identifier_char in
  let quote := if identifier then f_quote1 fmt else f_quote0 fmt in
  let quote := if f_compliant fmt then 34 else quote in
  '(w, b) ← (if negb (quote =? 0) then put (buffer_putc calls w b quote) else Some (w, b));
  '(w, b) ← put (buffer_put calls w b key);
  if negb (quote =? 0) then put (buffer_putc calls w b quote) else Some (w, b).

(** A backslash in front of a [u] is not escaped. *)
Fixpoint print_chars (quote : Z) (x : list Z) (w : W) (b : buffer) : option (W * buffer) :=
  match x with
  | [] => Some (w, b)
  | c :: x =>
      if c =? 0 then None else
      '(w, b) ← put (if (c =? quote) || (c =? "\"%C) && negb (bool_decide (head x = Some "u"%C))
                     then buffer_put calls w b (fmt_escapecharjson c quote)
                     else buffer_putc calls w b c);
      print_chars quote x w b
  end.

Definition json_print_str (x : list Z) (fmt : jsonfmt) (w : W) (b : buffer) : option (W * buffer) :=
  let quote := f_quote0 fmt in
  '(w, b) ← (if negb (quote =? 0) then put (buffer_putc calls w b quote) else Some (w, b));
  '(w, b) ← print_chars quote x w b;
  if negb (quote =? 0) then put (buffer_putc calls w b quote) else Some (w, b).

(** [print] prints a value one level below the object. *)
Definition print_pairs (print : json -> W -> buffer -> option (W * buffer)) (p : json_print_fn) (depth : Z) :=
  fix pairs (d : members) (printer : jsonfmt) (index : Z) (w : W) (b : buffer) : option (W * buffer) :=
    match d with
    | [] => Some (w, b)
    | (key, value) :: d =>
        '(w, b) ← json_print_separator (if index =? 0 then f_newline printer else f_separat printer) printer w b;
        let index := index + 1 in
        let printer := p None (depth + 1) index 0 in
        '(w, b) ← json_print_key key printer w b;
        '(w, b) ← put (buffer_puts calls w b (cstr (lit ":")));
        '(w, b) ← json_print_separator (f_spacing printer) printer w b;
        '(w, b) ← print value w b;
        pairs d printer index w b
    end.

Definition json_print_object (print : json -> W -> buffer -> option (W * buffer)) (p : json_print_fn)
    (d : option members) (depth : Z) (w : W) (b : buffer) : option (W * buffer) :=
  let val := JObject d in
  match d with
  | None => put (buffer_puts calls w b (cstr (lit "null")))
  | Some d =>
      '(w, b) ← put (buffer_puts calls w b (cstr (lit "{")));
      '(w, b) ← print_pairs print p depth d (p (Some val) (depth + 1) 0 0) 0 w b;
      let printer := p (Some val) (depth + 1) (-2) 0 in
      '(w, b) ← json_print_separator (f_newline printer) printer w b;
      put (buffer_puts calls w b (cstr (lit "}")))
  end.

Definition print_items (print : json -> W -> buffer -> option (W * buffer)) (p : json_print_fn) (val : json) (depth : Z) :=
  fix items (l : list json) (index : Z) (w : W) (b : buffer) : option (W * buffer) :=
    match l with
    | [] => Some (w, b)
    | x :: l =>
        let printer := p (Some val) (depth + 1) index 0 in
        '(w, b) ← (if 0 <? index then json_print_separator (f_separat printer) printer w b else Some (w, b));
        '(w, b) ← print x w b;
        items l (index + 1) w b
    end.

Definition json_print_array (print : json -> W -> buffer -> option (W * buffer)) (p : json_print_fn)
    (l : list json) (depth : Z) (w : W) (b : buffer) : option (W * buffer) :=
  let val := JArray l in
  '(w, b) ← put (buffer_puts calls w b (cstr (lit "[")));
  match l with
  | [] => put (buffer_puts calls w b (cstr (lit "]")))
  | _ =>
      let printer := p (Some val) (depth + 1) 0 0 in
      '(w, b) ← json_print_separator (f_newline printer) printer w b;
      '(w, b) ← print_items print p val depth l 0 w b;
      let printer := p (Some val) (depth + 1) (-2) 0 in
      '(w, b) ← json_print_separator (f_newline printer) printer w b;
      put (buffer_puts calls w b (cstr (lit "]")))
  end.

Fixpoint json_print_val (p : json_print_fn) (v : json) (depth : Z) (w : W) (b : buffer) : option (W * buffer) :=
  match v with
  | JUndefined => Some (w, b)
  | JNull => put (buffer_puts calls w b (cstr (lit "null")))
  | JString s => json_print_str s (p (Some v) depth 0 0) w b
  | JDouble _ => None
  | JBool x => put (buffer_puts calls w b (cstr (if x then lit "true" else lit "false")))
  | JInt i => put (buffer_putlonglong calls w b i)
  | JObject d => json_print_object (fun x => json_print_val p x (depth + 1)) p d depth w b
  | JArray l => json_print_array (fun x => json_print_val p x (depth + 1)) p l depth w b
  | JUnset JSON_UNDEFINED => Some (w, b)
  | JUnset JSON_NULL => put (buffer_puts calls w b (cstr (lit "null")))
  | JUnset _ => None
  end.

Definition json_print (v : json) (w : W) (b : buffer) (p : option json_print_fn) : option (W * buffer) :=
  let p := default json_default_printer p in
  let printer := p (Some v) 0 (-1) 34 in
  '(w, b) ← json_print_val p v 0 w b;
  '(w, b) ← put (buffer_puts calls w b (cstr (f_newline printer)));
  put (buffer_flush calls w b).
End printer.

(** * Examples *)

(** A document read from a string, and the rest of it. *)
Definition read (s : list Z) : option (Z * json * list Z) :=
  '(r, v, w, b) ← json_parse 100 JUndefined (StringInput s) (charbuf_init 2 (fun n => Some (repeat 0 (Z.to_nat n)))) 100;
  Some (r, v, view w b).

(** A value printed, a write of the device taking all. *)
Definition print (p : json_print_fn) (v : json) : option (list Z) :=
  '(d, _) ← json_print 200 v (Device [] [] false) (buffer_init (repeat 0 64) 64) (Some p); Some (content d).

(** Single quotes stand for double ones. *)
Definition dq (s : list Z) : list Z := map (fun c => if c =? 39 then 34 else c) s.

Example read_document :
  read (dq (lit "{ 'a' : [1, -2, true, null], 5: 'x\'y' } ")) =
  Some (1, JObject (Some [(lit "a", JArray [JInt 1; JInt (-2); JBool true; JNull]); (lit "5", JString (dq (lit "x'y")))]), []).
Proof. vm_compute. reflexivity. Qed.

Example print_document :
  print jsontest_printer (JObject (Some [(lit "a", JArray [JInt 1; JBool false]); (lit "b", JString (dq (lit "x'y")))])) =
  Some (dq (lit "{" ++ [10] ++ lit "  'a': [" ++ [10] ++ lit "    1," ++ [10] ++ lit "    false" ++ [10] ++ lit "  ],"
    ++ [10] ++ lit "  'b': 'x\'y'" ++ [10] ++ lit "}" ++ [10])).
Proof. vm_compute. reflexivity. Qed.

(** ** Hazards *)

(** The bracket that closes an empty array is not taken: it ends the array
    around it as well. *)
Example json_empty_array : read (lit "[[],1] ") = Some (1, JArray [JArray []], lit ",1] ").
Proof. vm_compute. reflexivity. Qed.

(** A number or a word at the very end of the input is not read. *)
Example json_number_at_end : read (lit "12") = Some (0, JUnset JSON_INT, []) /\ read (lit "true") = Some (0, JUndefined, []).
Proof. vm_compute. done. Qed.

(** Four letters are enough for a null. *)
Example json_null_prefix : read (lit "nullable ") = Some (1, JNull, lit "able ").
Proof. vm_compute. reflexivity. Qed.

(** Escapes for control characters lose their backslash. *)
Example json_control_escape : read (dq (lit "'a\nb' ")) = Some (1, JString (lit "anb"), lit " ").
Proof. vm_compute. reflexivity. Qed.

(** A character that is not ASCII becomes an escape, which is printed as it is
    and then read without its backslash. *)
Example json_not_ascii :
  read (34 :: [195; 169] ++ 34 :: lit " ") = Some (1, JString (lit "\u00e9"), lit " ") /\
  print jsontest_printer (JString (lit "\u00e9")) = Some (dq (lit "'\u00e9'") ++ [10]) /\
  read (dq (lit "'\u00e9' ")) = Some (1, JString (lit "u00e9"), lit " ").
Proof. vm_compute. done. Qed.

(** A byte that is not UTF-8 is replaced by a variable without a value. *)
Example json_not_utf8 : read (34 :: 255 :: 34 :: lit " ") = None.
Proof. vm_compute. reflexivity. Qed.

(** Members with an empty key are dropped. *)
Example json_empty_key : read (dq (lit "{'':1,'b':2} ")) = Some (1, JObject (Some [(lit "b", JInt 2)]), []).
Proof. vm_compute. reflexivity. Qed.

(** A key that is a double is read as the bits of the number. *)
Example json_double_key : read (dq (lit "{1.5:2,0.1:3,1e3:4} ")) =
  Some (1, JObject (Some [(lit "4609434218613702656", JInt 2); (lit "4591870180066957722", JInt 3);
    (lit "4652007308841189376", JInt 4)]), []).
Proof. vm_compute. reflexivity. Qed.

(** The null made by [json_null] is no null, though it prints as one. *)
Example json_null_object : json_isnull json_null = false /\ print jsontest_printer json_null = Some (lit "null" ++ [10]).
Proof. vm_compute. done. Qed.

(** The printers of the library print strings without quotes. *)
Example json_default_quotes :
  print json_default_printer (JArray [JString (lit "a")]) = Some (lit "[a]") /\
  print json_compact_printer (JArray [JString (lit "a")]) = Some (lit "[ a ] ").
Proof. vm_compute. done. Qed.

(** Keys are not escaped. *)
Example json_key_quote :
  print json_compact_printer (JObject (Some [(dq (lit "a'b"), JInt 1)])) = Some (dq (lit "{ 'a'b': 1 } ")).
Proof. vm_compute. reflexivity. Qed.

(** The smallest integer overflows when it is printed. *)
Example json_int_min : print jsontest_printer (JInt (- 2 ^ 63)) = None.
Proof. vm_compute. reflexivity. Qed.
