(* ===== verification/JsonParse.v ===== *)
(** What the parser of [lib/json/] accepts: a grammar of documents, and that the
    parser reads every document of it.  The device does not fail; its reads may
    be cut short as it likes. *)
From S2P Require Import Prelude ByteOps StrOps Digits Utf8 FmtNum ScanNum Num TextHex Memory Stralloc Heap Chain Hmap HmapDict Buffer Charbuf Json.

(** * The grammar *)

(** ** Tokens *)

Definition spaces (s : list Z) : Prop := Forall (fun c => isspace c = true) s.
Definition ascii (s : list Z) : Prop := Forall (fun c => 1 <= c < 128) s.

(** The text of a string between its quotes: a quote and a backslash have a
    backslash in front, other characters may. *)
Inductive chars : list Z -> list Z -> Prop :=
  | chars_nil : chars [] []
  | chars_plain c s t : 1 <= c < 128 -> c <> 34 -> c <> "\"%C -> chars s t -> chars (c :: s) (c :: t)
  | chars_escape c s t : 1 <= c < 128 -> chars s t -> chars (c :: s) ("\"%C :: c :: t).

Definition quoted (s t : list Z) : Prop := exists u, t = 34 :: u ++ [34] /\ chars s u.

Definition int_text (i : Z) : list Z :=
  if i <? 0 then "-"%C :: (dec_char <$> numeral 10 (- i)) else (dec_char <$> numeral 10 i).

(** ** Documents *)

Definition put_all (kvs : members) : members := foldl (fun d kv => dict_put kv.1 kv.2 d) [] kvs.

Inductive doc : json -> list Z -> Prop :=
  | doc_null : doc JNull (lit "null")
  | doc_true : doc (JBool true) (lit "true")
  | doc_false : doc (JBool false) (lit "false")
  | doc_int i : - 2 ^ 63 < i < 2 ^ 63 -> doc (JInt i) (int_text i)
  | doc_string s t : quoted s t -> doc (JString s) t
  | doc_array s l t : spaces s -> items l t -> doc (JArray l) ("["%C :: s ++ t ++ ["]"%C])
  | doc_empty s : spaces s -> doc (JObject (Some [])) ("{"%C :: s ++ ["}"%C])
  | doc_object s kvs t : spaces s -> pairs kvs t -> doc (JObject (Some (put_all kvs))) ("{"%C :: s ++ t ++ ["}"%C])
with items : list json -> list Z -> Prop :=
  | items_last v t s : doc v t -> spaces s -> items [v] (t ++ s)
  | items_next v t s s' l u : doc v t -> spaces s -> spaces s' -> items l u ->
      items (v :: l) (t ++ s ++ ","%C :: s' ++ u)
with pairs : members -> list Z -> Prop :=
  | pairs_last k v tk s s' t s'' : quoted k tk -> k <> [] -> key_fits k = true -> doc v t ->
      spaces s -> spaces s' -> spaces s'' -> pairs [(k, v)] (tk ++ s ++ ":"%C :: s' ++ t ++ s'')
  | pairs_next k v tk s s' t s'' s3 kvs u : quoted k tk -> k <> [] -> key_fits k = true -> doc v t ->
      spaces s -> spaces s' -> spaces s'' -> spaces s3 -> pairs kvs u ->
      pairs ((k, v) :: kvs) (tk ++ s ++ ":"%C :: s' ++ t ++ s'' ++ ","%C :: s3 ++ u).

Scheme doc_ind' := Induction for doc Sort Prop
  with items_ind' := Induction for items Sort Prop
  with pairs_ind' := Induction for pairs Sort Prop.
Combined Scheme doc_items_pairs_ind from doc_ind', items_ind', pairs_ind'.

(** * Reading without failures *)

Section quiet.
Context {W : Type} `{RL : ReaderLaws W, CL : !ClearLaw W, Q : !Quiet W} (calls : nat).

(** The buffer is at the start of [xs], which the fuel of the loops covers. *)
Record good (w : W) (b : charbuf) (xs : list Z) : Prop := Good {
  g_wf : wf_cb b;
  g_err : cb_err b = false;
  g_view : view w b = xs;
  g_bytes : bytes_ok xs;
  g_calls : (tries w + length xs < calls)%nat;
  g_room : 7 < cb_a b
}.

(** [f] answers [r] and leaves [ys], at most [n] of them read ahead. *)
Definition answers_with {R : Type} (res : option (R * W * charbuf)) (r : R) (ys : list Z) (n : Z) : Prop :=
  exists w' b', res = Some (r, w', b') /\ good w' b' ys /\ cb_p b' <= n.

Lemma not_loud (w w' : W) : ~ loud w w'.
Proof. intros (_ & w1 & w2 & n & r & l & E & Hr). apply quiet in E. lia. Qed.

Lemma good_keeps (w w' : W) b b' xs ys :
  good w b xs -> keeps w b w' b' -> view w' b' = ys -> ys `suffix_of` xs -> good w' b' ys.
Proof.
  intros [Hw He Hv Hb Hc Hr] Hk Hv' [zs ->]. destruct Hk as [W1 A1 T1 E1 _ S1]. split; try done.
  - destruct (cb_err b') eqn:E; [|done]. destruct (E1 eq_refl) as [?|?]; [congruence|]. exfalso; by eapply not_loud.
  - by apply list.Forall_app in Hb as [_ Hb].
  - rewrite length_app in Hc. lia.
  - by rewrite A1.
Qed.

Lemma good_outcome {R : Type} (w : W) b xs (res : option (R * W * charbuf)) r ys l :
  good w b xs -> outcome w b res r ys l -> ys `suffix_of` xs -> answers_with res r ys (Z.max 1 (cb_p b)).
Proof.
  intros H (r' & w' & b' & -> & Hk & Hp & Hor) Hs. exists w', b'.
  assert (cb_err b' = false) as He.
  { destruct (cb_err b') eqn:E; [|done]. destruct (k_err _ _ _ _ Hk E) as [?|?]; [pose proof (g_err _ _ _ H); congruence|].
    exfalso; by eapply not_loud. }
  destruct Hor as [?|(-> & Hv & _)]; [congruence|]. split; [done|]. split; [by eapply good_keeps|done].
Qed.

(** A step of the stream. *)
Lemma good_step (o : char_op) (w : W) b xs :
  good w b xs -> char_valid o ->
  let '(r, c, k) := stream_op o xs in
  answers_with (char_step calls o w b) (r, c) (drop k xs) (Z.max 1 (cb_p b)).
Proof.
  intros H Hv. pose proof (char_step_ok calls o w b xs (g_wf _ _ _ H) (g_view _ _ _ H) (g_bytes _ _ _ H) (g_calls _ _ _ H) Hv) as Ho.
  destruct (stream_op o xs) as [[r c] k]. eapply good_outcome; [done|exact Ho|apply suffix_drop].
Qed.

(** ** Characters *)

Lemma peek_good (w : W) b x xs :
  good w b (x :: xs) -> answers_with (charbuf_peekc calls w b) (1, Some x) (x :: xs) (Z.max 1 (cb_p b)).
Proof. intros H. exact (good_step Peekc w b _ H I). Qed.

Lemma skip_good (w : W) b x xs :
  good w b (x :: xs) -> answers_with (charbuf_skip calls w b) x xs (Z.max 0 (cb_p b - 1)).
Proof.
  intros H. destruct (skip_ok calls w b (g_wf _ _ _ H)) as (r & r0 & c & w' & b' & -> & (Hk & Hp & Hor) & ->).
  { pose proof (g_calls _ _ _ H). lia. }
  pose proof (g_view _ _ _ H) as Hv. destruct Hor as [(-> & y & -> & Hy & _)|[(-> & -> & Hn & _)|(Hr & _ & He)]].
  - rewrite Hv in Hy. injection Hy as <- Hy. exists w', b'. split; [done|]. split; [|done].
    eapply good_keeps; [done|done|done|]. by apply suffix_cons_r.
  - congruence.
  - destruct (k_err _ _ _ _ Hk He) as [He'|He']; [rewrite (g_err _ _ _ H) in He'; done|exfalso; by eapply not_loud].
Qed.

Lemma nextc_good (w : W) b x y xs :
  good w b (x :: y :: xs) -> x <> 0 ->
  answers_with (charbuf_nextc calls w b) (1, Some y) (y :: xs) (Z.max 1 (cb_p b)).
Proof.
  intros H Hx. pose proof (good_step Nextc w b _ H I) as Hs. cbn [stream_op] in Hs.
  replace (x =? 0) with false in Hs by lia. exact Hs.
Qed.

Lemma pred_skip_good (pred : Z -> nat -> bool) (w : W) b xs :
  good w b xs -> let '(r, k) := stream_skip pred 0 xs in
  answers_with (charbuf_pred_skip calls pred w b) r (drop k xs) (Z.max 1 (cb_p b)).
Proof.
  intros H. pose proof (pred_skip_ok calls pred w b xs (g_wf _ _ _ H) (g_view _ _ _ H) (g_bytes _ _ _ H) (g_calls _ _ _ H)) as Ho.
  destruct (stream_skip pred 0 xs) as [r k]. eapply good_outcome; [done|exact Ho|apply suffix_drop].
Qed.

(** ** Spaces *)

Definition stops (xs : list Z) : Prop := match xs with [] => True | x :: _ => isspace x = false end.

Lemma stream_spaces s ys n : spaces s -> stops ys ->
  exists r, stream_skip (charbuf_is_ctype isspace) n (s ++ ys) = (r, length s).
Proof.
  intros Hs Hy. revert n. induction Hs as [|x s Hx _ IH]; intros n; cbn [app stream_skip length].
  - destruct ys as [|y ys]; [by eexists|]. cbn in *. unfold charbuf_is_ctype. rewrite Hy. by eexists.
  - unfold charbuf_is_ctype at 1. rewrite Hx. assert (x <> 0) as Hx0 by by intros ->. zfalse (x =? 0).
    destruct (IH (S n)) as [r ->]. by eexists.
Qed.

Lemma spaces_good (w : W) b s ys :
  good w b (s ++ ys) -> spaces s -> stops ys ->
  exists r, answers_with (charbuf_skip_ws calls w b) r ys (Z.max 1 (cb_p b)).
Proof.
  intros H Hs Hy. pose proof (pred_skip_good (charbuf_is_ctype isspace) w b _ H) as Hp.
  destruct (stream_spaces s ys 0 Hs Hy) as [r E]. rewrite E, drop_app_length in Hp. by exists r.
Qed.

(** ** Fixed characters *)

Lemma ifeq_yes (w : W) b c y ys :
  good w b (c :: y :: ys) -> c <> 0 -> answers_with (charbuf_skip_ifeq calls w b c) 1 (y :: ys) (Z.max 1 (cb_p b)).
Proof.
  intros H Hc. pose proof (pred_skip_good (charbuf_is_samechar c) w b _ H) as Hp. cbn [stream_skip] in Hp.
  unfold charbuf_is_samechar in Hp. rewrite Z.eqb_refl in Hp. cbn in Hp. replace (c =? 0) with false in Hp by lia. exact Hp.
Qed.

Lemma ifeq_no (w : W) b c xs :
  good w b xs -> match xs with [] => True | x :: _ => x <> c end ->
  answers_with (charbuf_skip_ifeq calls w b c) 0 xs (Z.max 1 (cb_p b)).
Proof.
  intros H Hc. pose proof (pred_skip_good (charbuf_is_samechar c) w b _ H) as Hp. destruct xs as [|x xs]; [done|].
  cbn [stream_skip] in Hp. unfold charbuf_is_samechar in Hp. replace (x =? c) with false in Hp by lia. exact Hp.
Qed.

(** ** Characters ahead *)

Lemma peekn_loop_good (fuel : nat) : forall (w : W) b xs n,
  good w b xs -> 0 < n -> cb_p b <= n < cb_a b -> (Z.to_nat (n - cb_p b) < fuel)%nat ->
  exists v w' b', peekn_loop calls w b n fuel = Some (v, w', b') /\ good w' b' xs /\ cb_p b' <= n /\
    if n <=? Z.of_nat (length xs) then exists x, v = Some x /\ take (Z.to_nat n) x = take (Z.to_nat n) xs else v = None.
Proof.
  induction fuel as [|fuel IH]; intros w b xs n H Hn Hp Hf; [lia|]. cbn [peekn_loop].
  pose proof (g_wf _ _ _ H) as Hw. pose proof (wf_pending b Hw) as Hpl. pose proof (g_view _ _ _ H) as Hv.
  destruct (Z.eqb_spec (cb_p b) n) as [<-|Hne].
  - destruct Hw as (x & Ex & Hx & Hxp & Hxa). exists (Some x), w, b. split; [by rewrite Ex|]. split; [done|]. split; [done|].
    assert (take (Z.to_nat (cb_p b)) xs = pending b) as Ht.
    { rewrite <- Hv. unfold view. by rewrite take_app_le, take_ge by lia. }
    assert (Z.of_nat (length xs) >= cb_p b) as Hl by (rewrite <- Hv; unfold view; rewrite length_app; clear -Hpl; lia).
    ztrue (cb_p b <=? Z.of_nat (length xs)). exists x. split; [done|]. rewrite Ht. unfold pending. by rewrite Ex.
  - rewrite u32_id by (destruct Hw as (x & _ & _ & ? & ?); unfold is_u32; lia).
    destruct (stubborn_read_ok calls w b (n - cb_p b)) as (r & w' & b' & -> & Hk & Hp' & _ & Hpe & Hor);
      [done|lia|lia|pose proof (g_calls _ _ _ H); lia|]. cbn [mbind option_bind].
    destruct Hor as [(Hr & He & _)|[(-> & Hv1 & Hv2)|(Hr & _ & x & Ex & Hwx & Hvx)]].
    + destruct (k_err _ _ _ _ Hk He) as [He'|He']; [rewrite (g_err _ _ _ H) in He'; done|exfalso; by eapply not_loud].
    + zfalse (0 <? 0). exists None, w', b'. split; [done|]. assert (view w' b' = xs) as Hv' by congruence.
      split; [by eapply good_keeps|]. split; [lia|].
      assert (length xs = length (pending b)) as Hl by congruence. zfalse (n <=? Z.of_nat (length xs)). done.
    + ztrue (0 <? r). rewrite Ex. cbn [mbind option_bind]. rewrite Hp'.
      assert (bits12 (cb_p b + r) = cb_p b + r) as Hb12 by (apply bits12_id; destruct Hw as (? & _ & _ & ? & ?); lia).
      apply IH; [|done|cbn; rewrite Hb12, (k_a _ _ _ _ Hk); lia|cbn; rewrite Hb12; lia].
      destruct H as [_ He _ Hb Hc Ha]. destruct Hk as [_ A1 T1 E1 _ _].
      split; [done| |congruence|done|lia|cbn; by rewrite A1].
      cbn. destruct (cb_err b') eqn:Eb; [|done]. destruct (E1 eq_refl); [congruence|exfalso; by eapply not_loud].
Qed.

(** How many characters of [xs] satisfy the predicate. *)
Fixpoint ahead (pred : Z -> nat -> bool) (n : nat) (xs : list Z) : nat :=
  match xs with x :: xs => if pred x n then S (ahead pred (S n) xs) else 0%nat | [] => 0%nat end.

Lemma lookahead_loop_good (pred : Z -> nat -> bool) xs (fuel : nat) : forall (w : W) b n ys,
  good w b xs -> drop n xs = ys -> cb_p b <= Z.of_nat (S n) -> (n + ahead pred n ys < 7)%nat ->
  (ahead pred n ys < fuel)%nat ->
  answers_with (lookahead_loop calls pred w b n fuel) (Z.of_nat (n + ahead pred n ys)) xs
    (Z.of_nat (n + ahead pred n ys) + 1).
Proof.
  induction fuel as [|fuel IH]; intros w b n ys H Hd Hp Ha Hf; [lia|]. cbn [lookahead_loop]. unfold charbuf_peekn.
  pose proof (g_room _ _ _ H) as Hroom. ztrue (Z.of_nat (S n) <? cb_a b).
  destruct (peekn_loop_good (S (Z.to_nat (cb_a b))) w b xs (Z.of_nat (S n))) as (v & w' & b' & -> & G & Hp' & Hv);
    [done|lia|lia|pose proof (g_wf _ _ _ H) as (? & _ & _ & ? & ?); lia|]. cbn [mbind option_bind].
  rewrite Nat2Z.id in Hv. destruct ys as [|y ys]; cbn [ahead] in *.
  - assert (length xs <= n)%nat as Hl by (pose proof (f_equal length Hd) as E; rewrite length_drop in E; cbn in E; lia).
    replace (Z.of_nat (S n) <=? Z.of_nat (length xs)) with false in Hv by lia. subst v. rewrite Nat.add_0_r.
    exists w', b'. split; [done|]. split; [done|lia].
  - assert (xs !! n = Some y) as Hy by (rewrite <- (Nat.add_0_r n), <- lookup_drop, Hd; done).
    pose proof (lookup_lt_Some _ _ _ Hy).
    replace (Z.of_nat (S n) <=? Z.of_nat (length xs)) with true in Hv by lia. destruct Hv as (x & -> & Hx).
    assert (x !! n = Some y) as -> by (rewrite <- (lookup_take_lt x (S n)), Hx, lookup_take_lt by lia; done).
    cbn [mbind option_bind]. destruct (pred y n).
    + rewrite Nat.add_succ_r in *. rewrite <- Nat.add_succ_l. apply IH; [done| |lia|lia|lia].
      rewrite <- Nat.add_1_r, <- drop_drop, Hd. done.
    + rewrite Nat.add_0_r. exists w', b'. split; [done|]. split; [done|lia].
Qed.

Lemma take_good (w : W) b x xs :
  good w b (x :: xs) -> exists w1 b1, charbuf_peekc calls w b = Some (1, Some x, w1, b1) /\ good w1 b1 (x :: xs) /\
    answers_with (charbuf_skip calls w1 b1) x xs (Z.max 0 (cb_p b - 1)).
Proof.
  intros H. destruct (peek_good w b x xs H) as (w1 & b1 & E & H1 & P1). exists w1, b1. split; [done|]. split; [done|].
  destruct (skip_good w1 b1 x xs H1) as (w2 & b2 & E2 & H2 & P2). exists w2, b2. split; [done|]. split; [done|]. lia.
Qed.

Lemma skipn_good (xs : list Z) : forall (w : W) b pos ys,
  good w b (xs ++ ys) -> Forall (fun x => 0 < x) xs ->
  answers_with (skipn_loop calls w b pos (length xs)) (Z.of_nat (pos + length xs)) ys
    (Z.max 0 (cb_p b - Z.of_nat (length xs))).
Proof.
  induction xs as [|x xs IH]; intros w b pos ys H Hx; cbn [app length skipn_loop].
  - rewrite Nat.add_0_r. exists w, b. split; [done|]. split; [done|lia].
  - apply list.Forall_cons in Hx as [Hx Hxs]. destruct (take_good w b x _ H) as (w1 & b1 & -> & _ & w2 & b2 & E2 & H2 & P2).
    cbn [mbind option_bind]. ztrue (0 <? 1). rewrite E2. cbn [mbind option_bind]. ztrue (0 <? x).
    destruct (IH w2 b2 (S pos) ys H2 Hxs) as (w3 & b3 & -> & H3 & P3).
    exists w3, b3. rewrite Nat.add_succ_r. split; [done|]. split; [done|lia].
Qed.

Lemma peek_char (w : W) b x xs :
  good w b (x :: xs) -> answers_with (charbuf_peek calls w b) x (x :: xs) (Z.max 1 (cb_p b)).
Proof.
  intros H. destruct (good_step Peek w b _ H I) as (w' & b' & E & G). cbn [char_step] in E.
  destruct (charbuf_peek calls w b) as [[[r w1] b1]|]; [|done]. cbn in E. injection E as -> -> ->. by exists w', b'.
Qed.

(** ** Words *)

Lemma skip_word_good (n : list Z) : forall (w : W) b y ys,
  good w b (n ++ y :: ys) -> Forall (fun c => c <> 0) n ->
  answers_with (skip_word calls n w b) true (y :: ys) (Z.max 1 (cb_p b)).
Proof.
  induction n as [|c n IH]; intros w b y ys H Hn; cbn [app skip_word] in *.
  - exists w, b. split; [done|]. split; [done|lia].
  - apply list.Forall_cons in Hn as [Hc Hn].
    assert (answers_with (charbuf_skip_ifeq calls w b c) 1 (n ++ y :: ys) (Z.max 1 (cb_p b))) as (w1 & b1 & -> & H1 & P1).
    { destruct n as [|c' n]; cbn [app] in *; by apply ifeq_yes. }
    cbn [mbind option_bind]. zfalse (1 =? 0). destruct (IH w1 b1 y ys H1 Hn) as (w2 & b2 & -> & H2 & P2).
    exists w2, b2. split; [done|]. split; [done|lia].
Qed.

Lemma parse_null_yes (j : json) (w : W) b x xs :
  good w b (lit "null" ++ x :: xs) -> is_identifier_char x = false -> cb_p b <= 1 ->
  answers_with (json_parse_null calls j w b) (1, JNull) (x :: xs) 2.
Proof.
  intros H Hx Hp. unfold json_parse_null, charbuf_pred_lookahead.
  assert (ahead (predicate_identifier (lit "null")) 0 (lit "null" ++ x :: xs) = 5%nat) as Ea.
  { change (S (S (S (S (if negb (is_identifier_char x) then S (ahead (predicate_identifier (lit "null")) 5 xs) else 0%nat)))) = 5%nat).
    rewrite Hx. cbn [negb]. by destruct xs. }
  destruct (lookahead_loop_good (predicate_identifier (lit "null")) _ (S (Z.to_nat (cb_a b))) w b 0 (lit "null" ++ x :: xs) H eq_refl)
    as (w1 & b1 & -> & H1 & P1); rewrite ?Ea in *; [lia|lia|pose proof (g_room _ _ _ H); lia|].
  cbn [mbind option_bind]. change (4 <=? Z.of_nat (0 + 5)) with true. cbn match. unfold charbuf_skipn.
  destruct (skipn_good (lit "null") w1 b1 0 (x :: xs) H1) as (w2 & b2 & E2 & H2 & P2); [by repeat constructor|].
  change (length (lit "null")) with 4%nat in *. rewrite E2. cbn [mbind option_bind].
  exists w2, b2. split; [done|]. split; [done|lia].
Qed.

Lemma parse_null_no (j : json) (w : W) b x xs :
  good w b (x :: xs) -> x <> "n"%C -> cb_p b <= 1 ->
  answers_with (json_parse_null calls j w b) (0, j) (x :: xs) 1.
Proof.
  intros H Hx Hp. unfold json_parse_null, charbuf_pred_lookahead.
  assert (ahead (predicate_identifier (lit "null")) 0 (x :: xs) = 0%nat) as Ea.
  { cbn [ahead]. change (predicate_identifier (lit "null") x 0) with (110 =? x). by zfalse (110 =? x). }
  destruct (lookahead_loop_good (predicate_identifier (lit "null")) _ (S (Z.to_nat (cb_a b))) w b 0 (x :: xs) H eq_refl)
    as (w1 & b1 & -> & H1 & P1); rewrite ?Ea in *; [lia|lia|lia|].
  cbn [mbind option_bind]. change (4 <=? Z.of_nat (0 + 0)) with false. cbn match.
  exists w1, b1. split; [done|]. split; [done|lia].
Qed.

Lemma ifset_good (w : W) b x xs :
  good w b (x :: xs) -> cb_p b <= 1 ->
  let r := if (x =? "t"%C) || (x =? "f"%C) then (x, xs) else (0, x :: xs) in
  answers_with (charbuf_skip_ifset calls w b (lit "tf") 2) r.1 r.2 1.
Proof.
  intros H Hp. unfold charbuf_skip_ifset. destruct (take_good w b x xs H) as (w1 & b1 & E & H1 & w2 & b2 & E2 & H2 & P2).
  destruct (peek_good w b x xs H) as (w1' & b1' & E' & _ & P1). rewrite E in E'. injection E' as <- <-.
  rewrite E. cbn [mbind option_bind]. zfalse (1 =? 0). rewrite !(Z.eqb_sym x).
  change (byte_chr (lit "tf") 2 x) with
    (if "t"%C =? x then Some 0%nat else S <$> (if "f"%C =? x then Some 0%nat else Some 1%nat)).
  destruct ("t"%C =? x); [|destruct ("f"%C =? x)].
  1,2: exists w2, b2; split; [exact E2|]; split; [done|lia].
  exists w1, b1. split; [done|]. split; [done|lia].
Qed.

Lemma parse_boolean_yes (v : bool) (j : json) (w : W) b y ys :
  good w b ((if v then lit "true" else lit "false") ++ y :: ys) -> cb_p b <= 1 ->
  answers_with (json_parse_boolean calls j w b) (1, JBool v) (y :: ys) 1.
Proof.
  intros H Hp. unfold json_parse_boolean.
  assert (exists x c t, (if v then lit "true" else lit "false") ++ y :: ys = x :: c :: t /\ (x =? "t"%C) || (x =? "f"%C) = true /\
    0 < x /\ (c =? "r"%C) = v /\ c :: t = (if v then lit "rue" else lit "alse") ++ y :: ys) as (x & c & t & E & Ex & Hx & Ec & Et).
  { destruct v; by do 3 eexists. }
  rewrite E in H. pose proof (ifset_good w b x (c :: t) H Hp) as Hi. rewrite Ex in Hi. cbn zeta in Hi.
  destruct Hi as (w1 & b1 & -> & H1 & P1). cbn [mbind option_bind fst snd] in *. ztrue (0 <? x).
  destruct (peek_char w1 b1 c t H1) as (w2 & b2 & -> & H2 & P2). cbn [mbind option_bind]. rewrite Ec. rewrite Et in H2.
  destruct (skip_word_good (if v then lit "rue" else lit "alse") w2 b2 y ys H2) as (w3 & b3 & -> & H3 & P3).
  { by destruct v; repeat constructor. }
  cbn [mbind option_bind]. exists w3, b3. split; [done|]. split; [done|lia].
Qed.

Lemma parse_boolean_no (j : json) (w : W) b x xs :
  good w b (x :: xs) -> x <> "t"%C -> x <> "f"%C -> cb_p b <= 1 ->
  answers_with (json_parse_boolean calls j w b) (0, j) (x :: xs) 1.
Proof.
  intros H Ht Hf Hp. unfold json_parse_boolean. pose proof (ifset_good w b x xs H Hp) as Hi.
  replace (x =? "t"%C) with false in Hi by lia. replace (x =? "f"%C) with false in Hi by lia.
  destruct Hi as (w1 & b1 & -> & H1 & P1). cbn [mbind option_bind]. exists w1, b1. by split.
Qed.

(** ** Numbers *)

Lemma number_loop_good (ds : list Z) : forall (w : W) b num c y ys fuel,
  good w b (c :: ds ++ y :: ys) -> c <> 0 -> Forall (fun d => isdigit d = true) ds -> is_number_char y = false ->
  cb_p b <= 1 -> (length ds < fuel)%nat ->
  answers_with (number_loop calls num c false w b fuel) (None, num ++ c :: ds, false) (y :: ys) 1.
Proof.
  induction ds as [|d ds IH]; intros w b num c y ys fuel H Hc Hd Hy Hp Hf; (destruct fuel as [|fuel]; [cbn in Hf; lia|]);
    cbn [app number_loop] in *.
  - destruct (nextc_good w b c y ys H Hc) as (w1 & b1 & -> & H1 & P1). cbn [mbind option_bind]. zfalse (1 <=? 0).
    rewrite Hy. cbn [negb andb]. exists w1, b1. split; [done|]. split; [done|lia].
  - apply list.Forall_cons in Hd as [Hd Hds]. destruct (nextc_good w b c d _ H Hc) as (w1 & b1 & -> & H1 & P1).
    cbn [mbind option_bind]. zfalse (1 <=? 0). unfold is_number_char at 1. rewrite Hd. cbn [orb negb andb].
    unfold isdigit in Hd. replace (d =? "."%C) with false by lia. replace (d =? "E"%C) with false by lia.
    replace (d =? "e"%C) with false by lia. cbn [orb].
    destruct (IH w1 b1 (num ++ [c]) d y ys fuel H1) as (w2 & b2 & -> & H2 & P2); [lia|done|done|lia|cbn in Hf; lia|].
    rewrite <- app_assoc. exists w2, b2. by split.
Qed.

Lemma int_text_shape (i : Z) : - 2 ^ 63 < i < 2 ^ 63 ->
  exists c ds, int_text i = c :: ds /\ (isdigit c = true \/ c = "-"%C) /\ Forall (fun d => isdigit d = true) ds.
Proof.
  intros Hi. assert (forall n, 0 <= n -> exists c ds, dec_char <$> numeral 10 n = c :: ds /\ isdigit c = true /\
    Forall (fun d => isdigit d = true) (c :: ds)) as Hn.
  { intros n Hn. pose proof (numeral_range 10 n ltac:(lia) Hn) as Hr. pose proof (numeral_nonempty 10 n) as H0.
    assert (Forall (fun d => isdigit d = true) (dec_char <$> numeral 10 n)) as Hd.
    { apply list.Forall_fmap. eapply list.Forall_impl; [exact Hr|]. unfold compose, dec_char, isdigit. cbn. intros. lia. }
    destruct (dec_char <$> numeral 10 n) as [|c ds] eqn:E.
    { apply (f_equal length) in E. rewrite length_fmap in E. cbn in E. lia. }
    exists c, ds. split; [done|]. split; [by apply list.Forall_cons in Hd as [? _]|done]. }
  unfold int_text. destruct (Z.ltb_spec i 0).
  - destruct (Hn (- i)) as (c & ds & -> & Hc & Hds); [lia|]. eexists _, _. split; [done|]. split; [by right|done].
  - destruct (Hn i) as (c & ds & -> & Hc & Hds); [lia|]. eexists _, _. split; [done|]. split; [by left|].
    by apply list.Forall_cons in Hds as [_ ?].
Qed.

Lemma scan_int_text (i : Z) : - 2 ^ 63 < i < 2 ^ 63 ->
  exists n, scan_longlong (cstr (int_text i)) 0 = Some (n, i) /\ (0 < n)%nat.
Proof.
  intros Hi. assert (forall n, 0 <= n < 2 ^ 63 -> scan_ulonglong ((dec_char <$> numeral 10 n) ++ [0]) 0 =
    Some (length (numeral 10 n), n)) as Hn.
  { intros n Hn. unfold scan_ulonglong. rewrite scan_ulonglong_loop_ref by done.
    rewrite ref_scan_numeral with (chr := dec_char);
      [|lia|unfold is_u64; lia|lia|apply dec_val_char|done|].
    - cbn [mbind option_bind]. by rewrite nonzero_count by lia.
    - unfold big. rewrite length_app, length_fmap. cbn. lia. }
  pose proof (numeral_nonempty 10) as Hne. unfold cstr, int_text, scan_longlong. destruct (Z.ltb_spec i 0).
  - rewrite <- app_comm_cons. cbv beta iota zeta. change ("-"%C =? "-"%C) with true. cbn [orb drop]. rewrite drop_0, Hn by lia. cbn [mbind option_bind].
    rewrite nonzero_count by lia. replace (u64 (9223372036854775807 + 1) <? - i) with false by (rewrite u64_id by (unfold is_u64; lia); lia).
    exists (length (numeral 10 (- i)) + 1)%nat. split; [|lia].
    replace (length (numeral 10 (- i)) + 1 =? 0)%nat with false by lia. f_equal. f_equal.
    unfold s64, u64. zmod.
  - destruct (numeral_first i 0 [] ltac:(lia)) as (c & l & E & Hs). rewrite E. cbv beta iota zeta. unfold scan_sign in Hs.
    destruct (c =? "-"%C) eqn:Ec; [done|]. destruct (c =? "+"%C) eqn:Ec'; [done|]. cbn [orb drop]. rewrite <- E.
    rewrite Hn by lia. cbn [mbind option_bind].
    rewrite nonzero_count by lia. replace (u64 (9223372036854775807 + 0) <? i) with false by (rewrite u64_id by (unfold is_u64; lia); lia).
    exists (length (numeral 10 i)). split; [|specialize (Hne i); lia]. rewrite Nat.add_0_r, nonzero_count by lia. f_equal. f_equal.
    unfold s64. zmod.
Qed.

Lemma parse_number_yes (i : Z) (j : json) (w : W) b y ys :
  good w b (int_text i ++ y :: ys) -> - 2 ^ 63 < i < 2 ^ 63 -> is_number_char y = false -> cb_p b <= 1 ->
  answers_with (json_parse_number calls j w b) (1, JInt i) (y :: ys) 1.
Proof.
  intros H Hi Hy Hp. unfold json_parse_number. destruct (int_text_shape i Hi) as (c & ds & E & Hc & Hds).
  destruct (scan_int_text i Hi) as (n & En & Hn0). rewrite E in *.
  destruct (peek_char w b c _ H) as (w1 & b1 & -> & H1 & P1). cbn [mbind option_bind].
  assert (0 < c) by (unfold isdigit in Hc; lia). zfalse (c <=? 0).
  replace (isdigit c || (c =? "-"%C) || (c =? "."%C) || (c =? "+"%C)) with true by (destruct Hc as [->| ->]; done).
  destruct (number_loop_good ds w1 b1 [] c y ys calls H1) as (w2 & b2 & -> & H2 & P2); [lia|done|done|lia| |].
  { pose proof (g_calls _ _ _ H1) as Hc'. rewrite length_cons, length_app in Hc'. lia. }
  cbn [mbind option_bind app]. rewrite En. cbn [mbind option_bind]. ztrue (0 <? n)%nat.
  exists w2, b2. by split.
Qed.

Lemma parse_number_no (j : json) (w : W) b x xs :
  good w b (x :: xs) -> 0 < x -> isdigit x || (x =? "-"%C) || (x =? "."%C) || (x =? "+"%C) = false -> cb_p b <= 1 ->
  answers_with (json_parse_number calls j w b) (0, j) (x :: xs) 1.
Proof.
  intros H H0 Hx Hp. unfold json_parse_number. destruct (peek_char w b x _ H) as (w1 & b1 & -> & H1 & P1).
  cbn [mbind option_bind]. zfalse (x <=? 0). rewrite Hx. exists w1, b1. split; [done|]. split; [done|lia].
Qed.

(** ** Strings *)

Lemma string_loop_good (s u : list Z) : chars s u -> forall (w : W) b sa ys fuel,
  good w b (u ++ 34 :: ys) -> cb_p b <= 1 -> (length u < fuel)%nat ->
  answers_with (string_loop calls true sa w b fuel) (1, sa ++ s) ys 1.
Proof.
  induction 1 as [|c s u Hc Hq Hb _ IH|c s u Hc _ IH]; intros w b sa ys fuel H Hp Hf; (destruct fuel as [|fuel]; [cbn in Hf; lia|]);
    cbn [app string_loop] in *.
  - destruct (take_good w b 34 _ H) as (w1 & b1 & -> & _ & w2 & b2 & E2 & H2 & P2). cbn [mbind option_bind].
    zfalse (1 <=? 0). change (34 =? "\"%C) with false. change (true && (34 =? 34)) with true. cbn match. rewrite E2.
    cbn [mbind option_bind]. rewrite app_nil_r. exists w2, b2. split; [done|]. split; [done|lia].
  - destruct (take_good w b c _ H) as (w1 & b1 & -> & _ & w2 & b2 & E2 & H2 & P2). cbn [mbind option_bind].
    zfalse (1 <=? 0). zfalse (c =? "\"%C). zfalse (c =? 34). cbn [andb negb]. rewrite E2. cbn [mbind option_bind].
    destruct (IH w2 b2 (sa ++ [c]) ys fuel H2) as (w3 & b3 & -> & H3 & P3); [lia|cbn in Hf; lia|].
    rewrite <- app_assoc. by exists w3, b3.
  - destruct (peek_good w b "\"%C _ H) as (w1 & b1 & -> & H1 & P1). cbn [mbind option_bind].
    zfalse (1 <=? 0). change ("\"%C =? "\"%C) with true. cbn match.
    destruct (nextc_good w1 b1 "\"%C c _ H1) as (w2 & b2 & -> & H2 & P2); [done|]. cbn [mbind option_bind]. zfalse (1 <=? 0).
    destruct (skip_good w2 b2 c _ H2) as (w3 & b3 & -> & H3 & P3). cbn [mbind option_bind].
    destruct (IH w3 b3 (sa ++ [c]) ys fuel H3) as (w4 & b4 & -> & H4 & P4); [lia|cbn in Hf; lia|].
    rewrite <- app_assoc. by exists w4, b4.
Qed.

Lemma escape_loop_ascii (s : list Z) : ascii s -> escape_loop s 0 = Some s.
Proof.
  induction 1 as [|c s Hc _ IH]; [done|]. cbn [escape_loop]. rewrite scan_utf8_ascii by (cbn; lia). cbn [mbind option_bind].
  change (1 <? 1)%nat with false. cbn match. rewrite IH. cbn [mbind option_bind]. rewrite u8_id by (unfold is_u8; lia). done.
Qed.

Lemma chars_ascii s u : chars s u -> ascii s.
Proof. induction 1; by constructor. Qed.

Lemma parse_string_yes s t (j : json) (w : W) b ys :
  good w b (t ++ ys) -> quoted s t -> cb_p b <= 1 ->
  answers_with (json_parse_string calls j w b) (1, JString s) ys 1.
Proof.
  intros H (u & -> & Hu) Hp. unfold json_parse_string, json_parse_stralloc. cbn [app] in H. rewrite <- app_assoc in H. cbn [app] in H.
  assert (answers_with (charbuf_skip_ifeq calls w b 34) 1 (u ++ 34 :: ys) (Z.max 1 (cb_p b))) as (w1 & b1 & -> & H1 & P1).
  { destruct u as [|c u]; cbn [app] in *; by apply ifeq_yes. }
  cbn [mbind option_bind]. zfalse (1 =? 0).
  destruct (string_loop_good s u Hu w1 b1 [] ys calls H1) as (w2 & b2 & -> & H2 & P2); [lia| |].
  { pose proof (g_calls _ _ _ H1) as Hc. rewrite length_app in Hc. lia. }
  cbn [mbind option_bind orb app]. rewrite escape_loop_ascii by by eapply chars_ascii. cbn [mbind option_bind].
  by exists w2, b2.
Qed.

Lemma parse_string_no (j : json) (w : W) b x xs :
  good w b (x :: xs) -> x <> 34 -> cb_p b <= 1 ->
  answers_with (json_parse_string calls j w b) (0, j) (x :: xs) 1.
Proof.
  intros H Hx Hp. unfold json_parse_string. destruct (ifeq_no w b 34 (x :: xs) H Hx) as (w1 & b1 & -> & H1 & P1).
  cbn [mbind option_bind]. exists w1, b1. split; [done|]. split; [done|lia].
Qed.

Lemma parse_key_good k t (w : W) b ys :
  good w b (t ++ ys) -> quoted k t -> cb_p b <= 1 -> answers_with (parse_key calls w b) k ys 1.
Proof.
  intros H Hk Hp. unfold parse_key. destruct (parse_string_yes k t JUndefined w b ys H Hk Hp) as (w1 & b1 & -> & H1 & P1).
  by exists w1, b1.
Qed.

(** ** Separators *)

Lemma spaces_split (xs : list Z) : exists s ys, xs = s ++ ys /\ spaces s /\ stops ys.
Proof.
  induction xs as [|x xs (s & ys & -> & Hs & Hy)]; [exists [], []; split_and!; [done|constructor|done]|].
  destruct (isspace x) eqn:E; [exists (x :: s), ys|exists [], (x :: s ++ ys)]; split_and!; try done; by constructor.
Qed.

Lemma spaces_rest (s s1 r u : list Z) c :
  s ++ c :: u = s1 ++ r -> spaces s1 -> isspace c = false -> spaces s -> exists s2, r = s2 ++ c :: u /\ spaces s2.
Proof.
  intros E Hs1 Hc. revert s E. induction Hs1 as [|x s1 Hx _ IH]; intros s E Hs; [by exists s|].
  destruct s as [|y s]; cbn in E; injection E as -> E; [congruence|]. apply list.Forall_cons in Hs as [_ Hs]. by apply (IH s).
Qed.

Lemma separator_good (close : Z) (w : W) b s c xs :
  good w b (s ++ c :: xs) -> spaces s -> isspace c = false -> (c =? ","%C) || (c =? close) = true -> cb_p b <= 2 ->
  exists s' ys, xs = s' ++ ys /\ spaces s' /\ stops ys /\ answers_with (parse_separator calls close w b) (c =? ","%C) ys 1.
Proof.
  intros H Hs Hc Hcl Hp. destruct (spaces_split xs) as (s' & ys & -> & Hs' & Hy). exists s', ys. split; [done|]. split; [done|].
  split; [done|]. unfold parse_separator.
  destruct (spaces_good w b s (c :: s' ++ ys) H Hs Hc) as (r & w1 & b1 & -> & H1 & P1). cbn [mbind option_bind].
  destruct (peek_good w1 b1 c _ H1) as (w2 & b2 & -> & H2 & P2). cbn [mbind option_bind]. ztrue (0 <? 1). rewrite Hcl.
  destruct (skip_good w2 b2 c _ H2) as (w3 & b3 & -> & H3 & P3). cbn [mbind option_bind].
  destruct (spaces_good w3 b3 s' ys H3 Hs' Hy) as (r' & w4 & b4 & -> & H4 & P4). cbn [mbind option_bind].
  exists w4, b4. split; [done|]. split; [done|lia].
Qed.

(** ** Alternatives *)

Lemma or_else_no res f (j : json) ys n r zs m :
  answers_with res (0, j) ys n ->
  (forall (w : W) b, good w b ys -> cb_p b <= n -> answers_with (f j w b) r zs m) -> answers_with (or_else res f) r zs m.
Proof. intros (w & b & -> & H & P) Hf. unfold or_else. cbn [mbind option_bind]. by apply Hf. Qed.

Lemma or_else_yes (res : option (Z * json * W * charbuf)) f (v : json) ys n :
  answers_with res (1, v) ys n -> answers_with (or_else res f) (1, v) ys n.
Proof. intros (w & b & -> & H & P). unfold or_else. cbn [mbind option_bind]. by exists w, b. Qed.

Lemma answers_le {R : Type} (res : option (R * W * charbuf)) r ys n m :
  answers_with res r ys n -> n <= m -> answers_with res r ys m.
Proof. intros (w & b & -> & H & P) Hm. exists w, b. split; [done|]. split; [done|lia]. Qed.

Lemma parse_object_no (j : json) (w : W) b x xs fuel :
  good w b (x :: xs) -> x <> "{"%C -> cb_p b <= 1 ->
  answers_with (json_parse_object calls j w b (S fuel)) (0, j) (x :: xs) 1.
Proof.
  intros H Hx Hp. cbn [json_parse_object]. destruct (ifeq_no w b "{"%C (x :: xs) H Hx) as (w1 & b1 & -> & H1 & P1).
  cbn [mbind option_bind]. exists w1, b1. split; [done|]. split; [done|lia].
Qed.

Lemma parse_array_no (j : json) (w : W) b x xs fuel :
  good w b (x :: xs) -> x <> "["%C -> cb_p b <= 1 ->
  answers_with (json_parse_array calls j w b (S fuel)) (0, j) (x :: xs) 1.
Proof.
  intros H Hx Hp. cbn [json_parse_array]. destruct (ifeq_no w b "["%C (x :: xs) H Hx) as (w1 & b1 & -> & H1 & P1).
  cbn [mbind option_bind]. exists w1, b1. split; [done|]. split; [done|lia].
Qed.

(** ** Documents *)

(** What may follow a word or a number. *)
Definition delimiter (c : Z) : bool := isspace c || (c =? ","%C) || (c =? "]"%C) || (c =? "}"%C).
Definition ends (v : json) (rest : list Z) : Prop :=
  match v with JNull | JBool _ | JInt _ => exists y ys, rest = y :: ys /\ delimiter y = true | _ => True end.

Lemma delimiter_plain y : delimiter y = true -> is_identifier_char y = false /\ is_number_char y = false.
Proof.
  intros H. assert (y = 32 \/ y = 9 \/ y = 10 \/ y = 11 \/ y = 12 \/ y = 13 \/ y = 44 \/ y = 93 \/ y = 125) as Hy
    by (unfold delimiter, isspace in H; lia).
  clear H. by repeat destruct Hy as [->|Hy]; subst; vm_compute.
Qed.

Lemma doc_head v t : doc v t -> exists c t', t = c :: t' /\ isspace c = false /\ c <> "]"%C.
Proof.
  destruct 1 as [| | |i Hi|s t (u & -> & _)| | |]; try (by do 2 eexists).
  destruct (int_text_shape i Hi) as (c & ds & -> & Hc & _). exists c, ds. split; [done|].
  unfold isdigit, isspace in *. lia.
Qed.

Lemma spaces_unique (s s1 r u : list Z) c :
  s ++ c :: u = s1 ++ r -> spaces s1 -> isspace c = false -> spaces s -> stops r -> r = c :: u.
Proof.
  intros E Hs1 Hc Hs Hr. destruct (spaces_rest s s1 r u c E Hs1 Hc Hs) as ([|x s2] & -> & H2); [done|].
  apply list.Forall_cons in H2 as [H2 _]. cbn in Hr. congruence.
Qed.

(** The rest of the input behind the spaces that a parser may have taken. *)
Definition parsed {R : Type} (res : option (R * W * charbuf)) (r : R) (rest : list Z) (n : Z) : Prop :=
  exists s1 rest', rest = s1 ++ rest' /\ spaces s1 /\ answers_with res r rest' n.

Lemma parsed_all {R : Type} (res : option (R * W * charbuf)) r rest n : answers_with res r rest n -> parsed res r rest n.
Proof. intros H. exists [], rest. split; [done|]. split; [constructor|done]. Qed.

Definition parses_doc (v : json) (t : list Z) : Prop := forall j (w : W) b s rest fuel,
  good w b (s ++ t ++ rest) -> spaces s -> ends v rest -> cb_p b <= 1 -> (3 * length t + 3 <= fuel)%nat ->
  parsed (json_parse calls j w b fuel) (1, v) rest 2.
Definition parses_items (l : list json) (t : list Z) : Prop := forall acc (w : W) b rest fuel,
  good w b (t ++ "]"%C :: rest) -> cb_p b <= 1 -> (3 * length t + 4 <= fuel)%nat ->
  parsed (array_loop calls acc w b fuel) (acc ++ l) rest 1.
Definition parses_pairs (kvs : members) (t : list Z) : Prop := forall d (w : W) b rest fuel,
  good w b (t ++ "}"%C :: rest) -> cb_p b <= 1 -> (3 * length t + 4 <= fuel)%nat ->
  parsed (object_loop calls d w b fuel) (foldl (fun d kv => dict_put kv.1 kv.2 d) d kvs) rest 1.

(** The alternatives of the parser, at the first character of a document. *)
Definition alternatives (j : json) (w : W) (b : charbuf) (fuel : nat) : option (Z * json * W * charbuf) :=
  or_else (or_else (or_else (or_else (or_else
    (json_parse_object calls j w b fuel)
    (fun j w b => json_parse_array calls j w b fuel))
    (json_parse_null calls))
    (json_parse_boolean calls))
    (json_parse_number calls))
    (json_parse_string calls).

Lemma json_parse_at (j : json) (w : W) b s x xs fuel r rest n :
  good w b (s ++ x :: xs) -> spaces s -> isspace x = false -> cb_p b <= 1 ->
  (forall w b, good w b (x :: xs) -> cb_p b <= 1 -> parsed (alternatives j w b fuel) r rest n) ->
  parsed (json_parse calls j w b (S fuel)) r rest n.
Proof.
  intros H Hs Hx Hp Hf. destruct (spaces_good w b s (x :: xs) H Hs Hx) as (r' & w1 & b1 & E & H1 & P1).
  cbn [json_parse]. unfold charbuf_skip_ws in E. rewrite E. cbn [mbind option_bind]. apply Hf; [done|lia].
Qed.

Lemma no_container (j : json) (w : W) b x xs fuel :
  good w b (x :: xs) -> x <> "{"%C -> x <> "["%C -> cb_p b <= 1 ->
  answers_with (or_else (json_parse_object calls j w b (S fuel)) (fun j w b => json_parse_array calls j w b (S fuel)))
    (0, j) (x :: xs) 1.
Proof.
  intros H Hx Hx' Hp. eapply or_else_no; [by apply parse_object_no|]. intros w1 b1 H1 P1. by apply parse_array_no.
Qed.

Lemma parse_scalar_null : parses_doc JNull (lit "null").
Proof.
  intros j w b s rest fuel H Hs (y & ys & -> & Hy) Hp Hf. apply delimiter_plain in Hy as [Hi _].
  destruct fuel as [|[|fuel]]; [cbn in Hf; lia..|]. eapply json_parse_at; [exact H|done|done|done|].
  intros w1 b1 H1 P1. apply parsed_all. do 3 apply or_else_yes.
  eapply or_else_no; [by apply no_container|]. intros w2 b2 H2 P2. by apply parse_null_yes.
Qed.

Lemma parse_scalar_bool (v : bool) : parses_doc (JBool v) (if v then lit "true" else lit "false").
Proof.
  intros j w b s rest fuel H Hs (y & ys & -> & Hy) Hp Hf.
  assert (exists x t, (if v then lit "true" else lit "false") ++ y :: ys = x :: t /\ isspace x = false /\ x <> "{"%C /\ x <> "["%C /\
    x <> "n"%C) as (x & t & E & E1 & E2 & E3 & E4) by by destruct v; do 2 eexists.
  rewrite E in H. destruct fuel as [|[|fuel]]; [lia..|]. eapply json_parse_at; [exact H|done|done|done|].
  intros w1 b1 H1 P1. apply parsed_all. do 2 apply or_else_yes. eapply answers_le; [|instantiate (1 := 1); lia].
  eapply or_else_no; [eapply or_else_no; [by apply no_container|]|]; intros w2 b2 H2 P2; [by apply parse_null_no|].
  apply parse_boolean_yes; [by rewrite E|done].
Qed.

Lemma parse_scalar_int (i : Z) : - 2 ^ 63 < i < 2 ^ 63 -> parses_doc (JInt i) (int_text i).
Proof.
  intros Hi j w b s rest fuel H Hs (y & ys & -> & Hy) Hp Hf. apply delimiter_plain in Hy as [_ Hn].
  destruct (int_text_shape i Hi) as (x & t & E & Hx & _). rewrite E in H. cbn [app] in H.
  assert (isspace x = false /\ x <> "{"%C /\ x <> "["%C /\ x <> "n"%C /\ x <> "t"%C /\ x <> "f"%C) as (E1 & E2 & E3 & E4 & E5 & E6)
    by (unfold isdigit, isspace in *; lia).
  destruct fuel as [|[|fuel]]; [lia..|]. eapply json_parse_at; [exact H|done|done|done|].
  intros w1 b1 H1 P1. apply parsed_all, or_else_yes. eapply answers_le; [|instantiate (1 := 1); lia].
  eapply or_else_no; [eapply or_else_no; [eapply or_else_no; [by apply no_container|]|]|]; intros w2 b2 H2 P2;
    [by apply parse_null_no|by apply parse_boolean_no|]. apply parse_number_yes; [by rewrite E|done..].
Qed.

Lemma parse_scalar_string s t : quoted s t -> parses_doc (JString s) t.
Proof.
  intros Hq j w b s' rest fuel H Hs _ Hp Hf. pose proof Hq as (u & E & _). pose proof H as H'. rewrite E in H'. cbn [app] in H'.
  destruct fuel as [|[|fuel]]; [lia..|]. eapply json_parse_at; [exact H'|done|done|done|].
  intros w1 b1 H1 P1. apply parsed_all. eapply answers_le; [|instantiate (1 := 1); lia].
  eapply or_else_no; [eapply or_else_no; [eapply or_else_no; [eapply or_else_no; [by apply no_container|]|]|]|]; intros w2 b2 H2 P2;
    [by apply parse_null_no|by apply parse_boolean_no|by apply parse_number_no|].
  apply (parse_string_yes s t); [by rewrite E|done|done].
Qed.

(** ** Arrays and objects *)

Lemma items_head l t : items l t -> exists c t', t = c :: t' /\ isspace c = false /\ c <> "]"%C.
Proof.
  destruct 1 as [v t s Hd _|v t s s' l u Hd _ _ _]; destruct (doc_head v t Hd) as (c & t' & -> & ? & ?); by do 2 eexists.
Qed.

Lemma pairs_head kvs t : pairs kvs t -> exists t', t = 34 :: t'.
Proof. destruct 1 as [? ? ? ? ? ? ? (u & -> & _)|? ? ? ? ? ? ? ? ? ? (u & -> & _)]; by eexists. Qed.

Lemma delim_ends v s c rest : spaces s -> delimiter c = true -> ends v (s ++ c :: rest).
Proof.
  intros Hs Hc. assert (exists y ys, s ++ c :: rest = y :: ys /\ delimiter y = true) as H.
  { destruct Hs as [|y s Hy _]; [by exists c, rest|]. exists y, (s ++ c :: rest). split; [done|]. unfold delimiter. by rewrite Hy. }
  by destruct v.
Qed.

(** The loops, one round unfolded. *)
Lemma array_loop_S l (w : W) b fuel : array_loop calls l w b (S fuel) =
  '(r, c, w, b) ← charbuf_peekc calls w b;
  if r <=? 0 then Some (l, w, b) else
  c ← c;
  if c =? "]"%C then Some (l, w, b) else
  '(_, item, w, b) ← json_parse calls JUndefined w b fuel;
  '(comma, w, b) ← parse_separator calls "]"%C w b;
  if (comma : bool) then array_loop calls (json_append l item) w b fuel else Some (json_append l item, w, b).
Proof. reflexivity. Qed.

Lemma object_loop_S d (w : W) b fuel : object_loop calls d w b (S fuel) =
  '(r, c, w, b) ← charbuf_peekc calls w b;
  if r <=? 0 then Some (d, w, b) else
  c ← c;
  if c =? "}"%C then '(_, _, w, b) ← charbuf_nextc calls w b; Some (d, w, b) else
  '(str, w, b) ← parse_key calls w b;
  '(_, w, b) ← charbuf_skip_ws calls w b;
  '(r, w, b) ← charbuf_skip_ifeq calls w b ":"%C;
  if r =? 0 then Some (d, w, b) else
  '(_, w, b) ← charbuf_skip_ws calls w b;
  '(r, member, w, b) ← json_parse calls JUndefined w b fuel;
  if 0 <? r then
    d ← map_insert d str member;
    '(comma, w, b) ← parse_separator calls "}"%C w b;
    if (comma : bool) then object_loop calls d w b fuel else Some (d, w, b)
  else Some (d, w, b).
Proof. reflexivity. Qed.

(** One item with the separator behind it. *)
Lemma item_good (v : json) (t s xs : list Z) (c close : Z) (w : W) b fuel :
  parses_doc v t -> good w b (t ++ s ++ c :: xs) -> spaces s -> delimiter c = true -> isspace c = false ->
  (c =? ","%C) || (c =? close) = true -> cb_p b <= 1 -> (3 * length t + 3 <= fuel)%nat ->
  exists w1 b1 s1 ys, json_parse calls JUndefined w b fuel = Some (1, v, w1, b1) /\ xs = s1 ++ ys /\ spaces s1 /\ stops ys /\
    answers_with (parse_separator calls close w1 b1) (c =? ","%C) ys 1.
Proof.
  intros Hd H Hs Hc Hsp Hcl Hp Hf.
  destruct (Hd JUndefined w b [] (s ++ c :: xs) fuel H) as (s1 & r & E & Hs1 & w1 & b1 & -> & H1 & P1);
    [constructor|by apply delim_ends|done|done|].
  destruct (spaces_rest s s1 r xs c E Hs1 Hsp Hs) as (s2 & -> & Hs2).
  destruct (separator_good close w1 b1 s2 c xs H1 Hs2 Hsp Hcl P1) as (s3 & ys & -> & Hs3 & Hy & Ha).
  by exists w1, b1, s3, ys.
Qed.

Lemma parses_items_last v t s : doc v t -> parses_doc v t -> spaces s -> parses_items [v] (t ++ s).
Proof.
  intros Hdoc Hd Hs acc w b rest fuel H Hp Hf. destruct (doc_head v t Hdoc) as (c & t' & E & _ & Hc).
  destruct fuel as [|fuel]; [lia|]. rewrite length_app in Hf. rewrite <- app_assoc in H. pose proof H as H'.
  rewrite E in H'. cbn [app] in H'. rewrite array_loop_S.
  destruct (peek_good w b c _ H') as (w1 & b1 & -> & H1 & P1). cbn [mbind option_bind]. zfalse (1 <=? 0). zfalse (c =? "]"%C).
  rewrite app_comm_cons, <- E in H1.
  destruct (item_good v t s rest "]"%C "]"%C w1 b1 fuel Hd H1 Hs) as (w2 & b2 & s1 & ys & -> & -> & Hs1 & Hy & w3 & b3 & E3 & H3 & P3);
    [done..|lia|lia|]. cbn [mbind option_bind]. rewrite E3. cbn [mbind option_bind].
  exists s1, ys. split; [done|]. split; [done|]. by exists w3, b3.
Qed.

Lemma parses_items_next v t s s' l u :
  doc v t -> parses_doc v t -> spaces s -> spaces s' -> items l u -> parses_items l u ->
  parses_items (v :: l) (t ++ s ++ ","%C :: s' ++ u).
Proof.
  intros Hdoc Hd Hs Hs' Hi Hl acc w b rest fuel H Hp Hf. destruct (doc_head v t Hdoc) as (c & t' & E & _ & Hc).
  destruct fuel as [|fuel]; [lia|]. rewrite !length_app, length_cons, length_app in Hf.
  repeat (rewrite <- ?app_assoc in H; cbn [app] in H). pose proof H as H'.
  rewrite E in H'. cbn [app] in H'. rewrite array_loop_S.
  destruct (peek_good w b c _ H') as (w1 & b1 & -> & H1 & P1). cbn [mbind option_bind]. zfalse (1 <=? 0). zfalse (c =? "]"%C).
  rewrite app_comm_cons, <- E in H1.
  destruct (item_good v t s _ ","%C "]"%C w1 b1 fuel Hd H1 Hs) as (w2 & b2 & s1 & ys & -> & E2 & Hs1 & Hy & w3 & b3 & E3 & H3 & P3);
    [done..|lia|lia|]. cbn [mbind option_bind]. rewrite E3. cbn [mbind option_bind].
  destruct (items_head l u Hi) as (d & u' & Eu & Hdsp & _).
  assert (ys = u ++ "]"%C :: rest) as ->.
  { rewrite Eu in E2 |- *. cbn [app] in *. by eapply spaces_unique. }
  destruct (Hl (json_append acc v) w3 b3 rest fuel H3 P3) as (s4 & r4 & -> & Hs4 & w4 & b4 & E4 & H4 & P4); [lia|].
  exists s4, r4. split; [done|]. split; [done|]. exists w4, b4. change (","%C =? ","%C) with true. cbn match. rewrite E4.
  unfold json_append. rewrite <- app_assoc. by split.
Qed.

Lemma map_insert_new (d : members) k v : k <> [] -> key_fits k = true -> map_insert d k v = Some (dict_put k v d).
Proof.
  intros Hk Hf. unfold map_insert. destruct k as [|c k]; [done|]. cbn [length Nat.eqb]. rewrite Hf. by destruct (decide _).
Qed.

(** One member with the separator behind it: a round of the loop. *)
Lemma member_good d k v tk s s' t s'' c xs (w : W) b fuel :
  quoted k tk -> k <> [] -> key_fits k = true -> doc v t -> parses_doc v t -> spaces s -> spaces s' -> spaces s'' ->
  delimiter c = true -> isspace c = false -> (c =? ","%C) || (c =? "}"%C) = true ->
  good w b (tk ++ s ++ ":"%C :: s' ++ t ++ s'' ++ c :: xs) -> cb_p b <= 1 -> (3 * length t + 3 <= fuel)%nat ->
  exists w1 b1 s1 ys, xs = s1 ++ ys /\ spaces s1 /\ stops ys /\ good w1 b1 ys /\ cb_p b1 <= 1 /\
    object_loop calls d w b (S fuel) =
      if c =? ","%C then object_loop calls (dict_put k v d) w1 b1 fuel else Some (dict_put k v d, w1, b1).
Proof.
  intros Hq Hk Hfit Hdoc Hd Hs Hs' Hs'' Hc Hsp Hcl H Hp Hf. pose proof H as H'.
  destruct Hq as (u & Eq & Hu). rewrite Eq in H'. cbn [app] in H'. rewrite object_loop_S.
  destruct (peek_good w b 34 _ H') as (w1 & b1 & -> & H1 & P1). cbn [mbind option_bind]. zfalse (1 <=? 0).
  change (34 =? "}"%C) with false. cbn match. rewrite app_comm_cons, <- Eq in H1.
  destruct (parse_key_good k tk w1 b1 _ H1) as (w2 & b2 & -> & H2 & P2); [by exists u|lia|]. cbn [mbind option_bind].
  destruct (spaces_good w2 b2 s _ H2 Hs) as (r & w3 & b3 & -> & H3 & P3); [done|]. cbn [mbind option_bind].
  destruct (doc_head v t Hdoc) as (x & t' & Et & Hx & _).
  assert (answers_with (charbuf_skip_ifeq calls w3 b3 ":"%C) 1 (s' ++ t ++ s'' ++ c :: xs) (Z.max 1 (cb_p b3)))
    as (w4 & b4 & -> & H4 & P4).
  { rewrite Et in H3 |- *. destruct s'; cbn [app] in *; by apply ifeq_yes. }
  cbn [mbind option_bind]. zfalse (1 =? 0).
  destruct (spaces_good w4 b4 s' _ H4 Hs') as (r' & w5 & b5 & -> & H5 & P5); [by rewrite Et|]. cbn [mbind option_bind].
  destruct (item_good v t s'' xs c "}"%C w5 b5 fuel Hd H5 Hs'' Hc Hsp Hcl) as
    (w6 & b6 & s1 & ys & -> & E & Hs1 & Hy & w7 & b7 & E7 & H7 & P7); [lia|done|]. cbn [mbind option_bind]. ztrue (0 <? 1).
  rewrite map_insert_new by done. cbn [mbind option_bind]. rewrite E7. cbn [mbind option_bind].
  by exists w7, b7, s1, ys.
Qed.

Lemma parses_pairs_last k v tk s s' t s'' :
  quoted k tk -> k <> [] -> key_fits k = true -> doc v t -> parses_doc v t -> spaces s -> spaces s' -> spaces s'' ->
  parses_pairs [(k, v)] (tk ++ s ++ ":"%C :: s' ++ t ++ s'').
Proof.
  intros Hq Hk Hfit Hdoc Hd Hs Hs' Hs'' d w b rest fuel H Hp Hf. destruct fuel as [|fuel]; [lia|].
  repeat (rewrite ?length_app, ?length_cons in Hf). repeat (rewrite <- ?app_assoc in H; cbn [app] in H).
  destruct (member_good d k v tk s s' t s'' "}"%C rest w b fuel Hq Hk Hfit Hdoc Hd Hs Hs' Hs'')
    as (w1 & b1 & s1 & ys & -> & Hs1 & _ & H1 & P1 & E); [done..|lia|].
  exists s1, ys. split; [done|]. split; [done|]. exists w1, b1. by rewrite E.
Qed.

Lemma parses_pairs_next k v tk s s' t s'' s3 kvs u :
  quoted k tk -> k <> [] -> key_fits k = true -> doc v t -> parses_doc v t -> spaces s -> spaces s' -> spaces s'' -> spaces s3 ->
  pairs kvs u -> parses_pairs kvs u -> parses_pairs ((k, v) :: kvs) (tk ++ s ++ ":"%C :: s' ++ t ++ s'' ++ ","%C :: s3 ++ u).
Proof.
  intros Hq Hk Hfit Hdoc Hd Hs Hs' Hs'' Hs3 Hpairs Hl d w b rest fuel H Hp Hf. destruct fuel as [|fuel]; [lia|].
  repeat (rewrite ?length_app, ?length_cons in Hf). repeat (rewrite <- ?app_assoc in H; cbn [app] in H).
  destruct (member_good d k v tk s s' t s'' ","%C (s3 ++ u ++ "}"%C :: rest) w b fuel Hq Hk Hfit Hdoc Hd Hs Hs' Hs'')
    as (w1 & b1 & s1 & ys & E1 & Hs1 & Hy & H1 & P1 & E); [done..|lia|].
  destruct (pairs_head kvs u Hpairs) as (u' & Eu).
  assert (ys = u ++ "}"%C :: rest) as ->.
  { rewrite Eu in E1 |- *. cbn [app] in *. by eapply spaces_unique. }
  destruct (Hl (dict_put k v d) w1 b1 rest fuel H1 P1) as (s4 & r4 & -> & Hs4 & w4 & b4 & E4 & H4 & P4); [lia|].
  exists s4, r4. split; [done|]. split; [done|]. exists w4, b4. rewrite E. change (","%C =? ","%C) with true. cbn match. rewrite E4. by split.
Qed.

(** ** Brackets *)

Lemma parsed_no res f (j : json) ys n r rest m :
  answers_with res (0, j) ys n ->
  (forall (w : W) b, good w b ys -> cb_p b <= n -> parsed (f j w b) r rest m) -> parsed (or_else res f) r rest m.
Proof. intros (w & b & -> & H & P) Hf. unfold or_else. cbn [mbind option_bind]. by apply Hf. Qed.

Lemma parsed_yes (res : option (Z * json * W * charbuf)) f (v : json) rest n m :
  parsed res (1, v) rest n -> n <= m -> parsed (or_else res f) (1, v) rest m.
Proof.
  intros (s1 & r1 & E & Hs & Ha) Hm. exists s1, r1. split; [done|]. split; [done|]. apply or_else_yes. by eapply answers_le.
Qed.

(** The bracket that opens, and the spaces behind it. *)
Lemma open_good (c x : Z) s xs (w : W) b :
  good w b (c :: s ++ x :: xs) -> c <> 0 -> spaces s -> isspace x = false -> cb_p b <= 1 ->
  exists r w1 b1 w2 b2, charbuf_skip_ifeq calls w b c = Some (1, w1, b1) /\ charbuf_skip_ws calls w1 b1 = Some (r, w2, b2) /\
    good w2 b2 (x :: xs) /\ cb_p b2 <= 1.
Proof.
  intros H Hc Hs Hx Hp.
  assert (answers_with (charbuf_skip_ifeq calls w b c) 1 (s ++ x :: xs) (Z.max 1 (cb_p b))) as (w1 & b1 & E1 & H1 & P1).
  { destruct s; cbn [app] in *; by apply ifeq_yes. }
  destruct (spaces_good w1 b1 s _ H1 Hs Hx) as (r & w2 & b2 & E2 & H2 & P2).
  exists r, w1, b1, w2, b2. split; [done|]. split; [done|]. split; [done|lia].
Qed.

Lemma parse_array_good l t s j (w : W) b rest fuel :
  spaces s -> items l t -> parses_items l t -> good w b ("["%C :: s ++ t ++ "]"%C :: rest) -> cb_p b <= 1 ->
  (3 * length t + 5 <= fuel)%nat -> parsed (json_parse_array calls j w b fuel) (1, JArray l) rest 1.
Proof.
  intros Hs Hi Hl H Hp Hf. destruct (items_head l t Hi) as (c & t' & Et & Hsp & _). pose proof H as H'. rewrite Et in H'.
  cbn [app] in H'. destruct (open_good "["%C c s _ w b H') as (r & w1 & b1 & w2 & b2 & E1 & E2 & H2 & P2); [done..|].
  rewrite app_comm_cons, <- Et in H2. destruct fuel as [|fuel]; [lia|].
  destruct (Hl [] w2 b2 rest fuel H2 P2) as (s1 & r1 & -> & Hs1 & w3 & b3 & E3 & H3 & P3); [lia|].
  exists s1, r1. split; [done|]. split; [done|]. exists w3, b3. split; [|done].
  cbn [json_parse_array]. rewrite E1. cbn [mbind option_bind]. zfalse (1 =? 0). rewrite E2. cbn [mbind option_bind].
  unfold array_loop in E3. by rewrite E3.
Qed.

Lemma parses_array l t s : spaces s -> items l t -> parses_items l t -> parses_doc (JArray l) ("["%C :: s ++ t ++ ["]"%C]).
Proof.
  intros Hs Hi Hl j w b s0 rest fuel H Hs0 _ Hp Hf. repeat (rewrite ?length_cons, ?length_app in Hf).
  repeat (rewrite <- ?app_assoc in H; cbn [app] in H). destruct fuel as [|[|fuel]]; [lia..|].
  eapply json_parse_at; [exact H|done..|]. intros w1 b1 H1 P1.
  do 4 (eapply parsed_yes; [|instantiate (1 := 1); lia]).
  eapply parsed_no; [by apply parse_object_no|]. intros w2 b2 H2 P2. eapply parse_array_good; [exact Hs|done|done|done|done|lia].
Qed.

Lemma parse_object_good d t s j (w : W) b rest fuel n :
  spaces s -> (exists x t', t ++ "}"%C :: rest = x :: t' /\ isspace x = false) ->
  good w b ("{"%C :: s ++ t ++ "}"%C :: rest) -> cb_p b <= 1 ->
  (forall w b, good w b (t ++ "}"%C :: rest) -> cb_p b <= 1 -> parsed (object_loop calls [] w b n) d rest 1) ->
  fuel = S n -> parsed (json_parse_object calls j w b fuel) (1, JObject (Some d)) rest 1.
Proof.
  intros Hs (x & t' & Et & Hsp) H Hp Hl ->. rewrite Et in H.
  destruct (open_good "{"%C x s _ w b H) as (r & w1 & b1 & w2 & b2 & E1 & E2 & H2 & P2); [done..|].
  rewrite <- Et in H2.
  destruct (Hl w2 b2 H2 P2) as (s1 & r1 & E & Hs1 & w3 & b3 & E3 & H3 & P3).
  exists s1, r1. split; [done|]. split; [done|]. exists w3, b3. split; [|done].
  cbn [json_parse_object]. rewrite E1. cbn [mbind option_bind]. zfalse (1 =? 0). rewrite E2. cbn [mbind option_bind].
  unfold object_loop in E3. by rewrite E3.
Qed.

Lemma empty_object_good (w : W) b rest fuel :
  good w b ("}"%C :: rest) -> cb_p b <= 1 -> parsed (object_loop calls [] w b (S fuel)) [] rest 1.
Proof.
  intros H Hp. apply parsed_all. rewrite object_loop_S. destruct (peek_good w b "}"%C _ H) as (w1 & b1 & -> & H1 & P1).
  cbn [mbind option_bind]. zfalse (1 <=? 0). change ("}"%C =? "}"%C) with true. cbn match.
  pose proof (good_step Nextc w1 b1 _ H1 I) as Hn.
  destruct rest as [|y rest]; cbn in Hn; destruct Hn as (w2 & b2 & -> & H2 & P2); cbn [mbind option_bind];
    (exists w2, b2; split; [done|]; split; [done|lia]).
Qed.

Lemma parses_object kvs t s :
  spaces s -> pairs kvs t -> parses_pairs kvs t -> parses_doc (JObject (Some (put_all kvs))) ("{"%C :: s ++ t ++ ["}"%C]).
Proof.
  intros Hs Hi Hl j w b s0 rest fuel H Hs0 _ Hp Hf. repeat (rewrite ?length_cons, ?length_app in Hf).
  repeat (rewrite <- ?app_assoc in H; cbn [app] in H). destruct fuel as [|[|fuel]]; [lia..|].
  eapply json_parse_at; [exact H|done..|]. intros w1 b1 H1 P1. do 5 (eapply parsed_yes; [|instantiate (1 := 1); lia]).
  eapply (parse_object_good _ t s); [done| |done|done| |done].
  - destruct (pairs_head kvs t Hi) as (t' & ->). by eexists _, _.
  - intros w2 b2 H2 P2. apply Hl; [done|done|lia].
Qed.

Lemma parses_empty s : spaces s -> parses_doc (JObject (Some [])) ("{"%C :: s ++ ["}"%C]).
Proof.
  intros Hs j w b s0 rest fuel H Hs0 _ Hp Hf. repeat (rewrite ?length_cons, ?length_app in Hf).
  repeat (rewrite <- ?app_assoc in H; cbn [app] in H). destruct fuel as [|[|[|fuel]]]; [lia..|].
  eapply json_parse_at; [exact H|done..|]. intros w1 b1 H1 P1. do 5 (eapply parsed_yes; [|instantiate (1 := 1); lia]).
  eapply (parse_object_good [] [] s); [done| |done|done| |done].
  - by eexists _, _.
  - intros w2 b2 H2 P2. by apply empty_object_good.
Qed.

Lemma parses_all :
  (forall v t, doc v t -> parses_doc v t) /\ (forall l t, items l t -> parses_items l t) /\
  (forall kvs t, pairs kvs t -> parses_pairs kvs t).
Proof.
  apply (doc_items_pairs_ind (fun v t _ => parses_doc v t) (fun l t _ => parses_items l t) (fun kvs t _ => parses_pairs kvs t)).
  - exact parse_scalar_null.
  - exact (parse_scalar_bool true).
  - exact (parse_scalar_bool false).
  - exact parse_scalar_int.
  - exact parse_scalar_string.
  - intros. by apply parses_array.
  - exact parses_empty.
  - intros. by apply parses_object.
  - intros. by apply parses_items_last.
  - intros. by apply parses_items_next.
  - intros. by apply parses_pairs_last.
  - intros. by apply parses_pairs_next.
Qed.
End quiet.

(** * Reading *)

Section reading.
Context {W : Type} `{RL : ReaderLaws W, CL : !ClearLaw W, Q : !Quiet W} (calls : nat).

Lemma init_good (w : W) (lookahead : Z) (alloc : Z -> option (list Z)) :
  0 < lookahead <= 4088 -> (forall n, 0 < n -> exists x, alloc n = Some x /\ Z.of_nat (length x) = n) ->
  bytes (stream w) -> (tries w + length (stream w) < calls)%nat ->
  good calls w (charbuf_init lookahead alloc) (stream w) /\ cb_p (charbuf_init lookahead alloc) = 0.
Proof.
  intros Hl Ha Hb Hf. destruct (charbuf_init_ok w lookahead alloc Hl Ha) as (Hw & Hv & _ & He & Hp & Ha8 & Hm).
  split; [|done]. split; [done..| |done|].
  - eapply list.Forall_impl; [exact Hb|]. unfold is_u8. lia.
  - lia.
Qed.

Lemma json_parse_ok (w : W) (lookahead : Z) (alloc : Z -> option (list Z)) (v : json) (t s rest : list Z) (fuel : nat) :
  0 < lookahead <= 4088 -> (forall n, 0 < n -> exists x, alloc n = Some x /\ Z.of_nat (length x) = n) ->
  stream w = s ++ t ++ rest -> bytes (stream w) -> (tries w + length (stream w) < calls)%nat ->
  doc v t -> spaces s -> ends v rest -> (3 * length t + 3 <= fuel)%nat ->
  parsed calls (json_parse calls JUndefined w (charbuf_init lookahead alloc) fuel) (1, v) rest 2.
Proof.
  intros Hl Ha Hs Hb Hf Hd Hsp He Hfuel. destruct (init_good w lookahead alloc Hl Ha Hb Hf) as [H Hp]. rewrite Hs in H.
  apply (proj1 (parses_all calls) v t Hd JUndefined w _ s rest fuel H Hsp He); [lia|done].
Qed.
End reading.

(** Documents are ASCII text. *)
Lemma spaces_ascii s : spaces s -> ascii s.
Proof. intros H. eapply list.Forall_impl; [exact H|]. unfold isspace. cbn. lia. Qed.

Lemma quoted_ascii s t : quoted s t -> ascii t.
Proof.
  intros (u & -> & H). constructor; [lia|]. apply list.Forall_app. split; [|repeat constructor; lia].
  induction H; repeat constructor; (done || lia).
Qed.

Lemma doc_ascii :
  (forall v t, doc v t -> ascii t) /\ (forall l t, items l t -> ascii t) /\ (forall kvs t, pairs kvs t -> ascii t).
Proof.
  apply (doc_items_pairs_ind (fun v t _ => ascii t) (fun l t _ => ascii t) (fun kvs t _ => ascii t)).
  1-3: by repeat constructor.
  { intros i Hi. destruct (int_text_shape i Hi) as (c & ds & -> & Hc & Hd). unfold isdigit in *. constructor; [lia|].
    eapply list.Forall_impl; [exact Hd|]. cbn. lia. }
  { intros s t. apply quoted_ascii. }
  all: intros; unfold ascii; repeat first
    [apply list.Forall_app; split | apply list.Forall_cons; split; [lia|] | apply spaces_ascii; assumption
    | eapply quoted_ascii; eassumption | assumption | constructor].
Qed.

Lemma doc_unique v v' t : doc v t -> doc v' t -> v = v'.
Proof.
  intros H H'. pose proof (proj1 doc_ascii v t H) as Ht.
  assert (nonul (t ++ [32])) as Hn.
  { apply list.Forall_app. split; [|by repeat constructor]. eapply list.Forall_impl; [exact Ht|]. cbn. lia. }
  assert (bytes (t ++ [32])) as Hb.
  { apply list.Forall_app. split; [|repeat constructor; unfold is_u8; lia]. eapply list.Forall_impl; [exact Ht|]. unfold is_u8. cbn. lia. }
  set (w := StringInput (t ++ [32])). set (alloc := fun n => Some (repeat 0 (Z.to_nat n))).
  set (calls := S (tries w + length (stream w))).
  assert (forall v, doc v t -> exists r, json_parse calls JUndefined w (charbuf_init 2 alloc) (3 * length t + 3) = Some (1, v, r.1, r.2)) as Hd.
  { intros u Hu. destruct (json_parse_ok calls w 2 alloc u t [] [32] (3 * length t + 3)) as (s1 & r & _ & _ & w' & b' & E & _).
    - lia.
    - intros n Hn'. eexists. split; [done|]. rewrite repeat_length. lia.
    - by apply until_nul_id.
    - cbn. by rewrite until_nul_id.
    - unfold calls. lia.
    - done.
    - constructor.
    - assert (exists y ys, [32] = y :: ys /\ delimiter y = true) by by exists 32, []. by destruct u.
    - lia.
    - by exists (w', b'). }
  destruct (Hd v H) as [r E], (Hd v' H') as [r' E']. rewrite E in E'. by injection E'.
Qed.

(** * Properties *)

(** C9: The parser reads every document of the grammar: words, integers,
    strings with backslashes, arrays and objects with spaces anywhere between
    their tokens.  From a device that does not fail, however its reads are cut
    short, with any spaces before the document and a delimiter behind it where
    it is a word or a number, the parser ends, answers that there is a value,
    and it is the value of the document; what is left of the input is what
    stands behind the document, without some of the spaces there.  No text has
    two values. *)
Theorem json_parse_grammar (W : Type) `{RL : ReaderLaws W, CL : !ClearLaw W, Q : !Quiet W} (calls : nat) (w : W)
    (lookahead : Z) (alloc : Z -> option (list Z)) (v : json) (t s rest : list Z) (fuel : nat) :
  0 < lookahead <= 4088 -> (forall n, 0 < n -> exists x, alloc n = Some x /\ Z.of_nat (length x) = n) ->
  stream w = s ++ t ++ rest -> bytes (stream w) -> (tries w + length (stream w) < calls)%nat ->
  doc v t -> spaces s -> ends v rest -> (3 * length t + 3 <= fuel)%nat ->
  (exists w' b' s', json_parse calls JUndefined w (charbuf_init lookahead alloc) fuel = Some (1, v, w', b') /\
    rest = s' ++ view w' b' /\ spaces s') /\
  (forall v', doc v' t -> v' = v).
Proof.
  intros Hl Ha Hs Hb Hf Hd Hsp He Hfuel. split.
  - destruct (json_parse_ok calls w lookahead alloc v t s rest fuel Hl Ha Hs Hb Hf Hd Hsp He Hfuel)
      as (s' & r & -> & Hs' & w' & b' & E & H & _).
    exists w', b', s'. by rewrite (g_view _ _ _ _ H).
  - intros v' Hd'. exact (doc_unique v' v t Hd' Hd).
Qed.

(** Nested values, spaces and an escaped quote. *)
Definition sample : list Z := dq (lit " {'a' : [1,-2, true],'b':'x\'y'} ").

Lemma json_parse_grammar_witness :
  exists w' b' s', json_parse 100 JUndefined (StringInput sample) (charbuf_init 2 (fun n => Some (repeat 0 (Z.to_nat n)))) 100 =
    Some (1, JObject (Some [(lit "a", JArray [JInt 1; JInt (-2); JBool true]); (lit "b", JString (dq (lit "x'y")))]), w', b') /\
    lit " " = s' ++ view w' b' /\ spaces s'.
Proof.
  refine (proj1 (json_parse_grammar string_input 100 (StringInput sample) 2 (fun n => Some (repeat 0 (Z.to_nat n)))
    _ (dq (lit "{'a' : [1,-2, true],'b':'x\'y'}")) (lit " ") (lit " ") 100 _ _ _ _ _ _ _ _ _)).
  - lia.
  - intros n Hn. eexists. split; [done|]. rewrite repeat_length. lia.
  - reflexivity.
  - unfold bytes, is_u8. vm_compute. repeat constructor; discriminate.
  - vm_compute. lia.
  - apply (doc_object [] [(lit "a", _); (lit "b", _)] (dq (lit "'a' : [1,-2, true],'b':'x\'y'"))); [constructor|].
    apply (pairs_next (lit "a") _ (dq (lit "'a'")) (lit " ") (lit " ") (lit "[1,-2, true]") [] [] [(lit "b", _)] (dq (lit "'b':'x\'y'")));
      try (by repeat constructor); [by exists (lit "a"); split; [|repeat constructor]| |].
    + apply (doc_array [] [_; _; _] (lit "1,-2, true")); [constructor|].
      apply (items_next _ (lit "1") [] []); [by apply (doc_int 1)|constructor..|].
      apply (items_next _ (lit "-2") [] (lit " ")); [by apply (doc_int (-2))|by repeat constructor..|].
      apply (items_last _ (lit "true") []); constructor.
    + apply (pairs_last (lit "b") _ (dq (lit "'b'")) [] [] (dq (lit "'x\'y'")) []); try (by repeat constructor);
        [by exists (lit "b"); split; [|repeat constructor]|].
      constructor. exists (dq (lit "x\'y")). split; [done|]. apply chars_plain; [done..|]. apply chars_escape; [done|].
      by repeat constructor.
  - by repeat constructor.
  - done.
  - vm_compute. lia.
Defined.
