(* ===== verification/JsonPrint.v ===== *)
(** What the printer of [lib/json/] writes: the text as a function of the value
    and the printer, that [json_print] puts exactly this text into the output
    buffer, and that the text is a document of the grammar of JsonParse.v, so
    that the parser reads the value back. *)
From S2P Require Import Prelude ByteOps StrOps Digits FmtNum Num Utf8 Memory Stralloc Heap Chain Hmap HmapDict Buffer Charbuf Json JsonParse.

(** * Text *)

Definition sep_text (s : list Z) (fmt : jsonfmt) : list Z :=
  s ++ if bool_decide (10 ∈ s) then concat (replicate (Z.to_nat (f_depth fmt)) (f_indent fmt)) else [].

Definition quote_text (quote : Z) : list Z := if negb (quote =? 0) then [quote] else [].

Definition key_quote (key : list Z) (fmt : jsonfmt) : Z :=
  if f_compliant fmt then 34 else
  if negb (isdigit (default 0 (head key))) && byte_fullfils_predicate key json_is_identifier_char
  then f_quote1 fmt else f_quote0 fmt.
Definition key_text (key : list Z) (fmt : jsonfmt) : list Z :=
  quote_text (key_quote key fmt) ++ key ++ quote_text (key_quote key fmt).

(** A character with its escape, for quotes and backslashes that are bytes below
    128. *)
Definition hex_text (n : Z) : Z := default 0 (lit "0123456789abcdef" !! Z.to_nat n).
Definition escape_text (c : Z) : list Z :=
  match c with
  | 8 => lit "\b"
  | 10 => lit "\n"
  | 13 => lit "\r"
  | 34 | 47 | 92 => ["\"%C; c]
  | _ => lit "\u00" ++ [hex_text (c / 16); hex_text (c mod 16)]
  end.

Fixpoint chars_text (quote : Z) (x : list Z) : list Z :=
  match x with
  | [] => []
  | c :: x =>
      (if (c =? quote) || (c =? "\"%C) && negb (bool_decide (head x = Some "u"%C)) then escape_text c else [c])
      ++ chars_text quote x
  end.
Definition str_text (x : list Z) (fmt : jsonfmt) : list Z :=
  quote_text (f_quote0 fmt) ++ chars_text (f_quote0 fmt) x ++ quote_text (f_quote0 fmt).

Section containers.
Context (text : json -> list Z) (p : json_print_fn) (depth : Z).

Fixpoint items_text (val : json) (l : list json) (index : Z) : list Z :=
  match l with
  | [] => []
  | x :: l =>
      let fmt := p (Some val) (depth + 1) index 0 in
      (if 0 <? index then sep_text (f_separat fmt) fmt else []) ++ text x ++ items_text val l (index + 1)
  end.

Fixpoint pairs_text (d : members) (fmt : jsonfmt) (index : Z) : list Z :=
  match d with
  | [] => []
  | (key, value) :: d =>
      let next := p None (depth + 1) (index + 1) 0 in
      sep_text (if index =? 0 then f_newline fmt else f_separat fmt) fmt ++ key_text key next ++ lit ":" ++
      sep_text (f_spacing next) next ++ text value ++ pairs_text d next (index + 1)
  end.

Definition array_text (l : list json) : list Z :=
  let at_index := fun i => p (Some (JArray l)) (depth + 1) i 0 in
  match l with
  | [] => lit "[]"
  | _ => lit "[" ++ sep_text (f_newline (at_index 0)) (at_index 0) ++ items_text (JArray l) l 0 ++
         sep_text (f_newline (at_index (-2))) (at_index (-2)) ++ lit "]"
  end.

Definition object_text (d : option members) : list Z :=
  let at_index := fun i => p (Some (JObject d)) (depth + 1) i 0 in
  match d with
  | None => lit "null"
  | Some d => lit "{" ++ pairs_text d (at_index 0) 0 ++ sep_text (f_newline (at_index (-2))) (at_index (-2)) ++ lit "}"
  end.
End containers.

Fixpoint val_text (p : json_print_fn) (v : json) (depth : Z) : list Z :=
  match v with
  | JNull => lit "null"
  | JBool x => if x then lit "true" else lit "false"
  | JInt i => int_text i
  | JString s => str_text s (p (Some v) depth 0 0)
  | JArray l => array_text (fun x => val_text p x (depth + 1)) p depth l
  | JObject d => object_text (fun x => val_text p x (depth + 1)) p depth d
  | _ => []
  end.

(** What can be printed: no doubles (they are not modelled), no value without a
    type, no NUL in a string, and not the smallest integer. *)
Fixpoint printable (v : json) : bool :=
  match v with
  | JDouble _ | JUnset _ => false
  | JInt i => (- 2 ^ 63 <? i) && (i <? 2 ^ 63)
  | JString s => forallb (fun c => negb (c =? 0)) s
  | JArray l => forallb printable l
  | JObject (Some d) => forallb (fun kv => printable kv.2) d
  | _ => true
  end.

Lemma json_nested (P : json -> Prop) :
  (forall v, match v with JArray _ | JObject (Some _) => False | _ => True end -> P v) ->
  (forall l, Forall P l -> P (JArray l)) -> (forall d, Forall (fun kv => P kv.2) d -> P (JObject (Some d))) ->
  forall v, P v.
Proof.
  intros Hs Ha Ho. fix IH 1. intros [| | | | | |l|[d|]|]; try (by apply Hs).
  - apply Ha. induction l as [|x l IHl]; constructor; [apply IH|exact IHl].
  - apply Ho. induction d as [|[k x] d IHd]; constructor; [apply IH|exact IHd].
Qed.

(** * Writing *)

Section writing.
Context {W : Type} `{WL : WriterLaws W} (calls : nat).

(** ** The text that is put in *)

(** The buffer is in order and the fuel covers texts up to [n] bytes. *)
Definition room (w : W) (b : buffer) (n : nat) : Prop := wf_out b /\ (patience w + Z.to_nat (buf_a b) + n < calls)%nat.

(** The routine ends, and unless a write has failed the text is put in. *)
Definition says (w : W) (b : buffer) (t : list Z) (res : option (W * buffer)) : Prop :=
  exists w' b', res = Some (w', b') /\ write_faults w <= write_faults w' /\
    (write_faults w' = write_faults w -> emitted w' b' = emitted w b ++ t) /\ forall n, room w b n -> room w' b' n.

Lemma says_emits (w : W) b t res : emits w b t res -> says w b t (put res).
Proof.
  intros (r & w' & b' & -> & Hw & Ha & Hp & Hor). exists w', b'. split; [done|].
  split; [by destruct Hor as [(_ & -> & _)|(_ & ? & _)]; lia|].
  split; [intros Hf; by destruct Hor as [(_ & _ & ?)|(_ & ? & _)]; [|lia]|]. intros n [_ Hn]. split; [done|]. rewrite Ha. lia.
Qed.

Lemma says_nil (w : W) b : says w b [] (Some (w, b)).
Proof. exists w, b. rewrite app_nil_r. by split. Qed.

Lemma says_bind (w : W) b t1 t2 n res (k : W -> buffer -> option (W * buffer)) :
  room w b n -> says w b t1 res -> (forall w' b', room w' b' n -> says w' b' t2 (k w' b')) ->
  says w b (t1 ++ t2) ('(w, b) ← res; k w b).
Proof.
  intros Hr (w1 & b1 & -> & F1 & E1 & R1) Hk. destruct (Hk w1 b1 (R1 n Hr)) as (w2 & b2 & E & F2 & E2 & R2).
  exists w2, b2. cbn [mbind option_bind]. split; [done|]. split; [lia|].
  split; [intros Hf; rewrite E2, E1, app_assoc by lia; done|]. intros m Hm. by apply R2, R1.
Qed.

Lemma says_put (w : W) b buf n : room w b n -> (length buf <= n)%nat -> says w b buf (put (buffer_put calls w b buf)).
Proof. intros [Hw Hc] Hn. apply says_emits, put_ok; [done|lia]. Qed.

Lemma says_putc (w : W) b c n : room w b n -> (1 <= n)%nat -> says w b [c] (put (buffer_putc calls w b c)).
Proof. intros [Hw Hc] Hn. apply says_emits, putc_ok; [done|lia]. Qed.

Lemma says_puts (w : W) b s n : room w b n -> nonul s -> (length s <= n)%nat -> says w b s (put (buffer_puts calls w b (cstr s))).
Proof.
  intros [Hw Hc] Hs Hn. rewrite <- (app_nil_r (cstr s)). apply says_emits, puts_ok; [done|done|lia].
Qed.

Lemma says_putns (w : W) b s k n : room w b n -> nonul s -> (length (concat (replicate (Z.to_nat k) s)) <= n)%nat ->
  says w b (concat (replicate (Z.to_nat k) s)) (put (buffer_putns calls w b (cstr s) k)).
Proof.
  intros [Hw Hc] Hs Hn. unfold buffer_putns. assert (str_len (cstr s) = Some (length s)) as -> by exact (str_len_spec s [] Hs).
  cbn [mbind option_bind]. assert (take (length s) (cstr s) = s) as -> by apply take_app_length.
  destruct (Z.to_nat k) as [|m]; [apply says_nil|]. apply says_emits, put_times_ok; [done|]. cbn [replicate concat] in Hn. rewrite length_app in Hn. lia.
Qed.

(** The escapes are those of the text. *)
Lemma escape_text_ok (quote c : Z) : 0 <= quote < 128 -> c = quote \/ c = "\"%C -> fmt_escapecharjson c quote = escape_text c.
Proof.
  intros Hq Hc.
  assert (forallb (fun q => bool_decide (fmt_escapecharjson q q = escape_text q)) (seqZ 0 128) = true) as H1 by by vm_compute.
  rewrite forallb_forall in H1. destruct Hc as [->| ->].
  { apply (bool_decide_eq_true_1 _), H1, list_elem_of_In, elem_of_seqZ. lia. }
  unfold fmt_escapecharjson. destruct (_ && _ : bool) eqn:E; [|done]. by rewrite andb_false_r in E.
Qed.

(** The strings of a printer are terminated, and its quote is a byte below 128,
    or 0 for none. *)
Definition fmt_ok (fmt : jsonfmt) : Prop :=
  nonul (f_indent fmt) /\ nonul (f_newline fmt) /\ nonul (f_spacing fmt) /\ nonul (f_separat fmt) /\ 0 <= f_quote0 fmt < 128.

Lemma says_separator (w : W) b s fmt n : room w b n -> nonul s -> fmt_ok fmt -> (length (sep_text s fmt) <= n)%nat ->
  says w b (sep_text s fmt) (json_print_separator calls s fmt w b).
Proof.
  intros Hr Hs Hf Hn. unfold json_print_separator, sep_text in *. rewrite length_app in Hn.
  apply (says_bind _ _ _ _ n); [done|apply (says_puts _ _ _ n); [done..|lia]|].
  intros w' b' Hr'. case_bool_decide; [|apply says_nil]. apply (says_putns _ _ _ _ n); [done|apply Hf|lia].
Qed.

Lemma says_quote (w : W) b q n : room w b n -> (length (quote_text q) <= n)%nat ->
  says w b (quote_text q) (if negb (q =? 0) then put (buffer_putc calls w b q) else Some (w, b)).
Proof. intros Hr Hn. unfold quote_text in *. destruct (negb _); [by apply (says_putc _ _ _ n)|apply says_nil]. Qed.

Lemma says_key (w : W) b key fmt n : room w b n -> (length (key_text key fmt) <= n)%nat ->
  says w b (key_text key fmt) (json_print_key calls key fmt w b).
Proof.
  intros Hr Hn. unfold key_text in *. rewrite !length_app in Hn.
  change (json_print_key calls key fmt w b) with
    ('(w, b) ← (if negb (key_quote key fmt =? 0) then put (buffer_putc calls w b (key_quote key fmt)) else Some (w, b));
     '(w, b) ← put (buffer_put calls w b key);
     if negb (key_quote key fmt =? 0) then put (buffer_putc calls w b (key_quote key fmt)) else Some (w, b)).
  apply (says_bind _ _ _ _ n); [done|apply (says_quote _ _ _ n); [done|lia]|]. intros w1 b1 Hr1.
  apply (says_bind _ _ _ _ n); [done|apply (says_put _ _ _ n); [done|lia]|]. intros w2 b2 Hr2.
  apply (says_quote _ _ _ n); [done|lia].
Qed.

Lemma says_chars (quote : Z) (x : list Z) : forall (w : W) b n, 
  0 <= quote < 128 -> room w b n -> forallb (fun c => negb (c =? 0)) x = true ->
  (length (chars_text quote x) <= n)%nat -> says w b (chars_text quote x) (print_chars calls quote x w b).
Proof.
  induction x as [|c x IH]; intros w b n Hq Hr Hx Hn; [apply says_nil|]. cbn [forallb] in Hx. apply andb_true_iff in Hx as [Hc Hx].
  cbn [print_chars chars_text] in *. rewrite length_app in Hn. destruct (c =? 0); [done|].
  apply (says_bind _ _ _ _ n); [done| |].
  - destruct (_ || _) eqn:E; [rewrite escape_text_ok by (done || lia); apply (says_put _ _ _ n); [done|lia]|apply (says_putc _ _ _ n); [done|cbn in Hn; lia]].
  - intros w' b' Hr'. apply (IH _ _ n); [done|done|done|lia].
Qed.

Lemma says_str (w : W) b x fmt n : fmt_ok fmt -> room w b n -> forallb (fun c => negb (c =? 0)) x = true ->
  (length (str_text x fmt) <= n)%nat -> says w b (str_text x fmt) (json_print_str calls x fmt w b).
Proof.
  intros (_ & _ & _ & _ & Hq) Hr Hx Hn. unfold str_text, json_print_str in *. rewrite !length_app in Hn.
  apply (says_bind _ _ _ _ n); [done|apply (says_quote _ _ _ n); [done|lia]|]. intros w1 b1 Hr1.
  apply (says_bind _ _ _ _ n); [done|apply (says_chars _ _ _ _ n); [done|done|done|lia]|]. intros w2 b2 Hr2.
  apply (says_quote _ _ _ n); [done|lia].
Qed.

Lemma says_int (w : W) b i n : room w b n -> - 2 ^ 63 < i < 2 ^ 63 -> (length (int_text i) <= n)%nat ->
  says w b (int_text i) (put (buffer_putlonglong calls w b i)).
Proof.
  intros Hr Hi Hn. unfold buffer_putlonglong. assert (exists m, fmt_longlong true i = Some (int_text i, m)) as (m & ->).
  { change (fmt_longlong true i) with (fmt_long true i). rewrite fmt_long_num by lia. unfold int_text, num_out.
    destruct (i <? 0); by eexists. }
  cbn [mbind option_bind]. by apply (says_put _ _ _ n).
Qed.

(** ** Values *)

Context (p : json_print_fn) (Hp : forall v d i q, fmt_ok (p v d i q)).

(** [v] is printed as its text at [depth]. *)
Definition prints (v : json) (depth : Z) : Prop := forall (w : W) b n,
  room w b n -> (length (val_text p v depth) <= n)%nat -> says w b (val_text p v depth) (json_print_val calls p v depth w b).

Lemma says_items (val : json) (depth : Z) (l : list json) : forall index (w : W) b n,
  Forall (fun x => prints x (depth + 1)) l -> room w b n ->
  (length (items_text (fun x => val_text p x (depth + 1)) p depth val l index) <= n)%nat ->
  says w b (items_text (fun x => val_text p x (depth + 1)) p depth val l index)
    (print_items calls (fun x => json_print_val calls p x (depth + 1)) p val depth l index w b).
Proof.
  induction l as [|x l IH]; intros index w b n Hl Hr Hn; [apply says_nil|].
  apply list.Forall_cons in Hl as [Hx Hl]. cbn [items_text print_items] in *. rewrite !length_app in Hn.
  apply (says_bind _ _ _ _ n); [done| |].
  - destruct (0 <? index); [|apply says_nil]. apply (says_separator _ _ _ _ n); [done|apply Hp|apply Hp|lia].
  - intros w1 b1 Hr1. apply (says_bind _ _ _ _ n); [done|apply (Hx _ _ n); [done|lia]|].
    intros w2 b2 Hr2. apply (IH _ _ _ n); [done|done|lia].
Qed.

Lemma says_pairs (depth : Z) (d : members) : forall fmt index (w : W) b n,
  Forall (fun kv => prints kv.2 (depth + 1)) d -> fmt_ok fmt -> room w b n ->
  (length (pairs_text (fun x => val_text p x (depth + 1)) p depth d fmt index) <= n)%nat ->
  says w b (pairs_text (fun x => val_text p x (depth + 1)) p depth d fmt index)
    (print_pairs calls (fun x => json_print_val calls p x (depth + 1)) p depth d fmt index w b).
Proof.
  induction d as [|[k x] d IH]; intros fmt index w b n Hl Hfmt Hr Hn; [apply says_nil|].
  apply list.Forall_cons in Hl as [Hx Hl]. cbn [pairs_text print_pairs] in *. rewrite !length_app in Hn.
  apply (says_bind _ _ _ _ n); [done| |].
  - apply (says_separator _ _ _ _ n); [done|destruct (index =? 0); apply Hfmt|done|lia].
  - intros w1 b1 Hr1. apply (says_bind _ _ _ _ n); [done|apply (says_key _ _ _ _ n); [done|lia]|].
    intros w2 b2 Hr2. apply (says_bind _ _ _ _ n); [done|apply (says_puts _ _ _ n); [done|by repeat constructor|cbn in *; lia]|].
    intros w3 b3 Hr3. apply (says_bind _ _ _ _ n); [done|apply (says_separator _ _ _ _ n); [done|apply Hp|apply Hp|lia]|].
    intros w4 b4 Hr4. apply (says_bind _ _ _ _ n); [done|apply (Hx _ _ n); [done|cbn [snd]; lia]|].
    intros w5 b5 Hr5. apply (IH _ _ _ _ n); [done|apply Hp|done|lia].
Qed.

Lemma prints_array l depth : Forall (fun x => prints x (depth + 1)) l -> prints (JArray l) depth.
Proof.
  intros Hl w b n Hr Hn. cbn [val_text json_print_val] in *. unfold array_text, json_print_array in *. destruct l as [|x l].
  - change (lit "[]") with (lit "[" ++ lit "]") in *. rewrite length_app in Hn.
    apply (says_bind _ _ _ _ n); [done|apply (says_puts _ _ _ n); [done|by repeat constructor|lia]|].
    intros w1 b1 Hr1. apply (says_puts _ _ _ n); [done|by repeat constructor|lia].
  - rewrite !length_app in Hn.
    apply (says_bind _ _ _ _ n); [done|apply (says_puts _ _ _ n); [done|by repeat constructor|lia]|]. intros w1 b1 Hr1.
    apply (says_bind _ _ _ _ n); [done|apply (says_separator _ _ _ _ n); [done|apply Hp|apply Hp|lia]|]. intros w2 b2 Hr2.
    apply (says_bind _ _ _ _ n); [done|apply (says_items _ _ _ _ _ _ n); [done|done|lia]|]. intros w3 b3 Hr3.
    apply (says_bind _ _ _ _ n); [done|apply (says_separator _ _ _ _ n); [done|apply Hp|apply Hp|lia]|]. intros w4 b4 Hr4.
    apply (says_puts _ _ _ n); [done|by repeat constructor|lia].
Qed.

Lemma prints_object d depth : Forall (fun kv => prints kv.2 (depth + 1)) d -> prints (JObject (Some d)) depth.
Proof.
  intros Hl w b n Hr Hn. cbn [val_text json_print_val] in *. unfold object_text, json_print_object in *. rewrite !length_app in Hn.
  apply (says_bind _ _ _ _ n); [done|apply (says_puts _ _ _ n); [done|by repeat constructor|lia]|]. intros w1 b1 Hr1.
  apply (says_bind _ _ _ _ n); [done|apply (says_pairs _ _ _ _ _ _ n); [done|apply Hp|done|lia]|]. intros w2 b2 Hr2.
  apply (says_bind _ _ _ _ n); [done|apply (says_separator _ _ _ _ n); [done|apply Hp|apply Hp|lia]|]. intros w3 b3 Hr3.
  apply (says_puts _ _ _ n); [done|by repeat constructor|lia].
Qed.

Lemma prints_all v : printable v = true -> forall depth, prints v depth.
Proof.
  induction v as [v Hs|l IH|d IH] using json_nested; intros Hv depth.
  - intros w b n Hr Hn. destruct v as [| |x|i| |s|l|[d|]|t]; try done; cbn [val_text json_print_val] in *.
    + apply says_nil.
    + by apply (says_puts _ _ _ n); [|by repeat constructor|].
    + destruct x; by apply (says_puts _ _ _ n); [|by repeat constructor|].
    + apply (says_int _ _ _ n); [done| |done]. cbn [printable] in Hv. lia.
    + apply (says_str _ _ _ _ n); [apply Hp|done..].
    + by apply (says_puts _ _ _ n); [|by repeat constructor|].
  - apply prints_array. cbn [printable] in Hv. rewrite forallb_forall in Hv. rewrite Forall_forall in IH |- *.
    intros x Hx. apply IH; [done|]. by apply Hv.
  - apply prints_object. cbn [printable] in Hv. rewrite forallb_forall in Hv. rewrite Forall_forall in IH |- *.
    intros x Hx. apply IH; [done|]. by apply Hv.
Qed.

(** The document and a newline: all of it is written unless a write fails. *)
Lemma json_print_ok (w : W) b v :
  printable v = true -> room w b (length (val_text p v 0) + length (f_newline (p (Some v) 0 (-1) 34))) ->
  exists w' b', json_print calls v w b (Some p) = Some (w', b') /\ write_faults w <= write_faults w' /\
    (write_faults w' = write_faults w ->
     buf_p b' = 0 /\ sent w' = emitted w b ++ val_text p v 0 ++ f_newline (p (Some v) 0 (-1) 34)).
Proof.
  intros Hv Hr. set (n := (_ + _)%nat) in Hr. unfold json_print. cbn [default id].
  destruct (prints_all v Hv 0 w b n Hr) as (w1 & b1 & -> & F1 & E1 & R1); [lia|]. cbn [mbind option_bind].
  destruct (says_puts w1 b1 (f_newline (p (Some v) 0 (-1) 34)) n (R1 n Hr)) as (w2 & b2 & -> & F2 & E2 & R2); [apply Hp|lia|].
  cbn [mbind option_bind]. destruct (R2 n (R1 n Hr)) as [Hw2 Hc2].
  destruct (flush_ok calls w2 b2 Hw2) as (r & w3 & b3 & E & _ & _ & Hp3 & _ & Hor); [lia|].
  rewrite E. exists w3, b3. split; [done|]. destruct Hor as [(_ & F3 & E3)|(_ & F3 & _)]; (split; [lia|]); intros Hf; [|lia].
  split; [done|]. rewrite E3, E2, E1, app_assoc by lia. done.
Qed.
End writing.

(** * The text is a document *)

(** Printers whose strings are spaces but for the comma, with double quotes. *)
Definition plain_fmt (fmt : jsonfmt) : Prop :=
  f_quote0 fmt = 34 /\ f_compliant fmt = true /\ spaces (f_indent fmt) /\ spaces (f_newline fmt) /\ spaces (f_spacing fmt) /\
  exists s, f_separat fmt = ","%C :: s /\ spaces s.

(** Strings that survive: ASCII, and no backslash in front of a [u]. *)
Fixpoint no_unicode (s : list Z) : bool :=
  match s with
  | [] => true
  | c :: s => negb ((c =? "\"%C) && bool_decide (head s = Some "u"%C)) && no_unicode s
  end.
Definition is_ascii (s : list Z) : bool := forallb (fun c => (1 <=? c) && (c <? 128)) s.
Definition plain_key (k : list Z) : bool :=
  is_ascii k && forallb (fun c => negb (c =? 34) && negb (c =? "\"%C)) k && negb (length k =? 0)%nat && key_fits k.

(** The values that are read back. *)
Fixpoint readable (v : json) : bool :=
  match v with
  | JNull | JBool _ => true
  | JInt i => (- 2 ^ 63 <? i) && (i <? 2 ^ 63)
  | JString s => is_ascii s && no_unicode s
  | JArray l => negb (length l =? 0)%nat && forallb readable l
  | JObject (Some d) => forallb (fun kv => plain_key kv.1 && readable kv.2) d && bool_decide (NoDup d.*1)
  | _ => false
  end.

Lemma spaces_app s t : spaces s -> spaces t -> spaces (s ++ t).
Proof. intros. by apply list.Forall_app. Qed.

Lemma sep_spaces fmt s : plain_fmt fmt -> spaces s -> spaces (sep_text s fmt).
Proof.
  intros (_ & _ & Hi & _) Hs. unfold sep_text. apply spaces_app; [done|]. case_bool_decide; [|constructor].
  induction (Z.to_nat (f_depth fmt)) as [|n IH]; [constructor|]. by apply spaces_app.
Qed.

Lemma sep_comma fmt : plain_fmt fmt -> exists s, sep_text (f_separat fmt) fmt = ","%C :: s /\ spaces s.
Proof.
  intros Hf. pose proof Hf as (_ & _ & Hi & _ & _ & s & -> & Hs). unfold sep_text. eexists. split; [done|].
  apply spaces_app; [done|]. case_bool_decide; [|constructor].
  induction (Z.to_nat (f_depth fmt)) as [|n IH]; [constructor|]. by apply spaces_app.
Qed.

Lemma chars_doc s : is_ascii s = true -> no_unicode s = true -> chars s (chars_text 34 s).
Proof.
  induction s as [|c s IH]; intros Ha Hu; [constructor|]. cbn [is_ascii forallb no_unicode chars_text] in *.
  apply andb_true_iff in Ha as [Hc Ha]. apply andb_true_iff in Hu as [Hcu Hu].
  destruct (Z.eqb_spec c 34) as [->|Hq]; cbn [orb]; [apply (chars_escape 34); [done|by apply IH]|].
  destruct (Z.eqb_spec c "\"%C) as [->|Hb]; cbn [andb orb negb] in *; [|apply chars_plain; [lia|done|done|by apply IH]].
  rewrite Hcu. apply (chars_escape "\"%C); [done|by apply IH].
Qed.

Lemma key_doc k fmt : plain_fmt fmt -> plain_key k = true -> quoted k (key_text k fmt) /\ k <> [] /\ key_fits k = true.
Proof.
  intros (_ & Hc & _) Hk. unfold plain_key in Hk. rewrite !andb_true_iff in Hk. destruct Hk as [[[Ha Hq] H0] Hf].
  split; [|split; [by intros ->|done]]. unfold key_text, key_quote. rewrite Hc. exists k. split; [done|]. clear H0 Hf.
  induction k as [|c k IH]; [constructor|]. cbn [is_ascii forallb] in *. apply andb_true_iff in Ha as [H1 Ha].
  apply andb_true_iff in Hq as [H2 Hq]. apply chars_plain; [lia|lia|lia|]. by apply IH.
Qed.

Lemma str_doc s fmt : plain_fmt fmt -> is_ascii s && no_unicode s = true -> quoted s (str_text s fmt).
Proof.
  intros (Hq & _) [Ha Hu]%andb_true_iff. unfold str_text. rewrite Hq. exists (chars_text 34 s). split; [done|].
  by apply chars_doc.
Qed.

(** The members of a dictionary are put where they stand. *)
Lemma dict_put_end {A} k (x : A) d : k ∉ d.*1 -> dict_put k x d = d ++ [(k, x)].
Proof.
  induction d as [|[k' y] d IH]; intros Hk; [done|]. cbn [fmap list_fmap fst] in Hk. apply not_elem_of_cons in Hk as [Hne Hk].
  cbn [dict_put fst]. rewrite decide_False by done. by rewrite IH.
Qed.

Lemma put_all_same (d : members) : NoDup d.*1 -> put_all d = d.
Proof.
  unfold put_all. cut (forall acc : members, NoDup (acc ++ d).*1 -> foldl (fun d kv => dict_put kv.1 kv.2 d) acc d = acc ++ d).
  { intros H. exact (H []). }
  induction d as [|[k x] d IH]; intros acc Hn; [by rewrite app_nil_r|]. cbn [foldl fst snd].
  rewrite dict_put_end.
  - rewrite IH; [by rewrite <- app_assoc|]. by rewrite <- app_assoc.
  - rewrite fmap_app in Hn. cbn in Hn. apply list.NoDup_app in Hn as (_ & Hd & _). intros Hk. apply (Hd k Hk). apply list_elem_of_here.
Qed.

Section document.
Context (p : json_print_fn) (Hp : forall v d i q, plain_fmt (p v d i q)).

Definition is_doc (v : json) (depth : Z) : Prop := doc v (val_text p v depth).

Lemma items_doc val depth (l : list json) tl : spaces tl -> forall index,
  0 <= index -> l <> [] -> Forall (fun x => is_doc x (depth + 1)) l ->
  exists pre u, items_text (fun x => val_text p x (depth + 1)) p depth val l index ++ tl = pre ++ u /\ items l u /\
    if 0 <? index then exists s, pre = ","%C :: s /\ spaces s else pre = [].
Proof.
  intros Ht. induction l as [|x l IH]; intros index Hi Hne Hl; [done|]. apply list.Forall_cons in Hl as [Hx Hl]. cbn [items_text].
  set (pre := if 0 <? index then _ else _).
  assert (if 0 <? index then exists s, pre = ","%C :: s /\ spaces s else pre = []) as Hpre.
  { unfold pre. destruct (0 <? index); [apply sep_comma, Hp|done]. }
  destruct l as [|y l].
  - exists pre. eexists. split; [by rewrite <- !app_assoc|]. split; [|done]. cbn [items_text app]. by apply items_last.
  - destruct (IH (index + 1)) as (pre' & u & E & Hu & Hpre'); [lia|done|done|]. replace (0 <? index + 1) with true in Hpre' by lia.
    destruct Hpre' as (s & -> & Hs). exists pre. eexists. split; [by rewrite <- !app_assoc, E|]. split; [|done].
    apply (items_next x _ [] s); [done|constructor|done|done].
Qed.

Lemma pairs_doc depth (d : members) tl : spaces tl -> forall fmt index,
  plain_fmt fmt -> d <> [] -> Forall (fun kv => plain_key kv.1 = true /\ is_doc kv.2 (depth + 1)) d -> 0 <= index ->
  exists pre u, pairs_text (fun x => val_text p x (depth + 1)) p depth d fmt index ++ tl = pre ++ u /\ pairs d u /\
    if index =? 0 then spaces pre else exists s, pre = ","%C :: s /\ spaces s.
Proof.
  intros Ht. induction d as [|[k x] d IH]; intros fmt index Hf Hne Hl Hi; [done|]. apply list.Forall_cons in Hl as [[Hk Hx] Hl].
  cbn [pairs_text fst snd] in *. set (next := p None (depth + 1) (index + 1) 0). pose proof (Hp None (depth + 1) (index + 1) 0) as Hnext.
  fold next in Hnext. destruct (key_doc k next Hnext Hk) as (Hq & Hk0 & Hkf).
  assert (spaces (sep_text (f_spacing next) next)) as Hsp by (apply sep_spaces; [done|apply Hnext]).
  set (pre := sep_text (if index =? 0 then f_newline fmt else f_separat fmt) fmt).
  assert (if index =? 0 then spaces pre else exists s, pre = ","%C :: s /\ spaces s) as Hpre.
  { unfold pre. destruct (index =? 0); [apply sep_spaces; [done|apply Hf]|by apply sep_comma]. }
  destruct d as [|e d].
  - exists pre. eexists. split; [by rewrite <- !app_assoc|]. split; [|done]. cbn [pairs_text app].
    apply (pairs_last k x _ [] _ _ tl); (done || constructor).
  - destruct (IH next (index + 1)) as (pre' & u & E & Hu & Hpre'); [done|done|done|lia|]. replace (index + 1 =? 0) with false in Hpre' by lia.
    destruct Hpre' as (s & -> & Hs). exists pre. eexists. split; [by rewrite <- !app_assoc, E|]. split; [|done].
    apply (pairs_next k x _ [] _ _ [] s); (done || constructor).
Qed.

Lemma val_doc v : readable v = true -> forall depth, is_doc v depth.
Proof.
  induction v as [v Hs|l IH|d IH] using json_nested; intros Hv depth; unfold is_doc; cbn [val_text readable] in *.
  - destruct v as [| |[|]|i| |s|l|[d|]|t]; try done; cbn [val_text readable] in *; try constructor; [lia|].
    by apply str_doc.
  - apply andb_true_iff in Hv as [Hne Hv]. destruct l as [|x l]; [done|].
    assert (Forall (fun x => is_doc x (depth + 1)) (x :: l)) as Hl.
    { rewrite forallb_forall in Hv. rewrite Forall_forall in IH |- *. intros y Hy. apply IH; [done|]. by apply Hv. }
    unfold array_text. set (val := JArray (x :: l)). set (fmt := p (Some val) (depth + 1) (-2) 0).
    assert (plain_fmt fmt) as Hf by apply Hp. set (fmt0 := p (Some val) (depth + 1) 0 0). assert (plain_fmt fmt0) as Hf0 by apply Hp.
    destruct (items_doc val depth (x :: l) (sep_text (f_newline fmt) fmt)) with (index := 0) as (pre & u & E & Hu & Hpre);
      [apply sep_spaces; [done|apply Hf]|lia|done|done|]. cbn in Hpre. subst pre.
    rewrite (app_assoc (items_text _ _ _ _ _ _)), E. apply (doc_array _ _ u); [|done]. apply sep_spaces; [done|apply Hf0].
  - apply andb_true_iff in Hv as [Hv Hn]. apply bool_decide_eq_true in Hn.
    assert (Forall (fun kv => plain_key kv.1 = true /\ is_doc kv.2 (depth + 1)) d) as Hl.
    { rewrite forallb_forall in Hv. rewrite Forall_forall in IH |- *. intros kv Hkv. apply Hv in Hkv as Hk.
      apply andb_true_iff in Hk as [Hk Hr]. split; [done|]. by apply IH. }
    unfold object_text. set (val := JObject (Some d)). set (fmt := p (Some val) (depth + 1) (-2) 0).
    assert (plain_fmt fmt) as Hf by apply Hp. set (fmt0 := p (Some val) (depth + 1) 0 0). assert (plain_fmt fmt0) as Hf0 by apply Hp.
    assert (spaces (sep_text (f_newline fmt) fmt)) as Hsp by (apply sep_spaces; [done|apply Hf]).
    destruct d as [|e d].
    + by apply (doc_empty _ Hsp).
    + destruct (pairs_doc depth (e :: d) (sep_text (f_newline fmt) fmt) Hsp fmt0 0 Hf0) as (pre & u & E & Hu & Hpre);
        [done|done|lia|]. cbn in Hpre. rewrite (app_assoc (pairs_text _ _ _ _ _ _)), E, <- app_assoc.
      unfold val. rewrite <- (put_all_same (e :: d) Hn) at 1. by apply (doc_object pre (e :: d) u).
Qed.

Lemma readable_printable v : readable v = true -> printable v = true.
Proof.
  induction v as [v Hs|l IH|d IH] using json_nested; intros Hv; cbn [printable readable] in *.
  - destruct v as [| | | | |s| |[d|]|]; try done. cbn [printable readable] in *. apply andb_true_iff in Hv as [Ha _].
    unfold is_ascii in Ha. rewrite forallb_forall in Ha |- *. intros c Hc. specialize (Ha c Hc). lia.
  - apply andb_true_iff in Hv as [_ Hv]. rewrite forallb_forall in Hv |- *. rewrite Forall_forall in IH. intros x Hx.
    apply IH; [done|]. by apply Hv.
  - apply andb_true_iff in Hv as [Hv _]. rewrite forallb_forall in Hv |- *. rewrite Forall_forall in IH. intros x Hx.
    apply IH; [done|]. specialize (Hv x Hx). by apply andb_true_iff in Hv as [_ ?].
Qed.
End document.

Lemma spaces_nonul s : spaces s -> nonul s.
Proof. intros H. eapply list.Forall_impl; [exact H|]. unfold isspace. cbn. lia. Qed.

Lemma plain_ok fmt : plain_fmt fmt -> fmt_ok fmt.
Proof.
  intros (Hq & _ & Hi & Hn & Hs & s & E & Hc). split; [by apply spaces_nonul|]. split; [by apply spaces_nonul|].
  split; [by apply spaces_nonul|]. split; [|lia]. rewrite E. constructor; [lia|by apply spaces_nonul].
Qed.

Lemma ascii_bytes s : ascii s -> bytes s.
Proof. intros H. eapply list.Forall_impl; [exact H|]. unfold is_u8. cbn. lia. Qed.

(** * Properties *)

(** C35: [json_print] writes the text of the value: for every printer whose
    strings are terminated and whose quote is a character below 128 or none, and
    every value that is [printable] (no doubles, no values without a type, no
    zero byte in a string, not the smallest integer), it ends, however the
    writes are cut short, interrupted or failed, and unless one fails with
    another cause than an interruption, the device has got what was pending
    before and then the text of the value and the newline, nothing lost, doubled
    or reordered, and nothing is pending.  The text is defined apart from the
    code: brackets, separators with their indentation, quoted keys, and strings
    in which quotes and backslashes (but for one in front of a [u]) are replaced
    by their escapes. *)
Theorem json_print_text (W : Type) `{WL : WriterLaws W} (calls : nat) (p : json_print_fn) (v : json) (w : W) (b : buffer) :
  (forall v d i q, fmt_ok (p v d i q)) -> printable v = true -> wf_out b ->
  let text := val_text p v 0 ++ f_newline (p (Some v) 0 (-1) 34) in
  (patience w + Z.to_nat (buf_a b) + length text < calls)%nat ->
  exists w' b', json_print calls v w b (Some p) = Some (w', b') /\ write_faults w <= write_faults w' /\
    (write_faults w' = write_faults w -> buf_p b' = 0 /\ sent w' = (sent w ++ Buffer.pending b) ++ text).
Proof.
  intros Hp Hv Hw text Hf. apply json_print_ok; [done|done|]. split; [done|]. unfold text in Hf. rewrite length_app in Hf. lia.
Qed.


(** ** Examples *)

Lemma jsontest_fmt_ok v d i q : fmt_ok (jsontest_printer v d i q).
Proof. split_and!; try (by repeat constructor); cbn; lia. Qed.

Lemma jsontest_plain v d i q : plain_fmt (jsontest_printer v d i q).
Proof. split_and!; try (by repeat constructor). exists [10]. by repeat constructor. Qed.

Definition sample_value : json :=
  JObject (Some [(lit "list", JArray [JInt 1; JInt (-20); JBool false; JNull]); (lit "text", JString (dq (lit "it's \ ok")));
    (lit "none", JObject (Some []))]).
Definition sample_text : list Z :=
  dq (lit "{" ++ [10] ++ lit "  'list': [" ++ [10] ++ lit "    1," ++ [10] ++ lit "    -20," ++ [10] ++ lit "    false," ++ [10]
    ++ lit "    null" ++ [10] ++ lit "  ]," ++ [10] ++ lit "  'text': 'it\'s \\ ok'," ++ [10] ++ lit "  'none': {" ++ [10] ++ lit "  }"
    ++ [10] ++ lit "}" ++ [10]).

(** A device that takes few bytes at a time and is interrupted twice. *)
Definition slow_device : device := Device [3; 0; 1; 7; 0; 2] [] false.

Lemma json_print_text_witness :
  exists w' b', json_print 400 sample_value slow_device (buffer_init (repeat 0 16) 16) (Some jsontest_printer) = Some (w', b') /\
    buf_p b' = 0 /\ content w' = sample_text.
Proof.
  assert (wf_out (buffer_init (repeat 0 16) 16)) as Hw by (unfold wf_out; cbn; lia).
  destruct (json_print_text device 400 jsontest_printer sample_value slow_device (buffer_init (repeat 0 16) 16)
    jsontest_fmt_ok eq_refl Hw) as (w' & b' & E & _ & Hs); [vm_compute; lia|].
  assert (E' := E). vm_compute in E'. injection E' as <- <-.
  eexists _, _. split; [exact E|]. destruct Hs as [Hp Hs]; [vm_compute; reflexivity|]. split; [exact Hp|].
  etransitivity; [exact Hs|]. vm_compute. reflexivity.
Defined.

