(* ===== verification/Dns.v ===== *)
(** Domain names and DNS packets ([lib/dns/]): the compressed names of a packet,
    names with dots, the answers of a packet, and the generator that shuffles
    addresses.  A packet is the object that holds it and a length; a domain name
    is a list of labels with their lengths in front, up to an empty one.  The
    value of [errno] is not modelled. *)
From S2P Require Import Prelude ByteOps StrOps Pack Tai FmtNum Memory Stralloc.

(** * Domain names *)

(** [while((c = *x++)) x += c]: where [x] ends. *)
Fixpoint domain_end (dn : list Z) (x : nat) (fuel : nat) : option nat :=
  match fuel with
  | O => None
  | S fuel =>
      c ← load dn x;
      if c =? 0 then Some (S x) else domain_end dn (S x + Z.to_nat c) fuel
  end.

Definition dns_domain_length (dn : list Z) : option Z :=
  x ← domain_end dn 0 (S (length dn)); Some (u32 (Z.of_nat x)).

Definition dns_domain_free (m : mem) (out : option nat) : option (mem * option nat) :=
  match out with Some _ => m ← free m out; Some (m, None) | None => Some (m, None) end.

(** The length copied, or 0 when memory is refused. *)
Definition dns_domain_copy (m : mem) (out : option nat) (inp : ptr) : option (Z * mem * option nat) :=
  dn ← view m inp;
  len ← dns_domain_length dn;
  let '(x, m) := malloc m len in
  match x with
  | None => Some (0, m, out)
  | Some b => m ← mcopy m b 0 len inp; m ← free m out; Some (len, m, Some b)
  end.

Definition dns_domain_copysa (m : mem) (sa : stralloc) (inp : ptr) : option (Z * mem * stralloc) :=
  dn ← view m inp;
  len ← dns_domain_length dn;
  '(_, m, sa) ← stralloc_copyb m sa inp len;
  Some (len, m, sa).

Definition dns_domain_equal (dn1 dn2 : list Z) : option bool :=
  len ← dns_domain_length dn1;
  len2 ← dns_domain_length dn2;
  if negb (len =? len2) then Some false else
  d ← case_diffb dn1 (Z.to_nat len) dn2;
  Some (d =? 0).

Definition dns_domain_diff (dn1 dn2 : list Z) : option Z :=
  len1 ← dns_domain_length dn1;
  len2 ← dns_domain_length dn2;
  if len1 <? len2 then c ← load dn2 (Z.to_nat len1); Some (- c)
  else if len2 <? len1 then load dn1 (Z.to_nat len2)
  else case_diffb dn1 (Z.to_nat len1) dn2.

(** The names that [big] ends with: the place of the one equal to [little]. *)
Fixpoint suffix_loop (big little : list Z) (pos : nat) (fuel : nat) : option (option nat) :=
  match fuel with
  | O => None
  | S fuel =>
      e ← dns_domain_equal (drop pos big) little;
      if (e : bool) then Some (Some pos) else
      c ← load big pos;
      if c =? 0 then Some None else suffix_loop big little (S pos + Z.to_nat c) fuel
  end.

Definition dns_domain_suffix (big little : list Z) : option bool :=
  r ← suffix_loop big little 0 (S (length big)); Some (bool_decide (is_Some r)).
Definition dns_domain_suffixpos (big little : list Z) : option Z :=
  r ← suffix_loop big little 0 (S (length big)); Some (match r with Some pos => u32 (Z.of_nat pos) | None => 0 end).

(** ** Names with dots *)

Definition is_octal (c : Z) : bool := ("0"%C <=? c) && (c <=? "7"%C).

(** Another octal digit of the character [ch]. *)
Definition octal_digit (ch : Z) (buf : list Z) (n : nat) : option (bool * Z * list Z * nat) :=
  match n with
  | O => Some (false, ch, buf, n)
  | S n' =>
      c ← load buf 0;
      if is_octal c then Some (true, u8 (u8 (Z.shiftl ch 3) + (c - "0"%C)), drop 1 buf, n') else Some (false, ch, buf, n)
  end.

(** Behind a backslash. *)
Definition octal_escape (ch : Z) (buf : list Z) (n : nat) : option (Z * list Z * nat) :=
  if is_octal ch then
    '(more, ch, buf, n) ← octal_digit (ch - "0"%C) buf n;
    if (more : bool) then '(_, ch, buf, n) ← octal_digit ch buf n; Some (ch, buf, n) else Some (ch, buf, n)
  else Some (ch, buf, n).

(** The array [name] has room for 255 bytes, [label] for 63. *)
Definition add_label (name label : list Z) : option (list Z) :=
  if (255 <? length name + length label + 1)%nat then None else Some (name ++ Z.of_nat (length label) :: label).

(** The last label and the labels before it; [Some None] when the name is
    refused. *)
Fixpoint fromdot_loop (buf : list Z) (n : nat) (label name : list Z) (fuel : nat) : option (option (list Z * list Z)) :=
  match fuel with
  | O => None
  | S fuel =>
      match n with
      | O => Some (Some (label, name))
      | S n =>
          ch ← load buf 0;
          let buf := drop 1 buf in
          if ch =? "."%C then
            if (0 <? length label)%nat then
              match add_label name label with
              | None => Some None
              | Some name => fromdot_loop buf n [] name fuel
              end
            else fromdot_loop buf n label name fuel
          else
            let put ch buf n :=
              if (63 <=? length label)%nat then Some None else fromdot_loop buf n (label ++ [ch]) name fuel in
            if ch =? "\"%C then
              match n with
              | O => Some (Some (label, name))
              | S n =>
                  ch ← load buf 0;
                  '(ch, buf, n) ← octal_escape ch (drop 1 buf) n;
                  put ch buf n
              end
            else put ch buf n
      end
  end.

Definition dns_domain_fromdot (m : mem) (out : option nat) (buf : list Z) (n : nat) : option (Z * mem * option nat) :=
  r ← fromdot_loop buf n [] [] (S n);
  match r with
  | None => Some (0, m, out)
  | Some (label, name) =>
      match (if (0 <? length label)%nat then add_label name label else Some name) with
      | None => Some (0, m, out)
      | Some name =>
          if (255 <? length name + 1)%nat then Some (0, m, out) else
          let name := name ++ [0] in
          let '(x, m) := malloc m (Z.of_nat (length name)) in
          match x with
          | None => Some (0, m, out)
          | Some b => m ← mcopy m b 0 (Z.of_nat (length name)) (Const name); m ← free m out; Some (1, m, Some b)
          end
      end
  end.

Definition to_lower (c : Z) : Z := if ("A"%C <=? c) && (c <=? "Z"%C) then c + 32 else c.

Definition is_plain (c : Z) : bool :=
  ("a"%C <=? c) && (c <=? "z"%C) || ("0"%C <=? c) && (c <=? "9"%C) || (c =? "-"%C) || (c =? "_"%C).

(** [buf], the escape of a character. *)
Definition octal (c : Z) : list Z :=
  ["\"%C; "0"%C + Z.land (Z.shiftr (Z.shiftr c 3) 3) 7; "0"%C + Z.land (Z.shiftr c 3) 7; "0"%C + Z.land c 7].

Definition todot_char (m : mem) (out : stralloc) (c : Z) : result :=
  let c := to_lower c in
  if is_plain c then stralloc_append m out (Const [c]) else stralloc_catb m out (Const (octal c)) 4.

(** The label of [ch] characters at [d]. *)
Fixpoint todot_label (m : mem) (out : stralloc) (d : ptr) (pos : nat) (ch : nat) : result :=
  match ch with
  | O => Some (true, m, out)
  | S ch =>
      l ← view m d;
      c ← load l pos;
      '(ok, m, out) ← todot_char m out c;
      if (ok : bool) then todot_label m out d (S pos) ch else Some (false, m, out)
  end.

Fixpoint todot_loop (m : mem) (out : stralloc) (d : ptr) (pos : nat) (fuel : nat) : result :=
  match fuel with
  | O => None
  | S fuel =>
      l ← view m d;
      ch ← load l pos;
      '(ok, m, out) ← todot_label m out d (S pos) (Z.to_nat ch);
      if negb ok then Some (false, m, out) else
      let pos := (S pos + Z.to_nat ch)%nat in
      l ← view m d;
      c ← load l pos;
      if c =? 0 then Some (true, m, out) else
      '(ok, m, out) ← stralloc_append m out (Const (lit "."));
      if (ok : bool) then todot_loop m out d pos fuel else Some (false, m, out)
  end.

Definition dns_domain_todot_cat (m : mem) (out : stralloc) (d : ptr) : result :=
  l ← view m d;
  c ← load l 0;
  if c =? 0 then stralloc_append m out (Const (lit ".")) else todot_loop m out d 0 (length l).

(** [out] as an object, and the place in it. *)
Fixpoint todot_copy (out inp : list Z) (y x : nat) (fuel : nat) : option (list Z * nat) :=
  match fuel with
  | O => None
  | S fuel =>
      c ← load inp x;
      if c =? 0 then Some (out, y) else
      let n := Z.to_nat c in
      out ← byte_copy out y n (There (drop (S x) inp));
      let y := (y + n)%nat in
      let x := (S x + n)%nat in
      c ← load inp x;
      if negb (c =? 0) then out ← store out y "."%C; todot_copy out inp (S y) x fuel else todot_copy out inp y x fuel
  end.

Definition dns_domain_todot (out inp : list Z) : option (Z * list Z) :=
  '(out, y) ← todot_copy out inp 0 0 (S (length inp)); Some (u32 (Z.of_nat y), out).

Fixpoint lower_label (x : list Z) (d : nat) (ch : nat) : option (list Z) :=
  match ch with
  | O => Some x
  | S ch => c ← load x (S d); x ← store x (S d) (to_lower c); lower_label x (S d) ch
  end.

Fixpoint inline_loop (x : list Z) (d : nat) (fuel : nat) : option (list Z * nat) :=
  match fuel with
  | O => None
  | S fuel =>
      ch ← load x d;
      if ch =? 0 then Some (x, d) else
      x ← store x d "."%C;
      x ← lower_label x d (Z.to_nat ch);
      inline_loop x (S (d + Z.to_nat ch)) fuel
  end.

Definition dns_domain_todot_inline (x : list Z) : option (Z * list Z) :=
  '(x, d) ← inline_loop x 0 (S (length x)); Some (u32 (Z.of_nat d), x).

(** ** Names of addresses *)

Fixpoint name4_loop (name : list Z) (namelen : nat) (ips : list Z) : option (list Z * nat) :=
  match ips with
  | [] => Some (name, namelen)
  | c :: ips =>
      let '(text, i) := fmt_ulong true c in
      name ← byte_copy name (namelen + 1) i (There text);
      name ← store name namelen (Z.of_nat i);
      name4_loop name (namelen + 1 + i) ips
  end.

Definition dns_name4_domain (name ip : list Z) : option (list Z) :=
  ip3 ← load ip 3; ip2 ← load ip 2; ip1 ← load ip 1; ip0 ← load ip 0;
  '(name, namelen) ← name4_loop name 0 [ip3; ip2; ip1; ip0];
  byte_copy name namelen 14 (There (7 :: lit "in-addr" ++ 4 :: lit "arpa" ++ [0; 0])).

Definition tohex (c : Z) : Z := if 10 <=? c then c - 10 + "a"%C else c + "0"%C.

Fixpoint name6_loop (name ip : list Z) (j n : nat) : option (list Z) :=
  match n with
  | O => Some name
  | S n =>
      c ← load ip (15 - j);
      name ← store name (j * 4) 1;
      name ← store name (j * 4 + 1) (tohex (Z.land c 15));
      name ← store name (j * 4 + 2) 1;
      name ← store name (j * 4 + 3) (tohex (Z.shiftr c 4));
      name6_loop name ip (S j) n
  end.

Definition dns_name6_domain (name ip : list Z) : option (list Z) :=
  name ← name6_loop name ip 0 16;
  byte_copy name 64 10 (There (3 :: lit "ip6" ++ 4 :: lit "arpa" ++ [0; 0])).

(** * Packets *)

(** The bytes stored; the position behind them, or 0 at the end of the packet. *)
Fixpoint packet_copy (buf : list Z) (len pos : Z) (out : list Z) (outlen : nat) : option (Z * list Z) :=
  match outlen with
  | O => Some (pos, out)
  | S outlen =>
      if len <=? pos then Some (0, out) else
      c ← load buf (Z.to_nat pos);
      packet_copy buf len (u32 (pos + 1)) (out ++ [c]) outlen
  end.
Definition dns_packet_copy (buf : list Z) (len pos : Z) (outlen : nat) : option (Z * list Z) :=
  packet_copy buf len pos [] outlen.

Fixpoint skipname_loop (buf : list Z) (len pos : Z) (fuel : nat) : option Z :=
  match fuel with
  | O => None
  | S fuel =>
      if len <=? pos then Some 0 else
      ch ← load buf (Z.to_nat pos);
      let pos := u32 (pos + 1) in
      if 192 <=? ch then Some (u32 (pos + 1)) else
      if 64 <=? ch then Some 0 else
      if ch =? 0 then Some pos else
      skipname_loop buf len (u32 (pos + ch)) fuel
  end.
Definition dns_packet_skipname (buf : list Z) (len pos : Z) : option Z := skipname_loop buf len pos (S (Z.to_nat len)).

(** ** Compressed names *)

(** [if(pos >= len) goto PROTO; ch = buf[pos++]] *)
Definition fetch (buf : list Z) (len pos : Z) : option (option (Z * Z)) :=
  if len <=? pos then Some None else ch ← load buf (Z.to_nat pos); Some (Some (ch, u32 (pos + 1))).

(** The pointers from a character that is at least 192 on: a character that is
    no pointer, the position behind it and behind the first pointer, and the
    count of characters; [Some None] stands for [goto PROTO]. *)
Fixpoint pointer_loop (buf : list Z) (len : Z) (ch pos firstcompress : Z) (loop : nat) (fuel : nat)
    : option (option (Z * Z * Z * nat)) :=
  match fuel with
  | O => None
  | S fuel =>
      if ch <? 192 then Some (Some (ch, pos, firstcompress, loop)) else
      let where_ := Z.shiftl (ch - 192) 8 in
      r ← fetch buf len pos;
      match r with
      | None => Some None
      | Some (ch, pos) =>
          let firstcompress := if firstcompress =? 0 then pos else firstcompress in
          r ← fetch buf len (where_ + ch);
          match r with
          | None => Some None
          | Some (ch, pos) =>
              let loop := S loop in
              if (1000 <=? loop)%nat then Some None else pointer_loop buf len ch pos firstcompress loop fuel
          end
      end
  end.

(** The name and the position behind its first part.  [state] counts the
    characters of the label that are missing. *)
Fixpoint getname_loop (buf : list Z) (len pos firstcompress : Z) (loop : nat) (state : Z) (name : list Z) (fuel : nat)
    : option (option (list Z * Z)) :=
  match fuel with
  | O => None
  | S fuel =>
      r ← fetch buf len pos;
      match r with
      | None => Some None
      | Some (ch, pos) =>
          let loop := S loop in
          if (1000 <=? loop)%nat then Some None else
          if negb (state =? 0) then
            if (255 <? length name + 1)%nat then Some None else
            getname_loop buf len pos firstcompress loop (state - 1) (name ++ [ch]) fuel
          else
            r ← pointer_loop buf len ch pos firstcompress loop (S fuel);
            match r with
            | None => Some None
            | Some (ch, pos, firstcompress, loop) =>
                if 64 <=? ch then Some None else
                if (255 <? length name + 1)%nat then Some None else
                let name := name ++ [ch] in
                if ch =? 0 then Some (Some (name, if firstcompress =? 0 then pos else firstcompress))
                else getname_loop buf len pos firstcompress loop ch name fuel
            end
      end
  end.

Definition dns_packet_getname (m : mem) (buf : list Z) (len pos : Z) (d : option nat) : option (Z * mem * option nat) :=
  r ← getname_loop buf len pos 0 0 0 [] 1000;
  match r with
  | None => Some (0, m, d)
  | Some (name, next) =>
      '(n, m, d) ← dns_domain_copy m d (Const name);
      Some (if n =? 0 then 0 else next, m, d)
  end.

(** ** Answers *)

Definition DNS_C_IN : list Z := [0; 1].
Definition DNS_T_A : list Z := [0; 1].
Definition DNS_T_PTR : list Z := [0; 12].
Definition DNS_T_MX : list Z := [0; 15].
Definition DNS_T_TXT : list Z := [0; 16].
Definition DNS_T_AAAA : list Z := [0; 28].

(** The header and the question: how many answers, and where they begin. *)
Definition packet_start (buf : list Z) (len : Z) : option (option (Z * Z)) :=
  '(pos, header) ← dns_packet_copy buf len 0 12;
  if pos =? 0 then Some None else
  numanswers ← uint16_unpack_big (drop 6 header);
  pos ← dns_packet_skipname buf len pos;
  if pos =? 0 then Some None else Some (Some (numanswers, u32 (pos + 4))).

(** The name and the fixed fields of an answer: the fields, the length of its
    data, and where that is. *)
Definition packet_record (buf : list Z) (len pos : Z) : option (option (list Z * Z * Z)) :=
  pos ← dns_packet_skipname buf len pos;
  if pos =? 0 then Some None else
  '(pos, header) ← dns_packet_copy buf len pos 10;
  if pos =? 0 then Some None else
  datalen ← uint16_unpack_big (drop 8 header);
  Some (Some (header, datalen, pos)).

Definition is_type (header type : list Z) : option bool :=
  e ← byte_equal header 2 type;
  if (e : bool) then byte_equal (drop 2 header) 2 DNS_C_IN else Some false.

Section answers.
Context {S : Type} (buf : list Z) (len : Z).

(** [while(numanswers--)]: [answer_fn] is what is done with an answer; it may
    return a result. *)
Fixpoint answers_loop (answer_fn : list Z -> Z -> Z -> S -> option (option Z * S)) (numanswers : nat) (pos : Z) (st : S)
    : option (option Z * S) :=
  match numanswers with
  | O => Some (None, st)
  | Datatypes.S numanswers =>
      r ← packet_record buf len pos;
      match r with
      | None => Some (Some (-1), st)
      | Some (header, datalen, pos) =>
          '(ret, st) ← answer_fn header datalen pos st;
          match ret with
          | Some _ => Some (ret, st)
          | None => answers_loop answer_fn numanswers (u32 (pos + datalen)) st
          end
      end
  end.

Definition packet_answers (answer_fn : list Z -> Z -> Z -> S -> option (option Z * S)) (st : S) : option (option Z * S) :=
  r ← packet_start buf len;
  match r with
  | None => Some (Some (-1), st)
  | Some (numanswers, pos) => answers_loop answer_fn (Z.to_nat numanswers) pos st
  end.
End answers.

(** The memory, the string [out] and the pointer [q]. *)
Abbreviation dns_state := (mem * stralloc * option nat)%type.

(** [if(!f(out, ...)) return -1] *)
Definition or_fail (q : option nat) (r : result) : option (option Z * dns_state) :=
  '(ok, m, out) ← r; Some (if (ok : bool) then None else Some (-1), (m, out, q)).

(** The result of a packet: what an answer returned, or [done] at the end. *)
Definition finish (r : option (option Z * dns_state)) : option (Z * dns_state) :=
  '(ret, st) ← r; Some (default 0 ret, st).

Definition clear_out (m : mem) (out : stralloc) (q : option nat)
    (k : mem -> stralloc -> option (Z * dns_state)) : option (Z * dns_state) :=
  '(ok, m, out) ← stralloc_copys m out (Const [0]);
  if (ok : bool) then k m out else Some (-1, (m, out, q)).

(** The name that [getname] stored, as the source of a string. *)
Definition cat_name (q : option nat) (m : mem) (out : stralloc) : result :=
  b ← q; dns_domain_todot_cat m out (Blk b 0).

Definition name_answer (buf : list Z) (len : Z) (header : list Z) (datalen pos : Z) (st : dns_state)
    : option (option Z * dns_state) :=
  let '(m, out, q) := st in
  e ← is_type header DNS_T_PTR;
  if negb e then Some (None, st) else
  '(n, m, q) ← dns_packet_getname m buf len pos q;
  if n =? 0 then Some (Some (-1), (m, out, q)) else
  '(ret, st) ← or_fail q (cat_name q m out);
  Some (match ret with Some r => Some r | None => Some 0 end, st).

Definition dns_name_packet (m : mem) (out : stralloc) (q : option nat) (buf : list Z) (len : Z) : option (Z * dns_state) :=
  clear_out m out q (fun m out => finish (packet_answers buf len (name_answer buf len) (m, out, q))).

(** The bytes of a text record: strings with their lengths in front.  [i] is an
    [int]. *)
Fixpoint txt_loop (buf : list Z) (pos : Z) (m : mem) (out : stralloc) (txtlen : Z) (i : Z) (n : nat) : result :=
  match n with
  | O => Some (true, m, out)
  | S n =>
      ch ← load buf (Z.to_nat (u32 (pos + i)));
      if txtlen =? 0 then txt_loop buf pos m out ch (i + 1) n else
      let ch := if (ch <? 32) || (126 <? ch) then "?"%C else ch in
      '(ok, m, out) ← stralloc_append m out (Const [ch]);
      if (ok : bool) then txt_loop buf pos m out (txtlen - 1) (i + 1) n else Some (false, m, out)
  end.

Definition txt_answer (buf : list Z) (len : Z) (header : list Z) (datalen pos : Z) (st : dns_state)
    : option (option Z * dns_state) :=
  let '(m, out, q) := st in
  e ← is_type header DNS_T_TXT;
  if negb e then Some (None, st) else
  if len <? u32 (pos + datalen) then Some (Some (-1), st) else
  or_fail q (txt_loop buf pos m out 0 0 (Z.to_nat datalen)).

Definition dns_txt_packet (m : mem) (out : stralloc) (q : option nat) (buf : list Z) (len : Z) : option (Z * dns_state) :=
  clear_out m out q (fun m out => finish (packet_answers buf len (txt_answer buf len) (m, out, q))).

(** What was put into [out] before a failure stays there. *)
Definition mx_answer (buf : list Z) (len : Z) (header : list Z) (datalen pos : Z) (st : dns_state)
    : option (option Z * dns_state) :=
  let '(m, out, q) := st in
  e ← is_type header DNS_T_MX;
  if negb e then Some (None, st) else
  '(n, pref) ← dns_packet_copy buf len pos 2;
  if n =? 0 then Some (Some (-1), st) else
  '(n, m, q) ← dns_packet_getname m buf len (u32 (pos + 2)) q;
  if n =? 0 then Some (Some (-1), (m, out, q)) else
  or_fail q (
    '(ok, m, out) ← stralloc_catb m out (Const pref) 2;
    if (ok : bool) then
      '(ok, m, out) ← cat_name q m out;
      if (ok : bool) then stralloc_0 m out else Some (false, m, out)
    else Some (false, m, out)).

Definition dns_mx_packet (m : mem) (out : stralloc) (q : option nat) (buf : list Z) (len : Z) : option (Z * dns_state) :=
  clear_out m out q (fun m out => finish (packet_answers buf len (mx_answer buf len) (m, out, q))).

Definition V4mappedprefix : list Z := [0; 0; 0; 0; 0; 0; 0; 0; 0; 0; 255; 255].

Definition ip4_answer (buf : list Z) (len : Z) (header : list Z) (datalen pos : Z) (st : dns_state)
    : option (option Z * dns_state) :=
  let '(m, out, q) := st in
  e ← is_type header DNS_T_A;
  if negb e || negb (datalen =? 4) then Some (None, st) else
  '(n, ip) ← dns_packet_copy buf len pos 4;
  if n =? 0 then Some (Some (-1), st) else or_fail q (stralloc_catb m out (Const ip) 4).

Definition ip6_answer (buf : list Z) (len : Z) (header : list Z) (datalen pos : Z) (st : dns_state)
    : option (option Z * dns_state) :=
  let '(m, out, q) := st in
  aaaa ← byte_equal header 2 DNS_T_AAAA;
  e ← is_type header (if (aaaa : bool) then DNS_T_AAAA else DNS_T_A);
  if negb e then Some (None, st) else
  if aaaa && (datalen =? 16) then
    '(n, ip) ← dns_packet_copy buf len pos 16;
    if n =? 0 then Some (Some (-1), st) else or_fail q (stralloc_catb m out (Const ip) 16)
  else if negb aaaa && (datalen =? 4) then
    '(n, ip) ← dns_packet_copy buf len pos 4;
    if n =? 0 then Some (Some (-1), st) else or_fail q (stralloc_catb m out (Const (V4mappedprefix ++ ip)) 16)
  else Some (None, st).

(** * Random order *)

(** The static arrays of [dns_random.c]. *)
Record rng : Type := Rng { seed : list Z; rng_in : list Z; rng_out : list Z; outleft : nat }.

Definition rotate (x b : Z) : Z := Z.lor (u32 (Z.shiftl x b)) (Z.shiftr x (32 - b)).

Fixpoint mush (g : rng) (sum : Z) (t : list Z) (x : Z) (i : nat) (bs : list Z) : option (list Z * Z) :=
  match bs with
  | [] => Some (t, x)
  | b :: bs =>
      ti ← load t i; s ← load (seed g) i;
      let x := u32 (ti + Z.lxor (u32 (Z.lxor x s + sum)) (rotate x b)) in
      t ← store t i x;
      mush g sum t x (S i) bs
  end.

Fixpoint surf_rounds (g : rng) (sum : Z) (t : list Z) (x : Z) (r : nat) : option (Z * list Z * Z) :=
  match r with
  | O => Some (sum, t, x)
  | S r =>
      let sum := u32 (sum + 2654435769) in
      '(t, x) ← mush g sum t x 0 [5; 7; 9; 13; 5; 7; 9; 13; 5; 7; 9; 13];
      surf_rounds g sum t x r
  end.

Fixpoint surf_loop (g : rng) (sum : Z) (t : list Z) (x : Z) (out : list Z) (loop : nat) : option (list Z) :=
  match loop with
  | O => Some out
  | S loop =>
      '(sum, t, x) ← surf_rounds g sum t x 16;
      surf_loop g sum t x (zip_with Z.lxor out (drop 4 t)) loop
  end.

Definition surf (g : rng) : option rng :=
  let t := zip_with Z.lxor (rng_in g) (drop 12 (seed g)) in
  x ← load t 11;
  out ← surf_loop g 0 t x (drop 24 (seed g)) 2;
  Some (Rng (seed g) (rng_in g) out (outleft g)).

(** The counter in the first four words. *)
Fixpoint count_up (l : list Z) (n : nat) : list Z :=
  match n, l with
  | S n, x :: l => let x := u32 (x + 1) in if x =? 0 then x :: count_up l n else x :: l
  | _, _ => l
  end.

(** The time and the process numbers are what the system says. *)
Fixpoint unpack_words (s : list Z) (n : nat) : option (list Z) :=
  match n with O => Some [] | S n => x ← uint32_unpack s; l ← unpack_words (drop 4 s) n; Some (x :: l) end.
Definition dns_random_init (g : rng) (data : list Z) (now : taia) (pid ppid : Z) : option rng :=
  s ← unpack_words data 32;
  tpack ← taia_pack (replicate 16 0) 0 now;
  t ← unpack_words tpack 4;
  Some (Rng s (take 4 (rng_in g) ++ t ++ [u32 pid; u32 ppid] ++ drop 10 (rng_in g)) (rng_out g) (outleft g)).

Definition dns_random (g : rng) (n : Z) : option (Z * rng) :=
  if n =? 0 then Some (0, g) else
  g ← (match outleft g with
       | O => g ← surf (Rng (seed g) (count_up (rng_in g) 4) (rng_out g) 0);
              Some (Rng (seed g) (rng_in g) (rng_out g) 8)
       | S _ => Some g
       end);
  let k := (outleft g - 1)%nat in
  x ← load (rng_out g) k;
  Some (x mod n, Rng (seed g) (rng_in g) (rng_out g) k).

(** The last of [n] groups of [w] bytes changes places with one of them. *)
Definition swap (s : list Z) (w i n : nat) : option (list Z) :=
  tmp ← byte_copy (replicate w 0) 0 w (There (drop (i * w) s));
  s ← byte_copy s (i * w) w (Here (n * w));
  byte_copy s (n * w) w (There tmp).

Fixpoint sortip_loop (g : rng) (w : nat) (s : list Z) (n : nat) : option (list Z * rng) :=
  match n with
  | O => Some (s, g)
  | S n =>
      if (n =? 0)%nat then Some (s, g) else
      '(i, g) ← dns_random g (Z.of_nat (S n));
      s ← swap s w (Z.to_nat i) n;
      sortip_loop g w s n
  end.

Definition dns_sortip (g : rng) (s : list Z) (n : Z) : option (list Z * rng) :=
  sortip_loop g 4 s (Z.to_nat (Z.shiftr (u32 n) 2)).
Definition dns_sortip6 (g : rng) (s : list Z) (n : Z) : option (list Z * rng) :=
  sortip_loop g 16 s (Z.to_nat (Z.shiftr (u32 n) 4)).

(** A sorting routine on the string [out], in place. *)
Definition sort_out (g : rng) (sort : rng -> list Z -> Z -> option (list Z * rng)) (m : mem) (out : stralloc)
    : option (mem * rng) :=
  match sa_s out with
  | Some b => l ← blocks m !! b; '(l, g) ← sort g l (sa_len out); Some (put m b l, g)
  | None => '(_, g) ← sort g [] (sa_len out); Some (m, g)
  end.

Definition sorted (g : rng) (sort : rng -> list Z -> Z -> option (list Z * rng)) (r : option (option Z * dns_state))
    : option (Z * dns_state * rng) :=
  '(ret, st) ← r;
  match ret with
  | Some ret => Some (ret, st, g)
  | None => let '(m, out, q) := st in '(m, g) ← sort_out g sort m out; Some (0, (m, out, q), g)
  end.

Definition dns_ip4_packet (g : rng) (m : mem) (out : stralloc) (buf : list Z) (len : Z) : option (Z * dns_state * rng) :=
  '(ok, m, out) ← stralloc_copys m out (Const [0]);
  if (ok : bool) then sorted g dns_sortip (packet_answers buf len (ip4_answer buf len) (m, out, None))
  else Some (-1, (m, out, None), g).

Definition dns_ip6_packet_add (g : rng) (m : mem) (out : stralloc) (buf : list Z) (len : Z) : option (Z * dns_state * rng) :=
  sorted g dns_sortip6 (packet_answers buf len (ip6_answer buf len) (m, out, None)).

Definition dns_ip6_packet (g : rng) (m : mem) (out : stralloc) (buf : list Z) (len : Z) : option (Z * dns_state * rng) :=
  '(ok, m, out) ← stralloc_copys m out (Const [0]);
  if (ok : bool) then dns_ip6_packet_add g m out buf len else Some (-1, (m, out, None), g).
