(* ===== verification/DnsNames.v ===== *)
(** The names of [lib/dns/]: that a compressed name is read exactly when it
    unfolds within the bounds of the code, whatever bytes the packet holds, and
    that names with dots are read back. *)
From S2P Require Import Prelude ByteOps StrOps Pack Tai FmtNum Memory Stralloc Dns.

(** * Names *)

(** A label has 1 to 63 bytes. *)
Definition label_ok (l : list Z) : Prop := (1 <= length l <= 63)%nat /\ bytes l.

Definition wire_labels (ls : list (list Z)) : list Z := concat (map (fun l => Z.of_nat (length l) :: l) ls).
Definition wire (ls : list (list Z)) : list Z := wire_labels ls ++ [0].

(** The name at [pos] of a packet takes [k] characters to read, is [ls], and
    ends before [next]. *)
Inductive compressed (buf : list Z) (len : Z) : nat -> Z -> list (list Z) -> Z -> Prop :=
  | compressed_end pos :
      0 <= pos < len -> buf !! Z.to_nat pos = Some 0 -> compressed buf len 1 pos [] (pos + 1)
  | compressed_label pos l k ls next :
      0 <= pos < len -> buf !! Z.to_nat pos = Some (Z.of_nat (length l)) -> (1 <= length l <= 63)%nat ->
      take (length l) (drop (Z.to_nat (pos + 1)) buf) = l -> pos + 1 + Z.of_nat (length l) <= len ->
      compressed buf len k (pos + 1 + Z.of_nat (length l)) ls next ->
      compressed buf len (S (length l + k)) pos (l :: ls) next
  | compressed_pointer pos c d k ls next :
      0 <= pos -> pos + 1 < len -> buf !! Z.to_nat pos = Some c -> 192 <= c -> buf !! Z.to_nat (pos + 1) = Some d ->
      compressed buf len k ((c - 192) * 256 + d) ls next -> compressed buf len (S k) pos ls (pos + 2).

Lemma wire_cons l ls : wire (l :: ls) = Z.of_nat (length l) :: l ++ wire ls.
Proof. unfold wire, wire_labels. cbn [map concat app]. by rewrite <- app_assoc. Qed.

Lemma wire_length ls : (1 <= length (wire ls))%nat.
Proof. unfold wire. rewrite length_app. cbn. lia. Qed.

Lemma compressed_det buf len k pos ls next : compressed buf len k pos ls next -> forall k' ls' next',
  compressed buf len k' pos ls' next' -> k' = k /\ ls' = ls /\ next' = next.
Proof.
  induction 1 as [pos H1 E|pos l k ls next H1 E Hl Ht Hn _ IH|pos c d k ls next H1 H2 E Hc E2 _ IH]; intros k' ls' next' H;
    inversion H as [? ? E' | ? l' ? ? ? ? E' ? Ht' ? HH | ? c' d' ? ? ? ? ? E' ? E2' HH]; subst;
    rewrite E in E'; simplify_eq; try lia; [done| |].
  - assert (length l' = length l) as El by lia. rewrite El in *. assert (l' = l) as -> by congruence.
    by apply IH in HH as (-> & -> & ->).
  - by apply IH in HH as (-> & -> & _).
Qed.

Section packet.
Context (buf : list Z) (len : Z) (Hb : bytes buf) (Hlen : 0 <= len <= Z.of_nat (length buf)) (H32 : len < 2 ^ 31).

Lemma byte_at pos : 0 <= pos < len -> exists c, buf !! Z.to_nat pos = Some c /\ 0 <= c < 256.
Proof.
  intros Hp. destruct (lookup_lt_is_Some_2 buf (Z.to_nat pos)) as [c E]; [lia|]. exists c. split; [done|].
  pose proof (list.Forall_lookup_1 _ _ _ _ Hb E) as H. unfold is_u8 in H. lia.
Qed.

Lemma fetch_ok pos : 0 <= pos ->
  fetch buf len pos = Some None /\ len <= pos \/
  exists ch, pos < len /\ buf !! Z.to_nat pos = Some ch /\ 0 <= ch < 256 /\ fetch buf len pos = Some (Some (ch, pos + 1)).
Proof.
  intros Hp. unfold fetch. destruct (Z.leb_spec len pos); [by left|right]. destruct (byte_at pos) as (c & E & Hc); [lia|].
  exists c. unfold load. rewrite E. cbn [mbind option_bind]. rewrite u32_id by (unfold is_u32; lia). done.
Qed.

(** The characters of a label. *)
Lemma label_loop_ok (c : nat) : forall pos fc loop name fuel,
  0 <= pos -> (loop <= 999)%nat -> (1000 <= loop + fuel)%nat ->
  getname_loop buf len pos fc loop (Z.of_nat c) name fuel =
    if (pos + Z.of_nat c <=? len) && (loop + c <=? 999)%nat && ((length name + c <=? 255)%nat || (c =? 0)%nat) || (c =? 0)%nat
    then getname_loop buf len (pos + Z.of_nat c) fc (loop + c) 0 (name ++ take c (drop (Z.to_nat pos) buf)) (fuel - c)
    else Some None.
Proof.
  induction c as [|c IH]; intros pos fc loop name fuel Hp Hl Hf.
  { rewrite orb_true_r, Z.add_0_r, Nat.add_0_r, Nat.sub_0_r. cbn [take]. by rewrite app_nil_r. }
  destruct fuel as [|fuel]; [lia|]. cbn [getname_loop]. rewrite orb_false_r. replace (S c =? 0)%nat with false by done. rewrite !orb_false_r.
  destruct (fetch_ok pos Hp) as [[-> Hn]|(ch & Hn & E & Hch & ->)]; cbn [mbind option_bind].
  { by replace (pos + Z.of_nat (S c) <=? len) with false by lia. }
  destruct (Nat.leb_spec 1000 (S loop)).
  { replace (loop + S c <=? 999)%nat with false by lia. by rewrite andb_false_r. }
  zfalse (Z.of_nat (S c) =? 0). cbn [negb]. destruct (Nat.ltb_spec 255 (length name + 1)).
  { replace (length name + S c <=? 255)%nat with false by lia. by rewrite andb_false_r. }
  replace (Z.of_nat (S c) - 1) with (Z.of_nat c) by lia. rewrite IH by lia. rewrite length_app. cbn [length].
  destruct (Nat.eqb_spec c 0) as [E0|Hc].
  - rewrite E0 in *. rewrite orb_true_r. replace (pos + Z.of_nat 1 <=? len) with true by lia. replace (loop + 1 <=? 999)%nat with true by lia.
    replace (length name + 1 <=? 255)%nat with true by lia. cbn [andb].
    rewrite <- app_assoc. f_equal; try lia. f_equal. rewrite (drop_S _ ch _ E). done.
  - rewrite !orb_false_r. replace (pos + 1 + Z.of_nat c <=? len) with (pos + Z.of_nat (S c) <=? len) by lia.
    replace (S loop + c <=? 999)%nat with (loop + S c <=? 999)%nat by lia.
    replace (length name + 1 + c <=? 255)%nat with (length name + S c <=? 255)%nat by lia.
    destruct (_ && _); [|done]. rewrite <- app_assoc. f_equal; try lia. f_equal.
    rewrite (drop_S _ ch _ E). cbn [take app]. by replace (Z.to_nat (pos + 1)) with (S (Z.to_nat pos)) by lia.
Qed.

Lemma compressed_start k pos ls next : compressed buf len k pos ls next -> 0 <= pos < len /\ (1 <= k)%nat.
Proof. destruct 1; lia. Qed.

(** What a name that begins with a pointer is. *)
Lemma compressed_at_pointer k pos ls next c d :
  compressed buf len k pos ls next -> buf !! Z.to_nat pos = Some c -> 192 <= c -> buf !! Z.to_nat (pos + 1) = Some d ->
  exists k', k = S k' /\ next = pos + 2 /\ pos + 1 < len /\ exists next', compressed buf len k' ((c - 192) * 256 + d) ls next'.
Proof.
  intros H E Hc E2. inversion H; subst; simplify_eq; try lia. eexists. split; [done|]. split; [done|]. split; [done|]. by eexists.
Qed.

Lemma where_at c d : 192 <= c -> Z.shiftl (c - 192) 8 + d = (c - 192) * 256 + d.
Proof. intros. rewrite Z.shiftl_mul_pow2 by lia. done. Qed.

Definition after (fc next : Z) : Z := if fc =? 0 then next else fc.

(** The pointers from the character before [pos] on lead to a character at
    [pos' - 1], [j] pointers further, or nowhere within the bounds. *)
Lemma pointer_ok (fuel : nat) : forall ch pos fc loop,
  1 <= pos <= len -> buf !! Z.to_nat (pos - 1) = Some ch -> 0 <= ch < 256 -> (1 <= loop <= 999)%nat -> (1000 <= loop + fuel)%nat ->
  pointer_loop buf len ch pos fc loop fuel = Some None /\
    (forall k ls next, compressed buf len k (pos - 1) ls next -> (1000 <= loop - 1 + k)%nat) \/
  exists ch' pos' fc' j, pointer_loop buf len ch pos fc loop fuel = Some (Some (ch', pos', fc', (loop + j)%nat)) /\
    0 <= ch' < 192 /\ 1 <= pos' <= len /\ buf !! Z.to_nat (pos' - 1) = Some ch' /\ (loop + j <= 999)%nat /\
    (forall k ls next, compressed buf len k (pos - 1) ls next ->
      exists k' next', compressed buf len k' (pos' - 1) ls next' /\ k = (k' + j)%nat) /\
    (forall k' ls next', compressed buf len k' (pos' - 1) ls next' ->
      exists next, compressed buf len (k' + j) (pos - 1) ls next /\ after fc' next' = after fc next).
Proof.
  induction fuel as [|fuel IH]; intros ch pos fc loop Hp E Hch Hl Hf; [lia|]. cbn [pointer_loop].
  destruct (Z.ltb_spec ch 192).
  { right. exists ch, pos, fc, 0%nat. rewrite Nat.add_0_r. split; [done|]. split_and!; try done; try lia.
    - intros k ls next H'. exists k, next. by rewrite Nat.add_0_r.
    - intros k ls next H'. exists next. by rewrite Nat.add_0_r. }
  assert (forall d, buf !! Z.to_nat (pos - 1 + 1) = Some d <-> buf !! Z.to_nat pos = Some d) as Eq by (intros d; by replace (pos - 1 + 1) with pos by lia).
  destruct (fetch_ok pos) as [[-> Hn]|(d & Hn & Ed & Hd & ->)]; [lia| |]; cbn [mbind option_bind].
  { left. split; [done|]. intros k ls next H'. inversion H'; subst; simplify_eq; lia. }
  rewrite where_at by lia.
  destruct (fetch_ok ((ch - 192) * 256 + d)) as [[-> Hn2]|(ch2 & Hn2 & E2 & Hch2 & ->)]; [lia| |]; cbn [mbind option_bind].
  { left. split; [done|]. intros k ls next H'.
    destruct (compressed_at_pointer _ _ _ _ ch d H' E ltac:(lia)) as (k' & -> & _ & _ & next' & H''%compressed_start); [by apply Eq|lia]. }
  set (tgt := (ch - 192) * 256 + d) in *. destruct (Nat.leb_spec 1000 (S loop)).
  { left. split; [done|]. intros k ls next H'.
    destruct (compressed_at_pointer _ _ _ _ ch d H' E ltac:(lia)) as (k' & -> & _ & _ & next' & H''%compressed_start); [by apply Eq|lia]. }
  set (fc1 := if fc =? 0 then pos + 1 else fc).
  destruct (IH ch2 (tgt + 1) fc1 (S loop)) as [(-> & Hno)|(ch' & pos' & fc' & j & -> & Hch' & Hp' & E' & Hj & Hto & Hfrom)];
    [lia|by replace (tgt + 1 - 1) with tgt by lia|done|lia|lia|left|right]; replace (tgt + 1 - 1) with tgt in * by lia.
  - split; [done|]. intros k ls next H'.
    destruct (compressed_at_pointer _ _ _ _ ch d H' E ltac:(lia)) as (k' & -> & _ & _ & next' & H''%Hno); [by apply Eq|lia].
  - exists ch', pos', fc', (S j). rewrite Nat.add_succ_r. split; [done|]. split_and!; try done; try lia.
    + intros k ls next H'.
      destruct (compressed_at_pointer _ _ _ _ ch d H' E ltac:(lia)) as (k' & -> & _ & _ & next' & (k2 & n2 & H2 & ->)%Hto); [by apply Eq|].
      exists k2, n2. split; [done|lia].
    + intros k' ls next' (n2 & H2 & Hfc)%Hfrom. exists (pos + 1). rewrite Nat.add_succ_r. split.
      * replace (pos + 1) with (pos - 1 + 2) by lia. by apply (compressed_pointer _ _ _ ch d _ _ n2); [lia|lia|done|done|by apply Eq|].
      * rewrite Hfc. unfold after, fc1. destruct (Z.eqb_spec fc 0); [zfalse (pos + 1 =? 0); done|]. by zfalse (fc =? 0).
Qed.

(** A name from a label on, with the bounds of the code: 999 characters are read
    at most, and 255 are stored. *)
Lemma getname_ok (fuel : nat) : forall loop pos fc name,
  0 <= pos -> (loop <= 999)%nat -> (1000 <= loop + fuel)%nat ->
  getname_loop buf len pos fc loop 0 name fuel = Some None /\
    (forall k ls next, compressed buf len k pos ls next -> (loop + k <= 999)%nat -> (length name + length (wire ls) <= 255)%nat -> False) \/
  exists k ls next, getname_loop buf len pos fc loop 0 name fuel = Some (Some (name ++ wire ls, after fc next)) /\
    compressed buf len k pos ls next /\ (loop + k <= 999)%nat /\ (length name + length (wire ls) <= 255)%nat.
Proof.
  induction fuel as [fuel IH] using lt_wf_ind. intros loop pos fc name Hp Hl Hf. destruct fuel as [|fuel]; [lia|]. cbn [getname_loop].
  destruct (fetch_ok pos Hp) as [[-> Hn]|(ch & Hn & E & Hch & ->)]; cbn [mbind option_bind].
  { left. split; [done|]. intros k ls next H%compressed_start. lia. }
  destruct (Nat.leb_spec 1000 (S loop)).
  { left. split; [done|]. intros k ls next H'%compressed_start. lia. }
  change (0 =? 0) with true. cbn [negb].
  destruct (pointer_ok (S fuel) ch (pos + 1) fc (S loop)) as [(-> & Hno)|(ch' & pos' & fc' & j & -> & Hch' & Hp' & E' & Hj & Hto & Hfrom)];
    [lia|by replace (pos + 1 - 1) with pos by lia|done|lia|lia| |]; cbn [mbind option_bind];
    replace (pos + 1 - 1) with pos in * by lia.
  { left. split; [done|]. intros k ls next H'%Hno. lia. }
  destruct (Z.leb_spec 64 ch').
  { left. split; [done|]. intros k ls next (k' & n' & H' & ->)%Hto. inversion H'; subst; simplify_eq; lia. }
  destruct (Nat.ltb_spec 255 (length name + 1)).
  { left. split; [done|]. intros k ls next _ _ Hs. pose proof (wire_length ls). lia. }
  destruct (Z.eqb_spec ch' 0) as [->|Hne].
  { right. destruct (Hfrom 1%nat [] pos') as (next & Hc & Ha).
    { replace pos' with (pos' - 1 + 1) at 2 by lia. constructor; [lia|done]. }
    exists (1 + j)%nat, [], next. split; [by rewrite <- Ha|]. split; [done|]. split; [lia|]. cbn. lia. }
  assert (exists c, ch' = Z.of_nat c /\ (1 <= c <= 63)%nat) as (c & -> & Hc) by (exists (Z.to_nat ch'); lia).
  rewrite label_loop_ok by lia. rewrite length_app. cbn [length]. replace (c =? 0)%nat with false by lia. rewrite !orb_false_r.
  assert (forall k ls next, compressed buf len k (pos' - 1) ls next -> exists ls' k', ls = take c (drop (Z.to_nat pos') buf) :: ls' /\
    k = S (c + k') /\ length (take c (drop (Z.to_nat pos') buf)) = c /\ pos' + Z.of_nat c <= len /\ exists n', compressed buf len k' (pos' + Z.of_nat c) ls' n') as Hinv.
  { intros k ls next H'. inversion H' as [? ? E2|? l ? ls' ? ? E2 ? Ht ? H2|? c2 ? ? ? ? ? ? E2]; subst; rewrite E' in E2; injection E2 as E2; [lia| |lia].
    assert (length l = c) as El by lia. replace (pos' - 1 + 1) with pos' in * by lia. rewrite El in *. exists ls'. eexists. rewrite Ht.
    split; [done|]. split; [done|]. split; [done|]. split; [lia|]. by exists next. }
  destruct ((pos' + Z.of_nat c <=? len) && (S loop + j + c <=? 999)%nat && (length name + 1 + c <=? 255)%nat) eqn:Eok.
  2:{ left. split; [done|]. intros k ls next (k' & n' & H' & ->)%Hto Hk Hs.
    apply Hinv in H' as (ls' & k2 & -> & -> & El & Hpc & n2 & H2%compressed_start). rewrite wire_cons in Hs. cbn [length] in Hs.
    rewrite length_app, El in Hs. pose proof (wire_length ls'). lia. }
  set (l := take c (drop (Z.to_nat pos') buf)) in *. assert (length l = c) as El.
  { unfold l. rewrite length_take, length_drop. lia. }
  destruct (IH (fuel - c)%nat) with (loop := (S loop + j + c)%nat) (pos := pos' + Z.of_nat c) (fc := fc') (name := (name ++ [Z.of_nat c]) ++ l)
    as [(E2 & Hno)|(k & ls & next & E2 & Hc2 & Hk & Hs)]; [lia..| |]; rewrite E2; [left|right]; rewrite !length_app in *; cbn [length] in *.
  - split; [done|]. intros k ls next (k' & n' & H' & ->)%Hto Hk Hs.
    apply Hinv in H' as (ls' & k2 & -> & -> & _ & Hpc & n2 & H2). rewrite wire_cons in Hs. cbn [length] in Hs.
    rewrite length_app, El in Hs. eapply Hno; [exact H2|lia|lia].
  - destruct (Hfrom (S (c + k)) (l :: ls) next) as (next0 & Hc0 & Ha).
    { rewrite <- El. replace (pos' + Z.of_nat c) with (pos' - 1 + 1 + Z.of_nat (length l)) in Hc2 by lia.
      apply compressed_label; [lia|by rewrite El|lia| |lia|done]. rewrite El. by replace (pos' - 1 + 1) with pos' by lia. }
    exists (S (c + k) + j)%nat, (l :: ls), next0. rewrite wire_cons, El, <- Ha. split.
    + by rewrite <- !app_assoc.
    + split; [done|]. split; [lia|]. cbn [length]. rewrite length_app. lia.
Qed.

Lemma compressed_labels k pos ls next : compressed buf len k pos ls next -> Forall label_ok ls.
Proof.
  induction 1 as [| pos l k ls next _ _ H Ht _ _ IH |]; [constructor| |done]. apply list.Forall_cons. split; [|done]. split; [done|].
  rewrite <- Ht. apply list.Forall_take, list.Forall_drop, Hb.
Qed.

Lemma compressed_next k pos ls next : compressed buf len k pos ls next -> pos < next <= len.
Proof. induction 1; lia. Qed.

(** ** Skipping *)

Lemma skipname_ok (fuel : nat) : forall pos, 0 <= pos -> (Z.to_nat (len - pos) < fuel)%nat ->
  exists r, skipname_loop buf len pos fuel = Some r /\ 0 <= r <= len + 1 /\
    forall k ls next, compressed buf len k pos ls next -> r = next.
Proof.
  induction fuel as [|fuel IH]; intros pos Hp Hf; cbn [skipname_loop].
  { lia. }
  destruct (Z.leb_spec len pos).
  { exists 0. split; [done|]. split; [lia|]. intros k ls next H'%compressed_start. lia. }
  destruct (byte_at pos) as (ch & E & Hch); [lia|]. unfold load. rewrite E. cbn [mbind option_bind].
  rewrite (u32_id (pos + 1)) by (unfold is_u32; lia). destruct (Z.leb_spec 192 ch).
  { exists (pos + 2). split; [rewrite u32_id by (unfold is_u32; lia); f_equal; lia|]. split; [lia|].
    intros k ls next H'. inversion H'; subst; simplify_eq; lia. }
  destruct (Z.leb_spec 64 ch).
  { exists 0. split; [done|]. split; [lia|]. intros k ls next H'. inversion H'; subst; simplify_eq; lia. }
  destruct (Z.eqb_spec ch 0) as [->|Hne].
  { exists (pos + 1). split; [done|]. split; [lia|]. intros k ls next H'. inversion H'; subst; simplify_eq; lia. }
  rewrite u32_id by (unfold is_u32; lia). destruct (IH (pos + 1 + ch)) as (r & -> & Hr & Hn); [lia|lia|].
  exists r. split; [done|]. split; [done|]. intros k ls next H'.
  inversion H' as [|? l ? ? ? ? E2 ? ? ? HH|? ? ? ? ? ? ? ? E2]; subst; rewrite E in *; simplify_eq; [by eapply Hn|lia].
Qed.
End packet.

(** * Names in memory *)

Lemma domain_end_ok (ls : list (list Z)) : forall (pre z : list Z) (fuel : nat),
  Forall (fun l => (1 <= length l)%nat) ls -> (length ls < fuel)%nat ->
  domain_end (pre ++ wire ls ++ z) (length pre) fuel = Some (length pre + length (wire ls))%nat.
Proof.
  induction ls as [|l ls IH]; intros pre z fuel Hl Hf; (destruct fuel as [|fuel]; [cbn in Hf; lia|]); cbn [domain_end]; unfold load.
  - change (wire [] ++ z) with (0 :: z). rewrite list_lookup_middle by done. cbn. f_equal. lia.
  - apply list.Forall_cons in Hl as [H1 Hl]. rewrite wire_cons. cbn [app]. rewrite list_lookup_middle by done. cbn [mbind option_bind].
    zfalse (Z.of_nat (length l) =? 0). rewrite Nat2Z.id.
    replace (pre ++ Z.of_nat (length l) :: (l ++ wire ls) ++ z) with ((pre ++ Z.of_nat (length l) :: l) ++ wire ls ++ z)
      by (by rewrite <- !app_assoc).
    replace (S (length pre) + length l)%nat with (length (pre ++ Z.of_nat (length l) :: l)) by (rewrite length_app; cbn; lia).
    rewrite IH by (done || (cbn in Hf; lia)). f_equal. rewrite !length_app. cbn [length]. rewrite length_app. lia.
Qed.

Lemma wire_count ls : (length ls < length (wire ls))%nat.
Proof. induction ls as [|l ls IH]; [cbn; lia|]. rewrite wire_cons. cbn [length]. rewrite length_app. lia. Qed.

Lemma domain_length_ok ls z : Forall (fun l => (1 <= length l)%nat) ls -> Z.of_nat (length (wire ls)) < 2 ^ 32 ->
  dns_domain_length (wire ls ++ z) = Some (Z.of_nat (length (wire ls))).
Proof.
  intros Hl Hs. unfold dns_domain_length. rewrite (domain_end_ok ls [] z) by (done || (rewrite length_app; pose proof (wire_count ls); lia)).
  cbn [mbind option_bind length]. rewrite u32_id by (unfold is_u32; lia). done.
Qed.

Definition live (m : mem) (d : option nat) : Prop := match d with Some b => is_Some (blocks m !! b) | None => True end.

(** A new block with [name] has taken the place of the block of [d]. *)
Record stored (m : mem) (d : option nat) (name : list Z) (m' : mem) (d' : option nat) : Prop := Stored {
  st_wf : mwf m';
  st_name : exists b, d' = Some b /\ blocks m !! b = None /\ blocks m' !! b = Some name;
  st_rest : rest m' d' = rest m d;
  st_answers : forall x, x ∈ answers m' -> x ∈ answers m
}.

Lemma store_name_ok (m : mem) (d : option nat) (name z : list Z) (n : Z) (R : Type) (no : mem -> R) (yes : mem -> nat -> R) :
  mwf m -> live m d -> n = Z.of_nat (length name) -> 
  let res := (let '(x, m) := malloc m n in
    match x with
    | None => Some (no m)
    | Some b => m ← mcopy m b 0 n (Const (name ++ z)); m ← free m d; Some (yes m b)
    end) in
  (exists m', res = Some (no m') /\ refused m m') \/ exists m' b, res = Some (yes m' b) /\ stored m d name m' (Some b).
Proof.
  intros Hm Hd Hn. cbv zeta.
  destruct (malloc_ok m n Hm) as [(b & m1 & l & -> & [W R' N A] & Hb & Hl)|(m1 & -> & Hr)]; [right|left; by exists m1].
  unfold mcopy, on_block. cbn [source mbind option_bind]. rewrite Hb. cbn [mbind option_bind].
  assert (Z.to_nat n = length name) as En by lia. rewrite En. rewrite byte_copy_spec by (simpl; rewrite ?length_app; lia).
  cbn [mbind option_bind src_block]. assert (splice l 0 (take (length name) (name ++ z)) = name) as ->.
  { rewrite take_app_length. unfold splice. cbn [take app]. rewrite drop_ge by lia. apply app_nil_r. }
  assert (forall c, d = Some c -> c <> b) as Hne by (intros c -> ->; cbn in Hd; rewrite N in Hd; by destruct Hd).
  assert (mwf (put m1 b name)) as Hw by (apply mwf_put; [done|by eexists]).
  cbn [rest] in R'. destruct d as [c|].
  - cbn [live] in Hd. destruct Hd as [lc Hc]. specialize (Hne c eq_refl). unfold free.
    assert (blocks (put m1 b name) !! c = Some lc) as ->.
    { cbn. rewrite lookup_insert_ne by done. rewrite <- Hc, <- R'. by rewrite lookup_delete_ne. }
    cbn [mbind option_bind]. eexists _, b. split; [done|]. split.
    + eapply mwf_sub; [exact Hw|cbn; set_solver|done].
    + exists b. split; [done|]. split; [done|]. cbn. rewrite lookup_delete_ne by done. apply lookup_insert_eq.
    + cbn. rewrite <- R'. rewrite (delete_delete _ b c). f_equal. apply delete_insert_eq.
    + exact A.
  - cbn [free mbind option_bind]. eexists _, b. split; [done|]. split; [done| | |exact A].
    + exists b. split; [done|]. split; [done|]. cbn. apply lookup_insert_eq.
    + cbn. rewrite <- R'. apply delete_insert_eq.
Qed.

Lemma domain_copy_ok (m : mem) (d : option nat) ls z :
  mwf m -> live m d -> Forall (fun l => (1 <= length l)%nat) ls -> Z.of_nat (length (wire ls)) < 2 ^ 32 ->
  (exists m', dns_domain_copy m d (Const (wire ls ++ z)) = Some (0, m', d) /\ refused m m') \/
  exists m' d', dns_domain_copy m d (Const (wire ls ++ z)) = Some (Z.of_nat (length (wire ls)), m', d') /\ stored m d (wire ls) m' d'.
Proof.
  intros Hm Hd Hl Hs. unfold dns_domain_copy. cbn [view mbind option_bind]. rewrite domain_length_ok by done. cbn [mbind option_bind].
  destruct (store_name_ok m d (wire ls) z (Z.of_nat (length (wire ls))) _ (fun m => (0, m, d))
    (fun m b => (Z.of_nat (length (wire ls)), m, Some b)) Hm Hd eq_refl) as [(m' & E & H)|(m' & b & E & H)]; [left|right].
  - exists m'. by split.
  - exists m', (Some b). by split.
Qed.

(** * Names with dots *)

Definition dot_char (c : Z) : list Z := if is_plain (to_lower c) then [to_lower c] else octal (to_lower c).
Definition dots_label (l : list Z) : list Z := concat (map dot_char l).
Fixpoint dots_from (ls : list (list Z)) : list Z :=
  match ls with
  | [] => []
  | [l] => dots_label l
  | l :: ls => dots_label l ++ "."%C :: dots_from ls
  end.
Definition dots (ls : list (list Z)) : list Z := match ls with [] => lit "." | _ => dots_from ls end.

Lemma dot_char_length c : (1 <= length (dot_char c) <= 4)%nat.
Proof. unfold dot_char. destruct (is_plain _); cbn; lia. Qed.

Lemma dots_label_length l : (length (dots_label l) <= 4 * length l)%nat.
Proof.
  induction l as [|c l IH]; [done|]. unfold dots_label in *. cbn [map concat length]. rewrite length_app.
  pose proof (dot_char_length c). lia.
Qed.

Lemma dots_from_length ls : (length (dots_from ls) <= 4 * length (wire_labels ls))%nat.
Proof.
  induction ls as [|l [|l' ls] IH]; [done| |].
  - cbn [dots_from]. pose proof (dots_label_length l). unfold wire_labels. cbn [map concat]. rewrite app_nil_r. cbn. lia.
  - cbn [dots_from] in *. rewrite length_app. cbn [length]. pose proof (dots_label_length l).
    change (wire_labels (l :: l' :: ls)) with (Z.of_nat (length l) :: l ++ wire_labels (l' :: ls)). cbn [length]. rewrite length_app. lia.
Qed.

Lemma reaches_then (m : mem) (sa : stralloc) (ys zs : list Z) (r : result) (k : mem -> stralloc -> result) :
  reaches m sa ys r ->
  (forall m' sa', evolves m sa m' sa' -> rep m' sa' ys -> reaches m' sa' zs (k m' sa')) ->
  reaches m sa zs ('(ok, m, sa) ← r; if (ok : bool) then k m sa else Some (false, m, sa)).
Proof.
  intros (ok & m1 & sa1 & xs & -> & E & R & Hok & Hf) Hk. cbn [mbind option_bind]. destruct ok.
  - rewrite (Hok eq_refl) in R. destruct (Hk m1 sa1 E R) as (ok & m2 & sa2 & ws & -> & E2 & R2 & Hok2 & Hf2).
    exists ok, m2, sa2, ws. split; [done|]. split; [by eapply evolves_trans|].
    split; [done|]. split; [done|]. intros Ho. apply E. by apply Hf2.
  - by exists false, m1, sa1, xs.
Qed.

Lemma yields_reaches (m : mem) (sa : stralloc) xs ys r : yields m sa xs ys r -> reaches m sa ys r.
Proof. intros (ok & m' & sa' & -> & E & R & Hf). eexists ok, m', sa', _. split; [done|]. split; [done|]. split; [exact R|]. by destruct ok. Qed.

Lemma todot_char_ok (m : mem) (out : stralloc) xs c :
  rep m out xs -> small (Z.of_nat (length xs) + 4) -> yields m out xs (xs ++ dot_char c) (todot_char m out c).
Proof.
  intros H Hs. unfold todot_char, dot_char. unfold small in Hs. destruct (is_plain _).
  - apply append_ok; [done|apply reads_all|unfold small; lia].
  - apply catb_ok; [done|apply reads_all|done|unfold small; lia].
Qed.

(** The bytes behind the pointer. *)
Lemma reads_load (m : mem) (sa : stralloc) (d : ptr) ys i c :
  reads m sa d ys -> ys !! i = Some c -> exists l, view m d = Some l /\ load l i = Some c /\ (length ys <= length l)%nat.
Proof.
  intros [(l & Hv & Ht) _] Hi. exists l. split; [done|]. rewrite <- Ht in Hi. pose proof (lookup_lt_Some _ _ _ Hi) as Hl. rewrite Ht in Hl.
  split; [|apply (f_equal length) in Ht; rewrite length_take in Ht; lia]. unfold load. by rewrite lookup_take_lt in Hi by lia.
Qed.

Lemma todot_label_ok (l : list Z) : forall (m : mem) (out : stralloc) xs (d : ptr) ys pos,
  rep m out xs -> reads m out d ys -> take (length l) (drop pos ys) = l -> small (Z.of_nat (length xs) + 4 * Z.of_nat (length l)) ->
  reaches m out (xs ++ dots_label l) (todot_label m out d pos (length l)).
Proof.
  induction l as [|c l IH]; intros m out xs d ys pos H Hr Ht Hs.
  - cbn. apply yields_reaches with xs. exists true, m, out. rewrite app_nil_r. split; [done|]. split; [|done]. by destruct out; apply evolves_refl, H.
  - cbn [todot_label length] in *. destruct (drop pos ys) as [|c' rest] eqn:Ed; [done|]. cbn [take] in Ht. injection Ht as -> Ht.
    assert (ys !! pos = Some c) as Hc by (rewrite <- (Nat.add_0_r pos), <- lookup_drop, Ed; done).
    destruct (reads_load m out d ys pos c Hr Hc) as (v & -> & Ev & _). cbn [mbind option_bind]. rewrite Ev. cbn [mbind option_bind].
    unfold small in Hs. change (dots_label (c :: l)) with (dot_char c ++ dots_label l). rewrite app_assoc.
    apply (reaches_bind _ _ xs (xs ++ dot_char c)); [apply todot_char_ok; [done|unfold small; lia]|].
    intros m' out' E R. pose proof (dot_char_length c). apply (IH _ _ _ d ys); [done|by eapply reads_evolves| |].
    + by rewrite <- Nat.add_1_r, <- drop_drop, Ed.
    + unfold small. rewrite length_app. lia.
Qed.

Lemma todot_loop_ok (ls : list (list Z)) : forall (m : mem) (out : stralloc) xs (d : ptr) ys pos fuel,
  ls <> [] -> Forall (fun l => (1 <= length l)%nat) ls -> rep m out xs -> reads m out d ys -> drop pos ys = wire ls ->
  small (Z.of_nat (length xs) + 4 * Z.of_nat (length (wire ls))) -> (length ls <= fuel)%nat ->
  reaches m out (xs ++ dots_from ls) (todot_loop m out d pos fuel).
Proof.
  induction ls as [|l ls IH]; intros m out xs d ys pos fuel Hne Hl H Hr Hd Hs Hf; [done|].
  destruct fuel as [|fuel]; [cbn in Hf; lia|]. apply list.Forall_cons in Hl as [H1 Hl]. cbn [todot_loop].
  rewrite wire_cons in Hd, Hs. unfold small in Hs. cbn [length] in Hs. rewrite length_app in Hs.
  assert (forall i, ys !! (pos + i)%nat = (Z.of_nat (length l) :: l ++ wire ls) !! i) as Hat by (intros i; by rewrite <- lookup_drop, Hd).
  assert (ys !! pos = Some (Z.of_nat (length l))) as Hc by (rewrite <- (Nat.add_0_r pos), Hat; done).
  destruct (reads_load m out d ys pos _ Hr Hc) as (v & -> & Ev & _). cbn [mbind option_bind]. rewrite Ev. cbn [mbind option_bind]. rewrite Nat2Z.id.
  assert (drop (S pos) ys = l ++ wire ls) as Hd1 by (rewrite <- Nat.add_1_r, <- drop_drop, Hd; done).
  assert (drop (S pos + length l) ys = wire ls) as Hd2 by (rewrite <- drop_drop, Hd1; apply drop_app_length).
  match goal with |- reaches _ _ _ (?r ≫= _) => assert (reaches m out (xs ++ dots_label l) r) as Hlab end.
  { apply (todot_label_ok l _ _ _ _ ys); [done|done|by rewrite Hd1, take_app_length|unfold small; lia]. }
  destruct Hlab as (ok & m1 & out1 & ws & -> & E1 & R1 & Hok & Hno). cbn [mbind option_bind]. destruct ok; cbn [negb].
  2:{ by exists false, m1, out1, ws. }
  rewrite (Hok eq_refl) in R1. pose proof (reads_evolves _ _ _ _ _ _ E1 Hr) as Hr1.
  assert (forall zs r, reaches m1 out1 zs r -> reaches m out zs r) as Hgo.
  { intros zs r (ok & m2 & out2 & ws2 & -> & E2 & R2 & Hok2 & Hno2). exists ok, m2, out2, ws2. split; [done|].
    split; [by eapply evolves_trans|]. split; [done|]. split; [done|]. intros Ho. apply E1. by apply Hno2. }
  apply Hgo. pose proof (dots_label_length l). destruct ls as [|l' ls].
  - assert (ys !! (S pos + length l)%nat = Some 0) as Hz by (rewrite <- (Nat.add_0_r (S pos + length l)), <- lookup_drop, Hd2; done).
    destruct (reads_load m1 out1 d ys _ 0 Hr1 Hz) as (v1 & -> & Ev1 & _). cbn [mbind option_bind]. rewrite Ev1. cbn.
    eexists true, m1, out1, _. split; [done|]. split; [by destruct out1; apply evolves_refl, R1|]. by split.
  - assert (ys !! (S pos + length l)%nat = Some (Z.of_nat (length l'))) as Hz.
    { rewrite <- (Nat.add_0_r (S pos + length l)), <- lookup_drop, Hd2, wire_cons. done. }
    destruct (reads_load m1 out1 d ys _ _ Hr1 Hz) as (v1 & -> & Ev1 & _). cbn [mbind option_bind]. rewrite Ev1. cbn [mbind option_bind].
    apply list.Forall_cons in Hl as Hl'. destruct Hl' as [H1' _]. zfalse (Z.of_nat (length l') =? 0).
    change (dots_from (l :: l' :: ls)) with (dots_label l ++ [ "."%C ] ++ dots_from (l' :: ls)). rewrite !app_assoc.
    apply (reaches_bind _ _ (xs ++ dots_label l) ((xs ++ dots_label l) ++ ["."%C])); [apply append_ok; [done|apply reads_all|unfold small; rewrite length_app; lia]|].
    intros m2 out2 E2 R2. apply (IH _ _ _ d ys); [done|done|done|by eapply reads_evolves|done| |cbn in Hf |- *; lia].
    unfold small. rewrite !length_app. cbn [length]. lia.
Qed.

Lemma todot_cat_ok (m : mem) (out : stralloc) xs (d : ptr) ls :
  Forall (fun l => (1 <= length l)%nat) ls -> rep m out xs -> reads m out d (wire ls) ->
  small (Z.of_nat (length xs) + 4 * Z.of_nat (length (wire ls))) ->
  reaches m out (xs ++ dots ls) (dns_domain_todot_cat m out d).
Proof.
  intros Hl H Hr Hs. unfold dns_domain_todot_cat. pose proof (wire_count ls) as Hcnt. destruct ls as [|l ls].
  - destruct (reads_load m out d (wire []) 0 0 Hr eq_refl) as (v & -> & Ev & Hlen). cbn [mbind option_bind]. rewrite Ev. cbn [mbind option_bind].
    cbn. eapply yields_reaches. apply append_ok; [done|apply reads_all|]. unfold small in *. cbn in Hs. lia.
  - destruct (reads_load m out d (wire (l :: ls)) 0 (Z.of_nat (length l)) Hr) as (v & Hv & Ev & Hlen); [by rewrite wire_cons|].
    rewrite Hv. cbn [mbind option_bind]. rewrite Ev. cbn [mbind option_bind]. apply list.Forall_cons in Hl as Hl'. destruct Hl' as [H1 _].
    zfalse (Z.of_nat (length l) =? 0). apply (todot_loop_ok (l :: ls) _ _ _ d (wire (l :: ls))); [done..|lia].
Qed.

(** ** Reading them back *)

Lemma octal_back c rest n : is_u8 c -> exists d1 d2 d3, octal c = ["\"%C; d1; d2; d3] /\
  octal_escape d1 (d2 :: d3 :: rest) (S (S n)) = Some (c, rest, n).
Proof.
  intros Hc. unfold octal. do 3 eexists. split; [done|].
  set (d1 := _ + Z.land (Z.shiftr (Z.shiftr c 3) 3) 7). set (d2 := _ + Z.land (Z.shiftr c 3) 7). set (d3 := _ + Z.land c 7).
  assert (is_octal d1 && is_octal d2 && is_octal d3 = true) as Ho by (unfold d1, d2, d3, is_octal; by_bytes c).
  apply andb_true_iff in Ho as [[Ho1 Ho2]%andb_true_iff Ho3].
  assert (u8 (u8 (Z.shiftl (u8 (u8 (Z.shiftl (d1 - "0"%C) 3) + (d2 - "0"%C))) 3) + (d3 - "0"%C)) = c) as E.
  { apply Z.eqb_eq. unfold d1, d2, d3. by_bytes c. }
  unfold octal_escape. rewrite Ho1. unfold octal_digit, load. cbn [lookup list_lookup mbind option_bind]. rewrite Ho2.
  cbn [drop lookup list_lookup mbind option_bind]. rewrite Ho3. cbn [mbind option_bind]. rewrite E. done.
Qed.

Lemma to_lower_u8 c : is_u8 c -> is_u8 (to_lower c).
Proof. unfold to_lower, is_u8. intros. destruct (_ && _) eqn:E; lia. Qed.

Lemma fromdot_char c rest n label name fuel : is_u8 c -> (length label < 63)%nat ->
  fromdot_loop (dot_char c ++ rest) (length (dot_char c) + n) label name (S fuel) =
  fromdot_loop rest n (label ++ [to_lower c]) name fuel.
Proof.
  intros Hc Hl. apply to_lower_u8 in Hc. unfold dot_char. destruct (is_plain (to_lower c)) eqn:Ep.
  - set (x := to_lower c) in *. cbn [length app fromdot_loop Nat.add]. unfold load. cbn [lookup list_lookup mbind option_bind drop].
    unfold is_plain in Ep. zfalse (x =? "."%C). zfalse (x =? "\"%C). by replace (63 <=? length label)%nat with false by lia.
  - destruct (octal_back (to_lower c) rest n Hc) as (d1 & d2 & d3 & -> & E). cbn [length app fromdot_loop Nat.add]. unfold load.
    cbn [lookup list_lookup mbind option_bind drop]. change ("\"%C =? "."%C) with false. change ("\"%C =? "\"%C) with true. cbn match.
    rewrite E. cbn [mbind option_bind]. by replace (63 <=? length label)%nat with false by lia.
Qed.

Lemma fromdot_label (l : list Z) : forall rest n label name fuel, bytes l -> (length label + length l <= 63)%nat ->
  fromdot_loop (dots_label l ++ rest) (length (dots_label l) + n) label name (length l + fuel) =
  fromdot_loop rest n (label ++ map to_lower l) name fuel.
Proof.
  induction l as [|c l IH]; intros rest n label name fuel Hb Hl; [by rewrite app_nil_r|].
  apply list.Forall_cons in Hb as [Hc Hb]. change (dots_label (c :: l)) with (dot_char c ++ dots_label l). cbn [length] in *.
  rewrite length_app, <- app_assoc, <- Nat.add_assoc. cbn [Nat.add]. rewrite fromdot_char by (done || lia).
  rewrite IH by (done || (rewrite length_app; cbn; lia)). by rewrite <- app_assoc.
Qed.

Definition lower (ls : list (list Z)) : list (list Z) := map (map to_lower) ls.

Lemma wire_labels_snoc ls l : wire_labels (ls ++ [l]) = wire_labels ls ++ Z.of_nat (length l) :: l.
Proof. unfold wire_labels. rewrite map_app, concat_app. cbn. by rewrite app_nil_r. Qed.

Lemma lower_length ls : length (wire_labels (lower ls)) = length (wire_labels ls).
Proof.
  induction ls as [|l ls IH]; [done|]. unfold wire_labels, lower in *. cbn [map concat]. rewrite !length_app. cbn [length].
  rewrite length_map. lia.
Qed.

Lemma add_label_ok name label : (length name + length label + 1 <= 255)%nat ->
  add_label name label = Some (name ++ Z.of_nat (length label) :: label).
Proof. intros. unfold add_label. by replace (255 <? length name + length label + 1)%nat with false by lia. Qed.

Lemma fromdot_dots (ls : list (list Z)) : forall z name fuel, ls <> [] -> Forall label_ok ls ->
  (length name + length (wire_labels ls) <= 255)%nat -> (length (dots_from ls) < fuel)%nat ->
  exists lab nm, fromdot_loop (dots_from ls ++ z) (length (dots_from ls)) [] name fuel = Some (Some (lab, nm)) /\ lab <> [] /\
    nm ++ Z.of_nat (length lab) :: lab = name ++ wire_labels (lower ls).
Proof.
  induction ls as [|l ls IH]; intros z name fuel Hne Hl Hs Hf; [done|]. apply list.Forall_cons in Hl as [[Hll Hlb] Hl].
  assert (forall l, (length l <= length (dots_label l))%nat) as Hlen.
  { intros x. induction x as [|c x IHx]; [done|]. change (dots_label (c :: x)) with (dot_char c ++ dots_label x).
    rewrite length_app. pose proof (dot_char_length c). cbn. lia. }
  pose proof (Hlen l). destruct ls as [|l' ls].
  - cbn [dots_from] in *. exists (map to_lower l), name. rewrite <- (Nat.add_0_r (length (dots_label l))) at 1.
    replace fuel with (length l + S (fuel - length l - 1))%nat by lia. rewrite fromdot_label by (done || (cbn; lia)).
    cbn [fromdot_loop app]. split; [done|]. split; [destruct l; [cbn in Hll; lia|done]|]. unfold lower, wire_labels. cbn. by rewrite app_nil_r.
  - change (dots_from (l :: l' :: ls)) with (dots_label l ++ "."%C :: dots_from (l' :: ls)) in *. rewrite length_app in *. cbn [length] in Hf |- *.
    change (wire_labels (l :: l' :: ls)) with ((Z.of_nat (length l) :: l) ++ wire_labels (l' :: ls)) in Hs.
    rewrite length_app in Hs. cbn [length] in Hs.
    rewrite <- app_assoc. replace fuel with (length l + S (fuel - length l - 1))%nat by lia. rewrite fromdot_label by (done || (cbn; lia)).
    cbn [app fromdot_loop]. unfold load. cbn [lookup list_lookup mbind option_bind drop]. change ("."%C =? "."%C) with true. cbn match.
    rewrite length_map. replace (0 <? length l)%nat with true by lia. rewrite add_label_ok by (rewrite length_map; lia). rewrite drop_0.
    destruct (IH z (name ++ Z.of_nat (length (map to_lower l)) :: map to_lower l) (fuel - length l - 1)%nat) as (lab & nm & -> & Hlab & E);
      [done|done|rewrite length_app; cbn [length]; rewrite length_map; lia|lia|].
    exists lab, nm. split; [done|]. split; [done|]. rewrite E, <- app_assoc. done.
Qed.

Lemma fromdot_dots_all ls z : Forall label_ok ls -> (length (wire_labels ls) <= 255)%nat ->
  exists lab nm, fromdot_loop (dots ls ++ z) (length (dots ls)) [] [] (S (length (dots ls))) = Some (Some (lab, nm)) /\
    (if (0 <? length lab)%nat then add_label nm lab else Some nm) = Some (wire_labels (lower ls)).
Proof.
  intros Hls Hs. destruct ls as [|l ls]; [by exists [], []|].
  destruct (fromdot_dots (l :: ls) z [] (S (length (dots_from (l :: ls))))) as (lab & nm & E & Hne & Ew); [done|done|done|lia|].
  exists lab, nm. split; [exact E|]. replace (0 <? length lab)%nat with true by (destruct lab; [done|cbn; lia]).
  pose proof (f_equal length Ew) as El. cbn [app] in El, Ew. rewrite length_app, lower_length in El. cbn [length] in El.
  rewrite add_label_ok by lia. by rewrite Ew.
Qed.

(** ** Any text *)

Lemma octal_escape_ok ch buf n : is_u8 ch -> bytes buf -> (n <= length buf)%nat ->
  exists ch' buf' n', octal_escape ch buf n = Some (ch', buf', n') /\ is_u8 ch' /\ bytes buf' /\ (n' <= length buf')%nat /\ (n' <= n)%nat.
Proof.
  intros Hc Hb Hn.
  assert (forall ch buf n, bytes buf -> (n <= length buf)%nat -> is_u8 ch -> exists more ch' buf' n',
    octal_digit ch buf n = Some (more, ch', buf', n') /\ is_u8 ch' /\ bytes buf' /\ (n' <= length buf')%nat /\ (n' <= n)%nat) as Hd.
  { clear. intros ch buf n Hb Hn Hc. unfold octal_digit. destruct n as [|n]; [by eexists _, _, _, _|].
    destruct buf as [|c buf]; [cbn in Hn; lia|]. cbn. apply list.Forall_cons in Hb as Hb'. destruct Hb' as [_ Hb'].
    destruct (is_octal c); eexists _, _, _, _; (split; [done|]).
    - split; [unfold u8, is_u8; zmod|]. rewrite drop_0. split; [done|]. cbn in Hn. split; lia.
    - split; [done|]. split; [done|]. split; [done|lia]. }
  unfold octal_escape. destruct (is_octal ch) eqn:Eo; [|eexists _, _, _; split; [done|]; split_and!; try done; lia].
  destruct (Hd (ch - "0"%C) buf n Hb Hn) as (more & c1 & b1 & n1 & -> & H1 & H2 & H3 & H4); [unfold is_octal, is_u8 in *; lia|].
  cbn [mbind option_bind]. destruct more.
  - destruct (Hd c1 b1 n1 H2 H3 H1) as (more & c2 & b2 & n2 & -> & G1 & G2 & G3 & G4). cbn [mbind option_bind].
    eexists _, _, _. split; [done|]. split_and!; try done. lia.
  - eexists _, _, _. split; [done|]. by split_and!.
Qed.

(** What is taken is a name: labels of at most 63 bytes, 255 in all. *)
Definition part_ok (label name : list Z) : Prop :=
  (length label <= 63)%nat /\ bytes label /\ (length name <= 255)%nat /\ exists ls, name = wire_labels ls /\ Forall label_ok ls.

Lemma add_label_wf label name : part_ok label name -> label <> [] ->
  match add_label name label with None => True | Some name => part_ok [] name end.
Proof.
  intros (Hl & Hb & Hn & ls & -> & Hls) Hne. unfold add_label. destruct (Nat.ltb_spec 255 (length (wire_labels ls) + length label + 1)); [done|].
  split; [cbn; lia|]. split; [constructor|]. split; [rewrite length_app; cbn; lia|]. exists (ls ++ [label]). rewrite wire_labels_snoc.
  split; [done|]. apply list.Forall_app. split; [done|]. apply list.Forall_cons. split; [|constructor]. split; [|done].
  destruct label; [done|]. cbn in *. lia.
Qed.

Lemma fromdot_wf (fuel : nat) : forall buf n label name,
  (n <= length buf)%nat -> (n < fuel)%nat -> bytes buf -> part_ok label name ->
  exists r, fromdot_loop buf n label name fuel = Some r /\ match r with None => True | Some (label, name) => part_ok label name end.
Proof.
  induction fuel as [|fuel IH]; intros buf n label name Hn Hf Hb Hok; [lia|]. cbn [fromdot_loop].
  destruct n as [|n]; [by eexists|]. destruct buf as [|ch buf]; [cbn in Hn; lia|]. unfold load. cbn [lookup list_lookup mbind option_bind drop].
  rewrite drop_0. apply list.Forall_cons in Hb as [Hc Hb]. cbn [length] in Hn.
  assert (forall ch buf n, is_u8 ch -> bytes buf -> (n <= length buf)%nat -> (n < fuel)%nat -> exists r,
    (if (63 <=? length label)%nat then Some None else fromdot_loop buf n (label ++ [ch]) name fuel) = Some r /\
    match r with None => True | Some (label, name) => part_ok label name end) as Hput.
  { intros c b k Hc' Hb' Hk Hk'. destruct (Nat.leb_spec 63 (length label)); [by eexists|]. apply IH; [done|done|done|].
    destruct Hok as (? & ? & ?). split; [rewrite length_app; cbn; lia|]. split; [|done]. apply list.Forall_app. split; [done|by constructor]. }
  destruct (ch =? "."%C).
  - destruct (Nat.ltb_spec 0 (length label)) as [H0|H0]; [|apply IH; [lia|lia|done|done]].
    pose proof (add_label_wf label name Hok) as Ha. destruct (add_label name label) as [name'|]; [|by eexists].
    apply IH; [lia|lia|done|]. apply Ha. intros ->. cbn in H0. lia.
  - destruct (ch =? "\"%C).
    + destruct n as [|n]; [by eexists|]. destruct buf as [|c2 buf]; [cbn in Hn; lia|]. cbn [lookup list_lookup mbind option_bind drop].
      rewrite drop_0. apply list.Forall_cons in Hb as [Hc2 Hb]. cbn [length] in Hn.
      destruct (octal_escape_ok c2 buf n Hc2 Hb) as (c' & b' & n' & -> & H1 & H2 & H3 & H4); [lia|]. cbn [mbind option_bind].
      apply Hput; [done|done|done|lia].
    + apply Hput; [done|done|lia|lia].
Qed.

(** The end of [dns_domain_fromdot]: the last label, the length and the copy. *)
Lemma fromdot_end (m : mem) (d : option nat) buf n label name name' :
  mwf m -> live m d -> fromdot_loop buf n [] [] (S n) = Some (Some (label, name)) ->
  (if (0 <? length label)%nat then add_label name label else Some name) = Some name' -> (length name' <= 254)%nat ->
  (exists m', dns_domain_fromdot m d buf n = Some (0, m', d) /\ refused m m') \/
  exists m' d', dns_domain_fromdot m d buf n = Some (1, m', d') /\ stored m d (name' ++ [0]) m' d'.
Proof.
  intros Hm Hd E Ea Hl. unfold dns_domain_fromdot. rewrite E. cbn [mbind option_bind]. rewrite Ea.
  replace (255 <? length name' + 1)%nat with false by lia.
  destruct (store_name_ok m d (name' ++ [0]) [] (Z.of_nat (length (name' ++ [0]))) _ (fun m => (0, m, d))
    (fun m b => (1, m, Some b)) Hm Hd eq_refl) as [(m' & E' & H)|(m' & b & E' & H)]; rewrite app_nil_r in E'; [left|right].
  - exists m'. by split.
  - exists m', (Some b). by split.
Qed.

Lemma fromdot_total (m : mem) (d : option nat) buf n :
  mwf m -> live m d -> bytes buf -> (n <= length buf)%nat ->
  exists r m' d', dns_domain_fromdot m d buf n = Some (r, m', d') /\
    (r = 0 /\ d' = d /\ blocks m' = blocks m \/
     r = 1 /\ exists ls, Forall label_ok ls /\ (length (wire ls) <= 255)%nat /\ stored m d (wire ls) m' d').
Proof.
  intros Hm Hd Hb Hn. destruct (fromdot_wf (S n) buf n [] []) as (r & E & Hr); [done|lia|done| |].
  { split; [cbn; lia|]. split; [constructor|]. split; [cbn; lia|]. by exists []. }
  destruct r as [[label name]|].
  2:{ exists 0, m, d. split; [|by left]. unfold dns_domain_fromdot. by rewrite E. }
  assert ((if (0 <? length label)%nat then add_label name label else Some name) = None \/
    exists ls, (if (0 <? length label)%nat then add_label name label else Some name) = Some (wire_labels ls) /\ Forall label_ok ls) as [Ea|(ls & Ea & Hls)].
  { pose proof (add_label_wf label name Hr) as Ha. destruct (Nat.ltb_spec 0 (length label)) as [H0|H0].
    - destruct (add_label name label) as [nm|]; [right|by left]. destruct Ha as (_ & _ & _ & ls & -> & Hls); [by intros ->; cbn in H0; lia|].
      by exists ls.
    - right. destruct Hr as (_ & _ & _ & ls & -> & Hls). by exists ls. }
  { exists 0, m, d. split; [|by left]. unfold dns_domain_fromdot. rewrite E. cbn [mbind option_bind]. by rewrite Ea. }
  destruct (decide (length (wire_labels ls) <= 254)%nat) as [Hs|Hs].
  - destruct (fromdot_end m d buf n label name (wire_labels ls) Hm Hd E Ea Hs) as [(m' & E' & (_ & _ & Hbl & _))|(m' & d' & E' & H)].
    + exists 0, m', d. split; [done|]. by left.
    + exists 1, m', d'. split; [done|]. right. split; [done|]. exists ls. split; [done|]. split; [|done]. unfold wire. rewrite length_app. cbn. lia.
  - exists 0, m, d. split; [|by left]. unfold dns_domain_fromdot. rewrite E. cbn [mbind option_bind]. rewrite Ea.
    by replace (255 <? length (wire_labels ls) + 1)%nat with true by lia.
Qed.

(** ** Comparing names *)

Lemma case_fold_to_lower c : is_u8 c -> case_fold c = to_lower c.
Proof. intros H. apply Z.eqb_eq. by_bytes c. Qed.

Lemma case_diffb_ok (a : list Z) : forall b z z', bytes a -> bytes b -> length a = length b ->
  exists d, case_diffb (a ++ z) (length a) (b ++ z') = Some d /\ (d = 0 <-> map to_lower a = map to_lower b).
Proof.
  induction a as [|x a IH]; intros [|y b] z z' Ha Hb Hl; try done.
  { by exists 0. }
  apply list.Forall_cons in Ha as [Hx Ha]. apply list.Forall_cons in Hb as [Hy Hb]. injection Hl as Hl.
  cbn [app length case_diffb map]. rewrite !case_fold_to_lower by done. destruct (Z.eqb_spec (to_lower x) (to_lower y)) as [E|E]; cbn [negb].
  - destruct (IH b z z' Ha Hb Hl) as (d & -> & Hd). exists d. split; [done|]. rewrite Hd, E. split; [by intros ->|by intros [= ->]].
  - eexists. split; [done|]. split; [lia|intros [= Ex _]; by rewrite Ex in E].
Qed.

Lemma bytes_wire ls : Forall label_ok ls -> bytes (wire ls).
Proof.
  induction 1 as [|l ls [Hl Hb] _ IH]; [by constructor|]. rewrite wire_cons. apply list.Forall_cons. split; [unfold is_u8; lia|].
  apply list.Forall_app. by split.
Qed.

(** No letter is the length of a label. *)
Lemma lower_wire ls : Forall label_ok ls -> map to_lower (wire ls) = wire (lower ls).
Proof.
  induction 1 as [|l ls [Hl Hb] _ IH]; [done|]. change (lower (l :: ls)) with (map to_lower l :: lower ls). rewrite !wire_cons.
  cbn [map]. rewrite map_app, IH, length_map. f_equal. unfold to_lower. by replace ("A"%C <=? Z.of_nat (length l)) with false by lia.
Qed.

Lemma wire_inj ls : forall ls', Forall (fun l => (1 <= length l)%nat) ls -> Forall (fun l => (1 <= length l)%nat) ls' ->
  wire ls = wire ls' -> ls = ls'.
Proof.
  induction ls as [|l ls IH]; intros [|l' ls'] H H' E; [done| | |].
  - apply list.Forall_cons in H' as [H1 _]. rewrite wire_cons in E. injection E as E _. lia.
  - apply list.Forall_cons in H as [H1 _]. rewrite wire_cons in E. injection E as E _. lia.
  - apply list.Forall_cons in H as [_ H]. apply list.Forall_cons in H' as [_ H']. rewrite !wire_cons in E. injection E as El E.
    apply app_inj_1 in E as [-> E]; [|lia]. f_equal. by apply IH.
Qed.

Lemma label_ok_nonempty ls : Forall label_ok ls -> Forall (fun l => (1 <= length l)%nat) ls.
Proof. intros H. eapply list.Forall_impl; [exact H|]. intros l [Hl _]. lia. Qed.

Lemma lower_nonempty ls : Forall label_ok ls -> Forall (fun l => (1 <= length l)%nat) (lower ls).
Proof. induction 1 as [|l ls [Hl _] _ IH]; [constructor|]. apply list.Forall_cons. rewrite length_map. split; [lia|done]. Qed.

Definition small_name (ls : list (list Z)) : Prop := Forall label_ok ls /\ Z.of_nat (length (wire ls)) < 2 ^ 32.

Lemma domain_equal_ok ls ls' z z' : small_name ls -> small_name ls' ->
  dns_domain_equal (wire ls ++ z) (wire ls' ++ z') = Some (bool_decide (lower ls = lower ls')).
Proof.
  intros [H Hs] [H' Hs']. unfold dns_domain_equal. rewrite !domain_length_ok by (done || by apply label_ok_nonempty).
  cbn [mbind option_bind]. assert (lower ls = lower ls' -> length (wire ls) = length (wire ls')) as Hlen.
  { intros E. unfold wire. rewrite !length_app, <- (lower_length ls), <- (lower_length ls'). by rewrite E. }
  destruct (Z.eqb_spec (Z.of_nat (length (wire ls))) (Z.of_nat (length (wire ls')))) as [E|E]; cbn [negb].
  2:{ rewrite bool_decide_eq_false_2; [done|]. intros E2. apply E. by rewrite Hlen. }
  destruct (case_diffb_ok (wire ls) (wire ls') z z') as (d & Ed & Hd); [by apply bytes_wire..|lia|].
  rewrite Nat2Z.id, Ed. cbn [mbind option_bind]. f_equal. rewrite !lower_wire in Hd by done. apply eq_true_iff_eq. rewrite Z.eqb_eq, bool_decide_eq_true, Hd.
  split; [|by intros ->]. intros Ew. by apply wire_inj; [apply lower_nonempty..|].
Qed.

(** How many labels come before the part that is equal, if any. *)
Fixpoint suffix_at (ls little : list (list Z)) : option nat :=
  if bool_decide (lower ls = lower little) then Some 0%nat else
  match ls with [] => None | _ :: ls => S <$> suffix_at ls little end.

Lemma suffix_at_ok ls little : match suffix_at ls little with
  | Some n => (n <= length ls)%nat /\ lower (drop n ls) = lower little /\ forall k, (k < n)%nat -> lower (drop k ls) <> lower little
  | None => forall n, lower (drop n ls) <> lower little
  end.
Proof.
  induction ls as [|l ls IH]; cbn [suffix_at]; case_bool_decide as E.
  - split; [lia|]. split; [done|lia].
  - intros [|n]; exact E.
  - split; [lia|]. split; [done|lia].
  - destruct (suffix_at ls little) as [n|]; cbn [fmap option_fmap option_map].
    + destruct IH as (Hn & Hl & Hmin). split; [cbn; lia|]. split; [exact Hl|]. intros [|k] Hk; [exact E|]. apply Hmin. lia.
    + intros [|n]; [exact E|]. apply IH.
Qed.

Lemma suffix_loop_ok (ls : list (list Z)) : forall pre little z z' fuel,
  small_name ls -> small_name little -> (length ls < fuel)%nat ->
  suffix_loop (pre ++ wire ls ++ z) (wire little ++ z') (length pre) fuel =
  Some ((fun n => length pre + length (wire_labels (take n ls)))%nat <$> suffix_at ls little).
Proof.
  induction ls as [|l ls IH]; intros pre little z z' fuel Hs Hs' Hf; (destruct fuel as [|fuel]; [cbn in Hf; lia|]);
    cbn [suffix_loop suffix_at]; rewrite drop_app_length, domain_equal_ok by done; cbn [mbind option_bind]; case_bool_decide as E.
  - cbn. by rewrite Nat.add_0_r.
  - unfold load. change (wire [] ++ z) with (0 :: z). by rewrite list_lookup_middle.
  - cbn. by rewrite Nat.add_0_r.
  - destruct Hs as [Hl Hs]. apply list.Forall_cons in Hl as [[Hl1 Hl2] Hl]. rewrite wire_cons in Hs |- *. cbn [length] in Hs. rewrite length_app in Hs.
    unfold load. cbn [app]. rewrite list_lookup_middle by done. cbn [mbind option_bind]. zfalse (Z.of_nat (length l) =? 0). rewrite Nat2Z.id.
    replace (pre ++ Z.of_nat (length l) :: (l ++ wire ls) ++ z) with ((pre ++ Z.of_nat (length l) :: l) ++ wire ls ++ z)
      by (by rewrite <- !app_assoc).
    replace (S (length pre) + length l)%nat with (length (pre ++ Z.of_nat (length l) :: l)) by (rewrite length_app; cbn; lia).
    rewrite IH by (done || (split; [done|lia]) || (cbn in Hf; lia)). f_equal. destruct (suffix_at ls little) as [n|]; [|done].
    cbn. f_equal. unfold wire_labels. rewrite !length_app. cbn. lia.
Qed.

(** Reading a name into memory. *)
Lemma getname_stored (buf : list Z) (len pos : Z) (m : mem) (d : option nat) :
  bytes buf -> 0 <= len <= Z.of_nat (length buf) -> len < 2 ^ 31 -> 0 <= pos -> mwf m -> live m d ->
  exists r m' d', dns_packet_getname m buf len pos d = Some (r, m', d') /\
    ((exists k ls next, compressed buf len k pos ls next /\ (k <= 999)%nat /\ (length (wire ls) <= 255)%nat /\
        Forall label_ok ls /\ dns_packet_skipname buf len pos = Some next /\
        (r = next /\ 0 < next /\ stored m d (wire ls) m' d' \/ r = 0 /\ d' = d /\ refused m m')) \/
     (forall k ls next, compressed buf len k pos ls next -> (k <= 999)%nat -> (length (wire ls) <= 255)%nat -> False) /\
        r = 0 /\ m' = m /\ d' = d).
Proof.
  intros Hb Hlen H32 Hp Hm Hd. unfold dns_packet_getname, dns_packet_skipname.
  destruct (getname_ok buf len Hb Hlen H32 1000 0 pos 0 []) as [(-> & Hno)|(k & ls & next & -> & Hc & Hk & Hs)]; [done|lia|lia| |]; cbn [mbind option_bind].
  - exists 0, m, d. split; [done|]. right. split; [|done]. intros k ls next Hc Hk Hs. by eapply Hno.
  - pose proof (compressed_labels buf len Hb _ _ _ _ Hc) as Hls. cbn [app length] in Hs |- *. change (after 0 next) with next.
    destruct (skipname_ok buf len Hb Hlen H32 (S (Z.to_nat len)) pos Hp) as (r & -> & _ & Hskip); [lia|]. rewrite (Hskip _ _ _ Hc).
    pose proof (compressed_next buf len _ _ _ _ Hc). pose proof (wire_length ls).
    destruct (domain_copy_ok m d ls [] Hm Hd) as [(m' & E & Hr)|(m' & d' & E & Hst)]; [by apply label_ok_nonempty|lia| |];
      rewrite app_nil_r in E; rewrite E; cbn [mbind option_bind].
    + exists 0, m', d. split; [done|]. left. exists k, ls, next. split_and!; try done; try lia. by right.
    + exists next, m', d'. zfalse (Z.of_nat (length (wire ls)) =? 0). split; [done|]. left. exists k, ls, next. split_and!; try done; try lia.
      left. split; [done|]. split; [lia|done].
Qed.

(** * Theorems *)

(** C12: whatever bytes a packet of [len] bytes holds, [dns_packet_getname] ends
    and reads nothing behind it: it answers the position behind the name and
    stores the name exactly when the pointers unfold to labels of 1 to 63 bytes,
    255 bytes in all, with at most 999 steps, and otherwise answers 0 and leaves
    the old name; [dns_packet_skipname] then finds the same position. *)
Theorem dns_getname_correct (buf : list Z) (len pos : Z) (m : mem) (d : option nat) :
  bytes buf -> 0 <= len <= Z.of_nat (length buf) -> len < 2 ^ 31 -> 0 <= pos -> mwf m -> live m d ->
  exists r m' d', dns_packet_getname m buf len pos d = Some (r, m', d') /\
    ((exists k ls next, compressed buf len k pos ls next /\ (k <= 999)%nat /\ (length (wire ls) <= 255)%nat /\
        Forall label_ok ls /\ dns_packet_skipname buf len pos = Some next /\
        (r = next /\ 0 < next /\ stored m d (wire ls) m' d' \/ r = 0 /\ d' = d /\ refused m m')) \/
     (forall k ls next, compressed buf len k pos ls next -> (k <= 999)%nat -> (length (wire ls) <= 255)%nat -> False) /\
        r = 0 /\ m' = m /\ d' = d).
Proof. apply getname_stored. Qed.

(** [www.de] behind a pointer. *)
Lemma dns_getname_correct_witness : exists r m' d',
  dns_packet_getname mem0 [3; 119; 119; 119; 192; 6; 2; 100; 101; 0] 10 0 None = Some (r, m', d') /\ r = 6.
Proof.
  destruct (dns_getname_correct [3; 119; 119; 119; 192; 6; 2; 100; 101; 0] 10 0 mem0 None) as (r & m' & d' & E & _);
    [repeat (constructor; [done|]); constructor|cbn; lia|lia|lia|exact mem0_wf|done|].
  exists r, m', d'. split; [exact E|]. vm_compute in E. by injection E as <- _ _.
Defined.

(** C26: [dns_domain_todot_cat] appends a name as text, in lower case and with
    the other characters as octal numbers, or memory runs out; and
    [dns_domain_fromdot] makes from that text, whatever is behind it, the name
    in lower case. *)
Theorem dns_dot_roundtrip (ls : list (list Z)) (m : mem) (out : stralloc) (xs : list Z) (d : ptr) :
  Forall label_ok ls -> (length (wire ls) <= 255)%nat -> rep m out xs -> reads m out d (wire ls) ->
  small (Z.of_nat (length xs) + 1020) ->
  reaches m out (xs ++ dots ls) (dns_domain_todot_cat m out d) /\
  forall z m1 d1, mwf m1 -> live m1 d1 -> exists r m2 d2,
    dns_domain_fromdot m1 d1 (dots ls ++ z) (length (dots ls)) = Some (r, m2, d2) /\
    (r = 1 /\ stored m1 d1 (wire (lower ls)) m2 d2 \/ r = 0 /\ d2 = d1 /\ refused m1 m2).
Proof.
  intros Hls Hs H Hr Hsm. unfold small in Hsm. split.
  { apply todot_cat_ok; [by apply label_ok_nonempty|done|done|unfold small; lia]. }
  intros z m1 d1 Hm Hd. destruct (fromdot_dots_all ls z Hls) as (lab & nm & E & Ea).
  { unfold wire in Hs. rewrite length_app in Hs. cbn in Hs. lia. }
  destruct (fromdot_end m1 d1 (dots ls ++ z) (length (dots ls)) lab nm _ Hm Hd E Ea) as [(m2 & -> & Hf)|(m2 & d2 & -> & Hst)].
  - rewrite lower_length. unfold wire in Hs. rewrite length_app in Hs. cbn in Hs. lia.
  - exists 0, m2, d1. split; [done|]. by right.
  - exists 1, m2, d2. split; [done|]. by left.
Qed.

Lemma dns_dot_roundtrip_witness :
  reaches mem0 stralloc_init (lit "www.a\056b") (dns_domain_todot_cat mem0 stralloc_init (Const [3; 87; 119; 87; 3; 97; 46; 98; 0])) /\
  exists r m2 d2, dns_domain_fromdot mem0 None (lit "www.a\056b") 10 = Some (r, m2, d2) /\ r = 1.
Proof.
  destruct (dns_dot_roundtrip [[87; 119; 87]; [97; 46; 98]] mem0 stralloc_init [] (Const [3; 87; 119; 87; 3; 97; 46; 98; 0])) as [H1 H2].
  - repeat constructor; cbn; try lia; unfold is_u8; lia.
  - cbn. lia.
  - apply rep_init, mem0_wf.
  - apply reads_all.
  - unfold small. cbn. lia.
  - split; [exact H1|]. destruct (H2 [] mem0 None mem0_wf I) as (r & m2 & d2 & E & _). exists r, m2, d2. split; [exact E|].
    vm_compute in E. by injection E as <- _ _.
Defined.

(** C27: any text is taken without reading behind its end: [dns_domain_fromdot]
    stores a name with labels of 1 to 63 bytes, 255 bytes in all, or answers 0
    and the old name and every other object are as they were. *)
Theorem dns_domain_fromdot_safe (m : mem) (d : option nat) (buf : list Z) (n : nat) :
  mwf m -> live m d -> bytes buf -> (n <= length buf)%nat ->
  exists r m' d', dns_domain_fromdot m d buf n = Some (r, m', d') /\
    (r = 0 /\ d' = d /\ blocks m' = blocks m \/
     r = 1 /\ exists ls, Forall label_ok ls /\ (length (wire ls) <= 255)%nat /\ stored m d (wire ls) m' d').
Proof. apply fromdot_total. Qed.

Lemma dns_domain_fromdot_safe_witness :
  exists r m' d', dns_domain_fromdot mem0 None (lit "a..\7") 5 = Some (r, m', d') /\ r = 1.
Proof.
  destruct (dns_domain_fromdot_safe mem0 None (lit "a..\7") 5) as (r & m' & d' & E & _);
    [exact mem0_wf|done|repeat (constructor; [done|]); constructor|cbn; lia|].
  exists r, m', d'. split; [exact E|]. vm_compute in E. by injection E as <- _ _.
Defined.

(** C28: names are compared up to the case of letters, although their lengths are
    compared as letters too, and [dns_domain_suffix] finds the first place where
    the rest of a name is equal to another, if there is one. *)
Theorem dns_domain_compare_correct (ls little : list (list Z)) (z z' : list Z) :
  small_name ls -> small_name little ->
  dns_domain_equal (wire ls ++ z) (wire little ++ z') = Some (bool_decide (lower ls = lower little)) /\
  exists found, dns_domain_suffix (wire ls ++ z) (wire little ++ z') = Some (bool_decide (is_Some found)) /\
    match found with
    | Some n => (n <= length ls)%nat /\ lower (drop n ls) = lower little /\
        (forall k, (k < n)%nat -> lower (drop k ls) <> lower little) /\
        dns_domain_suffixpos (wire ls ++ z) (wire little ++ z') = Some (Z.of_nat (length (wire_labels (take n ls))))
    | None => (forall k, lower (drop k ls) <> lower little) /\
        dns_domain_suffixpos (wire ls ++ z) (wire little ++ z') = Some 0
    end.
Proof.
  intros H H'. split; [by apply domain_equal_ok|]. exists (suffix_at ls little). unfold dns_domain_suffix, dns_domain_suffixpos.
  pose proof (wire_count ls). rewrite (suffix_loop_ok ls [] little z z') by (done || (rewrite length_app; lia)).
  pose proof (suffix_at_ok ls little) as Hat. cbn [mbind option_bind]. destruct (suffix_at ls little) as [n|]; cbn [fmap option_fmap option_map length].
  - split; [done|]. destruct Hat as (Hn & Hl & Hmin). split; [done|]. split; [done|]. split; [done|]. f_equal. apply u32_id.
    destruct H as [_ Hs]. rewrite <- (take_drop n ls) in Hs. unfold wire, wire_labels in Hs. rewrite map_app, concat_app, !length_app in Hs.
    unfold is_u32, wire_labels. lia.
  - split; [done|]. by split.
Qed.

Lemma dns_domain_compare_correct_witness :
  dns_domain_equal (wire [lit "wWw"; lit "de"]) (wire [lit "Www"; lit "DE"]) = Some true /\
  exists found : option nat, dns_domain_suffix (wire [lit "wWw"; lit "de"]) (wire [lit "DE"]) = Some (bool_decide (is_Some found)) /\ found <> None.
Proof.
  assert (small_name [lit "wWw"; lit "de"] /\ small_name [lit "Www"; lit "DE"] /\ small_name [lit "DE"]) as (H1 & H2 & H3).
  { split_and!; (split; [repeat constructor; cbn; try lia; unfold is_u8; lia|done]). }
  destruct (dns_domain_compare_correct _ _ [] [] H1 H2) as [E _]. split; [exact E|]. clear E.
  destruct (dns_domain_compare_correct _ _ [] [] H1 H3) as [_ (found & E & Hf)]. rewrite !app_nil_r in *.
  exists found. split; [exact E|]. intros ->. destruct Hf as [Hf _]. by apply (Hf 1%nat).
Defined.

(** A pointer whose second byte is missing: the position is behind the packet. *)
Example skipname_behind : dns_packet_skipname [192] 1 0 = Some 2.
Proof. reflexivity. Qed.

(** The position 0 is that of an equal name, and the answer when there is none. *)
Example suffixpos_same : dns_domain_suffixpos (wire [lit "de"]) (wire [lit "de"]) = Some 0 /\
  dns_domain_suffixpos (wire [lit "de"]) (wire [lit "fr"]) = Some 0.
Proof. split; reflexivity. Qed.
