(* ===== verification/DnsReverse.v ===== *)
(** The names of addresses of [lib/dns/]: what [dns_name4_domain] and
    [dns_name6_domain] write, and that it fits into the arrays of the header. *)
From S2P Require Import Prelude ByteOps StrOps Digits FmtNum Pack Tai Memory Stralloc Dns DnsNames.

Definition decimal (c : Z) : list Z := dec_char <$> numeral 10 c.

(** The lower half of a byte comes first. *)
Definition halves (c : Z) : list (list Z) := [[hex_char (c mod 16)]; [hex_char (c / 16)]].

Definition in_addr : list (list Z) := [lit "in-addr"; lit "arpa"].
Definition ip6_arpa : list (list Z) := [lit "ip6"; lit "arpa"].

(** ** The parts *)

Lemma decimal_length c : is_u8 c -> (1 <= length (decimal c) <= 3)%nat.
Proof.
  intros Hc. unfold decimal. rewrite length_fmap.
  assert ((1 <=? length (numeral 10 c))%nat && (length (numeral 10 c) <=? 3)%nat = true) as E by by_bytes c.
  apply andb_true_iff in E as [?%Nat.leb_le ?%Nat.leb_le]. done.
Qed.

Lemma wire_labels_cons l ls : wire_labels (l :: ls) = Z.of_nat (length l) :: l ++ wire_labels ls.
Proof. done. Qed.

Lemma wire_app ls ls' : wire (ls ++ ls') = wire_labels ls ++ wire ls'.
Proof. unfold wire, wire_labels. by rewrite map_app, concat_app, app_assoc. Qed.

Lemma name4_loop_ok (ips : list Z) : forall pre room, bytes ips -> (4 * length ips <= length room)%nat ->
  exists room', name4_loop (pre ++ room) (length pre) ips =
      Some (pre ++ wire_labels (map decimal ips) ++ room', (length pre + length (wire_labels (map decimal ips)))%nat) /\
    (length (wire_labels (map decimal ips)) + length room' = length room)%nat /\ (length (wire_labels (map decimal ips)) <= 4 * length ips)%nat.
Proof.
  induction ips as [|c ips IH]; intros pre room Hb Hr.
  { exists room. cbn. rewrite Nat.add_0_r. split; [done|]. split; [done|lia]. }
  apply list.Forall_cons in Hb as [Hc Hb]. cbn [name4_loop map length] in *. rewrite fmt_ulong_num by (unfold is_u8, is_u64 in *; lia).
  unfold num_out. fold (decimal c). pose proof (decimal_length c Hc) as Hd. assert (length (numeral 10 c) = length (decimal c)) as -> by (unfold decimal; by rewrite length_fmap).
  destruct room as [|x room]; [cbn in Hr; lia|]. cbn [length] in Hr.
  rewrite byte_copy_spec by (cbn; rewrite ?length_app; cbn; lia). cbn [mbind option_bind src_block]. rewrite firstn_all.
  assert (splice (pre ++ x :: room) (length pre + 1) (decimal c) = pre ++ x :: decimal c ++ drop (length (decimal c)) room) as ->.
  { unfold splice. rewrite (cons_middle x), !(app_assoc pre [x]). replace (length pre + 1)%nat with (length (pre ++ [x])) by (rewrite length_app; done).
    rewrite take_app_length, drop_app_add. by rewrite <- !app_assoc. }
  rewrite store_Some by (rewrite length_app; cbn; lia). cbn [mbind option_bind].
  rewrite insert_app_r_alt, Nat.sub_diag by lia. set (n := Z.of_nat (length (decimal c))).
  change (<[0%nat:=n]> (x :: ?l)) with (n :: l).
  destruct (IH (pre ++ n :: decimal c) (drop (length (decimal c)) room) Hb) as (room' & E & El & Eb); [rewrite length_drop; lia|].
  rewrite length_app in E. cbn [length] in E. replace (length pre + 1 + length (decimal c))%nat with (length pre + S (length (decimal c)))%nat by lia.
  replace (pre ++ n :: decimal c ++ drop (length (decimal c)) room) with ((pre ++ n :: decimal c) ++ drop (length (decimal c)) room) by (by rewrite <- app_assoc).
  rewrite E. exists room'. rewrite wire_labels_cons. fold n. rewrite length_drop in El. cbn [length]. rewrite length_app. split; [|split; lia].
  f_equal. f_equal; [rewrite <- app_assoc; cbn [app]; by rewrite <- app_assoc|lia].
Qed.

Lemma tohex_char c : 0 <= c < 16 -> tohex c = hex_char c.
Proof. intros. unfold tohex, hex_char. destruct (10 <=? c); lia. Qed.

Lemma name6_loop_ok (ip : list Z) (n : nat) : forall pre room j, bytes ip -> length ip = 16%nat -> (j + n)%nat = 16%nat ->
  length pre = (j * 4)%nat -> (4 * n <= length room)%nat ->
  name6_loop (pre ++ room) ip j n = Some (pre ++ wire_labels (concat (map halves (reverse (take n ip)))) ++ drop (4 * n) room).
Proof.
  induction n as [|n IH]; intros pre room j Hb Hip Hj Hp Hr; [by rewrite drop_0|]. cbn [name6_loop].
  destruct (lookup_lt_is_Some_2 ip (15 - j)) as [c E]; [lia|]. unfold load. rewrite E. cbn [mbind option_bind].
  pose proof (list.Forall_lookup_1 _ _ _ _ Hb E) as Hc. unfold is_u8 in Hc.
  destruct room as [|a [|b [|d [|e room]]]]; cbn [length] in Hr; try lia.
  repeat (rewrite store_Some by (rewrite ?length_insert, length_app; cbn; lia); cbn [mbind option_bind]).
  rewrite (land_low c 4) by done. rewrite (shiftr_div 4) by done. change (2 ^ 4) with 16. rewrite !tohex_char by zmod.
  assert (forall i (v : Z) l, <[(j * 4 + i)%nat:=v]> (pre ++ l) = pre ++ <[i:=v]> l) as Hins.
  { intros i v l. rewrite <- Hp. by rewrite insert_app_r. }
  pose proof (Hins 0%nat) as Hins0. rewrite Nat.add_0_r in Hins0. rewrite Hins0, !Hins.
  change (<[3%nat:=hex_char (c / 16)]> (<[2%nat:=1]> (<[1%nat:=hex_char (c mod 16)]> (<[0%nat:=1]> (a :: b :: d :: e :: room)))))
    with (wire_labels (halves c) ++ room). rewrite app_assoc.
  rewrite (IH (pre ++ wire_labels (halves c)) room (S j)) by (done || (rewrite length_app; cbn; lia) || lia).
  assert (take (S n) ip = take n ip ++ [c]) as ->.
  { apply take_S_r. by replace n with (15 - j)%nat by lia. }
  rewrite reverse_app. change (reverse [c]) with [c]. cbn [app map concat]. unfold wire_labels. rewrite map_app, concat_app.
  replace (4 * S n)%nat with (S (S (S (S (4 * n))))) by lia. cbn [drop]. by rewrite <- !app_assoc.
Qed.

(** * Theorems *)

(** [dns_name4_domain] writes into 31 bytes the name of an address: its
    four numbers from the last to the first, in decimal, below [in-addr.arpa];
    and [dns_name6_domain] writes into 75 bytes the 32 hexadecimal digits of its
    address from the last to the first, below [ip6.arpa]. *)
Theorem dns_reverse_names (name4 name6 ip4 ip6 : list Z) :
  (31 <= length name4)%nat -> length ip4 = 4%nat -> bytes ip4 -> (75 <= length name6)%nat -> length ip6 = 16%nat -> bytes ip6 ->
  (exists z, dns_name4_domain name4 ip4 = Some (wire (map decimal (reverse ip4) ++ in_addr) ++ z)) /\
  (exists z, dns_name6_domain name6 ip6 = Some (wire (concat (map halves (reverse ip6)) ++ ip6_arpa) ++ z)).
Proof.
  intros H4 L4 B4 H6 L6 B6. split.
  - destruct ip4 as [|a [|b [|c [|d [|]]]]]; try done. change (reverse [a; b; c; d]) with [d; c; b; a].
    unfold dns_name4_domain, load. cbn [lookup list_lookup mbind option_bind].
    destruct (name4_loop_ok [d; c; b; a] [] name4) as (z & E & Hz & Hl); [by apply (list.Forall_reverse _ [a; b; c; d])|cbn; lia|].
    cbn [app length Nat.add] in E, Hz, Hl. rewrite E. cbn [mbind option_bind]. set (ls := map decimal [d; c; b; a]) in *.
    rewrite byte_copy_spec by (cbn; rewrite ?length_app; cbn; lia). cbn [src_block]. rewrite wire_app. unfold splice.
    rewrite take_app_length, drop_app_add. eexists. by rewrite <- app_assoc.
  - unfold dns_name6_domain. pose proof (name6_loop_ok ip6 16 [] name6 0 B6 L6) as E. cbn [app length] in E. rewrite E by lia.
    cbn [mbind option_bind]. rewrite (take_ge ip6) by lia. set (ls := concat _).
    assert (length (wire_labels ls) = 64%nat) as Hl.
    { unfold ls. clear - L6. do 16 (destruct ip6 as [|? ip6]; [done|]). by destruct ip6. }
    rewrite byte_copy_spec; [|rewrite length_app, Hl, length_drop; lia|cbn; lia|done]. cbn [src_block]. rewrite wire_app. unfold splice.
    replace 64%nat with (length (wire_labels ls)). rewrite take_app_length. eexists. by rewrite <- app_assoc.
Qed.

Lemma dns_reverse_names_witness :
  (exists z, dns_name4_domain (replicate 31 0) [10; 0; 0; 127] = Some (wire [lit "127"; lit "0"; lit "0"; lit "10"; lit "in-addr"; lit "arpa"] ++ z)) /\
  (exists z, dns_name6_domain (replicate 75 0) (replicate 16 171) = Some (wire (concat (map halves (reverse (replicate 16 171))) ++ ip6_arpa) ++ z)).
Proof.
  apply (dns_reverse_names (replicate 31 0) (replicate 75 0) [10; 0; 0; 127] (replicate 16 171));
    try (repeat (constructor; [done|]); constructor); cbn; done || lia.
Defined.
