(* ===== verification/DnsPacket.v ===== *)
(** The packets of [lib/dns/]: which answers a packet holds, whatever its bytes
    are, and that the functions for names, texts, mail exchangers and addresses
    answer what those say, with the addresses in some order. *)
From S2P Require Import Prelude ByteOps StrOps Pack Tai FmtNum Memory Stralloc Dns DnsNames.

(** * Answers *)

Lemma unpack_at (l : list Z) i : bytes l -> (i + 2 <= length l)%nat ->
  exists n, uint16_unpack_big (drop i l) = Some n /\ 0 <= n < 2 ^ 16.
Proof.
  intros Hl Hi. unfold uint16_unpack_big, load. rewrite !lookup_drop.
  destruct (lookup_lt_is_Some_2 l (i + 0)) as [x Ex]; [lia|]. destruct (lookup_lt_is_Some_2 l (i + 1)) as [y Ey]; [lia|].
  rewrite Ex, Ey. cbn [mbind option_bind]. eexists. split; [done|]. unfold u16. zmod.
Qed.

(** The fixed fields, the length of the data and its place. *)
Abbreviation record := (list Z * Z * Z)%type.

Section packet.
Context (buf : list Z) (len : Z) (Hb : bytes buf) (Hlen : 0 <= len <= Z.of_nat (length buf)) (H32 : len < 2 ^ 31).

Definition bytes_at (pos n : Z) : list Z := take (Z.to_nat n) (drop (Z.to_nat pos) buf).

(** Where the name at [pos] ends: pointers are not followed, and their second
    byte is not looked at. *)
Inductive name_ends : Z -> Z -> Prop :=
  | ends_zero pos : 0 <= pos < len -> buf !! Z.to_nat pos = Some 0 -> name_ends pos (pos + 1)
  | ends_pointer pos c : 0 <= pos < len -> buf !! Z.to_nat pos = Some c -> 192 <= c -> name_ends pos (pos + 2)
  | ends_label pos c next : 0 <= pos < len -> buf !! Z.to_nat pos = Some c -> 1 <= c < 64 ->
      name_ends (pos + 1 + c) next -> name_ends pos next.

Inductive record_at : Z -> record -> Prop :=
  | Record_at pos q datalen : name_ends pos q -> q + 10 <= len ->
      uint16_unpack_big (drop 8 (bytes_at q 10)) = Some datalen -> record_at pos (bytes_at q 10, datalen, q + 10).

Definition next_of (r : record) : Z := r.2 + r.1.2.

(** What [n] answers from [pos] on say: [says] is what one of them says, and
    [stops] whether those behind it count. *)
Inductive answers_say (says : record -> list Z -> Prop) (stops : record -> bool) : nat -> Z -> list Z -> Prop :=
  | say_nothing pos : answers_say says stops 0 pos []
  | say_last n pos r ys : record_at pos r -> stops r = true -> says r ys -> answers_say says stops (S n) pos ys
  | say_more n pos r ys zs : record_at pos r -> stops r = false -> says r ys ->
      answers_say says stops n (next_of r) zs -> answers_say says stops (S n) pos (ys ++ zs).

Definition packet_says (says : record -> list Z -> Prop) (stops : record -> bool) (zs : list Z) : Prop :=
  exists n q, 12 <= len /\ uint16_unpack_big (drop 6 (bytes_at 0 12)) = Some n /\ name_ends 12 q /\
    answers_say says stops (Z.to_nat n) (q + 4) zs.

(** ** The reader finds them *)

Lemma name_ends_at pos next : name_ends pos next -> 0 <= pos < len /\ pos < next <= len + 1.
Proof. induction 1; lia. Qed.

(** A name that unfolds ends where it is skipped to. *)
Lemma compressed_ends k pos ls next : compressed buf len k pos ls next -> name_ends pos next.
Proof.
  induction 1 as [pos H E|pos l k ls next H E Hl Ht Hn _ IH|pos c d k ls next H1 H2 E Hc E2 _ IH].
  - by constructor.
  - eapply (ends_label pos (Z.of_nat (length l))); [done|done|lia|done].
  - by eapply (ends_pointer pos c); [lia| |].
Qed.

Lemma skip_loop_ok (fuel : nat) : forall pos, 0 <= pos -> (Z.to_nat (len - pos) < fuel)%nat ->
  exists r, skipname_loop buf len pos fuel = Some r /\ (0 < r /\ name_ends pos r \/ r = 0) /\
    forall next, name_ends pos next -> r = next.
Proof.
  induction fuel as [|fuel IH]; intros pos Hp Hf; [lia|]. cbn [skipname_loop].
  destruct (Z.leb_spec len pos).
  { exists 0. split; [done|]. split; [by right|]. intros next H'%name_ends_at. lia. }
  destruct (byte_at buf len Hb Hlen pos) as (ch & E & Hch); [lia|]. unfold load. rewrite E. cbn [mbind option_bind].
  rewrite (u32_id (pos + 1)) by (unfold is_u32; lia). destruct (Z.leb_spec 192 ch).
  { exists (pos + 2). split; [rewrite u32_id by (unfold is_u32; lia); f_equal; lia|].
    split; [left; split; [lia|by eapply ends_pointer; [lia|..]]|]. intros next H'. inversion H'; subst; simplify_eq; lia. }
  destruct (Z.leb_spec 64 ch).
  { exists 0. split; [done|]. split; [by right|]. intros next H'. inversion H'; subst; simplify_eq; lia. }
  destruct (Z.eqb_spec ch 0) as [->|Hne].
  { exists (pos + 1). split; [done|]. split; [left; split; [lia|by constructor]|]. intros next H'. inversion H'; subst; simplify_eq; lia. }
  rewrite u32_id by (unfold is_u32; lia). destruct (IH (pos + 1 + ch)) as (r & -> & Hr & Hn); [lia|lia|].
  exists r. split; [done|]. split.
  - destruct Hr as [[Hr Hr2]|Hr]; [left|by right]. split; [done|]. eapply ends_label; [lia|done|lia|done].
  - intros next H'. inversion H'; subst; simplify_eq; [lia..|]. by apply Hn.
Qed.

Lemma skipname_at pos : 0 <= pos ->
  exists r, dns_packet_skipname buf len pos = Some r /\ (0 < r /\ name_ends pos r \/ r = 0) /\ forall next, name_ends pos next -> r = next.
Proof. intros Hp. apply skip_loop_ok; [done|lia]. Qed.

Lemma packet_copy_ok (n : nat) : forall pos out, 0 <= pos ->
  exists r out', packet_copy buf len pos out n = Some (r, out') /\
    (pos + Z.of_nat n <= len /\ r = pos + Z.of_nat n /\ out' = out ++ take n (drop (Z.to_nat pos) buf) \/
     (0 < n)%nat /\ len < pos + Z.of_nat n /\ r = 0 \/ n = 0%nat /\ r = pos /\ out' = out).
Proof.
  induction n as [|n IH]; intros pos out Hp; cbn [packet_copy].
  { exists pos, out. split; [done|]. right. by right. }
  destruct (Z.leb_spec len pos).
  { exists 0, out. split; [done|]. right. left. split; [lia|]. split; [lia|done]. }
  destruct (byte_at buf len Hb Hlen pos) as (c & E & Hc); [lia|]. unfold load. rewrite E. cbn [mbind option_bind].
  rewrite u32_id by (unfold is_u32; lia). destruct (IH (pos + 1) (out ++ [c])) as (r & out' & -> & Hr); [lia|].
  exists r, out'. split; [done|]. rewrite (drop_S _ c _ E). cbn [take]. replace (Z.to_nat (pos + 1)) with (S (Z.to_nat pos)) in Hr by lia.
  destruct Hr as [(H1 & -> & ->)|[(H0 & H1 & ->)|(-> & -> & ->)]].
  - left. split; [lia|]. split; [lia|]. by rewrite <- app_assoc.
  - right. left. lia.
  - left. split; [lia|]. split; [lia|]. by cbn.
Qed.

Lemma copy_at pos n : 0 <= pos -> (0 < n)%nat ->
  exists r out, dns_packet_copy buf len pos n = Some (r, out) /\
    (pos + Z.of_nat n <= len /\ r = pos + Z.of_nat n /\ out = bytes_at pos (Z.of_nat n) \/ len < pos + Z.of_nat n /\ r = 0).
Proof.
  intros Hp Hn. destruct (packet_copy_ok n pos [] Hp) as (r & out & E & Hr). exists r, out. split; [exact E|].
  destruct Hr as [(H1 & -> & ->)|[(H0 & H1 & ->)|(-> & _)]]; [left|by right|lia]. unfold bytes_at. by rewrite Nat2Z.id.
Qed.

Lemma bytes_at_length pos n : 0 <= pos -> pos + n <= len -> 0 <= n -> length (bytes_at pos n) = Z.to_nat n.
Proof. intros. unfold bytes_at. rewrite length_take, length_drop. lia. Qed.

Lemma bytes_at_bytes pos n : bytes (bytes_at pos n).
Proof. apply list.Forall_take, list.Forall_drop, Hb. Qed.

Lemma record_ok pos : 0 <= pos -> exists o, packet_record buf len pos = Some o /\
  match o with
  | Some r => record_at pos r /\ (forall r', record_at pos r' -> r' = r) /\
      length r.1.1 = 10%nat /\ 0 <= r.1.2 < 2 ^ 16 /\ 10 <= r.2 <= len
  | None => forall r, record_at pos r -> False
  end.
Proof.
  intros Hp. unfold packet_record. destruct (skipname_at pos Hp) as (q & -> & Hq & Hn). cbn [mbind option_bind].
  destruct Hq as [[Hq Hq2]| ->].
  2:{ change (0 =? 0) with true. exists None. split; [done|]. intros r Hr. inversion Hr as [? q' ? H1]; subst.
    pose proof (Hn _ H1). pose proof (name_ends_at _ _ H1). lia. }
  zfalse (q =? 0). destruct (copy_at q 10) as (p & h & -> & Hc); [lia|lia|]. cbn [mbind option_bind].
  destruct Hc as [(Hl & -> & ->)|(Hl & ->)].
  2:{ change (0 =? 0) with true. exists None. split; [done|]. intros r Hr. inversion Hr as [? q' ? H1]; subst.
    pose proof (Hn _ H1). lia. }
  zfalse (q + Z.of_nat 10 =? 0). change (Z.of_nat 10) with 10 in *. assert (length (bytes_at q 10) = 10%nat) as H10 by (by rewrite bytes_at_length by lia).
  destruct (unpack_at (bytes_at q 10) 8) as (n & En & Hn16); [apply bytes_at_bytes|lia|]. rewrite En. cbn [mbind option_bind].
  exists (Some (bytes_at q 10, n, q + 10)). split; [done|]. split; [by constructor|]. split.
  - intros r Hr. inversion Hr as [? q' ? H1 ? E2]; subst. pose proof (Hn _ H1) as <-. rewrite En in E2. by simplify_eq.
  - cbn. split; [done|]. split; [done|]. lia.
Qed.
End packet.

(** * The memory of a packet *)

(** The pointer [q] is not the string. *)
Definition sep (out : stralloc) (q : option nat) : Prop :=
  match sa_s out, q with Some b, Some c => b <> c | _, _ => True end.

(** All blocks but that of the string and the one of [q]. *)
Definition others (m : mem) (out : stralloc) (q : option nat) : gmap nat (list Z) :=
  match q with Some c => delete c (rest m (sa_s out)) | None => rest m (sa_s out) end.

Record holds (m : mem) (out : stralloc) (q : option nat) (xs : list Z) : Prop := Holds {
  holds_rep : rep m out xs;
  holds_live : live m q;
  holds_sep : sep out q
}.

(** The rest of the memory is as it was. *)
Record moves (m : mem) (out : stralloc) (q : option nat) (m' : mem) (out' : stralloc) (q' : option nat) : Prop := Moves {
  moves_others : others m' out' q' = others m out q;
  moves_answers : forall x, x ∈ answers m' -> x ∈ answers m
}.

Lemma moves_refl m out q : moves m out q m out q.
Proof. by split. Qed.

Lemma moves_trans m out q m1 out1 q1 m2 out2 q2 : moves m out q m1 out1 q1 -> moves m1 out1 q1 m2 out2 q2 -> moves m out q m2 out2 q2.
Proof. intros [E A] [E2 A2]. split; [congruence|auto]. Qed.

Lemma evolves_holds m out q xs ys m' out' : holds m out q xs -> evolves m out m' out' -> rep m' out' ys ->
  holds m' out' q ys /\ moves m out q m' out' q.
Proof.
  intros [_ Hl Hs] [_ R _ A] H'. split; [|split; [unfold others; by rewrite R|done]]. unfold sep in *. destruct q as [c|]; cbn [live] in *.
  2:{ split; [done..|]. unfold sep. by destruct (sa_s out'). }
  destruct Hl as [l Hl]. assert (rest m (sa_s out) !! c = Some l) as Hr.
  { destruct (sa_s out); cbn [rest]; [by rewrite lookup_delete_ne|done]. }
  rewrite <- R in Hr. split; [done| |]; unfold sep; cbn [live]; destruct (sa_s out') as [b|]; cbn [rest] in Hr; try done.
  - exists l. by apply lookup_delete_Some in Hr as [_ Hr].
  - by apply lookup_delete_Some in Hr as [? _].
Qed.

Lemma stored_holds m out q xs name m' q' : holds m out q xs -> stored m q name m' q' ->
  exists b, q' = Some b /\ holds m' out q' xs /\ moves m out q m' out q' /\ reads m' out (Blk b 0) name.
Proof.
  intros [[Hw Hln Hb] Hl Hs] [W (b & -> & Hf & Hbl) R A]. exists b. split; [done|]. cbn [rest] in R.
  assert (sa_s out <> Some b) as Hne.
  { intros E. rewrite E in Hb. destruct Hb as (l & Hb & _). congruence. }
  assert (forall x l, sa_s out = Some x -> blocks m !! x = Some l -> blocks m' !! x = Some l) as Hk.
  { intros x l E Hx. assert (rest m q !! x = Some l) as Hr.
    { unfold sep in Hs. rewrite E in Hs. destruct q as [c|]; cbn [rest]; [by rewrite lookup_delete_ne|done]. }
    rewrite <- R in Hr. by apply lookup_delete_Some in Hr as [_ Hr]. }
  split; [split|split; [split|]].
  - split; [done|done|]. destruct (sa_s out) as [x|] eqn:E; [|done]. destruct Hb as (l & Hx & H). exists l. split; [by apply Hk|done].
  - cbn. by eexists.
  - unfold sep. destruct (sa_s out); [congruence|done].
  - unfold others.
    destruct (sa_s out) as [x|]; cbn [rest].
    + rewrite delete_delete, R. destruct q as [c|]; cbn [rest]; [by rewrite delete_delete|done].
    + rewrite R. by destruct q.
  - exact A.
  - split; [|done]. exists name. cbn [view]. rewrite Hbl. cbn. rewrite drop_0. split; [done|apply firstn_all].
Qed.

(** What an answer returns, and the string it leaves. *)
Definition goes (m : mem) (out : stralloc) (q : option nat) (R : option Z -> list Z -> Prop)
    (r : option (option Z * (mem * stralloc * option nat))) : Prop :=
  exists ret m' out' q' ws, r = Some (ret, (m', out', q')) /\ holds m' out' q' ws /\ moves m out q m' out' q' /\ R ret ws.

Lemma goes_moves m out q m1 out1 q1 R r : moves m out q m1 out1 q1 -> goes m1 out1 q1 R r -> goes m out q R r.
Proof.
  intros Hm (ret & m' & out' & q' & ws & E & H & M & HR). exists ret, m', out', q', ws. split; [done|]. split; [done|].
  split; [by eapply moves_trans|done].
Qed.

Lemma goes_now m out q xs (R : option Z -> list Z -> Prop) ret : holds m out q xs -> R ret xs -> goes m out q R (Some (ret, (m, out, q))).
Proof. intros H HR. exists ret, m, out, q, xs. split; [done|]. split; [done|]. split; [apply moves_refl|done]. Qed.

Lemma goes_or_fail m out q xs ys (R : option Z -> list Z -> Prop) r : holds m out q xs -> reaches m out ys r ->
  R None ys -> (false ∈ answers m -> forall ws, R (Some (-1)) ws) -> goes m out q R (or_fail q r).
Proof.
  intros H (ok & m' & out' & ws & -> & E & Rp & Hok & Hno) HN HF. destruct (evolves_holds _ _ _ _ _ _ _ H E Rp) as [H' M].
  unfold or_fail. cbn [mbind option_bind]. eexists _, m', out', q, ws. split; [done|]. split; [done|]. split; [done|].
  destruct ok; [by rewrite (Hok eq_refl)|by apply HF, Hno].
Qed.

Section packet.
Context (buf : list Z) (len : Z) (Hb : bytes buf) (Hlen : 0 <= len <= Z.of_nat (length buf)) (H32 : len < 2 ^ 31).
Context (says : record -> list Z -> Prop) (stops : record -> bool).

(** What the part for one answer may return and append. *)
Definition answer_spec (m : mem) (r : record) (xs : list Z) (ret : option Z) (ws : list Z) : Prop :=
  (ret = None /\ stops r = false \/ ret = Some 0 /\ stops r = true) /\
    (exists ys, says r ys /\ ws = xs ++ ys /\ Z.of_nat (length ys) <= 65536) \/
  ret = Some (-1) /\ ((forall ys, says r ys -> False) \/ false ∈ answers m).

(** A part for one answer, for a packet whose other bytes are arbitrary. *)
Definition answers_with (answer_fn : list Z -> Z -> Z -> mem * stralloc * option nat -> option (option Z * (mem * stralloc * option nat))) : Prop :=
  forall m out q xs h n pos, holds m out q xs -> small (Z.of_nat (length xs) + 65536) -> length h = 10%nat -> 0 <= n < 2 ^ 16 -> 10 <= pos <= len ->
  goes m out q (answer_spec m (h, n, pos) xs) (answer_fn h n pos (m, out, q)).

Definition loop_spec (m : mem) (all : list Z -> Prop) (xs : list Z) (bound : Z) (ret : option Z) (ws : list Z) : Prop :=
  (ret = None \/ ret = Some 0 /\ exists r, stops r = true) /\
    (exists ys, all ys /\ ws = xs ++ ys /\ Z.of_nat (length ys) <= bound) \/
  ret = Some (-1) /\ ((forall ys, all ys -> False) \/ false ∈ answers m).

Lemma answers_loop_ok answer_fn (n : nat) : answers_with answer_fn -> forall pos m out q xs,
  0 <= pos -> holds m out q xs -> small (Z.of_nat (length xs) + Z.of_nat n * 65536) ->
  goes m out q (loop_spec m (answers_say buf len says stops n pos) xs (Z.of_nat n * 65536)) (answers_loop buf len answer_fn n pos (m, out, q)).
Proof.
  intros Ha. induction n as [|n IH]; intros pos m out q xs Hp H Hs; cbn [answers_loop].
  { apply (goes_now _ _ _ xs); [done|]. left. split; [by left|]. exists []. split; [constructor|]. rewrite app_nil_r. cbn. split; [done|lia]. }
  unfold small in Hs. destruct (record_ok buf len Hb Hlen H32 pos Hp) as (o & -> & Ho). cbn [mbind option_bind].
  destruct o as [[[h k] p]|].
  2:{ apply (goes_now _ _ _ xs); [done|]. right. split; [done|]. left. intros ys Hy. inversion Hy; subst; by eapply Ho. }
  cbn in Ho. destruct Ho as (Hr & Hdet & Hh & Hk & Hp2). destruct (Ha m out q xs h k p H) as (ret & m1 & out1 & q1 & ws & -> & H1 & M & HR);
    [unfold small; lia|done|done|done|]. cbn [mbind option_bind].
  destruct HR as [[[[-> Hst]|[-> Hst]] (ys & Hy & -> & Hly)]|[-> HR]].
  - apply (goes_moves _ _ _ _ _ _ _ _ M). destruct M as [_ MA].
    assert (u32 (p + k) = next_of (h, k, p)) as -> by (unfold next_of; cbn; rewrite u32_id; [done|unfold is_u32; lia]).
    destruct (IH (next_of (h, k, p)) m1 out1 q1 (xs ++ ys)) as (ret & m2 & out2 & q2 & ws & -> & H2 & M2 & HR);
      [unfold next_of; cbn; lia|done|unfold small; rewrite length_app; lia|].
    exists ret, m2, out2, q2, ws. split; [done|]. split; [done|]. split; [done|]. destruct HR as [[Hret (zs & Hz & -> & Hlz)]|[-> HR]]; [left|right].
    + split; [done|]. exists (ys ++ zs). split; [by eapply say_more|]. split; [by rewrite app_assoc|]. rewrite length_app. lia.
    + split; [done|]. destruct HR as [HR|HR]; [left|right; by apply MA]. intros zs Hz. inversion Hz as [| ? ? r ? Hr' Hst'|? ? r ? ? Hr' Hst' ? Hz']; subst;
        rewrite (Hdet _ Hr') in *; [congruence|by eapply HR].
  - exists (Some 0), m1, out1, q1, (xs ++ ys). split; [done|]. split; [done|]. split; [done|]. left. split; [right; split; [done|by eexists]|].
    exists ys. split; [by eapply say_last|]. split; [done|lia].
  - exists (Some (-1)), m1, out1, q1, ws. split; [done|]. split; [done|]. split; [done|]. right. split; [done|]. destruct HR as [HR|HR]; [left|by right].
    intros zs Hz. inversion Hz as [| ? ? r ? Hr' Hst' Hy'|? ? r ? ? Hr' Hst' Hy']; subst; rewrite (Hdet _ Hr') in *; by eapply HR.
Qed.

Lemma packet_answers_ok answer_fn m out q xs : answers_with answer_fn -> holds m out q xs -> Z.of_nat (length xs) < 2 ^ 31 ->
  goes m out q (loop_spec m (packet_says buf len says stops) xs (65535 * 65536)) (packet_answers buf len answer_fn (m, out, q)).
Proof.
  intros Ha H Hs. unfold packet_answers, packet_start. destruct (copy_at buf len Hb Hlen H32 0 12) as (p & h & -> & Hc); [done|lia|]. cbn [mbind option_bind].
  assert (forall P : list Z -> Prop, (forall ys, P ys -> False) -> goes m out q (loop_spec m P xs (65535 * 65536)) (Some (Some (-1), (m, out, q)))) as Hfail.
  { intros P HP. apply (goes_now _ _ _ xs); [done|]. right. split; [done|by left]. }
  destruct Hc as [(Hl & -> & ->)|(Hl & ->)].
  2:{ change (0 =? 0) with true. apply Hfail. intros ys (n & q' & H12 & _). lia. }
  change (Z.of_nat 12) with 12 in *. change (0 + 12) with 12 in *. change (12 =? 0) with false. cbn match.
  assert (length (bytes_at buf 0 12) = 12%nat) as H12 by (by rewrite (bytes_at_length buf len Hlen) by lia).
  destruct (unpack_at (bytes_at buf 0 12) 6) as (n & En & Hn16); [apply bytes_at_bytes, Hb|lia|]. rewrite En. cbn [mbind option_bind].
  destruct (skipname_at buf len Hb Hlen H32 12) as (e & -> & He & Hn); [lia|]. cbn [mbind option_bind]. destruct He as [[He He2]| ->].
  2:{ change (0 =? 0) with true. apply Hfail. intros ys (n' & q' & _ & _ & H1 & _). pose proof (Hn _ H1). pose proof (name_ends_at _ _ _ _ H1). lia. }
  zfalse (e =? 0). pose proof (name_ends_at _ _ _ _ He2). rewrite u32_id by (unfold is_u32; lia). cbn [mbind option_bind].
  destruct (answers_loop_ok answer_fn (Z.to_nat n) Ha (e + 4) m out q xs) as (ret & m1 & out1 & q1 & ws & -> & H1 & M & HR); [lia|done|unfold small; lia|].
  exists ret, m1, out1, q1, ws. split; [done|]. split; [done|]. split; [done|]. destruct HR as [[Hret (zs & Hz & -> & Hlz)]|[-> HR]]; [left|right].
  - split; [done|]. exists zs. split; [by exists n, e|]. split; [done|lia].
  - split; [done|]. destruct HR as [HR|HR]; [left|by right]. intros zs (n' & e' & _ & En' & He' & Hz). rewrite En in En'. injection En' as <-.
    rewrite <- (Hn _ He') in Hz. by eapply HR.
Qed.
End packet.

(** * What the answers say *)

Definition of_type (t : list Z) (r : record) : bool := bool_decide (take 4 r.1.1 = t ++ DNS_C_IN).

(** A name of an answer, with the bounds of [dns_packet_getname]. *)
Definition name_at (buf : list Z) (len pos : Z) (ls : list (list Z)) : Prop :=
  exists k next, compressed buf len k pos ls next /\ (k <= 999)%nat /\ (length (wire ls) <= 255)%nat.

(** Strings with their lengths in front; the last may be cut off. *)
Inductive strings : list Z -> list Z -> Prop :=
  | strings_nil : strings [] []
  | strings_cons n l ys : strings (drop (Z.to_nat n) l) ys -> strings (n :: l) (take (Z.to_nat n) l ++ ys).

Lemma strings_total (n : nat) : forall l, (length l <= n)%nat -> exists zs, strings l zs /\ (length zs <= length l)%nat.
Proof.
  induction n as [|n IH]; intros [|c l] Hl; cbn [length] in *; [exists []; by split; [apply strings_nil|]|lia|exists []; by split; [apply strings_nil|]| ].
  destruct (IH (drop (Z.to_nat c) l)) as (zs & Hz & Hlz); [rewrite length_drop; lia|]. exists (take (Z.to_nat c) l ++ zs).
  split; [by constructor|]. rewrite length_app, length_take. rewrite length_drop in Hlz. lia.
Qed.

Definition printable (c : Z) : Z := if (c <? 32) || (126 <? c) then "?"%C else c.

Section says.
Context (buf : list Z) (len : Z).

Definition ip4_says (r : record) (ys : list Z) : Prop :=
  if of_type DNS_T_A r && (r.1.2 =? 4) then r.2 + 4 <= len /\ ys = bytes_at buf r.2 4 else ys = [].

Definition ip6_says (r : record) (ys : list Z) : Prop :=
  if of_type DNS_T_AAAA r && (r.1.2 =? 16) then r.2 + 16 <= len /\ ys = bytes_at buf r.2 16
  else if of_type DNS_T_A r && (r.1.2 =? 4) then r.2 + 4 <= len /\ ys = V4mappedprefix ++ bytes_at buf r.2 4
  else ys = [].

Definition name_says (r : record) (ys : list Z) : Prop :=
  if of_type DNS_T_PTR r then exists ls, name_at buf len r.2 ls /\ ys = dots ls else ys = [].

Definition mx_says (r : record) (ys : list Z) : Prop :=
  if of_type DNS_T_MX r
  then r.2 + 2 <= len /\ exists ls, name_at buf len (r.2 + 2) ls /\ ys = bytes_at buf r.2 2 ++ dots ls ++ [0]
  else ys = [].

Definition txt_says (r : record) (ys : list Z) : Prop :=
  if of_type DNS_T_TXT r
  then r.2 + r.1.2 <= len /\ exists zs, strings (bytes_at buf r.2 r.1.2) zs /\ ys = map printable zs
  else ys = [].
End says.

Definition never (r : record) : bool := false.

Lemma is_type_ok h t : length h = 10%nat -> length t = 2%nat -> is_type h t = Some (bool_decide (take 4 h = t ++ DNS_C_IN)).
Proof.
  intros Hh Ht. unfold is_type. rewrite (byte_equal_spec h t 2), (byte_equal_spec (drop 2 h) DNS_C_IN 2) by (rewrite ?length_drop; cbn; lia).
  do 5 (destruct h as [|? h]; [done|]). do 2 (destruct t as [|? t]; [done|]). destruct t; [|done]. cbn.
  unfold DNS_C_IN. repeat case_bool_decide; cbn; congruence.
Qed.

Section packet.
Context (buf : list Z) (len : Z) (Hb : bytes buf) (Hlen : 0 <= len <= Z.of_nat (length buf)) (H32 : len < 2 ^ 31).

(** An answer of another type. *)
Lemma skip_answer m out q xs says stops r : holds m out q xs -> stops r = false -> says r [] ->
  goes m out q (answer_spec says stops m r xs) (Some (None, (m, out, q))).
Proof.
  intros H Hst Hs. apply (goes_now _ _ _ xs); [done|]. left. split; [by left|]. exists []. rewrite app_nil_r. split; [done|]. split; [done|cbn; lia].
Qed.

Lemma bad_answer m out q xs says stops r : holds m out q xs -> (forall ys, says r ys -> False) ->
  goes m out q (answer_spec says stops m r xs) (Some (Some (-1), (m, out, q))).
Proof. intros H Hn. apply (goes_now _ _ _ xs); [done|]. right. split; [done|by left]. Qed.

(** An answer whose text is appended. *)
Lemma more_answer m out q xs ys says stops r res : holds m out q xs -> reaches m out (xs ++ ys) res ->
  stops r = false -> says r ys -> Z.of_nat (length ys) <= 65536 ->
  goes m out q (answer_spec says stops m r xs) (or_fail q res).
Proof.
  intros H Hr Hst Hs Hl. apply (goes_or_fail _ _ _ xs (xs ++ ys)); [done|done| |].
  - left. split; [by left|]. by exists ys.
  - intros Hf ws. right. split; [done|by right].
Qed.

(** Bytes of the packet, behind others, that are appended. *)
Lemma copy_answer m out q xs pre says stops r (n : nat) pos : holds m out q xs -> small (Z.of_nat (length xs) + 65536) ->
  0 < pos -> (0 < n)%nat -> (length pre + n <= 16)%nat -> stops r = false ->
  (forall ys, says r ys <-> pos + Z.of_nat n <= len /\ ys = pre ++ bytes_at buf pos (Z.of_nat n)) ->
  goes m out q (answer_spec says stops m r xs) ('(n', ip) ← dns_packet_copy buf len pos n;
    if n' =? 0 then Some (Some (-1), (m, out, q))
    else or_fail q (stralloc_catb m out (Const (pre ++ ip)) (Z.of_nat (length pre + n)))).
Proof.
  intros H Hs Hp Hn Hn2 Hst Hsays. unfold small in Hs.
  destruct (copy_at buf len Hb Hlen H32 pos n) as (p & ip & -> & [(Hl & -> & ->)|(Hl & ->)]); [lia|lia| |]; cbn [mbind option_bind].
  - zfalse (pos + Z.of_nat n =? 0). pose proof (bytes_at_length buf len Hlen pos (Z.of_nat n)) as H4. rewrite Nat2Z.id in H4.
    apply (more_answer _ _ _ _ (pre ++ bytes_at buf pos (Z.of_nat n))); [done| |done|by apply Hsays|rewrite length_app, H4; lia].
    eapply yields_reaches, catb_ok; [by destruct H|apply reads_all|rewrite length_app, H4; lia|unfold small; lia].
  - change (0 =? 0) with true. apply bad_answer; [done|]. intros ys [? _]%Hsays. lia.
Qed.

Lemma ip4_answers : answers_with len (ip4_says buf len) never (ip4_answer buf len).
Proof.
  intros m out q xs h n pos H Hs Hh Hn Hp. unfold ip4_answer. rewrite is_type_ok by done. cbn [mbind option_bind]. rewrite <- negb_andb.
  change (bool_decide (take 4 h = DNS_T_A ++ DNS_C_IN)) with (of_type DNS_T_A (h, n, pos)).
  destruct (of_type DNS_T_A (h, n, pos) && (n =? 4)) eqn:E; cbn [negb].
  - apply (copy_answer _ _ _ _ []); [done|done|lia|lia|cbn; lia|done|]. intros ys. unfold ip4_says. cbn [fst snd]. by rewrite E.
  - apply skip_answer; [done|done|]. unfold ip4_says. cbn [fst snd]. by rewrite E.
Qed.

Lemma ip6_answers : answers_with len (ip6_says buf len) never (ip6_answer buf len).
Proof.
  intros m out q xs h n pos H Hs Hh Hn Hp. unfold ip6_answer. rewrite (byte_equal_spec h DNS_T_AAAA 2) by (cbn; lia). cbn [mbind option_bind].
  change (take 2 DNS_T_AAAA) with DNS_T_AAAA.
  assert (forall t, length t = 2%nat -> of_type t (h, n, pos) = true -> take 2 h = t) as Hof.
  { intros t Ht E. apply bool_decide_eq_true in E. cbn [fst snd] in E. apply (f_equal (take 2)) in E. rewrite take_take in E. cbn in E. rewrite E.
    rewrite <- Ht. apply take_app_length. }
  case_bool_decide as E2.
  - rewrite is_type_ok by done. cbn [mbind option_bind]. change (bool_decide (take 4 h = DNS_T_AAAA ++ DNS_C_IN)) with (of_type DNS_T_AAAA (h, n, pos)).
    assert (of_type DNS_T_A (h, n, pos) = false) as EA by (destruct (of_type DNS_T_A (h, n, pos)) eqn:E; [apply Hof in E; [by rewrite E2 in E|done]|done]).
    destruct (of_type DNS_T_AAAA (h, n, pos)) eqn:E; cbn [negb andb].
    + destruct (n =? 16) eqn:En.
      * apply (copy_answer _ _ _ _ []); [done|done|lia|lia|cbn; lia|done|]. intros ys. unfold ip6_says. cbn [fst snd]. by rewrite E, En.
      * apply skip_answer; [done|done|]. unfold ip6_says. cbn [fst snd]. by rewrite E, EA, En.
    + apply skip_answer; [done|done|]. unfold ip6_says. cbn [fst snd]. by rewrite E, EA.
  - rewrite is_type_ok by done. cbn [mbind option_bind]. change (bool_decide (take 4 h = DNS_T_A ++ DNS_C_IN)) with (of_type DNS_T_A (h, n, pos)).
    assert (of_type DNS_T_AAAA (h, n, pos) = false) as EA by (destruct (of_type DNS_T_AAAA (h, n, pos)) eqn:E; [apply Hof in E; [congruence|done]|done]).
    destruct (of_type DNS_T_A (h, n, pos)) eqn:E; cbn [negb andb].
    + destruct (n =? 4) eqn:En.
      * apply (copy_answer _ _ _ _ V4mappedprefix); [done|done|lia|lia|cbn; lia|done|]. intros ys. unfold ip6_says. cbn [fst snd]. by rewrite EA, E, En.
      * apply skip_answer; [done|done|]. unfold ip6_says. cbn [fst snd]. by rewrite EA, E, En.
    + apply skip_answer; [done|done|]. unfold ip6_says. cbn [fst snd]. by rewrite EA, E.
Qed.

(** The text of a name. *)
Lemma dots_length ls : Z.of_nat (length (dots ls)) <= 4 * Z.of_nat (length (wire ls)).
Proof.
  destruct ls as [|l ls]; [cbn; lia|]. cbn [dots]. pose proof (dots_from_length (l :: ls)). unfold wire. rewrite length_app. lia.
Qed.

Lemma getname_answer m out q xs pos says stops r (k : mem -> stralloc -> option nat -> option (option Z * (mem * stralloc * option nat))) :
  holds m out q xs -> 0 <= pos ->
  (forall ys, says r ys -> exists ls, name_at buf len pos ls) ->
  (forall m' out' q' ls, holds m' out' q' xs -> name_at buf len pos ls -> Forall label_ok ls -> (exists b, q' = Some b /\ reads m' out' (Blk b 0) (wire ls)) ->
    goes m' out' q' (answer_spec says stops m' r xs) (k m' out' q')) ->
  goes m out q (answer_spec says stops m r xs) ('(n, m', q') ← dns_packet_getname m buf len pos q;
    if n =? 0 then Some (Some (-1), (m', out, q')) else k m' out q').
Proof.
  intros H Hp Hsays Hk. destruct (getname_stored buf len pos m q) as (n & m1 & q1 & -> & Hor); [done|done|done|done|by destruct H as [[]]|by destruct H|].
  cbn [mbind option_bind]. destruct Hor as [(kk & ls & next & Hc & Hkk & Hw & Hls & _ & [(-> & Hn & Hst)|(-> & -> & Hr)])|(Hno & -> & -> & ->)].
  - zfalse (next =? 0). destruct (stored_holds _ _ _ _ _ _ _ H Hst) as (b & -> & H1 & M & Hrd). destruct (M) as [_ MA]. apply (goes_moves _ _ _ _ _ _ _ _ M).
    destruct (Hk m1 out (Some b) ls H1) as (ret & m2 & out2 & q2 & ws & -> & H2 & M2 & HR); [by exists kk, next|done|by exists b|].
    exists ret, m2, out2, q2, ws. split; [done|]. split; [done|]. split; [done|].
    destruct HR as [HR|[-> [HR|HR]]]; [by left|right; split; [done|by left]|right; split; [done|right; by apply MA]].
  - change (0 =? 0) with true. destruct Hr as (Hf & Hw' & Eb & Ha). exists (Some (-1)), m1, out, q, xs. split; [done|].
    destruct H as [[Hm Hl Hbl] Hlive Hsep]. split; [|split; [split; [|exact Ha]|]].
    + split; [split; [done|done|by rewrite Eb]| |done]. destruct q; cbn in *; by rewrite ?Eb.
    + unfold others, rest. by rewrite Eb.
    + right. split; [done|by right].
  - change (0 =? 0) with true. apply bad_answer; [done|]. intros ys Hy. apply Hsays in Hy as (ls & k' & next & Hc & H1 & H2). by eapply Hno.
Qed.

Lemma goes_map m out q (R R' : option Z -> list Z -> Prop) r f : goes m out q R r -> (forall ret ws, R ret ws -> R' (f ret) ws) ->
  goes m out q R' ('(ret, st) ← r; Some (f ret, st)).
Proof.
  intros (ret & m' & out' & q' & ws & -> & H & M & HR) Hf. cbn [mbind option_bind]. exists (f ret), m', out', q', ws.
  split; [done|]. split; [done|]. split; [done|by apply Hf].
Qed.

Lemma cat_name_ok m out q xs ls b : holds m out q xs -> q = Some b -> reads m out (Blk b 0) (wire ls) -> Forall label_ok ls ->
  (length (wire ls) <= 255)%nat -> small (Z.of_nat (length xs) + 1020) -> reaches m out (xs ++ dots ls) (cat_name q m out).
Proof.
  intros H -> Hr Hls Hw Hs. unfold small in Hs. unfold cat_name. cbn [mbind option_bind].
  apply todot_cat_ok; [by apply label_ok_nonempty|by destruct H|done|unfold small; lia].
Qed.

Lemma name_answers : answers_with len (name_says buf len) (of_type DNS_T_PTR) (name_answer buf len).
Proof.
  intros m out q xs h n pos H Hs Hh Hn Hp. unfold small in Hs. unfold name_answer. rewrite is_type_ok by done. cbn [mbind option_bind].
  change (bool_decide (take 4 h = DNS_T_PTR ++ DNS_C_IN)) with (of_type DNS_T_PTR (h, n, pos)).
  destruct (of_type DNS_T_PTR (h, n, pos)) eqn:E; cbn [negb].
  2:{ apply skip_answer; [done|done|]. unfold name_says. cbn [fst snd]. by rewrite E. }
  apply (getname_answer _ _ _ xs _ _ _ _ (fun m out q => '(ret, st) ← or_fail q (cat_name q m out);
    Some (match ret with Some r => Some r | None => Some 0 end, st))); [done|lia| |].
  { intros ys Hy. unfold name_says in Hy. cbn [fst snd] in Hy. rewrite E in Hy. destruct Hy as (ls & Hy & _). by exists ls. }
  intros m1 out1 q1 ls H1 Hat Hls (b & Eb & Hr). apply goes_map with (R := fun ret ws => ret = None /\ ws = xs ++ dots ls \/ ret = Some (-1) /\ false ∈ answers m1).
  - destruct Hat as (k & next & _ & _ & Hw). apply (goes_or_fail _ _ _ xs (xs ++ dots ls)); [done|eapply cat_name_ok; (done || (unfold small; lia))|by left|by right].
  - intros ret ws [[-> ->]|[-> Hf]]; [left|right; split; [done|by right]]. split; [by right|]. exists (dots ls).
    pose proof (dots_length ls). destruct (Hat) as (k & next & _ & _ & Hw). split; [|split; [done|lia]]. unfold name_says. cbn [fst snd]. rewrite E. by exists ls.
Qed.

Lemma mx_answers : answers_with len (mx_says buf len) never (mx_answer buf len).
Proof.
  intros m out q xs h n pos H Hs Hh Hn Hp. unfold small in Hs. unfold mx_answer. rewrite is_type_ok by done. cbn [mbind option_bind].
  change (bool_decide (take 4 h = DNS_T_MX ++ DNS_C_IN)) with (of_type DNS_T_MX (h, n, pos)).
  destruct (of_type DNS_T_MX (h, n, pos)) eqn:E; cbn [negb].
  2:{ apply skip_answer; [done|done|]. unfold mx_says. cbn [fst snd]. by rewrite E. }
  destruct (copy_at buf len Hb Hlen H32 pos 2) as (p & pref & -> & [(Hl & -> & ->)|(Hl & ->)]); [lia|lia| |]; cbn [mbind option_bind].
  2:{ change (0 =? 0) with true. apply bad_answer; [done|]. unfold mx_says. cbn [fst snd]. rewrite E. intros ys [? _]. lia. }
  zfalse (pos + Z.of_nat 2 =? 0). change (Z.of_nat 2) with 2 in *. rewrite u32_id by (unfold is_u32; lia). set (pref := bytes_at buf pos 2).
  assert (length pref = 2%nat) as Hpl by (unfold pref; by rewrite (bytes_at_length buf len Hlen) by lia).
  apply (getname_answer _ _ _ xs _ _ _ _ (fun m out q => or_fail q ('(ok, m, out) ← stralloc_catb m out (Const pref) 2;
    if (ok : bool) then '(ok, m, out) ← cat_name q m out; if (ok : bool) then stralloc_0 m out else Some (false, m, out)
    else Some (false, m, out)))); [done|lia| |].
  { intros ys Hy. unfold mx_says in Hy. cbn [fst snd] in Hy. rewrite E in Hy. destruct Hy as (_ & ls & Hy & _). by exists ls. }
  intros m1 out1 q1 ls H1 Hat Hls (b & Eb & Hr). pose proof (dots_length ls). destruct (Hat) as (k & next & _ & _ & Hw).
  apply (more_answer _ _ _ _ (pref ++ dots ls ++ [0])); [done| |done| |rewrite !length_app; cbn [length]; lia].
  2:{ unfold mx_says. cbn [fst snd]. rewrite E. split; [done|]. by exists ls. }
  apply (reaches_bind _ _ xs (xs ++ pref)); [apply catb_ok; [by destruct H1|apply reads_all|lia|unfold small; lia]|].
  intros m2 out2 E2 R2. destruct (evolves_holds _ _ _ _ _ _ _ H1 E2 R2) as [H2 _].
  apply (reaches_then _ _ ((xs ++ pref) ++ dots ls)).
  { eapply cat_name_ok; [done|done|by eapply reads_evolves|done|done|unfold small; rewrite length_app; lia]. }
  intros m3 out3 E3 R3. rewrite !app_assoc. eapply yields_reaches. apply append_ok; [done|apply reads_all|]. unfold small. rewrite !length_app. lia.
Qed.

(** ** Texts *)

(** The rest of a string, and the strings behind it. *)
Lemma txt_loop_ok pos (n : nat) : forall i m out xs left zs, 0 <= pos + i -> 0 <= i -> pos + i + Z.of_nat n <= len -> 0 <= left ->
  strings (drop (Z.to_nat left) (bytes_at buf (pos + i) (Z.of_nat n))) zs -> rep m out xs -> small (Z.of_nat (length xs) + Z.of_nat n) ->
  reaches m out (xs ++ map printable (take (Z.to_nat left) (bytes_at buf (pos + i) (Z.of_nat n)) ++ zs)) (txt_loop buf pos m out left i n).
Proof.
  induction n as [|n IH]; intros i m out xs left zs Hp Hi Hl Hleft Hz Hr Hs; cbn [txt_loop].
  { change (bytes_at buf (pos + i) (Z.of_nat 0)) with (@nil Z) in *. rewrite drop_nil in Hz. inversion Hz. rewrite take_nil. cbn. rewrite app_nil_r.
    apply yields_reaches with xs. exists true, m, out. split; [done|]. split; [|done]. destruct out. eapply evolves_refl, rep_wf, Hr. }
  unfold small in Hs. rewrite u32_id by (unfold is_u32; lia). destruct (byte_at buf len Hb Hlen (pos + i)) as (c & E & Hc); [lia|].
  unfold load. rewrite E. cbn [mbind option_bind].
  assert (bytes_at buf (pos + i) (Z.of_nat (S n)) = c :: bytes_at buf (pos + (i + 1)) (Z.of_nat n)) as Ec.
  { unfold bytes_at. rewrite !Nat2Z.id, (drop_S _ c _ E). cbn [take]. do 2 f_equal. by replace (Z.to_nat (pos + (i + 1))) with (S (Z.to_nat (pos + i))) by lia. }
  rewrite Ec in *. destruct (Z.eqb_spec left 0) as [->|Hne].
  - cbn [Z.to_nat drop take app] in *. inversion Hz as [|? ? ys Hy]; subst. apply IH; [lia|lia|lia|lia|done|done|unfold small; lia].
  - assert (Z.to_nat left = S (Z.to_nat (left - 1))) as El by lia. rewrite El in *. cbn [drop take app map] in *.
    fold (printable c). rewrite cons_middle, app_assoc.
    apply (reaches_bind _ _ xs (xs ++ [printable c])); [apply append_ok; [done|apply reads_all|unfold small; lia]|].
    intros m1 out1 E1 R1. apply IH; [lia|lia|lia|lia|done|done|unfold small; rewrite length_app; cbn; lia].
Qed.

Lemma txt_answers : answers_with len (txt_says buf len) never (txt_answer buf len).
Proof.
  intros m out q xs h n pos H Hs Hh Hn Hp. unfold small in Hs. unfold txt_answer. rewrite is_type_ok by done. cbn [mbind option_bind].
  change (bool_decide (take 4 h = DNS_T_TXT ++ DNS_C_IN)) with (of_type DNS_T_TXT (h, n, pos)).
  destruct (of_type DNS_T_TXT (h, n, pos)) eqn:E; cbn [negb].
  2:{ apply skip_answer; [done|done|]. unfold txt_says. cbn [fst snd]. by rewrite E. }
  rewrite u32_id by (unfold is_u32; lia). destruct (Z.ltb_spec len (pos + n)).
  { apply bad_answer; [done|]. unfold txt_says. cbn [fst snd]. rewrite E. intros ys [? _]. lia. }
  destruct (strings_total _ (bytes_at buf pos n) (Nat.le_refl _)) as (zs & Hz & Hlz). rewrite (bytes_at_length buf len Hlen) in Hlz by lia.
  apply (more_answer _ _ _ _ (map printable zs)); [done| |done| |rewrite length_map; lia].
  - pose proof (txt_loop_ok pos (Z.to_nat n) 0 m out xs 0 zs) as Ht. rewrite Z.add_0_r, Z2Nat.id in Ht by lia. cbn [Z.to_nat drop take app] in Ht.
    apply Ht; [lia|lia|lia|lia|done|by destruct H|unfold small; lia].
  - unfold txt_says. cbn [fst snd]. rewrite E. split; [lia|]. by exists zs.
Qed.

(** ** Whole packets *)

(** The string is made anew: it is what the packet says, or the packet is bad or
    memory runs out and -1 is returned. *)
Definition packet_spec (m : mem) (all : list Z -> Prop) (ret : option Z) (ws : list Z) : Prop :=
  (ret = Some 0 /\ all ws) \/ ret = Some (-1) /\ ((forall ys, all ys -> False) \/ false ∈ answers m).

Definition answered (m : mem) (out : stralloc) (q : option nat) (all : list Z -> Prop) (r : option (Z * (mem * stralloc * option nat))) : Prop :=
  goes m out q (packet_spec m all) ('(ret, st) ← r; Some (Some ret, st)).

Lemma clear_ok m out q xs (all : list Z -> Prop) k : holds m out q xs ->
  (forall m' out', holds m' out' q [] -> goes m' out' q (packet_spec m' all) ('(ret, st) ← k m' out'; Some (Some ret, st))) ->
  answered m out q all (clear_out m out q k).
Proof.
  intros H Hk. unfold clear_out, answered, stralloc_copys, ptr_len. cbn [view mbind option_bind str_len]. change (0 =? 0) with true. cbn match. cbn [mbind option_bind].
  destruct (copyb_ok m out xs [] (Const [0]) 0) as (ok & m1 & out1 & E & Ev & R & Hf); [by destruct H|apply (reads_const _ _ [] [0])|done|done|].
  change (Z.of_nat 0) with 0. rewrite E. cbn [mbind option_bind]. destruct (evolves_holds _ _ _ _ _ _ _ H Ev R) as [H1 M]. destruct ok.
  - apply (goes_moves _ _ _ _ _ _ _ _ M). destruct (Hk m1 out1 H1) as (ret & m2 & out2 & q2 & ws & -> & H2 & M2 & HR).
    destruct M as [_ MA]. exists ret, m2, out2, q2, ws. split; [done|]. split; [done|]. split; [done|].
    destruct HR as [HR|[-> [HR|HR]]]; [by left|right; split; [done|by left]|right; split; [done|right; by apply MA]].
  - cbn [mbind option_bind]. exists (Some (-1)), m1, out1, q, xs. split; [done|]. split; [done|]. split; [done|]. right. split; [done|right; by apply Hf].
Qed.

Lemma finish_answers_ok m out q says stops answer_fn : answers_with len says stops answer_fn -> holds m out q [] ->
  goes m out q (packet_spec m (packet_says buf len says stops))
    ('(ret, st) ← finish (packet_answers buf len answer_fn (m, out, q)); Some (Some ret, st)).
Proof.
  intros Ha H. destruct (packet_answers_ok buf len Hb Hlen H32 says stops answer_fn m out q [] Ha H) as (ret & m1 & out1 & q1 & ws & -> & H1 & M & HR); [cbn; lia|].
  unfold finish. cbn [mbind option_bind]. eexists _, m1, out1, q1, ws. split; [done|]. split; [done|]. split; [done|].
  destruct HR as [[Hret (ys & Hy & -> & _)]|[-> HR]]; [left|by right]. split; [|done]. by destruct Hret as [->|[-> _]].
Qed.

Lemma packet_ok m out q xs says stops answer_fn : answers_with len says stops answer_fn -> holds m out q xs ->
  answered m out q (packet_says buf len says stops)
    (clear_out m out q (fun m out => finish (packet_answers buf len answer_fn (m, out, q)))).
Proof. intros Ha H. apply (clear_ok _ _ _ xs); [done|]. intros m' out' H'. by apply finish_answers_ok. Qed.
End packet.

(** * Theorems *)

(** C11: whatever bytes a packet of [len] bytes holds, the functions for names,
    texts and mail exchangers end and read nothing behind it; they answer 0 and
    leave what its answers say, or -1 when a name, a record or its data does not
    fit into it or memory runs out, and only the string and the name kept in
    [q] are changed. *)
Theorem dns_packets_correct (buf : list Z) (len : Z) (m : mem) (out : stralloc) (q : option nat) (xs : list Z) :
  bytes buf -> 0 <= len <= Z.of_nat (length buf) -> len < 2 ^ 31 -> holds m out q xs ->
  answered m out q (packet_says buf len (name_says buf len) (of_type DNS_T_PTR)) (dns_name_packet m out q buf len) /\
  answered m out q (packet_says buf len (txt_says buf len) never) (dns_txt_packet m out q buf len) /\
  answered m out q (packet_says buf len (mx_says buf len) never) (dns_mx_packet m out q buf len).
Proof.
  intros Hb Hlen H32 H. split; [|split]; eapply packet_ok; try done.
  - by apply name_answers.
  - by apply txt_answers.
  - by apply mx_answers.
Qed.

(** A question for [a] and one text. *)
Definition txt_packet : list Z :=
  [0; 1; 128; 0; 0; 1; 0; 1; 0; 0; 0; 0] ++ [1; 97; 0; 0; 16; 0; 1] ++ [192; 12; 0; 16; 0; 1; 0; 0; 0; 9; 0; 4; 2; 104; 7; 0].

Lemma dns_packets_correct_witness :
  exists r m' out' q', dns_txt_packet mem0 stralloc_init None txt_packet 35 = Some (r, (m', out', q')) /\
    holds m' out' q' (lit "h?") /\ r = 0.
Proof.
  assert (holds mem0 stralloc_init None []) as H0 by (split; [apply rep_init, mem0_wf|done|done]).
  destruct (dns_packets_correct txt_packet 35 mem0 stralloc_init None []) as (_ & (ret & m' & out' & q' & ws & E & H & _ & HR) & _);
    [repeat (constructor; [done|]); constructor|cbn; lia|lia|done|].
  destruct (dns_txt_packet mem0 stralloc_init None txt_packet 35) as [[r [[m1 out1] q1]]|] eqn:Et; [|done]. cbn in E. injection E as <- <- <- <-.
  exists r, m1, out1, q1. split; [done|]. vm_compute in Et. injection Et as <- <- <- <-. split; [|done].
  destruct H as [[Hw Hl Hb] Hlv Hs]. cbn in Hb, Hl. destruct Hb as (l & Hb & _ & _ & Ht).
  assert (length ws = 2%nat) as H2 by lia. rewrite H2 in Ht. vm_compute in Hb. injection Hb as <-. cbn in Ht. subst ws. split; [split; [done..|]|done|done].
  cbn. eexists. split; [reflexivity|]. done.
Defined.
