(* ===== verification/DnsSort.v ===== *)
(** The random order of [lib/dns/]: the generator answers below its bound, the
    addresses are put into some order, and the functions for addresses answer
    those of the packet. *)
From S2P Require Import Prelude ByteOps StrOps Pack Tai FmtNum Memory Stralloc Dns DnsNames DnsPacket.

(** * The generator *)

Definition rng_ok (g : rng) : Prop :=
  length (seed g) = 32%nat /\ length (rng_in g) = 12%nat /\ length (rng_out g) = 8%nat /\ (outleft g <= 8)%nat.

Lemma mush_ok (g : rng) sum (bs : list Z) : forall t x i, (i + length bs <= length t)%nat -> (i + length bs <= length (seed g))%nat ->
  exists t' x', mush g sum t x i bs = Some (t', x') /\ length t' = length t.
Proof.
  induction bs as [|b bs IH]; intros t x i Ht Hs; [by exists t, x|]. cbn [mush length] in *. unfold load.
  destruct (lookup_lt_is_Some_2 t i) as [ti Et]; [lia|]. destruct (lookup_lt_is_Some_2 (seed g) i) as [si Es]; [lia|].
  rewrite Et, Es. cbn [mbind option_bind]. rewrite store_Some by lia. cbn [mbind option_bind].
  match goal with |- context [mush g sum ?t' ?x' _ _] => destruct (IH t' x' (S i)) as (t2 & x2 & -> & H2) end; rewrite ?length_insert in *; [lia|lia|].
  by exists t2, x2.
Qed.

Lemma surf_rounds_ok (g : rng) (r : nat) : forall sum t x, length t = 12%nat -> length (seed g) = 32%nat ->
  exists sum' t' x', surf_rounds g sum t x r = Some (sum', t', x') /\ length t' = 12%nat.
Proof.
  induction r as [|r IH]; intros sum t x Ht Hs; [by exists sum, t, x|]. cbn [surf_rounds].
  destruct (mush_ok g (u32 (sum + 2654435769)) [5; 7; 9; 13; 5; 7; 9; 13; 5; 7; 9; 13] t x 0) as (t1 & x1 & -> & H1); [cbn; lia|cbn; lia|].
  cbn [mbind option_bind]. apply IH; [lia|done].
Qed.

Lemma surf_loop_ok (g : rng) (loop : nat) : forall sum t x out, length t = 12%nat -> length (seed g) = 32%nat -> length out = 8%nat ->
  exists out', surf_loop g sum t x out loop = Some out' /\ length out' = 8%nat.
Proof.
  induction loop as [|loop IH]; intros sum t x out Ht Hs Ho; [by exists out|]. cbn [surf_loop].
  destruct (surf_rounds_ok g 16 sum t x Ht Hs) as (sum1 & t1 & x1 & -> & H1). cbn [mbind option_bind].
  apply IH; [done|done|]. rewrite length_zip_with, length_drop. lia.
Qed.

Lemma surf_ok (g : rng) : rng_ok g -> exists g', surf g = Some g' /\ rng_ok g'.
Proof.
  intros (Hs & Hi & Ho & Hl). unfold surf. set (t := zip_with _ _ _).
  assert (length t = 12%nat) as Ht by (unfold t; rewrite length_zip_with, length_drop; lia). unfold load.
  destruct (lookup_lt_is_Some_2 t 11) as [x ->]; [lia|]. cbn [mbind option_bind].
  destruct (surf_loop_ok g 2 0 t x (drop 24 (seed g)) Ht Hs) as (out & -> & H); [rewrite length_drop; lia|]. cbn [mbind option_bind].
  eexists. split; [done|]. by split_and!.
Qed.

Lemma count_up_length (n : nat) : forall l, length (count_up l n) = length l.
Proof.
  induction n as [|n IH]; intros [|x l]; try done. cbn [count_up]. destruct (_ =? 0); [|done]. cbn [length]. by rewrite IH.
Qed.

Lemma random_ok (g : rng) (n : Z) : rng_ok g -> 0 <= n ->
  exists x g', dns_random g n = Some (x, g') /\ rng_ok g' /\ (x = 0 /\ n = 0 \/ 0 <= x < n).
Proof.
  intros Hg Hn. unfold dns_random. destruct (Z.eqb_spec n 0) as [->|Hn0]; [exists 0, g; split; [done|]; split; [done|by left]|].
  assert (exists g1, (match outleft g with
       | O => g ← surf (Rng (seed g) (count_up (rng_in g) 4) (rng_out g) 0); Some (Rng (seed g) (rng_in g) (rng_out g) 8)
       | S _ => Some g end) = Some g1 /\ rng_ok g1 /\ (0 < outleft g1)%nat) as (g1 & -> & (Hs & Hi & Ho & Hl) & H0).
  { destruct (outleft g) as [|k] eqn:Ek.
    - destruct (surf_ok (Rng (seed g) (count_up (rng_in g) 4) (rng_out g) 0)) as (g1 & -> & Hs & Hi & Ho & _).
      { destruct Hg as (Hs & Hi & Ho & _). split_and!; cbn [seed rng_in rng_out outleft]; [done|by rewrite count_up_length|done|lia]. }
      cbn [mbind option_bind]. eexists. split; [done|]. cbn. split; [split_and!; (done || (cbn; lia))|lia].
    - exists g. split; [done|]. split; [done|lia]. }
  cbn [mbind option_bind]. unfold load. destruct (lookup_lt_is_Some_2 (rng_out g1) (outleft g1 - 1)) as [x ->]; [lia|]. cbn [mbind option_bind].
  eexists _, _. split; [done|]. split; [split_and!; cbn; (done || lia)|]. right. apply Z.mod_pos_bound. lia.
Qed.

(** * Groups of bytes *)

Definition groups_of (w : nat) (gs : list (list Z)) : Prop := Forall (fun x => length x = w) gs.

Lemma concat_length w gs : groups_of w gs -> length (concat gs) = (length gs * w)%nat.
Proof. induction 1 as [|x gs Hx _ IH]; [done|]. cbn [concat length]. rewrite length_app. lia. Qed.

Lemma group_at w gs z i x : groups_of w gs -> gs !! i = Some x -> take w (drop (i * w) (concat gs ++ z)) = x.
Proof.
  intros H. revert i. induction H as [|y gs Hy _ IH]; intros i E; [done|]. cbn [concat]. rewrite <- app_assoc. destruct i as [|i].
  - injection E as ->. cbn [Nat.mul drop]. rewrite <- Hy. apply take_app_length.
  - replace (S i * w)%nat with (length y + i * w)%nat by lia. rewrite <- drop_drop, drop_app_length. by apply IH.
Qed.

Lemma group_put w gs z i x : groups_of w gs -> length x = w -> (i < length gs)%nat ->
  splice (concat gs ++ z) (i * w) x = concat (<[i:=x]> gs) ++ z.
Proof.
  intros H Hx. revert i. induction H as [|y gs Hy _ IH]; intros i Hi; [cbn in Hi; lia|]. destruct i as [|i].
  - change (<[0%nat:=x]> (y :: gs)) with (x :: gs). cbn [Nat.mul concat]. rewrite <- !app_assoc. unfold splice. cbn [take app Nat.add].
    by rewrite Hx, <- Hy, drop_app_length.
  - change (<[S i:=x]> (y :: gs)) with (y :: <[i:=x]> gs). cbn [concat length] in *.
    rewrite <- !app_assoc, <- IH by lia. unfold splice. replace (S i * w)%nat with (length y + i * w)%nat by lia.
    rewrite take_app_add, <- app_assoc. f_equal. f_equal. f_equal. rewrite <- Nat.add_assoc, drop_app_add. done.
Qed.

Lemma groups_insert w gs i x : groups_of w gs -> length x = w -> groups_of w (<[i:=x]> gs).
Proof. intros H Hx. by apply Forall_insert. Qed.

Lemma swap_groups_ok w gs z i n x y : groups_of w gs -> gs !! i = Some x -> gs !! n = Some y -> (i <= n)%nat ->
  swap (concat gs ++ z) w i n = Some (concat (<[n:=x]> (<[i:=y]> gs)) ++ z).
Proof.
  intros H Ex Ey Hin. pose proof (lookup_lt_Some _ _ _ Ex) as Hi. pose proof (lookup_lt_Some _ _ _ Ey) as Hn. unfold swap.
  pose proof (concat_length w gs H) as Hc. assert (length x = w /\ length y = w) as [Hx Hy].
  { split; [exact (list.Forall_lookup_1 _ _ _ _ H Ex)|exact (list.Forall_lookup_1 _ _ _ _ H Ey)]. }
  rewrite (byte_copy_spec (replicate w 0)); cbn [src_block]; [|rewrite length_replicate; lia|cbn; rewrite length_drop, length_app; nia|done].
  rewrite (group_at w gs z i x) by done. cbn [mbind option_bind].
  assert (splice (replicate w 0) 0 x = x) as ->.
  { unfold splice. cbn [take app]. rewrite drop_ge by (rewrite length_replicate; lia). by rewrite app_nil_r. }
  rewrite byte_copy_spec; cbn [src_block]; [|rewrite length_app; nia|cbn; rewrite length_app; nia|].
  2:{ cbn. nia. }
  unfold block. rewrite (group_at w gs z n y) by done. cbn [mbind option_bind]. rewrite group_put by done.
  rewrite byte_copy_spec; cbn [src_block]; [|rewrite length_app, (concat_length w) by (by apply groups_insert); rewrite length_insert; nia|cbn; lia|done].
  assert (take w x = x) as -> by (apply take_ge; lia). rewrite group_put; [done|by apply groups_insert|done|by rewrite length_insert].
Qed.

Lemma sortip_loop_ok w (n : nat) : forall g gs z, rng_ok g -> groups_of w gs -> (n <= length gs)%nat ->
  exists gs' g', sortip_loop g w (concat gs ++ z) n = Some (concat gs' ++ z, g') /\ gs' ≡ₚ gs /\ rng_ok g'.
Proof.
  induction n as [|n IH]; intros g gs z Hg H Hn; [by exists gs, g|]. cbn [sortip_loop].
  destruct (Nat.eqb_spec n 0); [by exists gs, g|].
  destruct (random_ok g (Z.of_nat (S n)) Hg) as (i & g1 & -> & Hg1 & Hi); [lia|]. cbn [mbind option_bind].
  destruct (lookup_lt_is_Some_2 gs (Z.to_nat i)) as [x Ex]; [lia|]. destruct (lookup_lt_is_Some_2 gs n) as [y Ey]; [lia|].
  rewrite (swap_groups_ok w gs z (Z.to_nat i) n x y) by (done || lia). cbn [mbind option_bind].
  destruct (IH g1 (<[n:=x]> (<[Z.to_nat i:=y]> gs)) z Hg1) as (gs2 & g2 & -> & Hp & Hg2).
  { apply groups_insert; [apply groups_insert; [done|]|]; [exact (list.Forall_lookup_1 _ _ _ _ H Ey)|exact (list.Forall_lookup_1 _ _ _ _ H Ex)]. }
  { rewrite !length_insert. lia. }
  exists gs2, g2. split; [done|]. split; [|done]. rewrite Hp. by apply Permutation_insert_swap.
Qed.

Lemma sortip_ok g gs z : rng_ok g -> groups_of 4 gs -> 4 * Z.of_nat (length gs) < 2 ^ 32 ->
  exists gs' g', dns_sortip g (concat gs ++ z) (Z.of_nat (length (concat gs))) = Some (concat gs' ++ z, g') /\ gs' ≡ₚ gs /\ rng_ok g'.
Proof.
  intros Hg H Hs. unfold dns_sortip. rewrite (concat_length 4) by done. rewrite u32_id by (unfold is_u32; lia).
  rewrite Z.shiftr_div_pow2 by lia. change (2 ^ 2) with 4. replace (Z.of_nat (length gs * 4) / 4) with (Z.of_nat (length gs)) by zmod.
  rewrite Nat2Z.id. by apply sortip_loop_ok.
Qed.

Lemma sortip6_ok g gs z : rng_ok g -> groups_of 16 gs -> 16 * Z.of_nat (length gs) < 2 ^ 32 ->
  exists gs' g', dns_sortip6 g (concat gs ++ z) (Z.of_nat (length (concat gs))) = Some (concat gs' ++ z, g') /\ gs' ≡ₚ gs /\ rng_ok g'.
Proof.
  intros Hg H Hs. unfold dns_sortip6. rewrite (concat_length 16) by done. rewrite u32_id by (unfold is_u32; lia).
  rewrite Z.shiftr_div_pow2 by lia. change (2 ^ 4) with 16. replace (Z.of_nat (length gs * 16) / 16) with (Z.of_nat (length gs)) by zmod.
  rewrite Nat2Z.id. by apply sortip_loop_ok.
Qed.

(** * Addresses *)

(** A sorting routine for groups of [w] bytes. *)
Definition sorts (w : nat) (sort : rng -> list Z -> Z -> option (list Z * rng)) : Prop :=
  forall g gs z, rng_ok g -> groups_of w gs -> Z.of_nat w * Z.of_nat (length gs) < 2 ^ 32 ->
  exists gs' g', sort g (concat gs ++ z) (Z.of_nat (length (concat gs))) = Some (concat gs' ++ z, g') /\ gs' ≡ₚ gs /\ rng_ok g'.

Lemma sort_out_ok w sort g m out q gs : sorts w sort -> rng_ok g -> holds m out q (concat gs) -> groups_of w gs ->
  Z.of_nat w * Z.of_nat (length gs) < 2 ^ 32 ->
  exists m' g' gs', sort_out g sort m out = Some (m', g') /\ rng_ok g' /\ gs' ≡ₚ gs /\
    holds m' out q (concat gs') /\ moves m out q m' out q.
Proof.
  intros Hsort Hg H Hgs Hs. destruct (H) as [[Hw Hl Hb] _ _]. unfold sort_out. destruct (sa_s out) as [b|] eqn:Eb.
  - destruct Hb as (l & Hb & Ha & Ha0 & Ht). rewrite Hb. cbn [mbind option_bind]. rewrite Hl.
    assert (l = concat gs ++ drop (length (concat gs)) l) as El by (rewrite <- Ht at 1; by rewrite take_drop). rewrite El.
    destruct (Hsort g gs (drop (length (concat gs)) l) Hg Hgs Hs) as (gs' & g' & -> & Hp & Hg'). cbn [mbind option_bind].
    set (l' := concat gs' ++ _). assert (length (concat gs') = length (concat gs)) as Hc by (by rewrite Hp).
    assert (length l' = length l) as Hll by (unfold l'; rewrite El at 2; rewrite !length_app; lia).
    exists (put m b l'), g', gs'. split; [done|]. split; [done|]. split; [done|].
    eapply evolves_holds; [exact H|by eapply evolves_put|]. split; [apply mwf_put; [done|by eexists]|lia|]. rewrite Eb. exists l'. cbn.
    rewrite lookup_insert_eq. split; [done|]. split; [lia|]. split; [done|]. unfold l'. apply take_app_length.
  - rewrite Hl, Hb. destruct (Hsort g [] [] Hg) as (gs' & g' & E & Hp & Hg'); [constructor|cbn; lia|].
    cbn [concat app length Z.of_nat] in E |- *. rewrite E. cbn [mbind option_bind].
    exists m, g', gs. split; [done|]. split; [done|]. split; [done|]. split; [done|apply moves_refl].
Qed.

Section packet.
Context (buf : list Z) (len : Z) (Hb : bytes buf) (Hlen : 0 <= len <= Z.of_nat (length buf)) (H32 : len < 2 ^ 31).

(** Answers that are addresses or nothing. *)
Definition says_groups (w : nat) (says : record -> list Z -> Prop) : Prop :=
  forall pos r ys, record_at buf len pos r -> says r ys -> ys = [] \/ length ys = w.

Lemma answers_groups w says stops n pos zs : says_groups w says -> answers_say buf len says stops n pos zs ->
  exists gs, zs = concat gs /\ groups_of w gs.
Proof.
  intros Hw. assert (forall pos r ys, record_at buf len pos r -> says r ys -> exists gs, ys = concat gs /\ groups_of w gs) as Hone.
  { intros p r ys Hr Hy. destruct (Hw p r ys Hr Hy) as [->|Hl]; [exists []; by split; [|constructor]|].
    exists [ys]. cbn. rewrite app_nil_r. split; [done|]. constructor; [done|constructor]. }
  induction 1 as [pos|n pos r ys Hr Hst Hs|n pos r ys zs Hr Hst Hs _ IH]; [exists []; by split; [|constructor]|by eapply Hone|].
  destruct (Hone pos r ys Hr Hs) as (g1 & -> & H1). destruct IH as (g2 & -> & H2). exists (g1 ++ g2). rewrite concat_app. split; [done|].
  apply list.Forall_app. by split.
Qed.

Lemma record_place pos r : record_at buf len pos r -> 10 <= r.2 <= len.
Proof. destruct 1 as [pos q n H]. pose proof (name_ends_at _ _ _ _ H). cbn. lia. Qed.

Lemma ip4_groups : says_groups 4 (ip4_says buf len).
Proof.
  intros pos r ys Hr%record_place. unfold ip4_says. destruct (_ && _); [|by left]. intros [Hl ->]. right.
  by rewrite (bytes_at_length buf len Hlen) by lia.
Qed.

Lemma ip6_groups : says_groups 16 (ip6_says buf len).
Proof.
  intros pos r ys Hr%record_place. unfold ip6_says. destruct (_ && _); [|destruct (_ && _); [|by left]]; intros [Hl ->]; right.
  - by rewrite (bytes_at_length buf len Hlen) by lia.
  - by rewrite length_app, (bytes_at_length buf len Hlen) by lia.
Qed.

(** No pointer is used. *)
Definition keeps_pointer (answer_fn : list Z -> Z -> Z -> mem * stralloc * option nat -> option (option Z * (mem * stralloc * option nat))) : Prop :=
  forall h n p st r, answer_fn h n p st = Some r -> r.2.2 = st.2.

Lemma answers_loop_keeps answer_fn n : keeps_pointer answer_fn -> forall pos st r, answers_loop buf len answer_fn n pos st = Some r -> r.2.2 = st.2.
Proof.
  intros Hk. induction n as [|n IH]; intros pos st r E; cbn [answers_loop] in E; [by simplify_eq|].
  destruct (packet_record buf len pos) as [[[[h k] p]|]|]; cbn [mbind option_bind] in E; [|by simplify_eq|done].
  destruct (answer_fn h k p st) as [[ret st']|] eqn:Ea; cbn [mbind option_bind] in E; [|done]. apply Hk in Ea. cbn in Ea.
  destruct ret; [by simplify_eq|]. apply IH in E. congruence.
Qed.

Lemma packet_answers_keeps answer_fn st r : keeps_pointer answer_fn -> packet_answers buf len answer_fn st = Some r -> r.2.2 = st.2.
Proof.
  intros Hk E. unfold packet_answers in E. destruct (packet_start buf len) as [[[n p]|]|]; cbn [mbind option_bind] in E; [|by simplify_eq|done].
  by eapply answers_loop_keeps.
Qed.

Lemma or_fail_keeps q r x : or_fail q r = Some x -> x.2.2 = q.
Proof. unfold or_fail. destruct r as [[[ok m] out]|]; cbn; [|done]. by intros [= <-]. Qed.

Lemma ip4_keeps : keeps_pointer (ip4_answer buf len).
Proof.
  intros h n p [[m out] q] r E. unfold ip4_answer in E. destruct (is_type h DNS_T_A) as [e|]; cbn [mbind option_bind] in E; [|done].
  destruct (negb e || _); [by simplify_eq|]. destruct (dns_packet_copy buf len p 4) as [[k ip]|]; cbn [mbind option_bind] in E; [|done].
  destruct (k =? 0); [by simplify_eq|by apply or_fail_keeps in E].
Qed.

Lemma ip6_keeps : keeps_pointer (ip6_answer buf len).
Proof.
  intros h n p [[m out] q] r E. unfold ip6_answer in E. destruct (byte_equal h 2 DNS_T_AAAA) as [a|]; cbn [mbind option_bind] in E; [|done].
  destruct (is_type h _) as [e|]; cbn [mbind option_bind] in E; [|done]. destruct (negb e); [by simplify_eq|]. destruct (a && _).
  - destruct (dns_packet_copy buf len p 16) as [[k ip]|]; cbn [mbind option_bind] in E; [|done].
    destruct (k =? 0); [by simplify_eq|by apply or_fail_keeps in E].
  - destruct (negb a && _); [|by simplify_eq]. destruct (dns_packet_copy buf len p 4) as [[k ip]|]; cbn [mbind option_bind] in E; [|done].
    destruct (k =? 0); [by simplify_eq|by apply or_fail_keeps in E].
Qed.

(** What a function for addresses leaves. *)
Definition addresses (w : nat) (says : record -> list Z -> Prop) (m : mem) (out : stralloc)
    (r : option (Z * (mem * stralloc * option nat) * rng)) : Prop :=
  exists ret m' out' g' ws, r = Some (ret, (m', out', None), g') /\ rng_ok g' /\ holds m' out' None ws /\ moves m out None m' out' None /\
    (ret = 0 /\ (exists gs gs', packet_says buf len says never (concat gs) /\ groups_of w gs /\ gs' ≡ₚ gs /\ ws = concat gs') \/
     ret = -1 /\ ((forall ys, packet_says buf len says never ys -> False) \/ false ∈ answers m)).

Lemma sorted_addresses w says answer_fn sort g m out : sorts w sort -> says_groups w says -> keeps_pointer answer_fn ->
  answers_with len says never answer_fn -> rng_ok g -> holds m out None [] ->
  addresses w says m out (sorted g sort (packet_answers buf len answer_fn (m, out, None))).
Proof.
  intros Hsort Hw Hk Ha Hg H. unfold sorted.
  destruct (packet_answers_ok buf len Hb Hlen H32 says never answer_fn m out None [] Ha H) as (ret & m1 & out1 & q1 & ws & E & H1 & M & HR); [cbn; lia|].
  pose proof (packet_answers_keeps _ _ _ Hk E) as Eq. cbn in Eq. subst q1. rewrite E. cbn [mbind option_bind].
  destruct HR as [[Hret (ys & Hy & -> & Hl)]|[-> HR]].
  - destruct Hret as [->|[_ (r & Hr)]]; [|done]. cbn [app] in *. destruct Hy as (n & q & H12 & En & Hq & Hy).
    destruct (answers_groups w says never _ _ _ Hw Hy) as (gs & -> & Hgs). pose proof (concat_length w gs Hgs).
    destruct (sort_out_ok w sort g m1 out1 None gs Hsort Hg H1 Hgs) as (m2 & g2 & gs' & -> & Hg2 & Hp & H2 & M2); [lia|]. cbn [mbind option_bind].
    exists 0, m2, out1, g2, (concat gs'). split; [done|]. split; [done|]. split; [done|]. split; [by eapply moves_trans|]. left. split; [done|].
    exists gs, gs'. split; [by exists n, q|]. by split_and!.
  - exists (-1), m1, out1, g, ws. split; [done|]. split; [done|]. split; [done|]. split; [done|]. by right.
Qed.

Lemma clear_addresses w says g m out xs (k : mem -> stralloc -> option (Z * (mem * stralloc * option nat) * rng)) :
  rng_ok g -> holds m out None xs -> (forall m' out', holds m' out' None [] -> addresses w says m' out' (k m' out')) ->
  addresses w says m out ('(ok, m, out) ← stralloc_copys m out (Const [0]);
    if (ok : bool) then k m out else Some (-1, (m, out, None), g)).
Proof.
  intros Hg H Hk. unfold stralloc_copys, ptr_len. cbn [view mbind option_bind str_len]. change (0 =? 0) with true. cbn match. cbn [mbind option_bind].
  destruct (copyb_ok m out xs [] (Const [0]) 0) as (ok & m1 & out1 & E & Ev & R & Hf); [by destruct H|apply (reads_const _ _ [] [0])|done|done|].
  change (Z.of_nat 0) with 0. rewrite E. cbn [mbind option_bind]. destruct (evolves_holds _ _ _ _ _ _ _ H Ev R) as [H1 M]. destruct ok.
  - destruct (Hk m1 out1 H1) as (ret & m2 & out2 & g2 & ws & -> & Hg2 & H2 & M2 & HR). exists ret, m2, out2, g2, ws.
    split; [done|]. split; [done|]. split; [done|]. split; [by eapply moves_trans|]. destruct M as [_ MA].
    destruct HR as [HR|[-> [HR|HR]]]; [by left|right; split; [done|by left]|right; split; [done|right; by apply MA]].
  - exists (-1), m1, out1, g, xs. split; [done|]. split; [done|]. split; [done|]. split; [done|]. right. split; [done|right; by apply Hf].
Qed.
End packet.

(** * Theorems *)

(** [dns_sortip] and [dns_sortip6] put the groups of 4 and of 16 bytes into
    some order, whatever the generator answers; bytes behind them stay. *)
Theorem dns_sortip_permutes (g : rng) (gs4 gs16 : list (list Z)) (z : list Z) :
  rng_ok g -> groups_of 4 gs4 -> groups_of 16 gs16 ->
  4 * Z.of_nat (length gs4) < 2 ^ 32 -> 16 * Z.of_nat (length gs16) < 2 ^ 32 ->
  (exists gs' g', dns_sortip g (concat gs4 ++ z) (Z.of_nat (length (concat gs4))) = Some (concat gs' ++ z, g') /\ gs' ≡ₚ gs4 /\ rng_ok g') /\
  (exists gs' g', dns_sortip6 g (concat gs16 ++ z) (Z.of_nat (length (concat gs16))) = Some (concat gs' ++ z, g') /\ gs' ≡ₚ gs16 /\ rng_ok g').
Proof. intros. split; [by apply sortip_ok|by apply sortip6_ok]. Qed.

Definition rng0 : rng := Rng (replicate 32 0) (replicate 12 0) (replicate 8 0) 0.

Lemma rng0_ok : rng_ok rng0.
Proof. split_and!; cbn; (done || lia). Qed.

Lemma dns_sortip_permutes_witness :
  exists gs' g', dns_sortip rng0 ([1; 1; 1; 1; 2; 2; 2; 2; 3; 3; 3; 3] ++ [9]) 12 = Some (concat gs' ++ [9], g') /\
    gs' ≡ₚ [[1; 1; 1; 1]; [2; 2; 2; 2]; [3; 3; 3; 3]].
Proof.
  destruct (dns_sortip_permutes rng0 [[1; 1; 1; 1]; [2; 2; 2; 2]; [3; 3; 3; 3]] [] [9] rng0_ok) as [(gs' & g' & E & Hp & _) _];
    [repeat constructor|constructor|cbn; lia|cbn; lia|].
  exists gs', g'. split; [exact E|exact Hp].
Defined.

(** C25: [dns_ip4_packet] and [dns_ip6_packet] read nothing behind the packet;
    they answer 0 and leave the addresses of its answers in some order, or -1
    when the packet is bad or memory runs out, and nothing but the string is
    changed. *)
Theorem dns_addresses_correct (buf : list Z) (len : Z) (g : rng) (m : mem) (out : stralloc) (xs : list Z) :
  bytes buf -> 0 <= len <= Z.of_nat (length buf) -> len < 2 ^ 31 -> rng_ok g -> holds m out None xs ->
  addresses buf len 4 (ip4_says buf len) m out (dns_ip4_packet g m out buf len) /\
  addresses buf len 16 (ip6_says buf len) m out (dns_ip6_packet g m out buf len).
Proof.
  intros Hb Hlen H32 Hg H. split; (eapply clear_addresses; [done|done|]; intros m' out' H'; apply sorted_addresses; try done).
  - intros g' gs z. apply sortip_ok.
  - by apply ip4_groups.
  - apply ip4_keeps.
  - by apply ip4_answers.
  - intros g' gs z. apply sortip6_ok.
  - by apply ip6_groups.
  - apply ip6_keeps.
  - by apply ip6_answers.
Qed.

(** A question for [a] and one address. *)
Definition ip4_packet : list Z :=
  [0; 1; 128; 0; 0; 1; 0; 1; 0; 0; 0; 0] ++ [1; 97; 0; 0; 1; 0; 1] ++ [192; 12; 0; 1; 0; 1; 0; 0; 0; 9; 0; 4; 10; 0; 0; 7].

Lemma dns_addresses_correct_witness :
  exists ret m' out' g', dns_ip4_packet rng0 mem0 stralloc_init ip4_packet 35 = Some (ret, (m', out', None), g') /\ ret = 0 /\
    exists gs gs', packet_says ip4_packet 35 (ip4_says ip4_packet 35) never (concat gs) /\ gs' ≡ₚ gs /\ holds m' out' None (concat gs').
Proof.
  assert (holds mem0 stralloc_init None []) as H0 by (split; [apply rep_init, mem0_wf|done|done]).
  destruct (dns_addresses_correct ip4_packet 35 rng0 mem0 stralloc_init []) as ((ret & m' & out' & g' & ws & E & _ & H & _ & HR) & _);
    [repeat (constructor; [done|]); constructor|cbn; lia|lia|exact rng0_ok|done|].
  exists ret, m', out', g'. split; [exact E|]. destruct HR as [[-> (gs & gs' & Hp & _ & Hg & ->)]|[-> _]].
  - split; [done|]. exists gs, gs'. by split_and!.
  - vm_compute in E. discriminate.
Defined.
