(* ===== verification/Fnmatch.v ===== *)
(** Shell patterns: [lib/path/path_fnmatch.c].  Pattern and string are pointers
    with lengths (unsigned 32-bit counters that wrap around); the pattern is
    read through, the string also one character back.  [None] is undefined
    behaviour, or a loop that runs on.  The reference is a relation between the
    tokens of a pattern and a string. *)
From S2P Require Import Prelude.

(** * The code *)

Definition PATH_FNM_PATHNAME : Z := 1.
Definition PATH_FNM_NOESCAPE : Z := 2.
Definition PATH_FNM_PERIOD : Z := 4.
Definition NOTFIRST : Z := 128.
Definition PATH_FNM_NOMATCH : Z := 1.

Definition flag (flags f : Z) : bool := negb (Z.land flags f =? 0).

(** [while(plen && *pattern == '*')]: the length left. *)
Fixpoint skip_stars (pattern : list Z) (plen : Z) {struct pattern} : option Z :=
  if plen =? 0 then Some plen else
  match pattern with
  | [] => None
  | p :: pattern => if p =? "*"%C then skip_stars pattern (u32 (plen - 1)) else Some plen
  end.

(** [while(plen && *pattern != ']')], and the bracket. *)
Fixpoint skip_class (pattern : list Z) (plen : Z) {struct pattern} : option (list Z * Z) :=
  if plen =? 0 then Some (pattern, plen) else
  match pattern with
  | [] => None
  | p :: pattern =>
      if p =? "]"%C then Some (pattern, u32 (plen - 1))
      else skip_class pattern (u32 (plen - 1))
  end.

(** The members of a class, [first] at its start.  Gives what follows the class
    when it matches. *)
Fixpoint class_loop (pattern : list Z) (plen : Z) (first neg : bool) (c : Z) (fuel : nat)
    : option (option (list Z * Z)) :=
  match fuel with
  | O => None
  | S fuel =>
      if plen =? 0 then Some None else
      p ← load pattern 0;
      if (p =? "]"%C) && negb first then Some None else
      posix ← (if p =? "["%C then p1 ← load pattern 1; Some (p1 =? ":"%C) else Some false);
      '(res, pattern, plen, first) ←
        (if (posix : bool) then Some (false, pattern, plen, first) else
         range ← (if 1 <? plen then
                    p1 ← load pattern 1;
                    if p1 =? "-"%C then p2 ← load pattern 2; Some (negb (p2 =? "]"%C))
                    else Some false
                  else Some false);
         if (range : bool) then
           p2 ← load pattern 2;
           Some ((s8 p <=? s8 c) && (s8 c <=? s8 p2), drop 3 pattern, u32 (plen - 3), false)
         else Some (p =? c, drop 1 pattern, u32 (plen - 1), false));
      matched ← (if (res : bool) then Some (negb neg)
                 else if neg then p ← load pattern 0; Some (p =? "]"%C) else Some false);
      if (matched : bool) then Some <$> skip_class pattern plen
      else if res && neg then Some None
      else class_loop pattern plen first neg c fuel
  end.

Fixpoint fnmatch_rec (fuel : nat) (pattern : list Z) (plen : Z) (prev : option Z)
    (string : list Z) (slen flags : Z) : option Z :=
  match fuel with
  | O => None
  | S fuel =>
      if slen =? 0 then
        plen ← skip_stars pattern plen;
        Some (if plen =? 0 then 0 else PATH_FNM_NOMATCH)
      else if plen =? 0 then Some PATH_FNM_NOMATCH else
      c ← load string 0;
      p ← load pattern 0;
      hidden ←
        (if (c =? "."%C) && negb (p =? "."%C) && flag flags PATH_FNM_PERIOD then
           if negb (flag flags NOTFIRST) then Some true
           else if flag flags PATH_FNM_PATHNAME then
             before ← prev; Some (before =? "/"%C)
           else Some false
         else Some false);
      if (hidden : bool) then Some PATH_FNM_NOMATCH else
      let flags := Z.lor flags NOTFIRST in
      let slash := (c =? "/"%C) && flag flags PATH_FNM_PATHNAME in
      let next pattern plen :=
        fnmatch_rec fuel pattern plen (Some c) (drop 1 string) (u32 (slen - 1)) flags in
      let match_ pattern plen :=
        p ← load pattern 0;
        if p =? c then next (drop 1 pattern) (u32 (plen - 1)) else Some PATH_FNM_NOMATCH in
      if p =? "["%C then
        let pattern := drop 1 pattern in
        let plen := u32 (plen - 1) in
        if slash then Some PATH_FNM_NOMATCH else
        p ← load pattern 0;
        let neg := p =? "!"%C in
        let pattern := if neg then drop 1 pattern else pattern in
        let plen := if neg then u32 (plen - 1) else plen in
        r ← class_loop pattern plen true neg c (S (Z.to_nat plen));
        match r with
        | None => Some PATH_FNM_NOMATCH
        | Some (pattern, plen) => next pattern plen
        end
      else if p =? "\"%C then
        if negb (flag flags PATH_FNM_NOESCAPE) then
          let plen := u32 (plen - 1) in
          if plen =? 0 then Some PATH_FNM_NOMATCH else match_ (drop 1 pattern) plen
        else match_ pattern plen
      else if p =? "*"%C then
        r ← (if slash then Some PATH_FNM_NOMATCH else next pattern plen);
        if r =? 0 then Some 0
        else fnmatch_rec fuel (drop 1 pattern) (u32 (plen - 1)) prev string slen flags
      else if p =? "?"%C then
        if slash then Some PATH_FNM_NOMATCH else next (drop 1 pattern) (u32 (plen - 1))
      else match_ pattern plen
  end.

(** Every step shortens the pattern or the string. *)
Definition path_fnmatch (pattern : list Z) (plen : Z) (string : list Z) (slen flags : Z)
    : option Z :=
  fnmatch_rec (S (Z.to_nat plen + Z.to_nat slen)) pattern plen None string slen flags.

(** * The reference *)

Inductive member : Type := One (c : Z) | Range (a b : Z).

Inductive token : Type :=
  | Chr (c : Z)
  | Esc (c : Z)
  | Any
  | Star
  | Class_ (neg : bool) (ms : list member).

Definition member_text (m : member) : list Z :=
  match m with One c => [c] | Range a b => [a; "-"%C; b] end.

Definition members_text (ms : list member) : list Z := concat (map member_text ms).

Definition token_text (t : token) : list Z :=
  match t with
  | Chr c => [c]
  | Esc c => ["\"%C; c]
  | Any => ["?"%C]
  | Star => ["*"%C]
  | Class_ neg ms =>
      "["%C :: (if neg then ["!"%C] else []) ++ members_text ms ++ ["]"%C]
  end.

Definition text (ts : list token) : list Z := concat (map token_text ts).

(** Tokens whose text means what they say.  In a class, brackets and the
    characters with a meaning of their own are left out. *)
Definition member_wf (m : member) : Prop :=
  match m with
  | One c => c ∉ lit "[]-!"
  | Range a b => a ∉ lit "[]-!" /\ b <> "]"%C
  end.

Definition token_wf (noescape : bool) (t : token) : Prop :=
  match t with
  | Chr c => c ∉ lit "[*?" /\ (noescape = false -> c <> "\"%C)
  | Esc _ => noescape = false
  | Any | Star => True
  | Class_ _ ms => ms <> [] /\ Forall member_wf ms
  end.

#[export] Instance member_wf_dec (m : member) : Decision (member_wf m).
Proof. destruct m; cbn [member_wf]; apply _. Defined.
#[export] Instance member_eq_dec : EqDecision member.
Proof. solve_decision. Defined.
#[export] Instance token_wf_dec (noescape : bool) (t : token) : Decision (token_wf noescape t).
Proof. destruct t; cbn [token_wf]; apply _. Defined.

Definition in_member (c : Z) (m : member) : bool :=
  match m with
  | One d => d =? c
  | Range a b => (s8 a <=? s8 c) && (s8 c <=? s8 b)
  end.

Section reference.
Context (pathname period : bool).

(** A period that only an explicit period matches: the first character, or
    the first behind a slash. *)
Definition leading (prev : option Z) (c : Z) : bool :=
  period && (c =? "."%C) &&
  match prev with None => true | Some b => pathname && (b =? "/"%C) end.

Definition slash_kept (c : Z) : bool := pathname && (c =? "/"%C).

(** One token matches one character. *)
Definition matches1 (t : token) (prev : option Z) (c : Z) : Prop :=
  match t with
  | Chr d => d = c /\ (leading prev c = true -> d = "."%C)
  | Esc d => d = c /\ leading prev c = false
  | Any => slash_kept c = false /\ leading prev c = false
  | Star => False
  | Class_ neg ms =>
      slash_kept c = false /\ leading prev c = false /\
      existsb (in_member c) ms = negb neg
  end.

Inductive matches : list token -> option Z -> list Z -> Prop :=
  | matches_nil prev : matches [] prev []
  | matches_one t ts prev c s :
      matches1 t prev c -> matches ts (Some c) s -> matches (t :: ts) prev (c :: s)
  | matches_star_empty ts prev s :
      (forall c s', s = c :: s' -> leading prev c = false) ->
      matches ts prev s -> matches (Star :: ts) prev s
  | matches_star_more ts prev c s :
      slash_kept c = false -> leading prev c = false ->
      matches (Star :: ts) (Some c) s -> matches (Star :: ts) prev (c :: s).

End reference.

(** * Lemmas *)

Lemma u32_pred (n : nat) : Z.of_nat (S n) < 2 ^ 32 -> u32 (Z.of_nat (S n) - 1) = Z.of_nat n.
Proof. intros H. rewrite u32_id by (unfold is_u32; lia). lia. Qed.

Lemma flag_lor (flags f : Z) : Z.land 128 f = 0 -> flag (Z.lor flags NOTFIRST) f = flag flags f.
Proof. intros H. unfold flag, NOTFIRST. by rewrite Z.land_lor_distr_l, H, Z.lor_0_r. Qed.

Lemma flag_notfirst (flags : Z) : flag (Z.lor flags NOTFIRST) NOTFIRST = true.
Proof.
  unfold flag, NOTFIRST. rewrite Z.land_lor_distr_l. change (Z.land 128 128) with 128.
  destruct (Z.eqb_spec (Z.lor (Z.land flags 128) 128) 0) as [H|]; [|done].
  apply Z.lor_eq_0_iff in H as [_ H]. done.
Qed.

(** The length of a pattern that has characters left is not 0. *)
Ltac left_over := match goal with
  | |- context [Z.of_nat (S ?n) =? 0] => replace (Z.of_nat (S n) =? 0) with false by lia
  end.

Lemma skip_class_ok (l rest j : list Z) :
  "]"%C ∉ l -> Z.of_nat (length l + S (length rest)) < 2 ^ 32 ->
  skip_class (l ++ "]"%C :: rest ++ j) (Z.of_nat (length l + S (length rest))) =
    Some (rest ++ j, Z.of_nat (length rest)).
Proof.
  induction l as [|x l IH]; intros Hl Hn; cbn [app length skip_class Nat.add] in *.
  - left_over. by rewrite Z.eqb_refl, u32_pred.
  - left_over. rewrite not_elem_of_cons in Hl.
    replace (x =? "]"%C) with false by (destruct Hl; lia). rewrite u32_pred by done.
    apply IH; [tauto|lia].
Qed.

Lemma members_no_bracket (ms : list member) :
  Forall member_wf ms -> "]"%C ∉ members_text ms.
Proof.
  induction 1 as [|m ms Hm _ IH]; cbn [members_text map concat]; [apply not_elem_of_nil|].
  rewrite not_elem_of_app. split; [|done].
  destruct m as [c|a b]; cbn [member_text member_wf] in *;
    rewrite ?not_elem_of_cons in *; destruct_and?; split_and!;
    try apply not_elem_of_nil; congruence.
Qed.

Lemma class_loop_S (pattern : list Z) (plen : Z) (first neg : bool) (c : Z) (fuel : nat) :
  class_loop pattern plen first neg c (S fuel) =
      if plen =? 0 then Some None else
      p ← load pattern 0;
      if (p =? "]"%C) && negb first then Some None else
      posix ← (if p =? "["%C then p1 ← load pattern 1; Some (p1 =? ":"%C) else Some false);
      '(res, pattern, plen, first) ←
        (if (posix : bool) then Some (false, pattern, plen, first) else
         range ← (if 1 <? plen then
                    p1 ← load pattern 1;
                    if p1 =? "-"%C then p2 ← load pattern 2; Some (negb (p2 =? "]"%C))
                    else Some false
                  else Some false);
         if (range : bool) then
           p2 ← load pattern 2;
           Some ((s8 p <=? s8 c) && (s8 c <=? s8 p2), drop 3 pattern, u32 (plen - 3), false)
         else Some (p =? c, drop 1 pattern, u32 (plen - 1), false));
      matched ← (if (res : bool) then Some (negb neg)
                 else if neg then p ← load pattern 0; Some (p =? "]"%C) else Some false);
      if (matched : bool) then Some <$> skip_class pattern plen
      else if res && neg then Some None
      else class_loop pattern plen first neg c fuel.
Proof. done. Qed.

(** What follows a member: the first character of the next, or the bracket. *)
Lemma next_member (ms : list member) (rest : list Z) :
  Forall member_wf ms -> exists d l, members_text ms ++ "]"%C :: rest = d :: l /\
    d <> "-"%C /\ d <> "!"%C /\ (d = "]"%C <-> ms = []).
Proof.
  destruct 1 as [|m ms Hm _]; cbn [members_text map concat app]; [by eexists _, _|].
  destruct m as [c|a b]; cbn [member_text member_wf] in *;
    rewrite ?not_elem_of_cons in *; destruct_and?; eexists _, _; (split; [done|]);
    (split; [congruence|split; [congruence|split; congruence]]).
Qed.

Lemma members_length (ms : list member) : (length ms <= length (members_text ms))%nat.
Proof.
  induction ms as [|[] ms IH]; cbn [members_text map concat] in *; [done| |];
    rewrite length_app; cbn [member_text length] in *; unfold members_text in IH; lia.
Qed.

(** One member: the test, and the pattern behind it. *)
Lemma member_step (m : member) (ms : list member) (first neg : bool) (c : Z) (tail : list Z)
    (n fuel : nat) :
  member_wf m -> Forall member_wf ms -> Z.of_nat n < 2 ^ 32 ->
  (length (member_text m) < n)%nat ->
  class_loop (members_text (m :: ms) ++ "]"%C :: tail) (Z.of_nat n) first neg c (S fuel) =
    (let pattern := members_text ms ++ "]"%C :: tail in
     let plen := Z.of_nat (n - length (member_text m)) in
     let res := in_member c m in
     matched ← (if (res : bool) then Some (negb neg)
                else if neg then p ← load pattern 0; Some (p =? "]"%C) else Some false);
     if (matched : bool) then Some <$> skip_class pattern plen
     else if res && neg then Some None
     else class_loop pattern plen false neg c fuel).
Proof.
  intros Hm Hms Hn Hlen. rewrite class_loop_S.
  cbn [members_text map concat] in *. fold (members_text ms) in *. rewrite <- app_assoc.
  destruct (next_member ms tail Hms) as (d & l & Hd & Hne & _ & _). rewrite Hd in *.
  destruct m as [x|a b]; cbn [member_text member_wf app length in_member] in *;
    repeat rewrite not_elem_of_cons in Hm.
  - replace (Z.of_nat n =? 0) with false by lia. load_all.
    replace (x =? "]"%C) with false by lia. cbn [andb].
    replace (x =? "["%C) with false by lia. cbn [mbind option_bind].
    replace (1 <? Z.of_nat n) with true by lia. load_all.
    replace (d =? "-"%C) with false by lia. cbn [mbind option_bind drop].
    replace (u32 (Z.of_nat n - 1)) with (Z.of_nat (n - 1)); [done|].
    rewrite u32_id by (unfold is_u32; lia). lia.
  - replace (Z.of_nat n =? 0) with false by lia. load_all. destruct Hm as [Ha Hb].
    replace (a =? "]"%C) with false by lia. cbn [andb].
    replace (a =? "["%C) with false by lia. cbn [mbind option_bind].
    replace (1 <? Z.of_nat n) with true by lia. load_all.
    cbn [Z.eqb Pos.eqb]. load_all. replace (b =? "]"%C) with false by lia.
    cbn [negb]. load_all. cbn [drop].
    replace (u32 (Z.of_nat n - 3)) with (Z.of_nat (n - 3)); [done|].
    rewrite u32_id by (unfold is_u32; lia). lia.
Qed.

Lemma class_ok (ms : list member) (neg : bool) (c : Z) (rest j : list Z) :
  Forall member_wf ms -> forall first n fuel, (length ms < fuel)%nat ->
  Z.of_nat n < 2 ^ 32 -> n = (length (members_text ms) + S (length rest))%nat ->
  (ms = [] -> neg = false /\ first = false) ->
  class_loop (members_text ms ++ "]"%C :: rest ++ j) (Z.of_nat n) first neg c fuel =
    Some (if eqb (existsb (in_member c) ms) (negb neg)
          then Some (rest ++ j, Z.of_nat (length rest)) else None).
Proof.
  induction 1 as [|m ms Hm Hms IH]; intros first n [|fuel] Hf Hb Hn Hnil; cbn [length] in Hf; [lia| |lia|].
  - destruct (Hnil eq_refl) as [-> ->]. rewrite class_loop_S. subst n. simpl.
    by replace (Z.pos _ =? 0) with false by lia.
  - assert (length (member_text m) + length (members_text ms) = length (members_text (m :: ms)))%nat
      as Hl by (cbn [members_text map concat]; by rewrite length_app).
    rewrite member_step by (done || lia). cbn zeta.
    replace (n - length (member_text m))%nat with (length (members_text ms) + S (length rest))%nat
      by lia.
    pose proof (skip_class_ok (members_text ms) rest j (members_no_bracket ms Hms) ltac:(lia)) as Hsk.
    cbn [existsb]. destruct (in_member c m); cbn [orb mbind option_bind andb].
    + destruct neg; cbn [negb eqb]; [done|]. by rewrite Hsk.
    + destruct neg; cbn [negb mbind option_bind].
      * destruct (next_member ms (rest ++ j) Hms) as (d & l & Hd & _ & _ & Hiff).
        rewrite Hd at 1. rewrite load_cons_0. cbn [mbind option_bind].
        destruct (Z.eqb_spec d "]"%C) as [He|He].
        -- apply Hiff in He as ->. rewrite Hsk. done.
        -- apply IH; [lia|lia|lia|]. intros ->. tauto.
      * apply IH; [lia|lia|lia|done].
Qed.

Lemma fnmatch_rec_S (fuel : nat) (pattern : list Z) (plen : Z) (prev : option Z)
    (string : list Z) (slen flags : Z) :
  fnmatch_rec (S fuel) pattern plen prev string slen flags =
      if slen =? 0 then
        plen ← skip_stars pattern plen;
        Some (if plen =? 0 then 0 else PATH_FNM_NOMATCH)
      else if plen =? 0 then Some PATH_FNM_NOMATCH else
      c ← load string 0;
      p ← load pattern 0;
      hidden ←
        (if (c =? "."%C) && negb (p =? "."%C) && flag flags PATH_FNM_PERIOD then
           if negb (flag flags NOTFIRST) then Some true
           else if flag flags PATH_FNM_PATHNAME then
             before ← prev; Some (before =? "/"%C)
           else Some false
         else Some false);
      if (hidden : bool) then Some PATH_FNM_NOMATCH else
      let flags := Z.lor flags NOTFIRST in
      let slash := (c =? "/"%C) && flag flags PATH_FNM_PATHNAME in
      let next pattern plen :=
        fnmatch_rec fuel pattern plen (Some c) (drop 1 string) (u32 (slen - 1)) flags in
      let match_ pattern plen :=
        p ← load pattern 0;
        if p =? c then next (drop 1 pattern) (u32 (plen - 1)) else Some PATH_FNM_NOMATCH in
      if p =? "["%C then
        let pattern := drop 1 pattern in
        let plen := u32 (plen - 1) in
        if slash then Some PATH_FNM_NOMATCH else
        p ← load pattern 0;
        let neg := p =? "!"%C in
        let pattern := if neg then drop 1 pattern else pattern in
        let plen := if neg then u32 (plen - 1) else plen in
        r ← class_loop pattern plen true neg c (S (Z.to_nat plen));
        match r with
        | None => Some PATH_FNM_NOMATCH
        | Some (pattern, plen) => next pattern plen
        end
      else if p =? "\"%C then
        if negb (flag flags PATH_FNM_NOESCAPE) then
          let plen := u32 (plen - 1) in
          if plen =? 0 then Some PATH_FNM_NOMATCH else match_ (drop 1 pattern) plen
        else match_ pattern plen
      else if p =? "*"%C then
        r ← (if slash then Some PATH_FNM_NOMATCH else next pattern plen);
        if r =? 0 then Some 0
        else fnmatch_rec fuel (drop 1 pattern) (u32 (plen - 1)) prev string slen flags
      else if p =? "?"%C then
        if slash then Some PATH_FNM_NOMATCH else next (drop 1 pattern) (u32 (plen - 1))
      else match_ pattern plen.
Proof. done. Qed.

Lemma skip_stars_ok (ne : bool) (ts : list token) (j : list Z) :
  Forall (token_wf ne) ts -> Z.of_nat (length (text ts)) < 2 ^ 32 ->
  exists k, skip_stars (text ts ++ j) (Z.of_nat (length (text ts))) = Some k /\
    (k = 0 <-> Forall (eq Star) ts).
Proof.
  induction 1 as [|t ts Ht Hts IH]; intros Hn.
  - exists 0. split; [by destruct j|]. by split; [constructor|].
  - unfold text in *. cbn [map concat] in *. fold (text ts) in *.
    assert (t = Star \/ exists p l, token_text t = p :: l /\ p <> "*"%C /\ t <> Star) as Hc.
    { destruct t as [c|c| | |neg ms]; [right|right|right|by left|right];
        (eexists _, _; split; [done|split; [|done]]); [|done..].
      cbn [token_wf] in Ht. rewrite !not_elem_of_cons in Ht. tauto. }
    destruct Hc as [->|(p & l & -> & Hp & Hne)]; cbn [token_text app length] in *.
    + destruct IH as (k & Hk & Hiff); [lia|]. exists k. cbn [skip_stars]. left_over.
      rewrite Z.eqb_refl, u32_pred by lia. split; [done|]. rewrite Hiff, list.Forall_cons.
      naive_solver.
    + exists (Z.of_nat (S (length (l ++ text ts)))). cbn [skip_stars]. left_over.
      replace (p =? "*"%C) with false by lia. split; [done|]. rewrite list.Forall_cons.
      split; [lia|]. intros [<- _]. done.
Qed.

Section matching.
Context (pn pd : bool).

Lemma matches_empty (ts : list token) (prev : option Z) :
  matches pn pd ts prev [] <-> Forall (eq Star) ts.
Proof.
  split.
  - intros H. remember [] as s eqn:Hs. induction H; try done; constructor; auto.
  - induction 1 as [|? ts <- _ IH]; [constructor|]. by apply matches_star_empty.
Qed.

Lemma matches_end (prev : option Z) (c : Z) (s : list Z) : ~ matches pn pd [] prev (c :: s).
Proof. intros H. inversion H. Qed.

Lemma matches_cons (t : token) (ts : list token) (prev : option Z) (c : Z) (s : list Z) :
  t <> Star -> matches pn pd (t :: ts) prev (c :: s) <->
    matches1 pn pd t prev c /\ matches pn pd ts (Some c) s.
Proof.
  intros Ht. split; [|intros [? ?]; by constructor].
  intros H. inversion H; subst; done.
Qed.

Lemma matches_star (ts : list token) (prev : option Z) (c : Z) (s : list Z) :
  matches pn pd (Star :: ts) prev (c :: s) <-> leading pn pd prev c = false /\
    (matches pn pd ts prev (c :: s) \/
     slash_kept pn c = false /\ matches pn pd (Star :: ts) (Some c) s).
Proof.
  split.
  - intros H. inversion H; subst; simplify_eq; naive_solver.
  - intros [Hl [H|[Hk H]]].
    + apply matches_star_empty; [|done]. by intros ? ? [= -> ->].
    + by apply matches_star_more.
Qed.

(** The flag [NOTFIRST] and the character before, at a position. *)
Definition position (flags : Z) (prev : option Z) (s : list Z) : Prop :=
  match prev with
  | Some _ => flag flags NOTFIRST = true
  | None => flag flags NOTFIRST = false \/
      forall c s', s = c :: s' -> leading pn pd None c = false
  end.

Lemma hidden_ok (flags : Z) (prev : option Z) (c p : Z) (s : list Z) :
  flag flags PATH_FNM_PATHNAME = pn -> flag flags PATH_FNM_PERIOD = pd ->
  position flags prev (c :: s) ->
  (if (c =? "."%C) && negb (p =? "."%C) && flag flags PATH_FNM_PERIOD then
     if negb (flag flags NOTFIRST) then Some true
     else if flag flags PATH_FNM_PATHNAME then before ← prev; Some (before =? "/"%C)
     else Some false
   else Some false) = Some (leading pn pd prev c && negb (p =? "."%C)).
Proof.
  intros -> -> H. unfold leading, position in *.
  destruct (c =? "."%C) eqn:Hc, (p =? "."%C), pd; cbn [andb negb]; rewrite ?andb_false_r; try done.
  destruct prev as [b|].
  - rewrite H. destruct pn; cbn; by rewrite ?andb_true_r.
  - destruct H as [->|H]; [done|]. apply Z.eqb_eq in Hc as ->. specialize (H _ s eq_refl). discriminate.
Qed.

(** One character less, and what the tokens say of it. *)
Definition answers_ (r : option Z) (ts : list token) (prev : option Z) (s : list Z) : Prop :=
  exists b : bool, r = Some (if b then 0 else 1) /\ (b = true <-> matches pn pd ts prev s).

Lemma answers_no (ts : list token) (prev : option Z) (s : list Z) :
  ~ matches pn pd ts prev s -> answers_ (Some PATH_FNM_NOMATCH) ts prev s.
Proof. intros H. exists false. split; [done|]. by split. Qed.

(** The tokens that match one character: a test, and the rest. *)
Lemma answers_one (t : token) (ts : list token) (prev : option Z) (c : Z) (s : list Z)
    (test : bool) (r : option Z) :
  t <> Star -> (test = true <-> matches1 pn pd t prev c) -> answers_ r ts (Some c) s ->
  answers_ (if test then r else Some PATH_FNM_NOMATCH) (t :: ts) prev (c :: s).
Proof.
  intros Ht Htest (b & Hr & Hb). unfold answers_. setoid_rewrite matches_cons; [|done].
  destruct test.
  - exists b. rewrite Hr. split; [done|]. naive_solver.
  - exists false. split; [done|]. naive_solver.
Qed.

(** The first character of a token's text, when a period is hidden from it. *)
Lemma hidden_no (ne : bool) (t : token) (ts : list token) (prev : option Z) (c p : Z)
    (l s : list Z) :
  token_wf ne t -> token_text t = p :: l -> leading pn pd prev c && negb (p =? "."%C) = true ->
  ~ matches pn pd (t :: ts) prev (c :: s).
Proof.
  intros Hw Ht [Hl Hp]%andb_true_iff H. apply negb_true_iff, Z.eqb_neq in Hp.
  destruct t as [d|d| | |neg ms]; [| | |apply matches_star in H as [H _]; congruence|];
    apply matches_cons in H as [H _]; try done; cbn [matches1 token_text] in *; simplify_eq;
    destruct_and?; try congruence. naive_solver.
Qed.

End matching.

Lemma fnmatch_ok (fuel : nat) : forall (ts : list token) (prev : option Z) (s j k : list Z) (flags : Z),
  let pn := flag flags PATH_FNM_PATHNAME in
  let pd := flag flags PATH_FNM_PERIOD in
  Forall (token_wf (flag flags PATH_FNM_NOESCAPE)) ts ->
  (length (text ts) + length s < fuel)%nat ->
  Z.of_nat (length (text ts)) < 2 ^ 32 -> Z.of_nat (length s) < 2 ^ 32 ->
  position pn pd flags prev s ->
  answers_ pn pd (fnmatch_rec fuel (text ts ++ j) (Z.of_nat (length (text ts))) prev (s ++ k)
    (Z.of_nat (length s)) flags) ts prev s.
Proof.
  induction fuel as [|fuel IH]; intros ts prev s j k flags pn pd Hts Hf Ht Hs Hpos; [lia|].
  rewrite fnmatch_rec_S. destruct s as [|c s].
  { destruct (skip_stars_ok _ ts j Hts Ht) as (n & -> & Hn). cbn [length Z.of_nat Z.eqb mbind option_bind].
    exists (n =? 0). split; [by destruct (n =? 0)|]. by rewrite Z.eqb_eq, Hn, matches_empty. }
  cbn [length] in *. left_over.
  destruct ts as [|t ts].
  { cbn. apply answers_no, matches_end. }
  apply list.Forall_cons in Hts as [Hw Hts].
  assert (exists p l, token_text t = p :: l) as (p & l & Htext)
    by (destruct t; by eexists _, _).
  assert (text (t :: ts) = p :: l ++ text ts) as Htx by (unfold text; simpl; by rewrite Htext).
  rewrite Htx in *. cbn [length app] in *. left_over. load_all.
  rewrite (hidden_ok pn pd flags prev c p s eq_refl eq_refl Hpos). cbn [mbind option_bind].
  destruct (leading pn pd prev c && negb (p =? "."%C)) eqn:Hh.
  { apply answers_no. by eapply hidden_no. }
  rewrite length_app in *. cbn zeta.
  assert (flag (Z.lor flags NOTFIRST) PATH_FNM_PATHNAME = pn) as Epn by by apply flag_lor.
  assert (flag (Z.lor flags NOTFIRST) PATH_FNM_PERIOD = pd) as Epd by by apply flag_lor.
  assert (flag (Z.lor flags NOTFIRST) PATH_FNM_NOESCAPE = flag flags PATH_FNM_NOESCAPE) as Ene
    by by apply flag_lor.
  rewrite Epn, Ene, (u32_pred (length s)) by lia. cbn [drop]; rewrite ?drop_0.
  (* what the rest of the string gives *)
  assert (forall ts' j', Forall (token_wf (flag flags PATH_FNM_NOESCAPE)) ts' ->
    (length (text ts') <= S (length l + length (text ts)))%nat ->
    answers_ pn pd (fnmatch_rec fuel (text ts' ++ j') (Z.of_nat (length (text ts'))) (Some c)
      (s ++ k) (Z.of_nat (length s)) (Z.lor flags NOTFIRST)) ts' (Some c) s) as Hnext.
  { intros ts' j' Hw' Hl'. rewrite <- Epn, <- Epd. apply IH; try lia; [by rewrite Ene|].
    apply flag_notfirst. }
  destruct t as [d|d| | |neg ms]; cbn [token_text] in Htext;
    injection Htext as Hp Hl; subst p l; cbn [length app token_wf Nat.add] in *.
  - (* Chr *)
    rewrite !not_elem_of_cons in Hw. destruct Hw as [(Hw1 & Hw2 & Hw3 & _) Hw4].
    assert (answers_ pn pd (p ← load (d :: text ts ++ j) 0;
        if p =? c then fnmatch_rec fuel (drop 1 (d :: text ts ++ j))
          (u32 (Z.of_nat (S (length (text ts))) - 1)) (Some c) (s ++ k) (Z.of_nat (length s))
          (Z.lor flags NOTFIRST)
        else Some PATH_FNM_NOMATCH) (Chr d :: ts) prev (c :: s)) as Hm.
    { load_all. cbn [drop]; rewrite ?drop_0. rewrite u32_pred by lia. apply answers_one; [done| |apply Hnext; [done|lia]].
      rewrite Z.eqb_eq. cbn [matches1]. split; [|tauto]. intros ->. split; [done|].
      intros Hl. rewrite Hl in Hh. cbn [andb] in Hh. lia. }
    replace (d =? "["%C) with false by lia. destruct (Z.eqb_spec d "\"%C) as [He|He].
    + destruct (flag flags PATH_FNM_NOESCAPE); [exact Hm|by destruct Hw4].
    + replace (d =? "*"%C) with false by lia. replace (d =? "?"%C) with false by lia. exact Hm.
  - (* Esc *)
    cbn [Z.eqb Pos.eqb]. rewrite Hw. cbn [negb]. rewrite u32_pred by lia. left_over. cbn [drop]; rewrite ?drop_0.
    load_all. rewrite u32_pred by lia. cbn [drop]; rewrite ?drop_0.
    apply answers_one; [done| |apply Hnext; [done|lia]].
    rewrite Z.eqb_eq. cbn [matches1]. rewrite andb_true_r in Hh. tauto.
  - (* Any *)
    cbn [Z.eqb Pos.eqb]. cbn [drop]; rewrite ?drop_0. rewrite u32_pred by lia.
    rewrite andb_true_r in Hh. rewrite andb_comm. fold (slash_kept pn c).
    destruct (slash_kept pn c) eqn:Hk.
    + apply answers_no. rewrite matches_cons by done. cbn [matches1]. intros [[? _] _]. congruence.
    + apply (answers_one pn pd Any ts prev c s true); [done| |apply Hnext; [done|lia]].
      cbn [matches1]. tauto.
  - (* Star *)
    cbn [Z.eqb Pos.eqb]. cbn [drop]; rewrite ?drop_0. rewrite u32_pred by lia. rewrite andb_true_r in Hh.
    rewrite andb_comm. fold (slash_kept pn c).
    assert (answers_ pn pd (fnmatch_rec fuel (text ts ++ j) (Z.of_nat (length (text ts))) prev
      (c :: s ++ k) (Z.of_nat (S (length s))) (Z.lor flags NOTFIRST)) ts prev (c :: s)) as (b2 & E2 & H2).
    { rewrite <- Epn, <- Epd. apply (IH ts prev (c :: s)); cbn [length]; try lia; [by rewrite Ene|].
      destruct prev; [apply flag_notfirst|right]. intros ? ? [= <- <-]. rewrite Epn, Epd. done. }
    destruct (Hnext (Star :: ts) j) as (b1 & E1 & H1); [by constructor|rewrite Htx; simpl; lia|].
    rewrite Htx in E1. cbn [app length] in E1.
    exists ((negb (slash_kept pn c) && b1) || b2). rewrite matches_star, orb_true_iff, andb_true_iff.
    rewrite H1, H2, negb_true_iff. split; [|tauto]. destruct (slash_kept pn c); cbn [negb andb].
    + cbn [mbind option_bind]. change (PATH_FNM_NOMATCH =? 0) with false. cbn [orb]. exact E2.
    + rewrite E1. cbn [mbind option_bind]. destruct b1; [done|]. exact E2.
  - (* Class_ *)
    cbn [Z.eqb Pos.eqb]. cbn [drop]; rewrite ?drop_0. rewrite u32_pred by lia. rewrite andb_true_r in Hh.
    rewrite andb_comm. fold (slash_kept pn c). destruct Hw as [Hne Hms].
    destruct (slash_kept pn c) eqn:Hk.
    { apply answers_no. rewrite matches_cons by done. cbn [matches1]. intros [[? _] _]. congruence. }
    pose proof (members_length ms) as Hml.
    set (n := (length (members_text ms) + S (length (text ts)))%nat).
    assert (forall fuel', (length ms < fuel')%nat ->
      class_loop (members_text ms ++ "]"%C :: text ts ++ j) (Z.of_nat n) true neg c fuel' =
      Some (if eqb (existsb (in_member c) ms) (negb neg)
            then Some (text ts ++ j, Z.of_nat (length (text ts))) else None)) as Hcl.
    { intros fuel' Hf'. apply class_ok; try done. destruct neg; rewrite !length_app in Ht;
        cbn [length] in Ht; lia. }
    match goal with |- answers_ _ _ ?x _ _ _ => assert (x =
      if eqb (existsb (in_member c) ms) (negb neg)
      then fnmatch_rec fuel (text ts ++ j) (Z.of_nat (length (text ts))) (Some c) (s ++ k)
             (Z.of_nat (length s)) (Z.lor flags NOTFIRST)
      else Some PATH_FNM_NOMATCH) as -> end.
    { rewrite <- !app_assoc. cbn [app].
      destruct (next_member ms (text ts ++ j) Hms) as (d & l & Hd & _ & Hb & _).
      destruct neg; cbn [app length] in *; rewrite !length_app in *; cbn [length Nat.add] in *.
      - load_all. cbn [Z.eqb Pos.eqb drop]; rewrite ?drop_0. rewrite u32_pred by lia.
        replace (length (members_text ms) + 1 + length (text ts))%nat with n by lia.
        rewrite Hcl by lia. cbn [mbind option_bind]. by destruct (eqb _ _).
      - rewrite Hd at 1. load_all. rewrite ?drop_0. replace (d =? "!"%C) with false by lia.
        replace (length (members_text ms) + 1 + length (text ts))%nat with n by lia.
        rewrite Hcl by lia. cbn [mbind option_bind]. by destruct (eqb _ _). }
    apply answers_one; [done| |apply Hnext; [done|lia]].
    rewrite eqb_true_iff. cbn [matches1]. tauto.
Qed.

(** * Theorems *)

(** C15: [path_fnmatch] decides the pattern relation for patterns that are the
    text of tokens (characters, escapes, [?], [*], and brackets that are closed,
    not empty, and whose members are single characters other than [[], []], [-]
    and [!] or ranges with both ends) and without the flag for internal use: it
    answers 0 when the string matches the tokens under the flags and 1 when it
    does not, whatever follows both in memory.  Classes such as [[:alpha:]] and
    ranges that are open at the end of the pattern are left out: there the code
    does not end, or reads on ([path_fnmatch_posix_spins],
    [path_fnmatch_range_overruns]). *)
Theorem path_fnmatch_correct (ts : list token) (s j k : list Z) (flags : Z)
    (Hts : Forall (token_wf (flag flags PATH_FNM_NOESCAPE)) ts)
    (Ht : Z.of_nat (length (text ts)) < 2 ^ 32) (Hs : Z.of_nat (length s) < 2 ^ 32)
    (Hf : flag flags NOTFIRST = false) :
  let m := matches (flag flags PATH_FNM_PATHNAME) (flag flags PATH_FNM_PERIOD) ts None s in
  exists r, path_fnmatch (text ts ++ j) (Z.of_nat (length (text ts))) (s ++ k)
      (Z.of_nat (length s)) flags = Some r /\ (r = 0 /\ m \/ r = 1 /\ ~ m).
Proof.
  intros m. unfold path_fnmatch. rewrite !Nat2Z.id.
  destruct (fnmatch_ok (S (length (text ts) + length s)) ts None s j k flags Hts) as (b & -> & Hb);
    [lia|done|done|by left|].
  exists (if b then 0 else 1). split; [done|]. destruct b; [left|right]; naive_solver.
Qed.

Lemma path_fnmatch_correct_witness :
  let ts := [Star; Chr "/"%C; Any; Class_ true [Range "a"%C "f"%C; One "_"%C]; Esc "*"%C; Star] in
  let s := lit "src/xz*.c" in
  let m := matches true true ts None s in
  Forall (token_wf (flag 5 PATH_FNM_NOESCAPE)) ts /\
  exists r, path_fnmatch (text ts ++ [0]) (Z.of_nat (length (text ts))) (s ++ [0])
      (Z.of_nat (length s)) 5 = Some r /\ (r = 0 /\ m \/ r = 1 /\ ~ m).
Proof.
  intros ts s m. assert (Forall (token_wf (flag 5 PATH_FNM_NOESCAPE)) ts) as Hts.
  { apply (bool_decide_unpack _). by vm_compute. }
  split; [done|]. by apply (path_fnmatch_correct ts s [0] [0] 5 Hts).
Defined.

(** A class of the form [[:alpha:]] is recognised but never stepped over. *)
Theorem path_fnmatch_posix_spins (l : list Z) (plen c : Z) (neg : bool) (fuel : nat) :
  plen <> 0 -> class_loop ("["%C :: ":"%C :: l) plen true neg c fuel = None.
Proof.
  intros H. induction fuel as [|fuel IH]; [done|]. rewrite class_loop_S.
  replace (plen =? 0) with false by lia. load_all. cbn [Z.eqb Pos.eqb andb]. load_all.
  cbn [Z.eqb Pos.eqb]. load_all. destruct neg; cbn [mbind option_bind andb].
  - load_all. cbn [Z.eqb Pos.eqb mbind option_bind]. exact IH.
  - exact IH.
Qed.

(** A range cut off by the end of the pattern takes three characters where two
    are left: the length wraps around and the pattern is read past its end. *)
Theorem path_fnmatch_range_overruns :
  path_fnmatch (lit "[a-" ++ [0]) 3 (lit "b" ++ [0]) 1 0 = None.
Proof. by vm_compute. Qed.
