(* ===== verification/Path.v ===== *)
(** Paths: [lib/path/], as it is built on systems with slashes.  A path
    argument is a pointer to characters outside the growing strings the
    results are written to (Stralloc.v); whether those have found memory is not
    looked at by this library.  The file system is a parameter.  [None] is
    undefined behaviour, or a loop that runs on. *)
From S2P Require Import Prelude ByteOps StrOps Memory Stralloc.

(** * Separators and components *)

Definition path_issep (c : Z) : bool := c =? "/"%C.
Definition path_is_separator (c : Z) : Z := c_bool (path_issep c).

Fixpoint path_getsep (path : list Z) : option Z :=
  match path with
  | [] => None
  | c :: path => if c =? 0 then Some 0 else if path_issep c then Some c else path_getsep path
  end.

(** [while(p < e && P( *p)) ++p;]: the number of steps. *)
Fixpoint scan_while (P : Z -> bool) (s : list Z) (n : nat) {struct n} : option nat :=
  match n with
  | O => Some O
  | S n => match s with
           | [] => None
           | c :: s => if P c then S <$> scan_while P s n else Some O
           end
  end.

(** The same up to the terminator. *)
Fixpoint scan_while_s (P : Z -> bool) (s : list Z) : option nat :=
  match s with
  | [] => None
  | c :: s => if c =? 0 then Some O else if P c then S <$> scan_while_s P s else Some O
  end.

Definition notsep (c : Z) : bool := negb (path_issep c).

Definition path_len : list Z -> nat -> option nat := scan_while notsep.
Definition path_len_s : list Z -> option nat := scan_while_s notsep.
Definition path_skip_component : list Z -> nat -> option nat := scan_while notsep.
Definition path_skip_separator : list Z -> nat -> option nat := scan_while path_issep.

(** The last separator is left when the path ends in it. *)
Definition path_skip (s : list Z) (n : nat) : option nat :=
  k ← scan_while notsep s n;
  j ← scan_while path_issep (drop k s) (n - k - 1);
  Some (k + j)%nat.

Definition path_skips (s : list Z) : option nat :=
  k ← scan_while_s notsep s;
  j ← scan_while_s path_issep (drop k s);
  Some (k + j)%nat.

Fixpoint num_loop (p : list Z) (len : nat) (n : Z) (s fuel : nat) : option nat :=
  match fuel with
  | O => None
  | S fuel =>
      if (s <? len)%nat then
        k ← path_skip (drop s p) (len - s);
        n ← chk32 (n - 1);
        if n <=? 0 then Some (s + k)%nat else num_loop p len n (s + k) fuel
      else Some s
  end.

Definition path_num (p : list Z) (len : nat) (n : Z) : option nat :=
  num_loop p len n 0 (S (Z.to_nat n)).

(** [while(p >= s && P( *p)) --p;] from [p = s + n - 1] on: one more than where
    [p] stops. *)
Fixpoint back_while (P : Z -> bool) (s : list Z) (n : nat) : option nat :=
  match n with
  | O => Some O
  | S n' => c ← load s n'; if P c then back_while P s n' else Some n
  end.

(** [p - s] as a [size_t]. *)
Definition path_right (s : list Z) (n : nat) : option Z :=
  k ← back_while path_issep s n;
  k ← back_while notsep s k;
  Some (u64 (Z.of_nat k - 1)).

Fixpoint common_loop (s1 : list Z) (n1 : nat) (s2 : list Z) (n2 : nat) (sz1 sz2 fuel : nat)
    : option (nat * nat) :=
  match fuel with
  | O => None
  | S fuel =>
      if (sz1 =? n1)%nat || (sz2 =? n2)%nat then Some (sz1, sz2) else
      i1 ← path_skip_separator (drop sz1 s1) (n1 - sz1);
      i2 ← path_skip_separator (drop sz2 s2) (n2 - sz2);
      if negb (eqb (0 <? i1)%nat (0 <? i2)%nat) then Some (sz1, sz2) else
      let sz1 := (sz1 + i1)%nat in
      let sz2 := (sz2 + i2)%nat in
      i1 ← path_skip_component (drop sz1 s1) (n1 - sz1);
      i2 ← path_skip_component (drop sz2 s2) (n2 - sz2);
      if negb (i1 =? i2)%nat then Some (sz1, sz2) else
      d ← byte_diff (drop sz1 s1) i1 (drop sz2 s2);
      if negb (d =? 0) then Some (sz1, sz2) else
      common_loop s1 n1 s2 n2 (sz1 + i1) (sz2 + i2) fuel
  end.

Definition path_common_prefix (s1 : list Z) (n1 : nat) (s2 : list Z) (n2 : nat)
    : option (nat * nat) := common_loop s1 n1 s2 n2 0 0 (S n1).

(** * Absolute paths *)

Definition path_is_absolute_b (x : list Z) (n : nat) : option bool :=
  if (n =? 0)%nat then Some false else c ← load x 0; Some (c =? "/"%C).

Definition path_is_absolute (p : list Z) : option bool :=
  n ← str_len p; path_is_absolute_b p n.

Definition path_is_absolute_sa (m : mem) (p : stralloc) : option bool :=
  l ← sa_view m p; path_is_absolute_b l (Z.to_nat (sa_len p)).

(** The macro [path_isabs] also takes drive letters. *)
Definition path_isabs (p : list Z) : option bool :=
  c0 ← load p 0;
  if path_issep c0 then Some true else
  c1 ← load p 1;
  if c1 =? ":"%C then c2 ← load p 2; Some (path_issep c2) else Some false.

(** * Base name and directory *)

(** Slashes at the end are overwritten in the argument.  Gives the object and
    the offset of the base name. *)
Fixpoint basename_loop (x : list Z) (fuel : nat) : option (list Z * nat) :=
  match fuel with
  | O => None
  | S fuel =>
      n ← str_rchrs x (lit "/\") 2;
      c ← load x n;
      if c =? 0 then Some (x, O) else
      c ← load x (n + 1);
      if c =? 0 then
        if (n =? 0)%nat then Some (x, O)
        else x ← store x n 0; basename_loop x fuel
      else Some (x, (n + 1)%nat)
  end.

Definition path_basename (path : list Z) : option (list Z * nat) :=
  basename_loop path (S (length path)).

(** [path] is [None] for [NULL], which is followed before it is tested. *)
Definition path_dirname (m : mem) (path : option (list Z)) (dir : stralloc)
    : option (mem * stralloc) :=
  path ← path;
  let dir := stralloc_zero dir in
  i ← str_rchrs path (lit "/\") 2;
  c ← load path i;
  '(_, m, dir) ←
    (if c =? 0 then stralloc_copys m dir (Const (lit "." ++ [0]))
     else i ← back_while path_issep path i;
          stralloc_copyb m dir (Const path) (Z.of_nat i));
  '(_, m, dir) ← stralloc_nul m dir;
  Some (m, dir).

(** * Putting paths together *)

(** [out->len > 0 && out->s[out->len - 1] != PATHSEP_C]. *)
Definition wants_sep (m : mem) (out : stralloc) : option bool :=
  if sa_len out =? 0 then Some false else
  l ← sa_view m out; c ← load l (Z.to_nat (sa_len out) - 1); Some (negb (c =? "/"%C)).

Definition add_sep (m : mem) (out : stralloc) : option (mem * stralloc) :=
  w ← wants_sep m out;
  if (w : bool) then '(_, m, out) ← stralloc_catc m out "/"%C; Some (m, out) else Some (m, out).

Definition path_append (m : mem) (x : list Z) (len : nat) (out : stralloc)
    : option (mem * stralloc) :=
  '(m, out) ← add_sep m out;
  here ← (if (2 <? len)%nat then
            c0 ← load x 0;
            if c0 =? "."%C then c1 ← load x 1; Some (c1 =? "/"%C) else Some false
          else Some false);
  let '(x, len) := if (here : bool) then (drop 2 x, (len - 2)%nat) else (x, len) in
  '(_, m, out) ← stralloc_catb m out (Const x) (Z.of_nat len);
  Some (m, out).

(** [while(str_start(s, "./")) s += 2;] *)
Fixpoint skip_heres (s : list Z) (fuel : nat) : option (list Z) :=
  match fuel with
  | O => None
  | S fuel =>
      b ← str_start s (lit "./" ++ [0]);
      if (b : bool) then skip_heres (drop 2 s) fuel else Some s
  end.

Definition path_appends (m : mem) (s : list Z) (out : stralloc) : option (mem * stralloc) :=
  '(m, out) ← add_sep m out;
  s ← skip_heres s (S (length s));
  '(_, m, out) ← stralloc_cats m out (Const s);
  Some (m, out).

Definition path_concat (m : mem) (a : list Z) (alen : nat) (b : list Z) (blen : nat)
    (out : stralloc) : option (mem * stralloc) :=
  '(m, sa) ← path_append m a alen stralloc_init;
  '(m, sa) ← path_append m b blen sa;
  here ← (if 2 <? sa_len sa then
            l ← sa_view m sa;
            c0 ← load l 0;
            if c0 =? "."%C then c1 ← load l 1; Some (c1 =? "/"%C) else Some false
          else Some false);
  let k := if (here : bool) then 2%nat else O in
  '(_, m, out) ← stralloc_copyb m out
    (match sa_s sa with Some b => Blk b k | None => Const [] end) (sa_len sa - Z.of_nat k);
  '(_, m, out) ← stralloc_nul m out;
  '(m, _) ← stralloc_free m sa;
  Some (m, out).

(** * Relative paths *)

(** A directory up for every component left of [s2]. *)
Fixpoint up_loop (m : mem) (s2 : list Z) (n2 : nat) (out : stralloc) (fuel : nat)
    : option (mem * stralloc) :=
  match fuel with
  | O => None
  | S fuel =>
      i ← path_skip s2 n2;
      if (i =? 0)%nat then Some (m, out) else
      '(_, m, out) ← stralloc_cats m out (Const (lit "../" ++ [0]));
      up_loop m (drop i s2) (n2 - i) out fuel
  end.

Definition path_relative_b (m : mem) (s1 : list Z) (n1 : nat) (s2 : list Z) (n2 : nat)
    (out : stralloc) : option (Z * mem * stralloc) :=
  '(sz1, sz2) ← path_common_prefix s1 n1 s2 n2;
  let out := stralloc_zero out in
  '(m, out) ← up_loop m (drop sz2 s2) (n2 - sz2) out (S n2);
  let s1 := drop sz1 s1 in
  let n1 := (n1 - sz1)%nat in
  i ← path_skip_separator s1 n1;
  '(_, m, out) ← stralloc_catb m out (Const (drop i s1)) (Z.of_nat (n1 - i));
  '(_, m, out) ← (if sa_len out =? 0 then stralloc_catc m out "."%C else Some (true, m, out));
  '(_, m, out) ← stralloc_nul m out;
  Some (1, m, out).

Definition path_relative (m : mem) (path relative_to : list Z) (out : stralloc)
    : option (Z * mem * stralloc) :=
  n1 ← str_len path;
  n2 ← str_len relative_to;
  path_relative_b m path n1 relative_to n2 out.

Definition path_num_sa (m : mem) (p : list Z) (len : nat) (sa : stralloc) (n : Z)
    : option (Z * mem * stralloc) :=
  r ← path_num p len n;
  '(_, m, sa) ← stralloc_copyb m sa (Const p) (Z.of_nat r);
  Some (Z.of_nat r, m, sa).

(** * Collapsing *)

(** [while(x[--i] == sep);] *)
Fixpoint back_over (x : list Z) (sep : Z) (i : nat) : option nat :=
  match i with
  | O => None
  | S i => c ← load x i; if c =? sep then back_over x sep i else Some i
  end.

(** [while(i > 0 && x[i] != sep) i--;] *)
Fixpoint back_to (x : list Z) (sep : Z) (i : nat) : option nat :=
  match i with
  | O => Some O
  | S i' => c ← load x i; if c =? sep then Some i else back_to x sep i'
  end.

(** [while(x[i] == sep) i++;]: nothing bounds [i] but the text. *)
Fixpoint forward_over (s : list Z) (sep : Z) : option nat :=
  match s with
  | [] => None
  | c :: s => if c =? sep then S <$> forward_over s sep else Some O
  end.

(** A component [..] starts at [l]. *)
Definition dotdot_at (x : list Z) (n : nat) (sep : Z) (l : nat) : option bool :=
  if (l + 2 <=? n)%nat then
    c ← load x l;
    if c =? "."%C then
      c ← load x (l + 1);
      if c =? "."%C then
        if (n <=? l + 2)%nat then Some true else c ← load x (l + 2); Some (c =? sep)
      else Some false
    else Some false
  else Some false.

Fixpoint collapse_loop (x : list Z) (n : nat) (sep : Z) (i fuel : nat) : option (list Z * nat) :=
  match fuel with
  | O => None
  | S fuel =>
      if (i <? n)%nat then
        k ← forward_over (drop i x) sep;
        let i := (i + k)%nat in
        if (n <? i)%nat then None else
        k ← byte_chr (drop i x) (n - i) sep;
        let l := (i + k)%nat in
        if (l <? n)%nat then
          let l := S l in
          up ← dotdot_at x n sep l;
          if (up : bool) then
            let l := (l + 3)%nat in
            x ← (if (l <? n)%nat then byte_copy x i (n - l) (Here l) else Some x);
            if (i + n <? l)%nat then None else
            let n := (i + n - l)%nat in
            x ← store x n 0;
            i ← back_over x sep i;
            i ← back_to x sep i;
            collapse_loop x n sep i fuel
          else collapse_loop x n sep l fuel
        else collapse_loop x n sep l fuel
      else Some (x, n)
  end.

(** Every turn steps over a component or removes two and steps back over
    one. *)
Definition path_collapse (x : list Z) (n : nat) : option (list Z * nat) :=
  sep ← path_getsep x; collapse_loop x n sep 0 (S (2 * n)).

(** [sa->len = path_collapse(sa->s, sa->len)], on the block of [sa]. *)
Definition collapse_block (m : mem) (sa : stralloc) : option (Z * mem * stralloc) :=
  b ← sa_s sa;
  l ← blocks m !! b;
  '(l, n) ← path_collapse l (Z.to_nat (sa_len sa));
  '(_, m, sa) ← stralloc_nul (put m b l) (SA (sa_s sa) (Z.of_nat n) (sa_a sa));
  Some (Z.of_nat n, m, sa).

Definition path_collapse_sa (m : mem) (path : stralloc) : option (Z * mem * stralloc) :=
  collapse_block m path.

Definition path_canonical_sa (m : mem) (sa : stralloc) : option (Z * mem * stralloc) :=
  '(_, m, sa) ← collapse_block m sa; Some (1, m, sa).

Definition path_canonical (m : mem) (path : list Z) (out : stralloc)
    : option (Z * mem * stralloc) :=
  '(_, m, out) ← stralloc_copys m (stralloc_zero out) (Const path);
  '(_, m, out) ← stralloc_nul m out;
  path_canonical_sa m out.

(** * The file system *)

(** What the code asks the system: the working directory, when it fits, and for
    a name whether [stat] and [lstat] succeed, whether it is a symbolic link,
    and what the link holds. *)
Class FileSystem : Type := {
  getcwd : Z -> option (list Z);
  stat_ok : list Z -> bool;
  lstat_ok : list Z -> bool;
  symlink : list Z -> bool;
  readlink : list Z -> option (list Z)
}.

Definition PATH_MAX : nat := 4096.

Section system.
Context `{FileSystem}.

(** When [getcwd] fails nothing is written. *)
Definition path_getcwd (m : mem) (sa : stralloc) : option (mem * stralloc) :=
  '(_, m, sa) ← stralloc_ready m (stralloc_zero sa) (Z.of_nat PATH_MAX);
  b ← sa_s sa;
  m ← match getcwd (sa_a sa) with
      | Some d => mcopy m b 0 (Z.of_nat (length d + 1)) (Const (d ++ [0]))
      | None => Some m
      end;
  l ← sa_view m sa;
  n ← str_len l;
  let sa := SA (sa_s sa) (Z.of_nat n) (sa_a sa) in
  sep ← path_getsep l;
  if negb (sep =? 0) && negb (sep =? "/"%C)
  then m ← stralloc_replacec m sa sep "/"%C; Some (m, sa)
  else Some (m, sa).

Definition path_absolute (m : mem) (path : list Z) (sa : stralloc)
    : option (Z * mem * stralloc) :=
  let sa := stralloc_zero sa in
  a ← path_isabs path;
  if (a : bool) then
    '(_, m, sa) ← stralloc_copys m sa (Const path); Some (0, m, sa)
  else
    '(m, sa) ← path_getcwd m sa;
    dot ← str_equal path (lit "." ++ [0]);
    if (dot : bool) then Some (1, m, sa) else
    '(_, m, sa) ← stralloc_catc m sa "/"%C;
    '(_, m, sa) ← stralloc_cats m sa (Const path);
    Some (1, m, sa).

Definition path_absolute_s (m : mem) (path : list Z) : option (option nat * mem) :=
  '(_, m, sa) ← path_absolute m path stralloc_init;
  '(_, m, sa) ← stralloc_nul m sa;
  Some (sa_s sa, m).

Definition path_absolute_sa (m : mem) (sa : stralloc) : option (Z * mem * stralloc) :=
  '(_, m, sa) ← stralloc_nul m sa;
  l ← sa_view m sa;
  a ← path_isabs l;
  '(ret, m, sa) ←
    (if (a : bool) then Some (0, m, sa) else
     '(_, m, tmp) ← stralloc_copy m stralloc_init sa;
     '(m, sa) ← path_getcwd m (stralloc_zero sa);
     '(_, m, sa) ← stralloc_catc m sa "/"%C;
     '(_, m, sa) ← stralloc_cat m sa tmp;
     '(m, _) ← stralloc_free m tmp;
     Some (1, m, sa));
  sa ← (if sa_len sa =? 0 then Some sa else
        l ← sa_view m sa;
        c ← load l (Z.to_nat (sa_len sa) - 1);
        Some (if path_issep c then SA (sa_s sa) (sa_len sa - 1) (sa_a sa) else sa));
  '(_, m, sa) ← stralloc_nul m sa;
  Some (ret, m, sa).

(** ** Symbolic links *)

(** [str_copyn(&buf[n], path, max)] when [path] leads into [buf] itself. *)
Fixpoint copyn_here (buf : list Z) (s t max : nat) : option (list Z) :=
  match max with
  | O => store buf s 0
  | S max =>
      c ← load buf t;
      buf ← store buf s c;
      if c =? 0 then Some buf else copyn_here buf (S s) (S t) max
  end.

Definition copyn (buf : list Z) (s : nat) (path : cptr) (max : nat) : option (list Z) :=
  match path with
  | There l => fst <$> str_copyn buf s l max
  | Here t => copyn_here buf s t max
  end.

(** The characters from a pointer on; [buf] is the array the links are read
    into. *)
Definition from_ptr (buf : list Z) (p : cptr) : list Z :=
  match p with There l => l | Here off => drop off buf end.

Definition advance (p : cptr) (k : nat) : cptr :=
  match p with There l => There (drop k l) | Here off => Here (off + k) end.

(** The name in a string that has just been terminated. *)
Definition sa_name (m : mem) (sa : stralloc) : option (list Z) :=
  l ← sa_view m sa; n ← str_len l; Some (take n l).

Definition remove_last (m : mem) (sa : stralloc) : option stralloc :=
  b ← sa_s sa;
  l ← blocks m !! b;
  n ← path_right l (Z.to_nat (sa_len sa));
  Some (SA (sa_s sa) n (sa_a sa)).

(** What a turn finds at the path: its end, a component [.] or [..], or one
    that is a name. *)
Inductive component : Type := End | Dot | DotDot | Name.

Definition classify (p : list Z) : option component :=
  c0 ← load p 0;
  if c0 =? "."%C then
    c1 ← load p 1;
    if path_issep c1 || (c1 =? 0) then Some Dot else
    if c1 =? "."%C then
      c2 ← load p 2; Some (if path_issep c2 || (c2 =? 0) then DotDot else Name)
    else Some Name
  else Some (if c0 =? 0 then End else Name).

(** A component and, on the way, the separators before and a drive letter's. *)
Definition add_name (m : mem) (sa : stralloc) (p : list Z) (sep : Z)
    : option (nat * mem * stralloc) :=
  '(m, sa) ← (if sa_len sa =? 0 then Some (m, sa) else
     l ← sa_view m sa;
     c ← load l (Z.to_nat (sa_len sa) - 1);
     if negb (c =? "/"%C) && negb (c =? "\"%C)
     then '(_, m, sa) ← stralloc_catc m sa sep; Some (m, sa) else Some (m, sa));
  n ← path_len_s p;
  '(_, m, sa) ← stralloc_catb m sa (Const p) (Z.of_nat n);
  drive ← (if (n =? 2)%nat then c ← load p 1; Some (c =? ":"%C) else Some false);
  '(_, m, sa) ← (if (drive : bool) then stralloc_catc m sa sep else Some (true, m, sa));
  '(_, m, sa) ← stralloc_nul m sa;
  Some (n, m, sa).

(** A leading separator goes to the result. *)
Definition canon_enter (m : mem) (sa : stralloc) (path : cptr) (buf : list Z)
    : option (mem * stralloc * cptr * Z) :=
  c ← load (from_ptr buf path) 0;
  if path_issep c then
    '(_, m, sa) ← stralloc_catc m sa c; Some (m, sa, advance path 1, c)
  else Some (m, sa, path, "/"%C).

(** [buf0] is the array [buf] before anything is written to it.  A link that
    is absolute restarts the loop on the link and the rest of the path, one that
    is relative is a call of its own. *)
Fixpoint canon_loop (symbolic : bool) (buf0 : list Z) (fuel : nat) (m : mem) (sa : stralloc)
    (buf : list Z) (path : cptr) (sep ret : Z) : option (Z * mem * stralloc) :=
  let exit (sep : Z) (m : mem) (sa : stralloc) :=
    '(_, m, sa) ← (if sa_len sa =? 0 then stralloc_catc m sa sep else Some (true, m, sa));
    Some (ret, m, sa) in
  match fuel with
  | O => None
  | S fuel =>
      c ← load (from_ptr buf path) 0;
      if c =? 0 then exit sep m sa else
      k ← scan_while_s path_issep (from_ptr buf path);
      sep ← (if (k =? 0)%nat then Some sep else load (from_ptr buf path) (k - 1));
      let path := advance path k in
      let p := from_ptr buf path in
      what ← classify p;
      match what with
      | End => exit sep m sa
      | Dot => canon_loop symbolic buf0 fuel m sa buf (advance path 1) sep ret
      | DotDot =>
          sa ← remove_last m sa;
          canon_loop symbolic buf0 fuel m sa buf (advance path 2) sep ret
      | Name =>
          '(n, m, sa) ← add_name m sa p sep;
          let path := advance path n in
          name ← sa_name m sa;
          if (if symbolic then lstat_ok name else stat_ok name) && lstat_ok name && symlink name
          then
            match readlink name with
            | None => Some (0, m, sa)
            | Some target =>
                let target := take PATH_MAX target in
                let n := length target in
                buf ← byte_copy buf 0 n (There target);
                abs ← path_is_absolute buf;
                if (abs : bool) then
                  buf ← copyn buf n path (PATH_MAX - n);
                  '(_, m, sa) ← stralloc_catc m (stralloc_zero sa) sep;
                  canon_loop symbolic buf0 fuel m sa buf (Here 0) sep (ret + 1)
                else
                  sa ← remove_last m sa;
                  buf ← store buf n 0;
                  '(m, sa, inner, sep') ← canon_enter m sa (There buf) buf0;
                  '(rret, m, sa) ← canon_loop symbolic buf0 fuel m sa buf0 inner sep' 1;
                  if rret =? 0 then Some (0, m, sa)
                  else canon_loop symbolic buf0 fuel m sa buf path sep (ret + 1)
            end
          else canon_loop symbolic buf0 fuel m sa buf path sep ret
      end
  end.

Definition path_canonicalize (buf0 : list Z) (fuel : nat) (m : mem) (path : list Z)
    (sa : stralloc) (symbolic : bool) : option (Z * mem * stralloc) :=
  '(m, sa, path, sep) ← canon_enter m sa (There path) buf0;
  canon_loop symbolic buf0 fuel m sa buf0 path sep 1.

(** The array [buf] of [path_realpath] holds [PATH_MAX + 1] bytes.  [cwd] is
    the argument, or what [path_getcwd] left in [tmpcwd]. *)
Definition path_realpath (buf0 : list Z) (fuel : nat) (m : mem) (path : list Z) (sa : stralloc)
    (symbolic : bool) (cwd : option stralloc) (tmpcwd : stralloc)
    : option (Z * mem * stralloc * stralloc) :=
  '(m, tmpcwd, cwd) ←
    match cwd with
    | Some cwd => Some (m, tmpcwd, cwd)
    | None =>
        '(m, tmpcwd) ← path_getcwd m tmpcwd;
        '(_, m, tmpcwd) ← stralloc_nul m tmpcwd;
        Some (m, tmpcwd, tmpcwd)
    end;
  a ← path_is_absolute path;
  '(r, m, sa) ←
    (if negb a && (sa_len sa =? 0) then
       n ← str_len path;
       if Z.of_nat PATH_MAX <? u64 (sa_len cwd + Z.of_nat n + 1) then Some (0, m, sa) else
       d ← sa_view m cwd;
       let k := Z.to_nat (sa_len cwd) in
       buf ← byte_copy buf0 0 k (There d);
       buf ← store buf k "/"%C;
       buf ← byte_copy buf (k + 1) (n + 1) (There path);
       path_canonicalize buf0 fuel m buf sa symbolic
     else path_canonicalize buf0 fuel m path sa symbolic);
  Some (r, m, sa, tmpcwd).

(** The room doubles until the link fits; a failing [readlink] gives -1. *)
Fixpoint readlink_loop (m : mem) (path : list Z) (sa : stralloc) (n : Z) (fuel : nat)
    : option (Z * mem * stralloc) :=
  match fuel with
  | O => None
  | S fuel =>
      let n := 2 * n in
      '(_, m, sa) ← stralloc_ready m sa n;
      match readlink path with
      | None => Some (-1, m, SA (sa_s sa) (u64 (-1)) (sa_a sa))
      | Some target =>
          let got := take (Z.to_nat n) target in
          b ← sa_s sa;
          m ← mcopy m b 0 (Z.of_nat (length got)) (Const got);
          if Z.of_nat (length got) =? n then readlink_loop m path sa n fuel
          else Some (Z.of_nat (length got), m,
                 SA (sa_s sa) (Z.of_nat (length got)) (sa_a sa))
      end
  end.

Definition path_readlink (m : mem) (path : list Z) (sa : stralloc) (fuel : nat)
    : option (Z * mem * stralloc) :=
  readlink_loop m path sa 32 fuel.

End system.

(** * Lemmas *)

(** ** Components *)

(** A name between separators that is neither [.] nor [..]. *)
Definition named (c : list Z) : Prop :=
  c <> [] /\ nonul c /\ "/"%C ∉ c /\ c <> lit "." /\ c <> lit "..".

(** The text of an absolute path, and of a relative one. *)
Definition abs (cs : list (list Z)) : list Z := concat (map (cons "/"%C) cs).

Definition rel (cs : list (list Z)) : list Z :=
  match cs with [] => [] | c :: cs => c ++ abs cs end.

Lemma abs_app (cs ds : list (list Z)) : abs (cs ++ ds) = abs cs ++ abs ds.
Proof. unfold abs. by rewrite map_app, concat_app. Qed.

Lemma abs_cons (c : list Z) (cs : list (list Z)) : abs (c :: cs) = "/"%C :: c ++ abs cs.
Proof. done. Qed.

Lemma abs_rel (c : list Z) (cs : list (list Z)) : abs (c :: cs) = "/"%C :: rel (c :: cs).
Proof. done. Qed.

Lemma named_sep (c : list Z) : named c -> Forall (fun x => notsep x = true) c.
Proof.
  intros (_ & _ & H & _). apply list.Forall_forall. intros x Hx. unfold notsep, path_issep.
  apply negb_true_iff, Z.eqb_neq. by intros ->.
Qed.

Lemma named_head (c : list Z) : named c -> exists x c', c = x :: c' /\ path_issep x = false.
Proof.
  intros H. pose proof (named_sep c H) as Hs. destruct c as [|x c]; [by destruct H|].
  exists x, c. split; [done|]. apply list.Forall_cons in Hs as [Hx _].
  unfold notsep in Hx. by apply negb_true_iff.
Qed.

Lemma nonul_abs (cs : list (list Z)) : Forall named cs -> nonul (abs cs).
Proof.
  induction 1 as [|c cs Hc _ IH]; [constructor|]. rewrite abs_cons. constructor; [lia|].
  apply Forall_app. split; [by apply Hc|done].
Qed.

(** ** Scanning *)

Lemma scan_while_ok (P : Z -> bool) (l r : list Z) (n : nat) :
  Forall (fun x => P x = true) l -> (length l <= n)%nat ->
  (length l < n -> exists x r', r = x :: r' /\ P x = false)%nat ->
  scan_while P (l ++ r) n = Some (length l).
Proof.
  intros Hl. revert n. induction Hl as [|x l Hx _ IH]; intros n Hn Hr; cbn [app length] in *.
  - destruct n as [|n]; [done|]. destruct Hr as (x & r' & -> & Hx); [lia|]. cbn. by rewrite Hx.
  - destruct n as [|n]; [lia|]. cbn [scan_while]. rewrite Hx, IH; [done|lia|].
    intros Hn'. apply Hr. lia.
Qed.

(** A name, and the separator behind it. *)
Lemma scan_name (c r : list Z) (n : nat) :
  named c -> (length c <= n)%nat -> (length c < n -> exists r', r = "/"%C :: r')%nat ->
  scan_while notsep (c ++ r) n = Some (length c).
Proof.
  intros Hc Hn Hr. apply scan_while_ok; [by apply named_sep|done|].
  intros Hlt. destruct (Hr Hlt) as [r' ->]. by eexists _, _.
Qed.

Lemma scan_sep (r : list Z) (n : nat) :
  (1 < n -> exists x r', r = x :: r' /\ path_issep x = false)%nat -> (1 <= n)%nat ->
  scan_while path_issep ("/"%C :: r) n = Some 1%nat.
Proof.
  intros Hr Hn. apply (scan_while_ok path_issep ["/"%C] r n); [by repeat constructor|done|done].
Qed.

Lemma head_of_rel (cs : list (list Z)) (r : list Z) :
  Forall named cs -> cs <> [] -> exists x r', rel cs ++ r = x :: r' /\ path_issep x = false.
Proof.
  intros H Hne. destruct cs as [|c cs]; [done|]. apply list.Forall_cons in H as [Hc _].
  destruct (named_head c Hc) as (x & c' & -> & Hx). by eexists _, _.
Qed.

(** ** Common prefixes *)

(** Two paths that share the components [cs]: what is left starts differently or
    one of them is at its end. *)
Definition parted (as_ bs : list (list Z)) : Prop :=
  match as_, bs with a :: _, b :: _ => a <> b | _, _ => True end.

Lemma drop_past (p t : list Z) (k : nat) : drop (length p + k) (p ++ t) = drop k t.
Proof. by rewrite <- drop_drop, drop_app_length. Qed.

(** One turn in which both paths have a separator and a component. *)
Lemma common_turn (c d p1 p2 r1 r2 : list Z) (n1 n2 fuel : nat) :
  named c -> named d -> length p1 = length p2 ->
  (length p1 + S (length c) <= n1)%nat -> (length p2 + S (length d) <= n2)%nat ->
  (length p1 + S (length c) < n1 -> exists r', r1 = "/"%C :: r')%nat ->
  (length p2 + S (length d) < n2 -> exists r', r2 = "/"%C :: r')%nat ->
  common_loop (p1 ++ "/"%C :: c ++ r1) n1 (p2 ++ "/"%C :: d ++ r2) n2 (length p1) (length p2)
    (S fuel) =
  if decide (c = d) then
    common_loop (p1 ++ "/"%C :: c ++ r1) n1 (p2 ++ "/"%C :: d ++ r2) n2
      (length p1 + S (length c)) (length p2 + S (length d)) fuel
  else Some (length p1 + 1, length p2 + 1)%nat.
Proof.
  intros Hc Hd Hp H1 H2 Hr1 Hr2. cbn [common_loop].
  replace (length p1 =? n1)%nat with false by (symmetry; apply Nat.eqb_neq; lia).
  replace (length p2 =? n2)%nat with false by (symmetry; apply Nat.eqb_neq; lia). cbn [orb].
  rewrite !drop_app_length.
  assert (forall c r n, named c -> (1 <= n)%nat ->
    path_skip_separator ("/"%C :: c ++ r) n = Some 1%nat) as Hs.
  { intros e r n He Hn. apply scan_sep; [|lia]. destruct (named_head e He) as (x & e' & -> & Hx).
    by eexists _, _. }
  rewrite !Hs by (done || lia). cbn [mbind option_bind eqb negb Nat.ltb Nat.leb].
  rewrite !drop_past. cbn [drop skipn]. rewrite !drop_0.
  unfold path_skip_component. rewrite (scan_name c), (scan_name d); try done; try lia.
  2: { intros ?. apply Hr2. lia. }
  2: { intros ?. apply Hr1. lia. }
  change (0 <? 1)%nat with true. cbn [mbind option_bind eqb negb].
  rewrite <- !Nat.add_assoc. cbn [Nat.add].
  case_decide as He.
  - subst d. rewrite Nat.eqb_refl. cbn [negb].
    rewrite byte_diff_same; [done|rewrite length_app; lia|]. by rewrite !take_app_length.
  - destruct (Nat.eqb_spec (length c) (length d)) as [Hl|Hl]; [|done]. cbn [negb].
    destruct (diff_cases (c ++ r1) (d ++ r2) (length c)) as [Ht|(k & x & y & Hk & Hf)];
      [rewrite length_app; lia..| |].
    + rewrite take_app_length, Hl, take_app_length in Ht. done.
    + rewrite (byte_diff_differ _ _ _ _ _ _ Hk Hf). cbn [mbind option_bind].
      destruct Hf as (_ & _ & _ & Hne). by replace (x - y =? 0) with false by lia.
Qed.

(** The terminator behind a path is not read. *)
Lemma abs_next (cs : list (list Z)) (z : list Z) (n k : nat) :
  (n = k + length (abs cs))%nat -> (k < n -> exists r', abs cs ++ z = "/"%C :: r')%nat.
Proof. destruct cs as [|c cs]; [simpl; lia|]. intros _ _. by eexists. Qed.

Lemma common_loop_ok (cs as_ bs : list (list Z)) (z1 z2 : list Z) : Forall named (cs ++ as_) ->
  Forall named bs -> parted as_ bs -> forall p1 p2 n1 n2 fuel, length p1 = length p2 ->
  n1 = (length p1 + length (abs (cs ++ as_)))%nat -> n2 = (length p2 + length (abs (cs ++ bs)))%nat ->
  (length cs < fuel)%nat -> (as_ <> [] -> bs <> [] -> S (length cs) < fuel)%nat ->
  let k := (length (abs cs) + match as_, bs with _ :: _, _ :: _ => 1 | _, _ => 0 end)%nat in
  common_loop (p1 ++ abs (cs ++ as_) ++ z1) n1 (p2 ++ abs (cs ++ bs) ++ z2) n2
    (length p1) (length p2) fuel = Some (length p1 + k, length p2 + k)%nat.
Proof.
  induction cs as [|c cs IH]; intros Has Hbs Hpart p1 p2 n1 n2 fuel Hp Hn1 Hn2 Hf Hf' k.
  - cbn [app] in *. destruct fuel as [|fuel]; [lia|].
    destruct as_ as [|a as_]; [|destruct bs as [|b bs]].
    + cbn [common_loop]. replace (length p1 =? n1)%nat with true
        by (symmetry; apply Nat.eqb_eq; simpl in Hn1; lia).
      simpl. by rewrite !Nat.add_0_r.
    + cbn [common_loop]. replace (length p2 =? n2)%nat with true
        by (symmetry; apply Nat.eqb_eq; simpl in Hn2; lia). rewrite orb_true_r.
      simpl. by rewrite !Nat.add_0_r.
    + apply list.Forall_cons in Has as [Ha Has]. apply list.Forall_cons in Hbs as [Hb Hbs].
      rewrite !abs_cons in *. cbn [app length] in *. rewrite !length_app in *.
      rewrite <- !app_assoc. rewrite common_turn; try done; try lia.
      * cbn [parted] in Hpart. rewrite decide_False by done. done.
      * apply abs_next. lia.
      * apply abs_next. lia.
  - destruct fuel as [|fuel]; [simpl in Hf; lia|]. cbn [app length] in *.
    apply list.Forall_cons in Has as [Hc Has].
    rewrite !abs_cons in *. cbn [app length] in *. rewrite !length_app in *.
    rewrite <- !app_assoc. rewrite common_turn; try done; try lia; [|apply abs_next; lia..].
    rewrite decide_True by done.
    assert (forall p t : list Z, p ++ "/"%C :: c ++ t = (p ++ "/"%C :: c) ++ t) as Hap
      by (intros; by rewrite <- app_assoc).
    assert (forall p : list Z, (length p + S (length c) = length (p ++ "/"%C :: c))%nat) as Hlp
      by (intros; by rewrite length_app).
    rewrite !Hap, !Hlp. rewrite IH; try done; rewrite ?length_app; simpl; try lia.
    subst k. rewrite ?abs_cons. cbn [length]. rewrite ?length_app. cbn [length].
    f_equal. f_equal; lia.
Qed.

(** ** Going up *)

Definition ups (k : nat) : list Z := concat (replicate k (lit "../")).

(** [path_skip] takes a component and the separator behind it, unless it is the
    last character. *)
Lemma path_skip_ok (b z : list Z) (bs : list (list Z)) :
  named b -> Forall named bs ->
  path_skip (b ++ abs bs ++ z) (length b + length (abs bs)) =
    Some (length b + match bs with [] => 0 | _ => 1 end)%nat.
Proof.
  intros Hb Hbs. unfold path_skip. rewrite scan_name; [|done|lia|].
  2: { intros ?. destruct bs; [simpl in *; lia|]. by eexists. }
  cbn [mbind option_bind]. rewrite drop_app_length.
  destruct bs as [|c bs]; simpl.
  - replace (length b + 0 - length b - 1)%nat with O by lia. simpl. done.
  - apply list.Forall_cons in Hbs as [Hc _]. destruct (named_head c Hc) as (x & c' & -> & Hx).
    cbn [abs map concat app]. rewrite scan_sep; [done|by eexists _, _|simpl; lia].
Qed.

Lemma path_skip_slash (b z : list Z) (bs : list (list Z)) :
  named b -> path_skip (abs (b :: bs) ++ z) (length (abs (b :: bs))) = Some 1%nat.
Proof.
  intros Hb. unfold path_skip. rewrite abs_cons. cbn [app length scan_while].
  change (notsep "/"%C) with false. cbn [mbind option_bind]. rewrite drop_0.
  destruct (named_head b Hb) as (x & b' & -> & Hx). cbn [app].
  rewrite scan_sep; [done|by eexists _, _|simpl; lia].
Qed.

(** The loop that goes up, from the first character of a component. *)
Lemma up_loop_ok (bs : list (list Z)) : Forall named bs ->
  forall z m out xs fuel, rep m out xs -> lasts m ->
  small (Z.of_nat (length xs + 3 * length bs)) -> (length bs < fuel)%nat ->
  exists m' out', up_loop m (rel bs ++ z) (length (rel bs)) out fuel = Some (m', out') /\
    edits m out (xs ++ ups (length bs)) m' out' /\ lasts m'.
Proof.
  induction 1 as [|b bs Hb Hbs IH]; intros z m out xs [|fuel] Hr Hm Hs Hf; cbn [length] in *; try lia.
  - exists m, out. cbn. split; [by destruct z|]. rewrite app_nil_r. split; [|done].
    split; [|done]. destruct out. apply evolves_refl, Hr.
  - cbn [up_loop rel]. rewrite <- app_assoc, length_app, path_skip_ok by done.
    cbn [mbind option_bind]. destruct (named_head b Hb) as (x & b' & Hx & _).
    replace (length b + _ =? 0)%nat with false by (symmetry; apply Nat.eqb_neq; subst; simpl; lia).
    unfold small in *.
    assert (yields m out xs (xs ++ lit "../") (stralloc_cats m out (Const (lit "../" ++ [0])))) as Hy.
    { change (lit "../" ++ [0]) with (cstr (lit "../") ++ []).
      apply cats_ok; [done|nonul_lit|unfold small; simpl; lia]. }
    destruct (yields_now _ _ _ _ _ Hm Hy) as (m1 & out1 & -> & Hed & Hm1).
    cbn [mbind option_bind].
    assert (exists z', drop (length b + match bs with [] => 0 | _ => 1 end) (b ++ abs bs ++ z) =
      rel bs ++ z') as [z' ->].
    { rewrite drop_past. destruct bs as [|c bs]; [by exists z|]. exists z. rewrite abs_rel.
      cbn [app drop skipn]. by rewrite drop_0. }
    replace (length b + length (abs bs) - _)%nat with (length (rel bs)).
    2: { destruct bs as [|c bs]; [simpl; lia|]. rewrite abs_rel. cbn [length]. lia. }
    destruct (IH z' m1 out1 (xs ++ lit "../") fuel) as (m2 & out2 & -> & Hed2 & Hm2);
      [apply Hed|done|rewrite length_app; simpl; lia|lia|].
    exists m2, out2. split; [done|]. split; [|done]. rewrite <- app_assoc in Hed2.
    by eapply edits_trans.
Qed.

(** The directories gone up: one more than there are when the path is the
    directory [s2] starts from or lies above. *)
Definition ups_needed (as_ bs : list (list Z)) : nat :=
  match bs with [] => O | _ => (length bs + match as_ with [] => 1 | _ => 0 end)%nat end.

Definition relative_text (as_ bs : list (list Z)) : list Z :=
  match ups (ups_needed as_ bs) ++ rel as_ with [] => lit "." | l => l end.

Lemma length_abs_le (cs : list (list Z)) : (length cs <= length (abs cs))%nat.
Proof.
  induction cs as [|c cs IH]; [done|]. rewrite abs_cons. cbn [length]. rewrite length_app. lia.
Qed.

Lemma length_abs_named (cs : list (list Z)) :
  Forall named cs -> (2 * length cs <= length (abs cs))%nat.
Proof.
  induction 1 as [|c cs Hc _ IH]; [done|]. rewrite abs_cons. cbn [length]. rewrite length_app.
  destruct (named_head c Hc) as (x & c' & -> & _). cbn [length]. lia.
Qed.

(** Going up from what the common prefix leaves of the second path. *)
Lemma go_up_ok (as_ bs : list (list Z)) (z : list Z) (m : mem) (out : stralloc) (fuel : nat) :
  Forall named bs -> rep m out [] -> lasts m -> small (Z.of_nat (3 * length bs + 3)) ->
  (0 < fuel)%nat -> (bs <> [] -> S (length bs) < fuel)%nat ->
  let left_ := match as_, bs with _ :: _, _ :: _ => rel bs | _, _ => abs bs end in
  exists m' out', up_loop m (left_ ++ z) (length left_) out fuel = Some (m', out') /\
    edits m out (ups (ups_needed as_ bs)) m' out' /\ lasts m'.
Proof.
  intros Hbs Hr Hm Hs H0 Hf left_. unfold ups_needed.
  destruct bs as [|b bs]; [|destruct as_ as [|a as_]].
  - destruct (up_loop_ok [] Hbs z m out [] fuel Hr Hm) as (m' & out' & E & Hed);
      [unfold small in *; cbn [length] in *; lia|cbn [length] in *; lia|].
    exists m', out'. subst left_. by destruct as_.
  - specialize (Hf ltac:(done)). destruct fuel as [|fuel]; [lia|]. subst left_. cbn [up_loop].
    pose proof Hbs as Hbs'. apply list.Forall_cons in Hbs as [Hb _].
    rewrite path_skip_slash by done. cbn [mbind option_bind Nat.eqb].
    assert (yields m out [] (lit "../") (stralloc_cats m out (Const (lit "../" ++ [0])))) as Hy.
    { change (lit "../" ++ [0]) with (cstr (lit "../") ++ []).
      apply (cats_ok m out [] (lit "../")); [done|nonul_lit|unfold small; simpl; lia]. }
    destruct (yields_now _ _ _ _ _ Hm Hy) as (m1 & out1 & -> & Hed & Hm1).
    cbn [mbind option_bind]. rewrite abs_rel. cbn [app drop skipn length].
    rewrite drop_0, Nat.sub_succ, Nat.sub_0_r.
    destruct (up_loop_ok (b :: bs) Hbs' z m1 out1 (lit "../") fuel) as (m2 & out2 & -> & Hed2 & Hm2);
      [apply Hed|done|unfold small in *; simpl in *; lia|simpl in *; lia|].
    exists m2, out2. split; [done|]. split; [|done].
    cbn [length]. rewrite Nat.add_1_r. eapply edits_trans; [exact Hed|exact Hed2].
  - specialize (Hf ltac:(done)). destruct (up_loop_ok (b :: bs) Hbs z m out [] fuel Hr Hm) as (m' & out' & E & Hed);
      [unfold small in *; cbn [length] in *; lia|cbn [length] in *; lia|].
    exists m', out'. subst left_. by rewrite Nat.add_0_r.
Qed.

(** A dot for the empty result, and the terminator. *)
Lemma finish_ok (m : mem) (out : stralloc) (xs : list Z) :
  rep m out xs -> lasts m -> small (Z.of_nat (length xs + 2)) ->
  exists m' out', ('(_, m, out) ← (if sa_len out =? 0 then stralloc_catc m out "."%C
                                   else Some (true, m, out));
    '(_, m, out) ← stralloc_nul m out; Some (1, m, out)) = Some (1, m', out') /\
    edits m out (match xs with [] => lit "." | l => l end) m' out' /\ lasts m'.
Proof.
  intros Hr Hm Hs. unfold small in Hs. rewrite (rep_len _ _ _ Hr). destruct xs as [|x xs].
  - destruct (yields_now _ _ _ _ _ Hm (catc_ok m out [] "."%C Hr ltac:(unfold small; simpl; lia)))
      as (m1 & out1 & -> & Hed & Hm1). cbn [length]. change (Z.of_nat 0 =? 0) with true.
    cbn [mbind option_bind].
    destruct (nul_ok m1 out1 _ (proj2 Hed) Hm1) as (m2 & out2 & z & -> & Hed2 & Hm2 & _);
      [unfold small; simpl; lia|].
    exists m2, out2. split; [done|]. split; [by eapply edits_trans|done].
  - cbn [length]. replace (Z.of_nat (S _) =? 0) with false by lia. cbn [mbind option_bind].
    destruct (nul_ok m out _ Hr Hm) as (m2 & out2 & z & -> & Hed2 & Hm2 & _);
      [unfold small; simpl in *; lia|]. by exists m2, out2.
Qed.

Lemma path_relative_ok (cs as_ bs : list (list Z)) (z1 z2 : list Z) (m : mem) (out : stralloc)
    (xs : list Z) :
  Forall named (cs ++ as_) -> Forall named (cs ++ bs) -> parted as_ bs -> rep m out xs -> lasts m ->
  small (Z.of_nat (3 * length (abs (cs ++ bs)) + length (abs (cs ++ as_)) + 9)) ->
  exists m' out', path_relative m (cstr (abs (cs ++ as_)) ++ z1) (cstr (abs (cs ++ bs)) ++ z2) out =
      Some (1, m', out') /\ edits m out (relative_text as_ bs) m' out' /\ lasts m'.
Proof.
  intros Has Hbs Hp Hr Hm Hs. unfold path_relative, small in *.
  rewrite !str_len_cstr by (by apply nonul_abs). cbn [mbind option_bind]. unfold path_relative_b, cstr.
  rewrite <- !app_assoc. cbn [app]. unfold path_common_prefix.
  pose proof (length_abs_le (cs ++ as_)) as Hl1. pose proof (length_abs_le (cs ++ bs)) as Hl2.
  rewrite !length_app in Hl1, Hl2. apply Forall_app in Hbs as [Hcs Hbs].
  pose proof (common_loop_ok cs as_ bs (0 :: z1) (0 :: z2) Has Hbs Hp [] []
    (length (abs (cs ++ as_))) (length (abs (cs ++ bs))) (S (length (abs (cs ++ as_)))) eq_refl
    eq_refl eq_refl) as Hc.
  cbn [app length Nat.add] in Hc. rewrite Hc; [|lia|destruct as_; [done|intros _ _; simpl in *; lia]].
  clear Hc. cbn [mbind option_bind]. rewrite !abs_app, <- !app_assoc, !drop_past, !length_app.
  rewrite !abs_app, !length_app in Hs. apply Forall_app in Has as [_ Has].
  assert (forall ds : list (list Z), forall k z, (k = 0 \/ k = 1 /\ ds <> [])%nat ->
    exists z', drop k (abs ds ++ 0 :: z) = (if (k =? 0)%nat then abs ds else rel ds) ++ z' /\
    (length (abs cs) + length (abs ds) - (length (abs cs) + k) =
      length (if (k =? 0)%nat then abs ds else rel ds))%nat) as Hleft.
  { intros ds k z [->|[-> Hne]]; cbn [Nat.eqb].
    - exists (0 :: z). split; [by rewrite drop_0|lia].
    - destruct ds as [|d ds]; [done|]. exists (0 :: z). rewrite abs_rel. cbn [app drop skipn length].
      rewrite drop_0. split; [done|lia]. }
  set (k := match as_ with [] => O | _ :: _ => match bs with [] => O | _ :: _ => 1%nat end end).
  assert (k = 0 \/ k = 1 /\ bs <> [])%nat as Hk2 by (subst k; destruct as_, bs; auto; by right).
  assert (k = 0 \/ k = 1 /\ as_ <> [])%nat as Hk1 by (subst k; destruct as_, bs; auto; by right).
  destruct (Hleft bs k z2 Hk2) as (y2 & -> & ->). destruct (Hleft as_ k z1 Hk1) as (y1 & -> & ->).
  destruct (go_up_ok as_ bs y2 m (stralloc_zero out) (S (length (abs cs) + length (abs bs))) Hbs)
    as (m1 & out1 & E & Hed & Hm1); [apply (zero_ok _ _ _ Hr)|done|..].
  { pose proof (length_abs_le bs). unfold small. lia. }
  { lia. }
  { intros Hne. pose proof (length_abs_named bs Hbs). destruct bs; [done|simpl in *; lia]. }
  assert ((if (k =? 0)%nat then abs bs else rel bs) =
    match as_, bs with _ :: _, _ :: _ => rel bs | _, _ => abs bs end) as Hb
    by (subst k; by destruct as_, bs).
  rewrite Hb, E. cbn [mbind option_bind]. clear E Hb.
  assert (length (rel as_) <= length (abs as_))%nat as Hrl
    by (destruct as_; [simpl; lia|rewrite abs_rel; simpl; lia]).
  assert (exists i, path_skip_separator ((if (k =? 0)%nat then abs as_ else rel as_) ++ y1)
      (length (if (k =? 0)%nat then abs as_ else rel as_)) = Some i /\
    (length (if (k =? 0)%nat then abs as_ else rel as_) - i = length (rel as_))%nat /\
    exists y, drop i ((if (k =? 0)%nat then abs as_ else rel as_) ++ y1) = rel as_ ++ y)
    as (i & E1 & E2 & y & E3).
  { clear -Has Hk1. destruct as_ as [|a as_].
    - exists O. destruct (k =? 0)%nat; simpl; (split; [done|]; split; [lia|]); by exists y1.
    - pose proof (head_of_rel (a :: as_) y1 Has ltac:(done)) as (x & r & Hx & Hsep).
      destruct (k =? 0)%nat.
      + exists 1%nat. rewrite abs_rel. cbn [app length drop skipn]. rewrite drop_0.
        split; [|split; [lia|by exists y1]]. apply scan_sep; [|lia]. rewrite Hx. by eexists _, _.
      + exists O. rewrite drop_0. split; [|split; [lia|by exists y1]].
        rewrite Hx. unfold path_skip_separator. destruct (length _); [done|]. simpl. by rewrite Hsep. }
  rewrite E1. cbn [mbind option_bind]. rewrite E2, E3.
  pose proof (proj2 Hed) as Hr1. assert (length (ups (ups_needed as_ bs)) <= 3 * length bs + 3)%nat as Hu.
  { unfold ups, ups_needed. assert (forall n, length (concat (replicate n (lit "../"))) = 3 * n)%nat as Hn
      by (induction n; simpl in *; lia). rewrite Hn. destruct bs; [lia|]. destruct as_; lia. }
  pose proof (length_abs_le bs) as Hl4.
  destruct (yields_now _ _ _ _ _ Hm1 (catb_ok m1 out1 _ (rel as_) _ _ Hr1 (reads_const m1 out1 (rel as_) y)
    eq_refl ltac:(unfold small; lia))) as (m2 & out2 & -> & Hed2 & Hm2).
  cbn [mbind option_bind].
  destruct (finish_ok m2 out2 _ (proj2 Hed2) Hm2) as (m3 & out3 & -> & Hed3 & Hm3).
  { rewrite length_app. unfold small. lia. }
  exists m3, out3. split; [done|]. split; [|done].
  eapply edits_trans; [by eapply (zero_ok _ _ _ Hr)|].
  eapply edits_trans; [exact Hed|]. eapply edits_trans; [exact Hed2|].
  unfold relative_text. by destruct (ups (ups_needed as_ bs) ++ rel as_).
Qed.

(** ** Canonical paths *)

(** A component that is not a step up, and that [path_canonicalize] does not
    take for a drive letter or for one that ends in a separator. *)
Definition plain (c : list Z) : Prop :=
  named c /\ list.last c <> Some "\"%C /\ (length c = 2%nat -> c !! 1%nat <> Some ":"%C).

Definition entry (c : list Z) : Prop := c = lit "." \/ plain c.

(** A path as it is written: components, each behind some slashes. *)
Definition render (toks : list (nat * list Z)) : list Z :=
  concat (map (fun t => replicate (fst t) "/"%C ++ snd t) toks).

Definition kept (toks : list (nat * list Z)) : list (list Z) :=
  filter (fun c => c <> lit ".") (map snd toks).

(** An absolute path with the root as ["/"]. *)
Definition rooted (cs : list (list Z)) : list Z := match cs with [] => lit "/" | _ => abs cs end.

(** What follows a component. *)
Definition stops (r : list Z) : Prop := exists x r', r = x :: r' /\ (x = "/"%C \/ x = 0).

Lemma scan_seps (k : nat) (x : Z) (r : list Z) :
  path_issep x = false -> scan_while_s path_issep (replicate k "/"%C ++ x :: r) = Some k.
Proof.
  intros Hx. induction k as [|k IH]; cbn [replicate app scan_while_s].
  - rewrite Hx. by destruct (x =? 0).
  - by rewrite IH.
Qed.

Lemma path_len_s_ok (c r : list Z) :
  named c -> stops r -> path_len_s (c ++ r) = Some (length c).
Proof.
  intros Hc (x & r' & -> & Hx). pose proof (named_sep c Hc) as Hs. destruct Hc as (_ & Hn & _).
  unfold path_len_s. induction c as [|y c IH]; cbn [app scan_while_s length].
  - destruct Hx as [-> | ->]; done.
  - apply list.Forall_cons in Hs as [Hy Hs]. apply list.Forall_cons in Hn as [Hy0 Hn].
    rewrite Hy, IH by done. by replace (y =? 0) with false by lia.
Qed.

Lemma named_chars (c : list Z) : named c -> Forall (fun x => x <> 0 /\ path_issep x = false) c.
Proof.
  intros H. pose proof (named_sep c H) as Hs. destruct H as (_ & Hn & _).
  induction c as [|x c IH]; [constructor|]. apply list.Forall_cons in Hs as [Hx Hs].
  apply list.Forall_cons in Hn as [Hx0 Hn]. constructor; [|by apply IH].
  split; [lia|]. by apply negb_true_iff.
Qed.

Lemma classify_name (c r : list Z) : named c -> stops r -> classify (c ++ r) = Some Name.
Proof.
  intros Hc (x & r' & -> & Hx). pose proof (named_chars c Hc) as Hs.
  destruct Hc as (Hne & _ & _ & H1 & H2). unfold classify.
  destruct c as [|a c]; [done|]. apply list.Forall_cons in Hs as [[Ha0 Ha] Hs].
  cbn [app load lookup list_lookup]. cbn [mbind option_bind].
  destruct (Z.eqb_spec a "."%C) as [->|_]; [|by destruct (Z.eqb_spec a 0)].
  destruct c as [|b c]; [done|]. apply list.Forall_cons in Hs as [[Hb0 Hb] Hs].
  cbn. rewrite Hb. destruct (Z.eqb_spec b 0); [done|]. cbn [orb].
  destruct (Z.eqb_spec b 46) as [->|]; [|done].
  destruct c as [|d c]; [done|]. apply list.Forall_cons in Hs as [[Hd0 Hd] _].
  cbn. rewrite Hd. by destruct (Z.eqb_spec d 0).
Qed.

Lemma last_rooted (cs : list (list Z)) (c : list Z) :
  named c -> list.last (rooted (cs ++ [c])) = list.last c.
Proof.
  intros (Hne & _). unfold rooted. destruct (cs ++ [c]) eqn:E; [by destruct cs|]. rewrite <- E, abs_app.
  unfold abs at 2. cbn [map concat]. rewrite app_nil_r. rewrite last_app.
  rewrite last_cons. by destruct c as [|x c] using rev_ind; [|rewrite last_snoc].
Qed.

Lemma length_rooted (cs : list (list Z)) : (1 <= length (rooted cs) <= S (length (abs cs)))%nat.
Proof. destruct cs; [simpl; lia|]. unfold rooted. rewrite abs_cons. simpl. lia. Qed.

(** The separator in front of a component. *)
Lemma add_sep_ok (m : mem) (sa : stralloc) (cs : list (list Z)) :
  Forall plain cs -> rep m sa (rooted cs) -> lasts m -> small (Z.of_nat (length (abs cs) + 3)) ->
  exists m' sa', (if sa_len sa =? 0 then Some (m, sa) else
     l ← sa_view m sa;
     c ← load l (Z.to_nat (sa_len sa) - 1);
     if negb (c =? "/"%C) && negb (c =? "\"%C)
     then '(_, m, sa) ← stralloc_catc m sa "/"%C; Some (m, sa) else Some (m, sa)) = Some (m', sa') /\
    edits m sa (abs cs ++ ["/"%C]) m' sa' /\ lasts m'.
Proof.
  intros Hcs Hr Hm Hs. pose proof (length_rooted cs) as Hl. unfold small in Hs.
  replace (sa_len sa =? 0) with false by (rewrite (rep_len _ _ _ Hr); lia).
  destruct cs as [|c cs _] using rev_ind.
  - destruct (load_last m sa [] "/"%C Hr) as (l & -> & E). cbn [mbind option_bind]. rewrite E.
    cbn. exists m, sa. split; [done|]. split; [by apply (edits_refl _ _ _ Hr)|done].
  - apply Forall_app in Hcs as [_ Hc]. apply list.Forall_cons in Hc as [(Hc & Hback & _) _].
    pose proof (last_rooted cs c Hc) as Hlast. pose proof (named_chars c Hc) as Hch.
    destruct c as [|x c _] using rev_ind; [by destruct Hc|]. rewrite last_snoc in Hback, Hlast.
    apply list.last_Some in Hlast as [ys Hys].
    rewrite Hys in Hr. destruct (load_last m sa ys x Hr) as (l & -> & E). cbn [mbind option_bind].
    rewrite E. cbn [mbind option_bind]. apply Forall_app in Hch as [_ Hx].
    apply list.Forall_cons in Hx as [[_ Hx] _]. unfold path_issep in Hx. rewrite Hx.
    replace (x =? "\"%C) with false by (symmetry; apply Z.eqb_neq; congruence).
    rewrite <- Hys in Hr. cbn [negb andb].
    destruct (yields_now _ _ _ _ _ Hm (catc_ok m sa _ "/"%C Hr ltac:(unfold small; lia)))
      as (m1 & sa1 & -> & Hed & Hm1). exists m1, sa1. split; [done|]. split; [|done].
    unfold rooted in Hed. by destruct (cs ++ [c ++ [x]]) eqn:E'; [destruct cs|].
Qed.

Lemma nonul_rooted (cs : list (list Z)) : Forall named cs -> nonul (rooted cs).
Proof.
  intros H. destruct cs; [by repeat constructor; lia|]. by apply nonul_abs.
Qed.

Lemma rooted_snoc (cs : list (list Z)) (c : list Z) : rooted (cs ++ [c]) = abs cs ++ "/"%C :: c.
Proof.
  unfold rooted. destruct (cs ++ [c]) eqn:E; [by destruct cs|]. rewrite <- E, abs_app. cbn.
  by rewrite app_nil_r.
Qed.

Lemma add_name_ok (m : mem) (sa : stralloc) (cs : list (list Z)) (c r : list Z) :
  Forall plain (cs ++ [c]) -> stops r -> rep m sa (rooted cs) -> lasts m ->
  small (Z.of_nat (length (abs cs) + length c + 4)) ->
  exists m' sa', add_name m sa (c ++ r) "/"%C = Some (length c, m', sa') /\
    edits m sa (rooted (cs ++ [c])) m' sa' /\ lasts m' /\
    sa_name m' sa' = Some (rooted (cs ++ [c])).
Proof.
  intros Hcs Hr Hrep Hm Hs. unfold small in Hs. unfold add_name.
  pose proof Hcs as Hall. apply Forall_app in Hcs as [Hcs Hc].
  apply list.Forall_cons in Hc as [(Hc & _ & Hdrive) _].
  destruct (add_sep_ok m sa cs Hcs Hrep Hm ltac:(unfold small; lia)) as (m1 & sa1 & -> & Hed1 & Hm1).
  cbn [mbind option_bind]. rewrite path_len_s_ok by done. cbn [mbind option_bind].
  destruct (yields_now _ _ _ _ _ Hm1 (catb_ok m1 sa1 _ c _ _ (proj2 Hed1) (reads_const m1 sa1 c r)
    eq_refl ltac:(rewrite length_app; cbn [length]; unfold small; lia)))
    as (m2 & sa2 & -> & Hed2 & Hm2).
  cbn [mbind option_bind]. rewrite <- app_assoc in Hed2. cbn [app] in Hed2.
  assert ((if (length c =? 2)%nat then c ← load (c ++ r) 1; Some (c =? ":"%C) else Some false)
    = Some false) as ->.
  { destruct (Nat.eqb_spec (length c) 2) as [E|]; [|done]. specialize (Hdrive E).
    unfold load. rewrite lookup_app_l by lia.
    destruct (c !! 1%nat) as [x|] eqn:Ex; [|apply lookup_ge_None in Ex; lia]. cbn.
    f_equal. apply Z.eqb_neq. congruence. }
  cbn [mbind option_bind].
  destruct (nul_ok m2 sa2 _ (proj2 Hed2) Hm2) as (m3 & sa3 & z & -> & Hed3 & Hm3 & Hv).
  { rewrite length_app. cbn [length]. unfold small. lia. }
  rewrite <- rooted_snoc in Hed2, Hed3, Hv.
  exists m3, sa3. split; [done|]. split; [|split; [done|]].
  - eapply edits_trans; [exact Hed1|]. eapply edits_trans; [exact Hed2|exact Hed3].
  - unfold sa_name. rewrite Hv. cbn [mbind option_bind].
    change (rooted (cs ++ [c]) ++ 0 :: z) with (rooted (cs ++ [c]) ++ [0] ++ z). rewrite app_assoc.
    fold (cstr (rooted (cs ++ [c]))). assert (nonul (rooted (cs ++ [c]))) as Hn.
    { apply nonul_rooted. eapply list.Forall_impl; [exact Hall|]. by intros ? [? _]. }
    rewrite str_len_cstr by done.
    cbn [mbind option_bind]. unfold cstr. by rewrite <- app_assoc, take_app_length.
Qed.

(** Every component but the first is behind a slash. *)
Definition spaced (toks : list (nat * list Z)) : Prop := Forall (fun t => 1 <= fst t)%nat (tail toks).

Lemma stops_render (toks : list (nat * list Z)) (t : nat) (z : list Z) :
  Forall (fun t => 1 <= fst t)%nat toks -> stops (render toks ++ replicate t "/"%C ++ 0 :: z).
Proof.
  intros H. destruct toks as [|[[|k] c] toks].
  - destruct t; simpl; eexists _, _; eauto.
  - apply list.Forall_cons in H as [H _]. simpl in H. lia.
  - simpl. eexists _, _; eauto.
Qed.

Lemma render_cons (k : nat) (c : list Z) (toks : list (nat * list Z)) (r : list Z) :
  render ((k, c) :: toks) ++ r = replicate k "/"%C ++ c ++ render toks ++ r.
Proof. unfold render. cbn. by rewrite <- !app_assoc. Qed.

Lemma drop_seps (k : nat) (r : list Z) : drop k (replicate k "/"%C ++ r) = r.
Proof. rewrite <- (length_replicate k "/"%C) at 1. apply drop_app_length. Qed.

Lemma last_sep (k : nat) (r : list Z) :
  (if (k =? 0)%nat then Some "/"%C else load (replicate k "/"%C ++ r) (k - 1)) = Some "/"%C.
Proof.
  destruct k as [|k]; [done|]. cbn [Nat.eqb]. unfold load.
  rewrite lookup_app_l by (rewrite length_replicate; lia). apply lookup_replicate_2. lia.
Qed.

(** What a turn does at a component behind some slashes. *)
Lemma canon_turn `{FileSystem} (symbolic : bool) (buf0 buf r : list Z) (k fuel : nat) (m : mem)
    (sa : stralloc) (x ret : Z) (what : component) :
  path_issep x = false -> classify (x :: r) = Some what ->
  canon_loop symbolic buf0 (S fuel) m sa buf (There (replicate k "/"%C ++ x :: r)) "/"%C ret =
  match what with
  | End => '(_, m, sa) ← (if sa_len sa =? 0 then stralloc_catc m sa "/"%C else Some (true, m, sa));
           Some (ret, m, sa)
  | Dot => canon_loop symbolic buf0 fuel m sa buf (There r) "/"%C ret
  | DotDot => sa ← remove_last m sa;
              canon_loop symbolic buf0 fuel m sa buf (There (drop 1 r)) "/"%C ret
  | Name => canon_loop symbolic buf0 (S fuel) m sa buf (There (x :: r)) "/"%C ret
  end.
Proof.
  intros Hx Hw. assert (what <> End -> x =? 0 = false) as H0.
  { unfold classify, load in Hw. cbn in Hw. destruct (Z.eqb_spec x 0) as [->|]; [|done].
    cbn in Hw. congruence. }
  cbn [canon_loop from_ptr advance]. rewrite scan_seps by done. cbn [mbind option_bind].
  rewrite last_sep, drop_seps. cbn [mbind option_bind]. rewrite Hw. cbn [mbind option_bind].
  assert (load (replicate k "/"%C ++ x :: r) 0 = Some (if (k =? 0)%nat then x else "/"%C)) as ->
    by (by destruct k).
  change (load (x :: r) 0) with (Some x). cbn [mbind option_bind].
  assert (scan_while_s path_issep (x :: r) = Some O) as -> by apply (scan_seps 0 x r Hx).
  cbn [mbind option_bind Nat.eqb drop]. rewrite ?drop_0, Hw. cbn [mbind option_bind].
  destruct what; try (rewrite H0 by done); destruct k; cbn [Nat.eqb]; try rewrite H0 by done;
    try reflexivity.
  by destruct (x =? 0).
Qed.

Lemma canon_name `{FileSystem} (symbolic : bool) (buf0 buf r : list Z) (fuel : nat) (m m' : mem)
    (sa sa' : stralloc) (x ret : Z) (n : nat) (name : list Z) :
  path_issep x = false -> classify (x :: r) = Some Name ->
  add_name m sa (x :: r) "/"%C = Some (n, m', sa') -> sa_name m' sa' = Some name ->
  symlink name = false ->
  canon_loop symbolic buf0 (S fuel) m sa buf (There (x :: r)) "/"%C ret =
  canon_loop symbolic buf0 fuel m' sa' buf (There (drop n (x :: r))) "/"%C ret.
Proof.
  intros Hx Hw Ha Hn Hs. cbn [canon_loop from_ptr advance].
  assert (scan_while_s path_issep (x :: r) = Some O) as -> by apply (scan_seps 0 x r Hx).
  cbn [mbind option_bind Nat.eqb]. rewrite !drop_0, Hw. cbn [mbind option_bind].
  rewrite Ha. cbn [mbind option_bind]. rewrite Hn. cbn [mbind option_bind]. rewrite Hs, andb_false_r.
  change (load (x :: r) 0) with (Some x). cbn [mbind option_bind].
  replace (x =? 0) with false; [done|]. unfold classify, load in Hw. cbn in Hw.
  by destruct (Z.eqb_spec x 0) as [->|].
Qed.

Lemma kept_cons (k : nat) (c : list Z) (toks : list (nat * list Z)) :
  kept ((k, c) :: toks) = (if decide (c = lit ".") then [] else [c]) ++ kept toks.
Proof.
  unfold kept. cbn [map snd]. rewrite filter_cons. destruct (decide (c = lit ".")) as [->|Hne].
  - by rewrite decide_False by (intros H; by apply H).
  - by rewrite decide_True.
Qed.

Lemma length_render_cons (k : nat) (c : list Z) (toks : list (nat * list Z)) :
  length (render ((k, c) :: toks)) = (k + length c + length (render toks))%nat.
Proof.
  rewrite <- (app_nil_r (render (_ :: _))), render_cons, !length_app, length_replicate. simpl. lia.
Qed.

(** A path without links and steps up becomes the components that are not
    [.]. *)
Lemma canon_loop_ok `{FileSystem} (symbolic : bool) (buf0 buf z : list Z) (t : nat) (ret : Z)
    (toks : list (nat * list Z)) :
  (forall name, symlink name = false) ->
  forall cs m sa fuel,
  Forall (fun t => entry (snd t)) toks -> Forall (fun t => 1 <= fst t)%nat (tail toks) ->
  Forall plain cs -> rep m sa (rooted cs) -> lasts m ->
  small (Z.of_nat (length (abs cs) + (length (render toks) + length toks) + 4)) ->
  (length toks < fuel)%nat ->
  exists m' sa', canon_loop symbolic buf0 fuel m sa buf
      (There (render toks ++ replicate t "/"%C ++ 0 :: z)) "/"%C ret = Some (ret, m', sa') /\
    edits m sa (rooted (cs ++ kept toks)) m' sa' /\ lasts m'.
Proof.
  intros Hfs. induction toks as [|[k c] toks IH];
    intros cs m sa fuel Htoks Hsp Hcs Hr Hm Hs Hf; (destruct fuel as [|fuel]; [simpl in Hf; lia|]).
  - change (render [] ++ replicate t "/"%C ++ 0 :: z) with (replicate t "/"%C ++ 0 :: z).
    rewrite (canon_turn _ _ _ _ _ _ _ _ _ _ End) by done.
    replace (sa_len sa =? 0) with false
      by (pose proof (length_rooted cs); rewrite (rep_len _ _ _ Hr); lia).
    exists m, sa. split; [done|]. split; [|done]. unfold kept. cbn. rewrite app_nil_r.
    by apply edits_refl.
  - apply list.Forall_cons in Htoks as [Hc Htoks]. cbn [snd] in Hc. cbn [tail] in Hsp.
    pose proof (stops_render toks t z Hsp) as Hstop. cbn [length] in Hf, Hs.
    rewrite length_render_cons in Hs. unfold small in *.
    assert (Forall (fun t => 1 <= fst t)%nat (tail toks)) as Hsp' by (destruct Hsp; done).
    rewrite render_cons, kept_cons. destruct Hc as [->|Hc].
    + rewrite decide_True by done.
      change (lit "." ++ ?r) with ("."%C :: r). rewrite (canon_turn _ _ _ _ _ _ _ _ _ _ Dot).
      * apply IH; try done; lia.
      * done.
      * destruct Hstop as (x & r' & -> & [-> | ->]); done.
    + rewrite decide_False by (destruct Hc as [(_ & _ & _ & Hc & _) _]; done).
      destruct (named_head c (proj1 Hc)) as (x & c' & E & Hx).
      pose proof (classify_name c _ (proj1 Hc) Hstop) as Hw.
      assert (Forall plain (cs ++ [c])) as Hcs' by (apply Forall_app; split; [done|by constructor]).
      destruct (add_name_ok m sa cs c _ Hcs' Hstop Hr Hm ltac:(unfold small; lia))
        as (m1 & sa1 & Ha & Hed & Hm1 & Hn).
      assert (forall r, c ++ r = x :: c' ++ r) as Ec by (by rewrite E).
      rewrite Ec in Ha, Hw |- *.
      rewrite (canon_turn _ _ _ _ _ _ _ _ _ _ Name Hx Hw).
      rewrite (canon_name _ _ _ _ _ _ _ _ _ _ _ _ _ Hx Hw Ha Hn (Hfs _)).
      rewrite <- Ec, drop_app_length.
      destruct (IH (cs ++ [c]) m1 sa1 fuel) as (m2 & sa2 & -> & Hed2 & Hm2); try done.
      * apply (proj2 Hed).
      * rewrite abs_app, length_app, abs_cons. cbn. rewrite app_nil_r. lia.
      * lia.
      * exists m2, sa2. split; [done|]. split; [|done]. rewrite <- app_assoc in Hed2.
        by eapply edits_trans.
Qed.

(** ** Base names *)

Definition slashlike (c : Z) : bool := (c =? "/"%C) || (c =? "\"%C).

Lemma any_of_seps (c : Z) : any_of c (lit "/\") 2 = Some (slashlike c).
Proof. unfold slashlike. cbn. destruct (c =? 47); [done|]. by destruct (c =? 92). Qed.

Lemma rchrs_loop_none (cs r : list Z) (i : nat) (found : option nat) :
  nonul cs -> Forall (fun c => slashlike c = false) cs ->
  str_rchrs_loop (cs ++ 0 :: r) (lit "/\") 2 i found = Some (default (i + length cs)%nat found).
Proof.
  intros Hn Hc. revert i found. induction cs as [|c cs IH]; intros i found; cbn [app length].
  - cbn. f_equal. by rewrite Nat.add_0_r.
  - apply list.Forall_cons in Hn as [Hn0 Hn]. apply list.Forall_cons in Hc as [Hc0 Hc].
    cbn [str_rchrs_loop]. replace (c =? 0) with false by lia.
    rewrite any_of_seps, Hc0. cbn [mbind option_bind]. rewrite IH by done. by rewrite Nat.add_succ_comm.
Qed.

Lemma rchrs_loop_app (ps r : list Z) (i : nat) (found : option nat) :
  nonul ps -> exists found', str_rchrs_loop (ps ++ r) (lit "/\") 2 i found =
    str_rchrs_loop r (lit "/\") 2 (i + length ps) found'.
Proof.
  intros Hn. revert i found. induction ps as [|c ps IH]; intros i found; cbn [app length].
  - exists found. by rewrite Nat.add_0_r.
  - apply list.Forall_cons in Hn as [Hn0 Hn]. cbn [str_rchrs_loop].
    replace (c =? 0) with false by lia. rewrite any_of_seps. cbn [mbind option_bind].
    rewrite <- Nat.add_succ_comm. by apply IH.
Qed.

Lemma str_rchrs_last (ps cs r : list Z) (s : Z) :
  nonul (ps ++ s :: cs) -> slashlike s = true -> Forall (fun c => slashlike c = false) cs ->
  str_rchrs (ps ++ s :: cs ++ 0 :: r) (lit "/\") 2 = Some (length ps).
Proof.
  intros Hn Hs Hc. apply Forall_app in Hn as [Hps Hn]. apply list.Forall_cons in Hn as [Hs0 Hn].
  unfold str_rchrs. destruct (rchrs_loop_app ps (s :: cs ++ 0 :: r) 0 None Hps) as [found ->].
  cbn [str_rchrs_loop]. replace (s =? 0) with false by lia. rewrite any_of_seps, Hs.
  cbn [mbind option_bind]. by rewrite rchrs_loop_none.
Qed.

Lemma load_at (ps r : list Z) (x : Z) : load (ps ++ x :: r) (length ps) = Some x.
Proof. by apply list_lookup_middle. Qed.

Lemma load_next (ps r : list Z) (x y : Z) : load (ps ++ x :: y :: r) (length ps + 1) = Some y.
Proof.
  replace (ps ++ x :: y :: r) with ((ps ++ [x]) ++ y :: r) by (by rewrite <- app_assoc).
  apply list_lookup_middle. rewrite length_app. cbn. lia.
Qed.

Lemma store_at (ps r : list Z) (x y : Z) : store (ps ++ x :: r) (length ps) y = Some (ps ++ y :: r).
Proof.
  unfold store. rewrite decide_True by (rewrite length_app; cbn; lia).
  by rewrite insert_app_r_alt, Nat.sub_diag by lia.
Qed.

Lemma basename_loop_ok (ps cs z : list Z) (t fuel : nat) :
  nonul ps -> nonul cs -> cs <> [] -> Forall (fun c => slashlike c = false) cs -> (t < fuel)%nat ->
  basename_loop (ps ++ "/"%C :: cs ++ replicate t "/"%C ++ 0 :: z) fuel =
    Some (ps ++ "/"%C :: cs ++ replicate t 0 ++ 0 :: z, S (length ps)).
Proof.
  intros Hps Hcs Hne Hc. revert z fuel. induction t as [|t IH]; intros z [|fuel] Hf; [lia| |lia|].
  - cbn [basename_loop replicate app]. rewrite str_rchrs_last; [|by apply Forall_app; split;
      [|constructor; [lia|]]|done|done].
    cbn [mbind option_bind]. rewrite load_at. cbn [mbind option_bind].
    destruct cs as [|c cs]; [done|]. apply list.Forall_cons in Hcs as [Hc0 _].
    cbn [app]. rewrite load_next. cbn [mbind option_bind].
    change ("/"%C =? 0) with false. replace (c =? 0) with false by lia. by rewrite Nat.add_1_r.
  - rewrite replicate_S_end, <- !app_assoc.
    set (pre := ps ++ "/"%C :: cs ++ replicate t "/"%C).
    assert (forall r, ps ++ "/"%C :: cs ++ replicate t "/"%C ++ r = pre ++ r) as Hpre.
    { intros r. subst pre. by rewrite <- !app_assoc, <- app_comm_cons, <- app_assoc. }
    rewrite Hpre. change (["/"%C] ++ 0 :: z) with ("/"%C :: [] ++ 0 :: z).
    cbn [basename_loop]. assert (nonul (pre ++ ["/"%C])) as Hn.
    { subst pre. repeat first [apply Forall_app; split | apply list.Forall_cons; split];
        try done; try lia; try constructor; try lia. apply Forall_replicate. lia. }
    rewrite str_rchrs_last by done. cbn [mbind option_bind app].
    rewrite load_at, load_next. cbn [mbind option_bind].
    replace (length pre =? 0)%nat with false
      by (symmetry; apply Nat.eqb_neq; subst pre; rewrite length_app; cbn; lia).
    change ("/"%C =? 0) with false. change (0 =? 0) with true. cbn iota.
    rewrite store_at. cbn [mbind option_bind].
    rewrite <- Hpre. rewrite (IH (0 :: z) fuel) by lia. by rewrite !replicate_S_end, <- !app_assoc.
Qed.

(** * Theorems *)

(** A directory the path names, [cs] one component at a time from the root; a
    step up from the root stays there. *)
Definition walk (base : list (list Z)) (up : nat) (down : list (list Z)) : list (list Z) :=
  take (length base - up) base ++ down.

Lemma walk_ups (cs as_ bs : list (list Z)) :
  walk (cs ++ bs) (ups_needed as_ bs) as_ =
    if decide (as_ = [] /\ bs <> []) then take (length cs - 1) cs else cs ++ as_.
Proof.
  unfold walk, ups_needed. rewrite length_app. destruct bs as [|b bs]; cbn [length].
  - rewrite decide_False by tauto. rewrite app_nil_r.
    by replace (length cs + 0 - 0)%nat with (length cs) by lia; rewrite firstn_all.
  - destruct as_ as [|a as_].
    + rewrite decide_True by done. rewrite app_nil_r.
      replace (length cs + S (length bs) - (S (length bs) + 1))%nat with (length cs - 1)%nat by lia.
      rewrite take_app_le by lia. done.
    + rewrite decide_False by (by intros []).
      replace (length cs + S (length bs) - (S (length bs) + 0))%nat with (length cs) by lia.
      by rewrite take_app_length.
Qed.



(** C22: without symbolic links, for an empty destination and as long as no
    request for memory is refused, [path_canonicalize] turns an absolute path
    without steps up, whose components do not end in a backslash and are not a
    character and a colon, into the components that are not [.], a slash before
    each and none at the end, whatever slashes the path has and however long it
    is, and the root into [/]; it answers 1 and ends after a turn for every
    component. *)
Theorem path_canonicalize_correct `{FileSystem} (symbolic : bool) (buf0 z : list Z) (t fuel : nat)
    (toks : list (nat * list Z)) (m : mem) (sa : stralloc)
    (Hfs : forall name, symlink name = false)
    (Htoks : Forall (fun t => entry (snd t)) toks)
    (Hsp : Forall (fun t => 1 <= fst t)%nat (tail toks))
    (Hr : rep m sa []) (Hm : lasts m)
    (Hs : small (Z.of_nat (length (render toks) + length toks + 4)))
    (Hf : (length toks < fuel)%nat) :
  exists m' sa', path_canonicalize buf0 fuel m
      ("/"%C :: render toks ++ replicate t "/"%C ++ 0 :: z) sa symbolic = Some (1, m', sa') /\
    edits m sa (rooted (kept toks)) m' sa'.
Proof.
  unfold path_canonicalize, canon_enter. cbn [from_ptr]. unfold load at 1.
  cbn [lookup list_lookup mbind option_bind].
  change (path_issep "/"%C) with true. cbn iota.
  destruct (yields_now _ _ _ _ _ Hm (catc_ok m sa _ "/"%C Hr ltac:(by vm_compute)))
    as (m1 & sa1 & -> & Hed & Hm1). cbn [mbind option_bind advance drop skipn].
  destruct (canon_loop_ok symbolic buf0 buf0 z t 1 toks Hfs [] m1 sa1 fuel Htoks Hsp)
    as (m2 & sa2 & E & Hed2 & _); try done; [apply (proj2 Hed)|].
  rewrite ?drop_0. exists m2, sa2. split; [exact E|]. by eapply edits_trans.
Qed.

(** A system whose names all exist and are not links. *)
Definition no_links : FileSystem := {|
  getcwd := fun _ => Some (lit "/");
  stat_ok := fun _ => true;
  lstat_ok := fun _ => true;
  symlink := fun _ => false;
  readlink := fun _ => None
|}.

Lemma path_canonicalize_correct_witness :
  exists m' sa', @path_canonicalize no_links (replicate (S PATH_MAX) 0) 4 mem0
      ("/"%C :: render [(1%nat, lit "usr"); (2%nat, lit "."); (1%nat, lit "lib")] ++
       replicate 2 "/"%C ++ 0 :: []) stralloc_init false = Some (1, m', sa') /\
    edits mem0 stralloc_init
      (rooted (kept [(1%nat, lit "usr"); (2%nat, lit "."); (1%nat, lit "lib")])) m' sa'.
Proof.
  apply (@path_canonicalize_correct no_links false (replicate (S PATH_MAX) 0) [] 2 4
    [(1%nat, lit "usr"); (2%nat, lit "."); (1%nat, lit "lib")] mem0 stralloc_init).
  - done.
  - repeat apply List.Forall_cons; try apply List.Forall_nil; [right|by left|right];
      (split; [repeat constructor; try done; try lia; set_solver by lia|by split]).
  - repeat constructor.
  - apply rep_init, mem0_wf.
  - apply mem0_lasts.
  - by vm_compute.
  - simpl. lia.
Defined.

(** [path_basename] answers with the component behind the last separator
    that is not at the end, and cuts the separators behind it off the argument
    by writing terminators over them; it ends. *)
Theorem path_basename_correct (dir base z : list Z) (t : nat)
    (Hd : nonul dir) (Hb : nonul base) (Hne : base <> [])
    (Hs : Forall (fun c => slashlike c = false) base) :
  path_basename (dir ++ "/"%C :: base ++ replicate t "/"%C ++ 0 :: z) =
    Some (dir ++ "/"%C :: base ++ replicate t 0 ++ 0 :: z, S (length dir)).
Proof.
  unfold path_basename. apply basename_loop_ok; try done.
  rewrite !length_app. cbn [length]. rewrite !length_app, length_replicate. lia.
Qed.

Lemma path_basename_correct_witness :
  path_basename (lit "/usr" ++ "/"%C :: lit "lib" ++ replicate 2 "/"%C ++ 0 :: []) =
    Some (lit "/usr" ++ "/"%C :: lit "lib" ++ replicate 2 0 ++ 0 :: [], 5%nat).
Proof.
  apply (path_basename_correct (lit "/usr") (lit "lib") [] 2);
    [nonul_lit|nonul_lit|done|by repeat constructor].
Defined.

(** The characters of a result. *)
Definition result_text (r : option (Z * mem * stralloc)) : option (list Z) :=
  '(_, m, sa) ← r; l ← sa_view m sa; Some (take (Z.to_nat (sa_len sa)) l).

(** A step up over the first component takes the slash of the root with it; a
    relative path that names the current directory becomes the root. *)
Theorem path_canonicalize_root :
  let canon s := result_text (@path_canonicalize no_links [] 9 mem0 (lit s ++ [0]) stralloc_init true) in
  canon "/a/b/../c"%string = Some (lit "/a/c") /\ canon "/a/../b"%string = Some (lit "b") /\
  canon "."%string = Some (lit "/").
Proof. by vm_compute. Qed.

(** [path_collapse] reads in front of the path when the first component is
    followed by a step up. *)
Theorem path_collapse_underflow :
  path_collapse (cstr (lit "/a/b/../c")) 9 = Some (lit "/a/c" ++ [0] ++ lit "../c" ++ [0], 4%nat) /\
  path_collapse (cstr (lit "/a/../c")) 7 = None /\ path_collapse (cstr (lit "a/../c")) 6 = None.
Proof. by vm_compute. Qed.

(** A path of one component has no separator on its right: the distance to the
    character in front of it is the largest number. *)
Theorem path_right_none (c : list Z) (Hc : Forall (fun x => notsep x = true) c) :
  path_right c (length c) = Some (2 ^ 64 - 1).
Proof.
  unfold path_right. assert (forall n, (n <= length c)%nat -> back_while notsep c n = Some O) as H.
  { induction n as [|n IH]; intros Hn; [done|]. cbn [back_while]. unfold load.
    destruct (c !! n) as [x|] eqn:E; [|apply lookup_ge_None in E; lia]. cbn [mbind option_bind].
    rewrite (proj1 (list.Forall_lookup _ _) Hc _ _ E). apply IH. lia. }
  assert (back_while path_issep c (length c) = Some (length c)) as ->.
  { destruct (length c) as [|n] eqn:Hn; [done|]. cbn [back_while]. unfold load.
    destruct (c !! n) as [x|] eqn:E; [|apply lookup_ge_None in E; lia]. cbn [mbind option_bind].
    pose proof (proj1 (list.Forall_lookup _ _) Hc _ _ E) as Hx. unfold notsep in Hx.
    apply negb_true_iff in Hx. by rewrite Hx. }
  cbn [mbind option_bind]. by rewrite H.
Qed.

(** The table over [path_dirname] in the source, for a directory with a slash
    at its end, for the root and for no path. *)
Theorem path_dirname_table :
  let dir s := '(m, sa) ← path_dirname mem0 (Some (cstr (lit s))) stralloc_init;
               result_text (Some (0, m, sa)) in
  dir "/usr/lib"%string = Some (lit "/usr") /\ dir "usr"%string = Some (lit ".") /\
  dir "/usr/"%string = Some (lit "/usr") /\ dir "/"%string = Some [] /\
  path_dirname mem0 None stralloc_init = None.
Proof. by vm_compute. Qed.
